(* ===== verification/_CoqProject ===== *)
-Q . S2P
Prelude.v
GoStr.v
GoSort.v
GoTime.v
GoPath.v
Json.v
JsonFacts.v
JsonStruct.v
Encode.v
TimeParse.v
GoTrim.v
GoErr.v
GoFile.v
Fs.v
Wp.v
FsFacts.v
Names.v
DeliveryRoot.v
DeliveryRootFacts.v
Sample.v
Ambient.v
AmbientFacts.v
Maildir.v
Delivery.v
Claim.v
Format.v
MessageFormat.v
AtomicFacts.v
DlqEnvelope.v
Dlq.v
DeadLetter.v
Retry.v
Receipt.v
ReceiptFacts.v
Doorbell.v
DoorbellFacts.v
SessionGuard.v
Supervisor.v
Validate.v
ValidateFacts.v
Thread.v
JsonUtf8.v
Drain.v
DrainLoop.v
Draining.v
DlqLive.v
DrainLive.v
Presence.v
Layout.v
Repair.v
ExistingInbox.v
Bridge.v
BridgeFacts.v
BridgeApply.v
Enqueue.v
Courier.v
CourierFacts.v
CourierPoll.v
CourierPush.v
EnqueueFacts.v
Swarm.v
SwarmBoard.v
SwarmTasks.v
SwarmBridge.v
SwarmNews.v
Registry.v
RegistryJson.v
RegistryMachine.v
RegistryFacts.v
RegistryStore.v
RegistrySafe.v
Keepalive.v
KeepaliveFacts.v
KeepalivePass.v
KeepaliveRegister.v
KeepaliveSafe.v
