(* ===== verification/Prelude.v ===== *)
(** * Verification of the agent message queue

    The program (Go, under src/) is a message queue for agents that run on one machine.  The
    queue is a directory tree: each agent has a mailbox agents/<handle> with an inbox in the
    manner of a maildir (inbox/tmp, inbox/new, inbox/cur), a dead-letter queue (dlq/tmp,
    dlq/new, dlq/cur), receipts and a presence file.  There is no server: every command of
    the program (send, drain, dlq retry, ...) is a process that works on the tree with
    renames, exclusive creations and directory syncs, any number of them at the same time,
    and each of them may be stopped at any point.  A helper process (wake) types reminders at
    an agent whose inbox is not drained, and a supervisor (keepalive) keeps the wakes alive.
    A bridge carries messages between machines: they are put into a spool, and a courier
    signs and sends them and applies what it receives.  A second bridge (swarm) connects the
    queue with the task lists of agent teams, which the program also claims and completes
    tasks of.

    ** The parts and the files that model them

    The language and the operating system:
    - GoStr, GoSort, GoTime, TimeParse, GoPath, GoErr: strings and bytes, sort.Slice as an
      interface (a class with the laws of a sort, and an instance), time stamps and their
      reading (time.Parse of RFC 3339, the inverse of the formatting), filepath.Join and
      Clean on lists of path components, and trees of wrapped and joined errors with
      errors.Is and errors.As.  GoTrim has what strings.TrimSpace leaves alone, Encode the
      hexadecimal and base64 encodings, with their round trips.
    - Json, JsonFacts, JsonStruct, JsonUtf8: encoding/json as the program uses it: a printer
      (MarshalIndent), a decoder, struct fields with omitempty and case folding, and the
      proofs that what is printed is decoded again and that a decoded string is valid UTF-8.
    - Fs, Wp, FsFacts: a POSIX file system.  A program is a tree of system calls (type
      [prog], a monad); [run] executes it in a [world] under an environment [env] that
      decides which calls fail and how far a write got before it failed, what the clock and
      the random source return, and the order in which directories are listed.  [trace] is
      the list of the worlds between the calls, which is where a process may be stopped.
      Wp has a weakest-precondition predicate with an invariant of every intermediate tree,
      which the components' proofs compose.
    - Sample: runs in which no call fails, and concrete worlds for the witnesses.

    internal/fsq, the queue:
    - Names: filename.go and the paths and handles of layout.go.
    - DeliveryRoot, DeliveryRootFacts: the capability of delivery_root.go through which the
      queue is accessed, its atomic and exclusive writes, no-follow reads and locks.
    - Ambient, AmbientFacts, AtomicFacts: the same operations on paths (atomic.go,
      regular_file.go), and what a write guarantees that creates a file or that replaces one
      atomically.
    - Maildir, Delivery: maildir.go, the delivery to one or several inboxes.
    - Claim: find.go and claim_rename_other.go, the claim of a message by a consumer.
    - DlqEnvelope, Dlq, DeadLetter, DlqLive, Retry: dlq.go, the dead-letter
      queue: envelopes, the move of a message into it, and retries.

    - Layout, Repair: the rest of layout.go with layout_cap_unix.go, the
      inspection of mailbox layouts and the repair of missing directories.
    - ExistingInbox: DeliverToExistingInbox of maildir.go, the delivery that creates no
      directories.

    internal/format and internal/receipt:
    - Format, MessageFormat: message.go and id.go, the text of messages, the
      three ways of reading it, identifiers and the order by time stamp.
    - Receipt, ReceiptFacts: receipt.go, emitting, reading, awaiting and listing receipts.

    internal/cli, internal/thread and internal/presence, on top of the queue:
    - Validate, ValidateFacts: validate.go, the acceptance of message headers.
    - Drain, DrainLoop, Draining, DrainLive: inbox_item.go and inbox_collect.go,
      draining an inbox (claim, read, validate, then dead-letter or acknowledge each
      message) and looking at it without draining.
    - Thread: the messages of one thread, collected from all the inboxes.
    - Presence: the status of an agent and the time it was last seen.

    internal/bridge and cmd/amq-bridge, between machines:
    - Bridge, BridgeFacts, BridgeApply: envelope.go, auth.go and apply.go, signed envelopes,
      key files and the application of an envelope to an inbox.
    - Enqueue, EnqueueFacts: enqueue.go and enqueue_config.go, the spool and its
      configuration.
    - Courier, CourierFacts, CourierPoll, CourierPush: courier.go and apply_file.go, pushing
      the spool, polling the rendezvous and applying a file by hand.

    internal/swarm and internal/lock, task lists of teams:
    - Swarm: paths.go, tasks.go, team.go and lock_unix.go.  A task file is read in two
      ways, into structs and into maps whose other members are kept.
    - SwarmBoard: the abstract machine, a board of tasks with a step relation for claiming,
      completing, failing and blocking, its invariants by induction on the steps, and how
      the text of a file stands for a board, on which the two ways of reading agree.
    - SwarmTasks: the operations refine the machine.
    - SwarmBridge, SwarmNews: bridge.go, the polls of the task list and the events they
      send.

    The rest:
    - Doorbell, DoorbellFacts: internal/cli/wake_doorbell.go and what one notification of
      internal/cli/wake.go does to the doorbell.
    - SessionGuard: internal/sessionguard, the policy table of the session guard.

    internal/keepalive, which keeps the wakes of registered agents alive:
    - Supervisor: supervisor.go, the decision about one registry entry.
    - GoFile: names of files and directories as the registry spells them, and the calls it
      makes on them.
    - Registry, RegistryJson: store.go (with store_unix.go and canonical_unix.go), the file
      of registered entries, replaced as a whole under its lock; what is written is read.
    - RegistryMachine: the abstract machine, a finite map of entries with a step relation
      for each operation, and its invariants by induction on the steps.
    - RegistryFacts, RegistryStore, RegistrySafe: the operations of the store refine the
      machine.
    - Keepalive: app.go, the commands (a pass of the supervisor, registering, collecting,
      forgetting, retiring a session), each the whole transaction under the registration
      lock.  Class [Outside] is the interface to the terminals and the amq program.
    - KeepaliveFacts, KeepalivePass, KeepaliveRegister, KeepaliveSafe: what the commands
      guarantee for every implementation of that interface that keeps its laws.

    A definition has the name of the Go function, method or type it translates; a helper
    with a lower-case descriptive name is a part of one (a loop body, a branch).  State is
    passed explicitly; a Go function that fails returns a pair with an optional error or a
    sum.  What the source takes from outside is an argument of the definitions: the text of
    an error (of which it is assumed that it is never empty and is valid UTF-8), the
    callbacks of a drain (after a claim, and the revalidation of its root); SHA-256 and
    Ed25519 (the class Crypto, with the laws in CryptoLaws: lengths, and that what was signed
    verifies); the network, URLs and IP addresses (the class Net), filepath.Abs; the home
    directory, strings.EqualFold and the text encoding/json prints for a float64 (the class
    Floats, with the law that it is a number again); the working directory and the symbolic
    links of the machine (the class Machine); the adapters of terminals and the amq program
    (the class Outside), which may do anything but write the registry, where asking for a
    wake and retiring one have a precondition that the callers prove (starts_ok, retires_ok),
    and of which outside_ok asks that one inventory gives one answer and that absence is
    reported only of what is absent.

    ** What the theorems show

    - Delivery (Delivery): a delivery that is stopped anywhere, under any failures, has
      changed nothing but dot files and its destinations, each of which is untouched or
      holds the whole message; success means that every recipient has it; an error accounts
      for every recipient; and without failures it succeeds.
    - Claiming (Claim): for any number of claimers in any interleaving, with any failures,
      at most one of them owns the message, whoever lost knows it, the message is always in
      exactly one of inbox/new and inbox/cur.  The claimers are a pool of programs with a
      step relation; the invariants go by induction on its steps.
    - The dead-letter queue (DeadLetter, Retry): a message on its way there is at every
      moment in the inbox or in a readable envelope; what is returned says where it is;
      envelopes survive writing and reading; a retry is recorded before the message becomes
      visible again, an envelope that was retried is not retried twice, and success means
      delivered and recorded.
    - Texts (MessageFormat, ReceiptFacts): receipts are read back as they were written, and
      messages with the defaults filled in, empty lists left out, and Unix line endings and a
      final newline in the body; a receipt is never seen in part; the two header readers agree, generated ids are valid file names, waiting
      for a receipt ends at its deadline, listing is complete and sorted.
    - Draining (Draining, DrainLive): whatever fails and wherever the run is stopped, each
      message is in inbox/new, in inbox/cur or in a readable envelope; the items that are
      returned say truthfully what became of each message.  Without failures, in a mailbox
      that is laid out and with fresh names for the envelopes, a drain gets through whatever
      the files contain: every message that can be read and whose header is accepted is taken,
      and every other one is in an envelope.
    - Headers (ValidateFacts): a header is accepted exactly when it meets a specification
      that is stated independently of the order of the checks.
    - Threads (Thread): the entries of a collected thread are those of files of the thread,
      one for each identifier; none is missing when no call fails, and they are in the order
      of time if the program wrote their time stamps (timestamp_circle has others).
    - Presence (Presence): touching a presence that carries the handle it is touched under
      changes nothing but the time last seen, and a touch that is stopped leaves the old
      presence, or none if there was none, or the whole new one.  (Another handle redirects
      the write: presence_touch_redirected.)
    - Layouts (Repair): a repair only adds directories that were missing, whatever fails, and
      reports what it created; a success leaves complete mailboxes.
    - The bridge (BridgeFacts, BridgeApply, EnqueueFacts, CourierPoll, CourierPush): a
      signature that is good for one text fixes the route and the payload, and the ids when
      the message id has no line break (signature_ambiguous); what is signed is read and
      verified at the other end; applying is atomic and overwrites nothing; the default spool
      and its archive together never lose a message (spool_named_sent is one that does); a
      poll lets in nothing that is not authentic, and
      acknowledges only what is in the inbox.
    - Tasks (SwarmTasks): at every point of an operation, under any failures, the file shows
      the board before or after the step of the machine, and without failures the operation
      succeeds exactly when there is a step; so over any history completed tasks stay
      completed, nothing is started before its dependencies are completed, and the list
      stays readable.
    - The swarm bridge (SwarmNews): what a poll reports is exactly what is new since the poll
      before, each item once.
    - The doorbell (DoorbellFacts), from rest and in the mode that rings until the inbox is
      drained: at most four recorded reminders for the same unread files and eight in all as
      long as nothing is drained and the injector is not retired; while the budget lasts it
      rings at its deadline and not before, which is between the base and the maximum delay
      away, and it does not go silent before; one announcement per file in the mode that announces, a truthful status report; the
      backoff loop equals its closed form in 64 bits.
    - The guard (SessionGuard): what is allowed outright is characterised by six licences,
      and what becomes of the rest by the kind of the command and its channel, for all 20480
      inputs.
    - The supervisor (Supervisor): bounds of the delays with the jitter, an invariant
      of the registry entries, and that an entry is left alone until its deadline and then
      looked at.
    - The registry (RegistrySafe): at every point of an operation, under any failures, the
      file holds the registry before or after the step of the machine, a success took the
      step, and without failures a registration succeeds exactly when it fits.  The texts of
      an entry are valid UTF-8, without which a registry that was saved is refused
      (bad_text_corrupts).
    - The keepalive (KeepaliveSafe): over any history of commands, run or stopped, no two
      entries are of the same agent or at the same terminal; a pass asks for a wake only at a
      terminal that one entry has for itself (when no entry becomes due in the course of
      the pass, without which it does not hold: late_due_unchecked); a registration reserves
      its place before it starts a wake, and puts back what it displaced or leaves its own
      entry (slow_reattach_replaces); and cleaning up takes out only entries whose own
      terminal is gone and whose wake there was retired.  This is for entries whose texts are
      valid UTF-8 and links that are resolved the same way throughout (late_root_corrupts).

    ** Bounds and fuel

    Programs are finite trees of calls, so every operation terminates by construction; the
    loops over directory entries and recipients are structural.  The one loop of the source
    that has no bound, the polling of a receipt (Receipt.poll), has a fuel of rounds, and
    the theorem about it shows how many are enough for a given clock; the loops that double
    a delay have the number of attempts as fuel, which is the bound of the loops in the
    source.  JSON is decoded with the length of the text as fuel, which JsonFacts shows to
    be enough for everything that was printed.  An int has 64 bits and wraps; an instant is
    an unbounded number of nanoseconds.

    ** What is not modelled

    Modification times (so not the cleanup by age); permissions of files, which are those of
    their creation (0600) and are not enforced; symbolic links beyond that they are refused
    where the code refuses them and followed where it follows them; the durability of data
    after a power failure (syncs are calls that may fail, and their failure is reported as
    the code does, but the model's tree does not lose what was not synced); the variants for
    other platforms; the commands' flags and output, and the warnings on the error stream;
    processes, signals and terminals (wake, launch, keepalive adapters), of which the
    theorems about the doorbell, the supervisor and the keepalive take the answers as
    parameters; the HTTP
    client and the rendezvous, which answer anything; file notifications of the swarm bridge
    and the generation of agent ids; the adapters to other protocols and tools (acp,
    integrations).  The texts of errors are kept only where the code looks at them. *)

From stdpp Require Export base tactics option list gmap strings sets relations.
From Stdlib Require Export ZArith Lia.

#[global] Open Scope string_scope.
#[global] Open Scope list_scope.
#[global] Open Scope stdpp_scope.
#[global] Set Default Goal Selector "!".

(** ** Automation *)

(** Case analysis on the innermost [match] or [if] of the goal, keeping the equation. *)
Ltac dmatch :=
  match goal with
  | |- context [match ?x with _ => _ end] =>
    lazymatch x with
    | context [match _ with _ => _ end] => fail
    | _ => destruct x eqn:?
    end
  end.

(** The same in a hypothesis. *)
Ltac dmatch_in H :=
  match type of H with
  | context [match ?x with _ => _ end] =>
    lazymatch x with
    | context [match _ with _ => _ end] => fail
    | _ => destruct x eqn:?
    end
  end.

Create HintDb amq.
Create Rewrite HintDb str.

Abbreviation ascii := Ascii.ascii.

(** ** Machine integers *)

(** An int (and a time.Duration) has 64 bits; a uint wraps at 2^64. *)
Definition int64_range (z : Z) : bool := Z.leb (-2 ^ 63)%Z z && Z.ltb z (2 ^ 63)%Z.

(** What an int holds after arithmetic that overflowed. *)
Definition int64_wrap (z : Z) : Z := ((z + 2 ^ 63) mod 2 ^ 64 - 2 ^ 63)%Z.

Lemma int64_wrap_range z : int64_range (int64_wrap z) = true.
Proof.
  unfold int64_range, int64_wrap. pose proof (Z.mod_pos_bound (z + 2 ^ 63) (2 ^ 64) ltac:(lia)).
  apply andb_true_iff. split; [apply Z.leb_le|apply Z.ltb_lt]; lia.
Qed.

Lemma int64_wrap_id z : int64_range z = true -> int64_wrap z = z.
Proof.
  unfold int64_range, int64_wrap. intros [H1%Z.leb_le H2%Z.ltb_lt]%andb_true_iff.
  rewrite Z.mod_small; lia.
Qed.

Definition uint_succ (n : Z) : Z := ((n + 1) mod 2 ^ 64)%Z.

Lemma uint_succ_small n : (0 <= n < 2 ^ 64 - 1)%Z -> uint_succ n = (n + 1)%Z.
Proof. intros H. unfold uint_succ. apply Z.mod_small. lia. Qed.
