(* ===== verification/GoStr.v ===== *)
(** Byte strings as the Go code uses them.

    A Go [string] or [[]byte] is a sequence of 8-bit bytes; [String.string] is the same
    thing (a list of [ascii]).  This file models the functions of the packages [strings],
    [bytes], [encoding/hex], [strconv] and [sort] that the sources call, and proves the
    facts about them that the components share. *)
From stdpp Require Import pretty.
From S2P Require Import Prelude.

(** ** Character classes *)

Definition chr (n : nat) : ascii := Ascii.ascii_of_nat n.
Definition LF : string := String (chr 10) "".
Definition CR : string := String (chr 13) "".
Definition CRLF : string := String (chr 13) (String (chr 10) "").
Definition TAB : string := String (chr 9) "".
Definition NUL : string := String (chr 0) "".
Definition DQ : string := String (chr 34) "".
Definition BACKSLASH : string := String (chr 92) "".

Definition in_range (lo hi : nat) (c : ascii) : bool :=
  (lo <=? Ascii.nat_of_ascii c)%nat && (Ascii.nat_of_ascii c <=? hi)%nat.
Definition is_lower (c : ascii) : bool := in_range 97 122 c.
Definition is_upper (c : ascii) : bool := in_range 65 90 c.
Definition is_digit (c : ascii) : bool := in_range 48 57 c.

(** ** Structural helpers *)

Fixpoint str_forallb (f : ascii -> bool) (s : string) : bool :=
  match s with
  | "" => true
  | String c s' => f c && str_forallb f s'
  end.

Fixpoint str_mem (c : ascii) (s : string) : bool :=
  match s with
  | "" => false
  | String d s' => bool_decide (c = d) || str_mem c s'
  end.

Fixpoint str_rev_app (s acc : string) : string :=
  match s with
  | "" => acc
  | String c s' => str_rev_app s' (String c acc)
  end.
Definition str_rev (s : string) : string := str_rev_app s "".

Fixpoint str_drop (n : nat) (s : string) : string :=
  match n, s with
  | O, _ => s
  | S n', String _ s' => str_drop n' s'
  | S _, "" => ""
  end.

Fixpoint str_take (n : nat) (s : string) : string :=
  match n, s with
  | O, _ => ""
  | S n', String c s' => String c (str_take n' s')
  | S _, "" => ""
  end.

(** ** strings.HasPrefix, HasSuffix, Contains, Index *)

Fixpoint HasPrefix (s p : string) {struct p} : bool :=
  match p, s with
  | "", _ => true
  | String c p', String d s' => bool_decide (c = d) && HasPrefix s' p'
  | String _ _, "" => false
  end.

Definition HasSuffix (s p : string) : bool :=
  bool_decide (String.length p <= String.length s)%nat &&
  bool_decide (str_drop (String.length s - String.length p) s = p).

(** [strings.TrimSuffix]. *)
Definition TrimSuffix (s p : string) : string :=
  if HasSuffix s p then str_take (String.length s - String.length p) s else s.

(** [strings.Index]: the offset of the first occurrence. *)
Fixpoint Index (s sub : string) : option nat :=
  if HasPrefix s sub then Some 0%nat
  else match s with
       | "" => None
       | String _ s' => S <$> Index s' sub
       end.

Definition Contains (s sub : string) : bool :=
  match Index s sub with Some _ => true | None => false end.

(** ** strings.Join, strings.Split on a one-byte separator *)

Fixpoint Join_with (sep : string) (l : list string) : string :=
  match l with
  | [] => ""
  | [x] => x
  | x :: l' => x +:+ sep +:+ Join_with sep l'
  end.

(** [strings.Split(s, sep)] for a separator of one byte: never empty. *)
Fixpoint Split_on (sep : ascii) (s : string) : list string :=
  match s with
  | "" => [""]
  | String c s' =>
    if bool_decide (c = sep) then "" :: Split_on sep s'
    else match Split_on sep s' with
         | [] => [String c ""]
         | x :: l => String c x :: l
         end
  end.

(** ** Line endings and trimming *)

(** [bytes.ReplaceAll(data, CRLF, LF)]. *)
Fixpoint crlf_to_lf (s : string) : string :=
  match s with
  | "" => ""
  | String c s' =>
    match s' with
    | String d s'' =>
      if bool_decide (c = chr 13) && bool_decide (d = chr 10)
      then String d (crlf_to_lf s'')
      else String c (crlf_to_lf s')
    | "" => String c ""
    end
  end.

(** [bytes.TrimLeft(s, cutset)] for an ASCII cutset. *)
Fixpoint TrimLeft (s cutset : string) : string :=
  match s with
  | "" => ""
  | String c s' => if str_mem c cutset then TrimLeft s' cutset else s
  end.

(** [strings.TrimRight(s, cutset)] for an ASCII cutset. *)
Definition TrimRight (s cutset : string) : string :=
  str_rev (TrimLeft (str_rev s) cutset).

(** The UTF-8 encodings of the code points [unicode.IsSpace] accepts. *)
Definition space_seqs : list string :=
  [TAB; LF; String (chr 11) ""; String (chr 12) ""; CR; " ";
   String (chr 194) (String (chr 133) ""); String (chr 194) (String (chr 160) "");
   String (chr 225) (String (chr 154) (String (chr 128) ""))] ++
  ((fun n => String (chr 226) (String (chr 128) (String (chr n) ""))) <$>
     (seq 128 11 ++ [168; 169; 175])%nat) ++
  [String (chr 226) (String (chr 129) (String (chr 159) ""));
   String (chr 227) (String (chr 128) (String (chr 128) ""))].

Definition strip_one_space (seqs : list string) (s : string) : option string :=
  match List.find (HasPrefix s) seqs with
  | Some q => Some (str_drop (String.length q) s)
  | None => None
  end.

Fixpoint trim_left_fuel (fuel : nat) (seqs : list string) (s : string) : string :=
  match fuel with
  | O => s
  | S f => match strip_one_space seqs s with
           | Some s' => trim_left_fuel f seqs s'
           | None => s
           end
  end.

(** [strings.TrimSpace]; the fuel is the length, and every strip consumes a byte. *)
Definition TrimSpace (s : string) : string :=
  let l := trim_left_fuel (String.length s) space_seqs s in
  str_rev (trim_left_fuel (String.length l) (str_rev <$> space_seqs) (str_rev l)).

(** ** strings.ToLower on ASCII, hex and decimal encodings *)

Definition lower_char (c : ascii) : ascii :=
  if is_upper c then chr (Ascii.nat_of_ascii c + 32) else c.
Fixpoint ToLower (s : string) : string :=
  match s with
  | "" => ""
  | String c s' => String (lower_char c) (ToLower s')
  end.

Definition hex_digit (n : nat) : ascii :=
  if (n <? 10)%nat then chr (48 + n) else chr (87 + n).

(** [hex.EncodeToString]. *)
Fixpoint EncodeToString (b : string) : string :=
  match b with
  | "" => ""
  | String c b' =>
    let n := Ascii.nat_of_ascii c in
    String (hex_digit (n / 16)) (String (hex_digit (n mod 16)) (EncodeToString b'))
  end.

(** [fmt]'s %d. *)
Definition itoa (z : Z) : string := pretty z.

(** ** Lexicographic order of bytes, Go's [<] on strings *)

Fixpoint str_ltb (s t : string) : bool :=
  match s, t with
  | _, "" => false
  | "", String _ _ => true
  | String c s', String d t' =>
    let a := Ascii.nat_of_ascii c in
    let b := Ascii.nat_of_ascii d in
    (a <? b)%nat || ((a =? b)%nat && str_ltb s' t')
  end.

(** [sort.Strings]: the sorted permutation (unique, since [<=] on strings is a total order). *)
Fixpoint insert_string (x : string) (l : list string) : list string :=
  match l with
  | [] => [x]
  | y :: l' => if str_ltb y x then y :: insert_string x l' else x :: l
  end.
Definition sort_strings (l : list string) : list string := foldr insert_string [] l.

(** ** Lemmas *)

Lemma string_app_cons (c : ascii) (a b : string) : String c a +:+ b = String c (a +:+ b).
Proof. done. Qed.

Lemma string_app_nil_l (a : string) : "" +:+ a = a.
Proof. done. Qed.

#[export] Hint Rewrite string_app_cons string_app_nil_l : str.

Lemma string_app_assoc (a b c : string) : (a +:+ b) +:+ c = a +:+ (b +:+ c).
Proof. induction a as [|x a IH]; [done|]. autorewrite with str. by rewrite IH. Qed.

Lemma string_app_nil_r (a : string) : a +:+ "" = a.
Proof. induction a as [|x a IH]; [done|]. autorewrite with str. by rewrite IH. Qed.

Lemma length_string_app (a b : string) :
  String.length (a +:+ b) = (String.length a + String.length b)%nat.
Proof. induction a as [|x a IH]; [done|]. autorewrite with str. cbn. by rewrite IH. Qed.

Lemma HasPrefix_spec (s p : string) : HasPrefix s p = true <-> exists r, s = p +:+ r.
Proof.
  revert s; induction p as [|c p IH]; intros s; cbn [HasPrefix].
  - split; [by exists s|]. by destruct s.
  - destruct s as [|d s]; cbn; [split; [done|by intros [r ?]]|].
    rewrite andb_true_iff, bool_decide_eq_true, IH. split.
    + intros [-> [r ->]]. by exists r.
    + intros [r Hr]. rewrite string_app_cons in Hr. injection Hr as -> ->.
      split; [done|by exists r].
Qed.

Lemma HasPrefix_app (p r : string) : HasPrefix (p +:+ r) p = true.
Proof. apply HasPrefix_spec. by exists r. Qed.

Lemma str_drop_app (p r : string) : str_drop (String.length p) (p +:+ r) = r.
Proof. induction p as [|c p IH]; [by destruct r|]. done. Qed.

Lemma str_take_app (p r : string) : str_take (String.length p) (p +:+ r) = p.
Proof.
  induction p as [|c p IH]; [by destruct r|]. rewrite string_app_cons. cbn. by rewrite IH.
Qed.

Lemma str_drop_drop n m (s : string) : str_drop m (str_drop n s) = str_drop (n + m) s.
Proof.
  revert s; induction n as [|n IH]; intros s; [done|]. destruct s as [|c s]; cbn; [by destruct m|].
  apply IH.
Qed.

Lemma HasSuffix_spec (s p : string) : HasSuffix s p = true <-> exists r, s = r +:+ p.
Proof.
  unfold HasSuffix. rewrite andb_true_iff, !bool_decide_eq_true. split.
  - intros [Hl Hd]. exists (str_take (String.length s - String.length p) s).
    rewrite <-Hd at 2. generalize (String.length s - String.length p)%nat as n.
    clear. induction s as [|c s IH]; intros [|n]; try done. cbn.
    rewrite string_app_cons. by rewrite <-IH.
  - intros [r ->]. rewrite length_string_app. split; [lia|].
    replace (String.length r + String.length p - String.length p)%nat with (String.length r) by lia.
    apply str_drop_app.
Qed.

Lemma HasSuffix_app (r p : string) : HasSuffix (r +:+ p) p = true.
Proof. apply HasSuffix_spec. by exists r. Qed.

Lemma Index_Some_prefix (s sub : string) n :
  Index s sub = Some n -> exists r, str_drop n s = sub +:+ r.
Proof.
  revert n; induction s as [|c s IH]; intros n; cbn [Index].
  - destruct (HasPrefix "" sub) eqn:Hp; [|done]. intros [= <-].
    apply HasPrefix_spec in Hp as [r Hr]. by exists r.
  - destruct (HasPrefix (String c s) sub) eqn:Hp.
    + intros [= <-]. apply HasPrefix_spec in Hp as [r Hr]. by exists r.
    + destruct (Index s sub) as [m|] eqn:Hi; [|done]. intros [= <-]. by apply IH.
Qed.

Lemma Contains_app (a sub b : string) : Contains (a +:+ sub +:+ b) sub = true.
Proof.
  unfold Contains. induction a as [|c a IH].
  - rewrite string_app_nil_l. pose proof (HasPrefix_app sub b) as Hp.
    destruct (sub +:+ b); cbn [Index]; by rewrite Hp.
  - rewrite string_app_cons. cbn [Index]. destruct (HasPrefix _ _); [done|].
    by destruct (Index (a +:+ sub +:+ b) sub).
Qed.

Lemma str_mem_Contains (c : ascii) (s : string) :
  Contains s (String c "") = str_mem c s.
Proof.
  unfold Contains. induction s as [|d s IH]; [done|]. cbn [Index HasPrefix str_mem].
  rewrite <-IH. destruct (Index s _); destruct s;
    repeat case_bool_decide; simplify_eq; done.
Qed.

Lemma str_forallb_mem (f : ascii -> bool) (s : string) :
  str_forallb f s = true <-> (forall c, str_mem c s = true -> f c = true).
Proof.
  induction s as [|d s IH]; [split; [done|done]|]. cbn. rewrite andb_true_iff, IH. split.
  - intros [Hd Hs] c. rewrite orb_true_iff, bool_decide_eq_true.
    intros [->|Hm]; [done|by apply Hs].
  - intros H. split; [apply H; by rewrite bool_decide_eq_true_2|].
    intros c Hc. apply H. rewrite Hc. apply orb_true_r.
Qed.

Lemma str_mem_app (c : ascii) (a b : string) :
  str_mem c (a +:+ b) = str_mem c a || str_mem c b.
Proof.
  induction a as [|d a IH]; [done|]. rewrite string_app_cons. cbn. rewrite IH.
  apply orb_assoc.
Qed.

Lemma Split_on_no_sep (sep : ascii) (s : string) :
  str_mem sep s = false -> Split_on sep s = [s].
Proof.
  induction s as [|c s IH]; [done|]. cbn. intros [Hc Hs]%orb_false_iff.
  rewrite bool_decide_eq_false_2 by (apply bool_decide_eq_false in Hc; congruence).
  by rewrite (IH Hs).
Qed.

Lemma crlf_to_lf_id (s : string) : Contains s CRLF = false -> crlf_to_lf s = s.
Proof.
  unfold Contains. induction s as [|c s IH]; [done|]. cbn [Index]. intros H.
  destruct (HasPrefix (String c s) CRLF) eqn:Hp; [done|].
  assert (crlf_to_lf s = s) as IH'.
  { apply IH. by destruct (Index s CRLF). }
  destruct s as [|d s']; [done|].
  change (crlf_to_lf (String c (String d s'))) with
    (if bool_decide (c = chr 13) && bool_decide (d = chr 10)
     then String d (crlf_to_lf s') else String c (crlf_to_lf (String d s'))).
  rewrite IH'. unfold CRLF in Hp. cbn [HasPrefix] in Hp.
  repeat case_bool_decide; simplify_eq; done.
Qed.

Lemma insert_string_perm (x : string) (l : list string) : insert_string x l ≡ₚ x :: l.
Proof.
  induction l as [|y l IH]; [done|]. cbn. destruct (str_ltb y x); [|done].
  rewrite IH. by constructor.
Qed.

Lemma sort_strings_perm (l : list string) : sort_strings l ≡ₚ l.
Proof.
  induction l as [|x l IH]; [done|]. cbn. rewrite insert_string_perm. by rewrite IH.
Qed.

(** Decimal and hexadecimal numerals contain neither a slash nor a dot. *)
Definition numeral_char (c : ascii) : bool :=
  is_digit c || is_lower c || bool_decide (c = chr 45).

Lemma pretty_N_char_numeral x : numeral_char (pretty_N_char x) = true.
Proof. unfold pretty_N_char. repeat case_match; done. Qed.

Lemma pretty_N_go_numeral (x : N) s :
  str_forallb numeral_char s = true -> str_forallb numeral_char (pretty_N_go x s) = true.
Proof.
  revert s. induction (N.lt_wf_0 x) as [x _ IH]; intros s Hs.
  destruct (decide (0 < x)%N) as [Hx|Hx].
  - rewrite pretty_N_go_step by done. apply IH; [by apply N.div_lt|].
    cbn [str_forallb]. by rewrite pretty_N_char_numeral.
  - replace x with 0%N by lia. by rewrite pretty_N_go_0.
Qed.

Lemma str_forallb_app f a b :
  str_forallb f (a +:+ b) = str_forallb f a && str_forallb f b.
Proof.
  induction a as [|c a IH]; [done|]. rewrite string_app_cons. cbn. rewrite IH. apply andb_assoc.
Qed.

Lemma str_forallb_impl (f g : ascii -> bool) s :
  (forall c, f c = true -> g c = true) -> str_forallb f s = true -> str_forallb g s = true.
Proof.
  intros Hfg. induction s as [|c s IH]; [done|]. cbn. intros [Hc Hs]%andb_true_iff.
  by rewrite Hfg, IH.
Qed.

Lemma itoa_numeral z : str_forallb numeral_char (itoa z) = true.
Proof.
  unfold itoa, pretty, pretty_Z, pretty, pretty_positive, pretty, pretty_N.
  destruct z as [|p|p]; [done| |]; rewrite ?str_forallb_app; cbn [andb];
    case_decide; try done; by apply pretty_N_go_numeral.
Qed.

Lemma EncodeToString_numeral b : str_forallb numeral_char (EncodeToString b) = true.
Proof.
  induction b as [|c b IH]; [done|]. cbn [EncodeToString str_forallb]. rewrite IH.
  by destruct c as [[] [] [] [] [] [] [] []].
Qed.

Lemma numeral_no_char c s :
  numeral_char c = false -> str_forallb numeral_char s = true -> str_mem c s = false.
Proof.
  intros Hc Hs. destruct (str_mem c s) eqn:E; [|done].
  rewrite str_forallb_mem in Hs. apply Hs in E. congruence.
Qed.
