(* ===== verification/GoSort.v ===== *)
(** Order and sorting: Go's [<] on strings, and sort.Slice through its contract.

    sort.Slice is not stable and its algorithm is not part of its documentation, so the code
    that calls it is modelled against the interface [SortSlice]: the result is a permutation
    of the input, and it is sorted whenever the comparison is a strict weak order on the
    elements.  Insertion sort is an instance. *)
From stdpp Require Export sorting.
From S2P Require Import Prelude GoStr.

(** ** Strings *)

Lemma str_ltb_irrefl s : str_ltb s s = false.
Proof. induction s as [|c s IH]; [done|]. cbn [str_ltb]. rewrite Nat.ltb_irrefl, IH. by rewrite andb_false_r. Qed.

Lemma str_ltb_trans a b c : str_ltb a b = true -> str_ltb b c = true -> str_ltb a c = true.
Proof.
  revert b c. induction a as [|x a IH]; intros [|y b] [|z c]; try done. cbn [str_ltb].
  rewrite !orb_true_iff, !andb_true_iff, !Nat.ltb_lt, !Nat.eqb_eq.
  intros [H1|[H1 H1']] [H2|[H2 H2']]; try (left; lia). right. split; [lia|]. by eapply IH.
Qed.

Lemma str_ltb_total a b : str_ltb a b = true \/ a = b \/ str_ltb b a = true.
Proof.
  revert b. induction a as [|x a IH]; intros [|y b]; [by auto..|]. cbn [str_ltb].
  rewrite !orb_true_iff, !andb_true_iff, !Nat.ltb_lt, !Nat.eqb_eq.
  destruct (lt_eq_lt_dec (Ascii.nat_of_ascii x) (Ascii.nat_of_ascii y)) as [[H|H]|H]; [by auto| |by auto].
  destruct (IH b) as [Hb|[->|Hb]]; [by auto 6| |by auto 6]. right. left. f_equal.
  rewrite <-(Ascii.ascii_nat_embedding x), H. apply Ascii.ascii_nat_embedding.
Qed.

Lemma str_ltb_asym a b : str_ltb a b = true -> str_ltb b a = false.
Proof.
  intros H. destruct (str_ltb b a) eqn:E; [|done]. by rewrite <-(str_ltb_irrefl a), (str_ltb_trans a b a).
Qed.

(** ** Strict weak orders *)

(** [less] is a strict weak order on the elements that satisfy [P]. *)
Record weak_order {A} (P : A -> Prop) (less : A -> A -> bool) : Prop := {
  wo_irrefl : forall a, P a -> less a a = false;
  wo_trans : forall a b c, P a -> P b -> P c -> less a b = true -> less b c = true -> less a c = true;
  wo_split : forall a b c, P a -> P b -> P c -> less a c = true -> less a b = true \/ less b c = true;
}.

Lemma str_weak_order : weak_order (fun _ => True) str_ltb.
Proof.
  split.
  - intros. apply str_ltb_irrefl.
  - intros a b c _ _ _. apply str_ltb_trans.
  - intros a b c _ _ _ H. destruct (str_ltb_total a b) as [?|[->|Hb]]; [by left|by right|].
    right. by eapply str_ltb_trans.
Qed.

(** A comparison by a key. *)
Lemma weak_order_key {A B} (P : B -> Prop) (less : B -> B -> bool) (f : A -> B) :
  weak_order P less -> weak_order (fun a => P (f a)) (fun a b => less (f a) (f b)).
Proof.
  intros [H1 H2 H3]. split; [intros a Ha; by apply H1|intros a b c ? ? ?; by apply H2|intros a b c ? ? ?; by apply H3].
Qed.

Lemma weak_order_sub {A} (P Q : A -> Prop) less : (forall a, Q a -> P a) -> weak_order P less -> weak_order Q less.
Proof.
  intros HQ [H1 H2 H3].
  split; [intros a Ha; by apply H1, HQ|intros a b c ? ? ?; by apply H2; apply HQ|intros a b c ? ? ?; by apply H3; apply HQ].
Qed.

(** A comparison by a key in a strict total order, ties broken by another comparison. *)
Lemma lex_weak_order {A K} `{EqDecision K} (lt : K -> K -> bool) (key : A -> K) (P : A -> Prop) less :
  (forall k, lt k k = false) -> (forall a b c, lt a b = true -> lt b c = true -> lt a c = true) ->
  (forall a b, lt a b = true \/ a = b \/ lt b a = true) -> weak_order P less ->
  weak_order P (fun a b => if bool_decide (key a = key b) then less a b else lt (key a) (key b)).
Proof.
  intros Hirr Htr Htot [H1 H2 H3].
  assert (forall a b, lt a b = true -> lt b a = true -> False) as Hasym.
  { intros a b Hab Hba. pose proof (Htr _ _ _ Hab Hba) as H. by rewrite Hirr in H. }
  split.
  - intros a Ha. rewrite bool_decide_eq_true_2 by done. by apply H1.
  - intros a b c Ha Hb Hc. destruct (bool_decide_reflect (key a = key b)) as [Eab|Nab];
      destruct (bool_decide_reflect (key b = key c)) as [Ebc|Nbc];
      destruct (bool_decide_reflect (key a = key c)) as [Eac|Nac]; try congruence.
    + by apply H2.
    + rewrite Eac. intros H H'. exfalso. by eapply Hasym.
    + apply Htr.
  - intros a b c Ha Hb Hc. destruct (bool_decide_reflect (key a = key c)) as [Eac|Nac];
      destruct (bool_decide_reflect (key a = key b)) as [Eab|Nab];
      destruct (bool_decide_reflect (key b = key c)) as [Ebc|Nbc]; try congruence.
    + by apply H3.
    + intros _. rewrite <-Eac. destruct (Htot (key a) (key b)) as [?|[?|?]]; [by left|done|by right].
    + rewrite Eab. by right.
    + rewrite <-Ebc. by left.
    + intros Hac. destruct (Htot (key a) (key b)) as [?|[?|Hba]]; [by left|done|]. right. by eapply Htr.
Qed.

Lemma weak_order_ext {A} (P : A -> Prop) (f g : A -> A -> bool) :
  (forall a b, P a -> P b -> g a b = f a b) -> weak_order P f -> weak_order P g.
Proof.
  intros E [H1 H2 H3]. split.
  - intros a Ha. rewrite E by done. by apply H1.
  - intros a b c Ha Hb Hc. rewrite !E by done. by apply H2.
  - intros a b c Ha Hb Hc. rewrite !E by done. by apply H3.
Qed.

(** ** sort.Slice *)

Class SortSlice := {
  sort_slice {A} : (A -> A -> bool) -> list A -> list A;
  sort_slice_perm {A} (less : A -> A -> bool) l : sort_slice less l ≡ₚ l;
  sort_slice_sorted {A} (P : A -> Prop) (less : A -> A -> bool) l :
    weak_order P less -> Forall P l -> StronglySorted (fun a b => less b a = false) (sort_slice less l);
}.

Section insertion.
Context {A : Type} (less : A -> A -> bool).

Fixpoint insert_sorted (x : A) (l : list A) : list A :=
  match l with
  | [] => [x]
  | y :: l' => if less y x then y :: insert_sorted x l' else x :: l
  end.
Definition insertion_sort (l : list A) : list A := foldr insert_sorted [] l.

Lemma insert_sorted_perm x l : insert_sorted x l ≡ₚ x :: l.
Proof.
  induction l as [|y l IH]; [done|]. cbn. destruct (less y x); [|done]. rewrite IH. by constructor.
Qed.

Lemma insertion_sort_perm l : insertion_sort l ≡ₚ l.
Proof. induction l as [|x l IH]; [done|]. cbn. by rewrite insert_sorted_perm, IH. Qed.

Context (P : A -> Prop) (Hwo : weak_order P less).

(** [less] is negatively transitive. *)
Lemma weak_ge_trans a b c : P a -> P b -> P c -> less b a = false -> less c b = false -> less c a = false.
Proof.
  intros Ha Hb Hc H1 H2. destruct (less c a) eqn:E; [|done].
  destruct (wo_split _ _ Hwo c b a) as [?|?]; try done; congruence.
Qed.

Lemma insert_sorted_sorted x l :
  P x -> Forall P l -> StronglySorted (fun a b => less b a = false) l ->
  StronglySorted (fun a b => less b a = false) (insert_sorted x l).
Proof.
  intros Hx. induction l as [|y l IH]; intros HP Hs; [by repeat constructor|].
  apply Forall_cons in HP as [Hy HP]. apply StronglySorted_inv in Hs as [Hs Hall]. cbn.
  destruct (less y x) eqn:E.
  - constructor; [by apply IH|]. rewrite insert_sorted_perm. constructor; [|done].
    destruct (less x y) eqn:E'; [|done].
    by rewrite <-(wo_irrefl _ _ Hwo y Hy), (wo_trans _ _ Hwo y x y).
  - constructor; [by constructor|]. constructor; [done|].
    rewrite !Forall_forall in *. intros z Hz. eapply (weak_ge_trans x y z); auto.
Qed.

Lemma insertion_sort_sorted l : Forall P l -> StronglySorted (fun a b => less b a = false) (insertion_sort l).
Proof.
  induction l as [|x l IH]; intros HP; [by constructor|]. apply Forall_cons in HP as [Hx HP]. cbn.
  apply insert_sorted_sorted; [done| |by auto]. by rewrite insertion_sort_perm.
Qed.

End insertion.

#[global] Instance insertion_SortSlice : SortSlice := {|
  sort_slice := @insertion_sort;
  sort_slice_perm := @insertion_sort_perm;
  sort_slice_sorted A P less l H := insertion_sort_sorted less P H l;
|}.

(** When no two elements are equivalent, there is one sorted permutation only, so every
    implementation of sort.Slice gives the same result. *)
Section unique.
Context {A : Type} (less : A -> A -> bool) (P : A -> Prop) (Hwo : weak_order P less).

Definition separated (l : list A) : Prop :=
  forall a b, a ∈ l -> b ∈ l -> less a b = false -> less b a = false -> a = b.

Lemma sorted_perm_unique l1 l2 :
  l1 ≡ₚ l2 -> Forall P l1 -> separated l1 ->
  StronglySorted (fun a b => less b a = false) l1 -> StronglySorted (fun a b => less b a = false) l2 -> l1 = l2.
Proof.
  revert l2. induction l1 as [|x l1 IH]; intros l2 Hperm HP Hsep H1 H2.
  { symmetry in Hperm. by apply Permutation_nil_r in Hperm. }
  destruct l2 as [|y l2]; [by apply Permutation_nil_r in Hperm|].
  apply StronglySorted_inv in H1 as [H1 Hx]. apply StronglySorted_inv in H2 as [H2 Hy].
  assert (x = y) as <-.
  { assert (y ∈ x :: l1) as Hin1 by (rewrite Hperm; by left).
    assert (x ∈ y :: l2) as Hin2 by (rewrite <-Hperm; by left).
    apply Hsep; [by left|done| |].
    - apply elem_of_cons in Hin2 as [->|Hin2].
      + apply (wo_irrefl _ _ Hwo). rewrite Forall_forall in HP. by apply HP.
      + rewrite Forall_forall in Hy. by apply Hy.
    - apply elem_of_cons in Hin1 as [->|Hin1].
      + apply (wo_irrefl _ _ Hwo). rewrite Forall_forall in HP. apply HP. by left.
      + rewrite Forall_forall in Hx. by apply Hx. }
  f_equal. apply Forall_cons in HP as [_ HP]. apply IH; try done.
  - by apply Permutation_cons_inv in Hperm.
  - intros a b Ha Hb. apply Hsep; by right.
Qed.

End unique.

(** ** Maps with sorted keys *)

(** encoding/json writes the members of a Go map in the order of their keys. *)
Fixpoint key_insert {V} (k : string) (v : V) (l : list (string * V)) : list (string * V) :=
  match l with
  | [] => [(k, v)]
  | (k', v') :: l' =>
    if str_ltb k k' then (k, v) :: l
    else if bool_decide (k = k') then (k, v) :: l'
    else (k', v') :: key_insert k v l'
  end.

Definition keys_sorted {V} (l : list (string * V)) : Prop :=
  StronglySorted (fun a b => str_ltb a.1 b.1 = true) l.

Lemma key_insert_last {V} k (v : V) l :
  Forall (fun a => str_ltb a.1 k = true) l -> key_insert k v l = l ++ [(k, v)].
Proof.
  induction l as [|[k' v'] l IH]; [done|]. intros [Hk Hl]%Forall_cons. cbn in *.
  rewrite (str_ltb_asym _ _ Hk). rewrite bool_decide_eq_false_2; [by rewrite IH|].
  intros ->. by rewrite str_ltb_irrefl in Hk.
Qed.

(** Inserting the members of a sorted list one after the other gives that list. *)
Lemma key_insert_all {V} (acc l : list (string * V)) :
  keys_sorted (acc ++ l) -> foldl (fun m kv => key_insert kv.1 kv.2 m) acc l = acc ++ l.
Proof.
  revert acc. induction l as [|[k v] l IH]; intros acc Hs; [by rewrite app_nil_r|]. cbn.
  rewrite key_insert_last.
  - rewrite IH; rewrite <-app_assoc; [done|exact Hs].
  - apply Forall_forall. intros a Ha.
    apply (StronglySorted_app_1_elem_of _ _ _ a (k, v) Hs); [done|by left].
Qed.

Lemma key_insert_sorted {V} k (v : V) l : keys_sorted l -> keys_sorted (key_insert k v l) /\
  forall k0, str_ltb k0 k = true -> Forall (fun a => str_ltb k0 a.1 = true) l ->
    Forall (fun a => str_ltb k0 a.1 = true) (key_insert k v l).
Proof.
  induction l as [|[k' v'] l IH]; intros Hs; cbn.
  { split; [by repeat constructor|]. by repeat constructor. }
  apply StronglySorted_inv in Hs as [Hs Hall]. destruct (IH Hs) as [IH1 IH2].
  destruct (str_ltb k k') eqn:E.
  - split; [|intros k0 H0 H; by constructor]. constructor; [by constructor|]. constructor; [done|].
    eapply Forall_impl; [exact Hall|]. intros a Ha. by eapply str_ltb_trans.
  - case_bool_decide as Ek; [subst k'|].
    + split; [by constructor|]. intros k0 H0 [_ H]%Forall_cons. by constructor.
    + destruct (str_ltb_total k k') as [?|[?|E']]; [congruence|done|].
      split; [constructor; [done|]; by apply IH2|]. intros k0 H0 [H1 H2]%Forall_cons. constructor; [done|by auto].
Qed.

Lemma key_inserts_sorted {V} (l acc : list (string * V)) :
  keys_sorted acc -> keys_sorted (foldl (fun m kv => key_insert kv.1 kv.2 m) acc l).
Proof.
  revert acc. induction l as [|[k v] l IH]; intros acc Hs; [done|]. cbn. apply IH. by apply key_insert_sorted.
Qed.
