(* ===== verification/GoTime.v ===== *)
(** Instants and their text, as the package time formats them in UTC.

    An instant is the number of nanoseconds since the Unix epoch. *)
From S2P Require Import Prelude GoStr.

#[local] Open Scope Z_scope.

Record civil := Civil {
  c_year : Z; c_month : Z; c_day : Z; c_hour : Z; c_min : Z; c_sec : Z; c_nano : Z;
}.

(** The proleptic Gregorian date of a day number (day 0 is 1970-01-01): days are counted in
    eras of 400 years that start on the first of March. *)
Definition date_of_days (days : Z) : Z * Z * Z :=
  let z := days + 719468 in
  let era := z / 146097 in
  let doe := z mod 146097 in
  let yoe := (doe - doe / 1460 + doe / 36524 - doe / 146096) / 365 in
  let doy := doe - (365 * yoe + yoe / 4 - yoe / 100) in
  let mp := (5 * doy + 2) / 153 in
  let d := doy - (153 * mp + 2) / 5 + 1 in
  let m := if mp <? 10 then mp + 3 else mp - 9 in
  let y := yoe + era * 400 + (if m <=? 2 then 1 else 0) in
  (y, m, d).

Definition civil_of (t : Z) : civil :=
  let secs := t / 1000000000 in
  let '(y, m, d) := date_of_days (secs / 86400) in
  let sod := secs mod 86400 in
  Civil y m d (sod / 3600) ((sod / 60) mod 60) (sod mod 60) (t mod 1000000000).

(** Decimal digits, padded with zeros to a width. *)
Fixpoint zeros (n : nat) : string := match n with O => "" | S n' => "0" +:+ zeros n' end.
Definition pad (w : nat) (z : Z) : string :=
  let s := itoa z in zeros (w - String.length s) +:+ s.

Definition format_date (c : civil) : string :=
  pad 4 (c_year c) +:+ "-" +:+ pad 2 (c_month c) +:+ "-" +:+ pad 2 (c_day c).

Definition format_clock (sep : string) (c : civil) : string :=
  pad 2 (c_hour c) +:+ sep +:+ pad 2 (c_min c) +:+ sep +:+ pad 2 (c_sec c).

(** [t.UTC().Format(time.RFC3339)]. *)
Definition Format_RFC3339 (t : Z) : string :=
  let c := civil_of t in format_date c +:+ "T" +:+ format_clock ":" c +:+ "Z".

(** The fraction of RFC3339Nano: trailing zeros are dropped, and the point with them. *)
Fixpoint drop_zeros_rev (s : string) : string :=
  match s with
  | String c r => if bool_decide (c = chr 48) then drop_zeros_rev r else s
  | "" => ""
  end.
Definition fraction (nano : Z) : string :=
  match str_rev (drop_zeros_rev (str_rev (pad 9 nano))) with
  | "" => ""
  | s => "." +:+ s
  end.

Definition Format_RFC3339Nano (t : Z) : string :=
  let c := civil_of t in format_date c +:+ "T" +:+ format_clock ":" c +:+ fraction (c_nano c) +:+ "Z".

(** [t.UTC().Format("2006-01-02T15-04-05.000Z")]: milliseconds, dashes in the clock. *)
Definition Format_stamp (t : Z) : string :=
  let c := civil_of t in
  format_date c +:+ "T" +:+ format_clock "-" c +:+ "." +:+ pad 3 (c_nano c / 1000000) +:+ "Z".

Example stamp_1 : Format_RFC3339Nano 1700000000123456000 = "2023-11-14T22:13:20.123456Z".
Proof. reflexivity. Qed.
Example stamp_2 : Format_RFC3339 951827696000000000 = "2000-02-29T12:34:56Z".
Proof. reflexivity. Qed.
Example stamp_3 : Format_stamp (-1000000) = "1969-12-31T23-59-59.999Z".
Proof. reflexivity. Qed.

(** Formatted instants are ASCII. *)
Definition stamp_char (c : ascii) : bool :=
  numeral_char c || bool_decide (c = chr 84) || bool_decide (c = chr 90) || bool_decide (c = chr 58) ||
  bool_decide (c = chr 46).

Lemma numeral_stamp s : str_forallb numeral_char s = true -> str_forallb stamp_char s = true.
Proof.
  induction s as [|c s IH]; [done|]. cbn. intros [Hc Hs]%andb_true_iff. unfold stamp_char at 1.
  by rewrite Hc, IH.
Qed.

Lemma zeros_numeral n : str_forallb numeral_char (zeros n) = true.
Proof. by induction n. Qed.

Lemma pad_stamp w z : str_forallb stamp_char (pad w z) = true.
Proof.
  apply numeral_stamp. unfold pad. by rewrite str_forallb_app, zeros_numeral, itoa_numeral.
Qed.

Lemma Format_RFC3339_stamp t : str_forallb stamp_char (Format_RFC3339 t) = true.
Proof.
  unfold Format_RFC3339, format_date, format_clock. rewrite !str_forallb_app, !pad_stamp. done.
Qed.

Lemma str_rev_app_forallb f s acc :
  str_forallb f (str_rev_app s acc) = str_forallb f s && str_forallb f acc.
Proof.
  revert acc. induction s as [|c s IH]; intros acc; [done|]. cbn. rewrite IH. cbn.
  by destruct (f c), (str_forallb f s).
Qed.

Lemma drop_zeros_forallb f s : str_forallb f s = true -> str_forallb f (drop_zeros_rev s) = true.
Proof.
  induction s as [|c s IH]; [done|]. cbn. intros H. case_bool_decide; [|done].
  apply andb_true_iff in H as [_ H]. by apply IH.
Qed.

Lemma fraction_stamp n : str_forallb stamp_char (fraction n) = true.
Proof.
  unfold fraction, str_rev. pose proof (pad_stamp 9 n) as H.
  assert (str_forallb stamp_char (str_rev_app (drop_zeros_rev (str_rev_app (pad 9 n) "")) "") = true) as Hr.
  { rewrite str_rev_app_forallb, drop_zeros_forallb; [done|]. by rewrite str_rev_app_forallb, H. }
  destruct (str_rev_app (drop_zeros_rev _) "") as [|c r]; [done|]. rewrite str_forallb_app. by rewrite Hr.
Qed.

Lemma Format_RFC3339Nano_stamp t : str_forallb stamp_char (Format_RFC3339Nano t) = true.
Proof.
  unfold Format_RFC3339Nano, format_date, format_clock.
  rewrite !str_forallb_app, !pad_stamp, fraction_stamp. done.
Qed.

Lemma Format_stamp_stamp t : str_forallb stamp_char (Format_stamp t) = true.
Proof.
  unfold Format_stamp, format_date, format_clock. rewrite !str_forallb_app, !pad_stamp. done.
Qed.

(** The zero time.Time is the start of year 1. *)
Definition zero_time : Z := ((-62135596800) * 1000000000)%Z.
Definition IsZero (t : Z) : bool := Z.eqb t zero_time.
