(* ===== verification/GoPath.v ===== *)
(** File paths as the Go package [path/filepath] handles them on Unix.

    A path is the list of its components.  [Clean] removes the components [filepath.Clean]
    removes (empty ones, ["."], and [".."] against the component before it), [Join] splits
    each element at slashes first, as [filepath.Join] does by joining with a slash and
    cleaning.  The path ["."] is the empty list. *)
From S2P Require Import Prelude GoStr.

Abbreviation path := (list string).

Definition slash : ascii := chr 47.

(** One component against the reversed stack of the components before it. *)
Definition clean_push (stk : path) (c : string) : path :=
  if bool_decide (c = "") || bool_decide (c = ".") then stk
  else if bool_decide (c = "..") then
    match stk with
    | [] => [".."]
    | d :: stk' => if bool_decide (d = "..") then ".." :: stk else stk'
    end
  else c :: stk.

Definition Clean (p : path) : path := reverse (foldl clean_push [] p).

(** [filepath.Join(elems...)] of relative elements. *)
Definition Join (elems : list string) : path :=
  Clean (List.flat_map (Split_on slash) elems).

(** [filepath.Join(base, elems...)] where [base] is a path already cleaned. *)
Definition Join_under (base : path) (elems : list string) : path :=
  Clean (base ++ List.flat_map (Split_on slash) elems).

(** [filepath.Dir] and [filepath.Base]. *)
Definition Dir (p : path) : path := removelast p.
Definition Base (p : path) : string := default "." (last p).

(** [filepath.Base(name) == name] for a name given as a string: no slash in it, and not
    a name that [filepath.Base] rewrites. *)
Definition base_is_self (name : string) : bool :=
  negb (str_mem slash name) && negb (bool_decide (name = "")).

(** [filepath.IsAbs] on Unix. *)
Definition IsAbs (s : string) : bool := HasPrefix s "/".

(** A path that leaves its root: [os.Root] refuses it. *)
Definition escapes (p : path) : bool :=
  match p with ".." :: _ => true | _ => false end.

(** [filepath.ToSlash] of a component list: the components joined by slashes. *)
Definition path_string (p : path) : string :=
  match p with [] => "." | _ => Join_with "/" p end.

(** ** A component that [Clean] keeps *)

Definition plain (c : string) : bool :=
  negb (bool_decide (c = "")) && negb (bool_decide (c = ".")) &&
  negb (bool_decide (c = "..")) && negb (str_mem slash c).

Lemma plain_spec c :
  plain c = true <-> c <> "" /\ c <> "." /\ c <> ".." /\ str_mem slash c = false.
Proof.
  unfold plain. rewrite !andb_true_iff, !negb_true_iff, !bool_decide_eq_false. tauto.
Qed.

Lemma clean_push_plain stk c : plain c = true -> clean_push stk c = c :: stk.
Proof.
  intros (?&?&?&_)%plain_spec. unfold clean_push. by rewrite !bool_decide_eq_false_2.
Qed.

Lemma foldl_clean_push_plain (p stk : path) :
  Forall (fun c => plain c = true) p -> foldl clean_push stk p = reverse p ++ stk.
Proof.
  revert stk; induction p as [|c p IH]; intros stk Hp; [done|].
  inv Hp. cbn [foldl]. rewrite clean_push_plain by done. rewrite IH by done.
  change (c :: p) with ([c] ++ p). rewrite reverse_app. by rewrite <-app_assoc.
Qed.

(** Clean leaves a path of plain components alone. *)
Lemma Clean_plain (p : path) : Forall (fun c => plain c = true) p -> Clean p = p.
Proof.
  intros Hp. unfold Clean. rewrite foldl_clean_push_plain by done.
  by rewrite app_nil_r, reverse_involutive.
Qed.

Lemma flat_map_split_plain (l : list string) :
  Forall (fun c => plain c = true) l -> List.flat_map (Split_on slash) l = l.
Proof.
  induction 1 as [|c l Hc _ IH]; [done|]. cbn.
  rewrite Split_on_no_sep by (by apply plain_spec in Hc as (_&_&_&?)). by rewrite IH.
Qed.

(** Joining plain components is the list of them. *)
Lemma Join_plain (l : list string) : Forall (fun c => plain c = true) l -> Join l = l.
Proof. intros H. unfold Join. rewrite flat_map_split_plain by done. by apply Clean_plain. Qed.

Lemma Join_under_plain (base : path) (l : list string) :
  Forall (fun c => plain c = true) base -> Forall (fun c => plain c = true) l ->
  Join_under base l = base ++ l.
Proof.
  intros Hb Hl. unfold Join_under. rewrite flat_map_split_plain by done.
  apply Clean_plain. by apply Forall_app.
Qed.

Lemma plain_escapes (p : path) : Forall (fun c => plain c = true) p -> escapes p = false.
Proof.
  intros Hp. destruct Hp as [|c p (_&_&Hc&_)%plain_spec _]; [done|]. cbn. by repeat case_match.
Qed.

Lemma Dir_snoc (p : path) c : Dir (p ++ [c]) = p.
Proof. apply removelast_last. Qed.

Lemma Base_snoc (p : path) c : Base (p ++ [c]) = c.
Proof. unfold Base. by rewrite last_snoc. Qed.

Lemma Clean_snoc_not_nil (p : path) c : plain c = true -> Clean (p ++ [c]) <> [].
Proof.
  intros Hc. unfold Clean. rewrite foldl_app. cbn [foldl]. rewrite clean_push_plain by done.
  rewrite reverse_cons. by destruct (reverse _).
Qed.
