(* ===== verification/Json.v ===== *)
(** JSON as the package encoding/json reads and writes it, as far as the sources use it.

    Strings are byte strings.  Encoding escapes as Go does by default (quotes, backslashes,
    control characters, the HTML characters, U+2028 and U+2029) and replaces invalid UTF-8;
    decoding accepts every escape, joins surrogate pairs and replaces what is not valid.
    A number is kept as its literal: the sources read integers from literals and never
    compute with other numbers.  The nesting limit of 10000 is not modelled; the fuel of the
    reader is twice the length of its input, and every two levels of recursion consume a
    character. *)
From S2P Require Import Prelude GoStr.

#[warnings="-register-all"]
Inductive json :=
| JNull
| JBool (b : bool)
| JNum (lit : string)
| JStr (s : string)
| JArr (l : list json)
| JObj (l : list (string * json)).

Section json_ind.
Context (P : json -> Prop) (Hnull : P JNull) (Hbool : forall b, P (JBool b))
  (Hnum : forall l, P (JNum l)) (Hstr : forall s, P (JStr s))
  (Harr : forall l, Forall P l -> P (JArr l))
  (Hobj : forall l, Forall (fun kv => P kv.2) l -> P (JObj l)).

Fixpoint json_rec' (j : json) : P j :=
  match j with
  | JNull => Hnull
  | JBool b => Hbool b
  | JNum l => Hnum l
  | JStr s => Hstr s
  | JArr l => Harr l ((fix go l := match l return Forall P l with
      | [] => Forall_nil_2 _
      | x :: l' => Forall_cons_2 _ _ _ (json_rec' x) (go l') end) l)
  | JObj l => Hobj l ((fix go l := match l return Forall (fun kv => P kv.2) l with
      | [] => Forall_nil_2 _
      | x :: l' => Forall_cons_2 _ _ _ (json_rec' x.2) (go l') end) l)
  end.
End json_ind.

(** ** UTF-8 *)

Definition code (c : ascii) : nat := Ascii.nat_of_ascii c.
Definition is_ascii (c : ascii) : bool := Nat.ltb (code c) 128.
Definition cont_byte (lo hi : nat) (c : ascii) : bool := in_range lo hi c.

(** The number of bytes of the first rune, 0 when it is not valid ([utf8.DecodeRune]). *)
Definition rune_len (s : string) : nat :=
  match s with
  | "" => 0
  | String a r =>
    if is_ascii a then 1
    else if in_range 194 223 a then
      match r with String b _ => if cont_byte 128 191 b then 2 else 0 | _ => 0 end
    else if in_range 224 239 a then
      let lo := if Nat.eqb (code a) 224 then 160 else 128 in
      let hi := if Nat.eqb (code a) 237 then 159 else 191 in
      match r with
      | String b (String c _) => if cont_byte lo hi b && cont_byte 128 191 c then 3 else 0
      | _ => 0
      end
    else if in_range 240 244 a then
      let lo := if Nat.eqb (code a) 240 then 144 else 128 in
      let hi := if Nat.eqb (code a) 244 then 143 else 191 in
      match r with
      | String b (String c (String d _)) =>
        if cont_byte lo hi b && cont_byte 128 191 c && cont_byte 128 191 d then 4 else 0
      | _ => 0
      end
    else 0
  end%nat.

Definition s1 (a : N) : string := String (Ascii.ascii_of_N a) "".

(** [utf8.AppendRune]. *)
Definition rune_bytes (r : N) : string :=
  if N.ltb r 128 then s1 r
  else if N.ltb r 2048 then s1 (192 + r / 64) +:+ s1 (128 + r mod 64)
  else if N.ltb r 65536 then
    s1 (224 + r / 4096) +:+ s1 (128 + (r / 64) mod 64) +:+ s1 (128 + r mod 64)
  else s1 (240 + r / 262144) +:+ s1 (128 + (r / 4096) mod 64) +:+ s1 (128 + (r / 64) mod 64) +:+
       s1 (128 + r mod 64)%N.

Definition RuneError : string := s1 239 +:+ s1 191 +:+ s1 189.

(** ** Writing strings *)

Definition hex2 (n : nat) : string :=
  String (hex_digit (n / 16)) (String (hex_digit (n mod 16)) "").

Definition esc_ascii (c : ascii) : string :=
  if Ascii.eqb c (chr 34) || Ascii.eqb c (chr 92) then String (chr 92) (String c "")
  else if Ascii.eqb c (chr 8) then "\b"
  else if Ascii.eqb c (chr 12) then "\f"
  else if Ascii.eqb c (chr 10) then "\n"
  else if Ascii.eqb c (chr 13) then "\r"
  else if Ascii.eqb c (chr 9) then "\t"
  else if Nat.ltb (code c) 32 || Ascii.eqb c (chr 60) || Ascii.eqb c (chr 62) || Ascii.eqb c (chr 38)
  then "\u00" +:+ hex2 (code c)
  else String c "".

Definition is_line_sep (a b c : ascii) : bool :=
  Ascii.eqb a (chr 226) && Ascii.eqb b (chr 128) && (Ascii.eqb c (chr 168) || Ascii.eqb c (chr 169)).

Fixpoint escape (s : string) : string :=
  match s with
  | "" => ""
  | String a s1 =>
    if is_ascii a then esc_ascii a +:+ escape s1
    else match rune_len s, s1 with
         | 2%nat, String b s2 => String a (String b (escape s2))
         | 3%nat, String b (String c s3) =>
           if is_line_sep a b c then "\u20" +:+ hex2 (code c - 128) +:+ escape s3
           else String a (String b (String c (escape s3)))
         | 4%nat, String b (String c (String d s4)) => String a (String b (String c (String d (escape s4))))
         | _, _ => "\ufffd" +:+ escape s1
         end
  end.

Definition quote (s : string) : string := DQ +:+ escape s +:+ DQ.

(** ** Reading strings *)

Definition hex_val (c : ascii) : option N :=
  if is_digit c then Some (Ascii.N_of_ascii c - 48)%N
  else if in_range 97 102 c then Some (Ascii.N_of_ascii c - 87)%N
  else if in_range 65 70 c then Some (Ascii.N_of_ascii c - 55)%N
  else None.

Definition hex4 (a b c d : ascii) : option N :=
  match hex_val a, hex_val b, hex_val c, hex_val d with
  | Some w, Some x, Some y, Some z => Some (((w * 16 + x) * 16 + y) * 16 + z)%N
  | _, _, _, _ => None
  end.

Definition unesc_simple (c : ascii) : option ascii :=
  if Ascii.eqb c (chr 34) || Ascii.eqb c (chr 92) || Ascii.eqb c (chr 47) then Some c
  else if Ascii.eqb c (chr 98) then Some (chr 8)
  else if Ascii.eqb c (chr 102) then Some (chr 12)
  else if Ascii.eqb c (chr 110) then Some (chr 10)
  else if Ascii.eqb c (chr 114) then Some (chr 13)
  else if Ascii.eqb c (chr 116) then Some (chr 9)
  else None.

Definition is_surrogate (r : N) : bool := N.leb 55296 r && N.ltb r 57344.

(** The code unit of an escape [\uXXXX] at the front, for the second half of a pair. *)
Definition low_half (s : string) : option N :=
  match s with
  | String b (String u (String h1 (String h2 (String h3 (String h4 _))))) =>
    if Ascii.eqb b (chr 92) && Ascii.eqb u (chr 117) then hex4 h1 h2 h3 h4 else None
  | _ => None
  end.

(** Prepends to the string read. *)
Definition onto (p : string) (r : option (string * string)) : option (string * string) :=
  match r with Some (x, rest) => Some (p +:+ x, rest) | None => None end.

(** Reads up to the closing quote. *)
Fixpoint unquote (s : string) : option (string * string) :=
  match s with
  | "" => None
  | String a s1 =>
    if Ascii.eqb a (chr 34) then Some ("", s1)
    else if Ascii.eqb a (chr 92) then
      match s1 with
      | "" => None
      | String b s2 =>
        if Ascii.eqb b (chr 117) then
          match s2 with
          | String h1 (String h2 (String h3 (String h4 s6))) =>
            match hex4 h1 h2 h3 h4 with
            | None => None
            | Some r =>
              if is_surrogate r then
                match low_half s6 with
                | Some r1 =>
                  if N.ltb r 56320 && N.leb 56320 r1 && N.ltb r1 57344 then
                    match s6 with
                    | String _ (String _ (String _ (String _ (String _ (String _ s12))))) =>
                      onto (rune_bytes ((r - 55296) * 1024 + (r1 - 56320) + 65536)%N) (unquote s12)
                    | _ => None
                    end
                  else onto RuneError (unquote s6)
                | None => onto RuneError (unquote s6)
                end
              else onto (rune_bytes r) (unquote s6)
            end
          | _ => None
          end
        else match unesc_simple b with
             | Some c => onto (String c "") (unquote s2)
             | None => None
             end
      end
    else if Nat.ltb (code a) 32 then None
    else if is_ascii a then onto (String a "") (unquote s1)
    else match rune_len s, s1 with
         | 2%nat, String b s2 => onto (String a (String b "")) (unquote s2)
         | 3%nat, String b (String c s3) => onto (String a (String b (String c ""))) (unquote s3)
         | 4%nat, String b (String c (String d s4)) =>
           onto (String a (String b (String c (String d "")))) (unquote s4)
         | _, _ => onto RuneError (unquote s1)
         end
  end.

(** ** Writing values *)

(** [nl]: what separates items (a newline and the indentation, or nothing); [step]: what one
    level adds to it; [colon]: what separates a key from its value. *)
Fixpoint write (step colon nl : string) (j : json) : string :=
  let nl' := nl +:+ step in
  match j with
  | JNull => "null"
  | JBool true => "true"
  | JBool false => "false"
  | JNum l => l
  | JStr s => quote s
  | JArr [] => "[]"
  | JArr l => "[" +:+ Join_with "," (List.map (fun x => nl' +:+ write step colon nl' x) l) +:+ nl +:+ "]"
  | JObj [] => "{}"
  | JObj l =>
    "{" +:+ Join_with "," (List.map (fun kv => nl' +:+ quote kv.1 +:+ colon +:+ write step colon nl' kv.2) l)
    +:+ nl +:+ "}"
  end.

(** [json.MarshalIndent(v, "", "  ")] and [json.Marshal(v)]. *)
Definition MarshalIndent (j : json) : string := write "  " ": " LF j.
Definition Marshal (j : json) : string := write "" ":" "" j.

(** ** Reading values *)

Definition is_ws (c : ascii) : bool :=
  Ascii.eqb c (chr 32) || Ascii.eqb c (chr 9) || Ascii.eqb c (chr 13) || Ascii.eqb c (chr 10).

Fixpoint skip_ws (s : string) : string :=
  match s with
  | String c r => if is_ws c then skip_ws r else s
  | "" => ""
  end.

Fixpoint span_digits (s : string) : string * string :=
  match s with
  | String c r => if is_digit c then let '(d, rest) := span_digits r in (String c d, rest) else ("", s)
  | "" => ("", "")
  end.

(** The grammar of numbers: sign, integer part, fraction, exponent. *)
Definition scan_int (s : string) : option (string * string) :=
  match s with
  | String c r =>
    if Ascii.eqb c (chr 48) then Some ("0", r)
    else if in_range 49 57 c then let '(d, rest) := span_digits r in Some (String c d, rest)
    else None
  | "" => None
  end.
Definition scan_frac (s : string) : option (string * string) :=
  match s with
  | String c r =>
    if Ascii.eqb c (chr 46) then
      match span_digits r with ("", _) => None | (d, rest) => Some (String c d, rest) end
    else Some ("", s)
  | "" => Some ("", "")
  end.
Definition scan_exp (s : string) : option (string * string) :=
  match s with
  | String c r =>
    if Ascii.eqb c (chr 101) || Ascii.eqb c (chr 69) then
      let '(sg, r') := match r with
                       | String p r' => if Ascii.eqb p (chr 43) || Ascii.eqb p (chr 45)
                                        then (String p "", r') else ("", r)
                       | "" => ("", r)
                       end in
      match span_digits r' with ("", _) => None | (d, rest) => Some (String c (sg +:+ d), rest) end
    else Some ("", s)
  | "" => Some ("", "")
  end.
Definition scan_sign (s : string) : string * string :=
  match s with
  | String c r => if Ascii.eqb c (chr 45) then ("-", r) else ("", s)
  | "" => ("", "")
  end.
Definition scan_number (s : string) : option (string * string) :=
  let '(sg, r) := scan_sign s in
  '(i, r) ← scan_int r;
  '(f, r) ← scan_frac r;
  '(x, r) ← scan_exp r;
  Some (sg +:+ i +:+ f +:+ x, r).

Fixpoint value (n : nat) (s : string) : option (json * string) :=
  match n with
  | O => None
  | S n' =>
    match skip_ws s with
    | "" => None
    | String c r =>
      if Ascii.eqb c (chr 34) then '(x, r) ← unquote r; Some (JStr x, r)
      else if Ascii.eqb c (chr 123) then
        (if HasPrefix (skip_ws r) "}" then Some (JObj [], str_drop 1 (skip_ws r))
         else '(l, r) ← members n' r; Some (JObj l, r))
      else if Ascii.eqb c (chr 91) then
        (if HasPrefix (skip_ws r) "]" then Some (JArr [], str_drop 1 (skip_ws r))
         else '(l, r) ← elems n' r; Some (JArr l, r))
      else if HasPrefix (String c r) "null" then Some (JNull, str_drop 4 (String c r))
      else if HasPrefix (String c r) "true" then Some (JBool true, str_drop 4 (String c r))
      else if HasPrefix (String c r) "false" then Some (JBool false, str_drop 5 (String c r))
      else '(l, r) ← scan_number (String c r); Some (JNum l, r)
    end
  end
with members (n : nat) (s : string) : option (list (string * json) * string) :=
  match n with
  | O => None
  | S n' =>
    match skip_ws s with
    | String q r =>
      if negb (Ascii.eqb q (chr 34)) then None else
      '(k, r) ← unquote r;
      match skip_ws r with
      | String c r =>
        if negb (Ascii.eqb c (chr 58)) then None else
        '(v, r) ← value n' r;
        match skip_ws r with
        | String c r =>
          if Ascii.eqb c (chr 44) then '(l, r) ← members n' r; Some ((k, v) :: l, r)
          else if Ascii.eqb c (chr 125) then Some ([(k, v)], r)
          else None
        | "" => None
        end
      | "" => None
      end
    | "" => None
    end
  end
with elems (n : nat) (s : string) : option (list json * string) :=
  match n with
  | O => None
  | S n' =>
    '(v, r) ← value n' s;
    match skip_ws r with
    | String c r =>
      if Ascii.eqb c (chr 44) then '(l, r) ← elems n' r; Some (v :: l, r)
      else if Ascii.eqb c (chr 93) then Some ([v], r)
      else None
    | "" => None
    end
  end.

(** The first value of a stream ([Decoder.Decode]) and what follows it. *)
Definition Decode (s : string) : option (json * string) := value (2 * String.length s + 2) s.

(** [json.Unmarshal] up to the typed value: one value and nothing but space after it. *)
Definition Unmarshal (s : string) : option json :=
  '(j, r) ← Decode s;
  match skip_ws r with "" => Some j | _ => None end.
