(* ===== verification/JsonFacts.v ===== *)
(** Reading back what was written: strings and values. *)
From S2P Require Import Prelude GoStr Json.

(** ** Strings *)

Fixpoint utf8_valid (s : string) : bool :=
  match s with
  | "" => true
  | String a s1 =>
    if is_ascii a then utf8_valid s1
    else match rune_len s, s1 with
         | 2%nat, String b s2 => utf8_valid s2
         | 3%nat, String b (String c s3) => utf8_valid s3
         | 4%nat, String b (String c (String d s4)) => utf8_valid s4
         | _, _ => false
         end
  end.

(** An ASCII character is read back whatever follows. *)
Lemma unquote_esc_ascii a X :
  is_ascii a = true -> unquote (esc_ascii a +:+ X) = onto (String a "") (unquote X).
Proof.
  destruct a as [[] [] [] [] [] [] [] []]; intros Ha; try discriminate Ha; reflexivity.
Qed.

Lemma not_ascii_eqb a n : is_ascii a = false -> is_ascii (chr n) = true -> Ascii.eqb a (chr n) = false.
Proof. intros Ha Hn. destruct (Ascii.eqb_spec a (chr n)) as [->|]; [congruence|done]. Qed.

Lemma not_ascii_big a : is_ascii a = false -> Nat.ltb (code a) 32 = false.
Proof. unfold is_ascii. rewrite !Nat.ltb_ge. lia. Qed.

(** One step of [unquote] over a byte that is not ASCII. *)
Lemma unquote_high a r :
  is_ascii a = false ->
  unquote (String a r) =
  match rune_len (String a r), r with
  | 2%nat, String b s2 => onto (String a (String b "")) (unquote s2)
  | 3%nat, String b (String c s3) => onto (String a (String b (String c ""))) (unquote s3)
  | 4%nat, String b (String c (String d s4)) =>
    onto (String a (String b (String c (String d "")))) (unquote s4)
  | _, _ => onto RuneError (unquote r)
  end.
Proof.
  intros Ha. cbn [unquote]. rewrite (not_ascii_eqb a 34), (not_ascii_eqb a 92) by done.
  by rewrite not_ascii_big, Ha.
Qed.

Lemma rune_len_2 a b r : is_ascii a = false -> rune_len (String a (String b r)) = 2%nat ->
  forall r', rune_len (String a (String b r')) = 2%nat.
Proof. intros Ha. unfold rune_len. rewrite Ha. repeat case_match; by intros. Qed.

Lemma rune_len_3 a b c r : is_ascii a = false -> rune_len (String a (String b (String c r))) = 3%nat ->
  forall r', rune_len (String a (String b (String c r'))) = 3%nat.
Proof. intros Ha. unfold rune_len. rewrite Ha. repeat case_match; by intros. Qed.

Lemma rune_len_4 a b c d r :
  is_ascii a = false -> rune_len (String a (String b (String c (String d r)))) = 4%nat ->
  forall r', rune_len (String a (String b (String c (String d r')))) = 4%nat.
Proof. intros Ha. unfold rune_len. rewrite Ha. repeat case_match; by intros. Qed.

(** The line separators are read back from their escapes. *)
Lemma unquote_line_sep a b c X : is_line_sep a b c = true ->
  unquote ("\u20" +:+ hex2 (code c - 128) +:+ X) = onto (String a (String b (String c ""))) (unquote X).
Proof.
  unfold is_line_sep. intros [[->%Ascii.eqb_eq ->%Ascii.eqb_eq]%andb_true_iff Hc]%andb_true_iff.
  apply orb_true_iff in Hc as [->%Ascii.eqb_eq | ->%Ascii.eqb_eq]; reflexivity.
Qed.

Lemma onto_Some p x rest : onto p (Some (x, rest)) = Some (p +:+ x, rest).
Proof. done. Qed.

Lemma unquote_escape_len n s rest :
  (String.length s <= n)%nat -> utf8_valid s = true ->
  unquote (escape s +:+ DQ +:+ rest) = Some (s, rest).
Proof.
  revert s; induction n as [|n IH]; intros [|a s] Hl Hv; try done; [cbn in Hl; lia|].
  cbn [utf8_valid escape] in *. destruct (is_ascii a) eqn:Ha.
  { rewrite string_app_assoc, unquote_esc_ascii, IH by (done || cbn in Hl; lia). done. }
  destruct s as [|b s2]; [by destruct (rune_len _) as [|[|[|[|[|]]]]]|].
  destruct (rune_len (String a (String b s2))) as [|[|[|[|[|]]]]] eqn:Er; try done.
  - rewrite !string_app_cons. rewrite unquote_high by done.
    rewrite (rune_len_2 _ _ _ Ha Er), IH by (done || cbn in Hl; lia). done.
  - destruct s2 as [|c s3]; [done|]. destruct (is_line_sep a b c) eqn:Els.
    + rewrite !string_app_assoc, (unquote_line_sep a b c) by done.
      rewrite IH by (done || cbn in Hl; lia). done.
    + rewrite !string_app_cons. rewrite unquote_high by done.
      rewrite (rune_len_3 _ _ _ _ Ha Er), IH by (done || cbn in Hl; lia). done.
  - destruct s2 as [|c [|d s4]]; try done. rewrite !string_app_cons. rewrite unquote_high by done.
    rewrite (rune_len_4 _ _ _ _ _ Ha Er), IH by (done || cbn in Hl; lia). done.
Qed.

Lemma unquote_escape s rest :
  utf8_valid s = true -> unquote (escape s +:+ DQ +:+ rest) = Some (s, rest).
Proof. by eapply unquote_escape_len. Qed.

(** ** Numbers *)

(** What follows does not continue a number. *)
Definition num_char (c : ascii) : bool :=
  is_digit c || Ascii.eqb c (chr 46) || Ascii.eqb c (chr 101) || Ascii.eqb c (chr 69).
Definition stops (s : string) : bool :=
  match s with String c _ => negb (num_char c) | "" => true end.

Lemma span_digits_app s d r rest :
  span_digits s = (d, r) -> stops rest = true -> span_digits (s +:+ rest) = (d, r +:+ rest).
Proof.
  intros Hs Hst. revert d r Hs; induction s as [|c s IH]; intros d r Hs.
  - injection Hs as <- <-. rewrite !string_app_nil_l. destruct rest as [|c rest]; [done|].
    cbn in *. unfold num_char in Hst. by destruct (is_digit c).
  - rewrite string_app_cons. cbn in *. destruct (is_digit c).
    + destruct (span_digits s) as [d' r']. injection Hs as <- <-. by rewrite (IH d' r').
    + by injection Hs as <- <-.
Qed.

Lemma scan_int_app s d r rest :
  scan_int s = Some (d, r) -> stops rest = true -> scan_int (s +:+ rest) = Some (d, r +:+ rest).
Proof.
  destruct s as [|c s]; [done|]. rewrite string_app_cons. cbn. intros Hs Hst.
  destruct (Ascii.eqb c (chr 48)); [by injection Hs as <- <-|].
  destruct (in_range 49 57 c); [|done]. destruct (span_digits s) as [d' r'] eqn:E.
  injection Hs as <- <-. by rewrite (span_digits_app _ _ _ _ E).
Qed.

Lemma scan_frac_app s d r rest :
  scan_frac s = Some (d, r) -> stops rest = true -> scan_frac (s +:+ rest) = Some (d, r +:+ rest).
Proof.
  destruct s as [|c s]; intros Hs Hst.
  - injection Hs as <- <-. rewrite !string_app_nil_l. destruct rest as [|c rest]; [done|].
    cbn in *. unfold num_char in Hst. destruct (Ascii.eqb c (chr 46)); [|done].
    by rewrite orb_true_r in Hst.
  - rewrite string_app_cons. cbn in *. destruct (Ascii.eqb c (chr 46)); [|by injection Hs as <- <-].
    destruct (span_digits s) as [d' r'] eqn:E. rewrite (span_digits_app _ _ _ _ E) by done.
    destruct d'; [done|]. by injection Hs as <- <-.
Qed.

Lemma scan_exp_app s d r rest :
  scan_exp s = Some (d, r) -> stops rest = true -> scan_exp (s +:+ rest) = Some (d, r +:+ rest).
Proof.
  destruct s as [|c s]; intros Hs Hst.
  - injection Hs as <- <-. rewrite !string_app_nil_l. destruct rest as [|c rest]; [done|].
    cbn in *. unfold num_char in Hst. destruct (Ascii.eqb c (chr 101)), (Ascii.eqb c (chr 69)); try done;
      by rewrite ?orb_true_r in Hst.
  - rewrite string_app_cons. cbn in *.
    destruct (Ascii.eqb c (chr 101) || Ascii.eqb c (chr 69)); [|by injection Hs as <- <-].
    destruct s as [|p s]; [done|]. rewrite string_app_cons.
    destruct (Ascii.eqb p (chr 43) || Ascii.eqb p (chr 45)).
    + destruct (span_digits s) as [d' r'] eqn:E. rewrite (span_digits_app _ _ _ _ E) by done.
      destruct d'; [done|]. by injection Hs as <- <-.
    + destruct (span_digits (String p s)) as [d' r'] eqn:E.
      pose proof (span_digits_app _ _ _ rest E Hst) as E'. rewrite string_app_cons in E'. rewrite E'.
      destruct d'; [done|]. by injection Hs as <- <-.
Qed.

Definition is_number (l : string) : bool := bool_decide (scan_number l = Some (l, "")).

Lemma scan_number_app s d r rest :
  scan_number s = Some (d, r) -> stops rest = true ->
  scan_number (s +:+ rest) = Some (d, r +:+ rest).
Proof.
  intros Hs Hst. unfold scan_number in *.
  assert (forall sg r0, scan_sign s = (sg, r0) -> s <> "" ->
    scan_sign (s +:+ rest) = (sg, r0 +:+ rest)) as Hsp.
  { destruct s as [|c s]; [done|]. intros sg r0. rewrite string_app_cons. cbn.
    destruct (Ascii.eqb c (chr 45)); intros [= <- <-] _; by rewrite ?string_app_cons. }
  destruct (scan_sign s) as [sg r0] eqn:E0. destruct s as [|c s]; [cbn in E0; by simplify_eq|].
  rewrite (Hsp sg r0) by done.
  destruct (scan_int r0) as [[i r1]|] eqn:E1; [|done]. rewrite (scan_int_app _ _ _ _ E1 Hst). cbn in *.
  destruct (scan_frac r1) as [[f r2]|] eqn:E2; [|done]. rewrite (scan_frac_app _ _ _ _ E2 Hst). cbn in *.
  destruct (scan_exp r2) as [[x r3]|] eqn:E3; [|done]. rewrite (scan_exp_app _ _ _ _ E3 Hst). cbn in *.
  by injection Hs as <- <-.
Qed.

Lemma is_number_head l : is_number l = true ->
  exists c r, l = String c r /\ (c = chr 45 \/ is_digit c = true).
Proof.
  intros H%bool_decide_eq_true. destruct l as [|c l]; [done|]. exists c, l. split; [done|].
  unfold scan_number, scan_sign in H. destruct (Ascii.eqb_spec c (chr 45)) as [->|Hc]; [by left|right].
  cbn in H. destruct (Ascii.eqb_spec c (chr 48)) as [->|Hc0]; [done|].
  destruct (in_range 49 57 c) eqn:E; [|done]. unfold is_digit, in_range in *.
  apply andb_true_iff in E as [E1%Nat.leb_le E2%Nat.leb_le]. apply andb_true_iff.
  split; apply Nat.leb_le; lia.
Qed.

(** ** Values *)

(** Decides tests on concrete characters. *)
Ltac chars :=
  repeat match goal with
  | |- context [Ascii.eqb (chr ?a) (chr ?b)] =>
    let v := eval vm_compute in (Ascii.eqb (chr a) (chr b)) in
    change (Ascii.eqb (chr a) (chr b)) with v
  | |- context [is_ws (chr ?a)] =>
    let v := eval vm_compute in (is_ws (chr a)) in change (is_ws (chr a)) with v
  end; cbn beta iota delta [negb].

Fixpoint wf_json (j : json) : bool :=
  match j with
  | JNum l => is_number l
  | JStr s => utf8_valid s
  | JArr l => forallb wf_json l
  | JObj l => forallb (fun kv => utf8_valid kv.1 && wf_json kv.2) l
  | _ => true
  end.

Fixpoint jsize (j : json) : nat :=
  match j with
  | JArr l => S (list_sum (List.map (fun x => S (jsize x)) l))
  | JObj l => S (list_sum (List.map (fun kv => S (jsize kv.2)) l))
  | _ => 1
  end.

Definition all_ws (s : string) : bool := str_forallb is_ws s.

Lemma all_ws_app a b : all_ws a = true -> all_ws b = true -> all_ws (a +:+ b) = true.
Proof. unfold all_ws. intros Ha Hb. by rewrite str_forallb_app, Ha, Hb. Qed.

Lemma skip_ws_app p s : all_ws p = true -> skip_ws (p +:+ s) = skip_ws s.
Proof.
  induction p as [|c p IH]; [done|]. rewrite string_app_cons. cbn.
  intros [Hc Hp]%andb_true_iff. rewrite Hc. by apply IH.
Qed.

Lemma skip_ws_head c r : is_ws c = false -> skip_ws (String c r) = String c r.
Proof. intros Hc. cbn. by rewrite Hc. Qed.

Lemma value_skip n p s : all_ws p = true -> value n (p +:+ s) = value n s.
Proof. intros Hp. destruct n; [done|]. cbn [value]. by rewrite skip_ws_app. Qed.

Lemma members_skip n p s : all_ws p = true -> members n (p +:+ s) = members n s.
Proof. intros Hp. destruct n; [done|]. cbn [members]. by rewrite skip_ws_app. Qed.

Lemma elems_skip n p s : all_ws p = true -> elems n (p +:+ s) = elems n s.
Proof. intros Hp. destruct n; [done|]. cbn [elems]. by rewrite value_skip. Qed.

Lemma digit_not c n : is_digit c = true -> is_digit (chr n) = false -> Ascii.eqb c (chr n) = false.
Proof. intros Hc Hn. destruct (Ascii.eqb_spec c (chr n)) as [->|]; [congruence|done]. Qed.

(** What a written value begins with: no space and no closing bracket. *)
Definition value_head (c : ascii) : Prop :=
  is_ws c = false /\ Ascii.eqb c (chr 93) = false /\ Ascii.eqb c (chr 125) = false.

Lemma write_head step colon nl j : wf_json j = true ->
  exists c r, write step colon nl j = String c r /\ value_head c.
Proof.
  destruct j as [|[]|l|s|[|x l]|[|x l]]; intros Hwf; try (by eexists _, _).
  destruct (is_number_head l Hwf) as (c & r & -> & Hc). exists c, r. split; [done|].
  unfold value_head, is_ws. destruct Hc as [->|Hc]; [done|]. by rewrite !(digit_not c) by done.
Qed.

Lemma value_number n l rest :
  is_number l = true -> stops rest = true -> value (S n) (l +:+ rest) = Some (JNum l, rest).
Proof.
  intros Hl Hst. pose proof (is_number_head l Hl) as (c & r & E & Hc).
  pose proof Hl as Hs%bool_decide_eq_true.
  pose proof (scan_number_app _ _ _ rest Hs Hst) as Hn. rewrite string_app_nil_l in Hn.
  assert (is_ws c = false) as Hws.
  { unfold is_ws. destruct Hc as [->|Hc]; [done|]. by rewrite !(digit_not c) by done. }
  cbn [value]. rewrite E in *. rewrite string_app_cons in *. rewrite skip_ws_head by done.
  assert (Ascii.eqb c (chr 34) = false /\ Ascii.eqb c (chr 123) = false /\ Ascii.eqb c (chr 91) = false /\
    Ascii.eqb c (chr 110) = false /\ Ascii.eqb c (chr 116) = false /\ Ascii.eqb c (chr 102) = false)
    as (-> & -> & -> & H1 & H2 & H3).
  { destruct Hc as [->|Hc]; [done|]. by rewrite !(digit_not c) by done. }
  cbn [HasPrefix]. rewrite !bool_decide_eq_false_2; [by rewrite Hn|..];
    intros E'; subst c; done.
Qed.

Lemma skip_quote s : skip_ws (DQ +:+ s) = String (chr 34) s.
Proof. done. Qed.

(** A bracket in front: the reader looks for the matching one first. *)
Lemma value_open n s :
  value (S n) ("[" +:+ s) =
    (if HasPrefix (skip_ws s) "]" then Some (JArr [], str_drop 1 (skip_ws s))
     else '(l, r) ← elems n s; Some (JArr l, r)).
Proof. done. Qed.

Lemma value_brace n s :
  value (S n) ("{" +:+ s) =
    (if HasPrefix (skip_ws s) "}" then Some (JObj [], str_drop 1 (skip_ws s))
     else '(l, r) ← members n s; Some (JObj l, r)).
Proof. done. Qed.

Lemma value_string n s : value (S n) (DQ +:+ s) = '(x, r) ← unquote s; Some (JStr x, r).
Proof. done. Qed.

Section roundtrip.
Context (step colon : string) (Hstep : all_ws step = true)
  (Hcolon : exists p, colon = ":" +:+ p /\ all_ws p = true).

Definition reads_back (j : json) : Prop :=
  forall nl rest n, all_ws nl = true -> stops rest = true -> (jsize j <= n)%nat ->
    value n (write step colon nl j +:+ rest) = Some (j, rest).

Lemma stops_ws nl c rest : all_ws nl = true -> num_char c = false -> stops (nl +:+ String c rest) = true.
Proof.
  destruct nl as [|d nl]; rewrite ?string_app_nil_l, ?string_app_cons; cbn.
  - by intros _ ->.
  - intros [Hd _]%andb_true_iff _. unfold is_ws in Hd. apply negb_true_iff.
    apply not_true_iff_false. intros Hn. unfold num_char in Hn.
    repeat (apply orb_true_iff in Hd as [Hd|Hd]); apply Ascii.eqb_eq in Hd; subst d; done.
Qed.

Lemma Join_with_cons sep x y l :
  Join_with sep (x :: y :: l) = x +:+ sep +:+ Join_with sep (y :: l).
Proof. done. Qed.

Lemma Join_head sep x l X : exists Y, Join_with sep (x :: l) +:+ X = x +:+ Y.
Proof. destruct l as [|y l]; [by exists X|]. eexists. by rewrite Join_with_cons, string_app_assoc. Qed.

(** After an item comes a comma or the closing bracket. *)
Lemma reads_elems nl l rest n x :
  all_ws nl = true -> Forall reads_back (x :: l) ->
  (list_sum (List.map (fun x => S (jsize x)) (x :: l)) <= n)%nat ->
  elems n (Join_with "," (List.map (fun x => (nl +:+ step) +:+ write step colon (nl +:+ step) x) (x :: l))
    +:+ nl +:+ "]" +:+ rest) = Some (x :: l, rest).
Proof.
  intros Hnl. assert (all_ws (nl +:+ step) = true) as Hnl' by (by apply all_ws_app).
  revert x n; induction l as [|y l IH]; intros x n Hf Hn;
    inv Hf as [|? ? Hx Hl]; cbn in Hn; destruct n as [|n]; try lia; cbn [elems List.map].
  - cbn [Join_with]. rewrite string_app_assoc, value_skip by done.
    rewrite Hx by (done || lia || by apply stops_ws). cbn.
    rewrite skip_ws_app by done. done.
  - specialize (IH y n Hl). cbn [List.map] in IH. rewrite Join_with_cons.
    set (J := Join_with "," _) in *. clearbody J. rewrite !string_app_assoc.
    rewrite (value_skip n nl), (value_skip n step) by done.
    rewrite Hx by (done || lia). cbn [mbind option_bind].
    change ("," +:+ ?s) with (String (chr 44) s). cbn [skip_ws]. chars.
    rewrite IH by (cbn; lia). done.
Qed.

(** A member: key, colon, value. *)
Lemma reads_members nl l rest n x :
  all_ws nl = true -> Forall (fun kv => reads_back kv.2) (x :: l) ->
  forallb (fun kv => utf8_valid kv.1) (x :: l) = true ->
  (list_sum (List.map (fun kv => S (jsize kv.2)) (x :: l)) <= n)%nat ->
  members n (Join_with "," (List.map (fun kv => (nl +:+ step) +:+ quote kv.1 +:+ colon +:+
      write step colon (nl +:+ step) kv.2) (x :: l)) +:+ nl +:+ "}" +:+ rest) = Some (x :: l, rest).
Proof.
  destruct Hcolon as (p & Ep & Hp).
  intros Hnl. assert (all_ws (nl +:+ step) = true) as Hnl' by (by apply all_ws_app).
  assert (forall n k j X, utf8_valid k = true -> reads_back j -> stops X = true ->
    (jsize j <= n)%nat ->
    members (S n) (((nl +:+ step) +:+ quote k +:+ colon +:+ write step colon (nl +:+ step) j) +:+ X) =
    match skip_ws X with
    | String c r =>
      if Ascii.eqb c (chr 44) then '(l, r) ← members n r; Some ((k, j) :: l, r)
      else if Ascii.eqb c (chr 125) then Some ([(k, j)], r)
      else None
    | "" => None
    end) as Hone.
  { intros m k j X Hk Hj HX Hm. rewrite string_app_assoc, members_skip by done.
    cbn [members]. unfold quote. rewrite !string_app_assoc.
    rewrite skip_quote. chars. rewrite unquote_escape by done. cbn [mbind option_bind].
    rewrite Ep, !string_app_assoc.
    change (":" +:+ ?s) with (String (chr 58) s). cbn [skip_ws]. chars.
    rewrite value_skip by done. rewrite <-Ep. rewrite Hj by done. done. }
  revert x n; induction l as [|y l IH]; intros [k j] n Hf Hk Hn;
    inv Hf as [|? ? Hx Hl]; cbn in Hn, Hk, Hx; apply andb_true_iff in Hk as [Hk Hkl];
    destruct n as [|n]; try lia; cbn [List.map fst snd].
  - cbn [Join_with]. rewrite Hone by (done || lia || by apply stops_ws).
    rewrite skip_ws_app by done. done.
  - specialize (IH y n Hl). cbn [List.map] in IH. rewrite Join_with_cons.
    set (J := Join_with "," _) in *. clearbody J.
    rewrite (string_app_assoc _ ("," +:+ J)), (string_app_assoc "," J).
    cbn [fst snd]. rewrite Hone by (done || lia).
    change ("," +:+ ?s) with (String (chr 44) s). cbn [skip_ws]. chars.
    rewrite IH by (done || cbn; lia). done.
Qed.

Lemma value_write j : wf_json j = true -> reads_back j.
Proof.
  induction j as [|b|l|s|l IH|l IH] using json_rec'; intros Hwf nl rest n Hnl Hst Hn.
  - destruct n; [cbn in Hn; lia|]. done.
  - destruct n; [cbn in Hn; lia|]. by destruct b.
  - destruct n; [cbn in Hn; lia|]. by apply value_number.
  - destruct n; [cbn in Hn; lia|]. cbn [write]. unfold quote. rewrite !string_app_assoc.
    by rewrite value_string, unquote_escape.
  - destruct n; [cbn in Hn; lia|]. destruct l as [|x l]; [done|]. cbn [wf_json] in Hwf.
    assert (Forall reads_back (x :: l)) as Hf.
    { rewrite forallb_forall in Hwf. rewrite Forall_forall in *.
      intros y Hy. apply IH; [done|]. by apply Hwf, list_elem_of_In. }
    pose proof (reads_elems nl l rest n x Hnl Hf) as He. cbn [jsize] in Hn.
    cbn [write]. rewrite !string_app_assoc, value_open, He by lia.
    assert (HasPrefix (skip_ws (Join_with "," (List.map (fun x => (nl +:+ step) +:+
      write step colon (nl +:+ step) x) (x :: l)) +:+ nl +:+ "]" +:+ rest)) "]" = false) as ->; [|done].
    cbn in Hwf. apply andb_true_iff in Hwf as [Hwx _].
    destruct (write_head step colon (nl +:+ step) x Hwx) as (c & r & E & Hw & Hc & _).
    cbn [List.map]. edestruct (Join_head ",") as [Y ->].
    rewrite E, string_app_assoc, skip_ws_app by (by apply all_ws_app).
    rewrite !string_app_cons, skip_ws_head by done. cbn. rewrite bool_decide_eq_false_2; [done|].
    intros <-. done.
  - destruct n; [cbn in Hn; lia|]. destruct l as [|x l]; [done|]. cbn [wf_json] in Hwf.
    assert (Forall (fun kv => reads_back kv.2) (x :: l) /\
      forallb (fun kv => utf8_valid kv.1) (x :: l) = true) as [Hf Hk].
    { rewrite forallb_forall in Hwf. split.
      - rewrite Forall_forall in *. intros y Hy. apply IH; [done|].
        apply list_elem_of_In, Hwf, andb_true_iff in Hy. apply Hy.
      - apply forallb_forall. intros y Hy. apply Hwf, andb_true_iff in Hy. apply Hy. }
    pose proof (reads_members nl l rest n x Hnl Hf Hk) as He. cbn [jsize] in Hn.
    cbn [write]. rewrite !string_app_assoc, value_brace, He by lia.
    assert (HasPrefix (skip_ws (Join_with "," (List.map (fun kv => (nl +:+ step) +:+ quote kv.1 +:+
      colon +:+ write step colon (nl +:+ step) kv.2) (x :: l)) +:+ nl +:+ "}" +:+ rest)) "}" = false)
      as ->; [|done].
    cbn [List.map]. unfold quote. edestruct (Join_head ",") as [Y ->]. rewrite !string_app_assoc.
    rewrite !skip_ws_app by done. by rewrite skip_quote.
Qed.

End roundtrip.

(** ** Marshalled text *)

Lemma length_app_str a b : String.length (a +:+ b) = (String.length a + String.length b)%nat.
Proof. apply length_string_app. Qed.

Lemma join_length {A} (f : A -> string) (g : A -> nat) sep l :
  Forall (fun x => (g x <= 2 * String.length (f x))%nat) l -> (1 <= String.length sep)%nat ->
  (list_sum (List.map (fun x => S (g x)) l) <= 2 * String.length (Join_with sep (List.map f l)) + 1)%nat.
Proof.
  intros Hl Hsep. induction l as [|x l IH]; [cbn; lia|]. inv Hl as [|? ? Hx Hl'].
  specialize (IH Hl'). destruct l as [|y l]; [cbn in *; lia|].
  cbn [List.map]. rewrite Join_with_cons, !length_app_str. cbn [List.map list_sum foldr] in *. lia.
Qed.

Lemma jsize_length step colon nl j : wf_json j = true ->
  (jsize j <= 2 * String.length (write step colon nl j))%nat.
Proof.
  revert nl; induction j as [|b|l|s|l IH|l IH] using json_rec'; intros nl Hwf.
  - cbn; lia.
  - destruct b; cbn; lia.
  - destruct (is_number_head l Hwf) as (c & r & -> & _). cbn. lia.
  - cbn [write]. unfold quote. rewrite !length_app_str. cbn. lia.
  - destruct l as [|x l]; [cbn; lia|]. cbn [write]. rewrite !length_app_str.
    pose proof (join_length (fun x => (nl +:+ step) +:+ write step colon (nl +:+ step) x) jsize ","
      (x :: l)) as HJ. cbn [jsize]. cbn [wf_json] in Hwf. rewrite forallb_forall in Hwf.
    assert (list_sum (map (fun x => S (jsize x)) (x :: l)) <= 2 * String.length (Join_with ","
      (List.map (fun x => (nl +:+ step) +:+ write step colon (nl +:+ step) x) (x :: l))) + 1)%nat as H;
      [|cbn in H |- *; lia].
    apply HJ; [|done]. rewrite Forall_forall in *. intros y Hy. rewrite length_app_str.
    specialize (IH y Hy (nl +:+ step) (Hwf y (proj1 (list_elem_of_In _ _) Hy))). lia.
  - destruct l as [|x l]; [cbn; lia|]. cbn [write]. rewrite !length_app_str.
    pose proof (join_length (fun kv => (nl +:+ step) +:+ quote kv.1 +:+ colon +:+
      write step colon (nl +:+ step) kv.2) (fun kv => jsize kv.2) "," (x :: l)) as HJ.
    cbn [jsize]. cbn [wf_json] in Hwf. rewrite forallb_forall in Hwf.
    assert (list_sum (map (fun kv => S (jsize kv.2)) (x :: l)) <= 2 * String.length (Join_with ","
      (List.map (fun kv => (nl +:+ step) +:+ quote kv.1 +:+ colon +:+
        write step colon (nl +:+ step) kv.2) (x :: l))) + 1)%nat as H; [|cbn in H |- *; lia].
    apply HJ; [|done]. rewrite Forall_forall in *. intros y Hy. rewrite !length_app_str.
    pose proof (Hwf y (proj1 (list_elem_of_In _ _) Hy)) as [_ Hwy]%andb_true_iff.
    specialize (IH y Hy (nl +:+ step) Hwy). lia.
Qed.

Lemma Decode_write step colon nl j rest :
  all_ws step = true -> (exists p, colon = ":" +:+ p /\ all_ws p = true) -> all_ws nl = true ->
  wf_json j = true -> stops rest = true ->
  Decode (write step colon nl j +:+ rest) = Some (j, rest).
Proof.
  intros Hs Hc Hn Hwf Hst. unfold Decode. apply value_write; try done.
  pose proof (jsize_length step colon nl j Hwf). rewrite length_app_str. lia.
Qed.

(** The first value of a stream that starts with marshalled text is what was marshalled. *)
Lemma Decode_MarshalIndent j rest :
  wf_json j = true -> stops rest = true -> Decode (MarshalIndent j +:+ rest) = Some (j, rest).
Proof. apply Decode_write; [done|by exists " "|done]. Qed.

Lemma Unmarshal_MarshalIndent j : wf_json j = true -> Unmarshal (MarshalIndent j) = Some j.
Proof.
  intros Hwf. unfold Unmarshal. rewrite <-(string_app_nil_r (MarshalIndent j)).
  by rewrite Decode_MarshalIndent.
Qed.

Lemma Unmarshal_Marshal j : wf_json j = true -> Unmarshal (Marshal j) = Some j.
Proof.
  intros Hwf. unfold Unmarshal. rewrite <-(string_app_nil_r (Marshal j)).
  unfold Marshal. rewrite Decode_write; try done. by exists "".
Qed.

(** ** Marshalled text inside a frame

    No carriage return, and no line that starts with a dash: a frame that ends with a line of
    dashes is never cut short by the text in it. *)
Fixpoint header_safe (s : string) : bool :=
  match s with
  | "" => true
  | String c r =>
    negb (Ascii.eqb c (chr 13)) &&
    (if Ascii.eqb c (chr 10)
     then match r with String d _ => negb (Ascii.eqb d (chr 45)) | "" => false end
     else true) && header_safe r
  end.

Lemma header_safe_app a b :
  header_safe a = true -> header_safe b = true -> header_safe (a +:+ b) = true.
Proof.
  intros Ha Hb. induction a as [|c a IH]; [done|]. rewrite string_app_cons. cbn in *.
  apply andb_true_iff in Ha as [[Hc Hn]%andb_true_iff Ha]. rewrite Hc, IH by done.
  destruct (Ascii.eqb c (chr 10)); [|done]. destruct a as [|d a]; [done|].
  rewrite string_app_cons. by rewrite Hn.
Qed.

(** Text without line breaks. *)
Definition one_line (s : string) : bool :=
  str_forallb (fun c => negb (Ascii.eqb c (chr 13)) && negb (Ascii.eqb c (chr 10))) s.

Lemma one_line_app a b : one_line (a +:+ b) = one_line a && one_line b.
Proof. unfold one_line. apply str_forallb_app. Qed.

Lemma one_line_safe s : one_line s = true -> header_safe s = true.
Proof.
  induction s as [|c s IH]; [done|]. cbn. intros [[Hc Hn]%andb_true_iff Hs]%andb_true_iff.
  apply negb_true_iff in Hn. rewrite Hc, Hn. cbn. by apply IH.
Qed.

Lemma esc_ascii_one_line c : is_ascii c = true -> one_line (esc_ascii c) = true.
Proof. destruct c as [[] [] [] [] [] [] [] []]; intros H; try discriminate H; reflexivity. Qed.

Lemma high_one_line c s : is_ascii c = false -> one_line (String c s) = one_line s.
Proof. intros Hc. unfold one_line. cbn [str_forallb]. by rewrite !(not_ascii_eqb c). Qed.

Lemma cont_high lo hi c : (128 <= lo)%nat -> cont_byte lo hi c = true -> is_ascii c = false.
Proof.
  unfold cont_byte, in_range, is_ascii, code. intros Hlo [H%Nat.leb_le _]%andb_true_iff.
  apply Nat.ltb_ge. lia.
Qed.

(** The bytes after the first of a rune are not ASCII. *)
Lemma rune_tail_2 a b r : is_ascii a = false -> rune_len (String a (String b r)) = 2%nat ->
  is_ascii b = false.
Proof.
  intros Ha. unfold rune_len. rewrite Ha. repeat case_match; intros; try done.
  by eapply (cont_high 128 191).
Qed.

Lemma rune_tail_3 a b c r : is_ascii a = false -> rune_len (String a (String b (String c r))) = 3%nat ->
  is_ascii b = false /\ is_ascii c = false.
Proof.
  intros Ha. unfold rune_len. rewrite Ha. cbv zeta.
  destruct (in_range 194 223 a); [by case_match|].
  destruct (in_range 224 239 a); [|repeat case_match; done].
  destruct (cont_byte _ _ b && cont_byte _ _ c) eqn:E; [|done]. intros _.
  apply andb_true_iff in E as [Hb Hc]. split; [|by eapply (cont_high 128 191)].
  eapply cont_high; [|exact Hb]. case_match; lia.
Qed.

Lemma rune_tail_4 a b c d r :
  is_ascii a = false -> rune_len (String a (String b (String c (String d r)))) = 4%nat ->
  is_ascii b = false /\ is_ascii c = false /\ is_ascii d = false.
Proof.
  intros Ha. unfold rune_len. rewrite Ha. cbv zeta.
  destruct (in_range 194 223 a); [by case_match|].
  destruct (in_range 224 239 a); [repeat case_match; done|].
  destruct (in_range 240 244 a); [|done].
  destruct (cont_byte _ _ b && cont_byte _ _ c && cont_byte _ _ d) eqn:E; [|done]. intros _.
  apply andb_true_iff in E as [[Hb Hc]%andb_true_iff Hd].
  split; [|split; by eapply (cont_high 128 191)]. eapply cont_high; [|exact Hb]. case_match; lia.
Qed.

Lemma line_sep_one_line a b c : is_line_sep a b c = true -> one_line (hex2 (code c - 128)) = true.
Proof.
  unfold is_line_sep. intros [_ Hc]%andb_true_iff.
  apply orb_true_iff in Hc as [->%Ascii.eqb_eq | ->%Ascii.eqb_eq]; reflexivity.
Qed.

Lemma escape_one_line_len n s : (String.length s <= n)%nat -> one_line (escape s) = true.
Proof.
  revert s; induction n as [|n IH]; intros [|a s] Hl; try done; [cbn in Hl; lia|].
  cbn [escape]. cbn in Hl. destruct (is_ascii a) eqn:Ha.
  { rewrite one_line_app, esc_ascii_one_line, IH by (done || lia). done. }
  assert (one_line ("\ufffd" +:+ escape s) = true) as Hbad
    by (rewrite one_line_app, IH by lia; done).
  destruct (rune_len (String a s)) as [|[|[|[|[|k]]]]] eqn:Er; try done; destruct s as [|b s2]; try done;
    cbn in Hl.
  - pose proof (rune_tail_2 _ _ _ Ha Er) as Hb. rewrite !high_one_line by done. apply IH. lia.
  - destruct s2 as [|c s3]; [done|]. destruct (rune_tail_3 _ _ _ _ Ha Er) as [Hb Hc]. cbn in Hl.
    destruct (is_line_sep a b c) eqn:Els.
    + rewrite !one_line_app, (line_sep_one_line a b c), IH by (done || lia). done.
    + rewrite !high_one_line by done. apply IH. lia.
  - destruct s2 as [|c [|d s4]]; try done. destruct (rune_tail_4 _ _ _ _ _ Ha Er) as (Hb & Hc & Hd).
    cbn in Hl. rewrite !high_one_line by done. apply IH. lia.
Qed.

Lemma quote_one_line s : one_line (quote s) = true.
Proof. unfold quote. rewrite !one_line_app. by rewrite (escape_one_line_len (String.length s) s). Qed.

(** Numbers stay on one line. *)
Lemma digit_one_line c s : is_digit c = true -> one_line (String c s) = one_line s.
Proof. intros Hc. unfold one_line. cbn [str_forallb]. by rewrite !(digit_not c). Qed.

Lemma span_digits_one_line s d r : span_digits s = (d, r) -> one_line d = true.
Proof.
  revert d; induction s as [|c s IH]; intros d; cbn; [by intros [= <- _]|].
  destruct (is_digit c) eqn:Hc; [|by intros [= <- _]].
  destruct (span_digits s) as [d' r']. intros [= <- ->]. rewrite digit_one_line by done. by apply IH.
Qed.

Lemma is_number_one_line l : is_number l = true -> one_line l = true.
Proof.
  intros H%bool_decide_eq_true. unfold scan_number in H. destruct (scan_sign l) as [sg r] eqn:E0.
  assert (one_line sg = true) as Hsg.
  { unfold scan_sign in E0. repeat case_match; by simplify_eq. }
  destruct (scan_int r) as [[i r1]|] eqn:E1; [|done]. cbn in H.
  destruct (scan_frac r1) as [[f r2]|] eqn:E2; [|done]. cbn in H.
  destruct (scan_exp r2) as [[x r3]|] eqn:E3; [|done]. cbn in H. injection H as H _. rewrite <-H.
  rewrite !one_line_app, Hsg. cbn.
  assert (one_line i = true) as ->.
  { unfold scan_int in E1. destruct r as [|c r]; [done|]. case_match; [by simplify_eq|].
    destruct (in_range 49 57 c) eqn:Hc; [|done]. destruct (span_digits r) as [d r'] eqn:E.
    injection E1 as <- _. rewrite digit_one_line; [by eapply span_digits_one_line|].
    unfold is_digit, in_range in *. apply andb_true_iff in Hc as [H1%Nat.leb_le H2%Nat.leb_le].
    apply andb_true_iff; split; apply Nat.leb_le; lia. }
  assert (one_line f = true) as ->.
  { unfold scan_frac in E2. destruct r1 as [|c r1]; [by simplify_eq|].
    destruct (Ascii.eqb_spec c (chr 46)) as [->|]; [|by simplify_eq].
    destruct (span_digits r1) as [d r'] eqn:E. destruct d as [|c d]; [done|]. injection E2 as <- _.
    exact (span_digits_one_line _ _ _ E). }
  unfold scan_exp in E3. destruct r2 as [|c r2]; [by simplify_eq|].
  destruct (Ascii.eqb c (chr 101) || Ascii.eqb c (chr 69)) eqn:Hc; [|by simplify_eq].
  assert (forall sg d rest, span_digits rest = (d, r3) -> one_line sg = true ->
    one_line (String c (sg +:+ d)) = true) as Hx.
  { intros sg' d rest Hd Hsg'. change (String c (sg' +:+ d)) with (String c "" +:+ sg' +:+ d).
    rewrite !one_line_app, Hsg', (span_digits_one_line _ _ _ Hd).
    apply orb_true_iff in Hc as [->%Ascii.eqb_eq | ->%Ascii.eqb_eq]; done. }
  destruct r2 as [|p r2]; [done|]. destruct (Ascii.eqb p (chr 43) || Ascii.eqb p (chr 45)) eqn:Hp.
  - destruct (span_digits r2) as [d r'] eqn:E. destruct d as [|c' d]; [done|]. injection E3 as <- ->.
    eapply Hx; [exact E|]. apply orb_true_iff in Hp as [->%Ascii.eqb_eq | ->%Ascii.eqb_eq]; done.
  - destruct (span_digits (String p r2)) as [d r'] eqn:E. destruct d as [|c' d]; [done|].
    injection E3 as <- ->. rewrite <-(string_app_nil_l (String c' d)). by eapply Hx.
Qed.

Definition spaces (s : string) : bool := str_forallb (fun c => Ascii.eqb c (chr 32)) s.

Lemma spaces_one_line s : spaces s = true -> one_line s = true.
Proof.
  induction s as [|c s IH]; [done|]. unfold spaces, one_line in *. cbn.
  intros [->%Ascii.eqb_eq Hs]%andb_true_iff. by apply IH.
Qed.

Lemma spaces_step s : spaces s = true -> spaces (s +:+ "  ") = true.
Proof. unfold spaces. intros Hs. by rewrite str_forallb_app, Hs. Qed.

Definition no_dash (s : string) : bool :=
  match s with String d _ => negb (Ascii.eqb d (chr 45)) | "" => false end.

Lemma header_safe_nl sp X :
  spaces sp = true -> no_dash X = true -> header_safe X = true ->
  header_safe ((LF +:+ sp) +:+ X) = true.
Proof.
  intros Hsp Hd HX. rewrite string_app_assoc. change (LF +:+ ?s) with (String (chr 10) s).
  cbn [header_safe]. rewrite header_safe_app by (done || by apply one_line_safe, spaces_one_line).
  chars. destruct sp as [|c sp].
  - rewrite string_app_nil_l. unfold no_dash in Hd. destruct X; [done|]. by rewrite Hd.
  - unfold spaces in Hsp. cbn in Hsp. apply andb_true_iff in Hsp as [->%Ascii.eqb_eq _]. done.
Qed.

(** The same where the indentation is not empty. *)
Lemma header_safe_indent sp X :
  spaces sp = true -> header_safe X = true -> header_safe ((LF +:+ sp +:+ "  ") +:+ X) = true.
Proof.
  intros Hsp HX. rewrite <-string_app_assoc, string_app_assoc.
  apply header_safe_nl; [done|done|]. by apply (header_safe_app "  " X).
Qed.

Lemma header_safe_Join l : Forall (fun s => header_safe s = true) l -> header_safe (Join_with "," l) = true.
Proof.
  intros Hl. induction l as [|x [|y l] IH]; [done|by inv Hl|]. inv Hl.
  rewrite Join_with_cons. apply header_safe_app; [done|]. apply (header_safe_app ","); [done|]. auto.
Qed.

Lemma write_safe sp j :
  spaces sp = true -> wf_json j = true -> header_safe (write "  " ": " (LF +:+ sp) j) = true.
Proof.
  revert sp; induction j as [|b|l|s|l IH|l IH] using json_rec'; intros sp Hsp Hwf;
    try done; cbn [write].
  - by destruct b.
  - by apply one_line_safe, is_number_one_line.
  - apply one_line_safe, quote_one_line.
  - destruct l as [|x l]; [done|]. apply (header_safe_app "["); [done|].
    apply header_safe_app; [|by apply header_safe_nl]. apply header_safe_Join, Forall_forall.
    intros s (y & <- & Hy)%list_elem_of_In%in_map_iff. rewrite (string_app_assoc LF sp "  ").
    apply header_safe_indent; [done|]. rewrite Forall_forall in IH. cbn [wf_json] in Hwf.
    rewrite forallb_forall in Hwf. apply IH; [by apply list_elem_of_In| |by apply Hwf].
    by apply spaces_step.
  - destruct l as [|x l]; [done|]. apply (header_safe_app "{"); [done|].
    apply header_safe_app; [|by apply header_safe_nl]. apply header_safe_Join, Forall_forall.
    intros s (y & <- & Hy)%list_elem_of_In%in_map_iff. rewrite (string_app_assoc LF sp "  ").
    apply header_safe_indent; [done|]. rewrite Forall_forall in IH. cbn [wf_json] in Hwf.
    rewrite forallb_forall in Hwf. pose proof (Hwf y Hy) as [_ Hwy]%andb_true_iff.
    apply header_safe_app; [apply one_line_safe, quote_one_line|].
    apply (header_safe_app ": "); [done|]. apply IH; [by apply list_elem_of_In| |done].
    by apply spaces_step.
Qed.

Lemma MarshalIndent_safe j : wf_json j = true -> header_safe (MarshalIndent j) = true.
Proof.
  intros Hwf. unfold MarshalIndent. rewrite <-(string_app_nil_r LF). by apply write_safe.
Qed.

(** Where the frame ends. *)
Lemma Index_frame h body :
  header_safe h = true -> Index (h +:+ LF +:+ "---" +:+ LF +:+ body) (LF +:+ "---" +:+ LF) =
    Some (String.length h).
Proof.
  set (pat := LF +:+ "---" +:+ LF). assert (LF +:+ "---" +:+ LF +:+ body = pat +:+ body) as -> by done.
  induction h as [|c h IH]; intros Hs.
  - rewrite string_app_nil_l. destruct (pat +:+ body) eqn:E; [done|]. rewrite <-E. cbn [Index].
    unfold Index. rewrite E at 1. rewrite <-E. by rewrite HasPrefix_app.
  - cbn in Hs. apply andb_true_iff in Hs as [[Hc Hn]%andb_true_iff Hs]. rewrite string_app_cons.
    cbn [Index]. rewrite IH by done.
    assert (HasPrefix (String c (h +:+ pat +:+ body)) pat = false) as ->; [|done].
    change pat with (String (chr 10) (String (chr 45) ("--" +:+ LF))). cbn [HasPrefix].
    destruct (Ascii.eqb_spec c (chr 10)) as [->|Hne].
    + destruct h as [|d h]; [done|]. rewrite string_app_cons. cbn [HasPrefix].
      rewrite (bool_decide_eq_false_2 (chr 45 = d)); [by rewrite andb_false_r|].
      intros <-. done.
    + rewrite bool_decide_eq_false_2; [done|]. by intros <-.
Qed.

Lemma crlf_to_lf_cons c s : c <> chr 13 -> crlf_to_lf (String c s) = String c (crlf_to_lf s).
Proof.
  intros Hc. destruct s as [|d s]; [done|]. cbn [crlf_to_lf].
  by rewrite bool_decide_eq_false_2.
Qed.

(** Text without carriage returns does not make a CRLF of its own. *)
Lemma crlf_to_lf_app h s :
  str_mem (chr 13) h = false -> crlf_to_lf (h +:+ s) = h +:+ crlf_to_lf s.
Proof.
  induction h as [|c h IH]; [done|]. cbn. intros [Hc Hh]%orb_false_iff.
  rewrite !string_app_cons, crlf_to_lf_cons by (intros ->; by rewrite bool_decide_eq_true_2 in Hc).
  by rewrite IH.
Qed.

Lemma header_safe_no_cr h : header_safe h = true -> str_mem (chr 13) h = false.
Proof.
  induction h as [|c h IH]; [done|]. cbn. intros [[Hc%negb_true_iff _]%andb_true_iff Hs]%andb_true_iff.
  rewrite IH, orb_false_r by done. apply bool_decide_eq_false. intros <-. done.
Qed.
