(* ===== verification/JsonStruct.v ===== *)
(** Structs in JSON: how encoding/json maps a Go struct with field tags to an object and back.

    Writing puts the fields in declaration order and leaves out the empty ones tagged
    omitempty.  Reading goes through the members in order: a member is for the field with
    that very name, or failing that for the first field whose name is equal up to case; other
    members are ignored, later ones overwrite earlier ones, and a value of the wrong type is
    an error.  [null] leaves strings, numbers and booleans as they are and makes slices and maps nil. *)
From stdpp Require Import pretty.
From S2P Require Import Prelude GoStr GoTime Json JsonFacts.

(** ASCII text is valid UTF-8. *)
Lemma ascii_utf8 s : str_forallb is_ascii s = true -> utf8_valid s = true.
Proof.
  induction s as [|c s IH]; [done|]. cbn [str_forallb]. intros [Hc Hs]%andb_true_iff.
  cbn [utf8_valid]. rewrite Hc. by apply IH.
Qed.

Lemma stamp_char_ascii c : stamp_char c = true -> is_ascii c = true.
Proof. by destruct c as [[] [] [] [] [] [] [] []]. Qed.

Lemma stamp_utf8 s : str_forallb stamp_char s = true -> utf8_valid s = true.
Proof. intros H. apply ascii_utf8. eapply str_forallb_impl; [apply stamp_char_ascii|done]. Qed.

(** ** Fields *)

(** How a type is read into a field that holds some value already, and written. *)
Class JsonField (A : Type) := {
  to_json : A -> json;
  from_json : A -> json -> option A;
}.

(** What was written is read back, whatever the field held; [good] says which values. *)
Class JsonFieldLaw (A : Type) `{JsonField A} := {
  good : A -> bool;
  good_wf : forall a, good a = true -> wf_json (to_json a) = true;
  good_back : forall a old, good a = true -> from_json old (to_json a) = Some a;
}.

#[global] Instance json_string : JsonField string := {|
  to_json := JStr;
  from_json old j := match j with JStr s => Some s | JNull => Some old | _ => None end;
|}.
#[global] Program Instance json_string_law : JsonFieldLaw string := {| good := utf8_valid |}.
Next Obligation. done. Qed.
Next Obligation. done. Qed.

#[global] Instance json_bool : JsonField bool := {|
  to_json := JBool;
  from_json old j := match j with JBool b => Some b | JNull => Some old | _ => None end;
|}.
#[global] Program Instance json_bool_law : JsonFieldLaw bool := {| good _ := true |}.
Next Obligation. done. Qed.
Next Obligation. done. Qed.

(** ** Integers *)

Fixpoint digits_val (acc : Z) (s : string) : option Z :=
  match s with
  | "" => Some acc
  | String c r =>
    if is_digit c then digits_val (acc * 10 + (Z.of_nat (code c) - 48))%Z r else None
  end.

(** [strconv.ParseInt(lit, 10, 64)] on the literal of a number. *)
Definition ParseInt (lit : string) : option Z :=
  z ← match lit with
      | "" => None
      | String c r =>
        if Ascii.eqb c (chr 45) then match r with "" => None | _ => Z.opp <$> digits_val 0 r end
        else digits_val 0 lit
      end;
  if int64_range z then Some z else None.

#[global] Instance json_int : JsonField Z := {|
  to_json z := JNum (itoa z);
  from_json old j := match j with JNum l => ParseInt l | JNull => Some old | _ => None end;
|}.

Lemma pretty_N_char_digit x : (x < 10)%N ->
  is_digit (pretty_N_char x) = true /\ (Z.of_nat (code (pretty_N_char x)) - 48 = Z.of_N x)%Z.
Proof.
  intros Hx. assert (x = 0 \/ x = 1 \/ x = 2 \/ x = 3 \/ x = 4 \/ x = 5 \/ x = 6 \/ x = 7 \/ x = 8 \/ x = 9)%N
    as H by lia. repeat destruct H as [->|H]; try done. by subst.
Qed.

Lemma digits_val_pretty_go (x : N) s :
  digits_val 0 (pretty_N_go x s) = digits_val (Z.of_N x) s.
Proof.
  revert s. induction (N.lt_wf_0 x) as [x _ IH]; intros s.
  destruct (decide (0 < x)%N) as [Hx|Hx].
  - rewrite pretty_N_go_step by done. rewrite IH by (apply N.div_lt; lia). cbn [digits_val].
    destruct (pretty_N_char_digit (x mod 10)%N) as [Hd Hv]; [apply N.mod_lt; lia|].
    rewrite Hd. f_equal. rewrite Hv, N2Z.inj_mod, N2Z.inj_div.
    pose proof (Z.div_mod (Z.of_N x) 10). lia.
  - assert (x = 0%N) as -> by lia. by rewrite pretty_N_go_0.
Qed.

Lemma pretty_N_head (x : N) s :
  (0 < x)%N -> exists c r, pretty_N_go x s = String c r /\ is_digit c = true.
Proof.
  revert s. induction (N.lt_wf_0 x) as [x _ IH]; intros s Hx.
  rewrite pretty_N_go_step by done. destruct (decide (0 < x / 10)%N) as [Hd|Hd].
  - apply IH; [apply N.div_lt; lia|done].
  - assert (x / 10 = 0)%N as -> by (apply N.le_0_r, N.nlt_ge, Hd). rewrite pretty_N_go_0. eexists _, _. split; [done|].
    apply pretty_N_char_digit. apply N.mod_lt. lia.
Qed.

Lemma digits_val_pretty (x : N) : exists c r, pretty x = String c r /\ is_digit c = true /\
  digits_val 0 (pretty x) = Some (Z.of_N x).
Proof.
  unfold pretty, pretty_N. destruct (decide (x = 0)%N) as [->|Hx].
  - eexists _, _. done.
  - destruct (pretty_N_head x "") as (c & r & E & Hc); [lia|]. exists c, r.
    split; [done|]. split; [done|]. by rewrite digits_val_pretty_go.
Qed.

Lemma ParseInt_itoa z : int64_range z = true -> ParseInt (itoa z) = Some z.
Proof.
  intros Hz. unfold ParseInt, itoa.
  assert (forall x : N, exists c r, pretty x = String c r /\ Ascii.eqb c (chr 45) = false /\
    digits_val 0 (String c r) = Some (Z.of_N x)) as Hd.
  { intros x. destruct (digits_val_pretty x) as (c & r & E & Hc & Hv). exists c, r.
    rewrite <-E. split; [done|]. split; [|done]. by apply digit_not. }
  destruct z as [|p|p].
  - done.
  - destruct (Hd (Npos p)) as (c & r & E & Hc & Hv).
    change (pretty (Z.pos p)) with (pretty (N.pos p)). rewrite E, Hc, Hv. cbn [mbind option_bind Z.of_N].
    by rewrite Hz.
  - destruct (Hd (Npos p)) as (c & r & E & Hc & Hv).
    change (pretty (Z.neg p)) with ("-" +:+ pretty (N.pos p)). rewrite E.
    change ("-" +:+ String c r) with (String (chr 45) (String c r)). chars. rewrite Hv.
    change ((if int64_range (Z.neg p) then Some (Z.neg p) else None) = Some (Z.neg p)). by rewrite Hz.
Qed.

(** A decimal numeral is a number of the grammar: no leading zero. *)
Lemma pretty_N_digits (x : N) s :
  (0 < x)%N -> str_forallb is_digit s = true ->
  exists c r, pretty_N_go x s = String c r /\ in_range 49 57 c = true /\ str_forallb is_digit r = true.
Proof.
  revert s. induction (N.lt_wf_0 x) as [x _ IH]; intros s Hx Hs.
  assert (x mod 10 < 10)%N as Hm by (apply N.mod_lt; lia).
  rewrite pretty_N_go_step by done. destruct (decide (0 < x / 10)%N) as [Hd|Hd].
  - apply IH; [apply N.div_lt; lia|done|]. cbn. rewrite Hs.
    by rewrite (proj1 (pretty_N_char_digit _ Hm)).
  - assert (x / 10 = 0)%N as E by (apply N.le_0_r, N.nlt_ge, Hd).
    rewrite E, pretty_N_go_0. eexists _, _. split; [done|]. split; [|done].
    assert (x mod 10 <> 0)%N as Hne.
    { pose proof (N.div_mod x 10). lia. }
    assert (forall y, (y < 10)%N -> y <> 0%N -> in_range 49 57 (pretty_N_char y) = true) as H; [|by apply H].
    intros y Hy Hy0. assert (y = 1 \/ y = 2 \/ y = 3 \/ y = 4 \/ y = 5 \/ y = 6 \/ y = 7 \/ y = 8 \/ y = 9)%N
      as Hc by lia. repeat destruct Hc as [->|Hc]; try done. by subst.
Qed.

Lemma span_digits_all s : str_forallb is_digit s = true -> span_digits s = (s, "").
Proof.
  induction s as [|c s IH]; [done|]. cbn. intros [Hc Hs]%andb_true_iff. by rewrite Hc, IH.
Qed.

Lemma pretty_pos_number p : exists c r, pretty (N.pos p) = String c r /\
  Ascii.eqb c (chr 45) = false /\ scan_int (String c r) = Some (String c r, "").
Proof.
  destruct (pretty_N_digits (N.pos p) "") as (c & r & E & Hc & Hr); [done|done|].
  exists c, r. split; [exact E|]. unfold in_range in Hc.
  apply andb_true_iff in Hc as [H1%Nat.leb_le H2%Nat.leb_le].
  assert (forall n, (n < 49)%nat -> Ascii.nat_of_ascii (chr n) = n -> Ascii.eqb c (chr n) = false) as Hne.
  { intros n Hn En. destruct (Ascii.eqb_spec c (chr n)) as [->|]; [lia|done]. }
  split; [apply Hne; [lia|done]|]. cbn. rewrite Hne by (done || lia).
  unfold in_range. rewrite (proj2 (Nat.leb_le _ _) H1), (proj2 (Nat.leb_le _ _) H2). cbn.
  by rewrite span_digits_all.
Qed.

Lemma itoa_number z : is_number (itoa z) = true.
Proof.
  apply bool_decide_eq_true. unfold itoa, scan_number. destruct z as [|p|p]; [done|..];
    destruct (pretty_pos_number p) as (c & r & E & Hc & Hs).
  - change (pretty (Z.pos p)) with (pretty (N.pos p)). rewrite E. cbn [scan_sign]. rewrite Hc.
    cbn [mbind option_bind]. rewrite Hs. cbn. rewrite !string_app_nil_r. by rewrite string_app_nil_l.
  - change (pretty (Z.neg p)) with ("-" +:+ pretty (N.pos p)). rewrite E.
    change ("-" +:+ String c r) with (String (chr 45) (String c r)). cbn [scan_sign]. chars.
    cbn [mbind option_bind]. rewrite Hs. cbn. rewrite !string_app_nil_r. done.
Qed.

Lemma itoa_not_empty z : itoa z <> "".
Proof. intros E. pose proof (itoa_number z) as H. by rewrite E in H. Qed.

#[global] Program Instance json_int_law : JsonFieldLaw Z := {| good := int64_range |}.
Next Obligation. intros. apply itoa_number. Qed.
Next Obligation. intros. by apply ParseInt_itoa. Qed.

(** ** Slices of strings *)

Fixpoint strings_from (l : list json) : option (list string) :=
  match l with
  | [] => Some []
  | JStr s :: l' => (cons s) <$> strings_from l'
  | JNull :: l' => (cons "") <$> strings_from l'
  | _ :: _ => None
  end.

Lemma strings_from_JStr l : strings_from (JStr <$> l) = Some l.
Proof. induction l as [|s l IH]; [done|]. cbn. by rewrite IH. Qed.

(** A slice that may be nil; [None] is nil. *)
#[global] Instance json_slice : JsonField (option (list string)) := {|
  to_json o := match o with None => JNull | Some l => JArr (JStr <$> l) end;
  from_json old j := match j with
    | JNull => Some None
    | JArr l => Some <$> strings_from l
    | _ => None
    end;
|}.

#[global] Program Instance json_slice_law : JsonFieldLaw (option (list string)) :=
  {| good o := match o with None => true | Some l => forallb utf8_valid l end |}.
Next Obligation.
  intros [l|]; [|done]. cbn. rewrite !forallb_forall. intros H j Hj.
  apply list_elem_of_In, list_elem_of_fmap in Hj as (s & -> & Hs). by apply H, list_elem_of_In.
Qed.
Next Obligation. intros [l|] old; [|done]. cbn. by rewrite strings_from_JStr. Qed.

(** ** Structs *)

(** The two runes outside of ASCII that fold to ASCII letters: the long s (U+017F, bytes C5 BF)
    and the Kelvin sign (U+212A, bytes E2 84 AA). *)
Fixpoint fold_runes (s : string) : string :=
  match s with
  | String a ((String b r) as r1) =>
    if bool_decide (a = chr 197) && bool_decide (b = chr 191) then String (chr 115) (fold_runes r) else
    match r with
    | String c r' =>
      if bool_decide (a = chr 226) && bool_decide (b = chr 132) && bool_decide (c = chr 170)
      then String (chr 107) (fold_runes r') else String a (fold_runes r1)
    | "" => String a (fold_runes r1)
    end
  | _ => s
  end.

(** foldName of encoding/json, for the comparison with a name in ASCII. *)
Definition foldName (s : string) : string := ToLower (fold_runes s).

(** The field a member is for. *)
Definition field_of (names : list string) (key : string) : option string :=
  if bool_decide (key ∈ names) then Some key
  else List.find (fun n => bool_decide (foldName n = foldName key)) names.

(** What the members of an object leave in the field [n], which held [a]. *)
Fixpoint get {A} `{JsonField A} (names : list string) (l : list (string * json)) (n : string) (a : A)
  : option A :=
  match l with
  | [] => Some a
  | (k, v) :: l' =>
    if bool_decide (field_of names k = Some n)
    then a' ← from_json a v; get names l' n a' else get names l' n a
  end.

(** A member tagged omitempty. *)
Definition opt_member (k : string) (v : json) (empty : bool) : list (string * json) :=
  if empty then [] else [(k, v)].

Section get.
Context {A : Type} `{JsonFieldLaw A} (names : list string).

Lemma field_of_name k : bool_decide (k ∈ names) = true -> field_of names k = Some k.
Proof. intros Hk. unfold field_of. by rewrite Hk. Qed.

Lemma get_other k v l n (a : A) :
  bool_decide (k ∈ names) = true -> bool_decide (k = n) = false ->
  get names ((k, v) :: l) n a = get names l n a.
Proof.
  intros Hk Hne%bool_decide_eq_false. cbn. rewrite field_of_name by done.
  by rewrite bool_decide_eq_false_2 by congruence.
Qed.

Lemma get_opt_other k v b l n (a : A) :
  bool_decide (k ∈ names) = true -> bool_decide (k = n) = false ->
  get names (opt_member k v b ++ l) n a = get names l n a.
Proof. intros Hk Hne. destruct b; [done|]. by apply get_other. Qed.

Lemma get_here n (x a : A) l :
  bool_decide (n ∈ names) = true -> good x = true ->
  get names ((n, to_json x) :: l) n a = get names l n x.
Proof.
  intros Hn Hx. cbn. rewrite field_of_name by done. rewrite bool_decide_eq_true_2 by done.
  by rewrite good_back.
Qed.

(** An omitted field keeps its zero value, which is the value that was omitted. *)
Lemma get_opt_here n (x a : A) b l :
  bool_decide (n ∈ names) = true -> good x = true -> (b = true -> x = a) ->
  get names (opt_member n (to_json x) b ++ l) n a = get names l n x.
Proof.
  intros Hn Hx Hb. destruct b; [by rewrite Hb|]. by apply get_here.
Qed.

End get.

(** Reads a field off a written struct: skips the members for other fields, takes its own. *)
Ltac get_skip :=
  repeat first [rewrite get_opt_other by reflexivity | rewrite get_other by reflexivity].
Ltac get_field :=
  get_skip;
  first [rewrite get_here by done | rewrite get_opt_here; [|reflexivity|done|]];
  get_skip.

(** The members of a written struct are well-formed. *)
Definition wf_members (l : list (string * json)) : bool :=
  forallb (fun kv => utf8_valid kv.1 && wf_json kv.2) l.

Lemma wf_members_cons {A} `{JsonFieldLaw A} k (x : A) l :
  utf8_valid k = true -> good x = true -> wf_members l = true -> wf_members ((k, to_json x) :: l) = true.
Proof. intros Hk Hx Hl. unfold wf_members. cbn. by rewrite Hk, good_wf. Qed.

Lemma wf_members_opt {A} `{JsonFieldLaw A} k (x : A) b l :
  utf8_valid k = true -> good x = true -> wf_members l = true ->
  wf_members (opt_member k (to_json x) b ++ l) = true.
Proof. intros Hk Hx Hl. destruct b; [done|]. by apply wf_members_cons. Qed.

Ltac wf_fields :=
  repeat first [apply wf_members_opt; [reflexivity|done|] | apply wf_members_cons; [reflexivity|done|]].
