(* ===== verification/Encode.v ===== *)
(** Encodings of bytes as text: encoding/hex and encoding/base64 (StdEncoding), bytes as
    encoding/json has them, and strings.EqualFold, strings.Cut and strings.ContainsAny. *)
From Stdlib Require Import ZifyNat.
From S2P Require Import Prelude GoStr Json JsonFacts JsonStruct.

(** ** Strings *)

(** [strings.EqualFold] where one side has no letters but a to f, as the digests the sources
    compare: equal up to the case of ASCII letters. *)
Definition EqualFold (s t : string) : bool := bool_decide (ToLower s = ToLower t).

(** [strings.Cut] at a separator of one byte. *)
Fixpoint Cut (s : string) (sep : ascii) : option (string * string) :=
  match s with
  | "" => None
  | String c s' =>
    if bool_decide (c = sep) then Some ("", s')
    else '(a, b) ← Cut s' sep; Some (String c a, b)
  end.

Definition ContainsAny (s cutset : string) : bool := negb (str_forallb (fun c => negb (str_mem c cutset)) s).

(** A separator that the first part does not have ends it. *)
Lemma sep_inj c (a b x y : string) :
  str_mem c a = false -> str_mem c b = false -> a +:+ String c x = b +:+ String c y -> a = b /\ x = y.
Proof.
  revert b; induction a as [|d a IH]; intros [|d' b] Ha Hb E.
  - rewrite !string_app_nil_l in E. by injection E.
  - rewrite string_app_cons, string_app_nil_l in E. injection E as <- E. cbn in Hb. by rewrite bool_decide_eq_true_2 in Hb.
  - rewrite string_app_cons, string_app_nil_l in E. injection E as -> E. cbn in Ha. by rewrite bool_decide_eq_true_2 in Ha.
  - rewrite !string_app_cons in E. injection E as -> E. cbn in Ha, Hb.
    apply orb_false_iff in Ha as [_ Ha]. apply orb_false_iff in Hb as [_ Hb]. by destruct (IH b Ha Hb E) as [-> ->].
Qed.

(** ** Hexadecimal *)

Fixpoint DecodeString (s : string) : option string :=
  match s with
  | "" => Some ""
  | String a (String b s') =>
    x ← hex_val a; y ← hex_val b; r ← DecodeString s';
    Some (String (Ascii.ascii_of_N (x * 16 + y)) r)
  | String _ "" => None
  end.

Lemma hex_byte c : let n := Ascii.nat_of_ascii c in
  hex_val (hex_digit (n / 16)) ≫= (fun x => hex_val (hex_digit (n mod 16)) ≫= fun y =>
    Some (Ascii.ascii_of_N (x * 16 + y))) = Some c.
Proof. by destruct c as [[] [] [] [] [] [] [] []]. Qed.

Lemma Decode_Encode s : DecodeString (EncodeToString s) = Some s.
Proof.
  induction s as [|c s IH]; [done|]. cbn [EncodeToString DecodeString]. pose proof (hex_byte c) as H. cbn zeta in H.
  destruct (hex_val (hex_digit (Ascii.nat_of_ascii c / 16))) as [x|]; [|done].
  destruct (hex_val (hex_digit (Ascii.nat_of_ascii c mod 16))) as [y|]; [|done]. cbn in H |- *.
  injection H as H. by rewrite IH, H.
Qed.

(** The induction that follows the decoder. *)
Lemma pairs_ind (P : string -> Prop) :
  P "" -> (forall a, P (String a "")) -> (forall a b s, P s -> P (String a (String b s))) -> forall s, P s.
Proof. intros H0 H1 H2. fix IH 1. intros [|a [|b s]]; [done|apply H1|]. apply H2, IH. Qed.

Lemma length_EncodeToString s : String.length (EncodeToString s) = (2 * String.length s)%nat.
Proof. induction s as [|c s IH]; [done|]. cbn [EncodeToString String.length]. rewrite IH. lia. Qed.

Lemma ToLower_Encode s : ToLower (EncodeToString s) = EncodeToString s.
Proof.
  induction s as [|c s IH]; [done|]. cbn [EncodeToString ToLower]. rewrite IH. f_equal; [|f_equal];
    by destruct c as [[] [] [] [] [] [] [] []].
Qed.

(** ** Base64 *)

Definition b64_char (n : nat) : ascii :=
  if (n <? 26)%nat then chr (65 + n)
  else if (n <? 52)%nat then chr (71 + n)
  else if (n <? 62)%nat then chr (n - 4)
  else if (n =? 62)%nat then chr 43 else chr 47.

Definition b64_val (c : ascii) : option nat :=
  let n := Ascii.nat_of_ascii c in
  if is_upper c then Some (n - 65)%nat
  else if is_lower c then Some (n - 71)%nat
  else if is_digit c then Some (n + 4)%nat
  else if (n =? 43)%nat then Some 62%nat
  else if (n =? 47)%nat then Some 63%nat
  else None.

Definition PAD : ascii := chr 61.

Fixpoint b64_encode (s : string) : string :=
  match s with
  | "" => ""
  | String a "" =>
    let a := code a in
    String (b64_char (a / 4)) (String (b64_char (a mod 4 * 16)) (String PAD (String PAD "")))
  | String a (String b "") =>
    let a := code a in let b := code b in
    String (b64_char (a / 4)) (String (b64_char (a mod 4 * 16 + b / 16))
      (String (b64_char (b mod 16 * 4)) (String PAD "")))
  | String a (String b (String c s')) =>
    let a := code a in let b := code b in let c := code c in
    String (b64_char (a / 4)) (String (b64_char (a mod 4 * 16 + b / 16))
      (String (b64_char (b mod 16 * 4 + c / 64)) (String (b64_char (c mod 64)) (b64_encode s'))))
  end.

(** Four characters at a time; padding only at the end. *)
Fixpoint b64_quads (s : string) : option string :=
  match s with
  | "" => Some ""
  | String a (String b (String c (String d s'))) =>
    w ← b64_val a; x ← b64_val b;
    let b1 := chr (w * 4 + x / 16) in
    if bool_decide (d = PAD) then
      if negb (bool_decide (s' = "")) then None
      else if bool_decide (c = PAD) then Some (String b1 "")
      else y ← b64_val c; Some (String b1 (String (chr (x mod 16 * 16 + y / 4)) ""))
    else
      y ← b64_val c; z ← b64_val d; r ← b64_quads s';
      Some (String b1 (String (chr (x mod 16 * 16 + y / 4)) (String (chr (y mod 4 * 64 + z)) r)))
  | _ => None
  end.

(** Line breaks are skipped. *)
Fixpoint skip_breaks (s : string) : string :=
  match s with
  | "" => ""
  | String c s' => if bool_decide (c = chr 13) || bool_decide (c = chr 10) then skip_breaks s' else String c (skip_breaks s')
  end.
Definition b64_decode (s : string) : option string := b64_quads (skip_breaks s).

Lemma b64_val_char n : (n < 64)%nat -> b64_val (b64_char n) = Some n.
Proof. intros H. do 64 (destruct n as [|n]; [reflexivity|]). lia. Qed.

Lemma b64_char_pad n : (n < 64)%nat -> bool_decide (b64_char n = PAD) = false.
Proof. intros H. do 64 (destruct n as [|n]; [done|]). lia. Qed.
Lemma b64_char_break n : (n < 64)%nat -> bool_decide (b64_char n = chr 13) || bool_decide (b64_char n = chr 10) = false.
Proof. intros H. do 64 (destruct n as [|n]; [done|]). lia. Qed.
Lemma b64_char_ascii n : (n < 64)%nat -> is_ascii (b64_char n) = true.
Proof. intros H. do 64 (destruct n as [|n]; [done|]). lia. Qed.

Lemma code_bound c : (code c < 256)%nat.
Proof. apply Ascii.nat_ascii_bounded. Qed.

Lemma chr_code c n : n = code c -> chr n = c.
Proof. intros ->. apply Ascii.ascii_nat_embedding. Qed.

(** The induction that follows the encoder. *)
Lemma triples_ind (P : string -> Prop) :
  P "" -> (forall a, P (String a "")) -> (forall a b, P (String a (String b ""))) ->
  (forall a b c s, P s -> P (String a (String b (String c s)))) -> forall s, P s.
Proof.
  intros H0 H1 H2 H3. fix IH 1. intros [|a [|b [|c s]]]; [done|apply H1|apply H2|]. apply H3, IH.
Qed.

Ltac b64_bounds :=
  repeat match goal with
  | |- context [code ?c] => lazymatch goal with H : (code c < 256)%nat |- _ => fail | _ => pose proof (code_bound c) end
  end.
Ltac b64_lia := b64_bounds; zify; Z.to_euclidean_division_equations; lia.

Lemma b64_skip s : skip_breaks (b64_encode s) = b64_encode s.
Proof.
  induction s as [|a|a b|a b c s IH] using triples_ind; cbn [b64_encode]; [done|..];
    cbn [skip_breaks]; rewrite !b64_char_break by b64_lia; by rewrite ?IH.
Qed.

Lemma b64_roundtrip s : b64_decode (b64_encode s) = Some s.
Proof.
  unfold b64_decode. rewrite b64_skip.
  induction s as [|a|a b|a b c s IH] using triples_ind; cbn [b64_encode b64_quads]; [done|..];
    rewrite ?b64_char_pad by b64_lia; rewrite !b64_val_char by b64_lia;
    cbn [mbind option_bind]; rewrite ?IH; cbn [mbind option_bind].
  - rewrite (chr_code a) by b64_lia. done.
  - rewrite bool_decide_eq_true_2 by done. cbn [negb]. rewrite (chr_code a), (chr_code b) by b64_lia. done.
  - rewrite (chr_code a), (chr_code b), (chr_code c) by b64_lia. done.
Qed.

Lemma b64_ascii s : str_forallb is_ascii (b64_encode s) = true.
Proof.
  induction s as [|a|a b|a b c s IH] using triples_ind; cbn [b64_encode str_forallb]; [done|..];
    rewrite ?b64_char_ascii by b64_lia; by rewrite ?IH.
Qed.

(** ** Bytes in JSON *)

(** A []byte: written as base64, read from that or from an array of numbers. *)
Record bytes := Bytes { raw : string }.

Definition byte_of_json (j : json) : option ascii :=
  match j with
  | JNum l => if HasPrefix l "-" then None else
              z ← ParseInt l; if (z <=? 255)%Z then Some (chr (Z.to_nat z)) else None
  | JNull => Some (chr 0)
  | _ => None
  end.

Fixpoint bytes_of_jsons (l : list json) : option string :=
  match l with
  | [] => Some ""
  | j :: l' => c ← byte_of_json j; r ← bytes_of_jsons l'; Some (String c r)
  end.

#[global] Instance json_bytes : JsonField bytes := {|
  to_json b := JStr (b64_encode (raw b));
  from_json old j := match j with
    | JStr s => Bytes <$> b64_decode s
    | JNull => Some (Bytes "")
    | JArr l => Bytes <$> bytes_of_jsons l
    | _ => None
    end;
|}.
#[global] Program Instance json_bytes_law : JsonFieldLaw bytes := {| good _ := true |}.
Next Obligation. intros b _. cbn. apply ascii_utf8, b64_ascii. Qed.
Next Obligation. intros [s] old _. change (Bytes <$> b64_decode (b64_encode s) = Some (Bytes s)). by rewrite b64_roundtrip. Qed.
