(* ===== verification/TimeParse.v ===== *)
(** Reading time stamps: [time.Parse(time.RFC3339Nano, s)], and that it reads back what
    Format wrote. *)
From stdpp Require Import pretty.
From S2P Require Import Prelude GoStr GoTime Json JsonFacts JsonStruct.

#[local] Open Scope Z_scope.

(** ** Dates to day numbers *)

Definition days_of_date (y m d : Z) : Z :=
  let y' := if m <=? 2 then y - 1 else y in
  let era := y' / 400 in
  let yoe := y' mod 400 in
  let doy := (153 * (if m <=? 2 then m + 9 else m - 3) + 2) / 5 + d - 1 in
  let doe := yoe * 365 + yoe / 4 - yoe / 100 + doy in
  era * 146097 + doe - 719468.

Definition leap (y : Z) : bool := (y mod 4 =? 0) && (negb (y mod 100 =? 0) || (y mod 400 =? 0)).

Definition daysIn (m y : Z) : Z :=
  if m =? 2 then (if leap y then 29 else 28)
  else if (m =? 4) || (m =? 6) || (m =? 9) || (m =? 11) then 30 else 31.

(** ** The parser *)

(** getnum of package time: one or two digits, exactly two when [fixed]. *)
Definition getnum (s : string) (fixed : bool) : option (Z * string) :=
  match s with
  | String c r =>
    if negb (is_digit c) then None else
    match r with
    | String c2 r2 =>
      if is_digit c2 then Some ((Z.of_nat (code c) - 48) * 10 + (Z.of_nat (code c2) - 48), r2)
      else if fixed then None else Some (Z.of_nat (code c) - 48, r)
    | "" => if fixed then None else Some (Z.of_nat (code c) - 48, r)
    end
  | "" => None
  end.

Definition skip (c : ascii) (s : string) : option string :=
  match s with String c' r => if Ascii.eqb c' c then Some r else None | "" => None end.

(** A fraction of a second: a point or comma and at least one digit, of which nine count. *)
Definition parse_fraction (s : string) : Z * string :=
  match s with
  | String c r =>
    if Ascii.eqb c (chr 46) || Ascii.eqb c (chr 44) then
      match span_digits r with
      | ("", _) => (0, s)
      | (ds, rest) =>
        let ds := str_take 9 ds in
        (default 0 (digits_val 0 ds) * 10 ^ (9 - Z.of_nat (String.length ds)), rest)
      end
    else (0, s)
  | "" => (0, s)
  end.

(** The zone: Z, or a sign and hh:mm; seconds east of UTC. *)
Definition parse_zone (s : string) : option (Z * string) :=
  match s with
  | String c r =>
    if Ascii.eqb c (chr 90) then Some (0, r) else
    '(hr, r) ← getnum r true;
    r ← skip (chr 58) r;
    '(mm, r) ← getnum r true;
    if (24 <? hr) || (60 <? mm) then None else
    let off := (hr * 60 + mm) * 60 in
    if Ascii.eqb c (chr 43) then Some (off, r) else if Ascii.eqb c (chr 45) then Some (- off, r) else None
  | "" => None
  end.

Definition Parse_RFC3339Nano (s : string) : option Z :=
  '(y1, s) ← getnum s true;
  '(y2, s) ← getnum s true;
  let year := y1 * 100 + y2 in
  s ← skip (chr 45) s;
  '(month, s) ← getnum s true;
  if (month <=? 0) || (12 <? month) then None else
  s ← skip (chr 45) s;
  '(day, s) ← getnum s true;
  s ← skip (chr 84) s;
  '(hour, s) ← getnum s false;
  if 24 <=? hour then None else
  s ← skip (chr 58) s;
  '(min, s) ← getnum s true;
  if 60 <=? min then None else
  s ← skip (chr 58) s;
  '(sec, s) ← getnum s true;
  if 60 <=? sec then None else
  let '(nsec, s) := parse_fraction s in
  '(off, s) ← parse_zone s;
  if negb (bool_decide (s = "")) then None else
  if (day <? 1) || (daysIn month year <? day) then None else
  Some ((days_of_date year month day * 86400 + hour * 3600 + min * 60 + sec - off) * 1000000000 + nsec).

Example parse_1 : Parse_RFC3339Nano "2023-11-14T22:13:20.123456Z" = Some 1700000000123456000.
Proof. reflexivity. Qed.
Example parse_2 : Parse_RFC3339Nano "2000-02-29T14:34:56+02:00" = Some 951827696000000000.
Proof. reflexivity. Qed.
Example parse_3 : Parse_RFC3339Nano "1900-02-29T00:00:00Z" = None.
Proof. reflexivity. Qed.

(** ** Days and dates *)

(** A check of every number of an interval. *)
Fixpoint check_range (f : Z -> bool) (n : nat) (z : Z) : bool :=
  match n with O => true | S n' => f z && check_range f n' (z + 1) end.

Lemma check_range_spec f n z x : check_range f n z = true -> z <= x < z + Z.of_nat n -> f x = true.
Proof.
  revert z. induction n as [|n IH]; intros z; [lia|]. cbn. intros [Hz Hn]%andb_true_iff Hx.
  destruct (decide (x = z)) as [->|Hne]; [done|]. apply (IH (z + 1)); [done|lia].
Qed.

(** The first day of a year in its era of 400 years. *)
Definition year_start (y : Z) : Z := 365 * y + y / 4 - y / 100.

(** The days before the day [doe] that are not leap days, as date_of_days counts them. *)
Definition plain_days (doe : Z) : Z := doe - doe / 1460 + doe / 36524 - doe / 146096.

Lemma plain_days_mono a b : 0 <= a <= b -> plain_days a <= plain_days b.
Proof.
  intros Hab. assert (forall n : nat, plain_days a <= plain_days (a + Z.of_nat n)) as H.
  { induction n as [|n IH]; [by rewrite Z.add_0_r|]. etrans; [exact IH|]. unfold plain_days. rewrite Nat2Z.inj_succ.
    set (x := a + Z.of_nat n). replace (a + Z.succ (Z.of_nat n)) with (x + 1) by lia.
    assert (x / 146096 = x / 36524 / 4) as -> by (by rewrite Z.div_div by lia).
    assert ((x + 1) / 146096 = (x + 1) / 36524 / 4) as -> by (by rewrite Z.div_div by lia).
    assert ((x + 1) / 1460 <= x / 1460 + 1) as H1.
    { rewrite <-(Z.div_add x 1 1460) by lia. apply Z.div_le_mono; lia. }
    assert (x / 36524 <= (x + 1) / 36524) as H2 by (apply Z.div_le_mono; lia).
    revert H2. generalize (x / 36524) ((x + 1) / 36524). intros q q' Hq.
    pose proof (Z.div_mod q 4). pose proof (Z.mod_pos_bound q 4). pose proof (Z.div_mod q' 4).
    pose proof (Z.mod_pos_bound q' 4). lia. }
  specialize (H (Z.to_nat (b - a))). by replace (a + Z.of_nat (Z.to_nat (b - a))) with b in H by lia.
Qed.

(** Checked year by year. *)
Definition year_ok (y : Z) : bool :=
  (y <=? plain_days (year_start y) / 365) && (plain_days (year_start (y + 1) - 1) / 365 <=? y) &&
  (year_start (y + 1) - year_start y <=? (if leap (y + 1) then 366 else 365)).

Lemma years_ok y : 0 <= y < 400 -> year_ok y = true.
Proof.
  intros Hy. apply (check_range_spec _ (Z.to_nat 400) 0); [vm_compute; reflexivity|]. rewrite Z2Nat.id; lia.
Qed.

Lemma year_of_day doe : 0 <= doe < 146097 -> let y := plain_days doe / 365 in
  0 <= y < 400 /\ year_start y <= doe < year_start (y + 1) + (if y =? 399 then 1 else 0).
Proof.
  intros Hd y. assert (0 <= y < 400) as Hy.
  { split; [apply Z.div_pos; [|lia]; apply (plain_days_mono 0); lia|].
    apply Z.div_lt_upper_bound; [lia|]. pose proof (plain_days_mono doe 146096 ltac:(lia)).
    assert (plain_days 146096 = 145999) by reflexivity. lia. }
  split; [done|]. split.
  - destruct (decide (year_start y <= doe)) as [|Hlt]; [done|]. exfalso.
    destruct (decide (y = 0)) as [E|E]; [rewrite E in Hlt; change (year_start 0) with 0 in Hlt; lia|].
    pose proof (years_ok (y - 1) ltac:(lia)) as H. unfold year_ok in H. rewrite !andb_true_iff, !Z.leb_le in H.
    replace (y - 1 + 1) with y in H by lia. destruct H as [[_ H] _].
    pose proof (plain_days_mono doe (year_start y - 1) ltac:(lia)).
    pose proof (Z.div_le_mono (plain_days doe) (plain_days (year_start y - 1)) 365). fold y in H1. lia.
  - destruct (Z.eqb_spec y 399) as [E|E]; [rewrite E; change (year_start (399 + 1)) with 146096; lia|].
    destruct (decide (doe < year_start (y + 1))) as [|Hge]; [lia|]. exfalso.
    pose proof (years_ok (y + 1) ltac:(lia)) as H. unfold year_ok in H. rewrite !andb_true_iff, !Z.leb_le in H.
    destruct H as [[H _] _]. assert (0 <= year_start (y + 1)) by (unfold year_start; pose proof (Z.div_pos (y + 1) 4);
      pose proof (Z.div_le_upper_bound (y + 1) 100 (y + 1)); lia).
    pose proof (plain_days_mono (year_start (y + 1)) doe ltac:(lia)).
    pose proof (Z.div_le_mono (plain_days (year_start (y + 1))) (plain_days doe) 365). fold y in H2. lia.
Qed.

Lemma leap_era y k : leap (y + k * 400) = leap y.
Proof.
  unfold leap. replace (y + k * 400) with (y + (k * 100) * 4) at 1 by lia. rewrite Z.mod_add by lia.
  replace (y + k * 400) with (y + (k * 4) * 100) at 1 by lia. rewrite Z.mod_add by lia. by rewrite Z.mod_add by lia.
Qed.

(** The month and day of a day of the year that starts in March, checked day by day. *)
Definition month_day (doy : Z) : Z * Z :=
  let mp := (5 * doy + 2) / 153 in (if mp <? 10 then mp + 3 else mp - 9, doy - (153 * mp + 2) / 5 + 1).

Definition doy_ok (doy : Z) : bool :=
  let '(m, d) := month_day doy in
  ((153 * (if m <=? 2 then m + 9 else m - 3) + 2) / 5 + d - 1 =? doy) && (1 <=? m) && (m <=? 12) && (1 <=? d) &&
  (d <=? (if m =? 2 then (if doy =? 365 then 29 else 28) else daysIn m 1)) && (negb (doy =? 365) || (m =? 2)).

Lemma date_of_days_parts n : let z := n + 719468 in let y := plain_days (z mod 146097) / 365 in
  let '(m, d) := month_day (z mod 146097 - year_start y) in
  date_of_days n = (y + z / 146097 * 400 + (if m <=? 2 then 1 else 0), m, d).
Proof. reflexivity. Qed.

Lemma date_roundtrip n y m d :
  date_of_days n = (y, m, d) -> days_of_date y m d = n /\ 1 <= m <= 12 /\ 1 <= d <= daysIn m y.
Proof.
  pose proof (date_of_days_parts n) as Hparts. cbv zeta in Hparts.
  pose proof (Z.div_mod (n + 719468) 146097) as Hn. pose proof (Z.mod_pos_bound (n + 719468) 146097) as Hdoe.
  set (k := (n + 719468) / 146097) in *. set (doe := (n + 719468) mod 146097) in *.
  destruct (year_of_day doe ltac:(lia)) as [Hy Hst]. set (yoe := plain_days doe / 365) in *.
  pose proof (years_ok yoe Hy) as Hok. unfold year_ok in Hok. rewrite !andb_true_iff, !Z.leb_le in Hok. destruct Hok as [_ Hlen].
  set (doy := doe - year_start yoe) in *.
  assert (0 <= doy < 366 /\ (doy = 365 -> leap (yoe + 1) = true)) as [Hdoy Hleap].
  { destruct (Z.eqb_spec yoe 399) as [E|E].
    { assert (year_start yoe = 145731 /\ leap (yoe + 1) = true) as [E1 ->] by (by rewrite E). split; [lia|done]. }
    destruct (leap (yoe + 1)); split; try done; lia. }
  assert (doy_ok doy = true) as Hd.
  { apply (check_range_spec _ (Z.to_nat 366) 0); [vm_compute; reflexivity|]. rewrite Z2Nat.id; lia. }
  unfold doy_ok in Hd. destruct (month_day doy) as [m0 d0]. rewrite Hparts. intros [= <- <- <-].
  rewrite !andb_true_iff, !Z.leb_le, Z.eqb_eq in Hd. destruct Hd as (((((H1 & H2) & H3) & H4) & H5) & H6). split.
  - unfold days_of_date. cbv zeta.
    assert ((if m0 <=? 2 then yoe + k * 400 + (if m0 <=? 2 then 1 else 0) - 1 else yoe + k * 400 + (if m0 <=? 2 then 1 else 0))
      = yoe + k * 400) as -> by (destruct (m0 <=? 2); lia).
    rewrite Z.div_add, Z.mod_add, Z.div_small, Z.mod_small by lia. unfold doy, year_start in H1. lia.
  - split; [done|]. split; [done|]. etrans; [exact H5|]. unfold daysIn.
    destruct (Z.eqb_spec m0 2) as [->|Hm]; [|done]. change (2 <=? 2) with true. cbv iota.
    replace (yoe + k * 400 + 1) with (yoe + 1 + k * 400) by lia. rewrite leap_era.
    destruct (Z.eqb_spec doy 365) as [E|E]; [by rewrite Hleap|]. destruct (leap _); lia.
Qed.

(** ** Numerals *)

Lemma digits_val_app a s t v : digits_val a s = Some v -> digits_val a (s +:+ t) = digits_val v t.
Proof.
  revert a. induction s as [|c s IH]; intros a; [by intros [= <-]|]. rewrite string_app_cons. cbn [digits_val].
  destruct (is_digit c); [|done]. apply IH.
Qed.

Lemma digits_val_zeros v k : digits_val v (zeros k) = Some (v * 10 ^ Z.of_nat k).
Proof.
  revert v. induction k as [|k IH]; intros v; [cbn; f_equal; lia|].
  change (digits_val v (zeros (S k))) with (digits_val (v * 10 + 0) (zeros k)). rewrite IH.
  rewrite Nat2Z.inj_succ, Z.pow_succ_r by lia. f_equal. lia.
Qed.

Lemma pretty_length (k : nat) : forall (x : N) s, (Z.of_N x < 10 ^ Z.of_nat k)%Z ->
  (String.length (pretty_N_go x s) <= k + String.length s)%nat.
Proof.
  induction k as [|k IH]; intros x s Hx.
  - assert (x = 0%N) as -> by lia. by rewrite pretty_N_go_0.
  - destruct (decide (0 < x)%N) as [Hp|Hp].
    + rewrite pretty_N_go_step by done. etrans; [apply IH|cbn; lia].
      rewrite N2Z.inj_div. rewrite Nat2Z.inj_succ, Z.pow_succ_r in Hx by lia. apply Z.div_lt_upper_bound; lia.
    + assert (x = 0%N) as -> by lia. rewrite pretty_N_go_0. lia.
Qed.

Lemma itoa_pos z : 0 <= z -> exists c r, itoa z = String c r /\ digits_val 0 (itoa z) = Some z.
Proof.
  intros Hz. destruct (digits_val_pretty (Z.to_N z)) as (c & r & E & _ & Hv). rewrite Z2N.id in Hv by done.
  assert (itoa z = pretty (Z.to_N z)) as ->; [|by eauto]. destruct z; [done|done|lia].
Qed.

Lemma itoa_length z k : 0 <= z < 10 ^ Z.of_nat k -> (0 < k)%nat -> (String.length (itoa z) <= k)%nat.
Proof.
  intros Hz Hk. assert (itoa z = pretty (Z.to_N z)) as -> by (destruct z; [done|done|lia]).
  unfold pretty, pretty_N. case_decide; [cbn; lia|]. etrans; [apply (pretty_length k)|cbn; lia]. rewrite Z2N.id; lia.
Qed.

Lemma zeros_length n : String.length (zeros n) = n.
Proof. induction n as [|n IH]; [done|]. change (S (String.length (zeros n)) = S n). by rewrite IH. Qed.

(** [k] digits. *)
Lemma pad_digits k z : 0 <= z < 10 ^ Z.of_nat k -> (0 < k)%nat ->
  String.length (pad k z) = k /\ digits_val 0 (pad k z) = Some z.
Proof.
  intros Hz Hk. unfold pad. pose proof (itoa_length z k Hz Hk). destruct (itoa_pos z ltac:(lia)) as (c & r & E & Hv).
  split; [rewrite length_app_str, zeros_length; lia|].
  rewrite (digits_val_app 0 _ _ 0); [done|]. by rewrite digits_val_zeros.
Qed.

Lemma getnum_pad z r fixed : 0 <= z < 100 -> getnum (pad 2 z +:+ r) fixed = Some (z, r).
Proof.
  intros Hz. destruct (pad_digits 2 z) as [Hl Hv]; [lia|lia|].
  destruct (pad 2 z) as [|c [|c2 [|]]]; try done. rewrite !string_app_cons. cbn [digits_val getnum] in Hv |- *.
  destruct (is_digit c); [|done]. destruct (is_digit c2); [|done]. injection Hv as Hv. cbn [negb].
  rewrite <-Hv. do 2 f_equal.
Qed.

Lemma getnum_year y r : 0 <= y <= 9999 ->
  exists a b s, getnum (pad 4 y +:+ r) true = Some (a, s) /\ getnum s true = Some (b, r) /\ a * 100 + b = y.
Proof.
  intros Hy. destruct (pad_digits 4 y) as [Hl Hv]; [lia|lia|].
  destruct (pad 4 y) as [|c1 [|c2 [|c3 [|c4 [|]]]]]; try done. rewrite !string_app_cons.
  cbn [digits_val getnum] in Hv |- *. destruct (is_digit c1); [|done]. destruct (is_digit c2); [|done]. destruct (is_digit c3) eqn:H3; [|done].
  destruct (is_digit c4) eqn:H4; [|done]. injection Hv as Hv.
  eexists _, _, _. split; [reflexivity|]. cbn [getnum]. rewrite H3, H4. split; [reflexivity|]. lia.
Qed.

(** ** The fraction *)

Lemma str_rev_app_spec s acc : str_rev_app s acc = str_rev s +:+ acc.
Proof.
  unfold str_rev. revert acc. induction s as [|c s IH]; intros acc; [done|]. cbn [str_rev_app].
  rewrite IH, (IH (String c "")), string_app_assoc. done.
Qed.

Lemma str_rev_cons c s : str_rev (String c s) = str_rev s +:+ String c "".
Proof. unfold str_rev at 1. cbn. apply str_rev_app_spec. Qed.

Lemma str_rev_string_app a b : str_rev (a +:+ b) = str_rev b +:+ str_rev a.
Proof.
  induction a as [|c a IH].
  - change (str_rev b = str_rev b +:+ ""). by rewrite string_app_nil_r.
  - rewrite string_app_cons, !str_rev_cons, IH. by rewrite string_app_assoc.
Qed.

Lemma str_rev_involutive s : str_rev (str_rev s) = s.
Proof. induction s as [|c s IH]; [done|]. rewrite str_rev_cons, str_rev_string_app, IH. done. Qed.

Lemma zeros_snoc k : zeros k +:+ "0" = zeros (S k).
Proof. induction k as [|k IH]; [done|]. change ("0" +:+ (zeros k +:+ "0") = "0" +:+ zeros (S k)). by rewrite IH. Qed.

Lemma str_rev_zeros k : str_rev (zeros k) = zeros k.
Proof.
  induction k as [|k IH]; [done|]. change (zeros (S k)) with (String (chr 48) (zeros k)) at 1.
  rewrite str_rev_cons, IH. apply zeros_snoc.
Qed.

Lemma drop_zeros_split s : exists k, s = zeros k +:+ drop_zeros_rev s.
Proof.
  induction s as [|c s IH]; [by exists 0%nat|]. cbn [drop_zeros_rev]. case_bool_decide as E; [|by exists 0%nat].
  destruct IH as [k IH]. exists (S k). change (zeros (S k)) with (String (chr 48) (zeros k)).
  rewrite string_app_cons, <-IH, E. done.
Qed.

Lemma trim_zeros x : exists k, x = str_rev (drop_zeros_rev (str_rev x)) +:+ zeros k.
Proof.
  destruct (drop_zeros_split (str_rev x)) as [k Hk]. exists k.
  rewrite <-(str_rev_zeros k), <-str_rev_string_app, <-Hk. by rewrite str_rev_involutive.
Qed.

Lemma digits_val_span s v r : digits_val 0 s = Some v -> (forall c t, r = String c t -> is_digit c = false) ->
  span_digits (s +:+ r) = (s, r).
Proof.
  intros Hs Hr. revert Hs. generalize 0 as a. induction s as [|c s IH]; intros a Hs.
  - change ("" +:+ r) with r. destruct r as [|c r]; [done|]. cbn. by rewrite (Hr c r).
  - rewrite string_app_cons. cbn in Hs |- *. destruct (is_digit c); [|done]. by rewrite (IH _ Hs).
Qed.

Lemma digits_val_prefix a s t v : digits_val a (s +:+ t) = Some v -> exists u, digits_val a s = Some u.
Proof.
  revert a. induction s as [|c s IH]; intros a; [by eexists|]. rewrite string_app_cons. cbn.
  destruct (is_digit c); [|done]. apply IH.
Qed.

Lemma str_take_all n s : (String.length s <= n)%nat -> str_take n s = s.
Proof.
  revert n. induction s as [|c s IH]; intros [|n] Hn; try done; cbn in *; [lia|]. by rewrite IH by lia.
Qed.

Lemma parse_fraction_digits s u k :
  (String.length s + k = 9)%nat -> digits_val 0 s = Some u ->
  parse_fraction (match s with "" => "" | String c r => "." +:+ String c r end +:+ "Z") = (u * 10 ^ Z.of_nat k, "Z").
Proof.
  intros Hl Hu. destruct s as [|c s]; [by injection Hu as <-|].
  change (("." +:+ String c s) +:+ "Z") with (String (chr 46) (String c s +:+ "Z")).
  assert (span_digits (String c s +:+ "Z") = (String c s, "Z")) as Hspan.
  { eapply digits_val_span; [exact Hu|]. by intros c' t [= <- <-]. }
  unfold parse_fraction. rewrite Hspan. change (Ascii.eqb (chr 46) (chr 46) || _) with true. cbv iota zeta.
  rewrite str_take_all by lia. rewrite Hu. cbn [default]. do 3 f_equal. lia.
Qed.

Lemma parse_fraction_back n : 0 <= n < 10 ^ 9 -> parse_fraction (fraction n +:+ "Z") = (n, "Z").
Proof.
  intros Hn. destruct (pad_digits 9 n Hn ltac:(lia)) as [Hl Hv]. unfold fraction.
  destruct (trim_zeros (pad 9 n)) as [k Hk]. rewrite Hk in Hl, Hv. rewrite length_app_str, zeros_length in Hl.
  destruct (digits_val_prefix _ _ _ _ Hv) as [u Hu]. rewrite (digits_val_app _ _ _ _ Hu), digits_val_zeros in Hv.
  injection Hv as Hv. rewrite (parse_fraction_digits _ u k Hl Hu). by rewrite Hv.
Qed.

Lemma skip_lit (l : string) c r : l = String c "" -> skip c (l +:+ r) = Some r.
Proof. intros ->. rewrite string_app_cons, string_app_nil_l. cbn. by rewrite Ascii.eqb_refl. Qed.

(** Reading back what was written gives the instant, for the years of four digits. *)
Lemma Parse_Format t : 0 <= c_year (civil_of t) <= 9999 -> Parse_RFC3339Nano (Format_RFC3339Nano t) = Some t.
Proof.
  unfold Format_RFC3339Nano, format_date, format_clock, civil_of.
  destruct (date_of_days (t / 1000000000 / 86400)) as [[y m] d] eqn:Ed. cbn [c_year c_month c_day c_hour c_min c_sec c_nano].
  intros Hy. destruct (date_roundtrip _ _ _ _ Ed) as (Hdays & Hm & Hd).
  assert (daysIn m y <= 31) as Hmax by (unfold daysIn; repeat case_match; lia).
  set (secs := t / 1000000000) in *. set (sod := secs mod 86400).
  assert (0 <= sod < 86400) as Hsod by (apply Z.mod_pos_bound; lia).
  pose proof (Z.div_mod secs 86400) as Hsecs. fold sod in Hsecs.
  pose proof (Z.div_mod t 1000000000) as Ht. fold secs in Ht. pose proof (Z.mod_pos_bound t 1000000000) as Hn.
  assert (0 <= sod / 3600 < 24) as Hh by (split; [apply Z.div_pos; lia|apply Z.div_lt_upper_bound; lia]).
  pose proof (Z.mod_pos_bound (sod / 60) 60) as Hmin. pose proof (Z.mod_pos_bound sod 60) as Hsec.
  rewrite !string_app_assoc.
  set (rest := "-" +:+ _). destruct (getnum_year y rest Hy) as (a & b & s & H1 & H2 & Hab).
  unfold Parse_RFC3339Nano. rewrite H1. cbn [mbind option_bind]. rewrite H2. cbn [mbind option_bind]. cbv zeta. rewrite Hab.
  unfold rest. clear rest H1 H2 s.
  rewrite (skip_lit "-") by done. cbn [mbind option_bind]. rewrite getnum_pad by lia. cbn [mbind option_bind].
  rewrite (proj2 (Z.leb_gt m 0)), (proj2 (Z.ltb_ge 12 m)) by lia. cbn [orb].
  rewrite (skip_lit "-") by done. cbn [mbind option_bind]. rewrite getnum_pad by lia. cbn [mbind option_bind].
  rewrite (skip_lit "T") by done. cbn [mbind option_bind]. rewrite getnum_pad by lia. cbn [mbind option_bind].
  rewrite (proj2 (Z.leb_gt 24 _)) by lia.
  rewrite (skip_lit ":") by done. cbn [mbind option_bind]. rewrite getnum_pad by lia. cbn [mbind option_bind].
  rewrite (proj2 (Z.leb_gt 60 _)) by lia.
  rewrite (skip_lit ":") by done. cbn [mbind option_bind]. rewrite getnum_pad by lia. cbn [mbind option_bind].
  rewrite (proj2 (Z.leb_gt 60 _)) by lia.
  rewrite parse_fraction_back by (apply Hn; lia).
  change (parse_zone "Z") with (Some (0, "")). cbn [mbind option_bind]. rewrite bool_decide_eq_true_2 by done. cbn [negb].
  rewrite (proj2 (Z.ltb_ge d 1)), (proj2 (Z.ltb_ge (daysIn m y) d)) by lia. cbn [orb]. f_equal. rewrite Hdays.
  assert (sod = sod / 3600 * 3600 + (sod / 60) mod 60 * 60 + sod mod 60) as E.
  { pose proof (Z.div_mod sod 60). pose proof (Z.div_mod (sod / 60) 60). rewrite Z.div_div in H0 by lia.
    change (60 * 60) with 3600 in H0. lia. }
  lia.
Qed.
