(* ===== verification/GoTrim.v ===== *)
(** What strings.TrimSpace takes off a text, and what it leaves alone. *)
From S2P Require Import Prelude GoStr GoTime TimeParse.

(** A byte of an encoded space. *)
Definition space_byte (c : ascii) : bool := existsb (str_mem c) space_seqs.

Lemma str_rev_forallb f s : str_forallb f (str_rev s) = str_forallb f s.
Proof. unfold str_rev. rewrite str_rev_app_forallb. cbn. by rewrite andb_true_r. Qed.

Lemma trim_left_spec fuel seqs s :
  Forall (fun q => str_forallb space_byte q = true) seqs ->
  exists l, s = l +:+ trim_left_fuel fuel seqs s /\ str_forallb space_byte l = true.
Proof.
  intros Hq. revert s. induction fuel as [|n IH]; intros s; [by exists ""|]. cbn.
  destruct (strip_one_space seqs s) as [s'|] eqn:E; [|by exists ""]. unfold strip_one_space in E.
  destruct (List.find (HasPrefix s) seqs) as [q|] eqn:Ef; [|done]. injection E as <-.
  apply List.find_some in Ef as [Hin Hp]. apply HasPrefix_spec in Hp as [t ->]. rewrite str_drop_app.
  destruct (IH t) as (l & El & Hl). exists (q +:+ l). split; [by rewrite string_app_assoc, <-El|].
  rewrite str_forallb_app, Hl, andb_true_r. rewrite Forall_forall in Hq. by apply Hq, list_elem_of_In.
Qed.

Lemma space_seqs_bytes : Forall (fun q => str_forallb space_byte q = true) space_seqs.
Proof.
  apply List.Forall_forall. apply forallb_forall. vm_compute. reflexivity.
Qed.

(** Trimming takes space off both ends. *)
Lemma TrimSpace_spec s : exists l r, s = l +:+ TrimSpace s +:+ r /\
  str_forallb space_byte l = true /\ str_forallb space_byte r = true.
Proof.
  unfold TrimSpace. destruct (trim_left_spec (String.length s) space_seqs s space_seqs_bytes) as (l & El & Hl).
  set (t := trim_left_fuel _ space_seqs s) in *.
  destruct (trim_left_spec (String.length t) (str_rev <$> space_seqs) (str_rev t)) as (r & Er & Hr).
  { apply Forall_fmap. eapply Forall_impl; [apply space_seqs_bytes|]. intros q Hq. cbn. by rewrite str_rev_forallb. }
  set (u := trim_left_fuel _ (str_rev <$> space_seqs) (str_rev t)) in *.
  exists l, (str_rev r). split; [|by rewrite str_rev_forallb].
  rewrite El. f_equal. rewrite <-str_rev_string_app, <-Er. by rewrite str_rev_involutive.
Qed.

(** A text that does not begin or end with a byte of a space is left alone. *)
Lemma trim_left_none fuel seqs s :
  Forall (fun q => exists c q', q = String c q' /\ space_byte c = true) seqs ->
  str_forallb (fun c => negb (space_byte c)) s = true -> trim_left_fuel fuel seqs s = s.
Proof.
  intros Hq Hs. destruct fuel as [|n]; [done|]. cbn. unfold strip_one_space.
  destruct (List.find (HasPrefix s) seqs) as [q|] eqn:Ef; [|done]. apply List.find_some in Ef as [Hin Hp].
  rewrite Forall_forall in Hq. destruct (Hq q) as (c & q' & -> & Hc); [by apply list_elem_of_In|].
  destruct s as [|d s]; [done|]. cbn [HasPrefix str_forallb] in Hp, Hs. apply andb_true_iff in Hp as [->%bool_decide_eq_true _].
  by rewrite Hc in Hs.
Qed.

Lemma TrimSpace_none s : str_forallb (fun c => negb (space_byte c)) s = true -> TrimSpace s = s.
Proof.
  assert (forall l, forallb (fun q => match q with String c _ => space_byte c | "" => false end) l = true ->
    Forall (fun q => exists c q', q = String c q' /\ space_byte c = true) l) as Hl.
  { intros l H. apply Forall_forall. intros q Hq%list_elem_of_In. rewrite forallb_forall in H. apply H in Hq.
    destruct q as [|c q]; [done|]. by exists c, q. }
  intros Hs. unfold TrimSpace. rewrite (trim_left_none _ space_seqs) by (done || (apply Hl; vm_compute; reflexivity)).
  rewrite trim_left_none; [apply str_rev_involutive|apply Hl; vm_compute; reflexivity|by rewrite str_rev_forallb].
Qed.

Definition solid (s : string) : bool := str_forallb (fun c => negb (space_byte c)) s.

Lemma trim_left_head fuel seqs c s :
  forallb (fun q => match q with String c _ => space_byte c | "" => false end) seqs = true ->
  space_byte c = false -> trim_left_fuel fuel seqs (String c s) = String c s.
Proof.
  intros Hq Hc. destruct fuel as [|n]; [done|]. cbn [trim_left_fuel]. unfold strip_one_space.
  destruct (List.find _ seqs) as [q|] eqn:Ef; [|done]. apply List.find_some in Ef as [Hin Hp].
  rewrite forallb_forall in Hq. specialize (Hq _ Hin). destruct q as [|d q]; [done|].
  cbn in Hp. apply andb_true_iff in Hp as [->%bool_decide_eq_true _]. congruence.
Qed.

(** One line break at the end is all there is to trim. *)
Lemma TrimSpace_line c s d :
  space_byte c = false -> space_byte d = false ->
  TrimSpace (String c s +:+ String d LF) = String c s +:+ String d "".
Proof.
  intros Hc Hd. unfold TrimSpace. rewrite string_app_cons. rewrite trim_left_head by done.
  rewrite <-string_app_cons. rewrite str_rev_string_app.
  change (str_rev (String d LF)) with (String (chr 10) (String d "")). rewrite !length_string_app.
  set (n := (String.length (String c s) + _)%nat). assert (exists m, n = S m) as [m ->] by (exists (pred n); subst n; cbn; lia).
  rewrite string_app_cons. cbn [trim_left_fuel].
  match goal with |- context [strip_one_space ?q ?x] =>
    replace (strip_one_space q x) with (Some (String d "" +:+ str_rev (String c s))) end.
  2:{ unfold strip_one_space. by vm_compute. }
  rewrite string_app_cons, trim_left_head by done. rewrite <-string_app_cons, str_rev_string_app.
  by rewrite str_rev_involutive.
Qed.

Lemma last_char s : s <> "" -> exists m d, s = m +:+ String d "".
Proof.
  induction s as [|c s IH]; [done|]. intros _. destruct s as [|c' s]; [by exists "", c|].
  destruct IH as (m & d & E); [done|]. exists (String c m), d. by rewrite string_app_cons, <-E.
Qed.

(** A text without space in the middle or at the end of which a solid one stands. *)
Lemma TrimSpace_ends c s d :
  space_byte c = false -> space_byte d = false ->
  TrimSpace (String c s +:+ String d "") = String c s +:+ String d "".
Proof.
  intros Hc Hd. unfold TrimSpace. rewrite string_app_cons, trim_left_head by done.
  rewrite <-string_app_cons, str_rev_string_app.
  change (str_rev (String d "") +:+ ?x) with (String d x). rewrite trim_left_head by done.
  change (String d (str_rev (String c s))) with (str_rev (String d "") +:+ str_rev (String c s)).
  by rewrite <-str_rev_string_app, str_rev_involutive.
Qed.

Lemma solid_last c p s : space_byte c = false -> solid s = true -> s <> "" ->
  TrimSpace (String c p +:+ s) = String c p +:+ s /\ TrimSpace (String c p +:+ s +:+ LF) = String c p +:+ s.
Proof.
  intros Hc Hs (m & d & ->)%last_char. unfold solid in Hs. rewrite str_forallb_app in Hs.
  apply andb_true_iff in Hs as [_ Hd]. cbn in Hd. rewrite andb_true_r in Hd. apply negb_true_iff in Hd.
  rewrite !string_app_assoc. change (String d "" +:+ LF) with (String d LF).
  rewrite <-!(string_app_assoc (String c p) m), !(string_app_cons c p m).
  split; [by apply TrimSpace_ends|by apply TrimSpace_line].
Qed.
