(* ===== verification/GoErr.v ===== *)
(** Go error values.

    An error is a tree: [fmt.Errorf] with [%w] and [errors.Join] wrap causes, and the typed
    errors of the package [fsq] carry one.  [errors.Is] and [errors.As] search the tree in
    pre-order; [os.IsNotExist] looks only at the error itself, it does not unwrap what
    [fmt.Errorf] wrapped.  The words of messages are kept as strings, nothing depends on them. *)
From S2P Require Import Prelude GoStr GoPath.

(** I/O failures the operating system may report for any call. *)
Inductive ioerr := EIO | ENOSPC | EACCES | EXDEV | EINVAL | ENOTSUP.

Inductive errno :=
| IOErr (x : ioerr)
| ENOENT | EEXIST | ENOTEMPTY | ENOTDIR | EISDIR | ELOOP | EBADF | EPERM
| EESCAPES                                  (* os.Root: path escapes from parent *)
| ErrShortWrite                             (* io.ErrShortWrite *)
| ErrInvalid.                               (* fs.ErrInvalid *)

#[global] Instance ioerr_eq_dec : EqDecision ioerr.
Proof. solve_decision. Defined.
#[global] Instance errno_eq_dec : EqDecision errno.
Proof. solve_decision. Defined.

(** The package-level error variables the sources compare against. *)
Inductive sentinel :=
| ErrDeliveryRootChanged
| ErrDLQRetryDelivered
| ErrDLQRetryIndeterminate
| ErrPathIsSymlink
| ErrLayoutIdentityChanged
| ErrMissingFrontmatterStart
| ErrMissingFrontmatterEnd
| ErrMessageTooLarge
| ErrDeadlineExceeded
| ErrCorrupt
| ErrTargetOwned
| ErrRegistrationOwned
| ErrInvalidIdentity.

#[global] Instance sentinel_eq_dec : EqDecision sentinel.
Proof. solve_decision. Defined.

#[warnings="-register-all"]
Inductive gerr :=
| EErrno (e : errno)
| ESent (s : sentinel)
| EMsg (m : string)
| EWrap (ctx : string) (causes : list gerr)
| ECommitted (FinalPath : path) (Recipient : string) (cause : gerr)
| EDLQTransition (EnvelopePath SourcePath : path) (SourceRetained : bool) (cause : gerr)
| EPartialDelivery (Delivered : gmap string path) (Failed : string) (Pending : list string)
    (cause : gerr)
| EClaimCollision (NewPath CurPath : path)
| EClaimResidue (cause : gerr)
| EDirectChildExists (Name : string)
| EPathSymlink (Path : path).

(** The errors in the order [errors.Is] and [errors.As] visit them. *)
Fixpoint chain (e : gerr) : list gerr :=
  e :: match e with
       | EWrap _ cs => List.flat_map chain cs
       | ECommitted _ _ c | EDLQTransition _ _ _ c | EPartialDelivery _ _ _ c
       | EClaimResidue c => chain c
       | EPathSymlink _ => [ESent ErrPathIsSymlink]
       | _ => []
       end.

(** [errors.Is] against the portable kinds of the package [os] and against errno values. *)
Definition errno_is_exist (e : errno) : bool :=
  match e with EEXIST | ENOTEMPTY => true | _ => false end.
Definition errno_is_notexist (e : errno) : bool :=
  match e with ENOENT => true | _ => false end.

Definition chain_has (f : errno -> bool) (e : gerr) : bool :=
  existsb (fun x => match x with EErrno n => f n | _ => false end) (chain e).

Definition errors_Is_Exist (e : gerr) : bool := chain_has errno_is_exist e.
Definition errors_Is_NotExist (e : gerr) : bool := chain_has errno_is_notexist e.
Definition errors_Is_errno (n : errno) (e : gerr) : bool :=
  chain_has (fun m => bool_decide (m = n)) e.
Definition errors_Is (s : sentinel) (e : gerr) : bool :=
  existsb (fun x => match x with ESent t => bool_decide (s = t) | _ => false end) (chain e).

(** [os.IsNotExist] and [os.IsExist]: no unwrapping of [fmt.Errorf] wrappers. *)
Definition os_IsNotExist (e : gerr) : bool :=
  match e with EErrno n => errno_is_notexist n | _ => false end.
Definition os_IsExist (e : gerr) : bool :=
  match e with EErrno n => errno_is_exist n | _ => false end.

(** [errors.As] for the typed errors the sources look for. *)
Definition as_committed1 (e : gerr) : option (path * string * gerr) :=
  match e with ECommitted p r c => Some (p, r, c) | _ => None end.
Definition as_transition1 (e : gerr) : option (path * path * bool * gerr) :=
  match e with EDLQTransition p s b c => Some (p, s, b, c) | _ => None end.
Definition as_residue1 (e : gerr) : option gerr :=
  match e with EClaimResidue c => Some c | _ => None end.

Fixpoint find_some {A B} (f : A -> option B) (l : list A) : option B :=
  match l with
  | [] => None
  | x :: l' => match f x with Some y => Some y | None => find_some f l' end
  end.

Definition errors_As_committed (e : gerr) : option (path * string * gerr) :=
  find_some as_committed1 (chain e).
Definition errors_As_transition (e : gerr) : option (path * path * bool * gerr) :=
  find_some as_transition1 (chain e).
Definition errors_As_residue (e : gerr) : option gerr := find_some as_residue1 (chain e).

Definition is_committed (e : gerr) : bool :=
  match errors_As_committed e with Some _ => true | None => false end.

(** [errors.As] finds one of the typed errors that report a message to be visible or
    claimed: a CommittedDurabilityError, a PartialDeliveryError, a DLQTransitionError, a
    ClaimCollisionError or a claim residue. *)
Definition visible1 (e : gerr) : bool :=
  match e with
  | ECommitted _ _ _ | EPartialDelivery _ _ _ _ | EDLQTransition _ _ _ _
  | EClaimCollision _ _ | EClaimResidue _ => true
  | _ => false
  end.
Definition visible_err (e : gerr) : bool := existsb visible1 (chain e).

(** [fmt.Errorf("...: %w", err)] with one cause. *)
Definition Errorf (ctx : string) (cause : gerr) : gerr := EWrap ctx [cause].

(** [errors.Join(a, b)] of two errors that may be nil. *)
Definition errors_Join (l : list (option gerr)) : option gerr :=
  match omap id l with
  | [] => None
  | cs => Some (EWrap "" cs)
  end.

(** ** Lemmas *)

Lemma chain_Errorf ctx c : chain (Errorf ctx c) = Errorf ctx c :: chain c.
Proof. unfold Errorf. cbn. by rewrite app_nil_r. Qed.

Lemma find_some_app {A B} (f : A -> option B) l1 l2 :
  find_some f (l1 ++ l2) = match find_some f l1 with Some y => Some y | None => find_some f l2 end.
Proof. induction l1 as [|x l1 IH]; [done|]. cbn. by destruct (f x). Qed.

Lemma errors_As_committed_Errorf ctx c :
  errors_As_committed (Errorf ctx c) = errors_As_committed c.
Proof. unfold errors_As_committed. by rewrite chain_Errorf. Qed.

Lemma errors_Is_Exist_Errorf ctx c : errors_Is_Exist (Errorf ctx c) = errors_Is_Exist c.
Proof. unfold errors_Is_Exist, chain_has. by rewrite chain_Errorf. Qed.

Lemma is_committed_Errorf ctx c : is_committed (Errorf ctx c) = is_committed c.
Proof. unfold is_committed. by rewrite errors_As_committed_Errorf. Qed.

#[global] Arguments visible_err : simpl never.

Lemma visible_err_Errorf ctx c : visible_err (Errorf ctx c) = visible_err c.
Proof. unfold visible_err. by rewrite chain_Errorf. Qed.

Lemma quiet_not_committed x : visible_err x = false -> is_committed x = false.
Proof.
  unfold visible_err, is_committed, errors_As_committed. induction (chain x) as [|y l IH]; [done|].
  cbn. destruct y; cbn; try done; exact IH.
Qed.

(** Searching a wrapper searches its causes. *)
Lemma find_some_flat {A B C} (f : B -> option C) (g : A -> list B) l :
  find_some f (List.flat_map g l) = None <-> Forall (fun x => find_some f (g x) = None) l.
Proof.
  induction l as [|x l IH]; cbn; [split; [by constructor|done]|].
  rewrite find_some_app, Forall_cons, <-IH. destruct (find_some f (g x)); [|tauto].
  split; [done|]. by intros [? _].
Qed.

Lemma errors_As_transition_EWrap ctx cs :
  errors_As_transition (EWrap ctx cs) = None <->
  Forall (fun x => errors_As_transition x = None) cs.
Proof. unfold errors_As_transition. cbn. apply find_some_flat. Qed.

Lemma errors_As_transition_ECommitted p a c :
  errors_As_transition (ECommitted p a c) = errors_As_transition c.
Proof. done. Qed.

Lemma quiet_no_transition x : visible_err x = false -> errors_As_transition x = None.
Proof.
  unfold visible_err, errors_As_transition. induction (chain x) as [|y l IH]; [done|].
  cbn. destruct y; cbn; try done; exact IH.
Qed.

Lemma errors_Join_transition l err :
  errors_Join l = Some err ->
  (errors_As_transition err = None <->
   Forall (fun o => forall x, o = Some x -> errors_As_transition x = None) l).
Proof.
  unfold errors_Join. intros H.
  assert (errors_As_transition err = None <->
    Forall (fun x => errors_As_transition x = None) (omap id l)) as ->.
  { destruct (omap id l); [done|]. injection H as <-. apply errors_As_transition_EWrap. }
  clear H. induction l as [|[x|] l IH]; cbn; [split; by constructor| |];
    rewrite ?Forall_cons, IH; naive_solver.
Qed.

Lemma errors_Join_None l : errors_Join l = None <-> Forall (fun x => x = None) l.
Proof.
  unfold errors_Join. induction l as [|[x|] l IH]; cbn.
  - split; [by constructor|done].
  - split; [done|]. intros H; inv H; done.
  - rewrite IH. split; [by constructor|]. by inversion 1.
Qed.
