(* ===== verification/GoFile.v ===== *)
(** File names as strings: path/filepath on Unix, for the code that keeps the names of files
    anywhere on the machine as text (GoPath has the paths below one root).

    What such a name means is not in the tree of the model: the working directory of the
    process and the symbolic links of the machine are a parameter, the class [Machine]. *)
From S2P Require Import Prelude GoStr GoPath GoErr.

(** ** filepath.Clean *)

(** One component against the reversed stack, below the root of the file system. *)
Definition push_abs (stk : path) (c : string) : path :=
  if bool_decide (c = "") || bool_decide (c = ".") then stk
  else if bool_decide (c = "..") then tl stk
  else c :: stk.

(** The components of an absolute name. *)
Definition abs_comps (s : string) : path := reverse (foldl push_abs [] (Split_on slash s)).

Definition abs_name (p : path) : string := "/" +:+ Join_with "/" p.

Definition CleanName (s : string) : string :=
  if IsAbs s then abs_name (abs_comps s) else path_string (Clean (Split_on slash s)).

(** filepath.Dir, filepath.Base and filepath.Join of two names, of absolute clean names. *)
Definition DirName (s : string) : string := abs_name (removelast (abs_comps s)).
Definition BaseName (s : string) : string := default "/" (last (abs_comps s)).
Definition JoinName (s t : string) : string := CleanName (s +:+ "/" +:+ t).

Example clean_1 : CleanName "/a//b/./../c/" = "/a/c".
Proof. reflexivity. Qed.
Example clean_2 : CleanName "/../x" = "/x".
Proof. reflexivity. Qed.
Example clean_3 : CleanName "a/../../b" = "../b".
Proof. reflexivity. Qed.
Example base_1 : (DirName "/a/c", BaseName "/a/c", DirName "/") = ("/a", "c", "/").
Proof. reflexivity. Qed.

(** ** The machine *)

(** The errors of the operating system, and those that have a text only. *)
Definition name_error (x : errno + string) : gerr := match x with inl n => EErrno n | inr m => EMsg m end.

(** os.Getwd, and filepath.EvalSymlinks of an absolute name. *)
Class Machine := {
  Getwd : string + errno;
  EvalSymlinks : string -> string + (errno + string);
}.

(** The working directory is an absolute name; a name without links is its own evaluation, and
    evaluating gives such a name. *)
Class MachineLaws `{Machine} := {
  Getwd_abs wd : Getwd = inl wd -> IsAbs wd = true;
  Eval_real s r : EvalSymlinks s = inl r -> EvalSymlinks r = inl r;
  Eval_clean s r : IsAbs s = true -> EvalSymlinks s = inl r -> IsAbs r = true /\ CleanName r = r;
}.

(** filepath.Abs. *)
Definition AbsName `{Machine} (s : string) : string + gerr :=
  if IsAbs s then inl (CleanName s) else
  match Getwd with inl wd => inl (JoinName wd s) | inr e => inr (EErrno e) end.

(** ** Cleaning twice *)

(** A component of a clean name. *)
Definition comp_ok (c : string) : Prop := c <> "" /\ c <> "." /\ c <> ".." /\ str_mem slash c = false.

Lemma push_abs_ok stk c : str_mem slash c = false -> Forall comp_ok stk -> Forall comp_ok (push_abs stk c).
Proof.
  intros Hc Hs. unfold push_abs. case_bool_decide; [done|]. case_bool_decide; [done|]. cbn.
  case_bool_decide; [destruct stk; [done|by inv Hs]|]. by constructor.
Qed.

Lemma push_all_ok l stk : Forall (fun c => str_mem slash c = false) l -> Forall comp_ok stk ->
  Forall comp_ok (foldl push_abs stk l).
Proof. revert stk. induction l as [|c l IH]; intros stk Hl Hs; [done|]. inv Hl. apply IH; [done|]. by apply push_abs_ok. Qed.

Lemma push_keeps l stk : Forall comp_ok l -> foldl push_abs stk l = reverse l ++ stk.
Proof.
  revert stk. induction l as [|c l IH]; intros stk Hl; [done|]. inv Hl as [|? ? (H1&H2&H3&_) Hl']. cbn [foldl].
  unfold push_abs at 2. rewrite !bool_decide_eq_false_2 by done. cbn [orb]. rewrite IH by done.
  by rewrite reverse_cons, <-app_assoc.
Qed.

Lemma Split_no_sep sep s : Forall (fun c => str_mem sep c = false) (Split_on sep s).
Proof.
  induction s as [|c s IH]; [by constructor|]. cbn [Split_on]. case_bool_decide as E; [by constructor|].
  destruct (Split_on sep s) as [|x l]; [by constructor; [cbn; rewrite bool_decide_eq_false_2|]|].
  inv IH. constructor; [|done]. cbn. rewrite bool_decide_eq_false_2 by done. done.
Qed.

Lemma Split_app sep s t : str_mem sep s = false -> Split_on sep (s +:+ String sep t) = s :: Split_on sep t.
Proof.
  induction s as [|c s IH]; intros Hs; cbn [str_mem] in *.
  - rewrite string_app_nil_l. cbn [Split_on]. by rewrite bool_decide_eq_true_2.
  - apply orb_false_iff in Hs as [Hc Hs]. rewrite string_app_cons. cbn [Split_on]. rewrite IH by done.
    apply bool_decide_eq_false in Hc. by rewrite bool_decide_eq_false_2.
Qed.

Lemma Split_Join sep l : l <> [] -> Forall (fun c => str_mem sep c = false) l ->
  Split_on sep (Join_with (String sep "") l) = l.
Proof.
  induction l as [|a l IH]; [done|]. intros _ Hl. inv Hl as [|? ? Ha Hl']. destruct l as [|b l].
  - cbn. by apply Split_on_no_sep.
  - change (Join_with (String sep "") (a :: b :: l)) with (a +:+ String sep (Join_with (String sep "") (b :: l))).
    rewrite Split_app by done. by rewrite IH.
Qed.

Lemma abs_comps_ok s : Forall comp_ok (abs_comps s).
Proof. apply Forall_reverse. apply push_all_ok; [apply Split_no_sep|done]. Qed.

Lemma abs_comps_name l : Forall comp_ok l -> abs_comps (abs_name l) = l.
Proof.
  intros Hl. unfold abs_comps, abs_name.
  change ("/" +:+ Join_with "/" l) with ("" +:+ String slash (Join_with (String slash "") l)).
  rewrite Split_app by done. cbn [foldl]. change (push_abs [] "") with (@nil string).
  destruct l as [|a l]; [done|]. rewrite Split_Join; [|done|eapply Forall_impl; [exact Hl|]; by intros c (_&_&_&?)].
  by rewrite push_keeps, app_nil_r, reverse_involutive.
Qed.

Lemma IsAbs_name l : IsAbs (abs_name l) = true.
Proof. done. Qed.

Lemma CleanName_abs s : IsAbs s = true -> IsAbs (CleanName s) = true /\ CleanName (CleanName s) = CleanName s.
Proof.
  intros Hs. unfold CleanName at 1 3 4. rewrite Hs. split; [apply IsAbs_name|].
  unfold CleanName. rewrite IsAbs_name. by rewrite abs_comps_name by apply abs_comps_ok.
Qed.

Lemma AbsName_abs `{MachineLaws} s a : AbsName s = inl a -> IsAbs a = true /\ CleanName a = a.
Proof.
  unfold AbsName. destruct (IsAbs s) eqn:Es; [intros [= <-]; by apply CleanName_abs|].
  destruct Getwd as [wd|] eqn:Ew; [|done]. intros [= <-]. apply Getwd_abs in Ew. unfold JoinName. apply CleanName_abs.
  unfold IsAbs in *. by destruct wd as [|c wd].
Qed.
