(* ===== verification/Fs.v ===== *)
(** The file system below a pinned queue root, and the calls the code makes on it.

    A [tree] is what is reachable through one [os.Root] handle: directory entries keyed by
    the path relative to the root, and the contents of the inodes.  Open files refer to
    inodes, so a rename does not disturb a file being written.  Components before the last
    one must be directories; a symbolic link in the middle of a path is reported as ENOTDIR
    (it is not followed), a link at the end is seen by Lstat and followed by Stat and Open.

    Each call is an element of [sysop], executed by [exec] against a [world].  What the
    code does not control comes from an [env]: which call fails with which I/O error (and
    how far a failing write or MkdirAll got), what the ambient base path names when it is
    looked at, the clock, the random bytes, the process id and the order of directory
    listings, all indexed by the number of calls made so far. *)
From S2P Require Import Prelude GoStr GoPath GoErr.

Abbreviation ino := N.

(** ** Trees *)

Inductive node :=
| NFile (i : ino)
| NDir (i : ino) (perm : Z)
| NSym (i : ino) (target : option path)     (* None: the link leaves the root *)
| NOther (i : ino).

#[global] Instance node_eq_dec : EqDecision node.
Proof. solve_decision. Defined.

Record tree := Tree {
  dents : gmap path node;
  data : gmap ino string;
  next_dir : ino;
}.

Inductive kind := KFile | KDir | KSym | KOther.
#[global] Instance kind_eq_dec : EqDecision kind.
Proof. solve_decision. Defined.

(** os.FileInfo as far as the code looks at it. *)
Record info := Info { i_kind : kind; i_ino : ino; i_perm : Z; i_size : nat }.

Definition SameFile (a b : info) : bool :=
  bool_decide (i_kind a = i_kind b) && bool_decide (i_ino a = i_ino b).

Record handle := Handle { h_kind : kind; h_ino : ino; h_path : path }.

(** The result of a call that may fail. *)
Inductive ior (A : Type) := Ok (a : A) | Er (e : errno).
Arguments Ok {A} a.
Arguments Er {A} e.

Definition ior_map {A B} (f : A -> B) (r : ior A) : ior B :=
  match r with Ok a => Ok (f a) | Er e => Er e end.

Definition root_node : node := NDir 0 448.

Definition node_kind (n : node) : kind :=
  match n with NFile _ => KFile | NDir _ _ => KDir | NSym _ _ => KSym | NOther _ => KOther end.
Definition node_ino (n : node) : ino :=
  match n with NFile i | NDir i _ | NSym i _ | NOther i => i end.
Definition node_perm (n : node) : Z := match n with NDir _ m => m | _ => 384 end.

Definition file_size (t : tree) (n : node) : nat :=
  match n with NFile i => String.length (default "" (data t !! i)) | _ => 0%nat end.

Definition node_info (t : tree) (n : node) : info :=
  Info (node_kind n) (node_ino n) (node_perm n) (file_size t n).

(** Every proper prefix of [pre ++ rest] below [pre] names a directory. *)
Fixpoint walk (m : gmap path node) (pre rest : path) : option errno :=
  match rest with
  | [] => None
  | c :: rest' =>
    match rest' with
    | [] => None
    | _ => match m !! (pre ++ [c]) with
           | Some (NDir _ _) => walk m (pre ++ [c]) rest'
           | Some _ => Some ENOTDIR
           | None => Some ENOENT
           end
    end
  end.

Definition t_parent (t : tree) (p : path) : option errno :=
  if escapes p then Some EESCAPES else walk (dents t) [] p.

Definition t_node (t : tree) (p : path) : ior node :=
  match p with
  | [] => Ok root_node
  | _ => match t_parent t p with
         | Some e => Er e
         | None => match dents t !! p with Some n => Ok n | None => Er ENOENT end
         end
  end.

Definition t_lstat (t : tree) (p : path) : ior info := ior_map (node_info t) (t_node t p).

(** Links at the end of the path are followed at most eight times, as [os.Root] does. *)
Fixpoint t_follow (fuel : nat) (t : tree) (p : path) : ior (path * node) :=
  match t_node t p with
  | Ok (NSym _ (Some q)) => match fuel with O => Er ELOOP | S f => t_follow f t q end
  | Ok (NSym _ None) => Er EESCAPES
  | Ok n => Ok (p, n)
  | Er e => Er e
  end.

Definition t_stat (t : tree) (p : path) : ior info :=
  ior_map (fun x => node_info t x.2) (t_follow 8 t p).

Definition t_open (t : tree) (p : path) : ior handle :=
  ior_map (fun x => Handle (node_kind x.2) (node_ino x.2) x.1) (t_follow 8 t p).

(** O_NOFOLLOW. *)
Definition t_open_nofollow (t : tree) (p : path) : ior handle :=
  match t_node t p with
  | Ok (NSym _ _) => Er ELOOP
  | Ok n => Ok (Handle (node_kind n) (node_ino n) p)
  | Er e => Er e
  end.

Definition set_dents (f : gmap path node -> gmap path node) (t : tree) : tree :=
  Tree (f (dents t)) (data t) (next_dir t).

Definition add_dir (t : tree) (p : path) (perm : Z) : tree :=
  Tree (<[p := NDir (next_dir t) perm]> (dents t)) (data t) (next_dir t + 1)%N.

Definition t_mkdir (t : tree) (p : path) (perm : Z) : ior tree :=
  match p with
  | [] => Er EEXIST
  | _ => match t_parent t p with
         | Some e => Er e
         | None => match dents t !! p with
                   | Some _ => Er EEXIST
                   | None => Ok (add_dir t p perm)
                   end
         end
  end.

(** MkdirAll makes the missing prefixes one after the other. *)
Fixpoint mkdir_prefixes (t : tree) (pre rest : path) (perm : Z) : tree * option errno :=
  match rest with
  | [] => (t, None)
  | c :: rest' =>
    let q := pre ++ [c] in
    match dents t !! q with
    | Some (NDir _ _) => mkdir_prefixes t q rest' perm
    | Some _ => (t, Some ENOTDIR)
    | None => mkdir_prefixes (add_dir t q perm) q rest' perm
    end
  end.

Definition t_mkdirall (t : tree) (p : path) (perm : Z) : tree * option errno :=
  if escapes p then (t, Some EESCAPES) else mkdir_prefixes t [] p perm.

(** A new file gets an inode no content belongs to yet. *)
Definition fresh_ino (t : tree) : ino := fresh (dom (data t)).

Definition add_file (t : tree) (p : path) : tree :=
  Tree (<[p := NFile (fresh_ino t)]> (dents t)) (<[fresh_ino t := ""]> (data t)) (next_dir t).

Definition t_open_excl (t : tree) (p : path) : ior (handle * tree) :=
  match p with
  | [] => Er EEXIST
  | _ => match t_parent t p with
         | Some e => Er e
         | None => match dents t !! p with
                   | Some _ => Er EEXIST
                   | None => Ok (Handle KFile (fresh_ino t) p, add_file t p)
                   end
         end
  end.

Definition t_open_create (t : tree) (p : path) : ior (handle * tree) :=
  match t_open t p with
  | Ok h => match h_kind h with KDir => Er EISDIR | _ => Ok (h, t) end
  | Er ENOENT => t_open_excl t p
  | Er e => Er e
  end.

(** O_CREATE with O_NOFOLLOW. *)
Definition t_open_create_nofollow (t : tree) (p : path) : ior (handle * tree) :=
  match t_open_nofollow t p with
  | Ok h => match h_kind h with KDir => Er EISDIR | _ => Ok (h, t) end
  | Er ENOENT => t_open_excl t p
  | Er e => Er e
  end.

Definition t_write (t : tree) (i : ino) (s : string) : tree :=
  match data t !! i with
  | Some old => Tree (dents t) (<[i := old +:+ s]> (data t)) (next_dir t)
  | None => t
  end.

Definition is_child (p k : path) : bool :=
  match k with [] => false | _ => bool_decide (Dir k = p) end.

Definition children (t : tree) (p : path) : list (string * kind) :=
  (fun kn => (Base kn.1, node_kind kn.2)) <$>
    List.filter (fun kn => is_child p kn.1) (map_to_list (dents t)).

Definition t_remove (t : tree) (p : path) : ior tree :=
  match p with
  | [] => Er (IOErr EINVAL)
  | _ => match t_node t p with
         | Er e => Er e
         | Ok (NDir _ _) =>
           match children t p with [] => Ok (set_dents (delete p) t) | _ => Er ENOTEMPTY end
         | Ok _ => Ok (set_dents (delete p) t)
         end
  end.

(** os.RemoveAll: the node and everything below it; nothing to remove is no error. *)
Definition remove_subtree (p : path) (m : gmap path node) : gmap path node :=
  filter (fun kn => ~ p `prefix_of` kn.1) m.

(** Moving a directory moves everything below it. *)
Definition rebase (p q k : path) : path :=
  if bool_decide (p `prefix_of` k) then q ++ drop (length p) k else k.
Definition move_subtree (p q : path) (m : gmap path node) : gmap path node :=
  list_to_map ((fun kn => (rebase p q kn.1, kn.2)) <$> map_to_list m).

Definition move_node (n : node) (p q : path) (t : tree) : ior tree :=
  match n with
  | NDir _ _ =>
    if bool_decide (p `prefix_of` q) then Er (IOErr EINVAL)
    else Ok (set_dents (move_subtree p q) t)
  | _ => Ok (set_dents (fun m => <[q := n]> (delete p m)) t)
  end.

Definition t_rename (t : tree) (p q : path) : ior tree :=
  match t_node t p with
  | Er e => Er e
  | Ok n =>
    match t_node t q with
    | Ok (NDir _ _) => Er EISDIR
    | Ok _ => match n with NDir _ _ => Er ENOTDIR | _ => move_node n p q t end
    | Er ENOENT =>
      match t_parent t q with Some e => Er e | None => move_node n p q t end
    | Er e => Er e
    end
  end.

(** renameat2 with RENAME_NOREPLACE: the source is looked up first. *)
Definition t_rename_noreplace (t : tree) (p q : path) : ior tree :=
  match t_node t p with
  | Er e => Er e
  | Ok n =>
    match t_node t q with
    | Ok _ => Er EEXIST
    | Er ENOENT =>
      match t_parent t q with Some e => Er e | None => move_node n p q t end
    | Er e => Er e
    end
  end.

(** linkat: a second entry for the file; a link is not followed, a directory refused. *)
Definition t_link (t : tree) (p q : path) : ior tree :=
  match t_node t p with
  | Er e => Er e
  | Ok (NDir _ _) => Er EPERM
  | Ok n =>
    match t_node t q with
    | Ok _ => Er EEXIST
    | Er ENOENT =>
      match t_parent t q with Some e => Er e | None => Ok (set_dents (insert q n) t) end
    | Er e => Er e
    end
  end.

(** The permissions fstat reports; files are made with 0600 and stay so. *)
Definition handle_perm (t : tree) (h : handle) : Z :=
  match h_kind h, h_path h with
  | KDir, [] => node_perm root_node
  | KDir, p => match dents t !! p with Some n => node_perm n | None => 448 end
  | _, _ => 384
  end.

(** ** Worlds and environments *)

Record world := World {
  tr : tree;
  tick : nat;                    (* calls made so far *)
  leases : gset nat;             (* pinned batches that are still running *)
  next_lease : nat;
  locks : gset ino;              (* lock files held exclusively *)
}.

Record fault := Fault { f_err : ioerr; f_n : nat }.

Record env := Env {
  e_fault : nat -> option fault;
  e_base : nat -> path -> ior info;  (* os.Stat of an ambient path *)
  e_clock : nat -> Z;            (* time.Now().UnixNano() *)
  e_random : nat -> nat -> string;
  e_pid : nat -> Z;
  e_rand : nat -> Z;
  e_order : nat -> list (string * kind) -> list (string * kind);
  e_order_perm : forall n l, e_order n l ≡ₚ l;
}.

Definition set_tree (t : tree) (w : world) : world :=
  World t (S (tick w)) (leases w) (next_lease w) (locks w).
Definition bump (w : world) : world := set_tree (tr w) w.

(** ** The calls *)

Inductive sysop : Type -> Type :=
| SLstat (p : path) : sysop (ior info)
| SStat (p : path) : sysop (ior info)
| SMkdir (p : path) (perm : Z) : sysop (ior unit)
| SMkdirAll (p : path) (perm : Z) : sysop (ior unit)
| SOpen (p : path) : sysop (ior handle)
| SOpenNoFollow (p : path) : sysop (ior handle)
| SOpenExcl (p : path) : sysop (ior handle)
| SOpenCreate (p : path) : sysop (ior handle)
| SOpenCreateNoFollow (p : path) : sysop (ior handle)
| SFstat (h : handle) : sysop (ior info)
| SReadAll (h : handle) : sysop (ior string)
| SReadDir (h : handle) : sysop (ior (list (string * kind)))
| SWrite (h : handle) (s : string) : sysop (nat * option errno)
| SFsync (h : handle) : sysop (ior unit)
| SClose (h : handle) : sysop (ior unit)
| SRemove (p : path) : sysop (ior unit)
| SRemoveAll (p : path) : sysop (ior unit)
| SRename (p q : path) : sysop (ior unit)
| SRenameNoReplace (p q : path) : sysop (ior unit)
| SLink (p q : path) : sysop (ior unit)
| SChmod (p : path) (perm : Z) : sysop (ior unit)
| SFchmod (h : handle) (perm : Z) : sysop (ior unit)
| SStatBase (base : path) : sysop (ior info)
| SNow : sysop Z
| SGetpid : sysop Z
| SRand : sysop Z                          (* the runtime's own random numbers *)
| SRandom (n : nat) : sysop (ior string)
| SFlock (h : handle) : sysop (ior unit)
| SFunlock (h : handle) : sysop unit
| STryFlock (h : handle) : sysop (ior bool)
| SLeaseNew : sysop nat
| SLeaseActive (l : nat) : sysop bool
| SLeaseEnd (l : nat) : sysop unit.

Section exec.
Context (e : env).

(** A call without effect on the tree. *)
Definition obs {A} (w : world) (r : ior A) : ior A * world :=
  match e_fault e (tick w) with
  | Some f => (Er (IOErr (f_err f)), bump w)
  | None => (r, bump w)
  end.

(** A call that changes the tree when it succeeds, and not otherwise. *)
Definition upd {A} (w : world) (r : ior (A * tree)) : ior A * world :=
  match e_fault e (tick w) with
  | Some f => (Er (IOErr (f_err f)), bump w)
  | None => match r with
            | Ok (a, t) => (Ok a, set_tree t w)
            | Er x => (Er x, bump w)
            end
  end.

Definition upd_unit (w : world) (r : ior tree) : ior unit * world :=
  upd w (ior_map (fun t => (tt, t)) r).

Definition chmod_node (perm : Z) (n : node) : node :=
  match n with NDir i _ => NDir i perm | _ => n end.

Definition exec {R} (c : sysop R) (w : world) : R * world :=
  match c in sysop R return R * world with
  | SLstat p => obs w (t_lstat (tr w) p)
  | SStat p => obs w (t_stat (tr w) p)
  | SMkdir p perm => upd_unit w (t_mkdir (tr w) p perm)
  | SMkdirAll p perm =>
    match e_fault e (tick w) with
    | Some f => (Er (IOErr (f_err f)), set_tree (t_mkdirall (tr w) (take (f_n f) p) perm).1 w)
    | None => let '(t, r) := t_mkdirall (tr w) p perm in
              (match r with Some x => Er x | None => Ok tt end, set_tree t w)
    end
  | SOpen p => obs w (t_open (tr w) p)
  | SOpenNoFollow p => obs w (t_open_nofollow (tr w) p)
  | SOpenExcl p => upd w (t_open_excl (tr w) p)
  | SOpenCreate p => upd w (t_open_create (tr w) p)
  | SOpenCreateNoFollow p => upd w (t_open_create_nofollow (tr w) p)
  | SFstat h =>
    obs w (Ok (Info (h_kind h) (h_ino h) (handle_perm (tr w) h)
                 (String.length (default "" (data (tr w) !! h_ino h)))))
  | SReadAll h => obs w (match data (tr w) !! h_ino h with Some s => Ok s | None => Er EISDIR end)
  | SReadDir h => obs w (Ok (e_order e (tick w) (children (tr w) (h_path h))))
  | SWrite h s =>
    match e_fault e (tick w) with
    | Some f =>
      let s' := str_take (f_n f) s in
      ((String.length s', Some (IOErr (f_err f))), set_tree (t_write (tr w) (h_ino h) s') w)
    | None => ((String.length s, None), set_tree (t_write (tr w) (h_ino h) s) w)
    end
  | SFsync h => obs w (Ok tt)
  | SClose h => obs w (Ok tt)
  | SRemove p => upd_unit w (t_remove (tr w) p)
  | SRemoveAll p => upd_unit w (Ok (set_dents (remove_subtree p) (tr w)))
  | SRename p q => upd_unit w (t_rename (tr w) p q)
  | SRenameNoReplace p q => upd_unit w (t_rename_noreplace (tr w) p q)
  | SLink p q => upd_unit w (t_link (tr w) p q)
  | SChmod p perm => upd_unit w (Ok (set_dents (alter (chmod_node perm) p) (tr w)))
  | SFchmod h perm => obs w (Ok tt)          (* of a file, whose permissions stay 0600 *)
  | SStatBase base => (e_base e (tick w) base, bump w)
  | SNow => (e_clock e (tick w), bump w)
  | SGetpid => (e_pid e (tick w), bump w)
  | SRand => (e_rand e (tick w), bump w)
  | SRandom n => obs w (Ok (e_random e (tick w) n))
  | SFlock h =>
    match e_fault e (tick w) with
    | Some f => (Er (IOErr (f_err f)), bump w)
    | None => (Ok tt, World (tr w) (S (tick w)) (leases w) (next_lease w)
                        ({[h_ino h]} ∪ locks w))
    end
  | STryFlock h =>
    match e_fault e (tick w) with
    | Some f => (Er (IOErr (f_err f)), bump w)
    | None => if bool_decide (h_ino h ∈ locks w) then (Ok false, bump w)
              else (Ok true, World (tr w) (S (tick w)) (leases w) (next_lease w) ({[h_ino h]} ∪ locks w))
    end
  | SFunlock h =>
    (tt, World (tr w) (S (tick w)) (leases w) (next_lease w) (locks w ∖ {[h_ino h]}))
  | SLeaseNew =>
    (next_lease w, World (tr w) (S (tick w)) ({[next_lease w]} ∪ leases w)
                     (S (next_lease w)) (locks w))
  | SLeaseActive l => (bool_decide (l ∈ leases w), bump w)
  | SLeaseEnd l =>
    (tt, World (tr w) (S (tick w)) (leases w ∖ {[l]}) (next_lease w) (locks w))
  end.

(** A lock that another descriptor holds makes the caller wait. *)
Definition enabled {R} (c : sysop R) (w : world) : bool :=
  match c with SFlock h => negb (bool_decide (h_ino h ∈ locks w)) | _ => true end.

End exec.

(** ** Programs *)

Inductive prog (A : Type) : Type :=
| Ret (a : A)
| Sys {R : Type} (c : sysop R) (k : R -> prog A).
Arguments Ret {A} a.
Arguments Sys {A R} c k.

Fixpoint prog_bind {A B} (p : prog A) (k : A -> prog B) : prog B :=
  match p with
  | Ret a => k a
  | Sys c f => Sys c (fun r => prog_bind (f r) k)
  end.

#[global] Instance prog_mret : MRet prog := fun A a => Ret a.
#[global] Instance prog_mbind : MBind prog := fun A B k p => prog_bind p k.

Definition sys {R} (c : sysop R) : prog R := Sys c Ret.

(** [if err := c; err != nil { r } k] for a program returning a Go error. *)
Notation "'if_err' x ':=' c 'then' r 'else' k" :=
  (prog_bind c (fun o => match o with Some x => r | None => k end))
  (at level 10, x name, c at level 200, r at level 200, k at level 200,
   format "'[v' 'if_err'  x  ':='  c  'then'  r  'else' '//' k ']'").

(** [v, err := c; if err != nil { r } k] for a call. *)
Notation "'let_ok' v ':=' c 'orelse' x '=>' r 'in' k" :=
  (prog_bind c (fun o => match o with Ok v => k | Er x => r end))
  (at level 10, v name, x name, c at level 200, r at level 200, k at level 200,
   format "'[v' 'let_ok'  v  ':='  c  'orelse'  x  '=>'  r  'in' '//' k ']'").

(** [v, err := c; if err != nil { r } k] for a function returning a value and an error. *)
Notation "'let_val' v ':=' c 'orelse' x '=>' r 'in' k" :=
  (prog_bind c (fun o => match o with (v, None) => k | (_, Some x) => r end))
  (at level 10, v pattern, x name, c at level 200, r at level 200, k at level 200,
   format "'[v' 'let_val'  v  ':='  c  'orelse'  x  '=>'  r  'in' '//' k ']'").

(** A call whose error is returned as a Go error. *)
Definition call {R} (c : sysop (ior R)) : prog (option gerr) :=
  Sys c (fun r => Ret (match r with Ok _ => None | Er x => Some (EErrno x) end)).

Fixpoint run {A} (e : env) (p : prog A) (w : world) : A * world :=
  match p with
  | Ret a => (a, w)
  | Sys c k => let '(r, w') := exec e c w in run e (k r) w'
  end.
