(* ===== verification/Wp.v ===== *)
(** Reasoning about programs of calls.

    [wp R G p Q w]: started in [w], program [p] reaches a result that satisfies [Q], where
    before each of its calls other actors may have changed the world by [R] (the rely) and
    each of its own calls changes it by [G] (the guarantee).  Alone, with [R] equality, this
    is the postcondition of [run]; with [R] the guarantees of the other processes, the rule
    [pool_safe] composes processes that run concurrently, their calls interleaved in any
    order. *)
From S2P Require Import Prelude GoStr GoPath GoErr Fs.

Section wp.
Context (e : env) (R G : relation world).

Fixpoint wp {A} (p : prog A) (Q : A -> world -> Prop) (w : world) : Prop :=
  match p with
  | Ret a => forall w0, R w w0 -> Q a w0
  | Sys c k => forall w0, R w w0 -> G w0 (exec e c w0).2 /\ wp (k (exec e c w0).1) Q (exec e c w0).2
  end.

Lemma wp_mono {A} (p : prog A) (Q Q' : A -> world -> Prop) w :
  (forall a w', Q a w' -> Q' a w') -> wp p Q w -> wp p Q' w.
Proof.
  intros HQ. revert w; induction p as [a|X c k IH]; intros w; cbn.
  - intros H w0 HR. by apply HQ, H.
  - intros H w0 HR. destruct (H w0 HR) as [HG Hk]. split; [done|]. by apply IH.
Qed.

Context `{!PreOrder R}.

Lemma wp_rely {A} (p : prog A) Q w w' : R w w' -> wp p Q w -> wp p Q w'.
Proof. intros HR. destruct p; cbn; intros H w0 HR'; apply H; by etrans. Qed.

Lemma wp_bind {A B} (p : prog A) (k : A -> prog B) Q w :
  wp p (fun a w' => wp (k a) Q w') w -> wp (prog_bind p k) Q w.
Proof.
  revert w; induction p as [a|X c f IH]; intros w; cbn.
  - intros H. by apply H.
  - intros H w0 HR. destruct (H w0 HR) as [HG Hk]. split; [done|]. by apply IH.
Qed.

(** The postcondition holds of the sequential run. *)
Lemma wp_run {A} (p : prog A) Q w : wp p Q w -> Q (run e p w).1 (run e p w).2.
Proof.
  revert w; induction p as [a|X c k IH]; intros w; cbn.
  - intros H. by apply H.
  - intros H. destruct (H w) as [_ Hk]; [done|].
    destruct (exec e c w) as [r w'] eqn:E. cbn in *. by apply IH.
Qed.

End wp.

(** ** One process alone *)

Definition hoare {A} (e : env) (p : prog A) (Q : A -> world -> Prop) (w : world) : Prop :=
  wp e eq (fun _ _ => True) p Q w.

Section hoare.
Context (e : env).

Lemma hoare_ret {A} (a : A) (Q : A -> world -> Prop) w : Q a w -> hoare e (Ret a) Q w.
Proof. by intros H w0 <-. Qed.

Lemma hoare_sys {A X} (c : sysop X) (k : X -> prog A) Q w :
  hoare e (k (exec e c w).1) Q (exec e c w).2 -> hoare e (Sys c k) Q w.
Proof. by intros H w0 <-. Qed.

Lemma hoare_bind {A B} (p : prog A) (k : A -> prog B) Q w :
  hoare e p (fun a w' => hoare e (k a) Q w') w -> hoare e (prog_bind p k) Q w.
Proof. apply wp_bind, _. Qed.

Lemma hoare_mono {A} (p : prog A) (Q Q' : A -> world -> Prop) w :
  hoare e p Q w -> (forall a w', Q a w' -> Q' a w') -> hoare e p Q' w.
Proof. intros H HQ. by eapply wp_mono. Qed.

Lemma hoare_run {A} (p : prog A) Q w : hoare e p Q w <-> Q (run e p w).1 (run e p w).2.
Proof.
  split; [apply wp_run, _|].
  revert w; induction p as [a|X c k IH]; intros w; cbn.
  - by intros H w0 <-.
  - intros H w0 <-. split; [done|]. destruct (exec e c w) as [r w'] eqn:E. cbn in *. by apply IH.
Qed.

End hoare.

Lemma run_bind {A B} e (p : prog A) (k : A -> prog B) w :
  run e (prog_bind p k) w = run e (k (run e p w).1) (run e p w).2.
Proof.
  revert w; induction p as [a|X c f IH]; intros w; cbn; [done|].
  destruct (exec e c w) as [r w'] eqn:E. apply IH.
Qed.

Lemma run_mbind {A B} e (p : prog A) (k : A -> prog B) w :
  run e (p ≫= k) w = run e (k (run e p w).1) (run e p w).2.
Proof. apply run_bind. Qed.

Lemma run_sys {X} e (c : sysop X) w : run e (sys c) w = exec e c w.
Proof. cbn. by destruct (exec e c w). Qed.

Lemma run_call {X} e (c : sysop (ior X)) w :
  run e (call c) w =
  (match (exec e c w).1 with Ok _ => None | Er x => Some (EErrno x) end, (exec e c w).2).
Proof. cbn. by destruct (exec e c w). Qed.

(** Evaluates a program call by call. *)
Ltac rstep := rewrite ?run_bind, ?run_mbind, ?run_sys, ?run_call; cbn [exec]; cbn.

(** ** Processes running concurrently *)

Section pool.
Context {A : Type} (e : env).

(** One call of one process whose next call can be made. *)
Inductive pstep : relation (list (prog A) * world) :=
| PStep i X (c : sysop X) k ps w :
    ps !! i = Some (Sys c k) -> enabled c w = true ->
    pstep (ps, w) (<[i := k (exec e c w).1]> ps, (exec e c w).2).

(** A schedule picks the process that makes the next call; a pick that cannot move is
    skipped. *)
Definition pool_pick (s : list (prog A) * world) (i : nat) : list (prog A) * world :=
  match s.1 !! i with
  | Some (Sys c k) =>
    if enabled c s.2 then (<[i := k (exec e c s.2).1]> s.1, (exec e c s.2).2) else s
  | _ => s
  end.
Definition pool_run (picks : list nat) (s : list (prog A) * world) : list (prog A) * world :=
  foldl pool_pick s picks.

Lemma pool_run_steps picks s : rtc pstep s (pool_run picks s).
Proof.
  revert s; induction picks as [|i picks IH]; intros [ps w]; [done|].
  etrans; [|apply IH]. unfold pool_pick. cbn.
  destruct (ps !! i) as [[|X c k]|] eqn:E; try done.
  destruct (enabled c w) eqn:En; [|done]. apply rtc_once. by constructor.
Qed.

(** What a process of the pool has returned. *)
Definition pool_result (ps : list (prog A)) (i : nat) : option A :=
  match ps !! i with Some (Ret a) => Some a | _ => None end.

Lemma pool_result_Some ps i a : pool_result ps i = Some a -> ps !! i = Some (Ret a).
Proof. unfold pool_result. destruct (ps !! i) as [[|]|]; try done. by intros [= ->]. Qed.

Context (R G : nat -> relation world).
Context (HR : forall i, PreOrder (R i)).
Context (HRG : forall i j w w', i <> j -> G j w w' -> R i w w').

Lemma pool_step_safe (Q : nat -> A -> world -> Prop) ps w ps' w' :
  (forall i p, ps !! i = Some p -> wp e (R i) (G i) p (Q i) w) ->
  pstep (ps, w) (ps', w') ->
  forall i p, ps' !! i = Some p -> wp e (R i) (G i) p (Q i) w'.
Proof.
  intros Hall Hstep. inv Hstep as [j X c k ? ? Hj Hen]. intros i p.
  pose proof (Hall j _ Hj) as Hjp. destruct (Hjp w) as [HG Hk]; [done|].
  destruct (decide (i = j)) as [->|Hne].
  - rewrite list_lookup_insert_eq by (by eapply lookup_lt_Some). intros [= <-]. done.
  - rewrite list_lookup_insert_ne by done. intros Hi.
    eapply wp_rely; [apply _| |by apply Hall]. by eapply HRG.
Qed.

(** Every process keeps its specification along every interleaving. *)
Lemma pool_safe (Q : nat -> A -> world -> Prop) ps w ps' w' :
  (forall i p, ps !! i = Some p -> wp e (R i) (G i) p (Q i) w) ->
  rtc pstep (ps, w) (ps', w') ->
  forall i p, ps' !! i = Some p -> wp e (R i) (G i) p (Q i) w'.
Proof.
  intros Hall Hsteps. remember (ps, w) as s eqn:Hs. remember (ps', w') as s' eqn:Hs'.
  revert ps w Hs Hall. induction Hsteps as [s|s s1 s2 H1 H2 IH]; intros ps w -> Hall.
  - by simplify_eq.
  - destruct s1 as [ps1 w1]. eapply IH; [done|done|]. by eapply pool_step_safe.
Qed.

(** A property every guarantee preserves holds of the shared world along every interleaving. *)
Lemma pool_invariant (I : world -> Prop) (Q : nat -> A -> world -> Prop) ps w ps' w' :
  (forall i p, ps !! i = Some p -> wp e (R i) (G i) p (Q i) w) ->
  (forall i w w', G i w w' -> I w -> I w') ->
  rtc pstep (ps, w) (ps', w') -> I w -> I w'.
Proof.
  intros Hall HI Hsteps. remember (ps, w) as s eqn:Hs. remember (ps', w') as s' eqn:Hs'.
  revert ps w Hs Hall. induction Hsteps as [s|s s1 s2 H1 H2 IH]; intros ps w -> Hall Hw.
  - by simplify_eq.
  - destruct s1 as [ps1 w1]. eapply IH; [done|done| |].
    + by eapply pool_step_safe.
    + inv H1 as [j X c k ? ? Hj Hen]. pose proof (Hall j _ Hj) as Hjp.
      destruct (Hjp w) as [HG _]; [done|]. by eapply HI.
Qed.

End pool.

#[global] Arguments prog_bind : simpl never.
#[global] Arguments sys : simpl never.
#[global] Arguments call : simpl never.
#[global] Arguments wp : simpl never.
#[global] Arguments hoare : simpl never.
