(* ===== verification/FsFacts.v ===== *)
(** Facts about trees, calls and programs shared by the components that use them:
    how a tree may evolve ([evo]), the effect of each call on it, programs that only
    observe ([ro]) and the weakest preconditions with an invariant ([wpi]). *)
From S2P Require Import Prelude GoStr GoPath GoErr Fs Wp.

Create HintDb quiet.

(** ** Contents *)

(** The bytes of the regular file at a path. *)
Definition content (t : tree) (p : path) : option string :=
  match dents t !! p with Some (NFile i) => data t !! i | _ => None end.

Definition is_dir (t : tree) (p : path) : Prop := exists i m, dents t !! p = Some (NDir i m).

(** A dot file. *)
Definition hidden (p : path) : Prop := HasPrefix (Base p) "." = true.

(** ** Evolution of a tree

    Old contents stay, directories stay, and outside [X] nothing changes except that
    missing directories may have been made, none deeper than the directories of the
    mailbox layout (agents/<agent>/inbox/new). *)
Definition layout_depth : nat := 4.

Record evo (X : path -> Prop) (t t' : tree) : Prop := Evo {
  evo_data : data t ⊆ data t';
  evo_dirs : forall p i m, dents t !! p = Some (NDir i m) -> dents t' !! p = Some (NDir i m);
  evo_dents : forall p, ~ X p -> dents t' !! p = dents t !! p \/
                (dents t !! p = None /\ is_dir t' p /\ (length p <= layout_depth)%nat);
}.

Lemma evo_refl X t : evo X t t.
Proof. split; [done|done|by left]. Qed.

Lemma evo_trans X t1 t2 t3 : evo X t1 t2 -> evo X t2 t3 -> evo X t1 t3.
Proof.
  intros [Hd1 Hi1 Hp1] [Hd2 Hi2 Hp2]. split.
  - by etrans.
  - intros p i m H. by apply Hi2, Hi1.
  - intros p HX. destruct (Hp1 p HX) as [E1|(N1 & (i&m&D1) & L1)].
    + destruct (Hp2 p HX) as [E2|[N2 D2]]; [left|right]; [congruence|].
      split; [congruence|done].
    + right. split; [done|]. split; [|done]. exists i, m. by apply Hi2.
Qed.

#[global] Instance evo_preorder X : PreOrder (evo X).
Proof. split; [intros t; apply evo_refl|intros t1 t2 t3; apply evo_trans]. Qed.

Lemma evo_mono (X Y : path -> Prop) t t' : (forall p, X p -> Y p) -> evo X t t' -> evo Y t t'.
Proof. intros HXY [H1 H2 H3]. split; [done|done|]. intros p HY. apply H3. naive_solver. Qed.

Lemma evo_shrink (X Y : path -> Prop) t t' :
  evo X t t' -> (forall p, X p -> ~ Y p -> dents t' !! p = dents t !! p) -> evo Y t t'.
Proof.
  intros [H1 H2 H3] Hs. split; [done|done|]. intros p HY.
  destruct (decide (dents t' !! p = dents t !! p)) as [E|E]; [by left|].
  apply H3. intros HX. by apply E, Hs.
Qed.

Lemma evo_content X t t' p s : evo X t t' -> ~ X p -> content t p = Some s -> content t' p = Some s.
Proof.
  intros [Hd _ Hp] HX. unfold content. destruct (dents t !! p) as [[i| | |]|] eqn:E; try done.
  intros Hi. destruct (Hp p HX) as [E'|[? _]]; [|congruence]. rewrite E', E.
  by eapply lookup_weaken.
Qed.

Lemma evo_same_data X t t' : data t' = data t -> dents t' = dents t -> evo X t t'.
Proof. intros Hd He. split; [by rewrite Hd|by rewrite He|]. intros p _. left. by rewrite He. Qed.

(** Where a regular file is, evolution outside [X] keeps the very entry. *)
Lemma evo_entry X t t' p n :
  evo X t t' -> ~ X p -> dents t !! p = Some n -> dents t' !! p = Some n.
Proof. intros [_ _ Hp] HX E. destruct (Hp p HX) as [->|[? _]]; congruence. Qed.

(** Below the directories of the layout, nothing but [X] changes. *)
Lemma evo_deep X t t' p :
  evo X t t' -> ~ X p -> (layout_depth < length p)%nat -> dents t' !! p = dents t !! p.
Proof. intros [_ _ Hp] HX Hl. destruct (Hp p HX) as [?|(_ & _ & ?)]; [done|lia]. Qed.

Lemma evo_dir X t t' p : evo X t t' -> is_dir t p -> is_dir t' p.
Proof. intros H (i&m&E). exists i, m. by eapply evo_dirs. Qed.

Lemma walk_mono (m m' : gmap path node) pre rest :
  (forall p i k, m !! p = Some (NDir i k) -> m' !! p = Some (NDir i k)) ->
  walk m pre rest = None -> walk m' pre rest = None.
Proof.
  intros Hm. revert pre; induction rest as [|c rest IH]; intros pre; [done|].
  destruct rest as [|d rest]; [done|]. cbn [walk].
  destruct (m !! (pre ++ [c])) as [[| i k| |]|] eqn:E; try done.
  rewrite (Hm _ _ _ E). apply IH.
Qed.

Lemma evo_parent X t t' p : evo X t t' -> t_parent t p = None -> t_parent t' p = None.
Proof.
  intros H. unfold t_parent. destruct (escapes p); [done|]. apply walk_mono. by eapply evo_dirs.
Qed.

(** ** Single changes as evolutions *)

Lemma evo_add_dir t p perm :
  dents t !! p = None -> (length p <= layout_depth)%nat ->
  evo (fun _ => False) t (add_dir t p perm).
Proof.
  intros Hn Hl. split; cbn.
  - done.
  - intros q i m E. rewrite lookup_insert_ne by congruence. done.
  - intros q _. destruct (decide (q = p)) as [->|Hne].
    + right. split; [done|]. split; [|done]. exists (next_dir t), perm. cbn.
      by rewrite lookup_insert_eq.
    + left. by rewrite lookup_insert_ne.
Qed.

Lemma evo_add_file t p : dents t !! p = None -> evo (eq p) t (add_file t p).
Proof.
  intros Hn. split; cbn.
  - apply insert_subseteq. apply not_elem_of_dom.
    exact (is_fresh (dom (data t))).
  - intros q i m E. rewrite lookup_insert_ne by congruence. done.
  - intros q Hq. left. by rewrite lookup_insert_ne.
Qed.

Lemma mkdir_prefixes_evo t pre rest perm :
  (length pre + length rest <= layout_depth)%nat ->
  evo (fun _ => False) t (mkdir_prefixes t pre rest perm).1.
Proof.
  revert t pre; induction rest as [|c rest IH]; intros t pre Hl; [done|]. cbn in *.
  assert (length (pre ++ [c]) = S (length pre)) as Hpc by (rewrite length_app; cbn; lia).
  destruct (dents t !! (pre ++ [c])) as [[| | |]|] eqn:E; try done.
  - apply IH. lia.
  - etrans; [apply evo_add_dir; [done|lia]|]. apply IH. lia.
Qed.

Lemma t_mkdirall_evo t p perm :
  (length p <= layout_depth)%nat -> evo (fun _ => False) t (t_mkdirall t p perm).1.
Proof.
  intros Hl. unfold t_mkdirall. destruct (escapes p); [done|]. by apply mkdir_prefixes_evo.
Qed.

(** MkdirAll leaves the data alone. *)
Lemma mkdir_prefixes_data t pre rest perm :
  data (mkdir_prefixes t pre rest perm).1 = data t.
Proof.
  revert t pre; induction rest as [|c rest IH]; intros t pre; [done|]. cbn.
  destruct (dents t !! (pre ++ [c])) as [[| | |]|]; try done.
  by rewrite IH.
Qed.

Lemma mkdir_prefixes_dirs t pre rest perm p i m :
  dents t !! p = Some (NDir i m) -> dents (mkdir_prefixes t pre rest perm).1 !! p = Some (NDir i m).
Proof.
  revert t pre; induction rest as [|c rest IH]; intros t pre Hp; [done|]. cbn.
  destruct (dents t !! (pre ++ [c])) as [[| | |]|] eqn:E; try done; [by apply IH|].
  apply IH. cbn. by rewrite lookup_insert_ne by congruence.
Qed.

(** When it succeeds, the whole path is made of directories. *)
Lemma mkdir_prefixes_walk t pre rest perm x :
  (mkdir_prefixes t pre rest perm).2 = None ->
  walk (dents (mkdir_prefixes t pre rest perm).1) pre (rest ++ [x]) = None.
Proof.
  revert t pre; induction rest as [|c rest IH]; intros t pre; [done|].
  cbn [mkdir_prefixes]. intros H.
  assert (exists t', mkdir_prefixes t pre (c :: rest) perm =
             mkdir_prefixes t' (pre ++ [c]) rest perm /\ is_dir t' (pre ++ [c]))
    as (t' & Ht' & i & m & Hdir).
  { cbn. destruct (dents t !! (pre ++ [c])) as [[| i m| |]|] eqn:E; try done.
    - exists t. split; [done|by exists i, m].
    - exists (add_dir t (pre ++ [c]) perm). split; [done|].
      exists (next_dir t), perm. cbn. by rewrite lookup_insert_eq. }
  cbn [mkdir_prefixes] in Ht'. rewrite Ht' in *.
  cbn [app walk]. destruct (rest ++ [x]) eqn:E; [by destruct rest|].
  rewrite (mkdir_prefixes_dirs t' (pre ++ [c]) rest perm _ _ _ Hdir).
  by apply IH.
Qed.

Lemma t_mkdirall_parent t p x perm :
  (t_mkdirall t p perm).2 = None -> escapes (p ++ [x]) = false ->
  t_parent (t_mkdirall t p perm).1 (p ++ [x]) = None.
Proof.
  unfold t_mkdirall, t_parent. destruct (escapes p) eqn:E; [done|]. intros H ->.
  by apply mkdir_prefixes_walk.
Qed.

(** ** Looking up *)

Lemma t_node_Ok_inv t p n : p <> [] -> t_node t p = Ok n ->
  t_parent t p = None /\ dents t !! p = Some n.
Proof.
  intros Hp. unfold t_node. destruct p as [|c p]; [done|].
  destruct (t_parent t (c :: p)); [done|]. destruct (dents t !! (c :: p)); [|done].
  by intros [= ->].
Qed.

Lemma t_node_lookup t p n : p <> [] -> t_parent t p = None -> dents t !! p = Some n ->
  t_node t p = Ok n.
Proof. intros Hp Hpar E. unfold t_node. destruct p; [done|]. by rewrite Hpar, E. Qed.

Lemma t_node_absent t p : p <> [] -> t_parent t p = None -> dents t !! p = None ->
  t_node t p = Er ENOENT.
Proof. intros Hp Hpar E. unfold t_node. destruct p; [done|]. by rewrite Hpar, E. Qed.

(** A failed lookup with ENOENT means the entry is absent or a directory above it is. *)
Lemma t_node_Er t p e : t_node t p = Er e -> p <> [] /\
  (t_parent t p = Some e \/ (t_parent t p = None /\ dents t !! p = None /\ e = ENOENT)).
Proof.
  unfold t_node. destruct p as [|c p]; [done|].
  destruct (t_parent t (c :: p)) eqn:E; [intros [= ->]; by split; [|left]|].
  destruct (dents t !! (c :: p)) eqn:E'; [done|]. intros [= <-]. split; [done|by right].
Qed.

Lemma snoc_not_nil {A} (p : list A) x : p ++ [x] <> [].
Proof. by destruct p. Qed.

#[export] Hint Resolve snoc_not_nil : amq.

(** ** Programs that only observe *)

Definition ctl_eq (w w' : world) : Prop :=
  leases w' = leases w /\ next_lease w' = next_lease w /\ locks w' = locks w.

Lemma ctl_eq_refl w : ctl_eq w w.
Proof. done. Qed.
Lemma ctl_eq_trans w1 w2 w3 : ctl_eq w1 w2 -> ctl_eq w2 w3 -> ctl_eq w1 w3.
Proof. intros (?&?&?) (?&?&?). repeat split; congruence. Qed.
Lemma ctl_eq_set_tree t w : ctl_eq w (set_tree t w).
Proof. done. Qed.
#[export] Hint Resolve ctl_eq_refl ctl_eq_set_tree : amq.

(** The calls that observe. *)
Definition obs_op {X} (c : sysop X) : Prop :=
  match c with
  | SLstat _ | SStat _ | SOpen _ | SOpenNoFollow _ | SFstat _ | SReadAll _ | SReadDir _
  | SFsync _ | SClose _ | SStatBase _ | SNow | SGetpid | SRand | SFchmod _ _ | SRandom _ | SLeaseActive _ => True
  | _ => False
  end.

Lemma obs_op_spec {X} (c : sysop X) e w :
  obs_op c -> tr (exec e c w).2 = tr w /\ ctl_eq w (exec e c w).2.
Proof.
  destruct c; intros []; cbn; unfold obs; try done; by destruct (e_fault e (tick w)).
Qed.

Fixpoint ro {A} (p : prog A) : Prop :=
  match p with
  | Ret _ => True
  | Sys c k => obs_op c /\ forall r, ro (k r)
  end.

Lemma ro_bind {A B} (p : prog A) (k : A -> prog B) :
  ro p -> (forall a, ro (k a)) -> ro (prog_bind p k).
Proof.
  intros Hp Hk. induction p as [a|X c f IH]; [apply Hk|].
  destruct Hp as [Hc Hf]. split; [done|]. intros r. by apply IH.
Qed.

Lemma ro_sys {X} (c : sysop X) : obs_op c -> ro (sys c).
Proof. by intros H; split. Qed.
Lemma ro_call {X} (c : sysop (ior X)) : obs_op c -> ro (call c).
Proof. by intros H; split. Qed.

#[export] Hint Extern 0 (obs_op _) => exact Logic.I : amq.

(** Decides that a program only observes, using the [ro] lemmas of the functions it calls. *)
Ltac ro_tac :=
  cbn beta iota;
  lazymatch goal with
  | |- True => exact I
  | |- ro (Ret _) => exact I
  | |- ro (prog_bind _ _) => apply ro_bind; [ro_tac|intros ?; ro_tac]
  | |- ro (mbind _ _) => apply ro_bind; [ro_tac|intros ?; ro_tac]
  | |- ro (sys _) => apply ro_sys; auto with amq
  | |- ro (call _) => apply ro_call; auto with amq
  | |- ro (match ?x with _ => _ end) => destruct x; ro_tac
  | |- ro (if ?x then _ else _) => destruct x; ro_tac
  | |- ro (let _ := _ in _) => cbv zeta; ro_tac
  | |- ro _ => auto with amq
  end.

(** ** What a program may return

    Whatever the calls answer, the result satisfies [P]. *)
Fixpoint returns {A} (P : A -> Prop) (p : prog A) : Prop :=
  match p with
  | Ret a => P a
  | Sys c k => forall r, returns P (k r)
  end.

Lemma returns_mono {A} (P Q : A -> Prop) (p : prog A) :
  (forall a, P a -> Q a) -> returns P p -> returns Q p.
Proof. intros HPQ. induction p as [a|X c k IH]; cbn; eauto. Qed.

Lemma returns_bind {A B} (P : A -> Prop) (Q : B -> Prop) (p : prog A) (k : A -> prog B) :
  returns P p -> (forall a, P a -> returns Q (k a)) -> returns Q (prog_bind p k).
Proof.
  intros Hp Hk. induction p as [a|X c f IH]; [by apply Hk|]. intros r. apply IH, Hp.
Qed.

Lemma returns_any {A} (p : prog A) : returns (fun _ => True) p.
Proof. by induction p. Qed.

Lemma returns_sys {X} (c : sysop X) : returns (fun _ => True) (sys c).
Proof. apply returns_any. Qed.

Lemma returns_run {A} e (P : A -> Prop) (p : prog A) w : returns P p -> P (run e p w).1.
Proof.
  revert w; induction p as [a|X c k IH]; intros w H; [done|]. cbn in *.
  destruct (exec e c w). by apply IH.
Qed.

(** ** Weakest preconditions with an invariant of every intermediate tree *)

Section wpi.
Context (e : env).

Definition wpi {A} (I : tree -> Prop) (p : prog A) (Q : A -> world -> Prop) (w : world) : Prop :=
  wp e eq (fun _ w' => I (tr w')) p Q w.

Lemma wpi_ret {A} I (a : A) (Q : A -> world -> Prop) w : Q a w -> wpi I (Ret a) Q w.
Proof. by intros H w0 <-. Qed.

Lemma wpi_sys {A X} I (c : sysop X) (k : X -> prog A) Q w :
  I (tr (exec e c w).2) -> wpi I (k (exec e c w).1) Q (exec e c w).2 -> wpi I (Sys c k) Q w.
Proof. by intros HI H w0 <-. Qed.

Lemma wpi_bind {A B} I (p : prog A) (k : A -> prog B) Q w :
  wpi I p (fun a w' => wpi I (k a) Q w') w -> wpi I (prog_bind p k) Q w.
Proof. apply wp_bind, _. Qed.

Lemma wpi_mono {A} I (p : prog A) (Q Q' : A -> world -> Prop) w :
  wpi I p Q w -> (forall a w', Q a w' -> Q' a w') -> wpi I p Q' w.
Proof. intros H HQ. by eapply wp_mono. Qed.

Lemma wpi_run {A} I (p : prog A) Q w : wpi I p Q w -> Q (run e p w).1 (run e p w).2.
Proof. apply wp_run, _. Qed.

(** The invariant may be weakened. *)
Lemma wpi_inv_mono {A} (I J : tree -> Prop) (p : prog A) Q w :
  (forall t, I t -> J t) -> wpi I p Q w -> wpi J p Q w.
Proof.
  intros HIJ. unfold wpi. revert w; induction p as [a|X c k IH]; intros w H; [done|].
  intros w0 HR. destruct (H w0 HR) as [HG Hk]. split; [by apply HIJ|]. by apply IH.
Qed.

(** A program that only observes returns with the tree it found. *)
Lemma wpi_ro {A} I (p : prog A) w :
  ro p -> I (tr w) -> wpi I p (fun _ w' => tr w' = tr w /\ ctl_eq w w') w.
Proof.
  intros Hp HI. assert (forall w1, tr w1 = tr w -> ctl_eq w w1 ->
    wpi I p (fun _ w' => tr w' = tr w /\ ctl_eq w w') w1) as H; [|by apply H].
  induction p as [a|X c k IH]; intros w1 Ht Hc.
  - by apply wpi_ret.
  - destruct Hp as [Hop Hk]. destruct (obs_op_spec c e w1 Hop) as [Ht1 Hc1].
    apply wpi_sys; [by rewrite Ht1, Ht|]. apply IH; [done|congruence|].
    by eapply ctl_eq_trans.
Qed.

Lemma run_ro {A} (p : prog A) w : ro p -> tr (run e p w).2 = tr w /\ ctl_eq w (run e p w).2.
Proof.
  intros H. pose proof (wpi_ro (fun _ => True) p w H Logic.I) as Hw.
  by apply wpi_run in Hw.
Qed.

(** What the program returns, whatever the calls answer, may be added to the result. *)
Lemma wpi_returns {A} I (P : A -> Prop) (p : prog A) Q w :
  returns P p -> wpi I p Q w -> wpi I p (fun a w' => P a /\ Q a w') w.
Proof.
  unfold wpi. revert w; induction p as [a|X c k IH]; intros w HP H.
  - intros w0 HR. split; [done|]. by apply H.
  - intros w0 HR. destruct (H w0 HR) as [HG Hk]. split; [done|]. by apply IH.
Qed.

(** A read-only step inside a larger program. *)
Lemma wpi_ro_bind {A B} I (p : prog A) (k : A -> prog B) Q w :
  ro p -> I (tr w) ->
  (forall a w', tr w' = tr w -> ctl_eq w w' -> wpi I (k a) Q w') ->
  wpi I (prog_bind p k) Q w.
Proof.
  intros Hp HI Hk. apply wpi_bind. eapply wpi_mono; [by apply wpi_ro|].
  intros a w' [? ?]. by apply Hk.
Qed.

Lemma wpi_mkdirall I p perm w :
  (length p <= layout_depth)%nat ->
  (forall t, evo (fun _ => False) (tr w) t -> I t) ->
  wpi I (call (SMkdirAll p perm)) (fun r w' =>
    evo (fun _ => False) (tr w) (tr w') /\ data (tr w') = data (tr w) /\ ctl_eq w w' /\
    (r = None -> (t_mkdirall (tr w) p perm).2 = None /\ tr w' = (t_mkdirall (tr w) p perm).1)) w.
Proof.
  intros Hl HI.
  assert (forall q, data (t_mkdirall (tr w) q perm).1 = data (tr w)) as Hdata.
  { intros q. unfold t_mkdirall. destruct (escapes q); [done|]. apply mkdir_prefixes_data. }
  apply wpi_sys.
  - cbn. destruct (e_fault e (tick w)); cbn; [apply HI, t_mkdirall_evo; rewrite length_take; lia|].
    pose proof (t_mkdirall_evo (tr w) p perm Hl) as Hev.
    destruct (t_mkdirall (tr w) p perm). by apply HI.
  - apply wpi_ret. cbn. destruct (e_fault e (tick w)) as [f|]; cbn.
    + split; [apply t_mkdirall_evo; rewrite length_take; lia|]. split; [apply Hdata|]. done.
    + pose proof (t_mkdirall_evo (tr w) p perm Hl) as Hev. specialize (Hdata p).
      destruct (t_mkdirall (tr w) p perm) as [t [x|]]; cbn in *; done.
Qed.

End wpi.

(** ** The worlds a run passes through *)

(** The world after each call. *)
Fixpoint trace {A} (e : env) (p : prog A) (w : world) : list world :=
  match p with
  | Ret _ => []
  | Sys c k => let '(r, w') := exec e c w in w' :: trace e (k r) w'
  end.

(** An invariant of [wpi] holds at every point where the process may be stopped. *)
Lemma wpi_trace {A} e I (p : prog A) Q w :
  wpi e I p Q w -> Forall (fun w' => I (tr w')) (trace e p w).
Proof.
  unfold wpi. revert w; induction p as [a|X c k IH]; intros w H; [by constructor|].
  destruct (H w eq_refl) as [HG Hk]. cbn. destruct (exec e c w) as [r w'] eqn:E. cbn in *.
  constructor; [done|]. by apply IH.
Qed.

#[global] Arguments wpi : simpl never.
#[global] Arguments returns : simpl never.

(** Stepping through a program. *)
Ltac wret := apply wpi_ret; cbn beta iota.
Ltac wbind := apply wpi_bind; cbn beta iota.
Ltac wexec := cbn [exec]; unfold upd_unit, upd, obs; cbn.

(** ** The calls a program makes

    Whatever the calls answer, each call the program makes satisfies [P]. *)
Fixpoint calls {A} (P : forall X, sysop X -> Prop) (p : prog A) : Prop :=
  match p with
  | Ret _ => True
  | @Sys _ X c k => P X c /\ forall r, calls P (k r)
  end.

Lemma calls_mono {A} (P Q : forall X, sysop X -> Prop) (p : prog A) :
  (forall X c, P X c -> Q X c) -> calls P p -> calls Q p.
Proof. intros HPQ. induction p as [a|X c k IH]; cbn; [done|]. intros [? ?]. eauto. Qed.

Lemma calls_bind {A B} P (p : prog A) (k : A -> prog B) :
  calls P p -> (forall a, calls P (k a)) -> calls P (prog_bind p k).
Proof.
  intros Hp Hk. induction p as [a|X c f IH]; [apply Hk|].
  destruct Hp as [Hc Hf]. split; [done|]. intros r. by apply IH.
Qed.

Lemma calls_sys {X} (P : forall X, sysop X -> Prop) (c : sysop X) : P X c -> calls P (sys c).
Proof. by split. Qed.
Lemma calls_call {X} (P : forall X, sysop X -> Prop) (c : sysop (ior X)) : P _ c -> calls P (call c).
Proof. by split. Qed.

Lemma ro_calls {A} (p : prog A) : ro p <-> calls (fun X => @obs_op X) p.
Proof.
  induction p as [a|X c k IH]; [done|]. cbn. split; intros [Hc Hk]; split; try done; intros r;
    by apply IH.
Qed.

(** ** Programs with a decisive answer

    While all answers satisfy [ok] the result satisfies [P]; from the first that does not,
    the result satisfies [Q], whatever the remaining answers are. *)
Fixpoint decided {A} (ok : forall X, sysop X -> X -> Prop) (P Q : A -> Prop) (p : prog A) : Prop :=
  match p with
  | Ret a => P a
  | @Sys _ X c k => forall r, (ok X c r -> decided ok P Q (k r)) /\ (~ ok X c r -> returns Q (k r))
  end.

Lemma decided_bind {A B} ok (P Q : A -> Prop) (P' Q' : B -> Prop) (p : prog A) (k : A -> prog B) :
  decided ok P Q p -> (forall a, P a -> decided ok P' Q' (k a)) ->
  (forall a, Q a -> returns Q' (k a)) -> decided ok P' Q' (prog_bind p k).
Proof.
  intros Hp Hk Hq. induction p as [a|X c f IH]; [by apply Hk|]. intros r.
  destruct (Hp r) as [H1 H2]. split; intros Hr; [by apply IH, H1|].
  by eapply returns_bind; [by apply H2|].
Qed.

(** A program whose calls cannot be decisive. *)
Lemma decided_calls {A} ok (P Q : A -> Prop) (p : prog A) :
  calls (fun X c => forall r, ok X c r) p -> returns P p -> decided ok P Q p.
Proof.
  induction p as [a|X c k IH]; [done|]. intros [Hc Hk] H r. split; intros Hr; [by apply IH|].
  by destruct Hr.
Qed.

(** Errors that do not say anything became visible. *)
Definition quiet (o : option gerr) : Prop :=
  match o with Some x => visible_err x = false | None => True end.

Lemma returns_call_quiet {X} (c : sysop (ior X)) : returns quiet (call c).
Proof. by intros [a|x]. Qed.
#[export] Hint Resolve returns_call_quiet : quiet.

(** Decides that a program returns only quiet errors, using the lemmas of what it calls. *)
Ltac quiet_tac :=
  cbn beta iota zeta;
  lazymatch goal with
  | |- returns _ (Ret _) =>
      unfold returns; cbn in *; rewrite ?visible_err_Errorf; first [done|naive_solver|by case_match|repeat case_match; simplify_eq; cbn in *; naive_solver]
  | |- returns _ (prog_bind _ _) =>
      eapply returns_bind; [first [solve [eauto 2 with quiet]|apply returns_any]|intros ? ?; quiet_tac]
  | |- returns _ (mbind _ _) =>
      eapply returns_bind; [first [solve [eauto 2 with quiet]|apply returns_any]|intros ? ?; quiet_tac]
  | |- returns _ (match ?x with _ => _ end) => destruct x eqn:?; quiet_tac
  | |- returns _ (if ?x then _ else _) => destruct x; quiet_tac
  | |- returns _ _ => eauto with quiet
  end.

#[global] Arguments calls : simpl never.
#[global] Arguments decided : simpl never.

(** ** Renaming without replacing *)

Lemma rebase_under p q k : p `prefix_of` k -> q `prefix_of` rebase p q k.
Proof. intros H. unfold rebase. rewrite bool_decide_eq_true_2 by done. by apply prefix_app_r. Qed.

Lemma rebase_other p q k : ~ p `prefix_of` k -> rebase p q k = k.
Proof. intros H. unfold rebase. by rewrite bool_decide_eq_false_2. Qed.

(** Moving a directory leaves what is neither below it nor below its new place. *)
Lemma move_subtree_other p q m k :
  ~ p `prefix_of` k -> ~ q `prefix_of` k -> move_subtree p q m !! k = m !! k.
Proof.
  intros Hp Hq. unfold move_subtree.
  set (l := (fun kn => (rebase p q kn.1, kn.2)) <$> map_to_list m).
  assert (forall v, (k, v) ∈ l <-> m !! k = Some v) as Hl.
  { intros v. unfold l. rewrite list_elem_of_fmap. split.
    - intros ([k' v'] & [= Hk ->] & Hin%elem_of_map_to_list).
      destruct (decide (p `prefix_of` k')) as [Hpre|Hpre].
      + exfalso. apply Hq. rewrite Hk. by apply rebase_under.
      + by rewrite rebase_other in Hk by done; subst.
    - intros Hv. exists (k, v). cbn. rewrite rebase_other by done.
      split; [done|]. by apply elem_of_map_to_list. }
  destruct (list_to_map l !! k) as [v|] eqn:E.
  - by apply elem_of_list_to_map_2, Hl in E.
  - apply not_elem_of_list_to_map in E. destruct (m !! k) as [v|] eqn:Ev; [|done].
    exfalso. apply E. apply list_elem_of_fmap. exists (k, v). split; [done|]. by apply Hl.
Qed.

Lemma move_subtree_source p q m :
  ~ q `prefix_of` p -> move_subtree p q m !! p = None.
Proof.
  intros Hq. unfold move_subtree. apply not_elem_of_list_to_map. intros Hin.
  apply list_elem_of_fmap in Hin as (kv & Hk & Hin).
  apply list_elem_of_fmap in Hin as ([k' v'] & -> & _). cbn in Hk.
  destruct (decide (p `prefix_of` k')) as [Hpre|Hpre].
  - apply Hq. rewrite Hk. by apply rebase_under.
  - rewrite rebase_other in Hk by done. by subst.
Qed.

(** What a successful rename does, whatever kind of entry is moved. *)
Lemma rename_noreplace_effect t p q t' :
  p <> [] -> q <> [] -> t_rename_noreplace t p q = Ok t' ->
  dents t !! p <> None /\ dents t !! q = None /\ data t' = data t /\
  (~ q `prefix_of` p -> dents t' !! p = None) /\
  (forall k, ~ p `prefix_of` k -> ~ q `prefix_of` k -> dents t' !! k = dents t !! k).
Proof.
  intros Hp Hq. unfold t_rename_noreplace. destruct (t_node t p) as [n|] eqn:En; [|done].
  apply t_node_Ok_inv in En as [_ En]; [|done].
  destruct (t_node t q) as [|x] eqn:Eq; [done|]. apply t_node_Er in Eq as [_ Eq].
  destruct x; try done. destruct (t_parent t q) eqn:Hpar; [done|].
  destruct Eq as [?|(_ & Hn & _)]; [done|]. unfold move_node.
  intros Hm. split; [congruence|]. split; [done|].
  assert (forall i m, n = NDir i m -> t' = set_dents (move_subtree p q) t) as Hdir.
  { intros i m ->. case_bool_decide; [done|]. by injection Hm as <-. }
  assert ((forall i m, n <> NDir i m) -> t' = set_dents (fun m => <[q := n]> (delete p m)) t) as Hfile.
  { intros Hnd. destruct n; try (by injection Hm as <-). by destruct (Hnd i perm). }
  destruct (decide (node_kind n = KDir)) as [Hk|Hk].
  - destruct n as [|i m| |]; try done. rewrite (Hdir i m eq_refl). cbn.
    split; [done|]. split; [by apply move_subtree_source|]. intros. by apply move_subtree_other.
  - rewrite Hfile by (by intros i m ->). cbn. split; [done|]. split.
    + intros Hnp. rewrite lookup_insert_ne by (intros <-; by apply Hnp).
      by rewrite lookup_delete_eq.
    + intros k Hkp Hkq. rewrite lookup_insert_ne by (intros <-; by apply Hkq).
      rewrite lookup_delete_ne; [done|]. intros <-; by apply Hkp.
Qed.
