(* ===== verification/Names.v ===== *)
(** Agent handles, message file names and mailbox paths
    (internal/fsq/filename.go and the first part of internal/fsq/layout.go). *)
From S2P Require Import Prelude GoStr GoPath GoErr.

(** ** Message file names *)

(** filename.go: the checks in the order of the source, the message of the first that fails. *)
Definition ValidateMessageFilename (filename : string) : option gerr :=
  if bool_decide (filename = "") then Some (EMsg "empty filename")
  else if HasPrefix filename "." then Some (EMsg "dotfile names are not allowed")
  else if IsAbs filename then Some (EMsg "absolute path is not allowed")
  else if Contains filename "/" || Contains filename BACKSLASH
       then Some (EMsg "path separators are not allowed")
  else if Contains filename NUL then Some (EMsg "NUL byte is not allowed")
  else if bool_decide (filename = ".") || bool_decide (filename = "..")
       then Some (EMsg "path traversal is not allowed")
  else if negb (HasSuffix filename ".md") then Some (EMsg "filename must end with .md")
  else None.

(** ** Agent handles *)

(** The character set of [handleRe]. *)
Definition handle_char (c : ascii) : bool :=
  is_lower c || is_digit c || bool_decide (c = chr 95) || bool_decide (c = chr 45).

(** [handleRe.MatchString]: one or more characters of the set. *)
Definition handleRe_match (s : string) : bool :=
  negb (bool_decide (s = "")) && str_forallb handle_char s.

Definition validateLegacyInspectableHandle (agent : string) : option gerr :=
  if bool_decide (agent = "") || bool_decide (TrimSpace agent = "")
  then Some (EMsg "agent handle is empty")
  else if Contains agent ".." || Contains agent "/"
  then Some (EMsg "agent handle contains path traversal")
  else if negb (handleRe_match agent) then Some (EMsg "agent handle must match [a-z0-9_-]+")
  else None.

Definition ValidateLegacyHandleForInspection (agent : string) : option gerr :=
  validateLegacyInspectableHandle agent.

Definition ValidateHandle (agent : string) : option gerr :=
  match validateLegacyInspectableHandle agent with
  | Some e => Some e
  | None => if HasPrefix agent "-" then Some (EMsg "agent handle must not start with '-'")
            else None
  end.

(** ** Mailbox leaves *)

Inductive MailboxLeaf :=
| MailboxInboxTmp | MailboxInboxNew | MailboxInboxCur | MailboxOutboxSent
| MailboxDLQTmp | MailboxDLQNew | MailboxDLQCur | MailboxReceipts.

#[global] Instance MailboxLeaf_eq_dec : EqDecision MailboxLeaf.
Proof. solve_decision. Defined.

Definition leaf_string (l : MailboxLeaf) : string :=
  match l with
  | MailboxInboxTmp => "inbox/tmp"
  | MailboxInboxNew => "inbox/new"
  | MailboxInboxCur => "inbox/cur"
  | MailboxOutboxSent => "outbox/sent"
  | MailboxDLQTmp => "dlq/tmp"
  | MailboxDLQNew => "dlq/new"
  | MailboxDLQCur => "dlq/cur"
  | MailboxReceipts => "receipts"
  end.

Definition requiredMailboxLeaves : list MailboxLeaf :=
  [MailboxInboxTmp; MailboxInboxNew; MailboxInboxCur; MailboxOutboxSent;
   MailboxDLQTmp; MailboxDLQNew; MailboxDLQCur; MailboxReceipts].

(** filepath.Join(root, "agents", agent, leaf) *)
Definition AgentMailboxPath (root : path) (agent : string) (leaf : MailboxLeaf) : path :=
  Join_under root ["agents"; agent; leaf_string leaf].

Definition MailboxRootRelativePath (agent : string) (leaf : MailboxLeaf) : path :=
  Join ["agents"; agent; leaf_string leaf].

Definition AgentBase (root : path) (agent : string) : path := Join_under root ["agents"; agent].
Definition AgentInboxTmp (root : path) (agent : string) := AgentMailboxPath root agent MailboxInboxTmp.
Definition AgentInboxNew (root : path) (agent : string) := AgentMailboxPath root agent MailboxInboxNew.
Definition AgentInboxCur (root : path) (agent : string) := AgentMailboxPath root agent MailboxInboxCur.
Definition AgentOutboxSent (root : path) (agent : string) := AgentMailboxPath root agent MailboxOutboxSent.
Definition AgentDLQTmp (root : path) (agent : string) := AgentMailboxPath root agent MailboxDLQTmp.
Definition AgentDLQNew (root : path) (agent : string) := AgentMailboxPath root agent MailboxDLQNew.
Definition AgentDLQCur (root : path) (agent : string) := AgentMailboxPath root agent MailboxDLQCur.
Definition AgentReceipts (root : path) (agent : string) := AgentMailboxPath root agent MailboxReceipts.

(** ** What the checks guarantee *)

Lemma Contains_false_mem (s : string) (c : ascii) :
  Contains s (String c "") = false -> str_mem c s = false.
Proof. by rewrite str_mem_Contains. Qed.

Lemma ValidateMessageFilename_None f :
  ValidateMessageFilename f = None ->
  HasPrefix f "." = false /\ str_mem slash f = false /\ HasSuffix f ".md" = true.
Proof.
  unfold ValidateMessageFilename. repeat (case_match; try done). intros _.
  repeat split; try done.
  - match goal with H : Contains _ _ || _ = false |- _ => apply orb_false_iff in H as [H _] end.
    by apply (Contains_false_mem f slash).
  - by apply negb_false_iff.
Qed.

(** An accepted file name is one path component, and not hidden. *)
Lemma filename_plain f : ValidateMessageFilename f = None -> plain f = true.
Proof.
  intros (Hdot & Hslash & Hmd)%ValidateMessageFilename_None.
  apply plain_spec. repeat split; [| | |done]; by intros ->.
Qed.

Lemma filename_not_hidden f : ValidateMessageFilename f = None -> HasPrefix f "." = false.
Proof. by intros (?&_)%ValidateMessageFilename_None. Qed.

Lemma handle_char_not_slash : handle_char slash = false.
Proof. done. Qed.
Lemma handle_char_not_dot : handle_char (chr 46) = false.
Proof. done. Qed.

Lemma legacy_handle_None a :
  validateLegacyInspectableHandle a = None -> a <> "" /\ str_forallb handle_char a = true.
Proof.
  unfold validateLegacyInspectableHandle.
  destruct (bool_decide (a = "") || _); [done|]. destruct (Contains a ".." || _); [done|].
  destruct (handleRe_match a) eqn:E; [|done]. intros _.
  apply andb_true_iff in E as [E ?]. split; [|done].
  apply negb_true_iff in E. by apply bool_decide_eq_false in E.
Qed.

(** A handle accepted even for inspection is one path component. *)
Lemma legacy_handle_plain a : validateLegacyInspectableHandle a = None -> plain a = true.
Proof.
  intros [Hne Hall]%legacy_handle_None. rewrite str_forallb_mem in Hall. apply plain_spec.
  split; [done|]. split; [|split].
  - intros ->. by specialize (Hall (chr 46) eq_refl).
  - intros ->. by specialize (Hall (chr 46) eq_refl).
  - destruct (str_mem slash a) eqn:E; [|done]. by apply Hall in E.
Qed.

Lemma ValidateHandle_None a :
  ValidateHandle a = None -> validateLegacyInspectableHandle a = None /\ HasPrefix a "-" = false.
Proof.
  unfold ValidateHandle. destruct (validateLegacyInspectableHandle a); [done|].
  by destruct (HasPrefix a "-").
Qed.

Lemma handle_plain a : ValidateHandle a = None -> plain a = true.
Proof. intros [H _]%ValidateHandle_None. by apply legacy_handle_plain. Qed.

#[export] Hint Resolve filename_plain handle_plain legacy_handle_plain : amq.

(** The components of a leaf. *)
Definition leaf_path (l : MailboxLeaf) : path := Split_on slash (leaf_string l).

Lemma leaf_path_plain l : Forall (fun c => plain c = true) (leaf_path l).
Proof. destruct l; by repeat constructor. Qed.

Lemma flat_map_split_leaf agent l :
  plain agent = true ->
  List.flat_map (Split_on slash) ["agents"; agent; leaf_string l] =
  "agents" :: agent :: leaf_path l.
Proof.
  intros Ha. cbn [List.flat_map]. rewrite app_nil_r.
  rewrite (Split_on_no_sep _ "agents") by done.
  rewrite (Split_on_no_sep _ agent) by (by apply plain_spec in Ha as (_&_&_&?)). done.
Qed.

(** The path helpers name the component list one reads off the layout. *)
Lemma MailboxRootRelativePath_plain agent l :
  plain agent = true -> MailboxRootRelativePath agent l = "agents" :: agent :: leaf_path l.
Proof.
  intros Ha. unfold MailboxRootRelativePath, Join. rewrite flat_map_split_leaf by done.
  apply Clean_plain. repeat constructor; [done|]. apply leaf_path_plain.
Qed.

Lemma AgentMailboxPath_plain root agent l :
  Forall (fun c => plain c = true) root -> plain agent = true ->
  AgentMailboxPath root agent l = root ++ "agents" :: agent :: leaf_path l.
Proof.
  intros Hr Ha. unfold AgentMailboxPath, Join_under. rewrite flat_map_split_leaf by done.
  apply Clean_plain. apply Forall_app; split; [done|]. repeat constructor; [done|].
  apply leaf_path_plain.
Qed.

(** Rejected names say nothing became visible. *)
Lemma filename_error_quiet f x : ValidateMessageFilename f = Some x -> visible_err x = false.
Proof. unfold ValidateMessageFilename. intros. repeat case_match; by simplify_eq. Qed.

Lemma handle_error_quiet a x : ValidateHandle a = Some x -> visible_err x = false.
Proof.
  unfold ValidateHandle. destruct (validateLegacyInspectableHandle a) as [y|] eqn:E.
  - intros [= <-]. unfold validateLegacyInspectableHandle in E. repeat case_match; by simplify_eq.
  - intros. case_match; by simplify_eq.
Qed.

(** What a name of a message file may consist of. *)
Definition name_char (c : ascii) : bool :=
  negb (bool_decide (c = chr 47) || bool_decide (c = chr 92) || bool_decide (c = chr 0)).

Lemma forallb_no_char f c s : str_forallb f s = true -> f c = false -> str_mem c s = false.
Proof.
  intros Hs Hc. induction s as [|d s IH]; [done|]. cbn in *. apply andb_true_iff in Hs as [Hd Hs].
  rewrite IH, orb_false_r by done. apply bool_decide_eq_false. intros ->. congruence.
Qed.

Lemma md_name_valid s :
  str_forallb name_char s = true -> HasPrefix (s +:+ ".md") "." = false ->
  ValidateMessageFilename (s +:+ ".md") = None.
Proof.
  intros Hs Hdot. set (f := s +:+ ".md") in *.
  assert (str_forallb name_char f = true) as Hf by (unfold f; by rewrite str_forallb_app, Hs).
  assert (HasSuffix f ".md" = true) as Hmd by apply HasSuffix_app.
  assert (forall c, name_char c = false -> Contains f (String c "") = false) as Hc.
  { intros c Hcc. rewrite str_mem_Contains. by eapply forallb_no_char. }
  pose proof (Hc (chr 47) eq_refl : Contains f "/" = false) as H1.
  pose proof (Hc (chr 92) eq_refl : Contains f BACKSLASH = false) as H2.
  pose proof (Hc (chr 0) eq_refl : Contains f NUL = false) as H3.
  unfold ValidateMessageFilename. rewrite Hdot, Hmd, H1, H2, H3. unfold IsAbs.
  destruct f as [|c r]; [done|]. rewrite bool_decide_eq_false_2 by done.
  assert (HasPrefix (String c r) "/" = false) as Ha.
  { destruct (HasPrefix (String c r) "/") eqn:E; [|done]. apply HasPrefix_spec in E as [r' E].
    rewrite E in H1. change ("/" +:+ r') with ("" +:+ "/" +:+ r') in H1. by rewrite Contains_app in H1. }
  rewrite ?Ha. cbn [orb]. rewrite !bool_decide_eq_false_2; [done| |]; intros E; rewrite E in Hdot; done.
Qed.
