(* ===== verification/DeliveryRoot.v ===== *)
(** The pinned queue root: internal/fsq/delivery_root.go, with regular_file.go,
    rename_noreplace.go, delivery_root_sync_unix.go and the write helpers of atomic.go.

    A [DeliveryRoot] holds the ambient base path (for diagnostics and for [VerifyBase]), the
    identity of the directory that was authorized, and the batch lease it belongs to, if
    any.  All other calls go through the pinned handle, that is, to the tree of the world.
    A deferred Close whose error is discarded changes nothing and is not a call here; the
    test hooks, nil in production, are left out. *)
From S2P Require Import Prelude GoStr GoPath GoErr Fs Wp Names.

Record DeliveryRoot := MkRoot {
  dr_open : bool;                 (* r != nil && r.root != nil *)
  dr_base : path;
  dr_at : path;                   (* where the pinned directory is, below the queue root *)
  dr_identity : info;
  dr_batchLease : option nat;
  dr_borrowed : bool;
}.

(** A name resolved through the pinned handle. *)
Definition rp (r : DeliveryRoot) (p : path) : path :=
  match dr_at r with
  | [] => p
  | a => if escapes p then [".."] else a ++ p
  end.

Definition displayPath (r : DeliveryRoot) (name : path) : path := Clean (dr_base r ++ name).

(** ** Opening and verifying *)

Definition SnapshotDeliveryRoot (base : path) : prog (option info * option gerr) :=
  let_ok i := sys (SStatBase base) orelse x =>
    Ret (None, Some (Errorf "stat delivery root" (EErrno x))) in
  if negb (bool_decide (i_kind i = KDir))
  then Ret (None, Some (EMsg "delivery root is not a directory"))
  else Ret (Some i, None).

Definition OpenDeliveryRoot (base : path) (expected : option info)
  : prog (option DeliveryRoot * option gerr) :=
  match expected with
  | None => Ret (None, Some (EMsg "missing authorized delivery root identity"))
  | Some want =>
    let_ok identity := sys (SStatBase base) orelse x =>
      Ret (None, Some (Errorf "open delivery root" (EErrno x))) in
    if negb (bool_decide (i_kind identity = KDir))
    then Ret (None, Some (EMsg "delivery root is not a directory"))
    else if negb (SameFile want identity)
    then Ret (None, Some (Errorf "between authorization and capability open"
                            (ESent ErrDeliveryRootChanged)))
    else Ret (Some (MkRoot true base [] identity None false), None)
  end.

Definition VerifyBase (r : DeliveryRoot) : prog (option gerr) :=
  if negb (dr_open r) then Ret (Some (EMsg "delivery root is closed"))
  else match dr_batchLease r with
       | Some l =>
         a ← sys (SLeaseActive l);
         if negb a then Ret (Some (EMsg "pinned delivery batch expired")) else Ret None
       | None =>
         let_ok current := sys (SStatBase (dr_base r)) orelse x =>
           Ret (Some (EWrap "" [ESent ErrDeliveryRootChanged; EErrno x])) in
         if negb (SameFile (dr_identity r) current)
         then Ret (Some (Errorf "" (ESent ErrDeliveryRootChanged)))
         else Ret None
       end.

(** WithPinnedBatch: the callback runs on a borrowed root whose lease ends with it. *)
Definition WithPinnedBatch {A} (r : DeliveryRoot) (dflt : A)
    (fn : DeliveryRoot -> prog (A * option gerr)) : prog (A * option gerr) :=
  if_err e := VerifyBase r then Ret (dflt, Some e) else
  l ← sys SLeaseNew;
  x ← fn (MkRoot true (dr_base r) (dr_at r) (dr_identity r) (Some l) true);
  _ ← sys (SLeaseEnd l);
  Ret x.

(** ** Syncing *)

Definition isSyncUnsupported (x : errno) : bool :=
  match x with IOErr EINVAL | IOErr ENOTSUP => true | _ => false end.

Definition syncDir (r : DeliveryRoot) (dir : path) : prog (option gerr) :=
  let_ok file := sys (SOpen (rp r dir)) orelse x => Ret (Some (EErrno x)) in
  syncErr ← sys (SFsync file);
  closeErr ← sys (SClose file);
  match syncErr with
  | Er x => if isSyncUnsupported x then Ret None else Ret (Some (EErrno x))
  | Ok _ => Ret (match closeErr with Er x => Some (EErrno x) | Ok _ => None end)
  end.

Definition SyncDir (r : DeliveryRoot) (name : path) : prog (option gerr) :=
  if_err e := VerifyBase r then Ret (Some e) else syncDir r name.

(** ** Writing *)

Definition writeAllAndSync (file : handle) (data : string) : prog (option gerr) :=
  x ← sys (SWrite file data);
  match x with
  | (_, Some err) => Ret (Some (EErrno err))
  | (n, None) =>
    if negb (bool_decide (n = String.length data)) then Ret (Some (EErrno ErrShortWrite))
    else call (SFsync file)
  end.

Definition writeAndSync (r : DeliveryRoot) (name : path) (data : string) : prog (option gerr) :=
  let_ok file := sys (SOpenExcl (rp r name)) orelse x => Ret (Some (EErrno x)) in
  err ← writeAllAndSync file data;
  closeErr ← call (SClose file);
  match (match err with None => closeErr | Some _ => err end) with
  | None => Ret None
  | Some e => _ ← sys (SRemove (rp r name)); Ret (Some e)
  end.

(** [primary] is never nil at a call. *)
Definition cleanupTemp (r : DeliveryRoot) (name : path) (primary : gerr) : prog gerr :=
  x ← sys (SRemove (rp r name));
  match x with
  | Er n => if negb (os_IsNotExist (EErrno n)) then Ret (Errorf "cleanup" primary) else Ret primary
  | Ok _ => Ret primary
  end.

Definition CreateExclusiveFile (r : DeliveryRoot) (relPath : path) (data : string)
  : prog (option gerr) :=
  if_err e := VerifyBase r then Ret (Some e) else
  let dir := Dir relPath in
  match dir with
  | [] => writeAndSync r relPath data
  | _ => if_err e := call (SMkdirAll (rp r dir) 448) then Ret (Some e) else
         writeAndSync r relPath data
  end.

Definition WriteFileAtomic (r : DeliveryRoot) (dir : path) (filename : string) (data : string)
  : prog (path * option gerr) :=
  if_err e := VerifyBase r then Ret ([], Some e) else
  if_err e := call (SMkdirAll (rp r dir) 448) then Ret ([], Some e) else
  now ← sys SNow;
  let tmpName := "." +:+ filename +:+ ".tmp-" +:+ itoa now in
  let tmpPath := Join_under dir [tmpName] in
  let finalPath := Join_under dir [filename] in
  if_err e := writeAndSync r tmpPath data then Ret ([], Some e) else
  if_err e := syncDir r dir then e' ← cleanupTemp r tmpPath e; Ret ([], Some e') else
  if_err e := call (SRename (rp r tmpPath) (rp r finalPath))
    then e' ← cleanupTemp r tmpPath e; Ret ([], Some e') else
  let committedPath := displayPath r finalPath in
  if_err e := syncDir r dir then Ret (committedPath, Some (ECommitted committedPath "" e)) else
  Ret (committedPath, None).

Definition WriteFileExclusive (r : DeliveryRoot) (dir : path) (filename : string) (data : string)
  : prog (path * option gerr) :=
  if_err e := VerifyBase r then Ret ([], Some e) else
  if_err e := call (SMkdirAll (rp r dir) 448) then Ret ([], Some e) else
  let finalPath := Join_under dir [filename] in
  if_err e := writeAndSync r finalPath data then Ret ([], Some e) else
  let committedPath := displayPath r finalPath in
  if_err e := syncDir r dir then Ret (committedPath, Some (ECommitted committedPath "" e)) else
  Ret (committedPath, None).

(** ** Reading *)

Definition dirExists (r : DeliveryRoot) (name : path) : prog bool :=
  x ← sys (SStat (rp r name));
  Ret (match x with Ok i => bool_decide (i_kind i = KDir) | Er _ => false end).

Definition ReadFile (r : DeliveryRoot) (name : path) : prog (string * option gerr) :=
  if_err e := VerifyBase r then Ret ("", Some e) else
  let_ok h := sys (SOpen (rp r name)) orelse x => Ret ("", Some (EErrno x)) in
  let_ok s := sys (SReadAll h) orelse x => Ret ("", Some (EErrno x)) in
  Ret (s, None).

Definition ReadDir (r : DeliveryRoot) (name : path)
  : prog (list (string * kind) * option gerr) :=
  if_err e := VerifyBase r then Ret ([], Some e) else
  let_ok h := sys (SOpen (rp r name)) orelse x => Ret ([], Some (EErrno x)) in
  if negb (bool_decide (h_kind h = KDir)) then Ret ([], Some (EErrno ENOTDIR)) else
  let_ok l := sys (SReadDir h) orelse x => Ret ([], Some (EErrno x)) in
  Ret (l, None).

Definition Stat (r : DeliveryRoot) (name : path) : prog (option info * option gerr) :=
  if_err e := VerifyBase r then Ret (None, Some e) else
  let_ok i := sys (SStat (rp r name)) orelse x => Ret (None, Some (EErrno x)) in
  Ret (Some i, None).

Definition Remove (r : DeliveryRoot) (name : path) : prog (option gerr) :=
  if_err e := VerifyBase r then Ret (Some e) else call (SRemove (rp r name)).

Definition validateRegularNoFollowFile (i : info) : option gerr :=
  if bool_decide (i_kind i = KSym) then Some (EMsg "queue artifact must not be a symlink")
  else if negb (bool_decide (i_kind i = KFile))
  then Some (EMsg "queue artifact must be a regular file")
  else None.

Definition OpenRegularNoFollow (r : DeliveryRoot) (name : path)
  : prog (option (handle * info) * option gerr) :=
  if_err e := VerifyBase r then Ret (None, Some e) else
  let_ok before := sys (SLstat (rp r name)) orelse x => Ret (None, Some (EErrno x)) in
  match validateRegularNoFollowFile before with
  | Some e => Ret (None, Some e)
  | None =>
    let_ok file := sys (SOpenNoFollow (rp r name)) orelse x => Ret (None, Some (EErrno x)) in
    let_ok after := sys (SFstat file) orelse x => Ret (None, Some (EErrno x)) in
    match validateRegularNoFollowFile after with
    | Some e => Ret (None, Some e)
    | None =>
      if negb (SameFile before after)
      then Ret (None, Some (EMsg "queue artifact changed while opening"))
      else Ret (Some (file, after), None)
    end
  end.

Definition ReadRegularNoFollow (r : DeliveryRoot) (name : path) : prog (string * option gerr) :=
  x ← OpenRegularNoFollow r name;
  match x with
  | (Some (file, _), None) =>
    let_ok s := sys (SReadAll file) orelse x => Ret ("", Some (EErrno x)) in Ret (s, None)
  | (_, Some e) => Ret ("", Some e)
  | (None, None) => Ret ("", None)
  end.

(** ** Renaming and locking *)

Definition renameNoReplace (r : DeliveryRoot) (oldPath newPath : path) : prog (option gerr) :=
  let_ok oldDir := sys (SOpen (rp r (Dir oldPath))) orelse x => Ret (Some (EErrno x)) in
  let_ok newDir := sys (SOpen (rp r (Dir newPath))) orelse x => Ret (Some (EErrno x)) in
  call (SRenameNoReplace (rp r oldPath) (rp r newPath)).

Definition OpenLockFile (r : DeliveryRoot) (dir : path) (filename : string)
  : prog (option handle * option gerr) :=
  if_err e := VerifyBase r then Ret (None, Some e) else
  if_err e := call (SMkdirAll (rp r dir) 448) then Ret (None, Some e) else
  let name := Join_under dir [filename] in
  let check file :=
    let_ok i := sys (SFstat file) orelse x => Ret (None, Some (EErrno x)) in
    if negb (bool_decide (i_kind i = KFile)) then Ret (None, Some (EMsg "lock file is not a regular file"))
    else Ret (Some file, None) in
  f ← sys (SOpenCreate (rp r name));
  match f with
  | Ok file => check file
  | Er ENOENT =>
    if_err e := call (SMkdirAll (rp r dir) 448) then Ret (None, Some e) else
    let_ok file := sys (SOpenCreate (rp r name)) orelse x => Ret (None, Some (EErrno x)) in
    check file
  | Er x => Ret (None, Some (EErrno x))
  end.

(** withExclusiveDLQEnvelopeLock: flock, run, unlock. *)
Definition withExclusiveDLQEnvelopeLock {A} (dflt : A) (file : handle)
    (fn : prog (A * option gerr)) : prog (A * option gerr) :=
  if_err e := call (SFlock file) then
    Ret (dflt, Some (Errorf "acquire DLQ envelope lock" e)) else
  x ← fn;
  _ ← sys (SFunlock file);
  Ret x.

Definition WithDLQEnvelopeLock {A} (r : DeliveryRoot) (agent filename : string) (dflt : A)
    (fn : DeliveryRoot -> prog (A * option gerr)) : prog (A * option gerr) :=
  match ValidateHandle agent with
  | Some e => Ret (dflt, Some e)
  | None =>
    match ValidateMessageFilename filename with
    | Some e => Ret (dflt, Some e)
    | None =>
      WithPinnedBatch r dflt (fun batch =>
        let lockDir := Join ["agents"; agent; "dlq"; "locks"] in
        if_err e := call (SMkdirAll (rp batch lockDir) 448) then
          Ret (dflt, Some (Errorf "prepare DLQ envelope lock directory" e)) else
        let_ok lockFile := sys (SOpenCreate (rp batch (Join_under lockDir [filename +:+ ".lock"])))
          orelse x => Ret (dflt, Some (Errorf "open DLQ envelope lock" (EErrno x))) in
        withExclusiveDLQEnvelopeLock dflt lockFile (
          if_err e := VerifyBase r then Ret (dflt, Some e) else fn batch))
    end
  end.

(** ** Layout of the root *)

Fixpoint mkdir_each (r : DeliveryRoot) (dirs : list path) : prog (option gerr) :=
  match dirs with
  | [] => Ret None
  | d :: dirs' => if_err e := call (SMkdirAll (rp r d) 448) then Ret (Some e) else mkdir_each r dirs'
  end.

Definition EnsureRootDirs (r : DeliveryRoot) : prog (option gerr) :=
  if_err e := VerifyBase r then Ret (Some e) else
  mkdir_each r [["agents"]; ["threads"]; ["meta"]].

Definition EnsureAgentDirs (r : DeliveryRoot) (agent : string) : prog (option gerr) :=
  match ValidateHandle agent with
  | Some e => Ret (Some e)
  | None =>
    if_err e := VerifyBase r then Ret (Some e) else
    mkdir_each r (MailboxRootRelativePath agent <$> requiredMailboxLeaves)
  end.

Inductive LayoutState := LayoutInitialized | LayoutEmpty | LayoutForeign.

Fixpoint classify_entries (entries : list (string * kind)) : LayoutState * option gerr :=
  match entries with
  | [] => (LayoutForeign, None)
  | (name, k) :: rest =>
    if negb (bool_decide (name = "agents")) then classify_entries rest
    else if bool_decide (k = KSym) || negb (bool_decide (k = KDir))
    then (LayoutForeign, Some (EMsg "agents entry is not a real directory"))
    else (LayoutInitialized, None)
  end.

Definition ClassifyLayout (r : DeliveryRoot) : prog (LayoutState * option gerr) :=
  let_val entries := ReadDir r [] orelse e => Ret (LayoutForeign, Some e) in
  match entries with
  | [] => Ret (LayoutEmpty, None)
  | _ => Ret (classify_entries entries)
  end.
