(* ===== verification/DeliveryRootFacts.v ===== *)
(** Specifications of the operations of the pinned root: what each changes in the tree,
    for every pattern of I/O failures. *)
From S2P Require Import Prelude GoStr GoPath GoErr Fs Wp FsFacts Names DeliveryRoot.

(** ** Names below the queue root itself *)

Lemma rp_root r p : dr_at r = [] -> rp r p = p.
Proof. unfold rp. by intros ->. Qed.

(** ** Operations that only observe *)

Lemma ro_VerifyBase r : ro (VerifyBase r).
Proof. unfold VerifyBase. ro_tac. Qed.
#[export] Hint Resolve ro_VerifyBase : amq.
Lemma ro_syncDir r d : ro (syncDir r d).
Proof. unfold syncDir. ro_tac. Qed.
Lemma ro_Stat r p : ro (Stat r p).
Proof. unfold Stat. ro_tac. Qed.
Lemma ro_dirExists r p : ro (dirExists r p).
Proof. unfold dirExists. ro_tac. Qed.
Lemma ro_ReadDir r p : ro (ReadDir r p).
Proof. unfold ReadDir. ro_tac. Qed.
Lemma ro_ReadFile r p : ro (ReadFile r p).
Proof. unfold ReadFile. ro_tac. Qed.
Lemma ro_OpenRegularNoFollow r p : ro (OpenRegularNoFollow r p).
Proof. unfold OpenRegularNoFollow. ro_tac. Qed.
#[export] Hint Resolve ro_syncDir ro_Stat ro_dirExists ro_ReadDir ro_ReadFile
  ro_OpenRegularNoFollow : amq.
Lemma ro_ReadRegularNoFollow r p : ro (ReadRegularNoFollow r p).
Proof. unfold ReadRegularNoFollow. ro_tac. Qed.
Lemma ro_ClassifyLayout r : ro (ClassifyLayout r).
Proof. unfold ClassifyLayout. ro_tac. Qed.
#[export] Hint Resolve ro_ReadRegularNoFollow ro_ClassifyLayout : amq.

(** ** Writing a new file *)

Section facts.
Context (e : env).

Lemma t_write_fresh_evo t p s :
  dents t !! p = None -> evo (eq p) t (t_write (add_file t p) (fresh_ino t) s).
Proof.
  intros Hn. pose proof (evo_add_file t p Hn) as [H1 H2 H3].
  unfold t_write. cbn. rewrite lookup_insert_eq. split; cbn; [|done|done].
  rewrite insert_insert_eq. apply insert_subseteq, not_elem_of_dom.
  exact (is_fresh (dom (data t))).
Qed.

Lemma t_write_fresh_content t p s :
  content (t_write (add_file t p) (fresh_ino t) s) p = Some s.
Proof.
  unfold t_write, content. cbn. rewrite lookup_insert_eq. cbn.
  rewrite lookup_insert_eq. cbn. by rewrite lookup_insert_eq.
Qed.

(** Removing an entry the initial tree did not have. *)
Lemma set_delete_evo t t' p :
  evo (eq p) t t' -> dents t !! p = None -> evo (eq p) t (set_dents (delete p) t').
Proof.
  intros [H1 H2 H3] Hn. split; cbn; [done| |].
  - intros q i m E. rewrite lookup_delete_ne by congruence. by apply H2.
  - intros q Hq. unfold is_dir. cbn. rewrite lookup_delete_ne by done. by apply H3.
Qed.

Lemma exec_remove_evo t w p :
  evo (eq p) t (tr w) -> dents t !! p = None -> evo (eq p) t (tr (exec e (SRemove p) w).2).
Proof.
  intros Hev Hn. cbn. unfold upd_unit, upd.
  destruct (e_fault e (tick w)); [done|].
  destruct (t_remove (tr w) p) as [t'|] eqn:E; [|done]. cbn. revert E. unfold t_remove.
  destruct p as [|c p]; [done|]. repeat case_match; try done; intros [= <-];
    by apply set_delete_evo.
Qed.

Lemma exec_remove_ctl w p : ctl_eq w (exec e (SRemove p) w).2.
Proof.
  cbn. unfold upd_unit, upd. destruct (e_fault e (tick w)); [done|].
  by destruct (t_remove (tr w) p).
Qed.

(** Outcome of writeAndSync: a new complete file, or an error with at most a rest at the
    very path; a path already taken is left alone. *)
Definition wrote (t t' : tree) (p : path) (d : string) : Prop :=
  p <> [] /\ dents t !! p = None /\ t_parent t p = None /\ content t' p = Some d.

Definition written_or_failed (p : path) (d : string) (w : world) (o : option gerr) (w' : world)
  : Prop :=
  evo (eq p) (tr w) (tr w') /\ ctl_eq w w' /\
  (o = None -> wrote (tr w) (tr w') p d) /\
  (is_Some (dents (tr w) !! p) -> tr w' = tr w /\ o <> None).

(** Giving up after the file was created: it is removed, or stays if even that fails. *)
Lemma wpi_write_giveup I p d w w2 err :
  (forall t, evo (eq p) (tr w) t -> I t) -> dents (tr w) !! p = None ->
  evo (eq p) (tr w) (tr w2) -> ctl_eq w w2 ->
  wpi e I (_ ← sys (SRemove p); Ret (Some err)) (written_or_failed p d w) w2.
Proof.
  intros HI Hn Hev Hc. wbind. apply wpi_sys; [by apply HI, exec_remove_evo|].
  wret. wret. split; [by apply exec_remove_evo|]. split.
  - eapply ctl_eq_trans; [done|apply exec_remove_ctl].
  - split; [done|]. rewrite Hn. by intros [??].
Qed.

(** Closing the complete file. *)
Lemma wpi_write_close I p d w w2 h err :
  (forall t, evo (eq p) (tr w) t -> I t) -> p <> [] ->
  dents (tr w) !! p = None -> t_parent (tr w) p = None ->
  tr w2 = t_write (add_file (tr w) p) (fresh_ino (tr w)) d -> ctl_eq w w2 ->
  wpi e I (closeErr ← call (SClose h);
           match (match err with None => closeErr | Some _ => err end) with
           | None => Ret None
           | Some x => _ ← sys (SRemove p); Ret (Some x)
           end) (written_or_failed p d w) w2.
Proof.
  intros HI Hp Hn Hpar Ht Hc.
  assert (evo (eq p) (tr w) (tr w2)) as Hev by (rewrite Ht; by apply t_write_fresh_evo).
  apply wpi_ro_bind; [ro_tac|by apply HI|]. intros c' w3 Ht3 Hc3.
  assert (ctl_eq w w3) by (by eapply ctl_eq_trans).
  destruct (match err with None => c' | Some _ => err end).
  - apply wpi_write_giveup; try done. by rewrite Ht3.
  - wret. split; [by rewrite Ht3|]. split; [done|]. split.
    + intros _. repeat split; try done. rewrite Ht3, Ht. apply t_write_fresh_content.
    + rewrite Hn. by intros [??].
Qed.

Lemma wpi_writeAndSync I r p d w :
  dr_at r = [] -> (forall t, evo (eq p) (tr w) t -> I t) ->
  wpi e I (writeAndSync r p d) (written_or_failed p d w) w.
Proof.
  intros Hat HI. unfold writeAndSync. rewrite (rp_root r p Hat). wbind. apply wpi_sys.
  { cbn. unfold upd, t_open_excl.
    repeat case_match; simplify_eq; cbn; apply HI; try done; by apply evo_add_file. }
  cbn [exec]. unfold upd. destruct (e_fault e (tick w)) as [f|]; cbn; [by wret; wret|].
  destruct (t_open_excl (tr w) p) as [[h t1]|x] eqn:Eo; cbn; [|by wret; wret].
  unfold t_open_excl in Eo. destruct p as [|c p]; [done|]. remember (c :: p) as P eqn:HP.
  destruct (t_parent (tr w) P) eqn:Hpar; [done|].
  destruct (dents (tr w) !! P) eqn:Hn; [done|]. simplify_eq.
  wret. unfold writeAllAndSync. wbind. wbind. apply wpi_sys.
  { cbn. destruct (e_fault e (S (tick w))); cbn; apply HI; by apply t_write_fresh_evo. }
  wret. cbn. destruct (e_fault e (S (tick w))) as [f|]; cbn.
  - wret. apply wpi_ro_bind; [ro_tac|by apply HI, t_write_fresh_evo|].
    intros c' w3 Ht3 Hc3. apply wpi_write_giveup; try done.
    rewrite Ht3; by apply t_write_fresh_evo.
  - rewrite bool_decide_eq_true_2 by done. cbn.
    eapply wpi_mono; [apply (wpi_ro e I); [ro_tac|by apply HI, t_write_fresh_evo]|].
    intros err w3 [Ht3 Hc3]. by apply wpi_write_close.
Qed.

(** ** Removing and moving files *)

Lemma evo_delete t p :
  (forall i m, dents t !! p <> Some (NDir i m)) -> evo (eq p) t (set_dents (delete p) t).
Proof.
  intros Hnd. split; cbn; [done| |].
  - intros q i m E. rewrite lookup_delete_ne; [done|]. intros ->. by eapply Hnd.
  - intros q Hq. left. by rewrite lookup_delete_ne.
Qed.

Lemma evo_move t p q n :
  dents t !! p = Some n -> dents t !! q = None -> (forall i m, n <> NDir i m) ->
  evo (fun x => x = p \/ x = q) t (set_dents (fun m => <[q := n]> (delete p m)) t).
Proof.
  intros Hp Hq Hn. split; cbn; [done| |].
  - intros x j m E. rewrite lookup_insert_ne by congruence. by rewrite lookup_delete_ne by congruence.
  - intros x Hx. left. rewrite lookup_insert_ne by naive_solver.
    by rewrite lookup_delete_ne by naive_solver.
Qed.

(** Removing something that is not a directory. *)
Lemma exec_remove_cases w p :
  (forall i m, dents (tr w) !! p <> Some (NDir i m)) ->
  (tr (exec e (SRemove p) w).2 = tr w /\
   (forall x, (exec e (SRemove p) w).1 = Er x -> os_IsNotExist (EErrno x) = true -> dents (tr w) !! p = None \/ t_parent (tr w) p <> None) /\
   (exec e (SRemove p) w).1 <> Ok tt) \/
  (tr (exec e (SRemove p) w).2 = set_dents (delete p) (tr w) /\ (exec e (SRemove p) w).1 = Ok tt).
Proof.
  intros Hnd. cbn. unfold upd_unit, upd.
  destruct (e_fault e (tick w)) as [f|]; [left; cbn; split; [done|split; [|done]]; by intros x [= <-]|].
  destruct (t_remove (tr w) p) as [t'|x] eqn:E; cbn.
  - right. split; [|done]. revert E. unfold t_remove. destruct p as [|c p]; [done|].
    destruct (t_node (tr w) (c :: p)) as [[| | |]|] eqn:En; try (by intros [= <-]).
    apply t_node_Ok_inv in En as [_ En]; [|done]. by apply Hnd in En.
  - left. split; [done|]. split; [|done]. intros y [= <-] Hy. revert E. unfold t_remove.
    destruct p as [|c p]; [intros [= <-]; done|].
    destruct (t_node (tr w) (c :: p)) as [[| | |]|z] eqn:En; try done.
    + destruct (children _ _); [done|]. by intros [= <-].
    + intros [= ->]. apply t_node_Er in En as [_ [En|[_ [En _]]]]; [right; by rewrite En|by left].
Qed.

Lemma wpi_remove_file I p w :
  (forall i m, dents (tr w) !! p <> Some (NDir i m)) -> I (tr w) ->
  I (set_dents (delete p) (tr w)) ->
  wpi e I (sys (SRemove p)) (fun x w' => ctl_eq w w' /\ evo (eq p) (tr w) (tr w') /\
    ((tr w' = tr w /\ (exists y, x = Er y /\ (os_IsNotExist (EErrno y) = true ->
        dents (tr w) !! p = None \/ t_parent (tr w) p <> None))) \/
     (x = Ok tt /\ tr w' = set_dents (delete p) (tr w)))) w.
Proof.
  intros Hnd HI HI'. pose proof (exec_remove_ctl w p) as Hc.
  apply wpi_sys.
  - by destruct (exec_remove_cases w p Hnd) as [[-> _]|[-> _]].
  - wret. split; [done|]. destruct (exec_remove_cases w p Hnd) as [(Ht & Hne & Hok)|[Ht ->]].
    + rewrite Ht. split; [done|]. left. split; [done|].
      destruct (exec e (SRemove p) w).1 as [[]|y] eqn:Ex; [done|]. exists y. split; [done|].
      by apply Hne.
    + rewrite Ht. split; [by apply evo_delete|]. by right.
Qed.

Lemma wpi_cleanupTemp I r p err w :
  dr_at r = [] -> (forall i m, dents (tr w) !! p <> Some (NDir i m)) -> I (tr w) ->
  I (set_dents (delete p) (tr w)) ->
  wpi e I (cleanupTemp r p err) (fun err' w' => ctl_eq w w' /\
     (tr w' = tr w \/ tr w' = set_dents (delete p) (tr w)) /\
     (err' = err \/ err' = Errorf "cleanup" err)) w.
Proof.
  intros Hat Hnd HI HI'. unfold cleanupTemp. rewrite rp_root by done. wbind.
  eapply wpi_mono; [by apply wpi_remove_file|]. intros x w' (Hc & _ & Hx).
  assert (tr w' = tr w \/ tr w' = set_dents (delete p) (tr w))
    by (destruct Hx as [[? _]|[_ ?]]; auto).
  repeat case_match; wret; auto.
Qed.

(** renameat2 with RENAME_NOREPLACE on something that is not a directory. *)
Lemma rename_noreplace_node t p q n t' :
  p <> [] -> dents t !! p = Some n -> (forall i m, n <> NDir i m) -> t_rename_noreplace t p q = Ok t' ->
  q <> [] /\ dents t !! q = None /\ t_parent t q = None /\
  t' = set_dents (fun m => <[q := n]> (delete p m)) t.
Proof.
  intros Hp Hi Hnd. unfold t_rename_noreplace. destruct (t_node t p) as [n'|] eqn:En; [|done].
  apply t_node_Ok_inv in En as [_ En]; [|done]. rewrite Hi in En. injection En as <-.
  destruct (t_node t q) as [|x] eqn:Eq; [done|]. apply t_node_Er in Eq as [Hq Eq].
  destruct x; try done. destruct (t_parent t q) eqn:Hpar; [done|].
  destruct Eq as [?|(_ & Hn & _)]; [done|]. unfold move_node.
  destruct n; try (by intros [= <-]). by destruct (Hnd i perm).
Qed.

Lemma rename_noreplace_file t p q i t' :
  p <> [] -> dents t !! p = Some (NFile i) -> t_rename_noreplace t p q = Ok t' ->
  q <> [] /\ dents t !! q = None /\ t_parent t q = None /\
  t' = set_dents (fun m => <[q := NFile i]> (delete p m)) t.
Proof. intros Hp Hi. by apply rename_noreplace_node. Qed.

Lemma wpi_renameNoReplace I r p q i w :
  dr_at r = [] -> p <> [] -> dents (tr w) !! p = Some (NFile i) ->
  I (tr w) ->
  (dents (tr w) !! q = None -> I (set_dents (fun m => <[q := NFile i]> (delete p m)) (tr w))) ->
  wpi e I (renameNoReplace r p q) (fun o w' => ctl_eq w w' /\
    ((o = None /\ q <> [] /\ dents (tr w) !! q = None /\
      tr w' = set_dents (fun m => <[q := NFile i]> (delete p m)) (tr w)) \/
     (exists x, o = Some (EErrno x) /\ tr w' = tr w))) w.
Proof.
  intros Hat Hp Hi HI HI'. unfold renameNoReplace. rewrite !rp_root by done.
  apply wpi_ro_bind; [ro_tac|done|]. intros [h1|x] w1 Ht1 Hc1.
  2: { wret. rewrite Ht1. eauto. }
  apply wpi_ro_bind; [ro_tac|by rewrite Ht1|]. intros [h2|x] w2 Ht2 Hc2.
  2: { wret. rewrite Ht2, Ht1. split; [by eapply ctl_eq_trans|]. eauto. }
  rewrite Ht1 in Ht2. assert (ctl_eq w w2) as Hc by (by eapply ctl_eq_trans).
  pose proof (rename_noreplace_file (tr w) p q i) as Hren.
  apply wpi_sys.
  - cbn. unfold upd_unit, upd. destruct (e_fault e (tick w2)); cbn; rewrite ?Ht2; [done|].
    destruct (t_rename_noreplace (tr w) p q) as [t'|] eqn:E; cbn; rewrite ?Ht2; [|done].
    destruct (Hren t' Hp Hi eq_refl) as (_ & Hn & _ & ->). by apply HI'.
  - wret. cbn. unfold upd_unit, upd. destruct (e_fault e (tick w2)); cbn; rewrite ?Ht2; [eauto|].
    destruct (t_rename_noreplace (tr w) p q) as [t'|] eqn:E; cbn; rewrite ?Ht2; [|eauto].
    destruct (Hren t' Hp Hi eq_refl) as (Hq & Hn & _ & ->). split; [done|]. by left.
Qed.

(** ** Reading a regular file *)

Lemma wpi_OpenRegularNoFollow I r p w :
  dr_at r = [] -> I (tr w) ->
  wpi e I (OpenRegularNoFollow r p) (fun x w' => tr w' = tr w /\ ctl_eq w w' /\
    match x with
    | (Some (h, _), None) => dents (tr w) !! p = Some (NFile (h_ino h)) /\ t_parent (tr w) p = None
    | (None, None) => False
    | (_, Some _) => True
    end) w.
Proof.
  intros Hat HI. unfold OpenRegularNoFollow. rewrite !rp_root by done.
  apply wpi_ro_bind; [ro_tac|done|]. intros [x|] w1 Ht1 Hc1; [by wret|].
  apply wpi_ro_bind; [ro_tac|by rewrite Ht1|]. intros [before|x] w2 Ht2 Hc2.
  2: { wret. rewrite Ht2, Ht1. split; [done|]. split; [by eapply ctl_eq_trans|done]. }
  rewrite Ht1 in Ht2. assert (ctl_eq w w2) as Hcw2 by (by eapply ctl_eq_trans).
  destruct (validateRegularNoFollowFile before); [by wret|].
  wbind. apply wpi_sys.
  { cbn. unfold obs. case_match; cbn; by rewrite Ht2. }
  wret. cbn. unfold obs. destruct (e_fault e (tick w2)); cbn; [by wret|]. rewrite Ht2.
  unfold t_open_nofollow. destruct (t_node (tr w) p) as [n|] eqn:En; [|by wret].
  assert (forall k j, (k = KFile -> dents (tr w) !! p = Some (NFile j) /\ t_parent (tr w) p = None) ->
    wpi e I (let_ok after := sys (SFstat (Handle k j p)) orelse x => Ret (None, Some (EErrno x)) in
      match validateRegularNoFollowFile after with
      | Some e0 => Ret (None, Some e0)
      | None =>
        if negb (SameFile before after)
        then Ret (None, Some (EMsg "queue artifact changed while opening"))
        else Ret (Some (Handle k j p, after), None)
      end) (fun x w' => tr w' = tr w /\ ctl_eq w w' /\
    match x with
    | (Some (h, _), None) => dents (tr w) !! p = Some (NFile (h_ino h)) /\ t_parent (tr w) p = None
    | (None, None) => False
    | (_, Some _) => True
    end) (bump w2)) as Htail.
  { intros k j Hkj. wbind. apply wpi_sys; [cbn; unfold obs; case_match; cbn; by rewrite Ht2|].
    wret. wexec. destruct (e_fault e (S (tick w2))); cbn; [by wret|].
    unfold validateRegularNoFollowFile. cbn. destruct k; cbn; repeat (case_match; cbn); wret;
      split_and!; try done; by apply Hkj. }
  destruct n as [j|j m|j tg|j]; try (by wret); apply Htail; try done. intros _.
  destruct p as [|c p]; [done|]. by apply t_node_Ok_inv in En as [? En].
Qed.

Lemma wpi_ReadRegularNoFollow I r p w :
  dr_at r = [] -> I (tr w) ->
  wpi e I (ReadRegularNoFollow r p) (fun x w' => tr w' = tr w /\ ctl_eq w w' /\
    (x.2 = None -> content (tr w) p = Some x.1 /\ t_parent (tr w) p = None)) w.
Proof.
  intros Hat HI. unfold ReadRegularNoFollow. wbind.
  eapply wpi_mono; [by apply wpi_OpenRegularNoFollow|].
  intros [[[h i]|] [x|]] w1 (Ht1 & Hc1 & Hx); try done; try (by wret).
  wbind. apply wpi_sys; [cbn; unfold obs; case_match; cbn; by rewrite Ht1|].
  wret. cbn. unfold obs. destruct (e_fault e (tick w1)); cbn; [by wret|].
  destruct (data (tr w1) !! h_ino h) eqn:Ed; wret; split_and!; try done.
  intros _. destruct Hx as [Hx Hpar]. split; [|done]. unfold content. rewrite Hx. cbn. congruence.
Qed.

End facts.

(** ** Errors *)

Lemma quiet_VerifyBase r : returns quiet (VerifyBase r).
Proof. unfold VerifyBase. quiet_tac. Qed.
Lemma quiet_syncDir r d : returns quiet (syncDir r d).
Proof. unfold syncDir. quiet_tac. Qed.
Lemma quiet_writeAllAndSync h s : returns quiet (writeAllAndSync h s).
Proof. unfold writeAllAndSync. quiet_tac. Qed.
#[export] Hint Resolve quiet_VerifyBase quiet_syncDir quiet_writeAllAndSync : quiet.
Lemma quiet_writeAndSync r p s : returns quiet (writeAndSync r p s).
Proof. unfold writeAndSync. quiet_tac. Qed.
Lemma quiet_cleanupTemp r p x :
  visible_err x = false -> returns (fun y => visible_err y = false) (cleanupTemp r p x).
Proof. intros H. unfold cleanupTemp. quiet_tac. Qed.
#[export] Hint Resolve quiet_writeAndSync quiet_cleanupTemp : quiet.
