(* ===== verification/Sample.v ===== *)
(** Runs without I/O failures: what the calls return when the operating system reports no
    failure of its own.  With the safety results, which hold whether or not calls fail, this
    is what shows that operations do their work rather than only never do harm. *)
From S2P Require Import Prelude GoStr GoPath GoErr Fs Wp FsFacts Names DeliveryRoot DeliveryRootFacts.

Definition healthy (e : env) : Prop := forall n, e_fault e n = None.

(** The base path still names the authorized directory, or the batch lease is running. *)
Definition attached (e : env) (r : DeliveryRoot) (w : world) : Prop :=
  dr_open r = true /\
  match dr_batchLease r with
  | Some l => l ∈ leases w
  | None => forall n, exists i, e_base e n (dr_base r) = Ok i /\ SameFile (dr_identity r) i = true
  end.

(** Every non-empty prefix of the path is a directory. *)
Definition dirs_upto (t : tree) (p : path) : Prop :=
  forall q, q <> [] -> q `prefix_of` p -> is_dir t q.

Lemma attached_ctl e r w w' : ctl_eq w w' -> attached e r w -> attached e r w'.
Proof. intros (E & _) [Ho H]. split; [done|]. destruct (dr_batchLease r); [by rewrite E|done]. Qed.

Lemma dirs_upto_evo X t t' p : evo X t t' -> dirs_upto t p -> dirs_upto t' p.
Proof. intros Hev H q Hq Hp. eapply evo_dir; [done|by apply H]. Qed.

(** Every prefix of [pre ++ rest] longer than [pre] is a directory. *)
Definition dirs_below (t : tree) (pre rest : path) : Prop :=
  forall q, pre `prefix_of` q -> q `prefix_of` (pre ++ rest) -> q <> pre -> is_dir t q.

Lemma dirs_below_cons t pre c rest :
  dirs_below t pre (c :: rest) -> is_dir t (pre ++ [c]) /\ dirs_below t (pre ++ [c]) rest.
Proof.
  intros H. split.
  - apply H; [by apply prefix_app_r| |].
    + rewrite (cons_middle c pre rest), app_assoc. by apply prefix_app_r.
    + intros Hl%(f_equal length). rewrite length_app in Hl. cbn in Hl. lia.
  - intros q H1 H2 H3. apply H.
    + etrans; [|exact H1]. by apply prefix_app_r.
    + by rewrite <-app_assoc in H2.
    + intros ->. apply prefix_length in H1. rewrite length_app in H1. cbn in H1. lia.
Qed.

Lemma dirs_upto_below t p : dirs_upto t p -> dirs_below t [] p.
Proof. intros H q _ Hp Hq. by apply H. Qed.

Lemma dirs_upto_walk t pre rest x :
  dirs_below t pre rest ->
  walk (dents t) pre (rest ++ [x]) = None.
Proof.
  revert pre; induction rest as [|c rest IH]; intros pre H; [done|].
  cbn [app walk]. destruct (rest ++ [x]) eqn:E; [by destruct rest|].
  destruct (dirs_below_cons _ _ _ _ H) as ((i & m & ->) & Hr). by apply IH.
Qed.

Lemma dirs_upto_parent t p x : dirs_upto t p -> escapes (p ++ [x]) = false ->
  t_parent t (p ++ [x]) = None.
Proof.
  intros H Hx. unfold t_parent. rewrite Hx. by apply (dirs_upto_walk t [] p x), dirs_upto_below.
Qed.

Lemma dirs_upto_node t p : p <> [] -> escapes p = false -> dirs_upto t p ->
  exists i m, t_node t p = Ok (NDir i m).
Proof.
  intros Hp He H. destruct (H p Hp) as (i & m & Hd); [done|]. exists i, m.
  apply t_node_lookup; [done| |done]. destruct p as [|x p _] using rev_ind; [done|].
  apply dirs_upto_parent; [|done]. intros q Hq Hpre. apply H; [done|]. by apply prefix_app_r.
Qed.

(** Deciding it. *)
Definition is_dirb (t : tree) (p : path) : bool :=
  match dents t !! p with Some (NDir _ _) => true | _ => false end.
Definition dirs_uptob (t : tree) (p : path) : bool :=
  forallb (fun n => is_dirb t (take n p)) (seq 1 (length p)).

Lemma is_dirb_spec t p : is_dirb t p = true -> is_dir t p.
Proof. unfold is_dirb, is_dir. repeat case_match; by eauto. Qed.

Lemma dirs_uptob_spec t p : dirs_uptob t p = true -> dirs_upto t p.
Proof.
  unfold dirs_uptob. rewrite forallb_forall. intros H q Hq [k ->]. apply is_dirb_spec.
  rewrite <-(take_app_length q k) at 1. apply H. apply in_seq.
  rewrite length_app. destruct q; [done|]. cbn. lia.
Qed.

Definition no_hiddenb (t : tree) : bool :=
  forallb (fun kn => negb (HasPrefix (Base kn.1) ".")) (map_to_list (dents t)).

Lemma no_hiddenb_spec t p : no_hiddenb t = true -> hidden p -> dents t !! p = None.
Proof.
  unfold no_hiddenb. rewrite forallb_forall. intros H Hp.
  destruct (dents t !! p) as [n|] eqn:E; [|done]. apply elem_of_map_to_list in E.
  apply list_elem_of_In, H in E. apply negb_true_iff in E. unfold hidden in Hp. cbn [fst] in E. congruence.
Qed.

(** Evaluates calls that cannot fail. *)
Ltac live :=
  match goal with
  | H : healthy _ |- _ => repeat (rstep; unfold obs, upd_unit, upd; rewrite ?H; cbn)
  end.

Section live.
Context (e : env) (Hnf : healthy e).

Lemma live_VerifyBase r w : attached e r w -> (run e (VerifyBase r) w).1 = None.
Proof.
  intros [Ho Hb]. unfold VerifyBase. rewrite Ho. destruct (dr_batchLease r) as [l|]; live.
  - by rewrite bool_decide_eq_true_2.
  - destruct (Hb (tick w)) as (i & -> & HS). cbn. by rewrite HS.
Qed.

Lemma live_syncDir r p w :
  dr_at r = [] -> p <> [] -> escapes p = false -> dirs_upto (tr w) p ->
  (run e (syncDir r p) w).1 = None.
Proof.
  intros Hat Hp He Hd. destruct (dirs_upto_node _ _ Hp He Hd) as (i & m & Hn).
  unfold syncDir. rewrite rp_root by done. live. unfold t_open, t_follow. rewrite Hn. by live.
Qed.

Lemma mkdir_prefixes_existing t pre rest perm :
  dirs_below t pre rest ->
  mkdir_prefixes t pre rest perm = (t, None).
Proof.
  revert pre; induction rest as [|c rest IH]; intros pre H; [done|]. cbn.
  destruct (dirs_below_cons _ _ _ _ H) as ((i & m & ->) & Hr). by apply IH.
Qed.

(** Making directories that exist changes nothing. *)
Lemma live_mkdirall p perm w :
  escapes p = false -> dirs_upto (tr w) p ->
  run e (call (SMkdirAll p perm)) w = (None, bump w).
Proof.
  intros He Hd. rstep. rewrite Hnf. unfold t_mkdirall. rewrite He.
  rewrite mkdir_prefixes_existing; [done|]. by apply dirs_upto_below.
Qed.

Lemma live_writeAndSync r p d w :
  dr_at r = [] -> p <> [] -> t_parent (tr w) p = None -> dents (tr w) !! p = None ->
  (run e (writeAndSync r p d) w).1 = None.
Proof.
  intros Hat Hp Hpar Hn. unfold writeAndSync, writeAllAndSync. rewrite rp_root by done. live.
  unfold t_open_excl. destruct p as [|c p]; [done|]. rewrite Hpar, Hn. live.
  rewrite bool_decide_eq_true_2 by done. by live.
Qed.

Lemma live_renameNoReplace r p q i w :
  dr_at r = [] -> p <> [] -> q <> [] -> t_parent (tr w) p = None -> dents (tr w) !! p = Some (NFile i) ->
  t_parent (tr w) q = None -> dents (tr w) !! q = None ->
  (exists j m, t_node (tr w) (Dir p) = Ok (NDir j m)) -> (exists j m, t_node (tr w) (Dir q) = Ok (NDir j m)) ->
  (run e (renameNoReplace r p q) w).1 = None.
Proof.
  intros Hat Hp Hq Hpp Hip Hpq Hiq (j1 & m1 & Hd1) (j2 & m2 & Hd2).
  unfold renameNoReplace. rewrite !rp_root by done. live. unfold t_open, t_follow.
  rewrite Hd1. live. unfold t_open, t_follow. rewrite Hd2. live. unfold t_rename_noreplace.
  by rewrite (t_node_lookup _ _ _ Hp Hpp Hip), (t_node_absent _ _ Hq Hpq Hiq), Hpq.
Qed.

(** A program of which the result is known, inside a larger one. *)
Lemma run_ro_bind {A B} (p : prog A) (k : A -> prog B) w a :
  ro p -> (run e p w).1 = a ->
  exists w', run e (prog_bind p k) w = run e (k a) w' /\ tr w' = tr w /\ ctl_eq w w'.
Proof.
  intros Hp <-. exists (run e p w).2. rewrite run_bind. split; [done|]. by apply run_ro.
Qed.

End live.

(** Concrete worlds on which the theorems are instantiated: a queue with the mailboxes of
    two agents, an environment in which nothing fails and one in which a chosen call does. *)

Definition base_info : info := Info KDir 7 448 0.

(** An environment given by its failures; the base path keeps its identity. *)
Definition sample_env (fault : nat -> option fault) : env :=
  Env fault (fun _ _ => Ok base_info) (fun n => 1700000000 + Z.of_nat n)%Z
    (fun _ n => str_take n "0123456789abcdef") (fun _ => 4242%Z) (fun n => Z.of_nat n) (fun _ l => l)
    (fun _ _ => Permutation_refl _).

Definition quiet_env : env := sample_env (fun _ => None).
Definition failing_env (n : nat) (x : ioerr) : env :=
  sample_env (fun k => if Nat.eqb k n then Some (Fault x 0) else None).

Definition mailbox_dirs (a : string) : list path :=
  [["agents"; a]; ["agents"; a; "inbox"]; ["agents"; a; "inbox"; "tmp"];
   ["agents"; a; "inbox"; "new"]; ["agents"; a; "inbox"; "cur"];
   ["agents"; a; "dlq"]; ["agents"; a; "dlq"; "tmp"]; ["agents"; a; "dlq"; "new"];
   ["agents"; a; "dlq"; "cur"]; ["agents"; a; "receipts"]].

Definition sample_dirs : list path := ["agents"] :: mailbox_dirs "alice" ++ mailbox_dirs "bob".

Definition sample_tree (files : list (path * string)) : tree :=
  let t := foldl (fun t p => add_dir t p 448) (Tree ∅ ∅ 1) sample_dirs in
  foldl (fun t '(p, s) => t_write (add_file t p) (fresh_ino t) s) t files.

Definition sample_world (files : list (path * string)) : world :=
  World (sample_tree files) 0 ∅ 0 ∅.

Definition sample_root : DeliveryRoot := MkRoot true ["queue"] [] base_info None false.

(** A run whose error result is known, in the form the theorems ask for. *)
Lemma run_outcome {A} (x : (A * option gerr) * world) (o : option gerr) :
  x.1.2 = o -> x = ((x.1.1, o), x.2).
Proof. destruct x as [[a o'] w]. by intros <-. Qed.

Definition is_err {A} (x : (A * option gerr) * world) : bool :=
  match x.1.2 with Some _ => true | None => false end.

Lemma run_error {A} (x : (A * option gerr) * world) :
  is_err x = true -> exists err, x = ((x.1.1, Some err), x.2).
Proof. destruct x as [[a [err|]] w]; [|done]. by exists err. Qed.

Lemma triple_eta {A B C} (x : A * B * C) : x = ((x.1.1, x.1.2), x.2).
Proof. by destruct x as [[a b] c]. Qed.
