(* ===== verification/Ambient.v ===== *)
(** File operations by ambient path: internal/fsq/atomic.go, regular_file.go, sync_unix.go and
    scan.go.  They make the same calls as the operations of a pinned root, without
    VerifyBase; paths are those of the tree of the world, the queue root being a path in it. *)
From S2P Require Import Prelude GoStr GoPath GoErr Fs Wp Names.
From S2P Require DeliveryRoot.

Definition SyncDir (dir : path) : prog (option gerr) :=
  let_ok f := sys (SOpen dir) orelse x => Ret (Some (EErrno x)) in
  syncErr ← sys (SFsync f);
  closeErr ← sys (SClose f);
  match syncErr with
  | Er x => if DeliveryRoot.isSyncUnsupported x then Ret None else Ret (Some (EErrno x))
  | Ok _ => Ret (match closeErr with Er x => Some (EErrno x) | Ok _ => None end)
  end.

Definition writeAndSync (p : path) (data : string) : prog (option gerr) :=
  let_ok file := sys (SOpenExcl p) orelse x => Ret (Some (EErrno x)) in
  err ← DeliveryRoot.writeAllAndSync file data;
  closeErr ← call (SClose file);
  match (match err with None => closeErr | Some _ => err end) with
  | None => Ret None
  | Some e => _ ← sys (SRemove p); Ret (Some e)
  end.

(** A new file as several callers outside of fsq write it, with a noun for their errors: created,
    written, synced, closed; removed again when one of them fails. *)
Definition write_new (noun : string) (p : path) (data : string) : prog (option gerr) :=
  let_ok file := sys (SOpenExcl p) orelse x => Ret (Some (Errorf ("create " +:+ noun) (EErrno x))) in
  let undo verb e := _ ← sys (SRemove p); Ret (Some (Errorf (verb +:+ noun) e)) in
  w ← sys (SWrite file data);
  match w with
  | (_, Some x) => _ ← sys (SClose file); undo "write " (EErrno x)
  | (_, None) =>
    if_err e := call (SFsync file) then _ ← sys (SClose file); undo "sync " e else
    if_err e := call (SClose file) then undo "close " e else
    Ret None
  end.

Definition cleanupTemp (p : path) (primary : gerr) : prog gerr :=
  x ← sys (SRemove p);
  match x with
  | Er n => if negb (os_IsNotExist (EErrno n)) then Ret (Errorf "cleanup" primary) else Ret primary
  | Ok _ => Ret primary
  end.

Definition WriteFileAtomic (dir : path) (filename data : string) : prog (path * option gerr) :=
  if_err e := call (SMkdirAll dir 448) then Ret ([], Some e) else
  now ← sys SNow;
  let tmpName := "." +:+ filename +:+ ".tmp-" +:+ itoa now in
  let tmpPath := Join_under dir [tmpName] in
  let finalPath := Join_under dir [filename] in
  if_err e := writeAndSync tmpPath data then Ret ([], Some e) else
  if_err e := SyncDir dir then e' ← cleanupTemp tmpPath e; Ret ([], Some e') else
  if_err e := call (SRename tmpPath finalPath) then e' ← cleanupTemp tmpPath e; Ret ([], Some e') else
  if_err e := SyncDir dir then Ret ([], Some e) else
  Ret (finalPath, None).

Definition OpenRegularNoFollow (p : path) : prog (option (handle * info) * option gerr) :=
  let_ok i := sys (SLstat p) orelse x => Ret (None, Some (EErrno x)) in
  match DeliveryRoot.validateRegularNoFollowFile i with
  | Some e => Ret (None, Some e)
  | None =>
    let_ok file := sys (SOpenNoFollow p) orelse x => Ret (None, Some (EErrno x)) in
    let_ok openedInfo := sys (SFstat file) orelse x =>
      Ret (None, Some (Errorf "stat queue artifact" (EErrno x))) in
    match DeliveryRoot.validateRegularNoFollowFile openedInfo with
    | Some e => Ret (None, Some e)
    | None => Ret (Some (file, openedInfo), None)
    end
  end.

Definition ReadRegularNoFollow (p : path) : prog (string * option gerr) :=
  x ← OpenRegularNoFollow p;
  match x with
  | (Some (file, _), None) =>
    let_ok s := sys (SReadAll file) orelse x => Ret ("", Some (EErrno x)) in Ret (s, None)
  | (_, Some e) => Ret ("", Some e)
  | (None, None) => Ret ("", None)
  end.

(** os.ReadFile and os.ReadDir; os.ReadDir sorts the entries by name. *)
Definition os_ReadFile (p : path) : prog (string * option gerr) :=
  let_ok h := sys (SOpen p) orelse x => Ret ("", Some (EErrno x)) in
  let_ok s := sys (SReadAll h) orelse x => Ret ("", Some (EErrno x)) in
  Ret (s, None).

Fixpoint insert_entry (x : string * kind) (l : list (string * kind)) : list (string * kind) :=
  match l with
  | [] => [x]
  | y :: l' => if str_ltb y.1 x.1 then y :: insert_entry x l' else x :: l
  end.
Definition sort_entries (l : list (string * kind)) : list (string * kind) := foldr insert_entry [] l.

Definition os_ReadDir (p : path) : prog (list (string * kind) * option gerr) :=
  let_ok h := sys (SOpen p) orelse x => Ret ([], Some (EErrno x)) in
  if negb (bool_decide (h_kind h = KDir)) then Ret ([], Some (EErrno ENOTDIR)) else
  let_ok l := sys (SReadDir h) orelse x => Ret ([], Some (EErrno x)) in
  Ret (sort_entries l, None).

(** ** scan.go *)

Definition ListAgents (root : path) : prog (list string * option gerr) :=
  let_val entries := os_ReadDir (Join_under root ["agents"]) orelse e => Ret ([], Some e) in
  Ret (sort_strings (fst <$> List.filter (fun x => bool_decide (x.2 = KDir)) entries), None).
