(* ===== verification/AmbientFacts.v ===== *)
(** What writing a new file does to the tree. *)
From S2P Require Import Prelude GoStr GoSort GoPath GoErr Fs Wp FsFacts Names DeliveryRoot DeliveryRootFacts Sample.
From S2P Require Ambient.

(** One file may have been added, and nothing that was there is different. *)
Definition adds (p : path) (t t' : tree) : Prop :=
  evo (eq p) t t' /\ (is_Some (dents t !! p) -> dents t' !! p = dents t !! p).

Lemma adds_content p t t' q d : adds p t t' -> content t q = Some d -> content t' q = Some d.
Proof.
  intros [Hev Hs] Hc. destruct (decide (p = q)) as [->|Hne]; [|by eapply evo_content].
  unfold content in *. destruct (dents t !! q) as [n|] eqn:E; [|done]. rewrite Hs by done.
  destruct n; try done. eapply lookup_weaken; [done|apply Hev].
Qed.

Lemma adds_refl p t : adds p t t.
Proof. split; [apply evo_refl|done]. Qed.

Lemma adds_dirs p t t' : evo (fun _ => False) t t' -> adds p t t'.
Proof.
  intros Hev. split; [by eapply evo_mono, Hev|]. intros [n Hn]. rewrite Hn.
  eapply evo_entry; [exact Hev|by intros []|done].
Qed.

Lemma adds_trans p t1 t2 t3 : adds p t1 t2 -> adds p t2 t3 -> adds p t1 t3.
Proof.
  intros [E1 S1] [E2 S2]. split; [by eapply evo_trans|]. intros Hs. rewrite S2, S1 by (done || by rewrite S1). done.
Qed.

Section write.
Context (e : env).

Lemma wpi_write_new I noun p d w :
  (forall t, evo (eq p) (tr w) t -> I t) -> wpi e I (Ambient.write_new noun p d) (written_or_failed p d w) w.
Proof.
  intros HI. unfold Ambient.write_new. wbind. apply wpi_sys.
  { cbn. unfold upd, t_open_excl.
    repeat case_match; simplify_eq; cbn; apply HI; try done; by apply evo_add_file. }
  cbn [exec]. unfold upd. destruct (e_fault e (tick w)) as [f|]; cbn; [by wret; wret|].
  destruct (t_open_excl (tr w) p) as [[h t1]|x] eqn:Eo; cbn; [|by wret; wret].
  unfold t_open_excl in Eo. destruct p as [|c p]; [done|]. remember (c :: p) as P eqn:HP.
  destruct (t_parent (tr w) P) eqn:Hpar; [done|]. destruct (dents (tr w) !! P) eqn:Hn; [done|]. simplify_eq.
  wret. wbind. apply wpi_sys.
  { cbn. destruct (e_fault e (S (tick w))); cbn; apply HI; by apply t_write_fresh_evo. }
  wret. cbn. destruct (e_fault e (S (tick w))) as [f|]; cbn.
  - apply wpi_ro_bind; [ro_tac|by apply HI, t_write_fresh_evo|]. intros c' w3 Ht3 Hc3.
    apply wpi_write_giveup; try done. rewrite Ht3; by apply t_write_fresh_evo.
  - apply wpi_ro_bind; [ro_tac|by apply HI, t_write_fresh_evo|]. intros [x|] w3 Ht3 Hc3.
    + apply wpi_ro_bind; [ro_tac|rewrite Ht3; by apply HI, t_write_fresh_evo|]. intros c' w4 Ht4 Hc4.
      apply wpi_write_giveup; try done; [|by eapply ctl_eq_trans]. rewrite Ht4, Ht3; by apply t_write_fresh_evo.
    + apply wpi_ro_bind; [ro_tac|rewrite Ht3; by apply HI, t_write_fresh_evo|]. intros [x|] w4 Ht4 Hc4.
      * apply wpi_write_giveup; try done; [|by eapply ctl_eq_trans]. rewrite Ht4, Ht3; by apply t_write_fresh_evo.
      * wret. split; [rewrite Ht4, Ht3; by apply t_write_fresh_evo|]. split; [by eapply ctl_eq_trans|]. split.
        -- intros _. repeat split; try done. rewrite Ht4, Ht3. apply t_write_fresh_content.
        -- rewrite Hn. by intros [??].
Qed.

End write.

Lemma written_adds p d w o w' : written_or_failed p d w o w' -> adds p (tr w) (tr w').
Proof. intros (Hev & _ & _ & Hs). split; [done|]. intros H. by destruct (Hs H) as [-> _]. Qed.

(** The world of a file being written where nothing was, or as it was. *)
Lemma wpi_write_new_adds e I noun p d w :
  (forall t, adds p (tr w) t -> I t) ->
  wpi e I (Ambient.write_new noun p d) (fun o w' => adds p (tr w) (tr w') /\
    (o = None -> dents (tr w) !! p = None /\ content (tr w') p = Some d)) w.
Proof.
  intros HI. destruct (dents (tr w) !! p) as [n|] eqn:Hn.
  - unfold Ambient.write_new. wbind. assert (exists x, exec e (SOpenExcl p) w = (Er x, bump w)) as [x Hx].
    { cbn. unfold upd, t_open_excl. destruct (e_fault e (tick w)); [by eexists|]. destruct p as [|a p]; [by eexists|].
      destruct (t_parent _ _); [by eexists|]. rewrite Hn. by eexists. }
    apply wpi_sys; rewrite Hx; [apply HI, adds_refl|]. cbn [fst snd]. do 2 wret. split; [apply adds_refl|done].
  - eapply wpi_mono; [apply wpi_write_new|].
    { intros t Ht. apply HI. split; [done|]. rewrite Hn. by intros []. }
    intros o w' Hw. split; [by eapply written_adds|]. intros Ho. destruct Hw as (_ & _ & Hw & _). by apply Hw in Ho as (_ & ? & _ & ?).
Qed.

(** The operations on paths: those that only read, and runs in which no call fails. *)

Lemma ro_OpenRegular p : ro (Ambient.OpenRegularNoFollow p).
Proof. unfold Ambient.OpenRegularNoFollow. ro_tac; repeat case_match; ro_tac. Qed.
Lemma ro_os_ReadDir p : ro (Ambient.os_ReadDir p).
Proof. unfold Ambient.os_ReadDir. ro_tac; repeat case_match; ro_tac. Qed.
#[export] Hint Resolve ro_OpenRegular ro_os_ReadDir : amq.

Lemma validate_file x : i_kind x = KFile -> DeliveryRoot.validateRegularNoFollowFile x = None.
Proof. unfold DeliveryRoot.validateRegularNoFollowFile. by intros ->. Qed.

Lemma live_OpenRegularNoFollow e p i w :
  healthy e -> p <> [] -> t_parent (tr w) p = None -> dents (tr w) !! p = Some (NFile i) ->
  run e (Ambient.OpenRegularNoFollow p) w =
    ((Some (Handle KFile i p, Info KFile i 384 (String.length (default "" (data (tr w) !! i)))), None), bump (bump (bump w))).
Proof.
  intros Hnf Hp Hpar Hi. unfold Ambient.OpenRegularNoFollow.
  live. unfold t_lstat. rewrite (t_node_lookup _ _ _ Hp Hpar Hi). live.
  rewrite !validate_file by done. live. unfold t_open_nofollow.
  rewrite (t_node_lookup _ _ _ Hp Hpar Hi). live. rewrite !validate_file by done. live. done.
Qed.

Lemma insert_entry_perm x m : Ambient.insert_entry x m ≡ₚ x :: m.
Proof.
  induction m as [|y m IH]; [done|]. cbn. destruct (str_ltb y.1 x.1); [|done]. rewrite IH. by constructor.
Qed.

Lemma sort_entries_perm l : Ambient.sort_entries l ≡ₚ l.
Proof.
  unfold Ambient.sort_entries. induction l as [|x l IH]; [done|]. cbn. by rewrite insert_entry_perm, IH.
Qed.

Lemma children_elem t p name n :
  dents t !! (p ++ [name]) = Some n -> (name, node_kind n) ∈ children t p.
Proof.
  intros Hn. unfold children. apply list_elem_of_fmap. exists (p ++ [name], n). split.
  - unfold Base. cbn [fst snd]. by rewrite last_snoc.
  - apply list_elem_of_In, filter_In. split; [by apply list_elem_of_In, elem_of_map_to_list|].
    unfold is_child. cbn [fst]. destruct (p ++ [name]) eqn:E; [by apply snoc_not_nil in E|]. rewrite <-E.
    apply bool_decide_eq_true. apply Dir_snoc.
Qed.

Lemma live_os_ReadDir e p j m w :
  healthy e -> t_node (tr w) p = Ok (NDir j m) ->
  run e (Ambient.os_ReadDir p) w =
    ((Ambient.sort_entries (e_order e (tick w + 1) (children (tr w) p)), None), bump (bump w)).
Proof.
  intros Hnf Hnode. unfold Ambient.os_ReadDir. live. unfold t_open, t_follow. rewrite Hnode. live.
  change (bool_decide (KDir = KDir)) with true. cbn [negb]. live. by rewrite Nat.add_1_r.
Qed.
