(* ===== verification/Maildir.v ===== *)
(** Delivery into inboxes: internal/fsq/maildir.go. *)
From S2P Require Import Prelude GoStr GoPath GoErr Fs Wp Names DeliveryRoot.

Record stagedDelivery := Staged {
  sd_recipient : string;
  sd_tmpDir : path;
  sd_newDir : path;
  sd_tmpPath : path;
  sd_newPath : path;
}.

(** ** Temporary names *)

Definition attempt_name (filename : string) (nano pid : Z) (random : string) : string :=
  "." +:+ filename +:+ ".tmp-" +:+ itoa nano +:+ "-" +:+ itoa pid +:+ "-" +:+ EncodeToString random.

Definition uniqueAttemptTmpName (filename : string) : prog (string * option gerr) :=
  let_ok b := sys (SRandom 6) orelse x =>
    Ret ("", Some (Errorf "generate unique tmp name" (EErrno x))) in
  nano ← sys SNow;
  pid ← sys SGetpid;
  Ret (attempt_name filename nano pid b, None).

Definition uniqueAttemptTmpPath (tmpDir : path) (filename : string)
  : prog (path * option gerr) :=
  let_val name := uniqueAttemptTmpName filename orelse e => Ret ([], Some e) in
  Ret (Join_under tmpDir [name], None).

Definition attemptTmpMatches (filename name : string) : bool :=
  if bool_decide (name = filename) then true
  else HasPrefix name ("." +:+ filename +:+ ".tmp-").

(** ** Publishing *)

Definition resolvePublishCollision (r : DeliveryRoot) (tmpPath newPath : path)
    (data : string) (renameErr : gerr) : prog (option gerr) :=
  x ← ReadRegularNoFollow r newPath;
  match x with
  | (_, Some _) => Ret (Some (Errorf "inspect dest" renameErr))
  | (existing, None) =>
    if bool_decide (existing = data) then
      y ← sys (SRemove (rp r tmpPath));
      match y with
      | Er n => if negb (os_IsNotExist (EErrno n))
                then Ret (Some (Errorf "remove idempotent tmp after collision" (EErrno n)))
                else Ret None
      | Ok _ => Ret None
      end
    else Ret (Some renameErr)
  end.

Definition publishTmpNoReplace (r : DeliveryRoot) (tmpPath newPath : path) (data : string)
  : prog (option gerr) :=
  if_err e := renameNoReplace r tmpPath newPath then
    (if errors_Is_Exist e then resolvePublishCollision r tmpPath newPath data e
     else e' ← cleanupTemp r tmpPath e; Ret (Some e'))
  else Ret None.

(** ** Cleaning up *)

Fixpoint cleanupTmpStages_from (r : DeliveryRoot) (stages : list stagedDelivery)
    (cleanupErr : option gerr) : prog (option gerr) :=
  match stages with
  | [] => Ret cleanupErr
  | stage :: stages' =>
    x ← sys (SRemove (rp r (sd_tmpPath stage)));
    let cleanupErr :=
      match x with
      | Er n => if negb (os_IsNotExist (EErrno n))
                then errors_Join [cleanupErr; Some (Errorf "cleanup tmp" (EErrno n))]
                else cleanupErr
      | Ok _ => cleanupErr
      end in
    s ← syncDir r (sd_tmpDir stage);
    let cleanupErr :=
      match s with
      | Some e => errors_Join [cleanupErr; Some (Errorf "sync tmp dir" e)]
      | None => cleanupErr
      end in
    cleanupTmpStages_from r stages' cleanupErr
  end.

Definition cleanupTmpStages (r : DeliveryRoot) (stages : list stagedDelivery)
  : prog (option gerr) := cleanupTmpStages_from r stages None.

Definition cleanupStagedTmp (r : DeliveryRoot) (stages : list stagedDelivery) (primary : gerr)
  : prog gerr :=
  cleanupErr ← cleanupTmpStages r stages;
  match cleanupErr with
  | None => Ret primary
  | Some _ => Ret (Errorf "cleanup" primary)
  end.

Definition delivered_map (r : DeliveryRoot) (committed : list stagedDelivery) : gmap string path :=
  foldl (fun m s => <[sd_recipient s := displayPath r (sd_newPath s)]> m) ∅ committed.

Definition partialDeliveryError (r : DeliveryRoot) (committed : list stagedDelivery)
    (failed : stagedDelivery) (pending : list stagedDelivery) (primary : gerr) : prog gerr :=
  let undelivered := if negb (errors_Is_Exist primary) then failed :: pending else pending in
  cleanupErr ← cleanupTmpStages r undelivered;
  let primary := match cleanupErr with Some _ => Errorf "cleanup" primary | None => primary end in
  Ret (EPartialDelivery (delivered_map r committed) (sd_recipient failed)
         (sd_recipient <$> pending) primary).

Definition committedDeliveryError (r : DeliveryRoot) (committed pending : list stagedDelivery)
    (primary : gerr) : prog gerr :=
  cleanupErr ← cleanupTmpStages r pending;
  let primary := match cleanupErr with Some _ => Errorf "cleanup" primary | None => primary end in
  Ret (EPartialDelivery (delivered_map r committed) "" (sd_recipient <$> pending) primary).

(** ** DeliverToInboxes *)

Definition inbox_dir (agent box : string) : path := Join ["agents"; agent; "inbox"; box].

(** One iteration of the staging loop: the staged delivery, or the error and whether this
    iteration's own temporary was already dealt with. *)
Definition stage_one (r : DeliveryRoot) (filename data recipient : string)
  : prog (option stagedDelivery * option gerr) :=
  let tmpDir := inbox_dir recipient "tmp" in
  let newDir := inbox_dir recipient "new" in
  if_err e := call (SMkdirAll (rp r tmpDir) 448) then Ret (None, Some e) else
  if_err e := call (SMkdirAll (rp r newDir) 448) then Ret (None, Some e) else
  let_val tmpPath := uniqueAttemptTmpPath tmpDir filename orelse e => Ret (None, Some e) in
  let newPath := Join_under newDir [filename] in
  if_err e := writeAndSync r tmpPath data then Ret (None, Some e) else
  if_err e := syncDir r tmpDir then e' ← cleanupTemp r tmpPath e; Ret (None, Some e') else
  Ret (Some (Staged recipient tmpDir newDir tmpPath newPath), None).

Fixpoint stage_all (r : DeliveryRoot) (filename data : string) (recipients : list string)
    (stages : list stagedDelivery) : prog (list stagedDelivery * option gerr) :=
  match recipients with
  | [] => Ret (stages, None)
  | recipient :: rest =>
    x ← stage_one r filename data recipient;
    match x with
    | (Some s, None) => stage_all r filename data rest (stages ++ [s])
    | (_, Some err) => e' ← cleanupStagedTmp r stages err; Ret ([], Some e')
    | (None, None) => Ret ([], None)
    end
  end.

Fixpoint commit_all (r : DeliveryRoot) (data : string) (committed stages : list stagedDelivery)
  : prog (option gerr) :=
  match stages with
  | [] => Ret None
  | stage :: pending =>
    if_err err := publishTmpNoReplace r (sd_tmpPath stage) (sd_newPath stage) data then
      (let err := if errors_Is_errno (IOErr EXDEV) err
                  then Errorf "rename tmp->new: different filesystems" err
                  else Errorf "rename tmp->new" err in
       e' ← partialDeliveryError r committed stage pending err; Ret (Some e'))
    else
    if_err err := syncDir r (sd_newDir stage) then
      (let commitErr := ECommitted (displayPath r (sd_newPath stage)) (sd_recipient stage)
                          (Errorf "sync new dir" err) in
       e' ← committedDeliveryError r (committed ++ [stage]) pending commitErr; Ret (Some e'))
    else
    _ ← syncDir r (sd_tmpDir stage);
    commit_all r data (committed ++ [stage]) pending
  end.

Definition DeliverToInboxes (r : DeliveryRoot) (recipients : list string)
    (filename data : string) : prog (gmap string path * option gerr) :=
  match recipients with
  | [] => Ret (∅, Some (EMsg "no recipients provided"))
  | _ =>
    match ValidateMessageFilename filename with
    | Some e => Ret (∅, Some e)
    | None =>
      match find_some ValidateHandle recipients with
      | Some e => Ret (∅, Some e)
      | None =>
        if_err e := VerifyBase r then Ret (∅, Some e) else
        let_val stages := stage_all r filename data recipients [] orelse e => Ret (∅, Some e) in
        if_err e := commit_all r data [] stages then Ret (∅, Some e) else
        Ret (delivered_map r stages, None)
      end
    end
  end.

Definition DeliverToInbox (r : DeliveryRoot) (agent filename data : string)
  : prog (path * option gerr) :=
  let_val paths := DeliverToInboxes r [agent] filename data orelse e => Ret ([], Some e) in
  Ret (default [] (paths !! agent), None).

#[global] Arguments inbox_dir : simpl never.
#[global] Arguments Join : simpl never.
#[global] Arguments Join_under : simpl never.
#[global] Arguments displayPath : simpl never.
