(* ===== verification/Delivery.v ===== *)
(** Delivery: what DeliverToInboxes does to the tree, call by call and as a whole. *)
From S2P Require Import Prelude GoStr GoPath GoErr Fs Wp FsFacts Names DeliveryRoot DeliveryRootFacts Sample Maildir.

(** ** Names *)

Definition box_path (agent box : string) (f : string) : path := ["agents"; agent; "inbox"; box; f].

Lemma inbox_dir_plain a box :
  plain a = true -> plain box = true -> inbox_dir a box = ["agents"; a; "inbox"; box].
Proof. intros Ha Hb. unfold inbox_dir. apply Join_plain. by repeat constructor. Qed.

Lemma inbox_dir_depth a box :
  plain a = true -> plain box = true -> (length (inbox_dir a box) <= layout_depth)%nat.
Proof. intros. by rewrite inbox_dir_plain. Qed.

Lemma inbox_file_plain a box f :
  plain a = true -> plain box = true -> plain f = true ->
  Join_under (inbox_dir a box) [f] = box_path a box f.
Proof.
  intros Ha Hb Hf. rewrite inbox_dir_plain by done.
  rewrite Join_under_plain; [done| |]; by repeat constructor.
Qed.

Lemma attempt_name_hidden f nano pid b : HasPrefix (attempt_name f nano pid b) "." = true.
Proof. apply HasPrefix_app. Qed.

(** The name of a temporary is a single path component. *)
Lemma dot_name_plain f rest :
  plain f = true -> HasPrefix f "." = false -> str_mem slash rest = false -> plain ("." +:+ f +:+ rest) = true.
Proof.
  intros (Hne & _ & _ & Hs)%plain_spec Hd Hr.
  change ("." +:+ f +:+ rest) with (String (chr 46) (f +:+ rest)).
  apply plain_spec. destruct f as [|c f]; [done|]. repeat split; try done.
  - rewrite string_app_cons. cbn in Hd. intros [= -> ?]. by destruct f.
  - cbn [str_mem]. by rewrite str_mem_app, Hs, Hr.
Qed.

Lemma attempt_name_plain f nano pid b :
  ValidateMessageFilename f = None -> plain (attempt_name f nano pid b) = true.
Proof.
  intros Hf. apply (dot_name_plain f (".tmp-" +:+ itoa nano +:+ "-" +:+ itoa pid +:+ "-" +:+ EncodeToString b));
    [by apply filename_plain|by apply filename_not_hidden|].
  rewrite !str_mem_app.
  rewrite (numeral_no_char slash (itoa nano)), (numeral_no_char slash (itoa pid)),
    (numeral_no_char slash (EncodeToString b))
    by (done || apply itoa_numeral || apply EncodeToString_numeral). done.
Qed.

Lemma box_path_depth a box f : (layout_depth < length (box_path a box f))%nat.
Proof. unfold layout_depth. cbn. lia. Qed.

Lemma box_path_hidden a box f : HasPrefix f "." = true -> hidden (box_path a box f).
Proof. done. Qed.

Lemma box_path_visible a box f : HasPrefix f "." = false -> ~ hidden (box_path a box f).
Proof. unfold hidden, box_path, Base. cbn [last default from_option id]. by intros ->. Qed.

(** ** Publishing *)

(** Between [t] and [t'], the entry at [p] is untouched, or it was missing and is now a
    regular file with the whole of [d]: never replaced, never partial. *)
Definition published_or_same (p : path) (d : string) (t t' : tree) : Prop :=
  dents t' !! p = dents t !! p \/ (dents t !! p = None /\ content t' p = Some d).

Lemma published_trans p d t1 t2 t3 :
  data t2 ⊆ data t3 -> published_or_same p d t1 t2 -> published_or_same p d t2 t3 ->
  published_or_same p d t1 t3.
Proof.
  unfold published_or_same, content. intros Hd [E1|[N1 C1]] [E2|[N2 C2]].
  - left. congruence.
  - right. split; [congruence|done].
  - right. split; [done|]. rewrite E2. destruct (dents t2 !! p) as [[]|]; try done.
    by eapply lookup_weaken.
  - right. by split.
Qed.

Lemma published_same p d t : published_or_same p d t t.
Proof. by left. Qed.

Lemma content_file t p d : content t p = Some d -> exists i, dents t !! p = Some (NFile i) /\ data t !! i = Some d.
Proof. unfold content. destruct (dents t !! p) as [[i| | |]|]; try done. by exists i. Qed.

Abbreviation tmps := (fmap sd_tmpPath).
Abbreviation news := (fmap sd_newPath).

Section facts.
Context (e : env) (r : DeliveryRoot) (Hat : dr_at r = []).

Definition publish_inv (tmp new : path) (d : string) (t t' : tree) : Prop :=
  evo (fun x => x = tmp \/ x = new) t t' /\ published_or_same new d t t' /\
  (dents t' !! tmp = dents t !! tmp \/ dents t' !! tmp = None).

Lemma publish_inv_refl tmp new d t : publish_inv tmp new d t t.
Proof. split; [done|]. split; by left. Qed.
#[local] Hint Resolve publish_inv_refl : amq.

Lemma publish_inv_delete tmp new d t i :
  tmp <> new -> dents t !! tmp = Some (NFile i) -> publish_inv tmp new d t (set_dents (delete tmp) t).
Proof.
  intros Hne Hi. split; [|split].
  - eapply evo_mono; [|apply evo_delete; by rewrite Hi]. intros p <-. by left.
  - left. cbn. by rewrite lookup_delete_ne.
  - right. cbn. by rewrite lookup_delete_eq.
Qed.

Lemma publish_inv_move tmp new d t i :
  tmp <> new -> dents t !! tmp = Some (NFile i) -> data t !! i = Some d -> dents t !! new = None ->
  publish_inv tmp new d t (set_dents (fun m => <[new := NFile i]> (delete tmp m)) t).
Proof.
  intros Hne Hi Hd Hn. split; [by apply evo_move|]. split; right.
  - split; [done|]. unfold content. cbn. by rewrite lookup_insert_eq.
  - cbn. rewrite lookup_insert_ne by done. apply lookup_delete_eq.
Qed.

Lemma wpi_resolveCollision I tmp new d err w :
  tmp <> [] -> tmp <> new -> content (tr w) tmp = Some d -> t_parent (tr w) tmp = None ->
  is_committed err = false ->
  (forall t, publish_inv tmp new d (tr w) t -> I t) ->
  wpi e I (resolvePublishCollision r tmp new d err) (fun o w' =>
    ctl_eq w w' /\ publish_inv tmp new d (tr w) (tr w') /\
    match o with
    | None => content (tr w') new = Some d /\ dents (tr w') !! tmp = None
    | Some x => dents (tr w') !! new = dents (tr w) !! new /\ is_committed x = false
    end) w.
Proof.
  intros Htmp Hne Hc Hpar Herr HI. apply content_file in Hc as (i & Hi & Hd).
  unfold resolvePublishCollision. wbind.
  eapply wpi_mono; [apply wpi_ReadRegularNoFollow; [done|apply HI; auto with amq]|].
  intros [s [x|]] w1 (Ht1 & Hc1 & Hs); cbn in Hs;
    [wret; rewrite Ht1, is_committed_Errorf; auto with amq|].
  destruct (Hs eq_refl) as [Hs' _]. clear Hs. rename Hs' into Hs. case_bool_decide as Hsd; [subst s|wret; rewrite Ht1; auto with amq].
  rewrite rp_root by done. wbind. pose proof (publish_inv_delete tmp new d (tr w) i Hne Hi) as Hdel.
  eapply wpi_mono; [apply wpi_remove_file|].
  - by rewrite Ht1, Hi.
  - rewrite Ht1. apply HI; auto with amq.
  - rewrite Ht1. by apply HI.
  - intros x w2 (Hc2 & _ & [[Ht2 (y & -> & Hy)]|[-> Ht2]]); rewrite Ht1 in *.
    + destruct (os_IsNotExist (EErrno y)); cbn; wret; rewrite Ht2.
      * destruct Hy as [Hy|Hy]; [done|congruence|done].
      * split; [by eapply ctl_eq_trans|]. auto with amq.
    + wret. rewrite Ht2. split; [by eapply ctl_eq_trans|]. split; [done|]. split.
      * unfold content in *. cbn. by rewrite lookup_delete_ne.
      * cbn. by rewrite lookup_delete_eq.
Qed.

Lemma wpi_publish I tmp new d w :
  tmp <> [] -> tmp <> new -> content (tr w) tmp = Some d -> t_parent (tr w) tmp = None ->
  (forall t, publish_inv tmp new d (tr w) t -> I t) ->
  wpi e I (publishTmpNoReplace r tmp new d) (fun o w' =>
    ctl_eq w w' /\ publish_inv tmp new d (tr w) (tr w') /\
    match o with
    | None => content (tr w') new = Some d /\ dents (tr w') !! tmp = None
    | Some x => dents (tr w') !! new = dents (tr w) !! new /\ is_committed x = false
    end) w.
Proof.
  intros Htmp Hne Hc Hpar HI. destruct (content_file _ _ _ Hc) as (i & Hi & Hd).
  unfold publishTmpNoReplace. wbind.
  eapply wpi_mono; [apply (wpi_renameNoReplace e I r tmp new i); [done|done|done|apply HI; auto with amq|]|].
  { intros Hn. apply HI. by apply publish_inv_move. }
  intros o w1 (Hc1 & [(-> & Hnew & Hn & Ht1)|(x & -> & Ht1)]).
  - wret. rewrite Ht1. split; [done|]. split; [by apply publish_inv_move|]. unfold content. cbn.
    rewrite lookup_insert_eq, lookup_insert_ne by done. split; [done|apply lookup_delete_eq].
  - case_match.
    + eapply wpi_mono; [apply wpi_resolveCollision; rewrite ?Ht1; try done|].
      rewrite Ht1. intros o w2 (Hc2 & H2). split; [by eapply ctl_eq_trans|done].
    + wbind. pose proof (publish_inv_delete tmp new d (tr w) i Hne Hi) as Hdel.
      eapply wpi_mono; [apply wpi_cleanupTemp; rewrite ?Ht1; try done|].
      { by rewrite Hi. } { apply HI; auto with amq. } { by apply HI. }
      rewrite Ht1. intros x' w2 (Hc2 & Ht2 & Hx'). wret. split; [by eapply ctl_eq_trans|].
      assert (is_committed x' = false) by (by destruct Hx' as [->| ->]).
      destruct Ht2 as [->| ->]; [by auto with amq|]. split; [done|]. cbn. by rewrite lookup_delete_ne.
Qed.

(** ** Staging *)

(** The temporary of a staged delivery is complete and can be reached. *)
Definition staged (d : string) (t : tree) (s : stagedDelivery) : Prop :=
  content t (sd_tmpPath s) = Some d /\ t_parent t (sd_tmpPath s) = None.

(** The shape of the record the staging loop builds. *)
Definition stage_shape (f : string) (s : stagedDelivery) : Prop :=
  ValidateHandle (sd_recipient s) = None /\
  sd_newPath s = box_path (sd_recipient s) "new" f /\
  exists name, sd_tmpPath s = box_path (sd_recipient s) "tmp" name /\ HasPrefix name "." = true.

Lemma stage_tmp_hidden f s : stage_shape f s -> hidden (sd_tmpPath s).
Proof. intros (_ & _ & name & -> & Hn). by apply box_path_hidden. Qed.

Lemma stage_tmp_not_nil f s : stage_shape f s -> sd_tmpPath s <> [].
Proof. by intros (_ & _ & name & -> & _). Qed.

(** A name for a temporary: hidden, and one component. *)
Lemma wpi_uniqueTmp I dir f w :
  ValidateMessageFilename f = None -> I (tr w) ->
  wpi e I (uniqueAttemptTmpPath dir f) (fun x w' =>
    tr w' = tr w /\ ctl_eq w w' /\
    match x with
    | (p, None) => exists name, p = Join_under dir [name] /\ HasPrefix name "." = true /\ plain name = true
    | (_, Some y) => visible_err y = false
    end) w.
Proof.
  intros Hf HI. unfold uniqueAttemptTmpPath, uniqueAttemptTmpName.
  wbind. apply wpi_ro_bind; [ro_tac|done|]. intros [b|x] w1 Ht1 Hc1; [|by wret; wret].
  apply wpi_ro_bind; [ro_tac|by rewrite Ht1|]. intros nano w2 Ht2 Hc2.
  apply wpi_ro_bind; [ro_tac|by rewrite Ht2, Ht1|]. intros pid w3 Ht3 Hc3.
  wret. wret. split; [congruence|]. split; [by do 2 (eapply ctl_eq_trans; [done|])|].
  exists (attempt_name f nano pid b). split; [done|]. split; [apply attempt_name_hidden|].
  by apply attempt_name_plain.
Qed.

Lemma wpi_tmpPath I a f w :
  ValidateHandle a = None -> ValidateMessageFilename f = None -> I (tr w) ->
  wpi e I (uniqueAttemptTmpPath (inbox_dir a "tmp") f) (fun x w' =>
    tr w' = tr w /\ ctl_eq w w' /\
    match x with
    | (p, None) => exists name, p = box_path a "tmp" name /\ HasPrefix name "." = true
    | (_, Some _) => True
    end) w.
Proof.
  intros Ha Hf HI. eapply wpi_mono; [by apply wpi_uniqueTmp|].
  intros [p [y|]] w' (Ht & Hc & Hx); [done|]. destruct Hx as (name & -> & Hn & Hp).
  split; [done|]. split; [done|]. exists name. split; [|done].
  apply inbox_file_plain; [by apply handle_plain|done|done].
Qed.

(** Hidden entries the tree does not have yet. *)
Definition new_hidden (t : tree) (p : path) : Prop := hidden p /\ dents t !! p = None.

Definition stage_post (f d a : string) (w : world) (x : option stagedDelivery * option gerr)
    (w' : world) : Prop :=
  ctl_eq w w' /\ evo (new_hidden (tr w)) (tr w) (tr w') /\
  match x with
  | (Some s, None) => stage_shape f s /\ sd_recipient s = a /\ staged d (tr w') s /\
      dents (tr w) !! sd_tmpPath s = None /\ evo (eq (sd_tmpPath s)) (tr w) (tr w')
  | (None, None) => False
  | (_, Some _) => True
  end.

(** Writing and syncing the temporary, once the directories are there. *)
Lemma wpi_stage_write I f d a name w0 w :
  ValidateHandle a = None -> HasPrefix name "." = true -> ValidateMessageFilename f = None ->
  (forall t, evo hidden (tr w0) t -> I t) ->
  evo (fun _ => False) (tr w0) (tr w) -> ctl_eq w0 w ->
  wpi e I (if_err x := writeAndSync r (box_path a "tmp" name) d then Ret (None, Some x) else
           if_err x := syncDir r (inbox_dir a "tmp") then
             x' ← cleanupTemp r (box_path a "tmp" name) x; Ret (None, Some x') else
           Ret (Some (Staged a (inbox_dir a "tmp") (inbox_dir a "new") (box_path a "tmp" name)
                        (Join_under (inbox_dir a "new") [f])), None))
    (stage_post f d a w0) w.
Proof.
  intros Ha Hname Hf HI Hev Hc. set (tmp := box_path a "tmp" name) in *.
  assert (hidden tmp) as Hhid by (by apply box_path_hidden).
  assert (forall P t, evo P (tr w) t -> evo P (tr w0) t) as Hup.
  { intros P t Ht. etrans; [|done]. eapply evo_mono; [|exact Hev]. done. }
  assert (forall t, evo (eq tmp) (tr w) t -> I t) as HI'.
  { intros t Ht. apply HI, Hup. eapply evo_mono; [|exact Ht]. by intros p <-. }
  assert (dents (tr w) !! tmp = None -> dents (tr w0) !! tmp = None) as Hn0.
  { intros Hn. destruct (dents (tr w0) !! tmp) eqn:E; [|done].
    by rewrite (evo_entry _ _ _ _ _ Hev (fun H => H) E) in Hn. }
  assert (forall t, dents (tr w) !! tmp = None -> evo (eq tmp) (tr w) t ->
            evo (new_hidden (tr w0)) (tr w0) t) as Hnew.
  { intros t Hn Ht. apply Hup. eapply evo_mono; [|exact Ht]. intros p <-. by split; auto. }
  wbind. eapply wpi_mono; [apply wpi_writeAndSync; auto|].
  intros [x|] w4 (Hev4 & Hc4 & Hw & Hold); pose proof (ctl_eq_trans _ _ _ Hc Hc4) as Hcw4.
  { wret. split; [done|]. split; [|done]. destruct (dents (tr w) !! tmp) eqn:E; [|by auto].
    destruct Hold as [-> _]; [done|]. by apply Hup. }
  destruct (Hw eq_refl) as (Hne & Hn & Hpar & Hcont). clear Hw Hold.
  pose proof (evo_parent _ _ _ _ Hev4 Hpar) as Hpar4.
  apply wpi_ro_bind; [auto with amq|auto|]. intros o w5 Ht5 Hc5.
  pose proof (ctl_eq_trans _ _ _ Hcw4 Hc5) as Hcw5. rewrite <-Ht5 in *.
  assert (forall i m, dents (tr w5) !! tmp <> Some (NDir i m)) as Hnd.
  { apply content_file in Hcont as (j & -> & _). done. }
  destruct o as [x|].
  - assert (evo (eq tmp) (tr w) (set_dents (delete tmp) (tr w5))) as Hdel.
    { etrans; [done|]. by apply evo_delete. }
    wbind. eapply wpi_mono; [apply wpi_cleanupTemp; auto|].
    intros x' w6 (Hc6 & Ht6 & _). wret. split; [by eapply ctl_eq_trans|]. split; [|done].
    destruct Ht6 as [->| ->]; auto.
  - wret. split; [done|]. split; [auto|].
    split; [|split; [done|split; [by split|by split; auto]]].
    split; [done|]. split; [|by exists name].
    apply inbox_file_plain; [by apply handle_plain|done|by apply filename_plain].
Qed.

Lemma wpi_stage_one I f d a w :
  ValidateHandle a = None -> ValidateMessageFilename f = None ->
  (forall t, evo hidden (tr w) t -> I t) ->
  wpi e I (stage_one r f d a) (stage_post f d a w) w.
Proof.
  intros Ha Hf HI. unfold stage_one. rewrite !rp_root by done.
  assert (forall P t t', evo (fun _ => False) t t' -> evo P t t') as Hsub.
  { intros P t t'. by apply evo_mono. }
  assert (forall box, plain box = true -> (length (inbox_dir a box) <= layout_depth)%nat) as Hdep.
  { intros box Hb. apply inbox_dir_depth; [by apply handle_plain|done]. }
  wbind. eapply wpi_mono; [apply wpi_mkdirall; [by apply Hdep|]; intros t Ht; by apply HI, Hsub|].
  intros [x|] w1 (Hev1 & _ & Hc1 & _); [wret; unfold stage_post; split_and!; by auto|].
  wbind. eapply wpi_mono; [apply wpi_mkdirall; [by apply Hdep|]; intros t Ht; apply HI, Hsub; by etrans|].
  intros [x|] w2 (Hev2' & _ & Hc2 & _);
    pose proof (evo_trans _ _ _ _ Hev1 Hev2') as Hev2; pose proof (ctl_eq_trans _ _ _ Hc1 Hc2) as Hcw2;
    [wret; unfold stage_post; split_and!; by auto|].
  wbind. eapply wpi_mono; [apply wpi_tmpPath; auto|].
  intros [tmp [x|]] w3 (Ht3 & Hc3 & Htmp); pose proof (ctl_eq_trans _ _ _ Hcw2 Hc3) as Hcw3;
    [wret; unfold stage_post; rewrite ?Ht3; split_and!; by auto|].
  destruct Htmp as (name & -> & Hname). apply wpi_stage_write; try done. by rewrite Ht3.
Qed.

(** ** Cleaning up *)

(** Only entries of the list were removed. *)
Definition pruned (P : list path) (t t' : tree) : Prop :=
  data t' = data t /\ forall p, dents t' !! p = dents t !! p \/ (p ∈ P /\ dents t' !! p = None).

Definition non_dir (t : tree) (p : path) : Prop := forall i m, dents t !! p <> Some (NDir i m).

Lemma pruned_evo P t t' : Forall (non_dir t) P -> pruned P t t' -> evo (fun p => p ∈ P) t t'.
Proof.
  intros HP [Hd Hp]. rewrite Forall_forall in HP. split.
  - by rewrite Hd.
  - intros p i m E. destruct (Hp p) as [->|[Hin _]]; [done|]. by destruct (HP p Hin i m).
  - intros p Hn. left. by destruct (Hp p) as [->|[? _]].
Qed.

Lemma wpi_cleanup_from I stages acc w :
  Forall (non_dir (tr w)) (tmps stages) ->
  (forall t, pruned (tmps stages) (tr w) t -> I t) ->
  wpi e I (cleanupTmpStages_from r stages acc) (fun _ w' =>
    ctl_eq w w' /\ pruned (tmps stages) (tr w) (tr w')) w.
Proof.
  revert acc w; induction stages as [|s stages IH]; intros acc w Hnd HI; cbn [cleanupTmpStages_from].
  { wret. split; [done|]. split; [done|by left]. }
  inv Hnd as [|? ? Hs Hrest]. rewrite rp_root by done.
  assert (pruned (tmps (s :: stages)) (tr w) (set_dents (delete (sd_tmpPath s)) (tr w))) as Hdel.
  { split; [done|]. intros p. cbn. destruct (decide (p = sd_tmpPath s)) as [->|].
    - right. rewrite lookup_delete_eq. split; [by left|done].
    - left. by rewrite lookup_delete_ne. }
  assert (pruned (tmps (s :: stages)) (tr w) (tr w)) as Hsame by (split; [done|by left]).
  wbind. eapply wpi_mono; [apply wpi_remove_file; auto|].
  intros x w1 (Hc1 & _ & Hx).
  assert (tr w1 = tr w \/ tr w1 = set_dents (delete (sd_tmpPath s)) (tr w)) as Ht1
    by (destruct Hx as [[? _]|[_ ?]]; auto). clear Hx.
  apply wpi_ro_bind; [auto with amq|destruct Ht1 as [->| ->]; auto|].
  intros o w2 Ht2 Hc2. rewrite <-Ht2 in Ht1.
  assert (forall t, pruned (tmps stages) (tr w2) t -> pruned (tmps (s :: stages)) (tr w) t) as Hcomb.
  { intros t [Hd Hp]. destruct Ht1 as [E|E]; rewrite E in *; destruct Hdel as [_ Hdel]; cbn in *.
    - split; [done|]. intros p. destruct (Hp p) as [?|[? ?]]; [by left|right; by split; [right|]].
    - split; [done|]. intros p. destruct (Hp p) as [->|[? ?]]; [apply Hdel|right; by split; [right|]]. }
  eapply wpi_mono; [apply IH|].
  - eapply Forall_impl; [exact Hrest|]. intros p Hp i m. destruct Ht1 as [->| ->]; [done|]. cbn.
    intros [_ ?]%lookup_delete_Some. by eapply Hp.
  - intros t Ht. by apply HI, Hcomb.
  - intros _ w' [Hc' Hp]. split; [by do 2 (eapply ctl_eq_trans; [done|])|]. by apply Hcomb.
Qed.

(** ** The staging loop *)

Definition stage_ok (f d : string) (t0 t : tree) (s : stagedDelivery) : Prop :=
  stage_shape f s /\ staged d t s /\ dents t0 !! sd_tmpPath s = None.

Record stages_inv (f d : string) (t0 t : tree) (ss : list stagedDelivery) : Prop := {
  si_evo : evo (fun p => p ∈ tmps ss) t0 t;
  si_ok : Forall (stage_ok f d t0 t) ss;
  si_nodup : NoDup (tmps ss);
}.

Lemma staged_keep d t t' X s : evo X t t' -> ~ X (sd_tmpPath s) -> staged d t s -> staged d t' s.
Proof. intros Hev HX [Hc Hp]. split; [by eapply evo_content|by eapply evo_parent]. Qed.

Lemma staged_non_dir d t s : staged d t s -> non_dir t (sd_tmpPath s).
Proof. intros [(i & Hi & _)%content_file _] j m. by rewrite Hi. Qed.

Lemma stages_non_dir f d t0 t ss : Forall (stage_ok f d t0 t) ss -> Forall (non_dir t) (tmps ss).
Proof.
  intros H. apply Forall_fmap. eapply Forall_impl; [exact H|].
  intros s (_ & Hs & _). by eapply staged_non_dir.
Qed.

Lemma stages_hidden f d t0 t ss p : Forall (stage_ok f d t0 t) ss -> p ∈ tmps ss -> hidden p.
Proof.
  intros H (s & -> & Hs)%list_elem_of_fmap. rewrite Forall_forall in H.
  destruct (H s Hs) as (Hsh & _). by eapply stage_tmp_hidden.
Qed.

(** Staged deliveries survive changes that do not touch existing entries. *)
Lemma stages_keep f d t0 t t' (X : path -> Prop) ss :
  (forall p, X p -> dents t !! p = None) ->
  Forall (stage_ok f d t0 t) ss -> evo X t t' -> Forall (stage_ok f d t0 t') ss.
Proof.
  intros HX Hok Hev. eapply Forall_impl; [exact Hok|]. intros s (H1 & H2 & H3).
  split; [done|]. split; [|done]. eapply staged_keep; [done| |done].
  intros Hp%HX. destruct H2 as [(i & Hi & _)%content_file _]. congruence.
Qed.

Lemma stages_inv_snoc f d t0 t t' ss s :
  stages_inv f d t0 t ss -> stage_shape f s -> staged d t' s ->
  dents t !! sd_tmpPath s = None -> evo (eq (sd_tmpPath s)) t t' ->
  stages_inv f d t0 t' (ss ++ [s]).
Proof.
  intros [Hev Hok Hnd] Hsh Hst Hn Hev'.
  assert (sd_tmpPath s ∉ tmps ss) as Hfresh.
  { intros (s' & Heq & Hs')%list_elem_of_fmap. rewrite Forall_forall in Hok.
    destruct (Hok s' Hs') as (_ & [(i & Hi & _)%content_file _] & _). congruence. }
  split.
  - etrans; [eapply evo_mono; [|exact Hev]|eapply evo_mono; [|exact Hev']].
    + intros p Hp. rewrite fmap_app. by apply elem_of_app; left.
    + intros p <-. rewrite fmap_app. apply elem_of_app; right. by left.
  - apply Forall_app; split; [|constructor; [|done]].
    + eapply stages_keep; [|done|exact Hev']. by intros p <-.
    + split; [done|]. split; [done|]. destruct (dents t0 !! sd_tmpPath s) eqn:E; [|done].
      rewrite (evo_entry _ _ _ _ _ Hev Hfresh E) in Hn. done.
  - rewrite fmap_app. apply NoDup_app. split; [done|]. split; [|apply NoDup_singleton].
    intros p Hp ->%list_elem_of_singleton. done.
Qed.

Lemma wpi_stage_all I f d rs ss w0 w :
  Forall (fun a => ValidateHandle a = None) rs -> ValidateMessageFilename f = None ->
  (forall t, evo hidden (tr w0) t -> I t) -> ctl_eq w0 w ->
  stages_inv f d (tr w0) (tr w) ss ->
  wpi e I (stage_all r f d rs ss) (fun x w' => ctl_eq w0 w' /\ evo hidden (tr w0) (tr w') /\
    match x with
    | (ss', None) => sd_recipient <$> ss' = (sd_recipient <$> ss) ++ rs /\
                     stages_inv f d (tr w0) (tr w') ss'
    | (_, Some _) => True
    end) w.
Proof.
  intros Hrs Hf HI. revert ss w; induction rs as [|a rs IH]; intros ss w Hc Hss; cbn [stage_all].
  all: assert (forall t, evo hidden (tr w) t -> evo hidden (tr w0) t) as Hhid
    by (intros t Ht; etrans; [|exact Ht]; eapply evo_mono; [|exact (si_evo _ _ _ _ _ Hss)];
        intros p Hp; by eapply stages_hidden; [eapply si_ok|]).
  { wret. split; [done|]. split; [by apply Hhid|]. by rewrite app_nil_r. }
  inv Hrs. wbind. eapply wpi_mono; [apply wpi_stage_one; auto|].
  intros [os ox] w1 (Hc1 & Hev1 & Hx). assert (ctl_eq w0 w1) as Hcw1 by (by eapply ctl_eq_trans).
  destruct ox as [x|].
  - assert (Forall (non_dir (tr w1)) (tmps ss)) as Hnd.
    { eapply stages_non_dir. eapply stages_keep; [|by eapply si_ok|exact Hev1]. by intros p []. }
    assert (evo hidden (tr w) (tr w1)) as Hev1' by (eapply evo_mono; [|exact Hev1]; by intros p []).
    assert (forall t, pruned (tmps ss) (tr w1) t -> evo hidden (tr w0) t) as Hpr.
    { intros t Ht. apply Hhid. etrans; [done|]. eapply evo_mono; [|by apply pruned_evo].
      intros p Hp. by eapply stages_hidden; [eapply si_ok|]. }
    assert (wpi e I (x' ← cleanupStagedTmp r ss x; Ret ([], Some x')) (fun x w' =>
      ctl_eq w0 w' /\ evo hidden (tr w0) (tr w') /\
      match x with
      | (ss', None) => sd_recipient <$> ss' = (sd_recipient <$> ss) ++ a :: rs /\
                       stages_inv f d (tr w0) (tr w') ss'
      | (_, Some _) => True
      end) w1) as Hclean; [|by destruct os].
    unfold cleanupStagedTmp, cleanupTmpStages. wbind. wbind.
    eapply wpi_mono; [apply wpi_cleanup_from; auto|].
    intros o w2 [Hc2 Hp2]. destruct o; wret; wret; split_and!; try done; auto;
      by eapply ctl_eq_trans.
  - destruct os as [s|]; [|done]. destruct Hx as (Hsh & Hrec & Hst & Hn & Hev').
    eapply wpi_mono; [apply IH; [done|done|by eapply stages_inv_snoc]|].
    intros [ss' [x|]] w' (? & ? & H'); [done|]. split; [done|]. split; [done|].
    destruct H' as [E ?]. rewrite E, fmap_app, <-app_assoc. cbn. by rewrite Hrec.
Qed.

(** ** The commit loop *)

(** What holds at every point of a delivery: outside temporaries and the destinations
    nothing changes, and each destination is untouched or complete. *)
Definition deliver_inv (d : string) (all : list stagedDelivery) (t0 t : tree) : Prop :=
  evo (fun p => hidden p \/ p ∈ news all) t0 t /\
  Forall (fun s => published_or_same (sd_newPath s) d t0 t) all.

Record commit_inv (f d : string) (t0 : tree) (committed pending : list stagedDelivery)
    (t : tree) : Prop := {
  ci_evo : evo (fun p => p ∈ tmps pending \/ p ∈ news (committed ++ pending)) t0 t;
  ci_pub : Forall (fun s => published_or_same (sd_newPath s) d t0 t) (committed ++ pending);
  ci_done : Forall (fun s => content t (sd_newPath s) = Some d) committed;
  ci_rest : Forall (fun s => sd_newPath s ∈ news committed \/
                       dents t !! sd_newPath s = dents t0 !! sd_newPath s) pending;
  ci_shape : Forall (stage_shape f) (committed ++ pending);
  ci_ok : Forall (stage_ok f d t0 t) pending;
  ci_nodup : NoDup (tmps pending);
}.

Lemma commit_inv_deliver f d t0 committed pending t :
  commit_inv f d t0 committed pending t -> deliver_inv d (committed ++ pending) t0 t.
Proof.
  intros H. split; [|by eapply ci_pub]. eapply evo_mono; [|by eapply ci_evo].
  intros p [Hp|Hp]; [left|by right]. by eapply stages_hidden; [eapply ci_ok|].
Qed.

(** A new path is never hidden, so it is none of the temporaries. *)
Lemma new_not_tmp f s s' :
  HasPrefix f "." = false -> stage_shape f s -> stage_shape f s' -> sd_tmpPath s <> sd_newPath s'.
Proof.
  intros Hf Hs (_ & Hn' & _) E. apply stage_tmp_hidden in Hs. rewrite E, Hn' in Hs.
  by eapply box_path_visible.
Qed.

(** Publishing one delivery leaves the other destinations alone. *)
Lemma publish_other f d s s' t t' :
  HasPrefix f "." = false -> stage_shape f s -> stage_shape f s' ->
  publish_inv (sd_tmpPath s) (sd_newPath s) d t t' -> sd_newPath s' <> sd_newPath s ->
  dents t' !! sd_newPath s' = dents t !! sd_newPath s'.
Proof.
  intros Hf Hs Hs' (Hev & _) Hne.
  apply (evo_deep _ _ _ _ Hev); [|destruct Hs' as (_ & -> & _); apply box_path_depth].
  intros [E|?]; [|done]. by eapply (new_not_tmp f s s').
Qed.

Lemma publish_published f d s s' t0 t t' :
  HasPrefix f "." = false -> stage_shape f s -> stage_shape f s' ->
  publish_inv (sd_tmpPath s) (sd_newPath s) d t t' ->
  published_or_same (sd_newPath s') d t0 t -> published_or_same (sd_newPath s') d t0 t'.
Proof.
  intros Hf Hs Hs' Hpi Hpub. eapply published_trans; [by eapply evo_data, Hpi|done|].
  destruct (decide (sd_newPath s' = sd_newPath s)) as [->|Hne]; [by destruct Hpi as (_ & ? & _)|].
  left. by apply (publish_other f d s s').
Qed.

Lemma publish_content f d s s' t t' :
  HasPrefix f "." = false -> stage_shape f s -> stage_shape f s' ->
  publish_inv (sd_tmpPath s) (sd_newPath s) d t t' ->
  content t (sd_newPath s') = Some d -> content t' (sd_newPath s') = Some d.
Proof.
  intros Hf Hs Hs' Hpi Hc.
  assert (published_or_same (sd_newPath s') d t t') as [E|[N ?]]; [| |done].
  - by eapply (publish_published f d s s' t t); [..|left].
  - apply content_file in Hc as (i & Hi & Hd). unfold content. rewrite E, Hi.
    eapply lookup_weaken; [done|by eapply evo_data, Hpi].
Qed.

(** Publishing the first pending delivery moves it to the committed ones. *)
Lemma commit_inv_step f d t0 committed s pending t t' :
  HasPrefix f "." = false ->
  commit_inv f d t0 committed (s :: pending) t ->
  publish_inv (sd_tmpPath s) (sd_newPath s) d t t' ->
  content t' (sd_newPath s) = Some d -> dents t' !! sd_tmpPath s = None ->
  commit_inv f d t0 (committed ++ [s]) pending t'.
Proof.
  intros Hf [Hev Hpub Hdone Hrest Hsh Hok Hnd] (Hev' & Hpub' & _) Hc Hgone.
  rewrite (cons_middle s committed pending), app_assoc in *.
  apply Forall_cons in Hok as [(Hshs & Hst & Hn0) Hok].
  rewrite fmap_cons in Hnd. apply NoDup_cons in Hnd as [Hnin Hnd].
  apply Forall_cons in Hrest as [_ Hrest].
  assert (publish_inv (sd_tmpPath s) (sd_newPath s) d t t') as Hpi by (split_and!; auto).
  rewrite Forall_forall in Hsh. split; [| | | |by rewrite Forall_forall| |done].
  - apply (evo_shrink (fun p => p ∈ tmps (s :: pending) \/ p ∈ news ((committed ++ [s]) ++ pending))).
    + etrans; [exact Hev|]. eapply evo_mono; [|exact Hev']. intros p [->| ->]; [left; by left|].
      right. apply list_elem_of_fmap_2. set_solver.
    + intros p [Hp|Hp] Hnp; [|naive_solver].
      apply elem_of_cons in Hp as [->|Hp]; [congruence|naive_solver].
  - rewrite Forall_forall in *. intros s' Hs'. eapply publish_published; [done| | |done|]; auto.
  - apply Forall_app; split; [|by constructor]. rewrite Forall_forall in *. intros s' Hs'.
    eapply publish_content; [done| | |done|]; auto. apply Hsh. set_solver.
  - rewrite Forall_forall in *. intros s' Hs'.
    destruct (decide (sd_newPath s' = sd_newPath s)) as [E|Hne].
    + left. rewrite E. apply list_elem_of_fmap_2. set_solver.
    + destruct (Hrest s' Hs') as [Hin|E]; [left; rewrite fmap_app, elem_of_app; by left|right].
      rewrite <-E. eapply publish_other; [done|done| |done|done]. apply Hsh. set_solver.
  - rewrite Forall_forall in *. intros s' Hs'. destruct (Hok s' Hs') as (H1 & H2 & H3).
    split; [done|]. split; [|done]. eapply staged_keep; [exact Hev'| |done]. intros [E|E].
    + apply Hnin. rewrite <-E. by apply list_elem_of_fmap_2.
    + by eapply (new_not_tmp f s' s).
Qed.

(** Every intermediate tree of a publication is one of the delivery. *)
Lemma commit_step_deliver f d t0 committed s pending t t' :
  HasPrefix f "." = false -> commit_inv f d t0 committed (s :: pending) t ->
  publish_inv (sd_tmpPath s) (sd_newPath s) d t t' ->
  deliver_inv d (committed ++ s :: pending) t0 t'.
Proof.
  intros Hf Hci Hpi. pose proof (ci_shape _ _ _ _ _ _ Hci) as Hsh.
  apply commit_inv_deliver in Hci as [Hev Hpub]. rewrite !Forall_forall in *.
  assert (s ∈ committed ++ s :: pending) as Hs by set_solver. split.
  - etrans; [exact Hev|]. eapply evo_mono; [|by apply Hpi]. intros p [->| ->].
    + left. by eapply stage_tmp_hidden, Hsh.
    + right. by apply list_elem_of_fmap_2.
  - rewrite Forall_forall. intros s' Hs'. eapply publish_published; [done| | |done|]; auto.
Qed.

(** How a commit may end in an error: the committed deliveries, the one that failed to
    publish (or none, when only syncing the new directory failed), and the pending ones. *)
Inductive partial_outcome (all : list stagedDelivery) (err : gerr)
  : list stagedDelivery -> Prop :=
| PublishFailed committed s pending cause :
    all = committed ++ s :: pending ->
    err = EPartialDelivery (delivered_map r committed) (sd_recipient s)
            (sd_recipient <$> pending) cause ->
    is_committed err = false -> partial_outcome all err committed
| SyncFailed committed s pending cause :
    all = (committed ++ [s]) ++ pending ->
    err = EPartialDelivery (delivered_map r (committed ++ [s])) ""
            (sd_recipient <$> pending) cause ->
    is_committed err = true -> partial_outcome all err (committed ++ [s]).

(** What an error leaves behind. *)
Definition partial_state (d : string) (all committed : list stagedDelivery) (t0 t : tree) : Prop :=
  deliver_inv d all t0 t /\
  Forall (fun s => content t (sd_newPath s) = Some d) committed /\
  Forall (fun s => sd_newPath s ∈ news committed \/
            dents t !! sd_newPath s = dents t0 !! sd_newPath s) all.

Lemma is_committed_Partial D F P c : is_committed (EPartialDelivery D F P c) = is_committed c.
Proof. done. Qed.

Lemma is_committed_wrap_if (b : bool) c1 c2 c :
  is_committed (if b then Errorf c1 c else Errorf c2 c) = is_committed c.
Proof. destruct b; apply is_committed_Errorf. Qed.

Lemma is_committed_cleanup (o : option gerr) c :
  is_committed (match o with Some _ => Errorf "cleanup" c | None => c end) = is_committed c.
Proof. destruct o; [apply is_committed_Errorf|done]. Qed.

(** Removing temporaries leaves everything else of a delivery as it is. *)
Lemma partial_state_pruned f d all committed P t0 t t' :
  HasPrefix f "." = false -> Forall (stage_shape f) all -> Forall (non_dir t) P ->
  (forall p, p ∈ P -> hidden p) -> committed ⊆ all ->
  partial_state d all committed t0 t -> pruned P t t' -> partial_state d all committed t0 t'.
Proof.
  intros Hf Hsh Hnd HP Hsub ([Hev Hpub] & Hc & Hr) Hpr. pose proof (pruned_evo _ _ _ Hnd Hpr) as Hev'.
  assert (forall s, s ∈ all -> dents t' !! sd_newPath s = dents t !! sd_newPath s) as Hsame.
  { intros s Hs. destruct Hpr as [_ Hp]. destruct (Hp (sd_newPath s)) as [?|[Hin _]]; [done|].
    rewrite Forall_forall in Hsh. destruct (Hsh s Hs) as (_ & E & _).
    apply HP in Hin. rewrite E in Hin. by eapply box_path_visible in Hin. }
  rewrite !Forall_forall in *. split; [split|split]; [|apply Forall_forall..].
  - etrans; [done|]. eapply evo_mono; [|exact Hev']. intros p Hp. left. by apply HP.
  - intros s Hs. eapply published_trans; [by eapply evo_data|by apply Hpub|].
    left. by apply Hsame.
  - intros s Hs. pose proof (Hc s Hs) as Hcs. unfold content in *. rewrite Hsame by (by apply Hsub).
    destruct Hpr as [-> _]. done.
  - intros s Hs. rewrite Hsame by done. by apply Hr.
Qed.

Lemma wpi_partialDeliveryError I f d all committed s pending err t0 w :
  HasPrefix f "." = false -> Forall (stage_shape f) all -> all = committed ++ s :: pending ->
  Forall (non_dir (tr w)) (tmps (s :: pending)) -> is_committed err = false ->
  (forall t, deliver_inv d all t0 t -> I t) -> partial_state d all committed t0 (tr w) ->
  wpi e I (partialDeliveryError r committed s pending err) (fun x w' => ctl_eq w w' /\
    partial_outcome all x committed /\ partial_state d all committed t0 (tr w')) w.
Proof.
  intros Hf Hsh Hall Hnd Herr HI Hps. unfold partialDeliveryError, cleanupTmpStages. wbind.
  set (und := if negb (errors_Is_Exist err) then s :: pending else pending).
  assert (tmps und ⊆ tmps (s :: pending)) as Hund by (subst und; case_match; cbn; set_solver).
  assert (Forall (non_dir (tr w)) (tmps und)) as Hndu.
  { rewrite Forall_forall in *. intros p Hp. by apply Hnd, Hund. }
  assert (forall p, p ∈ tmps und -> hidden p) as Hhid.
  { intros p Hp%Hund. apply list_elem_of_fmap in Hp as (s' & -> & Hs').
    rewrite Forall_forall in Hsh. eapply stage_tmp_hidden, Hsh. rewrite Hall.
    apply elem_of_app. by right. }
  assert (committed ⊆ all) as Hsub by (rewrite Hall; set_solver).
  eapply wpi_mono; [apply wpi_cleanup_from; [done|]|].
  { intros t Ht. apply HI. by eapply (partial_state_pruned f d all committed (tmps und)). }
  intros o w' [Hc Hp]. wret. split; [done|].
  split; [|by eapply (partial_state_pruned f d all committed (tmps und))].
  eapply PublishFailed; [done|done|]. by rewrite is_committed_Partial, is_committed_cleanup.
Qed.

Lemma wpi_committedDeliveryError I f d all committed s pending err t0 w :
  HasPrefix f "." = false -> Forall (stage_shape f) all -> all = (committed ++ [s]) ++ pending ->
  Forall (non_dir (tr w)) (tmps pending) -> is_committed err = true ->
  (forall t, deliver_inv d all t0 t -> I t) -> partial_state d all (committed ++ [s]) t0 (tr w) ->
  wpi e I (committedDeliveryError r (committed ++ [s]) pending err) (fun x w' => ctl_eq w w' /\
    partial_outcome all x (committed ++ [s]) /\
    partial_state d all (committed ++ [s]) t0 (tr w')) w.
Proof.
  intros Hf Hsh Hall Hnd Herr HI Hps. unfold committedDeliveryError, cleanupTmpStages. wbind.
  assert (forall p, p ∈ tmps pending -> hidden p) as Hhid.
  { intros p (s' & -> & Hs')%list_elem_of_fmap.
    rewrite Forall_forall in Hsh. eapply stage_tmp_hidden, Hsh. rewrite Hall.
    apply elem_of_app. by right. }
  assert (committed ++ [s] ⊆ all) as Hsub by (rewrite Hall; set_solver).
  eapply wpi_mono; [apply wpi_cleanup_from; [done|]|].
  { intros t Ht. apply HI. by eapply (partial_state_pruned f d all _ (tmps pending)). }
  intros o w' [Hc Hp]. wret. split; [done|].
  split; [|by eapply (partial_state_pruned f d all _ (tmps pending))].
  eapply SyncFailed; [done|done|]. by rewrite is_committed_Partial, is_committed_cleanup.
Qed.

Lemma commit_inv_partial f d t0 committed pending t :
  commit_inv f d t0 committed pending t -> partial_state d (committed ++ pending) committed t0 t.
Proof.
  intros H. split; [by eapply commit_inv_deliver|]. split; [by eapply ci_done|].
  apply Forall_app; split; [|by eapply ci_rest].
  rewrite Forall_forall. intros s Hs. left. by apply list_elem_of_fmap_2.
Qed.

(** A publication that failed leaves the committed deliveries and nothing else. *)
Lemma commit_fail_partial f d t0 committed s pending t t' :
  HasPrefix f "." = false -> commit_inv f d t0 committed (s :: pending) t ->
  publish_inv (sd_tmpPath s) (sd_newPath s) d t t' ->
  dents t' !! sd_newPath s = dents t !! sd_newPath s ->
  partial_state d (committed ++ s :: pending) committed t0 t' /\
  Forall (non_dir t') (tmps (s :: pending)).
Proof.
  intros Hf Hci Hpi Hsame. pose proof (ci_shape _ _ _ _ _ _ Hci) as Hsh.
  pose proof (ci_ok _ _ _ _ _ _ Hci) as Hok. pose proof (ci_nodup _ _ _ _ _ _ Hci) as Hnd.
  rewrite Forall_forall in Hsh. assert (s ∈ committed ++ s :: pending) as Hs by set_solver.
  split; [split; [by eapply commit_step_deliver|split]|].
  - pose proof (ci_done _ _ _ _ _ _ Hci) as Hdone. rewrite Forall_forall in *. intros s' Hs'.
    eapply publish_content; [done| | |done|]; auto. apply Hsh. set_solver.
  - pose proof (commit_inv_partial _ _ _ _ _ _ Hci) as (_ & _ & Hr). rewrite Forall_forall in *.
    intros s' Hs'. destruct (Hr s' Hs') as [?|E]; [by left|right]. rewrite <-E.
    destruct (decide (sd_newPath s' = sd_newPath s)) as [->|Hne]; [done|].
    eapply publish_other; [done| | |done|done]; auto.
  - pose proof (stages_non_dir _ _ _ _ _ Hok) as Hndt. rewrite Forall_forall in Hok. rewrite Forall_forall in Hndt.
    apply Forall_forall. intros p Hp i m Hd. destruct (decide (p = sd_tmpPath s)) as [->|Hne].
    + destruct Hpi as (_ & _ & [E|E]); rewrite E in Hd; [|done]. by eapply Hndt.
    + assert (dents t' !! p = dents t !! p) as E; [|rewrite E in Hd; by eapply Hndt].
      apply list_elem_of_fmap in Hp as (s' & -> & Hs').
      destruct (Hok s' Hs') as (Hsh' & _). apply (evo_deep _ _ _ _ (proj1 Hpi)).
      * intros [?|E]; [done|]. by eapply (new_not_tmp f s' s); auto.
      * destruct Hsh' as (_ & _ & nm & -> & _). apply box_path_depth.
Qed.

Lemma wpi_commit_all I f d all committed pending t0 w0 w :
  HasPrefix f "." = false -> all = committed ++ pending -> ctl_eq w0 w ->
  (forall t, deliver_inv d all t0 t -> I t) ->
  commit_inv f d t0 committed pending (tr w) ->
  wpi e I (commit_all r d committed pending) (fun o w' => ctl_eq w0 w' /\
    match o with
    | None => commit_inv f d t0 all [] (tr w')
    | Some err => exists done, partial_outcome all err done /\ partial_state d all done t0 (tr w')
    end) w.
Proof.
  intros Hf. revert committed w.
  induction pending as [|s pending IH]; intros committed w Hall Hc HI Hci; cbn [commit_all].
  { wret. split; [done|]. rewrite Hall. by rewrite app_nil_r. }
  pose proof (ci_shape _ _ _ _ _ _ Hci) as Hsh. pose proof (ci_ok _ _ _ _ _ _ Hci) as Hok.
  rewrite <-Hall in Hsh. apply Forall_cons in Hok as [(Hshs & [Hcs Hpar] & _) _].
  wbind. eapply wpi_mono; [apply wpi_publish; [by eapply stage_tmp_not_nil|by eapply new_not_tmp|done|done|]|].
  { intros t Ht. apply HI. rewrite Hall. by eapply commit_step_deliver. }
  intros [x|] w1 (Hc1 & Hpi & Hx); assert (ctl_eq w0 w1) as Hcw1 by (by eapply ctl_eq_trans).
  - destruct Hx as [Hsame Hxc]. cbv zeta. wbind.
    destruct (commit_fail_partial f d t0 committed s pending _ _ Hf Hci Hpi Hsame) as [Hps Hnd].
    rewrite <-Hall in Hps.
    eapply wpi_mono; [apply (wpi_partialDeliveryError I f d all committed s pending _ t0); try done;
      by rewrite is_committed_wrap_if|].
    intros x' w2 (Hc2 & ? & ?). wret. split; [by eapply ctl_eq_trans|]. eauto.
  - destruct Hx as [Hnew Hgone].
    pose proof (commit_inv_step f d t0 committed s pending _ _ Hf Hci Hpi Hnew Hgone) as Hci1.
    assert (all = (committed ++ [s]) ++ pending) as Hall' by (by rewrite <-app_assoc).
    assert (I (tr w1)) as HI1 by (apply HI; rewrite Hall'; by eapply commit_inv_deliver).
    apply wpi_ro_bind; [auto with amq|done|]. intros [x|] w2 Ht2 Hc2;
      assert (ctl_eq w0 w2) as Hcw2 by (by eapply ctl_eq_trans); rewrite <-Ht2 in *.
    + wbind. eapply wpi_mono; [apply (wpi_committedDeliveryError I f d all committed s pending _ t0);
        try done|].
      * eapply stages_non_dir, ci_ok, Hci1.
      * rewrite Hall'. by eapply commit_inv_partial.
      * intros x' w3 (Hc3 & ? & ?). wret. split; [by eapply ctl_eq_trans|]. eauto.
    + apply wpi_ro_bind; [auto with amq|done|]. intros ? w3 Ht3 Hc3. rewrite <-Ht3 in Hci1.
      apply IH; [done|by eapply ctl_eq_trans|done|done].
Qed.

End facts.

(** ** Errors of the staging loop *)

Lemma quiet_tmpPath d f : returns (fun x => quiet x.2) (uniqueAttemptTmpPath d f).
Proof.
  unfold uniqueAttemptTmpPath. eapply (returns_bind (fun x => quiet x.2)).
  - unfold uniqueAttemptTmpName. quiet_tac.
  - intros [n [x|]] H; done.
Qed.

Lemma quiet_stage_one r f d a : returns (fun x => quiet x.2) (stage_one r f d a).
Proof.
  unfold stage_one. pose proof quiet_tmpPath. quiet_tac.
Qed.

Lemma quiet_stage_all r f d rs ss : returns (fun x => quiet x.2) (stage_all r f d rs ss).
Proof.
  revert ss; induction rs as [|a rs IH]; intros ss; [done|]. cbn [stage_all].
  eapply returns_bind; [apply quiet_stage_one|]. intros [s o] Ho. cbn in Ho.
  assert (forall x, visible_err x = false ->
    returns (fun y => visible_err y = false) (cleanupStagedTmp r ss x)) as Hc.
  { intros x Hx. unfold cleanupStagedTmp. quiet_tac. }
  destruct s as [s|], o as [x|]; [|apply IH| |done];
    (eapply returns_bind; [by apply Hc|]); by intros y Hy.
Qed.

(** ** Without I/O failures *)

(** The inbox directories of an agent exist. *)
Definition inbox_ready (t : tree) (a : string) : Prop :=
  dirs_upto t (inbox_dir a "tmp") /\ dirs_upto t (inbox_dir a "new").

(** No temporary of an earlier attempt is left. *)
Definition no_stale_tmp (t : tree) (a : string) : Prop :=
  forall name, HasPrefix name "." = true -> dents t !! box_path a "tmp" name = None.

Lemma inbox_dir_ready t a box :
  plain a = true -> plain box = true -> dirs_upto t (inbox_dir a box) ->
  exists i m, t_node t (inbox_dir a box) = Ok (NDir i m).
Proof.
  intros Ha Hb Hd. apply dirs_upto_node; [by rewrite inbox_dir_plain| |done].
  by rewrite inbox_dir_plain.
Qed.

Lemma box_path_parent t a box f :
  plain a = true -> plain box = true -> dirs_upto t (inbox_dir a box) ->
  t_parent t (box_path a box f) = None.
Proof.
  intros Ha Hb Hd. rewrite inbox_dir_plain in Hd by done.
  by apply (dirs_upto_parent t ["agents"; a; "inbox"; box] f).
Qed.

Section live.
Context (e : env) (Hnf : healthy e) (r : DeliveryRoot) (Hat : dr_at r = []).

Lemma live_tmpPath dir f w : (run e (uniqueAttemptTmpPath dir f) w).1.2 = None.
Proof. unfold uniqueAttemptTmpPath, uniqueAttemptTmpName. by live. Qed.

Lemma live_stage_one f d a w :
  ValidateHandle a = None -> ValidateMessageFilename f = None ->
  inbox_ready (tr w) a -> no_stale_tmp (tr w) a ->
  exists s, (run e (stage_one r f d a) w).1 = (Some s, None).
Proof.
  intros Ha Hf [Hdt Hdn] Hns. pose proof (handle_plain a Ha) as Hpa.
  assert (forall box, plain box = true -> escapes (inbox_dir a box) = false) as Hesc.
  { intros box Hb. by rewrite inbox_dir_plain. }
  assert (exists w1, run e (stage_one r f d a) w =
    run e (let_val tmpPath := uniqueAttemptTmpPath (inbox_dir a "tmp") f orelse x => Ret (None, Some x) in
      if_err x := writeAndSync r tmpPath d then Ret (None, Some x) else
      if_err x := syncDir r (inbox_dir a "tmp") then x' ← cleanupTemp r tmpPath x; Ret (None, Some x') else
      Ret (Some (Staged a (inbox_dir a "tmp") (inbox_dir a "new") tmpPath
             (Join_under (inbox_dir a "new") [f])), None)) w1 /\ tr w1 = tr w) as (w1 & -> & Ht1).
  { eexists. unfold stage_one. rewrite !rp_root by done.
    rewrite run_bind, live_mkdirall; [cbn|done|by apply Hesc|exact Hdt].
    rewrite run_bind, live_mkdirall; [by cbn|done|by apply Hesc|exact Hdn]. }
  pose proof (wpi_run e _ _ _ _ (wpi_tmpPath e (fun _ => True) a f w1 Ha Hf Logic.I)) as Htmp.
  rewrite run_bind. pose proof (live_tmpPath (inbox_dir a "tmp") f w1) as Hl.
  destruct (run e (uniqueAttemptTmpPath (inbox_dir a "tmp") f) w1) as [[p o] w2]. cbn in *. subst o.
  destruct Htmp as (Ht2 & _ & name & -> & Hname). rewrite Ht1 in Ht2.
  assert (dents (tr w2) !! box_path a "tmp" name = None) as Hn by (rewrite Ht2; by apply Hns).
  assert (t_parent (tr w2) (box_path a "tmp" name) = None) as Hpar
    by (rewrite Ht2; by apply box_path_parent).
  assert (box_path a "tmp" name <> []) as Hne by done.
  pose proof (live_writeAndSync e Hnf r _ d w2 Hat Hne Hpar Hn) as Hw.
  pose proof (wpi_run e _ _ _ _ (wpi_writeAndSync e (fun _ => True) r (box_path a "tmp" name) d w2
    Hat (fun _ _ => Logic.I))) as (Hev & _).
  rewrite run_bind. destruct (run e (writeAndSync r (box_path a "tmp" name) d) w2) as [o w3].
  cbn in *. subst o. cbn. rewrite run_bind.
  rewrite live_syncDir; [by eexists|done|done|by rewrite inbox_dir_plain|by apply Hesc|].
  eapply dirs_upto_evo; [exact Hev|]. by rewrite Ht2.
Qed.

End live.

(** What a delivery guarantees: DeliverToInboxes and DeliverToInbox of
    internal/fsq/maildir.go as a whole, under every pattern of I/O failures and stopped after
    any of its calls. *)

(** Where a message for an agent becomes visible. *)
Definition dest (f a : string) : path := box_path a "new" f.

(** The contract, in terms of the tree before and after: only dot files and the
    destinations of the recipients may differ (besides directories of the layout having
    been made), and a destination is as it was or was missing and holds the whole message. *)
Definition atomic_for (rs : list string) (f d : string) (t0 t : tree) : Prop :=
  evo (fun p => hidden p \/ exists a, a ∈ rs /\ p = dest f a) t0 t /\
  forall a, a ∈ rs -> published_or_same (dest f a) d t0 t.

(** [done] of the recipients have the message, the destinations of all others are as they
    were. *)
Definition delivered_exactly (rs done : list string) (f d : string) (t0 t : tree) : Prop :=
  (forall a, a ∈ done -> content t (dest f a) = Some d) /\
  (forall a, a ∈ rs -> a ∉ done -> dents t !! dest f a = dents t0 !! dest f a).

(** The map a delivery reports for the recipients it reached. *)
Definition reported (r : DeliveryRoot) (f : string) (done : list string) (m : gmap string path)
  : Prop :=
  forall a, m !! a = if decide (a ∈ done) then Some (displayPath r (dest f a)) else None.

(** How a delivery may fail: before anything became visible, when a publication failed, or
    when the message is visible but its directory could not be synced. *)
Inductive delivery_error (r : DeliveryRoot) (rs : list string) (f : string)
  : gerr -> list string -> Prop :=
| NothingVisible err : visible_err err = false -> delivery_error r rs f err []
| PublicationFailed done a pending D c :
    rs = done ++ a :: pending -> reported r f done D -> is_committed c = false ->
    delivery_error r rs f (EPartialDelivery D a pending c) done
| CommittedNotSynced done a pending D c :
    rs = (done ++ [a]) ++ pending -> reported r f (done ++ [a]) D -> is_committed c = true ->
    delivery_error r rs f (EPartialDelivery D "" pending c) (done ++ [a]).

(** ** From stages to recipients *)

Lemma atomic_for_hidden rs f d t0 t :
  HasPrefix f "." = false -> evo hidden t0 t -> atomic_for rs f d t0 t.
Proof.
  intros Hf H. split; [eapply evo_mono; [|exact H]; by left|].
  intros a _. left. apply (evo_deep _ _ _ _ H); [by apply box_path_visible|apply box_path_depth].
Qed.

Lemma stage_news f ss p :
  Forall (stage_shape f) ss -> p ∈ news ss -> exists a, a ∈ sd_recipient <$> ss /\ p = dest f a.
Proof.
  intros Hsh (s & -> & Hs)%list_elem_of_fmap. rewrite Forall_forall in Hsh.
  destruct (Hsh s Hs) as (_ & E & _). exists (sd_recipient s).
  split; [by apply list_elem_of_fmap_2|done].
Qed.

Lemma stage_recipient f ss a :
  Forall (stage_shape f) ss -> a ∈ sd_recipient <$> ss ->
  exists s, s ∈ ss /\ sd_recipient s = a /\ sd_newPath s = dest f a.
Proof.
  intros Hsh (s & -> & Hs)%list_elem_of_fmap. rewrite Forall_forall in Hsh.
  destruct (Hsh s Hs) as (_ & E & _). by exists s.
Qed.

Lemma deliver_inv_atomic f d ss t0 t :
  Forall (stage_shape f) ss -> deliver_inv d ss t0 t -> atomic_for (sd_recipient <$> ss) f d t0 t.
Proof.
  intros Hsh [Hev Hpub]. split.
  - eapply evo_mono; [|exact Hev]. intros p [?|Hp]; [by left|right]. by apply stage_news.
  - intros a Ha. destruct (stage_recipient f ss a Hsh Ha) as (s & Hs & _ & <-).
    rewrite Forall_forall in Hpub. by apply Hpub.
Qed.

Lemma partial_state_exactly f d all ok t0 t :
  Forall (stage_shape f) all -> ok ⊆ all -> partial_state d all ok t0 t ->
  delivered_exactly (sd_recipient <$> all) (sd_recipient <$> ok) f d t0 t.
Proof.
  intros Hsh Hsub (_ & Hc & Hr). rewrite Forall_forall in Hc. rewrite Forall_forall in Hr.
  assert (Forall (stage_shape f) ok) as Hsho.
  { rewrite Forall_forall in *. intros s Hs. by apply Hsh, Hsub. }
  split; intros a Ha.
  - destruct (stage_recipient f ok a Hsho Ha) as (s & Hs & _ & <-). by apply Hc.
  - intros Hn. destruct (stage_recipient f all a Hsh Ha) as (s & Hs & Hrec & E).
    destruct (Hr s Hs) as [Hin|Heq]; [|by rewrite <-E].
    destruct (stage_news f ok _ Hsho Hin) as (b & Hb & E'). rewrite E in E'.
    unfold dest, box_path in E'. by simplify_eq.
Qed.

Lemma delivered_map_reported r f ss :
  Forall (stage_shape f) ss -> reported r f (sd_recipient <$> ss) (delivered_map r ss).
Proof.
  intros Hsh a. unfold delivered_map. induction ss as [|s ss IH] using rev_ind; [done|].
  apply Forall_app in Hsh as [Hsh Hs]. apply Forall_singleton in Hs as (_ & E & _).
  rewrite foldl_app. cbn. rewrite fmap_app. destruct (decide (a = sd_recipient s)) as [->|Hne].
  - rewrite lookup_insert_eq, E, decide_True by set_solver. done.
  - rewrite lookup_insert_ne by done. rewrite IH by done.
    apply decide_ext. cbn. rewrite elem_of_app, list_elem_of_singleton. naive_solver.
Qed.

Lemma commit_inv_done f d t0 ss t :
  commit_inv f d t0 ss [] t ->
  (forall a, a ∈ sd_recipient <$> ss -> content t (dest f a) = Some d) /\
  evo (fun p => exists a, a ∈ sd_recipient <$> ss /\ p = dest f a) t0 t.
Proof.
  intros [Hev _ Hdone _ Hsh _ _]. rewrite app_nil_r in *. split.
  - intros a Ha. destruct (stage_recipient f ss a Hsh Ha) as (s & Hs & _ & <-).
    rewrite Forall_forall in Hdone. by apply Hdone.
  - eapply evo_mono; [|exact Hev]. intros p [Hp|Hp]; [by apply elem_of_nil in Hp|].
    by apply stage_news.
Qed.

Lemma partial_outcome_error r f all err ok :
  Forall (stage_shape f) all -> partial_outcome r all err ok ->
  delivery_error r (sd_recipient <$> all) f err (sd_recipient <$> ok) /\ ok ⊆ all.
Proof.
  intros Hsh H. destruct H as [ok s pend c Hall -> Hcm|ok s pend c Hall -> Hcm].
  all: rewrite is_committed_Partial in Hcm; split; [|subst all; set_solver].
  - apply PublicationFailed; [by rewrite Hall, fmap_app| |done].
    apply delivered_map_reported. subst all. by apply Forall_app in Hsh as [? _].
  - rewrite fmap_app. cbn. apply CommittedNotSynced; [by rewrite Hall, !fmap_app| |done].
    subst all. apply Forall_app in Hsh as [Hsh _].
    pose proof (delivered_map_reported r f _ Hsh) as H. by rewrite fmap_app in H.
Qed.

(** ** The whole operation *)

Section delivery.
Context (e : env) (r : DeliveryRoot) (Hat : dr_at r = []).

Definition deliver_post (rs : list string) (f d : string) (t0 : tree)
    (x : gmap string path * option gerr) (w' : world) : Prop :=
  atomic_for rs f d t0 (tr w') /\
  match x with
  | (m, None) =>
      reported r f rs m /\ (forall a, a ∈ rs -> content (tr w') (dest f a) = Some d) /\
      evo (fun p => exists a, a ∈ rs /\ p = dest f a) t0 (tr w')
  | (m, Some err) => m = ∅ /\ exists done,
      delivery_error r rs f err done /\ delivered_exactly rs done f d t0 (tr w')
  end.

Lemma deliver_post_early rs f d t0 err w' :
  visible_err err = false -> atomic_for rs f d t0 (tr w') ->
  (forall a, a ∈ rs -> dents (tr w') !! dest f a = dents t0 !! dest f a) ->
  deliver_post rs f d t0 (∅, Some err) w'.
Proof.
  intros Herr Hat0 Hsame. split; [done|]. split; [done|]. exists []. split; [by constructor|].
  split; [by intros a Ha%elem_of_nil|]. auto.
Qed.

Lemma atomic_for_refl rs f d t : atomic_for rs f d t t.
Proof. split; [done|]. intros a _. by left. Qed.

Lemma find_handle_valid rs :
  find_some ValidateHandle rs = None -> Forall (fun a => ValidateHandle a = None) rs.
Proof.
  induction rs as [|a rs IH]; [by constructor|]. cbn. destruct (ValidateHandle a) eqn:E; [done|].
  constructor; auto.
Qed.

Lemma find_handle_quiet rs x : find_some ValidateHandle rs = Some x -> visible_err x = false.
Proof.
  induction rs as [|a rs IH]; [done|]. cbn. destruct (ValidateHandle a) eqn:E; [|done].
  intros [= <-]. by eapply handle_error_quiet.
Qed.

Lemma stages_inv_commit f d t0 t ss : stages_inv f d t0 t ss -> HasPrefix f "." = false ->
  commit_inv f d t0 [] ss t.
Proof.
  intros [Hev Hok Hnd] Hf.
  assert (forall s, s ∈ ss -> dents t !! sd_newPath s = dents t0 !! sd_newPath s) as Hsame.
  { intros s Hs. apply (evo_deep _ _ _ _ Hev).
    - intros Hin. apply (stages_hidden f d t0 t ss _ Hok) in Hin.
      rewrite Forall_forall in Hok. destruct (Hok s Hs) as ((_ & E & _) & _). rewrite E in Hin.
      by eapply box_path_visible.
    - rewrite Forall_forall in Hok. destruct (Hok s Hs) as ((_ & -> & _) & _).
      apply box_path_depth. }
  split; try done.
  - eapply evo_mono; [|exact Hev]. by left.
  - apply Forall_forall. intros s Hs. left. by apply Hsame.
  - apply Forall_forall. intros s Hs. right. by apply Hsame.
  - eapply Forall_impl; [exact Hok|]. by intros s [? _].
Qed.

Lemma wpi_DeliverToInboxes rs f d w :
  wpi e (atomic_for rs f d (tr w)) (DeliverToInboxes r rs f d) (deliver_post rs f d (tr w)) w.
Proof.
  assert (forall err, visible_err err = false -> deliver_post rs f d (tr w) (∅, Some err) w) as Hearly.
  { intros err Herr. apply deliver_post_early; [done|apply atomic_for_refl|done]. }
  unfold DeliverToInboxes. destruct rs as [|a0 rs0]; [wret; by apply Hearly|].
  set (rs := a0 :: rs0) in *.
  destruct (ValidateMessageFilename f) eqn:Hf;
    [wret; by eapply Hearly, filename_error_quiet|].
  destruct (find_some ValidateHandle rs) eqn:Hrs;
    [wret; apply Hearly; by eapply find_handle_quiet|].
  apply find_handle_valid in Hrs. pose proof (filename_not_hidden f Hf) as Hhid.
  wbind. eapply wpi_mono; [apply wpi_returns; [apply quiet_VerifyBase|];
    apply wpi_ro; [auto with amq|apply atomic_for_refl]|].
  intros o w1 (Hq & Ht1 & Hc1). destruct o as [x|].
  { wret. apply deliver_post_early; rewrite ?Ht1; [done|apply atomic_for_refl|done]. }
  wbind. rewrite <-Ht1. eapply wpi_mono; [apply wpi_returns; [apply quiet_stage_all|];
    apply (wpi_stage_all e r Hat _ f d rs [] w1 w1); try done|].
  { intros t Ht. by apply atomic_for_hidden. }
  { split; [done|by constructor|constructor]. }
  intros [ss [x|]] w2 (Hq2 & Hc2 & Hev2 & Hx); cbn in Hq2.
  { wret. apply deliver_post_early; [done|by apply atomic_for_hidden|]. intros a _.
    apply (evo_deep _ _ _ _ Hev2); [by apply box_path_visible|apply box_path_depth]. }
  destruct Hx as [Hrec Hss]. cbn in Hrec.
  assert (Forall (stage_shape f) ss) as Hsh.
  { eapply Forall_impl; [eapply si_ok, Hss|]. by intros s [? _]. }
  wbind. eapply wpi_mono; [apply (wpi_commit_all e r Hat _ f d ss [] ss (tr w1) w2 w2); try done|].
  { intros t Ht. rewrite <-Hrec. by apply deliver_inv_atomic. }
  { by apply stages_inv_commit. }
  intros [err|] w3 (Hc3 & Hx); wret; unfold deliver_post; rewrite <-Hrec.
  - destruct Hx as (ok & Hout & Hst). split; [by apply deliver_inv_atomic, Hst|]. split; [done|].
    destruct (partial_outcome_error r f ss err ok Hsh Hout) as [Herr Hsub].
    exists (sd_recipient <$> ok). split; [done|]. by apply partial_state_exactly.
  - pose proof (commit_inv_deliver _ _ _ _ _ _ Hx) as Hd. rewrite app_nil_r in Hd.
    split; [by apply deliver_inv_atomic|]. split; [by apply delivered_map_reported|].
    by apply commit_inv_done.
Qed.

End delivery.

(** ** Without I/O failures *)

Section live.
Context (e : env) (Hnf : healthy e) (r : DeliveryRoot) (Hat : dr_at r = []).

Lemma stage_one_dirs f d a : returns (fun x => forall s, x.1 = Some s ->
  sd_tmpDir s = inbox_dir a "tmp" /\ sd_newDir s = inbox_dir a "new") (stage_one r f d a).
Proof.
  unfold stage_one. repeat (eapply returns_bind; [apply returns_any|intros [?|] _; [done|]]).
  eapply returns_bind; [apply returns_any|intros [tmp [?|]] _; [done|]].
  eapply returns_bind; [apply returns_any|intros [?|] _; [done|]].
  eapply returns_bind; [apply returns_any|intros [?|] _].
  - eapply returns_bind; [apply returns_any|by intros ? _].
  - by intros s [= <-].
Qed.

Lemma live_publish f d s w :
  stage_shape f s -> staged d (tr w) s -> plain f = true ->
  inbox_ready (tr w) (sd_recipient s) -> dents (tr w) !! sd_newPath s = None ->
  (run e (publishTmpNoReplace r (sd_tmpPath s) (sd_newPath s) d) w).1 = None.
Proof.
  intros (Ha & En & name & Et & Hname) [Hc Hpar] Hf [Hdt Hdn] Hn.
  pose proof (handle_plain _ Ha) as Hpa. apply content_file in Hc as (i & Hi & _).
  unfold publishTmpNoReplace. rewrite run_bind.
  rewrite (live_renameNoReplace e Hnf r (sd_tmpPath s) (sd_newPath s) i); try done.
  - by rewrite Et.
  - by rewrite En.
  - rewrite En. by apply box_path_parent.
  - rewrite Et. change (Dir _) with ["agents"; sd_recipient s; "inbox"; "tmp"].
    rewrite <-inbox_dir_plain by done. by apply inbox_dir_ready.
  - rewrite En. change (Dir _) with ["agents"; sd_recipient s; "inbox"; "new"].
    rewrite <-inbox_dir_plain by done. by apply inbox_dir_ready.
Qed.

Lemma live_commit_one f d s w :
  stage_shape f s -> staged d (tr w) s -> ValidateMessageFilename f = None ->
  sd_tmpDir s = inbox_dir (sd_recipient s) "tmp" -> sd_newDir s = inbox_dir (sd_recipient s) "new" ->
  inbox_ready (tr w) (sd_recipient s) -> dents (tr w) !! sd_newPath s = None ->
  (run e (commit_all r d [] [s]) w).1 = None.
Proof.
  intros Hsh Hst Hf Etd End Hr Hn. pose proof (handle_plain _ (proj1 Hsh)) as Hpa.
  cbn [commit_all]. rewrite run_bind.
  pose proof (live_publish f d s w Hsh Hst (filename_plain f Hf) Hr Hn) as Hl.
  assert (wpi e (fun _ => True) (publishTmpNoReplace r (sd_tmpPath s) (sd_newPath s) d)
    (fun _ w' => publish_inv (sd_tmpPath s) (sd_newPath s) d (tr w) (tr w')) w) as Hp%wpi_run.
  { eapply wpi_mono; [apply (wpi_publish e r Hat); try done|by intros o w' (_ & ? & _)].
    - by eapply stage_tmp_not_nil.
    - eapply new_not_tmp; [|done..]. by apply filename_not_hidden.
    - apply Hst.
    - apply Hst. }
  destruct (run e (publishTmpNoReplace r (sd_tmpPath s) (sd_newPath s) d) w) as [o w1].
  cbn in Hl, Hp. subst o. cbn beta iota. cbn [fst snd].
  rewrite run_bind, live_syncDir; [|done|done| | |].
  - by rewrite run_mbind.
  - by rewrite End, inbox_dir_plain.
  - by rewrite End, inbox_dir_plain.
  - rewrite End. eapply dirs_upto_evo; [apply Hp|]. apply Hr.
Qed.

Lemma live_DeliverToInboxes a f d w :
  attached e r w -> ValidateHandle a = None -> ValidateMessageFilename f = None ->
  inbox_ready (tr w) a -> no_stale_tmp (tr w) a -> dents (tr w) !! dest f a = None ->
  (run e (DeliverToInboxes r [a] f d) w).1.2 = None.
Proof.
  intros Hatt Ha Hf Hr Hns Hn. unfold DeliverToInboxes. cbn [find_some]. rewrite Hf, Ha.
  pose proof (filename_not_hidden f Hf) as Hhid.
  rewrite run_bind, (live_VerifyBase e r w Hatt). cbn beta iota.
  destruct (run_ro e (VerifyBase r) w) as [Ht1 Hc1]; [auto with amq|].
  generalize dependent (run e (VerifyBase r) w).2. intros w1 Ht1 Hc1. rewrite <-Ht1 in *.
  cbn [stage_all]. rewrite run_bind, run_mbind.
  destruct (live_stage_one e Hnf r Hat f d a w1 Ha Hf Hr Hns) as (s & Hs).
  pose proof (returns_run e _ _ w1 (stage_one_dirs f d a)) as Hdirs.
  pose proof (wpi_run e _ _ _ _ (wpi_stage_one e r Hat (fun _ => True) f d a w1 Ha Hf
    (fun _ _ => Logic.I))) as (_ & _ & Hp).
  destruct (run e (stage_one r f d a) w1) as [x w2]. cbn in Hs, Hdirs, Hp. subst x.
  destruct Hp as (Hsh & Hrec & Hst & Hnew & Hev). destruct (Hdirs s eq_refl) as [Etd End].
  cbn. rewrite run_bind. rewrite (live_commit_one f d s); rewrite ?Hrec; try done.
  - destruct Hr as [H1 H2]. split; by eapply dirs_upto_evo.
  - assert (sd_newPath s = dest f a) as -> by (destruct Hsh as (_ & -> & _); by rewrite Hrec).
    rewrite <-Hn. apply (evo_deep _ _ _ _ Hev); [|apply box_path_depth].
    intros E. apply stage_tmp_hidden in Hsh. rewrite E in Hsh. by eapply box_path_visible in Hsh.
Qed.

End live.

(** ** The properties *)

(** C1: A delivery stopped after any of its calls, under any I/O failures, has changed
    nothing but dot files and the recipients' destinations (and made directories of the
    layout), and each destination either is exactly as it was or was missing and now holds
    the whole message: no reader of inbox/new ever sees a partial message or an overwritten
    one. *)
Theorem deliver_crash_atomic e r rs f d w :
  dr_at r = [] ->
  Forall (fun w' => atomic_for rs f d (tr w) (tr w')) (trace e (DeliverToInboxes r rs f d) w).
Proof. intros Hat. eapply wpi_trace. by apply wpi_DeliverToInboxes. Qed.

Lemma deliver_crash_atomic_witness :
  let e := failing_env 14 ENOSPC in
  let p := DeliverToInboxes sample_root ["alice"; "bob"] "m.md" "hello" in
  length (trace e p (sample_world [])) = 19%nat /\
  Forall (fun w' => atomic_for ["alice"; "bob"] "m.md" "hello" (tr (sample_world [])) (tr w'))
    (trace e p (sample_world [])).
Proof. split; [vm_compute; reflexivity|]. apply deliver_crash_atomic. reflexivity. Defined.

(** C18: A delivery that returns without error has put the whole message into the inbox/new of
    every recipient, reports exactly these paths, and has left nothing else behind: no
    temporary, and no other entry changed. *)
Theorem deliver_success_complete e r rs f d w m w' :
  dr_at r = [] -> run e (DeliverToInboxes r rs f d) w = ((m, None), w') ->
  (forall a, a ∈ rs -> content (tr w') (dest f a) = Some d) /\ reported r f rs m /\
  evo (fun p => exists a, a ∈ rs /\ p = dest f a) (tr w) (tr w').
Proof.
  intros Hat Hrun. pose proof (wpi_run e _ _ _ _ (wpi_DeliverToInboxes e r Hat rs f d w)) as H.
  rewrite Hrun in H. destruct H as (_ & ? & ? & ?). by split_and!.
Qed.

Lemma deliver_success_complete_witness :
  let x := run quiet_env (DeliverToInboxes sample_root ["alice"; "bob"] "m.md" "hello")
             (sample_world []) in
  x.1.2 = None /\ forall a, a ∈ ["alice"; "bob"] -> content (tr x.2) (dest "m.md" a) = Some "hello".
Proof.
  intros x. assert (x.1.2 = None) as Hx by (vm_compute; reflexivity). split; [exact Hx|].
  exact (proj1 (deliver_success_complete quiet_env sample_root ["alice"; "bob"] "m.md" "hello"
           (sample_world []) x.1.1 x.2 eq_refl (run_outcome x None Hx))).
Defined.

(** C19: When a delivery returns an error, the error accounts for every recipient: either it
    carries neither a PartialDeliveryError nor a CommittedDurabilityError and nothing became
    visible, or it is a PartialDeliveryError whose Delivered map lists exactly the recipients
    that have the whole message (with their paths), the others' destinations being as they
    were, and it wraps a CommittedDurabilityError just in the case that the last of them is
    visible but not known to be durable. *)
Theorem deliver_error_accounting e r rs f d w m err w' :
  dr_at r = [] -> run e (DeliverToInboxes r rs f d) w = ((m, Some err), w') ->
  m = ∅ /\ exists done, delivery_error r rs f err done /\ delivered_exactly rs done f d (tr w) (tr w').
Proof.
  intros Hat Hrun. pose proof (wpi_run e _ _ _ _ (wpi_DeliverToInboxes e r Hat rs f d w)) as H.
  rewrite Hrun in H. by destruct H as (_ & ? & ?).
Qed.

Lemma deliver_error_accounting_witness :
  let w := sample_world [(dest "m.md" "bob", "other")] in
  let x := run quiet_env (DeliverToInboxes sample_root ["alice"; "bob"] "m.md" "hello") w in
  exists err, x.1.2 = Some err /\ exists done,
    delivery_error sample_root ["alice"; "bob"] "m.md" err done /\
    delivered_exactly ["alice"; "bob"] done "m.md" "hello" (tr w) (tr x.2).
Proof.
  intros w x. destruct (run_error x) as [err Hx]; [vm_compute; reflexivity|].
  exists err. split; [exact (f_equal (fun y => y.1.2) Hx)|].
  exact (proj2 (deliver_error_accounting quiet_env sample_root ["alice"; "bob"] "m.md" "hello" w
           x.1.1 err x.2 eq_refl Hx)).
Defined.

(** C20: When no call fails, the queue root is still the authorized directory, the mailbox has
    its directories, no temporary is left in the way and no message has that name, a
    delivery to a valid handle under a valid name succeeds: it returns the path under which
    the message is now in inbox/new. *)
Theorem deliver_available e r a f d w :
  healthy e -> attached e r w -> dr_at r = [] ->
  ValidateHandle a = None -> ValidateMessageFilename f = None ->
  inbox_ready (tr w) a -> no_stale_tmp (tr w) a -> dents (tr w) !! dest f a = None ->
  exists w', run e (DeliverToInbox r a f d) w = ((displayPath r (dest f a), None), w') /\
             content (tr w') (dest f a) = Some d.
Proof.
  intros Hnf Hatt Hat Ha Hf Hr Hns Hn.
  pose proof (live_DeliverToInboxes e Hnf r Hat a f d w Hatt Ha Hf Hr Hns Hn) as Hl.
  pose proof (wpi_run e _ _ _ _ (wpi_DeliverToInboxes e r Hat [a] f d w)) as H.
  unfold DeliverToInbox. rewrite run_bind.
  destruct (run e (DeliverToInboxes r [a] f d) w) as [[m o] w']. cbn in Hl, H. subst o.
  destruct H as (_ & Hm & Hc & _). exists w'. split; [|apply Hc; by left].
  cbn. by rewrite (Hm a), decide_True by set_solver.
Qed.

Lemma deliver_available_witness :
  exists w', run quiet_env (DeliverToInbox sample_root "bob" "m.md" "hello") (sample_world []) =
    ((displayPath sample_root (dest "m.md" "bob"), None), w') /\
    content (tr w') (dest "m.md" "bob") = Some "hello".
Proof.
  apply deliver_available; [intros n; reflexivity| |reflexivity| | | | | ];
    try (vm_compute; reflexivity).
  - split; [reflexivity|]. intros n. exists base_info. split; reflexivity.
  - split; apply dirs_uptob_spec; vm_compute; reflexivity.
  - intros name Hn. apply no_hiddenb_spec; [vm_compute; reflexivity|exact Hn].
Defined.
