(* ===== verification/Claim.v ===== *)
(** Claiming a message: internal/fsq/find.go and claim_rename_other.go (the implementation
    for systems with a path-atomic rename). *)
From S2P Require Import Prelude GoStr GoPath GoErr Fs Wp FsFacts Names DeliveryRoot DeliveryRootFacts Sample Maildir Delivery.

(** [os.ErrNotExist]. *)
Definition os_ErrNotExist : gerr := EErrno ENOENT.

(** FindMessage looks at the ambient path of the queue; here that path names the tree. *)
Definition FindMessage (agent filename : string) : prog (path * string * option gerr) :=
  match ValidateHandle agent with
  | Some e => Ret ([], "", Some e)
  | None =>
    match ValidateMessageFilename filename with
    | Some e => Ret ([], "", Some e)
    | None =>
      let newPath := Join ["agents"; agent; "inbox"; "new"; filename] in
      x ← sys (SStat newPath);
      match x with
      | Ok _ => Ret (newPath, "new", None)
      | Er n =>
        if negb (os_IsNotExist (EErrno n)) then Ret ([], "", Some (EErrno n)) else
        let curPath := Join ["agents"; agent; "inbox"; "cur"; filename] in
        y ← sys (SStat curPath);
        match y with
        | Ok _ => Ret (curPath, "cur", None)
        | Er n => if negb (os_IsNotExist (EErrno n)) then Ret ([], "", Some (EErrno n))
                  else Ret ([], "", Some os_ErrNotExist)
        end
      end
    end
  end.

Definition claimRename (r : DeliveryRoot) (newPath curPath : path) : prog (option gerr) :=
  if_err err := renameNoReplace r newPath curPath then
    (if negb (errors_Is_Exist err) then Ret (Some err) else
     x ← sys (SLstat (rp r newPath));
     match x with
     | Er n => if os_IsNotExist (EErrno n) then Ret (Some os_ErrNotExist)
               else Ret (Some (Errorf "inspect claim source after collision" (EErrno n)))
     | Ok _ => Ret (Some (EClaimCollision (displayPath r newPath) (displayPath r curPath)))
     end)
  else Ret None.

Definition MoveNewToCur (r : DeliveryRoot) (agent filename : string) : prog (option gerr) :=
  match ValidateHandle agent with
  | Some e => Ret (Some e)
  | None =>
    match ValidateMessageFilename filename with
    | Some e => Ret (Some e)
    | None =>
      if_err e := VerifyBase r then Ret (Some e) else
      let newPath := Join ["agents"; agent; "inbox"; "new"; filename] in
      let curDir := Join ["agents"; agent; "inbox"; "cur"] in
      let curPath := Join_under curDir [filename] in
      if_err e := call (SMkdirAll (rp r curDir) 448) then Ret (Some e) else
      if_err err := claimRename r newPath curPath then
        Ret (Some (match errors_As_residue err with
                   | Some residue => ECommitted (displayPath r curPath) agent residue
                   | None => err
                   end))
      else
      s1 ← syncDir r curDir;
      let durabilityErr := errors_Join [None; Errorf "sync inbox/cur dir" <$> s1] in
      s2 ← syncDir r (Dir newPath);
      let durabilityErr :=
        match s2 with
        | Some x => errors_Join [durabilityErr; Some (Errorf "sync inbox/new dir" x)]
        | None => durabilityErr
        end in
      Ret (match durabilityErr with
           | Some x => Some (ECommitted (displayPath r curPath) agent x)
           | None => None
           end)
    end
  end.

(** The caller owns the message: no error, or an error that says the claim is committed. *)
Definition won (o : option gerr) : bool :=
  match o with None => true | Some err => is_committed err end.

(** ** Names *)

Lemma claim_new_path a f : plain a = true -> plain f = true ->
  Join ["agents"; a; "inbox"; "new"; f] = box_path a "new" f.
Proof. intros. apply Join_plain. by repeat constructor. Qed.

Lemma claim_cur_path a f : plain a = true -> plain f = true ->
  Join_under (Join ["agents"; a; "inbox"; "cur"]) [f] = box_path a "cur" f.
Proof. intros. by apply inbox_file_plain. Qed.

Lemma box_path_prefix a b f a' b' f' :
  box_path a b f `prefix_of` box_path a' b' f' <-> a = a' /\ b = b' /\ f = f'.
Proof.
  unfold box_path. split; [|by intros (-> & -> & ->)]. intros [k E]. by simplify_list_eq.
Qed.

(** ** One claimer *)

(** The claim happened: the entry moved from new to cur. *)
Definition claimed (a f : string) (t t' : tree) : Prop :=
  dents t !! box_path a "new" f <> None /\ dents t !! box_path a "cur" f = None /\
  dents t' !! box_path a "new" f = None /\
  (forall d, content t (box_path a "new" f) = Some d ->
     content t' (box_path a "cur" f) = Some d /\ t_parent t' (box_path a "cur" f) = None) /\
  data t ⊆ data t' /\
  (forall a' b' f', ~ (a' = a /\ f' = f /\ (b' = "new" \/ b' = "cur")) ->
    dents t' !! box_path a' b' f' = dents t !! box_path a' b' f') /\
  forall n, dents t !! box_path a "new" f = Some n -> (forall i m, n <> NDir i m) ->
    evo (fun p => p = box_path a "new" f \/ p = box_path a "cur" f) t t' /\
    dents t' !! box_path a "cur" f = Some n /\ t_parent t' (box_path a "cur" f) = None.

(** Nothing happened but directories of the layout having been made. *)
Definition unclaimed (t t' : tree) : Prop := evo (fun _ => False) t t'.

Definition no_residue (o : option gerr) : Prop :=
  match o with Some x => errors_As_residue x = None | None => True end.

Lemma unclaimed_box t t' a b f : unclaimed t t' ->
  dents t' !! box_path a b f = dents t !! box_path a b f.
Proof. intros H. apply (evo_deep _ _ _ _ H); [tauto|apply box_path_depth]. Qed.

Lemma unclaimed_content t t' p d : unclaimed t t' -> content t p = Some d -> content t' p = Some d.
Proof. intros H. eapply evo_content; [exact H|tauto]. Qed.

Section claim.
Context (e : env) (r : DeliveryRoot) (Hat : dr_at r = []).

Lemma rename_claimed a f t t' :
  t_rename_noreplace t (box_path a "new" f) (box_path a "cur" f) = Ok t' -> claimed a f t t'.
Proof.
  intros H. assert (forall b b' : string, b <> b' -> ~ box_path a b f `prefix_of` box_path a b' f) as Hnp.
  { intros b b' Hb. rewrite box_path_prefix. naive_solver. }
  destruct (rename_noreplace_effect t (box_path a "new" f) (box_path a "cur" f) t')
    as (H1 & H2 & H3 & H4 & H5); [done..|].
  split; [done|]. split; [done|]. split; [by apply H4, Hnp|]. split.
  - intros d (i & Hi & Hd)%content_file.
    apply (rename_noreplace_file _ _ _ i) in H as (_ & Hn & Hpar & ->); [|done|done].
    split; [unfold content; cbn; by rewrite lookup_insert_eq|].
    eapply evo_parent; [|exact Hpar]. by apply evo_move.
  - split; [by rewrite H3|]. split; [intros a' b' f' Hne; apply H5; rewrite box_path_prefix; naive_solver|].
    intros n Hn Hnd. apply (rename_noreplace_node _ _ _ n) in H as (_ & Hq & Hpar & ->); [|done..].
    pose proof (evo_move t _ _ n Hn Hq Hnd) as Hev. split; [done|]. split; [cbn; by rewrite lookup_insert_eq|].
    by eapply evo_parent.
Qed.

Lemma wpi_renameNoReplace_claim I a f w :
  I (tr w) -> (forall t, claimed a f (tr w) t -> I t) ->
  wpi e I (renameNoReplace r (box_path a "new" f) (box_path a "cur" f)) (fun o w' =>
    ctl_eq w w' /\
    match o with
    | None => claimed a f (tr w) (tr w')
    | Some x => tr w' = tr w /\ (exists n, x = EErrno n)
    end) w.
Proof.
  intros HI HI'. unfold renameNoReplace. rewrite !rp_root by done.
  apply wpi_ro_bind; [ro_tac|done|]. intros [h|x] w1 Ht1 Hc1; [|wret; by eauto].
  apply wpi_ro_bind; [ro_tac|by rewrite Ht1|]. intros [h2|x] w2 Ht2 Hc2.
  2:{ wret. split; [by eapply ctl_eq_trans|]. split; [congruence|eauto]. }
  assert (ctl_eq w w2) as Hcw2 by (by eapply ctl_eq_trans). rewrite Ht1 in Ht2.
  apply wpi_sys.
  - cbn. unfold upd_unit, upd. destruct (e_fault e (tick w2)); cbn; rewrite ?Ht2; [done|].
    destruct (t_rename_noreplace _ _ _) eqn:E; cbn; rewrite ?Ht2; [|done].
    by apply HI', rename_claimed.
  - wret. cbn. unfold upd_unit, upd. destruct (e_fault e (tick w2)); cbn; rewrite ?Ht2; [by eauto|].
    destruct (t_rename_noreplace _ _ _) eqn:E; cbn; rewrite ?Ht2; [|by eauto].
    split; [done|]. by apply rename_claimed.
Qed.

Lemma wpi_claimRename I a f w :
  I (tr w) -> (forall t, claimed a f (tr w) t -> I t) ->
  wpi e I (claimRename r (box_path a "new" f) (box_path a "cur" f)) (fun o w' =>
    ctl_eq w w' /\
    match o with
    | None => claimed a f (tr w) (tr w')
    | Some x => tr w' = tr w /\ is_committed x = false /\ errors_As_residue x = None /\
        match x with
        | EClaimCollision _ _ => exists n, dents (tr w) !! box_path a "new" f = Some n
        | _ => True
        end
    end) w.
Proof.
  intros HI HI'. unfold claimRename. wbind.
  eapply wpi_mono; [by apply wpi_renameNoReplace_claim|].
  intros [x|] w1 (Hc1 & Hx); [|by wret]. destruct Hx as (Ht1 & n & ->).
  destruct (errors_Is_Exist (EErrno n)); cbn beta iota; [|by wret].
  rewrite rp_root by done. wbind. apply wpi_sys.
  { cbn. unfold obs. by destruct (e_fault e (tick w1)); cbn; rewrite Ht1. }
  wret. cbn. unfold obs. rewrite <-Ht1. destruct (e_fault e (tick w1)) as [ft|]; cbn.
  { wret. by rewrite Ht1. }
  unfold t_lstat. destruct (t_node (tr w1) (box_path a "new" f)) as [nd|y] eqn:En; cbn.
  - wret. split; [done|]. split; [done|]. split; [done|]. split; [done|].
    apply t_node_Ok_inv in En as [_ En]; [|done]. by exists nd.
  - destruct (errno_is_notexist y); wret; done.
Qed.

(** What MoveNewToCur returns says what happened. *)
Definition claim_outcome (a f : string) (t : tree) (o : option gerr) (t' : tree) : Prop :=
  if won o then claimed a f t t'
  else unclaimed t t' /\
       match o with
       | Some (EClaimCollision _ _) => dents t !! box_path a "new" f <> None
       | _ => True
       end.

Lemma claimed_trans a f t t1 t2 : unclaimed t t1 -> claimed a f t1 t2 -> claimed a f t t2.
Proof.
  intros Hu (H1 & H2 & H3 & H4 & Hd & H5 & H6). split_and!.
  - by rewrite <-(unclaimed_box _ _ _ _ _ Hu).
  - by rewrite <-(unclaimed_box _ _ _ _ _ Hu).
  - done.
  - intros d Hc. apply H4. by eapply unclaimed_content.
  - etrans; [by eapply evo_data|done].
  - intros a' b' f' Hne. rewrite H5 by done. by apply unclaimed_box.
  - intros n Hn Hnd. destruct (H6 n) as [Hev Hc]; [by rewrite (unclaimed_box _ _ _ _ _ Hu)|done|]. split; [|done].
    etrans; [|exact Hev]. eapply evo_mono; [|exact Hu]. done.
Qed.

Lemma claim_quiet a f t t' x :
  visible_err x = false -> unclaimed t t' -> claim_outcome a f t (Some x) t'.
Proof.
  intros Hx Hu. unfold claim_outcome, won. rewrite quiet_not_committed by done. split; [done|].
  by destruct x.
Qed.

Lemma claim_committed a f t t' (o : option gerr) p : claimed a f t t' ->
  claim_outcome a f t (match o with Some y => Some (ECommitted p a y) | None => None end) t'.
Proof. by destruct o. Qed.

Lemma wpi_MoveNewToCur a f w :
  wpi e (fun t => unclaimed (tr w) t \/ claimed a f (tr w) t) (MoveNewToCur r a f)
    (fun o w' => ctl_eq w w' /\ claim_outcome a f (tr w) o (tr w')) w.
Proof.
  assert (forall t, unclaimed t t) as Hrefl by (intros t; apply evo_refl).
  unfold MoveNewToCur.
  destruct (ValidateHandle a) as [x|] eqn:Ha;
    [wret; split; [done|]; apply claim_quiet; [by eapply handle_error_quiet|done]|].
  destruct (ValidateMessageFilename f) as [x|] eqn:Hf;
    [wret; split; [done|]; apply claim_quiet; [by eapply filename_error_quiet|done]|].
  pose proof (handle_plain a Ha) as Hpa. pose proof (filename_plain f Hf) as Hpf.
  rewrite claim_new_path, claim_cur_path by done. change (Join _) with (inbox_dir a "cur").
  rewrite rp_root by done. wbind.
  eapply wpi_mono; [apply wpi_returns; [apply quiet_VerifyBase|]; apply wpi_ro; auto with amq|].
  intros o w1 (Hq & Ht1 & Hc1).
  destruct o as [x|]; [wret; split; [done|]; apply claim_quiet; by rewrite ?Ht1|].
  wbind. eapply wpi_mono; [apply wpi_returns; [apply returns_call_quiet|];
    apply wpi_mkdirall; [by apply inbox_dir_depth|]; rewrite Ht1; auto|].
  rewrite Ht1. intros o w2 (Hq2 & Hev2 & _ & Hc2 & _).
  assert (ctl_eq w w2) as Hcw2 by (by eapply ctl_eq_trans).
  destruct o as [x|]; [wret; split; [done|]; by apply claim_quiet|].
  wbind. eapply wpi_mono; [apply wpi_claimRename; [by left|intros t Ht; right; by eapply claimed_trans]|].
  intros o w3 (Hc3 & Hx). assert (ctl_eq w w3) as Hcw3 by (by eapply ctl_eq_trans).
  destruct o as [x|].
  - destruct Hx as (Ht3 & Hcm & Hres & Hcol). rewrite Hres. wret. split; [done|].
    unfold claim_outcome, won. rewrite Hcm, Ht3. split; [done|].
    destruct x; try done. destruct Hcol as [n Hn]. by rewrite <-(unclaimed_box _ _ _ _ _ Hev2), Hn.
  - pose proof (claimed_trans _ _ _ _ _ Hev2 Hx) as Hcl.
    apply wpi_ro_bind; [auto with amq|by right|]. intros s1 w4 Ht4 Hc4.
    apply wpi_ro_bind; [auto with amq|rewrite Ht4; by right|]. intros s2 w5 Ht5 Hc5. wret.
    split; [by do 2 (eapply ctl_eq_trans; [done|])|]. rewrite Ht5, Ht4.
    by apply claim_committed.
Qed.

End claim.

(** ** Claimers running concurrently *)

Record request := Request { q_root : DeliveryRoot; q_agent : string; q_file : string }.

Definition claimer (q : request) : prog (option gerr) :=
  MoveNewToCur (q_root q) (q_agent q) (q_file q).

(** The calls a claimer makes: it observes, makes directories of the layout, and moves
    messages from new to cur. *)
Definition claim_op (X : Type) (c : sysop X) : Prop :=
  match c with
  | SRenameNoReplace p q => exists a f, p = box_path a "new" f /\ q = box_path a "cur" f
  | SMkdirAll p _ => (length p <= layout_depth)%nat
  | c => obs_op c
  end.

(** An answer with which the message at [new] has not been claimed by this call. *)
Definition not_claiming (new : path) (X : Type) (c : sysop X) : X -> Prop :=
  match c in sysop X return X -> Prop with
  | SRenameNoReplace p _ => fun a => p = new -> exists x, a = Er x
  | _ => fun _ => True
  end.

(** One call of a claimer leaves the messages alone or claims one. *)
Lemma claim_op_step {X} e (c : sysop X) w :
  claim_op X c ->
  ((forall new, not_claiming new X c (exec e c w).1) /\ unclaimed (tr w) (tr (exec e c w).2)) \/
  exists a f, claimed a f (tr w) (tr (exec e c w).2) /\
    forall new, not_claiming new X c (exec e c w).1 <-> new <> box_path a "new" f.
Proof.
  assert (obs_op c -> unclaimed (tr w) (tr (exec e c w).2)) as Hobs.
  { intros H. destruct (obs_op_spec c e w H) as [-> _]. apply evo_refl. }
  destruct c; cbn [claim_op]; intros H; try (left; split; [done|by apply Hobs]).
  - left. split; [done|]. cbn. destruct (e_fault e (tick w)) as [ft|]; cbn.
    + apply t_mkdirall_evo. rewrite length_take. lia.
    + pose proof (t_mkdirall_evo (tr w) p perm H). by destruct (t_mkdirall (tr w) p perm).
  - destruct H as (a & f & -> & ->). cbn. unfold upd_unit, upd.
    destruct (e_fault e (tick w)); [left; split; [by eauto|apply evo_refl]|].
    destruct (t_rename_noreplace _ _ _) eqn:E; cbn; [|left; split; [by eauto|apply evo_refl]].
    right. exists a, f. split; [by apply rename_claimed|]. intros new. split.
    + intros H ->. by destruct (H eq_refl).
    + by intros H <-.
Qed.

Lemma claim_op_answer {X} e (c : sysop X) w a f :
  claim_op X c ->
  (not_claiming (box_path a "new" f) X c (exec e c w).1 /\
   dents (tr (exec e c w).2) !! box_path a "new" f = dents (tr w) !! box_path a "new" f) \/
  (~ not_claiming (box_path a "new" f) X c (exec e c w).1 /\
   dents (tr w) !! box_path a "new" f <> None /\
   dents (tr (exec e c w).2) !! box_path a "new" f = None).
Proof.
  intros H. destruct (claim_op_step e c w H) as [[Hnc Hu]|(a' & f' & Hcl & Hnc)].
  - left. split; [done|]. by apply unclaimed_box.
  - destruct Hcl as (H1 & _ & H3 & _ & _ & H5 & _).
    destruct (decide (a' = a /\ f' = f)) as [[-> ->]|Hne].
    + right. split; [|done]. rewrite Hnc. tauto.
    + left. split; [|apply H5; naive_solver]. apply Hnc. unfold box_path. naive_solver.
Qed.

(** As long as its rename has not succeeded the program does not win, and once it has, the
    program wins whatever happens to the syncs after it. *)
Definition prewin (new : path) (p : prog (option gerr)) : Prop :=
  decided (not_claiming new) (fun o => won o = false) (fun o => won o = true) p.

Lemma claim_ro {A} (p : prog A) : ro p -> calls claim_op p.
Proof.
  intros H%ro_calls. eapply calls_mono; [|exact H]. intros X c. by destruct c.
Qed.

Section claimers.
Context (r : DeliveryRoot) (Hat : dr_at r = []) (a f : string).
Abbreviation new := (box_path a "new" f).

Lemma claimRename_calls : calls claim_op (claimRename r new (box_path a "cur" f)).
Proof.
  unfold claimRename, renameNoReplace. rewrite !rp_root by done. apply calls_bind.
  - apply calls_bind; [apply claim_ro; ro_tac|]. intros [h|x]; [|done].
    apply calls_bind; [apply claim_ro; ro_tac|]. intros [h2|x]; [|done].
    apply calls_call. cbn. by eauto.
  - intros [x|]; [|done]. apply claim_ro. ro_tac.
Qed.

Lemma not_claiming_ro {A} (p : prog A) (P Q : A -> Prop) :
  ro p -> returns P p -> decided (not_claiming new) P Q p.
Proof.
  intros H%ro_calls HP. apply decided_calls; [|done].
  eapply calls_mono; [|exact H]. intros X c. by destruct c.
Qed.

Lemma claimRename_prewin :
  decided (not_claiming new) (fun o => exists x, o = Some x /\ is_committed x = false /\
    errors_As_residue x = None) (fun o => o = None) (claimRename r new (box_path a "cur" f)).
Proof.
  unfold claimRename, renameNoReplace. rewrite !rp_root by done.
  eapply (decided_bind _ (fun o => exists n, o = Some (EErrno n)) (fun o => o = None)).
  - eapply (decided_bind _ (fun _ => True) (fun _ => False)); [apply not_claiming_ro; [ro_tac|apply returns_any]| |done].
    intros [h|x] _; [|by exists x].
    eapply (decided_bind _ (fun _ => True) (fun _ => False)); [apply not_claiming_ro; [ro_tac|apply returns_any]| |done].
    intros [h2|x] _; [|by exists x].
    intros [[]|x]; split; intros Hr; try done.
    + by destruct (Hr eq_refl).
    + by exists x.
    + destruct Hr. intros _. by exists x.
  - intros o [n ->]. cbn beta iota. destruct (errors_Is_Exist (EErrno n)); cbn [negb]; [|by eexists].
    apply not_claiming_ro; [ro_tac|]. eapply returns_bind; [apply returns_any|].
    intros [i|x] _; [by eexists|]. cbn. destruct (errno_is_notexist x); by eexists.
  - by intros o ->.
Qed.

Lemma claimer_calls : calls claim_op (MoveNewToCur r a f).
Proof.
  unfold MoveNewToCur. destruct (ValidateHandle a) eqn:Ha; [done|].
  destruct (ValidateMessageFilename f) eqn:Hf; [done|].
  pose proof (handle_plain a Ha) as Hpa. pose proof (filename_plain f Hf) as Hpf.
  rewrite claim_new_path, claim_cur_path by done. change (Join _) with (inbox_dir a "cur").
  rewrite rp_root by done. apply calls_bind; [apply claim_ro; auto with amq|]. intros [x|]; [done|].
  apply calls_bind; [apply calls_call; by apply inbox_dir_depth|]. intros [x|]; [done|].
  apply calls_bind; [apply claimRename_calls|]. intros [x|]; [done|].
  apply claim_ro. ro_tac.
Qed.

Lemma claimer_prewin : prewin new (MoveNewToCur r a f).
Proof.
  assert (forall x, visible_err x = false -> won (Some x) = false) as Hq
    by apply quiet_not_committed.
  unfold prewin, MoveNewToCur. destruct (ValidateHandle a) eqn:Ha; [eapply Hq, handle_error_quiet, Ha|].
  destruct (ValidateMessageFilename f) eqn:Hf; [eapply Hq, filename_error_quiet, Hf|].
  pose proof (handle_plain a Ha) as Hpa. pose proof (filename_plain f Hf) as Hpf.
  rewrite claim_new_path, claim_cur_path by done. change (Join _) with (inbox_dir a "cur").
  eapply (decided_bind _ quiet (fun _ => False)); [apply not_claiming_ro; auto with amq quiet| |done].
  intros [x|] Hx; [by apply Hq|].
  eapply (decided_bind _ quiet (fun _ => False));
    [apply decided_calls; [by apply calls_call|apply returns_call_quiet]| |done].
  intros [y|] Hy; [by apply Hq|].
  eapply decided_bind; [apply claimRename_prewin| |].
  - intros o (y & -> & Hy1 & Hy2). by rewrite Hy2.
  - intros o ->. eapply returns_bind; [apply returns_any|]. intros s1 _.
    eapply returns_bind; [apply returns_any|]. intros s2 _. unfold returns. by case_match.
Qed.

(** A claimer of another message does not claim this one. *)
Lemma other_calls a' f' :
  ~ (a' = a /\ f' = f) -> calls (fun X c => forall x, not_claiming new X c x) (MoveNewToCur r a' f').
Proof.
  intros Hne. unfold MoveNewToCur. destruct (ValidateHandle a') eqn:Ha; [done|].
  destruct (ValidateMessageFilename f') eqn:Hf; [done|].
  pose proof (handle_plain a' Ha) as Hpa. pose proof (filename_plain f' Hf) as Hpf.
  rewrite claim_new_path, claim_cur_path by done.
  assert (forall A (p : prog A), ro p -> calls (fun X c => forall x, not_claiming new X c x) p) as Hro.
  { intros A p H%ro_calls. eapply calls_mono; [|exact H]. intros X c. by destruct c. }
  apply calls_bind; [apply Hro; auto with amq|]. intros [x|]; [done|].
  apply calls_bind; [by apply calls_call|]. intros [x|]; [done|].
  apply calls_bind.
  - unfold claimRename, renameNoReplace. rewrite !rp_root by done. apply calls_bind.
    + apply calls_bind; [apply Hro; ro_tac|]. intros [h|x]; [|done].
      apply calls_bind; [apply Hro; ro_tac|]. intros [h2|x]; [|done].
      apply calls_call. intros x E. unfold box_path in E. naive_solver.
    + intros [x|]; [|done]. apply Hro. ro_tac.
  - intros [x|]; [done|]. apply Hro. ro_tac.
Qed.

End claimers.

(** ** At most one winner *)

Section pool.
Context (e : env) (a f : string).
Abbreviation new := (box_path a "new" f).

(** [target i]: process [i] claims the message in question; [there]: it was there at first. *)
Record pool_inv (target : nat -> Prop) (there : Prop) (ps : list (prog (option gerr))) (w : world)
  : Prop := {
  pi_calls : forall i p, ps !! i = Some p -> calls claim_op p;
  pi_other : forall i p, ps !! i = Some p ->
           target i \/ calls (fun X c => forall r, not_claiming new X c r) p;
  pi_pre : dents (tr w) !! new <> None ->
           forall i p, target i -> ps !! i = Some p -> prewin new p;
  pi_post : there -> dents (tr w) !! new = None ->
           exists i p, target i /\ ps !! i = Some p /\ returns (fun o => won o = true) p;
  pi_pair : forall i j p p', i <> j -> target i -> target j ->
           ps !! i = Some p -> ps !! j = Some p' -> prewin new p \/ prewin new p';
}.

Lemma step_lookup {A} (ps : list A) i j p p' :
  (<[i:=p]> ps) !! j = Some p' -> (j = i /\ p' = p) \/ (j <> i /\ ps !! j = Some p').
Proof. intros [(-> & -> & _)|[? ?]]%list_lookup_insert_Some; auto. Qed.

(** A call that does not claim the message in question. *)
Lemma pool_inv_other target there ps w i X (c : sysop X) k :
  pool_inv target there ps w -> ps !! i = Some (Sys c k) ->
  not_claiming new X c (exec e c w).1 ->
  dents (tr (exec e c w).2) !! new = dents (tr w) !! new ->
  pool_inv target there (<[i := k (exec e c w).1]> ps) (exec e c w).2.
Proof.
  intros [Hcalls Hoth Hpre Hpost Hpair] Hi Hans Hsame.
  assert (forall j p p', ps !! j = Some p -> prewin new p ->
    (<[i:=k (exec e c w).1]> ps) !! j = Some p' -> prewin new p') as Hkeep.
  { intros j p p' Hj Hp [[-> ->]|[_ Hj']]%step_lookup; [|congruence].
    rewrite Hi in Hj. injection Hj as <-. by apply Hp. }
  assert (forall j p', (<[i:=k (exec e c w).1]> ps) !! j = Some p' -> exists p, ps !! j = Some p) as Hex.
  { intros j p' [[-> ->]|[_ Hj]]%step_lookup; eauto. }
  split.
  - intros j p' [[-> ->]|[_ Hj]]%step_lookup; [by apply (Hcalls i _ Hi)|by eapply Hcalls].
  - intros j p' [[-> ->]|[_ Hj]]%step_lookup; [|by apply Hoth].
    destruct (Hoth i _ Hi) as [?|Ho]; [by left|right]. by apply Ho.
  - rewrite Hsame. intros Hn j p' Hj Hp'. destruct (Hex j p' Hp') as [p Hp].
    eapply Hkeep; [done| |done]. by eapply Hpre.
  - rewrite Hsame. intros Hth Hn. destruct (Hpost Hth Hn) as (j & p & Hj & Hp & Hw).
    destruct (decide (j = i)) as [->|Hne].
    + rewrite Hi in Hp. injection Hp as <-. exists i, (k (exec e c w).1). split; [done|].
      rewrite list_lookup_insert_eq by (by eapply lookup_lt_Some). split; [done|]. by apply Hw.
    + exists j, p. by rewrite list_lookup_insert_ne.
  - intros j1 j2 p1 p2 Hne H1 H2 Hp1 Hp2. destruct (Hex j1 p1 Hp1) as [q1 Hq1].
    destruct (Hex j2 p2 Hp2) as [q2 Hq2].
    destruct (Hpair j1 j2 q1 q2 Hne H1 H2 Hq1 Hq2); [left; by apply (Hkeep j1 q1)|right; by apply (Hkeep j2 q2)].
Qed.

(** The call that claims it. *)
Lemma pool_inv_claim target there ps w i X (c : sysop X) k :
  pool_inv target there ps w -> ps !! i = Some (Sys c k) ->
  ~ not_claiming new X c (exec e c w).1 ->
  dents (tr w) !! new <> None -> dents (tr (exec e c w).2) !! new = None ->
  pool_inv target there (<[i := k (exec e c w).1]> ps) (exec e c w).2.
Proof.
  intros [Hcalls Hoth Hpre Hpost Hpair] Hi Hans Hthere Hgone.
  destruct (Hoth i _ Hi) as [Hti|[Ho _]]; [|by destruct Hans].
  split; [| |done| |].
  - intros j p' [[-> ->]|[_ Hj]]%step_lookup; [by apply (Hcalls i _ Hi)|by eapply Hcalls].
  - intros j p' [[-> ->]|[_ Hj]]%step_lookup; [by left|by apply Hoth].
  - intros _ _. exists i, (k (exec e c w).1). split; [done|].
    rewrite list_lookup_insert_eq by (by eapply lookup_lt_Some). split; [done|].
    pose proof (Hpre Hthere i _ Hti Hi) as Hp. by apply (Hp (exec e c w).1).
  - intros j1 j2 p1 p2 Hne H1 H2 Hp1 Hp2.
    destruct (step_lookup _ _ _ _ _ Hp1) as [[-> _]|[_ Hj1]]; [|left; by apply (Hpre Hthere j1)].
    destruct (step_lookup _ _ _ _ _ Hp2) as [[-> _]|[_ Hj2]]; [done|right; by apply (Hpre Hthere j2)].
Qed.

Lemma pool_inv_step target there ps w ps' w' :
  pool_inv target there ps w -> pstep e (ps, w) (ps', w') -> pool_inv target there ps' w'.
Proof.
  intros Hinv Hstep. inv Hstep as [i X c k ? ? Hi Hen].
  destruct (pi_calls _ _ _ _ Hinv i _ Hi) as [Hop _].
  destruct (claim_op_answer e c w a f Hop) as [[? ?]|(? & ? & ?)];
    [by apply pool_inv_other|by apply pool_inv_claim].
Qed.

Lemma pool_inv_steps target there ps w ps' w' :
  pool_inv target there ps w -> rtc (pstep e) (ps, w) (ps', w') -> pool_inv target there ps' w'.
Proof.
  intros Hinv Hsteps. remember (ps, w) as s eqn:Hs. remember (ps', w') as s' eqn:Hs'.
  revert ps w Hs Hinv. induction Hsteps as [s|s [ps1 w1] s2 H1 H2 IH]; intros ps w -> Hinv.
  - by simplify_eq.
  - eapply IH; [done|done|]. by eapply pool_inv_step.
Qed.

(** The requests for the message in question. *)
Definition targets (qs : list request) (i : nat) : Prop :=
  exists q, qs !! i = Some q /\ q_agent q = a /\ q_file q = f.

Lemma claimers_init (qs : list request) w :
  Forall (fun q => dr_at (q_root q) = []) qs ->
  pool_inv (targets qs) (dents (tr w) !! new <> None) (claimer <$> qs) w.
Proof.
  intros Hqs. rewrite Forall_lookup in Hqs.
  assert (forall i p, targets qs i -> (claimer <$> qs) !! i = Some p -> prewin new p) as Hpre.
  { intros i p (q & Hq & <- & <-). rewrite list_lookup_fmap, Hq. intros [= <-].
    apply claimer_prewin. by eapply Hqs. }
  split; [| |by eauto|by intros|by eauto];
    intros i p; rewrite list_lookup_fmap; destruct (qs !! i) as [q|] eqn:Hq; try done; intros [= <-].
  - apply claimer_calls. by eapply Hqs.
  - destruct (decide (q_agent q = a /\ q_file q = f)) as [[? ?]|Hne]; [left; by exists q|right].
    apply other_calls; [by eapply Hqs|done].
Qed.

(** The message is in new or in cur, whole. *)
Definition retained (d : string) (t : tree) : Prop :=
  (content t new = Some d /\ dents t !! box_path a "cur" f = None) \/
  (content t (box_path a "cur" f) = Some d /\ dents t !! new = None).

Lemma retained_step {X} (c : sysop X) d w :
  claim_op X c -> retained d (tr w) -> retained d (tr (exec e c w).2).
Proof.
  intros Hop H.
  destruct (claim_op_step e c w Hop) as [[_ Hu]|(a' & f' & (H1 & H2 & H3 & H4 & Hd & H5 & _) & _)].
  - destruct H as [[Hc Hn]|[Hc Hn]]; [left|right]; (split; [by eapply unclaimed_content|]);
      by rewrite (unclaimed_box _ _ _ _ _ Hu).
  - destruct (decide (a' = a /\ f' = f)) as [[-> ->]|Hne].
    + right. split; [|done]. destruct H as [[Hc _]|[Hc Hn]]; [by apply H4|].
      by apply content_file in Hc as (i & Hi & _); rewrite Hi in H2.
    + assert (forall b d', content (tr w) (box_path a b f) = Some d' ->
        content (tr (exec e c w).2) (box_path a b f) = Some d') as Hcont.
      { intros b d' (i & Hi & Hid)%content_file. unfold content. rewrite H5, Hi by naive_solver.
        by eapply lookup_weaken. }
      destruct H as [[Hc Hn]|[Hc Hn]]; [left|right]; (split; [by apply Hcont|]); rewrite H5; naive_solver.
Qed.

Lemma retained_steps target there d ps w ps' w' :
  pool_inv target there ps w -> rtc (pstep e) (ps, w) (ps', w') -> retained d (tr w) -> retained d (tr w').
Proof.
  intros Hinv Hsteps. remember (ps, w) as s eqn:Hs. remember (ps', w') as s' eqn:Hs'.
  revert ps w Hs Hinv. induction Hsteps as [s|s [ps1 w1] s2 H1 H2 IH]; intros ps w -> Hinv Hd.
  - by simplify_eq.
  - eapply IH; [done|done|by eapply pool_inv_step|]. inv H1 as [i X c k ? ? Hi Hen].
    apply retained_step; [|done]. by destruct (pi_calls _ _ _ _ Hinv i _ Hi).
Qed.

End pool.

(** ** Without I/O failures *)

Lemma live_MoveNewToCur e r a f i w :
  healthy e -> attached e r w -> dr_at r = [] ->
  ValidateHandle a = None -> ValidateMessageFilename f = None ->
  dirs_upto (tr w) (inbox_dir a "new") -> dirs_upto (tr w) (inbox_dir a "cur") ->
  dents (tr w) !! box_path a "new" f = Some (NFile i) -> dents (tr w) !! box_path a "cur" f = None ->
  (run e (MoveNewToCur r a f) w).1 = None.
Proof.
  intros Hnf Hatt Hat Ha Hf Hdn Hdc Hi Hc. unfold MoveNewToCur. rewrite Ha, Hf.
  pose proof (handle_plain a Ha) as Hpa. pose proof (filename_plain f Hf) as Hpf.
  assert (forall box, plain box = true -> inbox_dir a box <> [] /\ escapes (inbox_dir a box) = false) as Hd.
  { intros box Hb. by rewrite inbox_dir_plain. }
  rewrite claim_new_path, claim_cur_path by done. change (Join _) with (inbox_dir a "cur").
  rewrite rp_root by done.
  rewrite run_bind, (live_VerifyBase e r w Hatt). cbn beta iota.
  destruct (run_ro e (VerifyBase r) w) as [Ht1 _]; [auto with amq|].
  generalize dependent (run e (VerifyBase r) w).2. intros w1 Ht1. rewrite <-Ht1 in *.
  rewrite run_bind, live_mkdirall; [cbn [fst snd]|done|by apply Hd|done].
  assert ((run e (claimRename r (box_path a "new" f) (box_path a "cur" f)) (bump w1)).1 = None) as Hl.
  { unfold claimRename. rewrite run_bind.
    rewrite (live_renameNoReplace e Hnf r _ _ i); try done; cbn [tr bump set_tree].
    - by apply box_path_parent.
    - by apply box_path_parent.
    - change (Dir _) with ["agents"; a; "inbox"; "new"].
      rewrite <-inbox_dir_plain by done. by apply inbox_dir_ready.
    - change (Dir _) with ["agents"; a; "inbox"; "cur"].
      rewrite <-inbox_dir_plain by done. by apply inbox_dir_ready. }
  assert (wpi e (fun _ => True) (claimRename r (box_path a "new" f) (box_path a "cur" f))
    (fun _ w' => evo (fun p => p = box_path a "new" f \/ p = box_path a "cur" f) (tr w1) (tr w')) (bump w1)) as Hev%wpi_run.
  { unfold claimRename. wbind.
    eapply wpi_mono; [apply (wpi_renameNoReplace e (fun _ => True) r _ _ i); done|].
    intros o w2 (_ & [(-> & _ & Hn & Ht)|(x & -> & Ht)]).
    - wret. rewrite Ht. by apply evo_move.
    - eapply wpi_mono; [apply wpi_ro; [ro_tac|done]|]. intros ? w3 [-> _]. by rewrite Ht. }
  rewrite run_bind. destruct (run e (claimRename r _ _) (bump w1)) as [o w2]. cbn in Hl, Hev. subst o.
  cbn [fst snd]. rewrite run_mbind.
  rewrite live_syncDir; [|done|done|by apply Hd|by apply Hd|by eapply dirs_upto_evo].
  destruct (run_ro e (syncDir r (inbox_dir a "cur")) w2) as [Ht3 _]; [auto with amq|].
  rewrite run_mbind. change (Dir (box_path a "new" f)) with ["agents"; a; "inbox"; "new"].
  rewrite <-(inbox_dir_plain a "new") by done.
  rewrite live_syncDir; [done|done|done|by apply Hd|by apply Hd|rewrite Ht3; by eapply dirs_upto_evo].
Qed.

(** ** The properties *)

(** C2: However many claimers run, on whichever messages, with their calls interleaved in any
    order and under any I/O failures, at most one of those that claim the same message comes
    away owning it (returns no error, or an error that says the claim is committed). *)
Theorem claim_exclusive e qs w ps' w' i j qi qj oi oj :
  Forall (fun q => dr_at (q_root q) = []) qs ->
  rtc (pstep e) (claimer <$> qs, w) (ps', w') ->
  i <> j -> qs !! i = Some qi -> qs !! j = Some qj ->
  q_agent qi = q_agent qj -> q_file qi = q_file qj ->
  ps' !! i = Some (Ret oi) -> ps' !! j = Some (Ret oj) ->
  won oi = true -> won oj = false.
Proof.
  intros Hqs Hsteps Hne Hi Hj Ha Hf Hpi Hpj Hw.
  pose proof (claimers_init (q_agent qi) (q_file qi) qs w Hqs) as Hinv.
  apply (pool_inv_steps e _ _ _ _ _ _ _ _ Hinv) in Hsteps as [_ _ _ _ Hpair].
  destruct (Hpair i j (Ret oi) (Ret oj)) as [H|H]; try done.
  - by exists qi.
  - by exists qj.
  - unfold prewin, decided in H. congruence.
Qed.

(** Two claimers of one message, their calls alternating. *)
Definition racers : list request :=
  [Request sample_root "bob" "m.md"; Request sample_root "bob" "m.md"].

Definition race : list (prog (option gerr)) * world :=
  pool_run quiet_env (concat (replicate 12 [0; 1]%nat))
    (claimer <$> racers, sample_world [(box_path "bob" "new" "m.md", "hello")]).

Lemma race_steps : rtc (pstep quiet_env)
  (claimer <$> racers, sample_world [(box_path "bob" "new" "m.md", "hello")]) (race.1, race.2).
Proof. rewrite <-surjective_pairing. apply pool_run_steps. Qed.

Lemma claim_exclusive_witness :
  exists o1 o2, pool_result race.1 0 = Some o1 /\ pool_result race.1 1 = Some o2 /\
    won o1 = true /\ won o2 = false.
Proof.
  destruct (pool_result race.1 0) as [o1|] eqn:E1; [|vm_compute in E1; discriminate E1].
  destruct (pool_result race.1 1) as [o2|] eqn:E2; [|vm_compute in E2; discriminate E2].
  assert (won o1 = true) as Hw by (vm_compute in E1; injection E1 as <-; reflexivity).
  exists o1, o2. split; [reflexivity|]. split; [reflexivity|]. split; [exact Hw|].
  eapply (claim_exclusive quiet_env racers _ race.1 race.2 0 1 _ _ o1 o2); [|exact race_steps|discriminate|
    reflexivity|reflexivity|reflexivity|reflexivity|exact (pool_result_Some _ _ _ E1)|
    exact (pool_result_Some _ _ _ E2)|exact Hw].
  repeat constructor.
Defined.

(** A message that was in inbox/new and is no longer there when all claimers have returned
    has been claimed by one of them, which knows it: the claim is never lost between them,
    even when the syncs after the rename failed. *)
Theorem claim_has_winner e qs w ps' w' a f :
  Forall (fun q => dr_at (q_root q) = []) qs ->
  rtc (pstep e) (claimer <$> qs, w) (ps', w') ->
  Forall (fun p => exists o, p = Ret o) ps' ->
  dents (tr w) !! box_path a "new" f <> None -> dents (tr w') !! box_path a "new" f = None ->
  exists i q o, qs !! i = Some q /\ q_agent q = a /\ q_file q = f /\
    ps' !! i = Some (Ret o) /\ won o = true.
Proof.
  intros Hqs Hsteps Hdone Hthere Hgone.
  pose proof (claimers_init a f qs w Hqs) as Hinv.
  apply (pool_inv_steps e _ _ _ _ _ _ _ _ Hinv) in Hsteps as [_ _ _ Hpost _].
  destruct (Hpost Hthere Hgone) as (i & p & (q & Hq & <- & <-) & Hp & Hw).
  rewrite Forall_lookup in Hdone. destruct (Hdone i p Hp) as [o ->]. by exists i, q, o.
Qed.

Lemma claim_has_winner_witness :
  exists i o, pool_result race.1 i = Some o /\ won o = true.
Proof.
  destruct (claim_has_winner quiet_env racers _ race.1 race.2 "bob" "m.md" ltac:(repeat constructor)
    race_steps) as (i & q & o & _ & _ & _ & Hp & Hw).
  - assert (forallb (fun p => match p with Ret _ => true | _ => false end) race.1 = true) as H
      by (vm_compute; reflexivity).
    rewrite forallb_forall in H. apply Forall_forall. intros p Hp%list_elem_of_In%H.
    destruct p as [o|]; [by exists o|discriminate Hp].
  - vm_compute. discriminate.
  - vm_compute. reflexivity.
  - exists i, o. unfold pool_result. rewrite Hp. by split.
Defined.

(** C21: Claiming never loses the message: if it was in inbox/new, and not in inbox/cur, when
    the claimers started, then at every point of every interleaving, under any I/O failures,
    its whole content is in exactly one of the two. *)
Theorem claim_retains_message e qs w ps' w' a f d :
  Forall (fun q => dr_at (q_root q) = []) qs ->
  rtc (pstep e) (claimer <$> qs, w) (ps', w') ->
  retained a f d (tr w) -> retained a f d (tr w').
Proof.
  intros Hqs Hsteps. eapply retained_steps; [|exact Hsteps]. by apply claimers_init.
Qed.

Lemma claim_retains_message_witness : retained "bob" "m.md" "hello" (tr race.2).
Proof.
  eapply claim_retains_message; [|exact race_steps|]; [repeat constructor|].
  left. split; vm_compute; reflexivity.
Defined.

(** What MoveNewToCur returns says what happened: when the caller won, the entry moved
    from inbox/new to inbox/cur with its content, nothing was overwritten and no other
    message was touched; otherwise the messages are as they were, and a collision is reported
    only when the message is still in inbox/new.  Stopped after any call, it is in one of
    these two states. *)
Theorem claim_outcome_sound e r a f w :
  dr_at r = [] ->
  claim_outcome a f (tr w) (run e (MoveNewToCur r a f) w).1 (tr (run e (MoveNewToCur r a f) w).2) /\
  Forall (fun w' => unclaimed (tr w) (tr w') \/ claimed a f (tr w) (tr w'))
    (trace e (MoveNewToCur r a f) w).
Proof.
  intros Hat. pose proof (wpi_MoveNewToCur e r Hat a f w) as H. split.
  - by apply wpi_run in H as [_ ?].
  - by apply wpi_trace in H.
Qed.

Lemma claim_outcome_sound_witness :
  let w := sample_world [(box_path "bob" "new" "m.md", "hello")] in
  let p := MoveNewToCur sample_root "bob" "m.md" in
  claim_outcome "bob" "m.md" (tr w) (run (failing_env 6 EIO) p w).1 (tr (run (failing_env 6 EIO) p w).2).
Proof.
  intros w p.
  exact (proj1 (claim_outcome_sound (failing_env 6 EIO) sample_root "bob" "m.md" w eq_refl)).
Defined.

(** When no call fails, claiming a message that is in inbox/new and not in inbox/cur of a
    mailbox that has its directories succeeds, and the message is then in inbox/cur. *)
Theorem claim_available e r a f d w :
  healthy e -> attached e r w -> dr_at r = [] ->
  ValidateHandle a = None -> ValidateMessageFilename f = None ->
  dirs_upto (tr w) (inbox_dir a "new") -> dirs_upto (tr w) (inbox_dir a "cur") ->
  content (tr w) (box_path a "new" f) = Some d -> dents (tr w) !! box_path a "cur" f = None ->
  exists w', run e (MoveNewToCur r a f) w = (None, w') /\
    content (tr w') (box_path a "cur" f) = Some d /\ dents (tr w') !! box_path a "new" f = None.
Proof.
  intros Hnf Hatt Hat Ha Hf Hdn Hdc Hcont Hc. destruct (content_file _ _ _ Hcont) as (i & Hi & _).
  pose proof (live_MoveNewToCur e r a f i w Hnf Hatt Hat Ha Hf Hdn Hdc Hi Hc) as Hl.
  pose proof (wpi_run e _ _ _ _ (wpi_MoveNewToCur e r Hat a f w)) as [_ H].
  destruct (run e (MoveNewToCur r a f) w) as [o w']. cbn in Hl, H. subst o.
  exists w'. destruct H as (_ & _ & H3 & H4 & _). split; [done|]. split; [by apply H4|done].
Qed.

Lemma claim_available_witness :
  exists w', run quiet_env (MoveNewToCur sample_root "bob" "m.md")
      (sample_world [(box_path "bob" "new" "m.md", "hello")]) = (None, w') /\
    content (tr w') (box_path "bob" "cur" "m.md") = Some "hello" /\
    dents (tr w') !! box_path "bob" "new" "m.md" = None.
Proof.
  apply claim_available; [intros n; reflexivity| |reflexivity|vm_compute; reflexivity|
    vm_compute; reflexivity| | |vm_compute; reflexivity|vm_compute; reflexivity].
  - split; [reflexivity|]. intros n. exists base_info. split; reflexivity.
  - apply dirs_uptob_spec; vm_compute; reflexivity.
  - apply dirs_uptob_spec; vm_compute; reflexivity.
Defined.
