(* ===== verification/Format.v ===== *)
(** Message files: internal/format/message.go and internal/format/id.go.

    The JSON of a context is kept as a value in which the members of objects are in the order
    of their keys, which is how a Go map is written; a number in it is kept as its literal
    (Go converts it to a float64), and a literal outside the range of float64 is an error. *)
From S2P Require Import Prelude GoStr GoSort GoTime GoPath Json JsonFacts JsonStruct GoErr Fs Wp Ambient.

Definition CurrentSchema : Z := 1.
Definition CurrentVersion : Z := 1.
Definition MaxMessageSize : Z := 10 * 1024 * 1024.

Definition frontmatterStartLine : string := "---json".
Definition frontmatterStart : string := frontmatterStartLine +:+ LF.
Definition frontmatterEnd : string := LF +:+ "---" +:+ LF.

(** ** map[string]any *)

(** The value of a number literal as mantissa and decimal exponent. *)
Definition dec_parts (lit : string) : option (Z * Z) :=
  let '(_, r) := scan_sign lit in
  '(i, r) ← scan_int r;
  '(f, r) ← scan_frac r;
  '(x, _) ← scan_exp r;
  m ← digits_val 0 (i +:+ str_drop 1 f);
  let '(neg, d) := match str_drop 1 x with
                   | String c d => if Ascii.eqb c (chr 45) then (true, d)
                                   else if Ascii.eqb c (chr 43) then (false, d) else (false, String c d)
                   | "" => (false, "0")
                   end in
  n ← digits_val 0 d;
  Some (m, ((if (neg : bool) then - n else n) - Z.of_nat (String.length (str_drop 1 f)))%Z).

(** strconv.ParseFloat reports no range error: the literal rounds to a finite float64. *)
Definition float64_ok (lit : string) : bool :=
  match dec_parts lit with
  | None => false
  | Some (m, x) =>
    let bound := (2 ^ 1024 - 2 ^ 970)%Z in
    if Z.leb 0 x then Z.ltb (m * 10 ^ x) bound else Z.ltb m (bound * 10 ^ (- x))
  end.

Fixpoint any_ok (j : json) : bool :=
  match j with
  | JNum l => float64_ok l
  | JArr l => forallb any_ok l
  | JObj l => forallb (fun kv => any_ok kv.2) l
  | _ => true
  end.

(** What a value becomes in an [any]: later members of an object replace earlier ones. *)
Fixpoint to_any (j : json) : json :=
  match j with
  | JArr l => JArr (List.map to_any l)
  | JObj l => JObj (foldl (fun m kv => key_insert kv.1 kv.2 m) [] (List.map (fun kv => (kv.1, to_any kv.2)) l))
  | _ => j
  end.

(** A map that may be nil; reading adds to the map that is there. *)
#[global] Instance json_map : JsonField (option (list (string * json))) := {|
  to_json o := match o with None => JNull | Some l => JObj l end;
  from_json old j := match j with
    | JNull => Some None
    | JObj l =>
      if forallb (fun kv => any_ok kv.2) l
      then Some (Some (foldl (fun m kv => key_insert kv.1 kv.2 m) (default [] old)
                         (List.map (fun kv => (kv.1, to_any kv.2)) l)))
      else None
    | _ => None
    end;
|}.

(** ** Headers and messages *)

Record Header := MkHeader {
  Schema : Z;
  ID : string;
  From : string;
  To : option (list string);
  Thread : string;
  Subject : string;
  Created : string;
  Refs : option (list string);
  Priority : string;
  Kind : string;
  Labels : option (list string);
  Context_ : option (list (string * json));
  ReplyTo : string;
  ReplyProject : string;
  FromProject : string;
}.

Record Message := MkMessage { Header_ : Header; Body : string }.

Definition header_fields : list string :=
  ["schema"; "id"; "from"; "to"; "thread"; "subject"; "created"; "refs"; "priority"; "kind"; "labels";
   "context"; "reply_to"; "reply_project"; "from_project"].

(** omitempty: a string, slice or map of length 0 is left out. *)
Definition no_items {A} (o : option (list A)) : bool :=
  match o with None | Some [] => true | _ => false end.
Definition no_text (s : string) : bool := bool_decide (s = "").

Definition header_json (h : Header) : json :=
  JObj ([("schema", to_json (Schema h)); ("id", to_json (ID h)); ("from", to_json (From h));
         ("to", to_json (To h)); ("thread", to_json (Thread h))] ++
        opt_member "subject" (to_json (Subject h)) (no_text (Subject h)) ++
        [("created", to_json (Created h))] ++
        opt_member "refs" (to_json (Refs h)) (no_items (Refs h)) ++
        opt_member "priority" (to_json (Priority h)) (no_text (Priority h)) ++
        opt_member "kind" (to_json (Kind h)) (no_text (Kind h)) ++
        opt_member "labels" (to_json (Labels h)) (no_items (Labels h)) ++
        opt_member "context" (to_json (Context_ h)) (no_items (Context_ h)) ++
        opt_member "reply_to" (to_json (ReplyTo h)) (no_text (ReplyTo h)) ++
        opt_member "reply_project" (to_json (ReplyProject h)) (no_text (ReplyProject h)) ++
        opt_member "from_project" (to_json (FromProject h)) (no_text (FromProject h)) ++ []).

Definition zero_header : Header :=
  MkHeader 0 "" "" None "" "" "" None "" "" None None "" "" "".

(** json.Unmarshal into a Header. *)
Definition header_of_json (j : json) : option Header :=
  match j with
  | JNull => Some zero_header
  | JObj l =>
    let get {A} `{JsonField A} := @get A _ header_fields l in
    a1 ← get "schema" 0%Z; a2 ← get "id" ""; a3 ← get "from" ""; a4 ← get "to" (@None (list string));
    a5 ← get "thread" ""; a6 ← get "subject" ""; a7 ← get "created" "";
    a8 ← get "refs" (@None (list string)); a9 ← get "priority" ""; a10 ← get "kind" "";
    a11 ← get "labels" (@None (list string)); a12 ← get "context" (@None (list (string * json)));
    a13 ← get "reply_to" ""; a14 ← get "reply_project" ""; a15 ← get "from_project" "";
    Some (MkHeader a1 a2 a3 a4 a5 a6 a7 a8 a9 a10 a11 a12 a13 a14 a15)
  | _ => None
  end.

(** ** Priorities and kinds *)

Definition ValidPriorities : list string := ["urgent"; "normal"; "low"].
Definition ValidKinds : list string :=
  ["brainstorm"; "review_request"; "review_response"; "question"; "answer"; "decision"; "status"; "todo"].
Definition ValidKindsList : string := Join_with ", " ValidKinds.

Definition IsValidPriority (p : string) : bool :=
  if bool_decide (p = "") then true else existsb (fun v => bool_decide (p = v)) ValidPriorities.
Definition IsValidKind (k : string) : bool :=
  if bool_decide (k = "") then true else existsb (fun v => bool_decide (k = v)) ValidKinds.

(** ** Writing *)

Definition set_defaults (now : Z) (h : Header) : Header :=
  MkHeader (if Z.eqb (Schema h) 0 then CurrentSchema else Schema h) (ID h) (From h) (To h) (Thread h)
    (Subject h) (if bool_decide (Created h = "") then Format_RFC3339Nano now else Created h)
    (Refs h) (Priority h) (Kind h) (Labels h) (Context_ h) (ReplyTo h) (ReplyProject h) (FromProject h).

(** A body that is not empty ends in a newline. *)
Definition terminate (body : string) : string :=
  if negb (bool_decide (body = "")) && negb (HasSuffix body LF) then body +:+ LF else body.

Definition marshal_at (now : Z) (m : Message) : string :=
  frontmatterStart +:+ MarshalIndent (header_json (set_defaults now (Header_ m))) +:+ frontmatterEnd +:+
  terminate (Body m).

Definition Message_Marshal (m : Message) : prog (string * option gerr) :=
  if bool_decide (Created (Header_ m) = "") then now ← sys SNow; Ret (marshal_at now m, None)
  else Ret (marshal_at 0 m, None).

(** ** Reading *)

Definition splitFrontmatter (data : string) : (string * string) + gerr :=
  if Z.ltb MaxMessageSize (Z.of_nat (String.length data)) then inr (Errorf "" (ESent ErrMessageTooLarge)) else
  let data := crlf_to_lf data in
  if negb (HasPrefix data frontmatterStart) then inr (ESent ErrMissingFrontmatterStart) else
  let payload := str_drop (String.length frontmatterStart) data in
  match Decode payload with
  | None => inr (EMsg "parse frontmatter json")
  | Some (_, rest) =>
    let header := str_take (String.length payload - String.length rest) payload in
    let rest := TrimLeft rest (" " +:+ TAB +:+ CR +:+ LF) in
    if negb (HasPrefix rest ("---" +:+ LF)) then inr (ESent ErrMissingFrontmatterEnd)
    else inl (header, str_drop 4 rest)
  end.

Definition unmarshal_header (s : string) : Header + gerr :=
  match j ← Unmarshal s; header_of_json j with
  | None => inr (EMsg "parse frontmatter")
  | Some h => inl h
  end.

Definition ParseMessage (data : string) : Message + gerr :=
  match splitFrontmatter data with
  | inr e => inr e
  | inl (headerBytes, body) =>
    match unmarshal_header headerBytes with
    | inr e => inr e
    | inl header => inl (MkMessage header body)
    end
  end.

Definition ParseHeader (data : string) : Header + gerr :=
  match splitFrontmatter data with
  | inr e => inr e
  | inl (headerBytes, _) => unmarshal_header headerBytes
  end.

(** ReadString(LF): the line with its newline and what follows; [None] at the end of input. *)
Fixpoint read_line (s : string) : option (string * string) :=
  match s with
  | "" => None
  | String c r =>
    if Ascii.eqb c (chr 10) then Some (String c "", r)
    else match read_line r with Some (l, r') => Some (String c l, r') | None => None end
  end.

(** The fuel is the length of the input: every line consumes a byte. *)
Fixpoint consume_lines (fuel : nat) (s : string) : option gerr :=
  match fuel with
  | O => Some (ESent ErrMissingFrontmatterEnd)
  | S fuel' =>
    match read_line s with
    | None => Some (ESent ErrMissingFrontmatterEnd)
    | Some (line, rest) =>
      let line := TrimSpace line in
      if bool_decide (line = "") then consume_lines fuel' rest
      else if bool_decide (line = "---") then None
      else Some (ESent ErrMissingFrontmatterEnd)
    end
  end.
Definition consumeFrontmatterEnd (s : string) : option gerr := consume_lines (String.length s) s.

(** io.LimitReader. *)
Definition limit (n : Z) (s : string) : string :=
  if Z.leb (Z.of_nat (String.length s)) n then s else str_take (Z.to_nat n) s.

(** ReadHeader on a reader that yields [s] and then the end of the file. *)
Definition ReadHeader (s : string) : Header + gerr :=
  let s := limit MaxMessageSize s in
  let '(line, rest) := match read_line s with
                       | Some (l, r) => (l, Some r)
                       | None => (s, None)
                       end in
  if negb (bool_decide (TrimRight line (CR +:+ LF) = frontmatterStartLine))
  then inr (ESent ErrMissingFrontmatterStart) else
  match rest with
  | None => inr (ESent ErrMissingFrontmatterEnd)
  | Some rest =>
    match Decode rest with
    | None => inr (EMsg "parse frontmatter")
    | Some (j, rest) =>
      match header_of_json j with
      | None => inr (EMsg "parse frontmatter")
      | Some header =>
        match consumeFrontmatterEnd rest with
        | Some e => inr e
        | None => inl header
        end
      end
    end
  end.

Definition ReadMessageFile (p : path) : prog (option Message * option gerr) :=
  x ← OpenRegularNoFollow p;
  match x with
  | (Some (file, info), None) =>
    if Z.ltb MaxMessageSize (Z.of_nat (i_size info))
    then Ret (None, Some (Errorf "" (ESent ErrMessageTooLarge))) else
    let_ok data := sys (SReadAll file) orelse x => Ret (None, Some (EErrno x)) in
    match ParseMessage (limit (MaxMessageSize + 1) data) with
    | inr e => Ret (None, Some e)
    | inl m => Ret (Some m, None)
    end
  | (_, Some e) => Ret (None, Some e)
  | (None, None) => Ret (None, None)
  end.

(** The file is read in one call; Go reads it as far as it needs. *)
Definition ReadHeaderFile (p : path) : prog (option Header * option gerr) :=
  x ← OpenRegularNoFollow p;
  match x with
  | (Some (file, _), None) =>
    let_ok data := sys (SReadAll file) orelse x => Ret (None, Some (EErrno x)) in
    match ReadHeader data with
    | inr e => Ret (None, Some e)
    | inl h => Ret (Some h, None)
    end
  | (_, Some e) => Ret (None, Some e)
  | (None, None) => Ret (None, None)
  end.

(** ** Sorting by time *)

Class Timestamped (T : Type) := {
  GetCreated : T -> string;
  GetID : T -> string;
  GetRawTime : T -> Z;
}.

Definition timestamp_less {T} `{Timestamped T} (a b : T) : bool :=
  let ti := GetRawTime a in let tj := GetRawTime b in
  if negb (IsZero ti) && negb (IsZero tj) then
    if Z.eqb ti tj then str_ltb (GetID a) (GetID b) else Z.ltb ti tj
  else
    let ci := GetCreated a in let cj := GetCreated b in
    if bool_decide (ci = cj) then str_ltb (GetID a) (GetID b) else str_ltb ci cj.

Definition SortByTimestamp {T} `{SortSlice} `{Timestamped T} (items : list T) : list T :=
  sort_slice timestamp_less items.

(** ** Message identifiers *)

Definition randSuffix (n : nat) : prog (string * option gerr) :=
  let_ok b := sys (SRandom n) orelse x => Ret ("", Some (EErrno x)) in
  Ret (ToLower (EncodeToString b), None).

Definition NewMessageID (now : Z) : prog (string * option gerr) :=
  let stamp := Format_stamp now in
  pid ← sys SGetpid;
  let_val suffix := randSuffix 4 orelse e => Ret ("", Some e) in
  Ret (stamp +:+ "_pid" +:+ itoa pid +:+ "_" +:+ suffix, None).
