(* ===== verification/MessageFormat.v ===== *)
(** What the message format guarantees: internal/format. *)
From S2P Require Import Prelude GoStr GoSort GoTime GoPath Json JsonFacts JsonStruct GoErr Fs Wp FsFacts Names Sample Ambient Format.

(** ** Contexts *)

(** A map as reading leaves it: members in the order of their keys, at every level. *)
Fixpoint canon (j : json) : Prop :=
  match j with
  | JArr l => foldr (fun x P => canon x /\ P) True l
  | JObj l => keys_sorted l /\ foldr (fun kv P => canon kv.2 /\ P) True l
  | _ => True
  end.

Lemma to_any_canon j : canon j -> to_any j = j.
Proof.
  induction j as [| | | |l IH|l IH] using json_rec'; try done; cbn.
  - intros H. f_equal. induction IH as [|x l Hx _ IHl]; [done|]. destruct H as [H1 H2]. cbn.
    by rewrite Hx, IHl.
  - intros [Hs H]. f_equal. assert (List.map (fun kv => (kv.1, to_any kv.2)) l = l) as ->.
    { clear Hs. induction IH as [|[k x] l Hx _ IHl]; [done|]. destruct H as [H1 H2]. cbn in *.
      by rewrite Hx, IHl. }
    by rewrite (key_insert_all [] l).
Qed.

(** Reading gives maps in that form, whatever the text. *)
Lemma any_members l : Forall (fun kv => canon kv.2) l ->
  canon (JObj (foldl (fun m kv => key_insert kv.1 kv.2 m) [] l)).
Proof.
  intros Hl. assert (forall k v m, canon v -> foldr (fun kv P => canon kv.2 /\ P) True m ->
    foldr (fun kv P => canon kv.2 /\ P) True (key_insert k v m)) as Hins.
  { intros k v m Hv. induction m as [|[k' v'] m IH]; [done|]. intros [H1 H2]. cbn.
    destruct (str_ltb k k'); [done|]. case_bool_decide; [done|]. split; [done|by apply IH]. }
  cbn [canon]. split; [apply key_inserts_sorted; constructor|].
  assert (foldr (fun kv P => canon kv.2 /\ P) True ([] : list (string * json))) as H0 by done.
  revert H0. generalize (@nil (string * json)) as acc.
  induction Hl as [|[k v] l Hv _ IH]; intros acc Hacc; [done|]. cbn. apply IH. by apply Hins.
Qed.

Lemma to_any_is_canon j : canon (to_any j).
Proof.
  induction j as [| | | |l IH|l IH] using json_rec'; try done.
  - cbn. induction IH as [|x l Hx _ IHl]; [done|]. by split.
  - cbn [to_any]. apply any_members. apply Forall_forall. intros kv Hkv%list_elem_of_In.
    apply in_map_iff in Hkv as (kv' & <- & Hin). cbn. rewrite Forall_forall in IH.
    apply IH. by apply list_elem_of_In.
Qed.

(** A context that can be written and read back. *)
Record context_ok (c : option (list (string * json))) : Prop := {
  cx_canon : canon (JObj (default [] c));
  cx_wf : wf_json (JObj (default [] c)) = true;
  cx_num : any_ok (JObj (default [] c)) = true;
}.

Lemma context_back l : context_ok (Some l) -> from_json None (JObj l) = Some (Some l).
Proof.
  intros [Hc _ Hn]. cbn in *. rewrite Hn. destruct Hc as [Hs Hc]. do 2 f_equal.
  pose proof (to_any_canon (JObj l) (conj Hs Hc)) as E. cbn in E. by injection E.
Qed.

(** ** Headers *)

(** The strings are valid UTF-8, the schema is an int and the context is a map of JSON. *)
Definition header_text (h : Header) : bool :=
  forallb utf8_valid [ID h; From h; Thread h; Subject h; Created h; Priority h; Kind h; ReplyTo h;
    ReplyProject h; FromProject h] &&
  forallb good [To h; Refs h; Labels h] && int64_range (Schema h).

(** What omitempty makes of an empty slice or map. *)
Definition drop_empty {A} (o : option (list A)) : option (list A) := if no_items o then None else o.

Definition stored (h : Header) : Header :=
  MkHeader (Schema h) (ID h) (From h) (To h) (Thread h) (Subject h) (Created h) (drop_empty (Refs h))
    (Priority h) (Kind h) (drop_empty (Labels h)) (drop_empty (Context_ h)) (ReplyTo h) (ReplyProject h)
    (FromProject h).

Lemma header_text_inv h : header_text h = true ->
  (utf8_valid (ID h) = true /\ utf8_valid (From h) = true /\ utf8_valid (Thread h) = true /\
   utf8_valid (Subject h) = true /\ utf8_valid (Created h) = true /\ utf8_valid (Priority h) = true /\
   utf8_valid (Kind h) = true /\ utf8_valid (ReplyTo h) = true /\ utf8_valid (ReplyProject h) = true /\
   utf8_valid (FromProject h) = true) /\
  good (To h) = true /\ good (Refs h) = true /\ good (Labels h) = true /\ int64_range (Schema h) = true.
Proof. unfold header_text. cbn [forallb]. rewrite !andb_true_iff. tauto. Qed.

Definition header_members (h : Header) : list (string * json) :=
  match header_json h with JObj l => l | _ => [] end.

(** An omitted slice is read as nil. *)
Lemma get_slice names n (x : option (list string)) l :
  bool_decide (n ∈ names) = true -> good x = true ->
  get names (opt_member n (to_json x) (no_items x) ++ l) n None = get names l n (drop_empty x).
Proof.
  intros Hn Hx. unfold drop_empty. destruct (no_items x) eqn:E; [done|]. by apply get_here.
Qed.

Lemma get_context names n x l :
  bool_decide (n ∈ names) = true -> context_ok x ->
  get names (opt_member n (to_json x) (no_items x) ++ l) n None = get names l n (drop_empty x).
Proof.
  intros Hn Hx. unfold drop_empty. destruct (no_items x) eqn:E; [done|]. destruct x as [c|]; [|done].
  cbn [opt_member app to_json json_map get]. rewrite field_of_name by done.
  rewrite bool_decide_eq_true_2 by done. by rewrite context_back.
Qed.

Lemma header_gets h : header_text h = true -> context_ok (Context_ h) ->
  let get {A} `{JsonField A} := @get A _ header_fields (header_members h) in
  (get "schema" 0%Z = Some (Schema h) /\ get "id" "" = Some (ID h) /\ get "from" "" = Some (From h) /\
   get "to" (@None (list string)) = Some (To h) /\ get "thread" "" = Some (Thread h) /\
   get "subject" "" = Some (Subject h) /\ get "created" "" = Some (Created h)) /\
  get "refs" (@None (list string)) = Some (drop_empty (Refs h)) /\ get "priority" "" = Some (Priority h) /\
  get "kind" "" = Some (Kind h) /\ get "labels" (@None (list string)) = Some (drop_empty (Labels h)) /\
  get "context" (@None (list (string * json))) = Some (drop_empty (Context_ h)) /\
  get "reply_to" "" = Some (ReplyTo h) /\ get "reply_project" "" = Some (ReplyProject h) /\
  get "from_project" "" = Some (FromProject h).
Proof.
  intros ((H1 & H2 & H3 & H4 & H5 & H6 & H7 & H8 & H9 & H10) & H11 & H12 & H13 & H14)%header_text_inv Hc.
  unfold header_members, header_json. cbv zeta. cbn [app].
  split_and!; get_skip;
    first [rewrite get_slice by done | rewrite get_context by done | rewrite get_here by done |
      rewrite get_opt_here; [|reflexivity|done|by intros E%bool_decide_eq_true]];
    get_skip; done.
Qed.

Lemma header_json_back h : header_text h = true -> context_ok (Context_ h) ->
  header_of_json (header_json h) = Some (stored h).
Proof.
  intros H Hc. pose proof (header_gets h H Hc) as Hg. cbv zeta in Hg.
  change (header_json h) with (JObj (header_members h)). unfold header_of_json. cbv zeta.
  destruct Hg as ((-> & -> & -> & -> & -> & -> & ->) & -> & -> & -> & -> & -> & -> & -> & ->). done.
Qed.

Lemma header_json_wf h : header_text h = true -> context_ok (Context_ h) -> wf_json (header_json h) = true.
Proof.
  intros ((H1 & H2 & H3 & H4 & H5 & H6 & H7 & H8 & H9 & H10) & H11 & H12 & H13 & H14)%header_text_inv Hc.
  change (wf_members (header_members h) = true).
  unfold header_members, header_json. cbn [app]. wf_fields.
  unfold opt_member at 1. unfold wf_members. rewrite forallb_app. apply andb_true_iff. split.
  - destruct (no_items (Context_ h)) eqn:E; [done|]. destruct Hc as [_ Hc _].
    destruct (Context_ h) as [c|]; [|done]. cbn in *. by rewrite Hc.
  - fold (wf_members (opt_member "reply_to" (to_json (ReplyTo h)) (no_text (ReplyTo h)) ++
      opt_member "reply_project" (to_json (ReplyProject h)) (no_text (ReplyProject h)) ++
      opt_member "from_project" (to_json (FromProject h)) (no_text (FromProject h)) ++ [])).
    wf_fields. done.
Qed.

(** The properties of the message format: Marshal, ParseMessage, ParseHeader, ReadHeader,
    NewMessageID and SortByTimestamp of internal/format. *)

(** ** Frames *)

Lemma frame_crlf h body : header_safe h = true ->
  crlf_to_lf (frontmatterStart +:+ h +:+ frontmatterEnd +:+ body) =
  frontmatterStart +:+ h +:+ frontmatterEnd +:+ crlf_to_lf body.
Proof.
  intros Hs. rewrite (crlf_to_lf_app frontmatterStart) by done.
  rewrite (crlf_to_lf_app h) by (by apply header_safe_no_cr).
  by rewrite (crlf_to_lf_app frontmatterEnd).
Qed.

Lemma str_take_prefix a b : str_take (String.length (a +:+ b) - String.length b) (a +:+ b) = a.
Proof.
  rewrite length_app_str. replace (String.length a + String.length b - String.length b)%nat
    with (String.length a) by lia. apply str_take_app.
Qed.

Lemma split_frame j body :
  wf_json j = true ->
  (Z.of_nat (String.length (frontmatterStart +:+ MarshalIndent j +:+ frontmatterEnd +:+ body)) <= MaxMessageSize)%Z ->
  splitFrontmatter (frontmatterStart +:+ MarshalIndent j +:+ frontmatterEnd +:+ body) =
    inl (MarshalIndent j, crlf_to_lf body).
Proof.
  intros Hwf Hlen. unfold splitFrontmatter. rewrite (proj2 (Z.ltb_ge _ _)) by done.
  rewrite frame_crlf by (by apply MarshalIndent_safe). rewrite HasPrefix_app. cbn [negb].
  rewrite str_drop_app, Decode_MarshalIndent by done. rewrite str_take_prefix. done.
Qed.

Lemma unmarshal_written h : header_text h = true -> context_ok (Context_ h) ->
  unmarshal_header (MarshalIndent (header_json h)) = inl (stored h).
Proof.
  intros Ht Hc. unfold unmarshal_header. rewrite Unmarshal_MarshalIndent by (by apply header_json_wf).
  cbn [mbind option_bind]. by rewrite header_json_back.
Qed.

(** The defaults Marshal fills in keep a header writable. *)
Lemma defaults_text now h : header_text h = true -> header_text (set_defaults now h) = true.
Proof.
  intros ((H1 & H2 & H3 & H4 & H5 & H6 & H7 & H8 & H9 & H10) & H11 & H12 & H13 & H14)%header_text_inv.
  unfold header_text. cbn [forallb set_defaults Schema ID From To Thread Subject Created Refs Priority Kind
    Labels Context_ ReplyTo ReplyProject FromProject].
  rewrite H1, H2, H3, H4, H6, H7, H8, H9, H10, H11, H12, H13.
  assert (utf8_valid (if bool_decide (Created h = "") then Format_RFC3339Nano now else Created h) = true) as ->.
  { case_bool_decide; [|done]. apply stamp_utf8, Format_RFC3339Nano_stamp. }
  by destruct (Z.eqb (Schema h) 0).
Qed.

(** C24: A message that was written is read back: if the strings of its header are valid UTF-8
    and the file is not too large, ParseMessage of what Marshal wrote gives the header with
    the defaults Marshal fills in and empty optional lists left out, and the body with a
    final newline and Unix line endings; ParseHeader gives that header. *)
Theorem message_roundtrip now m :
  header_text (Header_ m) = true -> context_ok (Context_ (Header_ m)) ->
  (Z.of_nat (String.length (marshal_at now m)) <= MaxMessageSize)%Z ->
  ParseMessage (marshal_at now m) =
    inl (MkMessage (stored (set_defaults now (Header_ m))) (crlf_to_lf (terminate (Body m)))) /\
  ParseHeader (marshal_at now m) = inl (stored (set_defaults now (Header_ m))).
Proof.
  intros Ht Hc Hlen. pose proof (defaults_text now _ Ht) as Ht'.
  assert (wf_json (header_json (set_defaults now (Header_ m))) = true) as Hwf by (by apply header_json_wf).
  unfold ParseMessage, ParseHeader. unfold marshal_at in *. rewrite split_frame by done.
  rewrite unmarshal_written by done. done.
Qed.

Definition sample_header : Header :=
  MkHeader 0 "id-1" "alice" (Some ["bob"; "eve"]) "p2p/alice__bob" "Plan" "2024-01-02T03:04:05Z" None "urgent"
    "question" (Some []) (Some [("files", JArr [JStr "a.go"]); ("lines", JNum "12")]) "" "" "".

Lemma message_roundtrip_witness :
  let m := MkMessage sample_header "hello" in
  ParseMessage (marshal_at 0 m) = inl (MkMessage (stored (set_defaults 0 sample_header)) ("hello" +:+ LF)).
Proof.
  intros m. refine (proj1 (message_roundtrip 0 m _ _ _)).
  - vm_compute. reflexivity.
  - split; [|vm_compute; reflexivity..]. cbn. split; [|tauto]. repeat constructor.
  - vm_compute. discriminate.
Defined.

(** ** Reading the header alone *)

Lemma consume_frame body : consumeFrontmatterEnd (frontmatterEnd +:+ body) = None.
Proof. reflexivity. Qed.

Lemma read_start_line s : read_line (frontmatterStart +:+ s) = Some (frontmatterStart, s).
Proof. reflexivity. Qed.

(** Reading only the header of a message file (ReadHeader, which stops after the
    frontmatter) and reading the whole message give the same header for everything Marshal
    writes. *)
Theorem header_readers_agree now m :
  header_text (Header_ m) = true -> context_ok (Context_ (Header_ m)) ->
  (Z.of_nat (String.length (marshal_at now m)) <= MaxMessageSize)%Z ->
  ReadHeader (marshal_at now m) = ParseHeader (marshal_at now m) /\
  exists h, ReadHeader (marshal_at now m) = inl h.
Proof.
  intros Ht Hc Hlen.
  pose proof (defaults_text now _ Ht) as Ht'.
  assert (wf_json (header_json (set_defaults now (Header_ m))) = true) as Hwf by (by apply header_json_wf).
  assert (ReadHeader (marshal_at now m) = inl (stored (set_defaults now (Header_ m)))) as HR.
  { unfold ReadHeader, limit. rewrite (proj2 (Z.leb_le _ _)) by done. unfold marshal_at.
    rewrite read_start_line. change (TrimRight frontmatterStart (CR +:+ LF)) with frontmatterStartLine.
    rewrite bool_decide_eq_true_2 by done. cbn [negb]. rewrite Decode_MarshalIndent by done.
    rewrite header_json_back by done. by rewrite consume_frame. }
  assert (ParseHeader (marshal_at now m) = inl (stored (set_defaults now (Header_ m)))) as HP.
  { unfold ParseHeader. unfold marshal_at in *. rewrite split_frame by done. by apply unmarshal_written. }
  rewrite HR, HP. split; [done|]. by eexists.
Qed.

Lemma header_readers_agree_witness :
  let m := MkMessage sample_header ("a" +:+ CR +:+ LF +:+ "---") in
  ReadHeader (marshal_at 0 m) = ParseHeader (marshal_at 0 m).
Proof.
  intros m. refine (proj1 (header_readers_agree 0 m _ _ _)).
  - vm_compute. reflexivity.
  - split; [|vm_compute; reflexivity..]. cbn. split; [|tauto]. repeat constructor.
  - vm_compute. discriminate.
Defined.

(** ** Identifiers *)

Lemma lower_numeral s : str_forallb numeral_char s = true -> str_forallb numeral_char (ToLower s) = true.
Proof.
  induction s as [|c s IH]; [done|]. cbn. intros [Hc Hs]%andb_true_iff. rewrite IH, andb_true_r by done.
  revert Hc. by destruct c as [[] [] [] [] [] [] [] []].
Qed.

Definition id_text (s : string) : bool := str_forallb name_char s.

Lemma stamp_name s : str_forallb stamp_char s = true -> id_text s = true.
Proof. apply str_forallb_impl. intros c. by destruct c as [[] [] [] [] [] [] [] []]. Qed.

Lemma numeral_name s : str_forallb numeral_char s = true -> id_text s = true.
Proof. intros H. by apply stamp_name, numeral_stamp. Qed.

Lemma pad_head w z s : HasPrefix (pad w z +:+ s) "." = false.
Proof.
  pose proof (itoa_numeral z) as Hn. destruct (itoa z) as [|c r] eqn:E; [by apply itoa_not_empty in E|].
  unfold pad. rewrite E. destruct (w - String.length (String c r))%nat; cbn [zeros]; [|done].
  rewrite string_app_nil_l, string_app_cons. cbn [HasPrefix]. cbn in Hn. apply andb_true_iff in Hn as [Hc _].
  rewrite bool_decide_eq_false_2; [done|]. by intros <-.
Qed.

(** Every identifier NewMessageID returns is, with the extension .md, a file name that
    ValidateMessageFilename accepts, whatever the clock, the process id and the random bytes:
    a message can always be delivered under its own identifier. *)
Theorem new_id_is_filename e now w id w' :
  run e (NewMessageID now) w = ((id, None), w') -> ValidateMessageFilename (id +:+ ".md") = None.
Proof.
  intros Hrun.
  assert (returns (fun x => x.2 = None -> ValidateMessageFilename (x.1 +:+ ".md") = None) (NewMessageID now)) as H.
  { unfold NewMessageID, randSuffix. intros pid. eapply (returns_bind (fun x => x.2 = None -> id_text x.1 = true)).
    - intros [b|x]; [|done]. intros _. apply numeral_name, lower_numeral, EncodeToString_numeral.
    - intros [suffix [x|]] Hs; [done|]. intros _. cbn [fst snd] in *. specialize (Hs eq_refl).
      apply md_name_valid.
      + unfold id_text in Hs. rewrite !str_forallb_app, Hs.
        pose proof (stamp_name _ (Format_stamp_stamp now)) as H1. unfold id_text in H1. rewrite H1.
        pose proof (numeral_name _ (itoa_numeral pid)) as H2. unfold id_text in H2. by rewrite H2.
      + unfold Format_stamp, format_date. rewrite !string_app_assoc. apply pad_head. }
  apply (returns_run e _ _ w) in H. rewrite Hrun in H. by apply H.
Qed.

Lemma new_id_is_filename_witness :
  exists id, (run quiet_env (NewMessageID 1700000000123456789) (sample_world [])).1 = (id, None) /\
    ValidateMessageFilename (id +:+ ".md") = None.
Proof.
  set (x := run quiet_env (NewMessageID 1700000000123456789) (sample_world [])).
  assert (x.1.2 = None) as Hx by (vm_compute; reflexivity).
  exists x.1.1. split; [exact (f_equal fst (run_outcome x None Hx))|].
  exact (new_id_is_filename quiet_env 1700000000123456789 (sample_world []) x.1.1 x.2 (run_outcome x None Hx)).
Defined.

(** ** Sorting *)

Section sorting.
Context {T : Type} `{Timestamped T}.

(** All items have a time, or none has. *)
Definition same_clock (zero : bool) (a : T) : Prop := IsZero (GetRawTime a) = zero.

Lemma timestamp_weak_order zero : weak_order (same_clock zero) timestamp_less.
Proof.
  pose proof (weak_order_sub _ (same_clock zero) _ (fun _ _ => Logic.I)
    (weak_order_key _ _ GetID str_weak_order)) as Hid. destruct zero.
  - eapply weak_order_ext; [|by apply (lex_weak_order str_ltb GetCreated); [apply str_ltb_irrefl|
      apply str_ltb_trans|apply str_ltb_total|exact Hid]].
    intros a b Ha Hb. unfold timestamp_less, same_clock in *. by rewrite Ha.
  - eapply weak_order_ext; [|apply (lex_weak_order Z.ltb GetRawTime); [apply Z.ltb_irrefl| | |exact Hid]].
    + intros a b Ha Hb. unfold timestamp_less, same_clock in *. rewrite Ha, Hb. cbn [negb andb].
      destruct (Z.eqb_spec (GetRawTime a) (GetRawTime b)); [by rewrite bool_decide_eq_true_2|].
      by rewrite bool_decide_eq_false_2.
    + intros a b c. rewrite !Z.ltb_lt. lia.
    + intros a b. rewrite !Z.ltb_lt. lia.
Qed.

Lemma timestamp_separated zero l :
  Forall (same_clock zero) l -> NoDup (GetID <$> l) -> separated timestamp_less l.
Proof.
  intros Hz Hnd a b Ha Hb Hab Hba.
  assert (GetID a = GetID b) as Eid.
  { rewrite Forall_forall in Hz. pose proof (Hz a Ha) as Za. pose proof (Hz b Hb) as Zb.
    unfold timestamp_less, same_clock in *. rewrite Za, Zb in Hab, Hba.
    destruct (str_ltb_total (GetID a) (GetID b)) as [Hlt|[E|Hlt]]; [exfalso|done|exfalso].
    - destruct zero; cbn [negb andb] in *.
      + repeat case_bool_decide; try congruence.
        destruct (str_ltb_total (GetCreated a) (GetCreated b)) as [?|[?|?]]; congruence.
      + repeat case_match; try congruence; rewrite ?Z.eqb_eq, ?Z.eqb_neq, ?Z.ltb_ge in *; lia || congruence.
    - destruct zero; cbn [negb andb] in *.
      + repeat case_bool_decide; try congruence.
        destruct (str_ltb_total (GetCreated a) (GetCreated b)) as [?|[?|?]]; congruence.
      + repeat case_match; try congruence; rewrite ?Z.eqb_eq, ?Z.eqb_neq, ?Z.ltb_ge in *; lia || congruence. }
  apply list_elem_of_lookup in Ha as [i Hi]. apply list_elem_of_lookup in Hb as [j Hj].
  assert (i = j) as ->; [|congruence].
  apply (NoDup_lookup _ _ _ (GetID a) Hnd); rewrite list_lookup_fmap, ?Hi, ?Hj; cbn; congruence.
Qed.

End sorting.

(** SortByTimestamp permutes its items, and when all of them have a time (or none has) the
    result is sorted by it, then by identifier.  If the identifiers are also distinct, the
    result is the one insertion sort gives: it does not depend on how sort.Slice works. *)
Theorem sort_by_timestamp {T} `{Timestamped T} `{SortSlice} zero (items : list T) :
  Forall (same_clock zero) items ->
  SortByTimestamp items ≡ₚ items /\
  StronglySorted (fun a b => timestamp_less b a = false) (SortByTimestamp items) /\
  (NoDup (GetID <$> items) -> SortByTimestamp items = insertion_sort timestamp_less items).
Proof.
  intros Hz. pose proof (timestamp_weak_order zero) as Hwo.
  pose proof (sort_slice_perm timestamp_less items) as Hp.
  pose proof (sort_slice_sorted _ _ _ Hwo Hz) as Hs. split; [done|]. split; [done|]. intros Hnd.
  apply (sorted_perm_unique timestamp_less (same_clock zero) Hwo).
  - by rewrite Hp, insertion_sort_perm.
  - by rewrite Hp.
  - intros a b Ha Hb. apply (timestamp_separated zero items Hz Hnd); by rewrite <-Hp.
  - done.
  - by eapply insertion_sort_sorted.
Qed.

(** Items with a raw time in nanoseconds. *)
Definition stamped : Type := string * string * Z.
#[global] Instance stamped_Timestamped : Timestamped stamped :=
  {| GetCreated x := x.1.1; GetID x := x.1.2; GetRawTime x := x.2 |}.

Lemma sort_by_timestamp_witness :
  SortByTimestamp ([("", "b", 7%Z); ("", "a", 7%Z); ("", "c", 3%Z)] : list stamped) =
    ([("", "c", 3%Z); ("", "a", 7%Z); ("", "b", 7%Z)] : list stamped).
Proof.
  refine (eq_trans (proj2 (proj2 (sort_by_timestamp false _ _)) _) _).
  - repeat constructor.
  - repeat constructor; set_solver.
  - vm_compute. reflexivity.
Defined.

(** The comparison SortByTimestamp uses is not an order when some items have a time and
    others do not: there are three items each of which is before the next in a circle, so the
    result on such a list depends on the algorithm of sort.Slice. *)
Theorem timestamp_circle :
  exists a b c : stamped, timestamp_less a b = true /\ timestamp_less b c = true /\ timestamp_less c a = true.
Proof.
  (* a and c have times, b has none and is compared by its text *)
  exists ("2023-12-31T23:00:00-10:00", "a", 1704099600000000000%Z), ("2024-01-01", "b", zero_time),
    ("2024-01-01T05:00:00Z", "c", 1704085200000000000%Z). vm_compute. done.
Qed.
