(* ===== verification/AtomicFacts.v ===== *)
(** What replacing a file through a temporary does: WriteFileAtomic of
    internal/fsq/delivery_root.go. *)
From S2P Require Import Prelude GoStr GoPath GoErr Fs Wp FsFacts Names DeliveryRoot DeliveryRootFacts Delivery.

(** A path where no directory of the layout can appear. *)
Definition solid (t : tree) (p : path) : Prop := is_Some (dents t !! p) \/ (layout_depth < length p)%nat.

Lemma evo_solid X t t' p : evo X t t' -> ~ X p -> solid t p -> dents t' !! p = dents t !! p.
Proof.
  intros Hev HX [[n Hn]|Hl]; [|by apply (evo_deep _ _ _ _ Hev)].
  destruct (evo_dents _ _ _ Hev p HX) as [?|[? _]]; [done|congruence].
Qed.

(** A dot file in the directory of [p]. *)
Definition beside (p q : path) : Prop := hidden q /\ Dir q = Dir p.

(** The entry at [p] is as it was or is a file with the whole of [d], and where there was none
    there is none or the whole of it; otherwise only dot files beside it have changed. *)
Definition replaced (p : path) (d : string) (t t' : tree) : Prop :=
  evo (fun q => beside p q \/ q = p) t t' /\
  (solid t p -> dents t' !! p = dents t !! p \/ content t' p = Some d) /\
  (dents t !! p = None -> content t' p = None \/ content t' p = Some d).

Lemma replaced_hidden p d t t' : ~ hidden p -> evo (beside p) t t' -> replaced p d t t'.
Proof.
  intros Hp Hev. assert (~ beside p p) as Hb by (by intros [? _]). split; [eapply evo_mono; [|exact Hev]; by left|].
  split; [left; by apply (evo_solid _ _ _ _ Hev)|]. intros E. left. unfold content.
  destruct (evo_dents _ _ _ Hev p Hb) as [->|(_ & (i & m & ->) & _)]; [by rewrite E|done].
Qed.

(** The file at [p] after a replacement is the old one or the new one, whole. *)
Lemma replaced_content p d t t' : replaced p d t t' ->
  (forall d0, content t p = Some d0 -> content t' p = Some d0 \/ content t' p = Some d) /\
  (dents t !! p = None -> content t' p = None \/ content t' p = Some d).
Proof.
  intros (Hev & Hs & Hn). split; [|done]. intros d0 Hd0. destruct (content_file _ _ _ Hd0) as (i & Hi & Hdata).
  destruct Hs as [E|?]; [left; by rewrite Hi|left|by right].
  unfold content. rewrite E, Hi. eapply lookup_weaken; [done|by eapply evo_data].
Qed.

(** rename(2) of a regular file onto something that is not a directory. *)
Lemma rename_file t p q i t' :
  p <> [] -> p <> q -> dents t !! p = Some (NFile i) -> t_rename t p q = Ok t' ->
  (forall j m, dents t !! q <> Some (NDir j m)) /\
  t' = set_dents (fun m => <[q := NFile i]> (delete p m)) t.
Proof.
  intros Hp Hne Hi. unfold t_rename. destruct (t_node t p) as [n|] eqn:En; [|done].
  apply t_node_Ok_inv in En as [_ En]; [|done]. rewrite Hi in En. injection En as <-.
  destruct (t_node t q) as [n|x] eqn:Eq.
  - destruct q as [|c q]; [cbn in Eq; by injection Eq as <-|].
    apply t_node_Ok_inv in Eq as [_ Eq]; [|done]. rewrite Eq. destruct n; try done; by intros [= <-].
  - apply t_node_Er in Eq as [Hq Eq]. destruct x; try done. destruct (t_parent t q) eqn:Hpar; [done|].
    destruct Eq as [?|(_ & -> & _)]; [done|]. by intros [= <-].
Qed.

Lemma evo_replace (X : path -> Prop) t p q i :
  dents t !! p = Some (NFile i) -> (forall j m, dents t !! q <> Some (NDir j m)) -> X p -> X q ->
  evo X t (set_dents (fun m => <[q := NFile i]> (delete p m)) t).
Proof.
  intros Hp Hq Xp Xq. split; cbn; [done| |].
  - intros x j m E. rewrite lookup_insert_ne by (intros ->; by eapply Hq).
    by rewrite lookup_delete_ne by congruence.
  - intros x Hx. left. rewrite lookup_insert_ne by (by intros ->).
    by rewrite lookup_delete_ne by (by intros ->).
Qed.

Lemma quiet_errno_call {X} (c : sysop (ior X)) :
  returns (fun o => forall x, o = Some x -> visible_err x = false) (call c).
Proof. unfold call, returns. intros [u|n] x; [done|]. by intros [= <-]. Qed.

Section facts.
Context (e : env) (r : DeliveryRoot) (Hat : dr_at r = []).

Lemma wpi_rename_file I p q i w :
  p <> [] -> p <> q -> dents (tr w) !! p = Some (NFile i) -> I (tr w) ->
  ((forall j m, dents (tr w) !! q <> Some (NDir j m)) ->
   I (set_dents (fun m => <[q := NFile i]> (delete p m)) (tr w))) ->
  wpi e I (call (SRename p q)) (fun o w' => ctl_eq w w' /\
    ((o = None /\ (forall j m, dents (tr w) !! q <> Some (NDir j m)) /\
      tr w' = set_dents (fun m => <[q := NFile i]> (delete p m)) (tr w)) \/
     (exists x, o = Some (EErrno x) /\ tr w' = tr w))) w.
Proof.
  intros Hp Hne Hi HI HI'. pose proof (rename_file (tr w) p q i) as Hren. apply wpi_sys.
  - cbn. unfold upd_unit, upd. destruct (e_fault e (tick w)); cbn; [done|].
    destruct (t_rename (tr w) p q) as [t'|] eqn:E; cbn; [|done].
    destruct (Hren t' Hp Hne Hi eq_refl) as (Hn & ->). by apply HI'.
  - wret. cbn. unfold upd_unit, upd. destruct (e_fault e (tick w)); cbn; [split; [done|]; right; by eexists|].
    destruct (t_rename (tr w) p q) as [t'|] eqn:E; cbn; [|split; [done|]; right; by eexists].
    destruct (Hren t' Hp Hne Hi eq_refl) as (Hn & ->). split; [done|]. by left.
Qed.

Definition replace_post (p : path) (d : string) (w : world) (o : option gerr) (w' : world) : Prop :=
  ctl_eq w w' /\ replaced p d (tr w) (tr w') /\
  match o with
  | None => content (tr w') p = Some d
  | Some err => if is_committed err then content (tr w') p = Some d
                else solid (tr w) p -> dents (tr w') !! p = dents (tr w) !! p
  end.

Lemma replace_failed p d w w' err :
  ~ hidden p -> ctl_eq w w' -> evo (beside p) (tr w) (tr w') ->
  visible_err err = false -> replace_post p d w (Some err) w'.
Proof.
  intros Hp Hc Hev Herr. split; [done|]. split; [by apply replaced_hidden|].
  rewrite quiet_not_committed by done. apply (evo_solid _ _ _ _ Hev). by intros [? _].
Qed.

Lemma wpi_replace_write I dir tmp p d w0 w :
  beside p tmp -> tmp <> [] -> ~ hidden p ->
  (forall t, replaced p d (tr w0) t -> I t) -> evo (beside p) (tr w0) (tr w) -> ctl_eq w0 w ->
  wpi e I (if_err x := writeAndSync r tmp d then Ret ([], Some x) else
    if_err x := syncDir r dir then x' ← cleanupTemp r tmp x; Ret ([], Some x') else
    if_err x := call (SRename tmp p) then x' ← cleanupTemp r tmp x; Ret ([], Some x') else
    if_err x := syncDir r dir then Ret (displayPath r p, Some (ECommitted (displayPath r p) "" x)) else
    Ret (displayPath r p, None))
  (fun x w' => replace_post p d w0 x.2 w') w.
Proof.
  intros Htmp Htn Hp HI Hev Hc.
  assert (tmp <> p) as Hne by (destruct Htmp; by intros ->).
  assert (forall t, evo (beside p) (tr w0) t -> I t) as HIh by (intros; by apply HI, replaced_hidden).
  assert (forall t, evo (eq tmp) (tr w) t -> evo (beside p) (tr w0) t) as Hup.
  { intros t Ht. etrans; [exact Hev|]. eapply evo_mono; [|exact Ht]. by intros q <-. }
  assert (forall w' err i, ctl_eq w0 w' -> evo (eq tmp) (tr w) (tr w') -> dents (tr w') !! tmp = Some (NFile i) ->
    visible_err err = false ->
    wpi e I (x' ← cleanupTemp r tmp err; Ret (@nil string, Some x')) (fun x w'' => replace_post p d w0 x.2 w'') w')
    as Hclean.
  { intros w' err i Hc' Hev' Hi Herr.
    assert (evo (beside p) (tr w0) (set_dents (delete tmp) (tr w'))) as Hdel.
    { apply Hup. etrans; [exact Hev'|]. apply evo_delete. by rewrite Hi. }
    wbind. eapply wpi_mono; [apply wpi_returns; [by apply quiet_cleanupTemp|]; apply wpi_cleanupTemp; auto;
      by rewrite Hi|].
    intros x' w6 (Hq6 & Hc6 & Ht6 & _). wret. apply replace_failed; try done; [by eapply ctl_eq_trans|].
    destruct Ht6 as [->| ->]; auto. }
  wbind. eapply wpi_mono; [apply wpi_returns; [apply quiet_writeAndSync|]; apply wpi_writeAndSync; [done|]; by auto|].
  intros o w1 (Hq1 & Hev1 & Hc1 & Hw & _). pose proof (ctl_eq_trans _ _ _ Hc Hc1) as Hcw1.
  destruct o as [x|]; [wret; apply replace_failed; by auto|].
  destruct (Hw eq_refl) as (_ & _ & _ & Hcont). clear Hw.
  destruct (content_file _ _ _ Hcont) as (i & Hi & Hd).
  wbind. eapply wpi_mono; [apply wpi_returns; [apply quiet_syncDir|]; apply wpi_ro; auto with amq|].
  intros o w2 (Hq2 & Ht2 & Hc2). pose proof (ctl_eq_trans _ _ _ Hcw1 Hc2) as Hcw2. rewrite <-Ht2 in *.
  destruct o as [x|]; [by eapply Hclean|].
  set (t' := set_dents (fun m => <[p := NFile i]> (delete tmp m)) (tr w2)).
  assert (content t' p = Some d) as Ht'.
  { unfold content, t'. cbn. by rewrite lookup_insert_eq. }
  assert ((forall j m, dents (tr w2) !! p <> Some (NDir j m)) -> replaced p d (tr w0) t') as Hrep.
  { intros Hnd. split; [|split; by right]. etrans; [eapply evo_mono; [|by apply Hup]; by left|].
    apply evo_replace; try done; [by left|by right]. }
  wbind. eapply wpi_mono; [apply (wpi_rename_file I tmp p i); auto|].
  intros o w3 (Hc3 & [(-> & Hnd & Ht3)|(x & -> & Ht3)]); pose proof (ctl_eq_trans _ _ _ Hcw2 Hc3) as Hcw3.
  2: { by eapply Hclean; rewrite ?Ht3. }
  fold t' in Ht3. apply wpi_ro_bind; [auto with amq|rewrite Ht3; by apply HI, Hrep|].
  intros o w4 Ht4 Hc4. pose proof (ctl_eq_trans _ _ _ Hcw3 Hc4) as Hcw4. rewrite Ht3 in Ht4.
  destruct o as [x|]; wret; (split; [done|]); rewrite Ht4; (split; [by apply Hrep|]); done.
Qed.

Lemma wpi_WriteFileAtomic I dir f d w :
  Forall (fun c => plain c = true) dir -> plain f = true -> HasPrefix f "." = false ->
  (length dir <= layout_depth)%nat ->
  (forall t, replaced (dir ++ [f]) d (tr w) t -> I t) ->
  wpi e I (WriteFileAtomic r dir f d) (fun x w' => replace_post (dir ++ [f]) d w x.2 w') w.
Proof.
  intros Hdir Hpf Hhid Hl HI.
  assert (~ hidden (dir ++ [f])) as Hp.
  { unfold hidden, Base. rewrite last_snoc. cbn [default from_option id]. by rewrite Hhid. }
  assert (forall t, evo (beside (dir ++ [f])) (tr w) t -> I t) as HIh by (intros; by apply HI, replaced_hidden).
  unfold WriteFileAtomic. wbind.
  eapply wpi_mono; [apply wpi_returns; [apply quiet_VerifyBase|]; apply wpi_ro; [auto with amq|by apply HIh]|].
  intros o w1 (Hq & Ht1 & Hc1). destruct o as [x|]; [wret; apply replace_failed; rewrite ?Ht1; by auto|].
  rewrite !rp_root by done.
  wbind. eapply wpi_mono; [apply wpi_returns; [apply returns_call_quiet|];
    apply wpi_mkdirall; [lia|]; rewrite Ht1; intros t Ht; apply HIh; eapply evo_mono; [|exact Ht]; done|].
  rewrite Ht1. intros o w2 (Hq2 & Hev2 & _ & Hc2 & _).
  assert (evo (beside (dir ++ [f])) (tr w) (tr w2)) as Hev by (eapply evo_mono; [|exact Hev2]; done).
  assert (ctl_eq w w2) as Hcw2 by (by eapply ctl_eq_trans).
  destruct o as [x|]; [wret; by apply replace_failed; auto|].
  apply wpi_ro_bind; [ro_tac|by auto|]. intros now w3 Ht3 Hc3.
  set (name := "." +:+ f +:+ ".tmp-" +:+ itoa now). rewrite !Join_under_plain; try done; try (by repeat constructor).
  2: { repeat constructor. apply dot_name_plain; [done|done|]. rewrite str_mem_app.
    by rewrite (numeral_no_char slash (itoa now)) by (done || apply itoa_numeral). }
  cbv zeta. rewrite !rp_root by done.
  apply wpi_replace_write; try done; try (by rewrite ?Ht3).
  - unfold beside, hidden, Base. by rewrite last_snoc, !Dir_snoc.
  - apply snoc_not_nil.
  - by eapply ctl_eq_trans.
Qed.

End facts.
