(* ===== verification/DlqEnvelope.v ===== *)
(** Dead-letter envelopes: the record, its retry state and its text.
    internal/fsq/dlq.go, the parts that do no I/O. *)
From S2P Require Import Prelude GoStr GoPath Json JsonFacts JsonStruct GoErr Fs.

Record DLQEnvelope := Envelope {
  Schema : string;
  ID : string;
  OriginalID : string;
  OriginalFile : string;
  FailureReason : string;
  FailureDetail : string;
  FailureTime : string;
  RetryCount : Z;
  RetryState : string;
  RetryPending : bool;
  RetryDelivered : bool;
  SourceDir : string;
}.

#[global] Instance DLQEnvelope_eq_dec : EqDecision DLQEnvelope.
Proof. solve_decision. Defined.

Definition DLQSchemaVersion : string := "amq/dlq/v1".
Definition MaxRetries : Z := 3.

Definition RetryStateReady : string := "ready".
Definition RetryStatePending : string := "pending".
Definition RetryStateDelivered : string := "delivered".
Definition RetryStateIndeterminate : string := "indeterminate".

(** ** The retry state *)

Definition setRetryState (env : DLQEnvelope) (state : string) : DLQEnvelope :=
  Envelope (Schema env) (ID env) (OriginalID env) (OriginalFile env) (FailureReason env)
    (FailureDetail env) (FailureTime env) (RetryCount env) state
    (bool_decide (state = RetryStatePending)) (bool_decide (state = RetryStateDelivered))
    (SourceDir env).

(** The state of an envelope that does not record one. *)
Definition legacy_state (env : DLQEnvelope) : string + gerr :=
  if RetryPending env && RetryDelivered env
  then inr (EMsg "legacy retry markers are mutually exclusive")
  else if RetryPending env then inl RetryStatePending
  else if RetryDelivered env then inl RetryStateDelivered
  else if Z.ltb 0 (RetryCount env) then inl RetryStateIndeterminate
  else inl RetryStateReady.

(** The boolean markers a recorded state goes with. *)
Definition expected_markers (state : string) : option (bool * bool) :=
  if bool_decide (state = RetryStateReady) then Some (false, false)
  else if bool_decide (state = RetryStatePending) then Some (true, false)
  else if bool_decide (state = RetryStateDelivered) then Some (false, true)
  else if bool_decide (state = RetryStateIndeterminate) then Some (false, false)
  else None.

Definition normalizeRetryState (env : DLQEnvelope) : DLQEnvelope + gerr :=
  if Z.ltb (RetryCount env) 0 then inr (EMsg "retry_count must not be negative")
  else if bool_decide (RetryState env = "") then
    match legacy_state env with
    | inl state => inl (setRetryState env state)
    | inr e => inr e
    end
  else
    let state := RetryState env in
    match expected_markers state with
    | None => inr (EMsg "unknown retry_state")
    | Some (pending, delivered) =>
      if negb (bool_decide (state = RetryStateReady)) && Z.eqb (RetryCount env) 0
      then inr (EMsg "retry_state requires retry_count > 0")
      else if negb (Bool.eqb (RetryPending env) pending) || negb (Bool.eqb (RetryDelivered env) delivered)
      then inr (EMsg "retry_state disagrees with retry_pending and retry_delivered")
      else inl (setRetryState env state)
    end.

(** ** The text *)

Definition envelope_fields : list string :=
  ["schema"; "id"; "original_id"; "original_file"; "failure_reason"; "failure_detail";
   "failure_time"; "retry_count"; "retry_state"; "retry_pending"; "retry_delivered"; "source_dir"].

Definition envelope_json (env : DLQEnvelope) : json :=
  JObj ([("schema", to_json (Schema env)); ("id", to_json (ID env));
         ("original_id", to_json (OriginalID env)); ("original_file", to_json (OriginalFile env));
         ("failure_reason", to_json (FailureReason env));
         ("failure_detail", to_json (FailureDetail env));
         ("failure_time", to_json (FailureTime env)); ("retry_count", to_json (RetryCount env))] ++
        opt_member "retry_state" (to_json (RetryState env)) (bool_decide (RetryState env = "")) ++
        opt_member "retry_pending" (to_json (RetryPending env)) (negb (RetryPending env)) ++
        opt_member "retry_delivered" (to_json (RetryDelivered env)) (negb (RetryDelivered env)) ++
        [("source_dir", to_json (SourceDir env))]).

Definition zero_envelope : DLQEnvelope :=
  Envelope "" "" "" "" "" "" "" 0 "" false false "".

(** [json.Unmarshal] into a DLQEnvelope. *)
Definition envelope_of_json (j : json) : option DLQEnvelope :=
  match j with
  | JNull => Some zero_envelope
  | JObj l =>
    let get {A} `{JsonField A} := @get A _ envelope_fields l in
    a1 ← get "schema" ""; a2 ← get "id" ""; a3 ← get "original_id" "";
    a4 ← get "original_file" ""; a5 ← get "failure_reason" ""; a6 ← get "failure_detail" "";
    a7 ← get "failure_time" ""; a8 ← get "retry_count" 0%Z; a9 ← get "retry_state" "";
    a10 ← get "retry_pending" false; a11 ← get "retry_delivered" false;
    a12 ← get "source_dir" "";
    Some (Envelope a1 a2 a3 a4 a5 a6 a7 a8 a9 a10 a11 a12)
  | _ => None
  end.

Definition frame_start : string := "---" +:+ LF.
Definition frame_end : string := LF +:+ "---" +:+ LF.

Definition serializeDLQMessage (env : DLQEnvelope) (originalContent : string) : string + gerr :=
  match normalizeRetryState env with
  | inr e => inr (Errorf "normalize retry state" e)
  | inl env => inl (frame_start +:+ MarshalIndent (envelope_json env) +:+ frame_end +:+ originalContent)
  end.

Definition parseDLQMessage (data : string) : (DLQEnvelope * string) + gerr :=
  let data := crlf_to_lf data in
  if negb (HasPrefix data frame_start) then inr (EMsg "missing frontmatter start") else
  let rest := str_drop 4 data in
  match Index rest frame_end with
  | None => inr (EMsg "missing frontmatter end")
  | Some endIdx =>
    let headerJSON := str_take endIdx rest in
    let body := str_drop (endIdx + 5) rest in
    match j ← Unmarshal headerJSON; envelope_of_json j with
    | None => inr (EMsg "parse envelope")
    | Some env =>
      match normalizeRetryState env with
      | inr e => inr (Errorf "normalize retry state" e)
      | inl env => inl (env, body)
      end
    end
  end.

(** ** Properties of the retry state *)

(** The states an envelope with a known state may be in. *)
Definition known_state (s : string) : Prop :=
  s = RetryStateReady \/ s = RetryStatePending \/ s = RetryStateDelivered \/ s = RetryStateIndeterminate.

Record coherent (env : DLQEnvelope) : Prop := {
  co_count : (0 <= RetryCount env)%Z;
  co_state : known_state (RetryState env);
  co_pending : RetryPending env = bool_decide (RetryState env = RetryStatePending);
  co_delivered : RetryDelivered env = bool_decide (RetryState env = RetryStateDelivered);
}.

Lemma setRetryState_coherent env s :
  (0 <= RetryCount env)%Z -> known_state s -> coherent (setRetryState env s).
Proof. intros Hc Hs. by split. Qed.

Lemma expected_markers_known s p d : expected_markers s = Some (p, d) ->
  known_state s /\ p = bool_decide (s = RetryStatePending) /\ d = bool_decide (s = RetryStateDelivered).
Proof.
  unfold expected_markers, known_state. intros H.
  repeat case_bool_decide; simplify_eq; by auto 10.
Qed.

Lemma known_expected s : known_state s ->
  expected_markers s = Some (bool_decide (s = RetryStatePending), bool_decide (s = RetryStateDelivered)).
Proof. by intros [->|[->|[->| ->]]]. Qed.

Lemma normalize_coherent env env' : normalizeRetryState env = inl env' -> coherent env'.
Proof.
  unfold normalizeRetryState. destruct (Z.ltb_spec (RetryCount env) 0); [done|].
  destruct (bool_decide (RetryState env = "")).
  - unfold legacy_state. intros H'. repeat case_match; simplify_eq;
      (apply setRetryState_coherent; [done|unfold known_state; auto 10]).
  - destruct (expected_markers (RetryState env)) as [[p d]|] eqn:E; [|done].
    intros H'. repeat case_match; simplify_eq. apply setRetryState_coherent; [done|].
    by apply expected_markers_known in E as [? _].
Qed.

(** A coherent envelope that may be written: it is ready, or a retry has been counted. *)
Definition writable (env : DLQEnvelope) : Prop :=
  coherent env /\ (RetryState env = RetryStateReady \/ (0 < RetryCount env)%Z).

Lemma setRetryState_id env : coherent env -> setRetryState env (RetryState env) = env.
Proof. intros [_ _ Hp Hd]. unfold setRetryState. rewrite <-Hp, <-Hd. by destruct env. Qed.

Lemma known_not_empty s : known_state s -> s <> "".
Proof. by intros [->|[->|[->| ->]]]. Qed.

Lemma normalize_writable env : writable env -> normalizeRetryState env = inl env.
Proof.
  intros [Hco Hc]. pose proof (co_state _ Hco) as Hk. unfold normalizeRetryState.
  destruct (Z.ltb_spec (RetryCount env) 0); [destruct Hco; lia|].
  rewrite bool_decide_eq_false_2 by (by apply known_not_empty).
  rewrite (known_expected _ Hk).
  assert (negb (bool_decide (RetryState env = RetryStateReady)) && (RetryCount env =? 0)%Z = false) as ->.
  { destruct Hc as [->|Hc]; [by rewrite bool_decide_eq_true_2|].
    destruct (Z.eqb_spec (RetryCount env) 0); [lia|apply andb_false_r]. }
  rewrite (co_pending _ Hco), (co_delivered _ Hco), !Bool.eqb_reflx. cbn.
  by rewrite setRetryState_id.
Qed.

(** Normalizing a coherent envelope: nothing changes, or the state lacks its count. *)
Lemma normalize_again env : coherent env ->
  match normalizeRetryState env with
  | inl env' => env' = env /\ (RetryState env = RetryStateReady \/ (0 < RetryCount env)%Z)
  | inr _ => ~ (RetryState env = RetryStateReady \/ (0 < RetryCount env)%Z)
  end.
Proof.
  intros Hco. pose proof (co_count _ Hco) as Hc0.
  assert (RetryState env = RetryStateReady \/ (0 < RetryCount env)%Z \/
    (RetryState env <> RetryStateReady /\ RetryCount env = 0%Z)) as [Hr|[Hc|[Hr Hc]]]
    by (destruct (decide (RetryState env = RetryStateReady)); [auto|right]; destruct (decide (0 < RetryCount env)%Z); [auto|right; split; [done|lia]]).
  - rewrite normalize_writable by (split; auto). auto.
  - rewrite normalize_writable by (split; auto). auto.
  - unfold normalizeRetryState. rewrite Hc, (known_expected _ (co_state _ Hco)).
    rewrite (bool_decide_eq_false_2 (RetryState env = "")) by (apply known_not_empty, Hco).
    rewrite (bool_decide_eq_false_2 (RetryState env = RetryStateReady)) by done. cbn.
    intros [?|?]; [done|lia].
Qed.

(** ** The text round trip *)

(** The strings of the envelope are valid UTF-8 and the count is an int. *)
Definition envelope_text (env : DLQEnvelope) : bool :=
  forallb utf8_valid [Schema env; ID env; OriginalID env; OriginalFile env; FailureReason env;
    FailureDetail env; FailureTime env; RetryState env; SourceDir env] && int64_range (RetryCount env).

Lemma envelope_text_inv env : envelope_text env = true ->
  utf8_valid (Schema env) = true /\ utf8_valid (ID env) = true /\ utf8_valid (OriginalID env) = true /\
  utf8_valid (OriginalFile env) = true /\ utf8_valid (FailureReason env) = true /\
  utf8_valid (FailureDetail env) = true /\ utf8_valid (FailureTime env) = true /\
  utf8_valid (RetryState env) = true /\ utf8_valid (SourceDir env) = true /\
  int64_range (RetryCount env) = true.
Proof. unfold envelope_text. cbn. rewrite !andb_true_iff. tauto. Qed.

(** The members of a written envelope. *)
Definition envelope_members (env : DLQEnvelope) : list (string * json) :=
  match envelope_json env with JObj l => l | _ => [] end.

Lemma envelope_gets env : envelope_text env = true ->
  let get {A} `{JsonField A} := @get A _ envelope_fields (envelope_members env) in
  get "schema" "" = Some (Schema env) /\ get "id" "" = Some (ID env) /\
  get "original_id" "" = Some (OriginalID env) /\ get "original_file" "" = Some (OriginalFile env) /\
  get "failure_reason" "" = Some (FailureReason env) /\
  get "failure_detail" "" = Some (FailureDetail env) /\
  get "failure_time" "" = Some (FailureTime env) /\ get "retry_count" 0%Z = Some (RetryCount env) /\
  get "retry_state" "" = Some (RetryState env) /\ get "retry_pending" false = Some (RetryPending env) /\
  get "retry_delivered" false = Some (RetryDelivered env) /\ get "source_dir" "" = Some (SourceDir env).
Proof.
  intros (H1 & H2 & H3 & H4 & H5 & H6 & H7 & H8 & H9 & H10)%envelope_text_inv.
  unfold envelope_members, envelope_json. cbv zeta. cbn [app].
  split_and!; get_field; try done.
  - by intros E%bool_decide_eq_true.
  - by intros E%negb_true_iff.
  - by intros E%negb_true_iff.
Qed.

Lemma envelope_json_back env : envelope_text env = true -> envelope_of_json (envelope_json env) = Some env.
Proof.
  intros H. pose proof (envelope_gets env H) as Hg. cbv zeta in Hg.
  change (envelope_json env) with (JObj (envelope_members env)). unfold envelope_of_json. cbv zeta.
  destruct Hg as (-> & -> & -> & -> & -> & -> & -> & -> & -> & -> & -> & ->). by destruct env.
Qed.

Lemma envelope_json_wf env : envelope_text env = true -> wf_json (envelope_json env) = true.
Proof.
  intros (H1 & H2 & H3 & H4 & H5 & H6 & H7 & H8 & H9 & H10)%envelope_text_inv.
  change (wf_members (envelope_members env) = true).
  unfold envelope_members, envelope_json. cbn [app]. wf_fields. done.
Qed.

(** What was written is read back, up to line endings of the wrapped message. *)
Lemma parse_serialize env content data :
  writable env -> envelope_text env = true -> serializeDLQMessage env content = inl data ->
  parseDLQMessage data = inl (env, crlf_to_lf content).
Proof.
  intros Hw Ht. unfold serializeDLQMessage. rewrite normalize_writable by done. intros [= <-].
  pose proof (envelope_json_wf env Ht) as Hwf. pose proof (MarshalIndent_safe _ Hwf) as Hs.
  set (h := MarshalIndent (envelope_json env)) in *.
  assert (crlf_to_lf (frame_start +:+ h +:+ frame_end +:+ content) =
    frame_start +:+ h +:+ frame_end +:+ crlf_to_lf content) as E.
  { rewrite (crlf_to_lf_app frame_start) by done.
    rewrite (crlf_to_lf_app h) by (by apply header_safe_no_cr).
    by rewrite (crlf_to_lf_app frame_end). }
  unfold parseDLQMessage. rewrite E, HasPrefix_app. cbn [negb].
  rewrite (str_drop_app frame_start).
  pose proof (Index_frame h (crlf_to_lf content) Hs) as HI.
  change (LF +:+ "---" +:+ LF +:+ crlf_to_lf content) with (frame_end +:+ crlf_to_lf content) in HI.
  change (LF +:+ "---" +:+ LF) with frame_end in HI. rewrite HI.
  rewrite str_take_app. rewrite <-(str_drop_drop), str_drop_app, (str_drop_app frame_end).
  unfold h. rewrite Unmarshal_MarshalIndent by done. cbn [mbind option_bind].
  rewrite envelope_json_back by done. by rewrite normalize_writable.
Qed.

Lemma parse_coherent data env msg : parseDLQMessage data = inl (env, msg) -> coherent env.
Proof.
  unfold parseDLQMessage. destruct (negb _); [done|]. destruct (Index _ _); [|done].
  destruct (j ← _; _) as [env'|]; [|done]. destruct (normalizeRetryState env') as [env''|] eqn:E; [|done].
  intros [= <- _]. by eapply normalize_coherent.
Qed.
