(* ===== verification/Dlq.v ===== *)
(** The dead-letter queue: internal/fsq/dlq.go, the operations. *)
From S2P Require Import Prelude GoStr GoTime GoPath Json JsonStruct GoErr Fs Wp Names DeliveryRoot Maildir Claim DlqEnvelope.

(** ** Moving a message to the queue *)

Definition GenerateDLQID : prog (string * option gerr) :=
  let_ok b := sys (SRandom 6) orelse x => Ret ("", Some (EErrno x)) in
  now ← sys SNow;
  pid ← sys SGetpid;
  Ret ("dlq_" +:+ itoa now +:+ "_" +:+ itoa pid +:+ "_" +:+ EncodeToString b, None).

Definition dlq_dir (agent box : string) : path := Join ["agents"; agent; "dlq"; box].

(** deliverToDLQ writes a DLQ message using Maildir semantics (tmp -> new). *)
Definition deliverToDLQ (r : DeliveryRoot) (agent filename data : string)
  : prog (path * option gerr) :=
  if_err e := VerifyBase r then Ret ([], Some e) else
  let tmpDir := dlq_dir agent "tmp" in
  let newDir := dlq_dir agent "new" in
  if_err e := call (SMkdirAll (rp r tmpDir) 448) then Ret ([], Some e) else
  if_err e := call (SMkdirAll (rp r newDir) 448) then Ret ([], Some e) else
  let_val tmpPath := uniqueAttemptTmpPath tmpDir filename orelse e => Ret ([], Some e) in
  let newPath := Join_under newDir [filename] in
  if_err e := writeAndSync r tmpPath data then Ret ([], Some e) else
  if_err e := syncDir r tmpDir then e' ← cleanupTemp r tmpPath e; Ret ([], Some e') else
  if_err e := publishTmpNoReplace r tmpPath newPath data then Ret ([], Some e) else
  let committedPath := displayPath r newPath in
  if_err e := syncDir r newDir then
    Ret (committedPath, Some (ECommitted committedPath agent (Errorf "sync dlq new dir" e))) else
  _ ← syncDir r tmpDir;
  Ret (committedPath, None).

Definition inboxSourceDir (agent sourceDir : string) : path + gerr :=
  if bool_decide (sourceDir = "new") then inl (inbox_dir agent "new")
  else if bool_decide (sourceDir = "cur") then inl (inbox_dir agent "cur")
  else inr (EMsg "unsupported inbox source dir").

Definition syncInboxClaimDirs (r : DeliveryRoot) (agent : string) : prog (option gerr) :=
  s1 ← syncDir r (inbox_dir agent "new");
  let syncErr := match s1 with Some x => errors_Join [None; Some (Errorf "resync" x)] | None => None end in
  s2 ← syncDir r (inbox_dir agent "cur");
  Ret (match s2 with Some x => errors_Join [syncErr; Some (Errorf "resync" x)] | None => syncErr end).

(** Writing the envelope and removing the source, once the text is ready. *)
Definition dlq_transition (r : DeliveryRoot) (agent : string) (srcDir : path) (filename dlqID data : string)
  : prog (path * option gerr) :=
  let srcPath := Join_under srcDir [filename] in
  x ← deliverToDLQ r agent (dlqID +:+ ".md") data;
  match x with
  | (dlqPath, Some err) =>
    if is_committed err
    then Ret (dlqPath, Some (EDLQTransition dlqPath (displayPath r srcPath) true err))
    else Ret ([], Some (Errorf "deliver to dlq" err))
  | (dlqPath, None) =>
    let finish :=
      if_err e := syncDir r srcDir then
        Ret (dlqPath, Some (ECommitted dlqPath agent (Errorf "sync removed source dir" e)))
      else Ret (dlqPath, None) in
    y ← sys (SRemove (rp r srcPath));
    match y with
    | Er n => if negb (os_IsNotExist (EErrno n))
              then Ret (dlqPath, Some (EDLQTransition dlqPath (displayPath r srcPath) true
                                         (Errorf "remove original" (EErrno n))))
              else finish
    | Ok _ => finish
    end
  end.

Definition moveInboxMessageToDLQ (r : DeliveryRoot)
    (agent readDir envelopeSourceDir filename originalID failureReason failureDetail : string)
  : prog (path * option gerr) :=
  match ValidateMessageFilename filename with
  | Some e => Ret ([], Some e)
  | None =>
    match inboxSourceDir agent readDir with
    | inr e => Ret ([], Some e)
    | inl srcDir =>
      let srcPath := Join_under srcDir [filename] in
      let_val content := ReadRegularNoFollow r srcPath orelse e =>
        Ret ([], Some (Errorf "read original" e)) in
      let_val dlqID := GenerateDLQID orelse e => Ret ([], Some (Errorf "generate dlq id" e)) in
      now ← sys SNow;
      let envelope := Envelope DLQSchemaVersion dlqID originalID filename failureReason failureDetail
                        (Format_RFC3339 now) 0 "" false false envelopeSourceDir in
      match serializeDLQMessage envelope content with
      | inr e => Ret ([], Some (Errorf "serialize dlq" e))
      | inl data => dlq_transition r agent srcDir filename dlqID data
      end
    end
  end.

Definition moveClaimedCurToDLQ (r : DeliveryRoot)
    (agent envelopeSourceDir filename originalID failureReason failureDetail : string)
    (claimErr : option gerr) : prog (path * option gerr) :=
  x ← moveInboxMessageToDLQ r agent "cur" envelopeSourceDir filename originalID failureReason failureDetail;
  let '(dlqPath, transitionErr) := x in
  match claimErr with
  | None => Ret (dlqPath, transitionErr)
  | Some claim =>
    let claimed := Errorf "claim original" claim in
    let resync :=
      syncErr ← syncInboxClaimDirs r agent;
      match syncErr with
      | None => Ret (dlqPath, None)
      | Some _ => Ret (dlqPath, Some (ECommitted dlqPath agent
                    (default claimed (errors_Join [Some claimed; transitionErr; syncErr]))))
      end in
    match transitionErr with
    | Some t =>
      if bool_decide (errors_As_transition t <> None) || bool_decide (dlqPath = []) || negb (is_committed t)
      then Ret (dlqPath, errors_Join [Some claimed; Some t])
      else resync
    | None => resync
    end
  end.

Definition MoveToDLQ (r : DeliveryRoot)
    (agent filename originalID failureReason failureDetail : string) : prog (path * option gerr) :=
  claimErr ← MoveNewToCur r agent filename;
  match claimErr with
  | Some x => if negb (is_committed x) then Ret ([], Some (Errorf "claim original" x))
              else moveClaimedCurToDLQ r agent "new" filename originalID failureReason failureDetail claimErr
  | None => moveClaimedCurToDLQ r agent "new" filename originalID failureReason failureDetail claimErr
  end.

Definition MoveCurToDLQ (r : DeliveryRoot)
    (agent filename originalID failureReason failureDetail : string) : prog (path * option gerr) :=
  moveInboxMessageToDLQ r agent "cur" "cur" filename originalID failureReason failureDetail.

Definition MoveClaimedCurToDLQ (r : DeliveryRoot)
    (agent filename originalID failureReason failureDetail : string) (claimErr : option gerr)
  : prog (path * option gerr) :=
  match claimErr with
  | None => MoveCurToDLQ r agent filename originalID failureReason failureDetail
  | Some x =>
    match errors_As_committed x with
    | None => Ret ([], Some (Errorf "claim original" x))
    | Some (finalPath, recipient, _) =>
      match ValidateHandle agent with
      | Some e => Ret ([], Some (Errorf "claim recipient" e))
      | None =>
        match ValidateMessageFilename filename with
        | Some e => Ret ([], Some (Errorf "claim filename" e))
        | None =>
          if_err e := VerifyBase r then Ret ([], Some e) else
          let wantFinalPath := displayPath r (Join ["agents"; agent; "inbox"; "cur"; filename]) in
          if negb (bool_decide (recipient = agent)) ||
             negb (bool_decide (Clean finalPath = Clean wantFinalPath))
          then Ret ([], Some (Errorf "claim original provenance mismatch" x))
          else moveClaimedCurToDLQ r agent "cur" filename originalID failureReason failureDetail claimErr
        end
      end
    end
  end.

(** ** Reading and finding envelopes *)

Definition ReadDLQEnvelope (r : DeliveryRoot) (p : path)
  : prog (option (DLQEnvelope * string) * option gerr) :=
  let_val data := ReadRegularNoFollow r p orelse e => Ret (None, Some e) in
  match parseDLQMessage data with
  | inr e => Ret (None, Some e)
  | inl x => Ret (Some x, None)
  end.

Definition FindDLQMessage (r : DeliveryRoot) (agent filename : string)
  : prog (path * string * option gerr) :=
  match ValidateMessageFilename filename with
  | Some e => Ret ([], "", Some e)
  | None =>
    let curPath := Join ["agents"; agent; "dlq"; "cur"; filename] in
    x ← Stat r curPath;
    match x.2 with
    | None => Ret (curPath, "cur", None)
    | Some err =>
      if negb (os_IsNotExist err) then Ret ([], "", Some err) else
      let newPath := Join ["agents"; agent; "dlq"; "new"; filename] in
      y ← Stat r newPath;
      match y.2 with
      | None => Ret (newPath, "new", None)
      | Some err => if negb (os_IsNotExist err) then Ret ([], "", Some err)
                    else Ret ([], "", Some os_ErrNotExist)
      end
    end
  end.

(** ** Marking as inspected *)

(** Both directories of a box change are synced, whichever fails. *)
Definition sync_both (r : DeliveryRoot) (d1 d2 : path) (curPath : path) (agent : string)
  : prog (option gerr) :=
  s1 ← syncDir r d1;
  let durabilityErr := match s1 with Some x => errors_Join [None; Some (Errorf "sync cur dir" x)]
                       | None => None end in
  s2 ← syncDir r d2;
  let durabilityErr := match s2 with Some x => errors_Join [durabilityErr; Some (Errorf "sync new dir" x)]
                       | None => durabilityErr end in
  Ret (match durabilityErr with
       | Some x => Some (ECommitted (displayPath r curPath) agent x)
       | None => None
       end).

Definition reconcileDLQCurAuthorityLocked (r : DeliveryRoot) (agent filename : string)
  : prog (bool * option gerr) :=
  let newPath := Join ["agents"; agent; "dlq"; "new"; filename] in
  x ← sys (SLstat (rp r newPath));
  match x with
  | Er n => if os_IsNotExist (EErrno n) then Ret (false, None) else Ret (false, Some (EErrno n))
  | Ok _ =>
    let curDir := dlq_dir agent "cur" in
    let curPath := Join_under curDir [filename] in
    y ← sys (SLstat (rp r curPath));
    match y with
    | Er n => if os_IsNotExist (EErrno n) then Ret (false, None) else Ret (false, Some (EErrno n))
    | Ok curInfo =>
      if negb (bool_decide (i_kind curInfo = KFile))
      then Ret (false, Some (EMsg "existing dlq/cur envelope is not a regular file"))
      else
        let finish := e ← sync_both r curDir (Dir newPath) curPath agent; Ret (true, e) in
        z ← sys (SRemove (rp r newPath));
        match z with
        | Er n => if negb (os_IsNotExist (EErrno n))
                  then Ret (false, Some (Errorf "remove stale dlq/new envelope" (EErrno n)))
                  else finish
        | Ok _ => finish
        end
    end
  end.

Definition moveDLQNewToCurLocked (r : DeliveryRoot) (agent filename : string) : prog (option gerr) :=
  match ValidateMessageFilename filename with
  | Some e => Ret (Some e)
  | None =>
    if_err e := VerifyBase r then Ret (Some e) else
    let newPath := Join ["agents"; agent; "dlq"; "new"; filename] in
    let curDir := dlq_dir agent "cur" in
    let curPath := Join_under curDir [filename] in
    if_err e := call (SMkdirAll (rp r curDir) 448) then Ret (Some e) else
    x ← reconcileDLQCurAuthorityLocked r agent filename;
    match x with
    | (_, Some err) => Ret (Some err)
    | (true, None) => Ret None
    | (false, None) =>
      if_err e := renameNoReplace r newPath curPath then Ret (Some e) else
      sync_both r curDir (Dir newPath) curPath agent
    end
  end.

Definition MoveDLQNewToCur (r : DeliveryRoot) (agent filename : string) : prog (option gerr) :=
  x ← WithDLQEnvelopeLock r agent filename tt (fun batch =>
        e ← moveDLQNewToCurLocked batch agent filename; Ret (tt, e));
  Ret x.2.

Definition InspectDLQEnvelope (r : DeliveryRoot) (agent filename : string)
  : prog (option (DLQEnvelope * string) * string * option gerr) :=
  x ← WithDLQEnvelopeLock r agent filename (None, "") (fun batch =>
    f ← FindDLQMessage batch agent filename;
    match f with
    | (_, _, Some findErr) => Ret ((None, ""), Some findErr)
    | (p, foundBox, None) =>
      e ← ReadDLQEnvelope batch p;
      match e with
      | (_, Some findErr) => Ret ((None, ""), Some (Errorf "read DLQ message" findErr))
      | (env, None) =>
        if bool_decide (foundBox = "cur") then
          y ← reconcileDLQCurAuthorityLocked batch agent filename; Ret ((env, foundBox), y.2)
        else
          moveErr ← moveDLQNewToCurLocked batch agent filename;
          let box := match moveErr with
                     | None => "cur"
                     | Some x => if is_committed x then "cur" else foundBox
                     end in
          Ret ((env, box), moveErr)
      end
    end);
  Ret (x.1.1, x.1.2, x.2).

(** ** Retrying *)

Definition updateRetriedDLQEnvelope (r : DeliveryRoot) (agent dlqFilename : string) (dlqPath : path)
    (box updatedData : string) : prog (option gerr) :=
  let curDir := dlq_dir agent "cur" in
  if_err e := call (SMkdirAll (rp r curDir) 448) then
    Ret (Some (Errorf "prepare dlq envelope cur dir" e)) else
  if bool_decide (box = "new") then
    x ← WriteFileAtomic r curDir dlqFilename updatedData;
    match x.2 with
    | Some e => Ret (Some (Errorf "write updated dlq envelope to cur" e))
    | None =>
      let finish :=
        if_err e := syncDir r (Dir dlqPath) then
          Ret (Some (Errorf "sync old dlq envelope dir" e)) else syncDir r curDir in
      y ← sys (SRemove (rp r dlqPath));
      match y with
      | Er n => if negb (os_IsNotExist (EErrno n))
                then Ret (Some (Errorf "remove old dlq envelope from new" (EErrno n)))
                else finish
      | Ok _ => finish
      end
    end
  else
    x ← WriteFileAtomic r curDir dlqFilename updatedData;
    match x.2 with
    | Some e => Ret (Some (Errorf "update dlq envelope in cur" e))
    | None => syncDir r curDir
    end.

(** The box of the inbox that still has the original, if any: new is looked at first. *)
Fixpoint find_original (r : DeliveryRoot) (agent file : string) (boxes : list string)
  : prog (string * option gerr) :=
  match boxes with
  | [] => Ret ("", None)
  | box :: rest =>
    x ← Stat r (Join ["agents"; agent; "inbox"; box; file]);
    match x.2 with
    | None => Ret (box, None)
    | Some err => if negb (os_IsNotExist err) then Ret ("", Some (Errorf "stat inbox original" err))
                  else find_original r agent file rest
    end
  end.

(** The first retained temporary with the wanted content. *)
Fixpoint find_tmp (r : DeliveryRoot) (tmpDir : path) (filename want : string)
    (entries : list (string * kind)) : prog (path * option gerr) :=
  match entries with
  | [] => Ret ([], None)
  | (name, k) :: rest =>
    if bool_decide (k = KDir) || negb (attemptTmpMatches filename name)
    then find_tmp r tmpDir filename want rest
    else
      let tmpPath := Join_under tmpDir [name] in
      let_val got := ReadRegularNoFollow r tmpPath orelse e =>
        Ret ([], Some (Errorf "read retained inbox tmp" e)) in
      if bool_decide (got = want) then Ret (tmpPath, None)
      else find_tmp r tmpDir filename want rest
  end.

Definition recoverPendingInboxTmp (r : DeliveryRoot) (agent filename want : string)
  : prog (bool * option gerr) :=
  let tmpDir := inbox_dir agent "tmp" in
  x ← ReadDir r tmpDir;
  match x with
  | (_, Some e) => if os_IsNotExist e then Ret (false, None)
                   else Ret (false, Some (Errorf "list retained inbox tmp" e))
  | (entries, None) =>
    let_val tmp := find_tmp r tmpDir filename want entries orelse e => Ret (false, Some e) in
    if bool_decide (tmp = []) then Ret (false, None) else
    let newDir := inbox_dir agent "new" in
    let newPath := Join_under newDir [filename] in
    if_err e := publishTmpNoReplace r tmp newPath want then
      Ret (false, Some (Errorf "complete retained inbox tmp" e)) else
    _ ← syncDir r newDir;
    _ ← syncDir r tmpDir;
    Ret (true, None)
  end.

Definition incr_retry (env : DLQEnvelope) : DLQEnvelope :=
  Envelope (Schema env) (ID env) (OriginalID env) (OriginalFile env) (FailureReason env)
    (FailureDetail env) (FailureTime env) (int64_wrap (RetryCount env + 1)) (RetryState env)
    (RetryPending env) (RetryDelivered env) (SourceDir env).

(** Recovery of a retry whose outcome is not recorded. *)
Definition finish_pending (r : DeliveryRoot) (agent dlqFilename : string) (dlqPath : path) (box : string)
    (env : DLQEnvelope) (original presentBox : string) : prog (option gerr) :=
  let finalize :=
    match serializeDLQMessage (setRetryState env RetryStateDelivered) original with
    | inr e => Ret (Some (Errorf "serialize recovered dlq envelope" e))
    | inl updatedData =>
      if_err e := updateRetriedDLQEnvelope r agent dlqFilename dlqPath box updatedData then
        Ret (Some (Errorf "retry delivery exists but finalize recovered dlq envelope" e)) else
      Ret (Some (Errorf "retry already delivered" (ESent ErrDLQRetryDelivered)))
    end in
  if bool_decide (presentBox = "") then
    x ← recoverPendingInboxTmp r agent (OriginalFile env) original;
    match x with
    | (_, Some e) => Ret (Some e)
    | (false, None) => Ret (Some (Errorf "no visible inbox destination" (ESent ErrDLQRetryIndeterminate)))
    | (true, None) => finalize
    end
  else finalize.

(** Redelivery, once the envelope says that a retry is pending. *)
Definition redeliver (r : DeliveryRoot) (agent dlqFilename : string) (env : DLQEnvelope) (original : string)
  : prog (option gerr) :=
  let dlqPath := Join ["agents"; agent; "dlq"; "cur"; dlqFilename] in
  d ← DeliverToInbox r agent (OriginalFile env) original;
  let '(inboxPath, deliveryErr) := d in
  let complete (inboxPath : path) :=
    match serializeDLQMessage (setRetryState env RetryStateDelivered) original with
    | inr e => Ret (Some (Errorf "serialize completed dlq envelope" e))
    | inl updatedData =>
      u ← updateRetriedDLQEnvelope r agent dlqFilename dlqPath "cur" updatedData;
      match u, deliveryErr with
      | Some e, Some d => Ret (errors_Join [Some (Errorf "redeliver to inbox" d);
                                            Some (Errorf "finalize retried dlq envelope" e)])
      | Some e, None => Ret (Some (ECommitted inboxPath agent (Errorf "finalize retried dlq envelope" e)))
      | None, Some d => Ret (Some (Errorf "redeliver to inbox" d))
      | None, None => Ret None
      end
    end in
  match deliveryErr with
  | None => complete inboxPath
  | Some d =>
    match errors_As_committed d with
    | Some (finalPath, _, _) => complete finalPath
    | None =>
      match serializeDLQMessage (setRetryState env RetryStateReady) original with
      | inr e => Ret (errors_Join [Some (Errorf "redeliver to inbox" d);
                                   Some (Errorf "serialize reset dlq envelope" e)])
      | inl updatedData =>
        if_err e := updateRetriedDLQEnvelope r agent dlqFilename dlqPath "cur" updatedData then
          Ret (errors_Join [Some (Errorf "redeliver to inbox" d);
                            Some (Errorf "reset retried dlq envelope" e)]) else
        Ret (Some (Errorf "redeliver to inbox" d))
      end
    end
  end.

Definition retryFromDLQLocked (r : DeliveryRoot) (agent dlqFilename : string) (force : bool)
  : prog (option gerr) :=
  f ← FindDLQMessage r agent dlqFilename;
  match f with
  | (_, _, Some e) => Ret (Some e)
  | (dlqPath, box, None) =>
    x ← ReadDLQEnvelope r dlqPath;
    match x with
    | (Some (env, original), None) =>
      rc ← (if bool_decide (box = "cur")
            then y ← reconcileDLQCurAuthorityLocked r agent dlqFilename; Ret y.2
            else Ret None);
      match rc with
      | Some e => Ret (Some e)
      | None =>
        match ValidateMessageFilename (OriginalFile env) with
        | Some e => Ret (Some (Errorf "invalid original_file" e))
        | None =>
          if bool_decide (RetryState env = RetryStateDelivered)
          then Ret (Some (Errorf "retry already delivered" (ESent ErrDLQRetryDelivered))) else
          let_val presentBox := find_original r agent (OriginalFile env) ["new"; "cur"] orelse e =>
            Ret (Some e) in
          if bool_decide (RetryState env = RetryStatePending) ||
             bool_decide (RetryState env = RetryStateIndeterminate)
          then finish_pending r agent dlqFilename dlqPath box env original presentBox else
          if negb (bool_decide (presentBox = ""))
          then Ret (Some (EMsg "original file already exists (refusing retry)")) else
          if Z.leb MaxRetries (RetryCount env) && negb force
          then Ret (Some (EMsg "max retries exceeded; use --force to override")) else
          let env := setRetryState (incr_retry env) RetryStatePending in
          match serializeDLQMessage env original with
          | inr e => Ret (Some (Errorf "serialize updated dlq envelope" e))
          | inl updatedData =>
            if_err e := updateRetriedDLQEnvelope r agent dlqFilename dlqPath box updatedData then
              Ret (Some e) else
            redeliver r agent dlqFilename env original
          end
        end
      end
    | (_, Some e) => Ret (Some (Errorf "read dlq envelope" e))
    | (None, None) => Ret None
    end
  end.

Definition RetryFromDLQ (r : DeliveryRoot) (agent dlqFilename : string) (force : bool)
  : prog (option gerr) :=
  x ← WithDLQEnvelopeLock r agent dlqFilename tt (fun batch =>
        e ← retryFromDLQLocked batch agent dlqFilename force; Ret (tt, e));
  Ret x.2.
