(* ===== verification/DeadLetter.v ===== *)
(** What moving a message to the dead-letter queue does to the tree. *)
From S2P Require Import Prelude GoStr GoTime GoPath Json JsonFacts JsonStruct GoErr Fs Wp FsFacts Names DeliveryRoot DeliveryRootFacts Sample Maildir Delivery Claim DlqEnvelope Dlq.

(** ** Names *)

Definition dlq_path (agent box f : string) : path := ["agents"; agent; "dlq"; box; f].

Lemma dlq_dir_plain a box :
  plain a = true -> plain box = true -> dlq_dir a box = ["agents"; a; "dlq"; box].
Proof. intros Ha Hb. unfold dlq_dir. apply Join_plain. by repeat constructor. Qed.

Lemma dlq_file_plain a box f :
  plain a = true -> plain box = true -> plain f = true ->
  Join_under (dlq_dir a box) [f] = dlq_path a box f.
Proof.
  intros Ha Hb Hf. rewrite dlq_dir_plain by done.
  rewrite Join_under_plain; [done| |]; by repeat constructor.
Qed.

Lemma dlq_path_depth a box f : (layout_depth < length (dlq_path a box f))%nat.
Proof. unfold layout_depth. cbn. lia. Qed.

Lemma dlq_path_visible a box f : HasPrefix f "." = false -> ~ hidden (dlq_path a box f).
Proof. unfold hidden, dlq_path, Base. cbn [last default from_option id]. by intros ->. Qed.

Definition dlq_id (now pid : Z) (b : string) : string :=
  "dlq_" +:+ itoa now +:+ "_" +:+ itoa pid +:+ "_" +:+ EncodeToString b.

(** The names of envelopes pass the validation of message names. *)
Definition id_char (c : ascii) : bool :=
  numeral_char c || is_lower c || bool_decide (c = chr 95) || bool_decide (c = chr 46).

Lemma dlq_id_chars now pid b : str_forallb id_char (dlq_id now pid b) = true.
Proof.
  assert (forall s, str_forallb numeral_char s = true -> str_forallb id_char s = true) as H.
  { intros s. apply str_forallb_impl. intros c Hc. unfold id_char. by rewrite Hc. }
  unfold dlq_id. rewrite !str_forallb_app, (H (itoa now)), (H (itoa pid)), (H (EncodeToString b))
    by (apply itoa_numeral || apply EncodeToString_numeral).
  done.
Qed.

Lemma dlq_name_valid now pid b : ValidateMessageFilename (dlq_id now pid b +:+ ".md") = None.
Proof.
  apply md_name_valid.
  - eapply str_forallb_impl; [|apply dlq_id_chars]. intros c. by destruct c as [[] [] [] [] [] [] [] []].
  - unfold dlq_id. by rewrite !string_app_assoc.
Qed.

Lemma wpi_GenerateDLQID e I w :
  I (tr w) -> wpi e I GenerateDLQID (fun x w' => tr w' = tr w /\ ctl_eq w w' /\
    match x with
    | (id, None) => exists now pid b, id = dlq_id now pid b
    | (_, Some y) => visible_err y = false
    end) w.
Proof.
  intros HI. unfold GenerateDLQID.
  apply wpi_ro_bind; [ro_tac|done|]. intros [b|x] w1 Ht1 Hc1; [|by wret].
  apply wpi_ro_bind; [ro_tac|by rewrite Ht1|]. intros now w2 Ht2 Hc2.
  apply wpi_ro_bind; [ro_tac|by rewrite Ht2, Ht1|]. intros pid w3 Ht3 Hc3.
  wret. split; [congruence|]. split; [by do 2 (eapply ctl_eq_trans; [done|])|].
  by exists now, pid, b.
Qed.

(** ** Delivering an envelope *)

Lemma id_char_ascii c : id_char c = true -> is_ascii c = true.
Proof. by destruct c as [[] [] [] [] [] [] [] []]. Qed.

(** Syncing a directory fails with the error of the call. *)
Lemma quiet_syncDir_errno r p :
  returns (fun o => match o with Some x => exists n, x = EErrno n | None => True end) (syncDir r p).
Proof.
  unfold syncDir. eapply returns_bind; [apply returns_any|]. intros [h|x] _; [|by exists x].
  eapply returns_bind; [apply returns_any|]. intros s _.
  eapply returns_bind; [apply returns_any|]. intros c _.
  destruct s as [u|x].
  - destruct c as [u'|x]; [done|]. by exists x.
  - destruct (isSyncUnsupported x); [done|]. by exists x.
Qed.

Lemma ro_syncInboxClaimDirs r a : ro (syncInboxClaimDirs r a).
Proof. unfold syncInboxClaimDirs. ro_tac. Qed.

Lemma syncInboxClaimDirs_errs r a :
  returns (fun o => match o with Some x => errors_As_transition x = None | None => True end)
    (syncInboxClaimDirs r a).
Proof.
  unfold syncInboxClaimDirs. eapply returns_bind; [apply quiet_syncDir_errno|]. intros o1 H1.
  eapply returns_bind; [apply quiet_syncDir_errno|]. intros o2 H2.
  unfold returns. destruct o1 as [x1|], o2 as [x2|]; cbn;
    repeat match goal with H : exists _, _ |- _ => destruct H as [? ->] end; done.
Qed.

Section dlq.
Context (e : env) (r : DeliveryRoot) (Hat : dr_at r = []).

(** What holds at every point: nothing but dot files and the envelope's own place changes,
    and that place is as it was or holds the whole envelope. *)
Definition dlq_inv (a g data : string) (t0 t : tree) : Prop :=
  evo (fun p => hidden p \/ p = dlq_path a "new" g) t0 t /\
  published_or_same (dlq_path a "new" g) data t0 t.

Lemma dlq_inv_hidden a g data t0 t : HasPrefix g "." = false -> evo hidden t0 t -> dlq_inv a g data t0 t.
Proof.
  intros Hg Hev. split; [eapply evo_mono; [|exact Hev]; by left|]. left.
  apply (evo_deep _ _ _ _ Hev); [by apply dlq_path_visible|apply dlq_path_depth].
Qed.

Lemma evo_none_hidden t t' : evo (fun _ => False) t t' -> evo hidden t t'.
Proof. by apply evo_mono. Qed.

Lemma dlq_inv_publish a g data tmp t0 t t' :
  HasPrefix g "." = false -> hidden tmp -> evo hidden t0 t ->
  publish_inv tmp (dlq_path a "new" g) data t t' -> dlq_inv a g data t0 t'.
Proof.
  intros Hg Htmp Hev (Hev' & Hpub & _). pose proof (dlq_inv_hidden a g data t0 t Hg Hev) as [Hev0 Hp0].
  split.
  - etrans; [exact Hev0|]. eapply evo_mono; [|exact Hev']. intros p [->| ->]; [by left|by right].
  - eapply published_trans; [by eapply evo_data|exact Hp0|done].
Qed.

Definition dlq_delivered (a g data : string) (t0 : tree) (x : path * option gerr) (t : tree) : Prop :=
  dlq_inv a g data t0 t /\
  match x with
  | (p, None) => p = displayPath r (dlq_path a "new" g) /\ content t (dlq_path a "new" g) = Some data
  | (p, Some err) =>
    if is_committed err
    then p = displayPath r (dlq_path a "new" g) /\ content t (dlq_path a "new" g) = Some data
    else p = []
  end.

Lemma dlq_not_delivered a g data t0 err t :
  visible_err err = false \/ is_committed err = false ->
  dlq_inv a g data t0 t -> dlq_delivered a g data t0 ([], Some err) t.
Proof.
  intros Hq Hinv. split; [done|]. assert (is_committed err = false) as ->; [|done].
  destruct Hq; [by apply quiet_not_committed|done].
Qed.

Lemma wpi_dlq_tmpPath I a g w :
  plain a = true -> ValidateMessageFilename g = None -> I (tr w) ->
  wpi e I (uniqueAttemptTmpPath (dlq_dir a "tmp") g) (fun x w' =>
    tr w' = tr w /\ ctl_eq w w' /\
    match x with
    | (p, None) => exists name, p = dlq_path a "tmp" name /\ HasPrefix name "." = true
    | (_, Some y) => visible_err y = false
    end) w.
Proof.
  intros Ha Hg HI. eapply wpi_mono; [by apply wpi_uniqueTmp|].
  intros [p [y|]] w' (Ht & Hc & Hx); [done|]. destruct Hx as (name & -> & Hn & Hp).
  split; [done|]. split; [done|]. exists name. split; [|done]. by apply dlq_file_plain.
Qed.

(** Writing the temporary and publishing it, once the directories are there. *)
Lemma wpi_dlq_write I a g data name w0 w :
  plain a = true -> ValidateMessageFilename g = None -> HasPrefix name "." = true ->
  (forall t, dlq_inv a g data (tr w0) t -> I t) -> evo hidden (tr w0) (tr w) -> ctl_eq w0 w ->
  let tmp := dlq_path a "tmp" name in let new := dlq_path a "new" g in
  wpi e I (if_err x := writeAndSync r tmp data then Ret ([], Some x) else
    if_err x := syncDir r (dlq_dir a "tmp") then x' ← cleanupTemp r tmp x; Ret ([], Some x') else
    if_err x := publishTmpNoReplace r tmp new data then Ret ([], Some x) else
    if_err x := syncDir r (dlq_dir a "new") then
      Ret (displayPath r new, Some (ECommitted (displayPath r new) a (Errorf "sync dlq new dir" x))) else
    _ ← syncDir r (dlq_dir a "tmp"); Ret (displayPath r new, None))
  (fun x w' => ctl_eq w0 w' /\ dlq_delivered a g data (tr w0) x (tr w')) w.
Proof.
  intros Ha Hg Hname HI Hev Hc tmp new. pose proof (filename_not_hidden g Hg) as Hhid.
  assert (hidden tmp) as Htmp by done.
  assert (tmp <> new) as Hne by (unfold tmp, new, dlq_path; congruence).
  assert (forall t, evo (eq tmp) (tr w) t -> evo hidden (tr w0) t) as Hup.
  { intros t Ht. etrans; [exact Hev|]. eapply evo_mono; [|exact Ht]. by intros p <-. }
  assert (forall t, evo hidden (tr w0) t -> I t) as HIh by (intros; by apply HI, dlq_inv_hidden).
  assert (forall w' err, ctl_eq w0 w' -> evo hidden (tr w0) (tr w') ->
    visible_err err = false \/ is_committed err = false ->
    ctl_eq w0 w' /\ dlq_delivered a g data (tr w0) ([], Some err) (tr w')) as Hbad.
  { intros w' err Hc' Hev' Herr. split; [done|]. apply dlq_not_delivered; [done|]. by apply dlq_inv_hidden. }
  wbind. eapply wpi_mono; [apply wpi_returns; [apply quiet_writeAndSync|];
    apply wpi_writeAndSync; [done|]; by auto|].
  intros o w4 (Hq4 & Hev4 & Hc4 & Hw & _). pose proof (ctl_eq_trans _ _ _ Hc Hc4) as Hcw4.
  destruct o as [x|]; [wret; by apply Hbad; auto|].
  destruct (Hw eq_refl) as (_ & Hn & Hpar & Hcont). clear Hw.
  pose proof (evo_parent _ _ _ _ Hev4 Hpar) as Hpar4.
  wbind. eapply wpi_mono; [apply wpi_returns; [apply quiet_syncDir|]; apply wpi_ro; auto with amq|].
  intros o w5 (Hq5 & Ht5 & Hc5). pose proof (ctl_eq_trans _ _ _ Hcw4 Hc5) as Hcw5. rewrite <-Ht5 in *.
  destruct o as [x|].
  { assert (forall i m, dents (tr w5) !! tmp <> Some (NDir i m)) as Hnd
      by (apply content_file in Hcont as (j & -> & _); done).
    assert (evo hidden (tr w0) (set_dents (delete tmp) (tr w5))) as Hdel.
    { apply Hup. etrans; [done|]. by apply evo_delete. }
    wbind. eapply wpi_mono; [apply wpi_returns; [by apply quiet_cleanupTemp|]; apply wpi_cleanupTemp; auto|].
    intros x' w6 (Hq6 & Hc6 & Ht6 & _). wret. apply Hbad; [by eapply ctl_eq_trans| |by left].
    destruct Ht6 as [->| ->]; auto. }
  pose proof (Hup _ Hev4) as Hev5.
  wbind. eapply wpi_mono; [apply (wpi_publish e r Hat); [done|done|done|done|];
    intros t Ht; by eapply HI, dlq_inv_publish|].
  intros o w6 (Hc6 & Hpi & Hx). pose proof (ctl_eq_trans _ _ _ Hcw5 Hc6) as Hcw6.
  pose proof (dlq_inv_publish a g data tmp _ _ _ Hhid Htmp Hev5 Hpi) as Hinv6.
  destruct o as [x|].
  { wret. split; [done|]. apply dlq_not_delivered; [|done]. right. by destruct Hx. }
  destruct Hx as [Hnew _].
  apply wpi_ro_bind; [auto with amq|by apply HI|]. intros o w7 Ht7 Hc7.
  pose proof (ctl_eq_trans _ _ _ Hcw6 Hc7) as Hcw7. rewrite <-Ht7 in *. destruct o as [x|].
  { wret. split; [done|]. by split. }
  apply wpi_ro_bind; [auto with amq|by apply HI|]. intros o w8 Ht8 Hc8.
  wret. split; [by eapply ctl_eq_trans|]. rewrite Ht8. by split.
Qed.

Lemma wpi_deliverToDLQ I a g data w :
  plain a = true -> ValidateMessageFilename g = None ->
  (forall t, dlq_inv a g data (tr w) t -> I t) ->
  wpi e I (deliverToDLQ r a g data) (fun x w' =>
    ctl_eq w w' /\ dlq_delivered a g data (tr w) x (tr w')) w.
Proof.
  intros Ha Hg HI. pose proof (filename_not_hidden g Hg) as Hhid.
  assert (forall t, evo hidden (tr w) t -> I t) as HIh by (intros; by apply HI, dlq_inv_hidden).
  assert (forall w' err, ctl_eq w w' -> evo hidden (tr w) (tr w') ->
    visible_err err = false \/ is_committed err = false ->
    ctl_eq w w' /\ dlq_delivered a g data (tr w) ([], Some err) (tr w')) as Hbad.
  { intros w' err Hc Hev Herr. split; [done|]. apply dlq_not_delivered; [done|]. by apply dlq_inv_hidden. }
  unfold deliverToDLQ. rewrite !rp_root by done. wbind.
  eapply wpi_mono; [apply wpi_returns; [apply quiet_VerifyBase|]; apply wpi_ro; [auto with amq|by apply HIh]|].
  intros o w1 (Hq & Ht1 & Hc1). destruct o as [x|]; [wret; apply Hbad; rewrite ?Ht1; by auto|].
  assert (forall box, plain box = true -> (length (dlq_dir a box) <= layout_depth)%nat) as Hdep.
  { intros box Hb. by rewrite dlq_dir_plain. }
  wbind. eapply wpi_mono; [apply wpi_returns; [apply returns_call_quiet|];
    apply wpi_mkdirall; [by apply Hdep|]; rewrite Ht1; intros; by apply HIh, evo_none_hidden|].
  rewrite Ht1. intros o w2 (Hq2 & Hev2%evo_none_hidden & _ & Hc2 & _).
  assert (ctl_eq w w2) as Hcw2 by (by eapply ctl_eq_trans).
  destruct o as [x|]; [wret; by apply Hbad; auto|].
  wbind. eapply wpi_mono; [apply wpi_returns; [apply returns_call_quiet|];
    apply wpi_mkdirall; [by apply Hdep|]; intros t Ht; apply HIh; etrans; [exact Hev2|by apply evo_none_hidden]|].
  intros o w3 (Hq3 & Hev3'%evo_none_hidden & _ & Hc3 & _).
  pose proof (evo_trans _ _ _ _ Hev2 Hev3') as Hev3.
  assert (ctl_eq w w3) as Hcw3 by (by eapply ctl_eq_trans).
  destruct o as [x|]; [wret; by apply Hbad; auto|].
  wbind. eapply wpi_mono; [apply wpi_dlq_tmpPath; auto|].
  intros [tmp [x|]] w4 (Ht4 & Hc4 & Hx); assert (ctl_eq w w4) as Hcw4 by (by eapply ctl_eq_trans).
  { wret. apply Hbad; [done|by rewrite Ht4|by left]. }
  destruct Hx as (name & -> & Hname). rewrite dlq_file_plain by (done || by apply filename_plain).
  apply wpi_dlq_write; try done. by rewrite Ht4.
Qed.

(** ** Moving a message *)

(** [data] is an envelope around the message [d] that was in the file [f]: the bytes of the
    message end it, and reading it back gives the message up to line endings. *)
Definition wraps (f d data : string) : Prop :=
  (exists hdr, data = hdr +:+ d) /\
  exists env, parseDLQMessage data = inl (env, crlf_to_lf d) /\ OriginalFile env = f.

Definition enveloped_at (a f d g : string) (t : tree) : Prop :=
  HasPrefix g "." = false /\ exists data, content t (dlq_path a "new" g) = Some data /\ wraps f d data.

(** The message is in the inbox or in an envelope of the dead-letter queue, whole. *)
Definition kept (a f d : string) (t : tree) : Prop :=
  content t (box_path a "new" f) = Some d \/ content t (box_path a "cur" f) = Some d \/
  exists g, enveloped_at a f d g t.

(** How a move may end: nothing written and the source still there; or the envelope written,
    and the source removed, or still there and the error says so. *)
Definition moved (a f d : string) (t0 : tree) (x : path * option gerr) (t : tree) : Prop :=
  dents t !! box_path a "new" f = dents t0 !! box_path a "new" f /\
  ((x.1 = [] /\ x.2 <> None /\ content t (box_path a "cur" f) = Some d) \/
  exists g, x.1 = displayPath r (dlq_path a "new" g) /\ x.1 <> [] /\ enveloped_at a f d g t /\
    ((dents t !! box_path a "cur" f = None /\
      forall err, x.2 = Some err -> is_committed err = true /\ errors_As_transition err = None) \/
     (content t (box_path a "cur" f) = Some d /\
      exists err, x.2 = Some err /\ errors_As_transition err <> None))).

Lemma dlq_inv_new a g data f t0 t :
  HasPrefix f "." = false -> dlq_inv a g data t0 t ->
  dents t !! box_path a "new" f = dents t0 !! box_path a "new" f.
Proof.
  intros Hf [Hev _]. apply (evo_deep _ _ _ _ Hev); [|apply box_path_depth]. intros [Hh|E].
  - by eapply box_path_visible in Hh.
  - unfold box_path, dlq_path in E. congruence.
Qed.

Lemma dlq_inv_cur a g data f d t0 t :
  HasPrefix f "." = false -> dlq_inv a g data t0 t ->
  content t0 (box_path a "cur" f) = Some d -> content t (box_path a "cur" f) = Some d.
Proof.
  intros Hf [Hev _]. eapply evo_content; [exact Hev|]. intros [Hh|E].
  - by eapply box_path_visible in Hh.
  - unfold box_path, dlq_path in E. congruence.
Qed.

(** What else a move changes: dot files, its source, and envelopes where there were none. *)
Definition moving (a f : string) (p : path) : Prop :=
  hidden p \/ p = box_path a "cur" f \/ exists g, p = dlq_path a "new" g.

Record spared (a f : string) (t t' : tree) : Prop := {
  sp_evo : evo (moving a f) t t';
  sp_dlq : forall g x, HasPrefix g "." = false -> content t (dlq_path a "new" g) = Some x -> content t' (dlq_path a "new" g) = Some x;
}.

#[global] Instance spared_preorder a f : PreOrder (spared a f).
Proof.
  split; [intros t; by split|]. intros t1 t2 t3 [H1 H2] [H3 H4]. split; [by etrans|]. intros g x Hv Hg. by apply H4, H2.
Qed.

Lemma spared_inv a g data f t0 t : dlq_inv a g data t0 t -> spared a f t0 t.
Proof.
  intros [Hev Hpub]. split.
  - eapply evo_mono; [|exact Hev]. unfold moving. intros p [Hp|Hp]; [by left|right; right; by exists g].
  - intros g' x Hv Hx. destruct (decide (g' = g)) as [->|Hne].
    + destruct Hpub as [E|[N _]]; [|unfold content in Hx; by rewrite N in Hx].
      apply content_file in Hx as (i & Hi & Hd). unfold content. rewrite E, Hi. by eapply lookup_weaken, evo_data.
    + eapply evo_content; [exact Hev| |done]. intros [Hp|Hp].
      * by eapply dlq_path_visible.
      * unfold dlq_path in Hp. congruence.
Qed.

Lemma spared_delete a f t i : dents t !! box_path a "cur" f = Some (NFile i) ->
  spared a f t (set_dents (delete (box_path a "cur" f)) t).
Proof.
  intros Hi. split.
  - eapply evo_mono; [|apply evo_delete; by rewrite Hi]. intros p <-. right. by left.
  - intros g x _ Hx. unfold content in *. cbn. rewrite lookup_delete_ne; [done|]. unfold box_path, dlq_path. congruence.
Qed.

Lemma wpi_dlq_transition I a f id data d w :
  plain a = true -> ValidateMessageFilename f = None ->
  ValidateMessageFilename (id +:+ ".md") = None -> wraps f d data ->
  content (tr w) (box_path a "cur" f) = Some d -> t_parent (tr w) (box_path a "cur" f) = None ->
  (forall t, kept a f d t -> spared a f (tr w) t -> I t) ->
  wpi e I (dlq_transition r a (inbox_dir a "cur") f id data) (fun x w' =>
    ctl_eq w w' /\ spared a f (tr w) (tr w') /\ moved a f d (tr w) x (tr w')) w.
Proof.
  intros Ha Hf Hid Hwr Hcur Hpar HI. pose proof (filename_not_hidden f Hf) as Hhid.
  unfold dlq_transition. rewrite inbox_file_plain by (done || by apply filename_plain).
  rewrite rp_root by done. wbind. set (g := id +:+ ".md") in *.
  assert (displayPath r (dlq_path a "new" g) <> []) as Hp0.
  { unfold displayPath. change (dlq_path a "new" g) with (["agents"; a; "dlq"; "new"] ++ [g]).
    rewrite app_assoc. by apply Clean_snoc_not_nil, filename_plain. }
  assert (forall t, dlq_inv a g data (tr w) t -> I t) as HI1.
  { intros t Ht. apply HI; [|by eapply spared_inv]. right. left. by eapply dlq_inv_cur. }
  pose proof (filename_not_hidden g Hid) as Hvis.
  eapply wpi_mono; [by apply wpi_deliverToDLQ|].
  intros [p [err|]] w1 (Hc1 & Hinv & Hx); pose proof (dlq_inv_cur _ _ _ _ _ _ _ Hhid Hinv Hcur) as Hcur1;
    pose proof (dlq_inv_new _ _ _ _ _ _ Hhid Hinv) as Hnew1; pose proof (spared_inv a g data f _ _ Hinv) as Hsp1.
  - destruct (is_committed err) eqn:Hcm.
    + destruct Hx as [-> Hdata]. wret. split; [done|]. split; [done|]. split; [done|]. right. exists g.
      split; [done|]. split; [done|]. split; [by split; [|exists data]|]. right. split; [done|]. eexists. split; [done|]. done.
    + subst p. wret. split; [done|]. split; [done|]. split; [done|]. left. done.
  - destruct Hx as [-> Hdata]. set (cur := box_path a "cur" f) in *.
    destruct (content_file _ _ _ Hcur1) as (i & Hi & _).
    assert (t_parent (tr w1) cur = None) as Hpar1 by (by eapply evo_parent; [apply Hinv|]).
    assert (forall t, t = tr w1 \/ t = set_dents (delete cur) (tr w1) -> enveloped_at a f d g t) as Henv.
    { intros t [->| ->]; (split; [done|]); exists data; (split; [|done]); [done|]. unfold content in *. cbn.
      rewrite lookup_delete_ne; [done|]. unfold cur, box_path, dlq_path. congruence. }
    assert (forall t, t = tr w1 \/ t = set_dents (delete cur) (tr w1) -> spared a f (tr w) t) as Hsp.
    { intros t [->| ->]; [done|]. etrans; [exact Hsp1|]. by eapply spared_delete. }
    assert (forall t, t = tr w1 \/ t = set_dents (delete cur) (tr w1) -> I t) as HI2.
    { intros t Ht. apply HI; [right; right; exists g; by apply Henv|by apply Hsp]. }
    wbind. eapply wpi_mono; [apply wpi_remove_file; [by rewrite Hi|by auto|by auto]|].
    intros y w2 (Hc2 & _ & Hy). assert (ctl_eq w w2) as Hcw2 by (by eapply ctl_eq_trans).
    destruct Hy as [(Ht2 & n & -> & Hn)|[-> Ht2]].
    + destruct (os_IsNotExist (EErrno n)) eqn:En.
      { destruct (Hn eq_refl) as [?|?]; congruence. }
      cbn [negb]. wret. split; [done|]. rewrite Ht2. split; [done|]. split; [done|]. right. exists g. split; [done|].
      split; [done|]. split; [by auto|]. right. split; [done|]. eexists. split; [done|]. done.
    + assert (dents (tr w2) !! cur = None) as Hgone by (rewrite Ht2; cbn; by rewrite lookup_delete_eq).
      assert (enveloped_at a f d g (tr w2)) as He by auto.
      eapply wpi_mono; [apply wpi_returns; [|apply (wpi_ro e I)]; [|ro_tac|by auto]|].
      { instantiate (1 := fun x => x.1 = displayPath r (dlq_path a "new" g) /\ forall err, x.2 = Some err ->
          is_committed err = true /\ errors_As_transition err = None).
        eapply returns_bind; [apply quiet_syncDir_errno|]. intros [x|] Hx; [|by split].
        destruct Hx as [m ->]. split; [done|]. by intros err [= <-]. }
      intros [p o] w3 ([Hp Hx] & Ht3 & Hc3). cbn in Hp, Hx. subst p.
      split; [by eapply ctl_eq_trans|]. rewrite Ht3. split; [by auto|]. split.
      { rewrite Ht2. cbn. rewrite lookup_delete_ne; [done|]. unfold cur, box_path. congruence. }
      right. exists g. split; [done|]. split; [done|]. split; [done|]. by left.
Qed.

(** A fresh envelope can be written, and what is written wraps the message. *)
Lemma fresh_envelope id oid f reason detail now src d :
  str_forallb is_ascii id = true ->
  forallb utf8_valid [oid; f; reason; detail; src] = true ->
  exists data, serializeDLQMessage (Envelope DLQSchemaVersion id oid f reason detail
      (Format_RFC3339 now) 0 "" false false src) d = inl data /\ wraps f d data.
Proof.
  intros Hid Hu. set (env0 := Envelope _ _ _ _ _ _ _ _ _ _ _ _).
  set (env := setRetryState env0 RetryStateReady).
  assert (writable env) as Hw by (split; [apply setRetryState_coherent; [done|by left]|by left]).
  assert (serializeDLQMessage env0 d = serializeDLQMessage env d) as E.
  { unfold serializeDLQMessage. rewrite (normalize_writable env) by done. done. }
  rewrite E. assert (envelope_text env = true) as Ht.
  { unfold envelope_text. cbn [forallb] in Hu |- *. rewrite !andb_true_iff in Hu.
    destruct Hu as (H1 & H2 & H3 & H4 & H5 & _).
    cbn [Schema ID OriginalID OriginalFile FailureReason FailureDetail FailureTime RetryState SourceDir
      RetryCount env env0 setRetryState].
    rewrite H1, H2, H3, H4, H5, (ascii_utf8 id Hid).
    rewrite (ascii_utf8 (Format_RFC3339 now)); [done|].
    eapply str_forallb_impl; [apply stamp_char_ascii|apply Format_RFC3339_stamp]. }
  destruct (serializeDLQMessage env d) as [data|x] eqn:Es.
  - exists data. split; [done|]. split.
    + unfold serializeDLQMessage in Es. rewrite (normalize_writable env) in Es by done.
      injection Es as <-. exists (frame_start +:+ MarshalIndent (envelope_json env) +:+ frame_end).
      by rewrite !string_app_assoc.
    + exists env. split; [|done]. by eapply parse_serialize.
  - unfold serializeDLQMessage in Es. by rewrite (normalize_writable env) in Es.
Qed.

Lemma wpi_moveInbox I a src f oid reason detail d w :
  plain a = true -> ValidateMessageFilename f = None ->
  forallb utf8_valid [oid; f; reason; detail; src] = true ->
  content (tr w) (box_path a "cur" f) = Some d -> t_parent (tr w) (box_path a "cur" f) = None ->
  (forall t, kept a f d t -> spared a f (tr w) t -> I t) ->
  wpi e I (moveInboxMessageToDLQ r a "cur" src f oid reason detail) (fun x w' =>
    ctl_eq w w' /\ spared a f (tr w) (tr w') /\ moved a f d (tr w) x (tr w')) w.
Proof.
  intros Ha Hf Hu Hcur Hpar HI. unfold moveInboxMessageToDLQ. rewrite Hf. cbn [inboxSourceDir].
  change (inboxSourceDir a "cur") with (@inl path gerr (inbox_dir a "cur")). cbv beta iota.
  rewrite inbox_file_plain by (done || by apply filename_plain).
  assert (forall t, t = tr w -> I t) as HI0 by (intros t ->; apply HI; [right; by left|done]).
  assert (forall w' err, ctl_eq w w' -> tr w' = tr w ->
    ctl_eq w w' /\ spared a f (tr w) (tr w') /\ moved a f d (tr w) ([], Some err) (tr w')) as Hbad.
  { intros w' err Hc Ht. split; [done|]. rewrite Ht. split; [done|]. split; [done|]. by left. }
  wbind. eapply wpi_mono; [apply wpi_ReadRegularNoFollow; [done|by auto]|].
  intros [s [x|]] w1 (Ht1 & Hc1 & Hs); [wret; by apply Hbad|]. cbn in Hs.
  destruct (Hs eq_refl) as [Hs' _]. rewrite Hcur in Hs'. injection Hs' as <-.
  wbind. eapply wpi_mono; [apply wpi_GenerateDLQID; auto|].
  intros [id [x|]] w2 (Ht2 & Hc2 & Hx); rewrite Ht1 in Ht2;
    assert (ctl_eq w w2) as Hcw2 by (by eapply ctl_eq_trans); [wret; by apply Hbad|].
  destruct Hx as (n1 & pid & b & ->).
  apply wpi_ro_bind; [ro_tac|by auto|]. intros now w3 Ht3 Hc3. rewrite Ht2 in Ht3.
  assert (ctl_eq w w3) as Hcw3 by (by eapply ctl_eq_trans).
  assert (str_forallb is_ascii (dlq_id n1 pid b) = true) as Hid.
  { eapply str_forallb_impl; [apply id_char_ascii|apply dlq_id_chars]. }
  destruct (fresh_envelope (dlq_id n1 pid b) oid f reason detail now src d Hid Hu) as (data & -> & Hwr).
  eapply wpi_mono; [apply (wpi_dlq_transition I a f (dlq_id n1 pid b) data d)|].
  - done.
  - done.
  - apply dlq_name_valid.
  - done.
  - by rewrite Ht3.
  - by rewrite Ht3.
  - by rewrite Ht3.
  - intros x w4 [Hc4 Hm]. split; [by eapply ctl_eq_trans|]. by rewrite <-Ht3.
Qed.

(** What a move of a claimed message returns, the claim having left the error [claimErr]. *)
Lemma wpi_moveClaimed I a src f oid reason detail d claimErr w :
  plain a = true -> ValidateMessageFilename f = None ->
  forallb utf8_valid [oid; f; reason; detail; src] = true ->
  content (tr w) (box_path a "cur" f) = Some d -> t_parent (tr w) (box_path a "cur" f) = None ->
  (forall x, claimErr = Some x -> errors_As_transition x = None) ->
  (forall t, kept a f d t -> spared a f (tr w) t -> I t) ->
  wpi e I (moveClaimedCurToDLQ r a src f oid reason detail claimErr) (fun x w' =>
    ctl_eq w w' /\ spared a f (tr w) (tr w') /\ moved a f d (tr w) x (tr w')) w.
Proof.
  intros Ha Hf Hu Hcur Hpar Hcl HI. unfold moveClaimedCurToDLQ. wbind.
  eapply wpi_mono; [by apply wpi_moveInbox|]. intros [p o] w1 (Hc1 & Hsp & Hm).
  destruct claimErr as [claim|]; [|by wret].
  assert (I (tr w1)) as HI1.
  { apply HI; [|done]. destruct Hm as [_ [(_ & _ & ?)|(g & _ & _ & ? & _)]]; [right; by left|right; right; by exists g]. }
  assert (errors_As_transition (Errorf "claim original" claim) = None) as Hct.
  { apply errors_As_transition_EWrap. constructor; [by apply Hcl|done]. }
  destruct Hm as [Hn1 [(Ep & Ho & Hd)|(g & Ep & Hne & He & [[Hgone Hall]|(Hd & t & Et & Htr)])]];
    cbn [fst snd] in *.
  - destruct o as [t|]; [|done]. subst p. rewrite (bool_decide_eq_true_2 ([] = [])) by done.
    rewrite orb_true_r. wret. split; [done|]. split; [done|]. split; [done|]. by left.
  - assert (forall x, (forall err, x = Some err -> is_committed err = true /\ errors_As_transition err = None) ->
      moved a f d (tr w) (p, x) (tr w1)) as Hdone.
    { intros x Hx. split; [done|]. right. exists g. split; [done|]. split; [done|]. split; [done|]. by left. }
    assert (wpi e I (syncErr ← syncInboxClaimDirs r a;
      match syncErr with
      | None => Ret (p, None)
      | Some _ => Ret (p, Some (ECommitted p a (default (Errorf "claim original" claim)
                    (errors_Join [Some (Errorf "claim original" claim); o; syncErr]))))
      end) (fun x w' => ctl_eq w w' /\ spared a f (tr w) (tr w') /\ moved a f d (tr w) x (tr w')) w1) as Hre.
    { wbind. eapply wpi_mono; [apply wpi_returns; [apply syncInboxClaimDirs_errs|];
        apply wpi_ro; [apply ro_syncInboxClaimDirs|done]|].
      intros s w2 (Hs & Ht2 & Hc2). assert (ctl_eq w w2) as Hcw2 by (by eapply ctl_eq_trans).
      destruct s as [se|]; wret; rewrite Ht2; (split; [done|]); (split; [done|]); apply Hdone; [|done].
      assert (forall j, errors_Join [Some (Errorf "claim original" claim); o; Some se] = Some j ->
        errors_As_transition j = None) as Hj.
      { intros j Ej. apply (errors_Join_transition _ _ Ej). repeat constructor.
        - by intros x [= <-].
        - intros x Hx. by apply Hall.
        - by intros x [= <-]. }
      intros err [= <-]. split; [done|]. rewrite errors_As_transition_ECommitted.
      apply Hj. by destruct o. }
    destruct o as [t|]; [|done]. destruct (Hall t eq_refl) as [Hcm Htn].
    rewrite (bool_decide_eq_false_2 (errors_As_transition t <> None)) by (rewrite Htn; by intros H).
    rewrite (bool_decide_eq_false_2 (p = [])) by done. rewrite Hcm. exact Hre.
  - subst o. rewrite (bool_decide_eq_true_2 (errors_As_transition t <> None)) by done.
    wret. split; [done|]. split; [done|]. split; [done|]. right. exists g. split; [done|]. split; [done|]. split; [done|]. right.
    split; [done|]. eexists. split; [done|]. intros Hj.
    apply (errors_Join_transition [Some (Errorf "claim original" claim); Some t]) in Hj; [|done].
    inv Hj as [|? ? _ Hj']. inv Hj' as [|? ? Hj'' _]. by apply Htr, Hj''.
Qed.

(** The errors of a claim are no errors of a move. *)
Lemma MoveNewToCur_errs a f :
  returns (fun o => forall x, o = Some x -> errors_As_transition x = None) (MoveNewToCur r a f).
Proof.
  assert (forall x, visible_err x = false -> forall y, Some x = Some y -> errors_As_transition y = None) as Hq.
  { intros x Hx y [= <-]. by apply quiet_no_transition. }
  unfold MoveNewToCur. destruct (ValidateHandle a) eqn:Ha; [exact (Hq _ (handle_error_quiet _ _ Ha))|].
  destruct (ValidateMessageFilename f) eqn:Hf; [exact (Hq _ (filename_error_quiet _ _ Hf))|].
  eapply returns_bind; [apply quiet_VerifyBase|]. intros [x|] Hx; [exact (Hq _ Hx)|].
  eapply returns_bind; [apply returns_call_quiet|]. intros [y|] Hy; [exact (Hq _ Hy)|].
  set (new := Join _). set (cur := Join_under _ _).
  eapply (returns_bind (fun o => forall x, o = Some x ->
    errors_As_transition x = None /\ errors_As_residue x = None)).
  - unfold claimRename. eapply (returns_bind (fun o => match o with Some x => exists n, x = EErrno n | None => True end)).
    + unfold renameNoReplace. eapply returns_bind; [apply returns_any|]. intros [h|n] _; [|by exists n].
      eapply returns_bind; [apply returns_any|]. intros [h2|n] _; [|by exists n].
      intros [u|n]; [done|by exists n].
    + intros [x|] Hx'; [|done]. destruct Hx' as [n ->].
      destruct (errors_Is_Exist (EErrno n)); cbn [negb]; [|by intros x [= <-]].
      eapply returns_bind; [apply returns_any|]. intros [i|m] _; [by intros x [= <-]|].
      destruct (os_IsNotExist (EErrno m)); by intros x [= <-].
  - intros [x|] Hx'; [intros y [= <-]|].
    + destruct (Hx' x eq_refl) as [Htr Hres]. by rewrite Hres.
    + eapply returns_bind; [apply quiet_syncDir_errno|]. intros s1 Hs1.
      eapply returns_bind; [apply quiet_syncDir_errno|]. intros s2 Hs2. unfold returns. intros x.
      destruct s1 as [x1|], s2 as [x2|]; cbn;
        repeat match goal with H : exists _, _ |- _ => destruct H as [? ->] end; by intros [= <-].
Qed.

(** How MoveToDLQ may end. *)
Definition dlq_outcome (a f d : string) (x : path * option gerr) (t : tree) : Prop :=
  (x.1 = [] /\ x.2 <> None /\ content t (box_path a "new" f) = Some d) \/
  exists t1, dents t1 !! box_path a "new" f = None /\ moved a f d t1 x t.

Lemma wpi_MoveToDLQ I a f oid reason detail d w :
  forallb utf8_valid [oid; f; reason; detail] = true ->
  content (tr w) (box_path a "new" f) = Some d -> (forall t, kept a f d t -> I t) ->
  wpi e I (MoveToDLQ r a f oid reason detail) (fun x w' => ctl_eq w w' /\ dlq_outcome a f d x (tr w')) w.
Proof.
  intros Hu Hnew HI. unfold MoveToDLQ. wbind.
  destruct (ValidateHandle a) as [x|] eqn:Ha.
  { unfold MoveNewToCur. rewrite Ha. wret. rewrite quiet_not_committed by (by eapply handle_error_quiet).
    wret. split; [done|]. by left. }
  destruct (ValidateMessageFilename f) as [x|] eqn:Hf.
  { unfold MoveNewToCur. rewrite Ha, Hf. wret.
    rewrite quiet_not_committed by (by eapply filename_error_quiet). wret. split; [done|]. by left. }
  assert (forall t, unclaimed (tr w) t -> content t (box_path a "new" f) = Some d) as Hunc.
  { intros t Ht. by eapply unclaimed_content. }
  eapply wpi_mono; [apply wpi_returns; [apply MoveNewToCur_errs|];
    eapply wpi_inv_mono; [|by apply wpi_MoveNewToCur]|].
  { intros t [Ht|(_ & _ & _ & Ht & _)]; apply HI; [left; by apply Hunc|right; left; by apply Ht]. }
  intros o w1 (Herrs & Hc1 & Ho). unfold claim_outcome in Ho.
  assert (wpi e I (if won o then moveClaimedCurToDLQ r a "new" f oid reason detail o
    else Ret ([], Errorf "claim original" <$> o)) (fun x w' => ctl_eq w w' /\ dlq_outcome a f d x (tr w')) w1)
    as H; [|by destruct o as [x|]; [cbn in H; destruct (is_committed x)|]].
  destruct (won o) eqn:Hw.
  - destruct Ho as (_ & _ & Hgone & Hmv & _). destruct (Hmv d Hnew) as [Hcur Hpar].
    eapply wpi_mono; [apply (wpi_moveClaimed I a "new" f oid reason detail d o); try done|].
    + by apply handle_plain.
    + by intros t Ht _; apply HI.
    + intros x w2 (Hc2 & _ & Hm). split; [by eapply ctl_eq_trans|]. right. by exists (tr w1).
  - destruct o as [x|]; [|done]. wret. split; [done|]. left. split; [done|]. split; [done|].
    apply Hunc, Ho.
Qed.

End dlq.

(** What moving a message to the dead-letter queue guarantees, and what an envelope keeps:
    MoveToDLQ, serializeDLQMessage, parseDLQMessage and normalizeRetryState of
    internal/fsq/dlq.go. *)

(** ** Moving a message *)

(** C3: A message that MoveToDLQ was asked to move is never lost: stopped after any of its
    calls, under any I/O failures, the whole message is in inbox/new, in inbox/cur, or at the
    end of an envelope in dlq/new that parses, names the file it came from and gives the
    message back (up to line endings). *)
Theorem dlq_move_never_loses e r a f oid reason detail d w :
  dr_at r = [] -> forallb utf8_valid [oid; f; reason; detail] = true ->
  content (tr w) (box_path a "new" f) = Some d ->
  Forall (fun w' => kept a f d (tr w')) (trace e (MoveToDLQ r a f oid reason detail) w).
Proof. intros Hat Hu Hnew. eapply wpi_trace. by apply wpi_MoveToDLQ. Qed.

Definition dlq_sample : world := sample_world [(box_path "bob" "new" "m.md", "hello")].

Lemma dlq_move_never_loses_witness :
  let e := failing_env 27 EIO in
  let p := MoveToDLQ sample_root "bob" "m.md" "id-1" "parse_error" "bad header" in
  length (trace e p dlq_sample) = 30%nat /\
  Forall (fun w' => kept "bob" "m.md" "hello" (tr w')) (trace e p dlq_sample).
Proof.
  intros e p. split; [vm_compute; reflexivity|].
  apply dlq_move_never_loses; [reflexivity|vm_compute; reflexivity|vm_compute; reflexivity].
Defined.

(** What MoveToDLQ returns says where the message is.  Either the path is empty, there is
    an error and the message is still in inbox/new; or it is no longer in inbox/new and: the
    path is empty, there is an error and the message waits in inbox/cur; or the path is that
    of an envelope in dlq/new that holds the message, and inbox/cur no longer has it (an
    error, if any, then only says that the move is not known to be durable), or it still has
    it and the error is a DLQTransitionError that says so. *)
Theorem dlq_move_outcome e r a f oid reason detail d w x w' :
  dr_at r = [] -> forallb utf8_valid [oid; f; reason; detail] = true ->
  content (tr w) (box_path a "new" f) = Some d ->
  run e (MoveToDLQ r a f oid reason detail) w = (x, w') -> dlq_outcome r a f d x (tr w').
Proof.
  intros Hat Hu Hnew Hrun.
  pose proof (wpi_run e _ _ _ _ (wpi_MoveToDLQ e r Hat (fun _ => True) a f oid reason detail d w
    Hu Hnew (fun _ _ => Logic.I))) as [_ H].
  by rewrite Hrun in H.
Qed.

Lemma dlq_move_outcome_witness :
  let x := run quiet_env (MoveToDLQ sample_root "bob" "m.md" "id-1" "parse_error" "bad header") dlq_sample in
  x.1.2 = None /\ dlq_outcome sample_root "bob" "m.md" "hello" x.1 (tr x.2).
Proof.
  intros x. split; [vm_compute; reflexivity|].
  refine (dlq_move_outcome quiet_env sample_root "bob" "m.md" "id-1" "parse_error" "bad header" "hello"
    dlq_sample x.1 x.2 eq_refl _ _ (surjective_pairing x)); vm_compute; reflexivity.
Defined.

(** ** Envelopes *)

(** C23: An envelope whose strings are valid UTF-8 and whose retry state is consistent with
    its count and markers can always be written, and what was written is read back as the
    same envelope and the same wrapped message, up to the line endings of the message. *)
Theorem dlq_envelope_roundtrip env msg :
  writable env -> envelope_text env = true ->
  exists data, serializeDLQMessage env msg = inl data /\
    parseDLQMessage data = inl (env, crlf_to_lf msg).
Proof.
  intros Hw Ht. destruct (serializeDLQMessage env msg) as [data|x] eqn:Es.
  - exists data. split; [done|]. by eapply parse_serialize.
  - unfold serializeDLQMessage in Es. by rewrite normalize_writable in Es.
Qed.

Lemma dlq_envelope_roundtrip_witness :
  let env := Envelope DLQSchemaVersion "dlq_1" "id-1" "m.md" "parse_error" "line 3" "2024-01-02T03:04:05Z"
               2 RetryStatePending true false "new" in
  exists data, serializeDLQMessage env "hello" = inl data /\ parseDLQMessage data = inl (env, "hello").
Proof.
  intros env. apply (dlq_envelope_roundtrip env "hello"); [|vm_compute; reflexivity].
  split; [split; try reflexivity; [cbn; lia|right; left; reflexivity]|right; cbn; lia].
Defined.

(** The retry state a read or written envelope has is always one of the four states and
    agrees with the two markers, whatever was in the file; and normalizing again changes
    nothing and succeeds exactly when the state is ready or a retry has been counted. *)
Theorem dlq_state_normalized env env' :
  normalizeRetryState env = inl env' ->
  coherent env' /\
  (normalizeRetryState env' = inl env' <-> RetryState env' = RetryStateReady \/ (0 < RetryCount env')%Z) /\
  (forall env'', normalizeRetryState env' = inl env'' -> env'' = env').
Proof.
  intros H. pose proof (normalize_coherent _ _ H) as Hco. split; [done|].
  pose proof (normalize_again env' Hco) as Hn.
  destruct (normalizeRetryState env') as [env''|x]; [destruct Hn as [-> Hn]|].
  - split; [done|]. by intros ? [= <-].
  - split; [|done]. by split.
Qed.

Lemma dlq_state_normalized_witness :
  let env := Envelope DLQSchemaVersion "dlq_1" "id-1" "m.md" "parse_error" "" "" 2 "" false false "new" in
  coherent (setRetryState env RetryStateIndeterminate).
Proof.
  intros env. refine (proj1 (dlq_state_normalized env _ _)). vm_compute. reflexivity.
Defined.
