(* ===== verification/Retry.v ===== *)
(** What retrying a message of the dead-letter queue does to the tree: retryFromDLQLocked and
    the functions it calls in internal/fsq/dlq.go. *)
From S2P Require Import Prelude GoStr GoPath Json JsonFacts JsonStruct GoErr Fs Wp FsFacts Names DeliveryRoot DeliveryRootFacts Sample Maildir Delivery AtomicFacts DlqEnvelope Dlq DeadLetter.

(** A tree as a file system has it: names are single components, and what is in the tree is
    reached through directories. *)
Record wf_tree (t : tree) : Prop := {
  wf_names : forall p n, dents t !! p = Some n -> Forall (fun c => plain c = true) p;
  wf_rooted : forall p n, dents t !! p = Some n -> t_parent t p = None;
}.

Definition wf_treeb (t : tree) : bool :=
  forallb (fun kn => forallb plain kn.1 && bool_decide (t_parent t kn.1 = None)) (map_to_list (dents t)).

Lemma wf_treeb_spec t : wf_treeb t = true -> wf_tree t.
Proof.
  unfold wf_treeb. rewrite forallb_forall. intros H. split; intros p n Hp.
  all: apply elem_of_map_to_list, list_elem_of_In in Hp; specialize (H _ Hp); cbn in H;
    apply andb_true_iff in H as [H1 H2%bool_decide_eq_true].
  - by apply Forall_forall; intros c Hc%list_elem_of_In; rewrite forallb_forall in H1; apply H1.
  - done.
Qed.

(** The envelope of record: dlq/cur has precedence over dlq/new. *)
Definition authority (a f : string) (t : tree) : option string :=
  match dents t !! dlq_path a "cur" f with
  | Some (NFile i) => data t !! i
  | _ => content t (dlq_path a "new" f)
  end.

Definition is_file (t : tree) (p : path) : Prop := exists i, dents t !! p = Some (NFile i).

Lemma VerifyBase_exists r :
  returns (fun o => match o with Some x => os_IsNotExist x = false | None => True end) (VerifyBase r).
Proof.
  unfold VerifyBase. destruct (negb (dr_open r)); [done|]. destruct (dr_batchLease r) as [l|].
  - eapply returns_bind; [apply returns_any|]. by intros [] _.
  - eapply returns_bind; [apply returns_any|]. intros [i|x] _; [|done]. by destruct (negb _).
Qed.

Section retry.
Context (e : env) (r : DeliveryRoot) (Hat : dr_at r = []).

(** A path that Stat reports missing is no regular file. *)
Lemma wpi_Stat I p w :
  I (tr w) -> wpi e I (Stat r p) (fun x w' => tr w' = tr w /\ ctl_eq w w' /\
    (forall y, x.2 = Some y -> os_IsNotExist y = true -> t_parent (tr w) p = None ->
       ~ is_file (tr w) p)) w.
Proof.
  intros HI. unfold Stat. rewrite rp_root by done. wbind.
  eapply wpi_mono; [apply wpi_returns; [apply VerifyBase_exists|]; apply wpi_ro; [auto with amq|done]|].
  intros [x|] w1 (Hx & Ht1 & Hc1).
  { wret. split; [done|]. split; [done|]. intros y [= <-]. congruence. }
  wbind. apply wpi_sys; [cbn; unfold obs; case_match; cbn; by rewrite Ht1|].
  wret. wexec. destruct (e_fault e (tick w1)) as [ft|]; cbn.
  { wret. split; [done|]. split; [done|]. by intros y [= <-]. }
  rewrite Ht1. unfold t_stat. destruct (t_follow 8 (tr w) p) as [[q n]|x] eqn:Ef; cbn; wret.
  { by split_and!. }
  split; [done|]. split; [done|]. intros y [= <-] Hy Hpar [i Hi]. cbn [t_follow] in Ef.
  assert (p <> []) as Hp by (by intros ->).
  by rewrite (t_node_lookup _ _ _ Hp Hpar Hi) in Ef.
Qed.

Lemma Join_dlq a box f : plain a = true -> plain box = true -> plain f = true ->
  Join ["agents"; a; "dlq"; box; f] = dlq_path a box f.
Proof. intros. apply Join_plain. by repeat constructor. Qed.

(** FindDLQMessage answers with dlq/cur, or with dlq/new when dlq/cur has no such file. *)
Lemma wpi_FindDLQMessage I a f w :
  plain a = true -> (is_file (tr w) (dlq_path a "cur" f) -> t_parent (tr w) (dlq_path a "cur" f) = None) ->
  I (tr w) -> wpi e I (FindDLQMessage r a f) (fun x w' => tr w' = tr w /\ ctl_eq w w' /\
    match x with
    | (p, box, None) => ValidateMessageFilename f = None /\ p = dlq_path a box f /\
        (box = "cur" \/ (box = "new" /\ ~ is_file (tr w) (dlq_path a "cur" f)))
    | (_, _, Some _) => True
    end) w.
Proof.
  intros Ha Hwf HI. unfold FindDLQMessage. destruct (ValidateMessageFilename f) eqn:Hf; [by wret|].
  rewrite !Join_dlq by (done || by apply filename_plain). wbind.
  eapply wpi_mono; [by apply wpi_Stat|]. intros [i [x|]] w1 (Ht1 & Hc1 & Hs); cbn [snd] in *.
  - destruct (os_IsNotExist x) eqn:Hx; cbn [negb]; [|by wret]. wbind.
    eapply wpi_mono; [apply wpi_Stat; by rewrite Ht1|]. intros [j [y|]] w2 (Ht2 & Hc2 & _); cbn [snd].
    + assert (tr w2 = tr w /\ ctl_eq w w2) as [??] by (split; [congruence|by eapply ctl_eq_trans]).
      case_match; by wret.
    + wret. split; [congruence|]. split; [by eapply ctl_eq_trans|]. split_and!; try done. right.
      split; [done|]. intros Hk. eapply (Hs x); try done. by apply Hwf.
  - wret. split_and!; try done. by left.
Qed.

Lemma wpi_ReadDLQEnvelope I p w :
  I (tr w) -> wpi e I (ReadDLQEnvelope r p) (fun x w' => tr w' = tr w /\ ctl_eq w w' /\
    match x with
    | (Some (env, msg), None) => exists data, content (tr w) p = Some data /\ parseDLQMessage data = inl (env, msg)
    | (None, None) => False
    | (_, Some _) => True
    end) w.
Proof.
  intros HI. unfold ReadDLQEnvelope. wbind. eapply wpi_mono; [by apply wpi_ReadRegularNoFollow|].
  intros [data [x|]] w1 (Ht1 & Hc1 & Hs); [by wret|]. destruct (Hs eq_refl) as [Hc _]. cbn in Hc.
  destruct (parseDLQMessage data) as [[env msg]|x] eqn:Ep; wret; split_and!; try done. by exists data.
Qed.

Lemma ro_find_original a f boxes : ro (find_original r a f boxes).
Proof.
  induction boxes as [|b boxes IH]; [done|]. cbn. apply ro_bind; [auto with amq|]. intros [i [x|]]; cbn; [|done].
  by destruct (negb _).
Qed.

(** reconcileDLQCurAuthorityLocked removes nothing but a dlq/new entry that dlq/cur supersedes. *)
Lemma wpi_reconcile I a f w d :
  plain a = true -> plain f = true -> content (tr w) (dlq_path a "cur" f) = Some d ->
  (forall i m, dents (tr w) !! dlq_path a "new" f <> Some (NDir i m)) ->
  I (tr w) -> I (set_dents (delete (dlq_path a "new" f)) (tr w)) ->
  wpi e I (reconcileDLQCurAuthorityLocked r a f) (fun _ w' => ctl_eq w w' /\
    (tr w' = tr w \/ tr w' = set_dents (delete (dlq_path a "new" f)) (tr w))) w.
Proof.
  intros Ha Hf Hcur Hnd HI HI'. unfold reconcileDLQCurAuthorityLocked.
  rewrite !rp_root by done. rewrite Join_dlq, dlq_file_plain by done.
  apply wpi_ro_bind; [ro_tac|done|]. intros [i|x] w1 Ht1 Hc1; [|case_match; wret; by auto].
  apply wpi_ro_bind; [ro_tac|by rewrite Ht1|]. intros y w2 Ht2 Hc2. rewrite Ht1 in Ht2.
  assert (ctl_eq w w2) as Hcw2 by (by eapply ctl_eq_trans).
  destruct y as [ci|x]; [|case_match; wret; by auto].
  destruct (negb _); [wret; by auto|]. wbind.
  eapply wpi_mono; [apply wpi_remove_file; by rewrite Ht2|]. rewrite Ht2.
  intros z w3 (Hc3 & _ & Hz). assert (ctl_eq w w3) as Hcw3 by (by eapply ctl_eq_trans).
  assert (tr w3 = tr w \/ tr w3 = set_dents (delete (dlq_path a "new" f)) (tr w)) as Ht3
    by (destruct Hz as [[? _]|[_ ?]]; auto).
  assert (wpi e I (o ← sync_both r (dlq_dir a "cur") (Dir (dlq_path a "new" f)) (dlq_path a "cur" f) a; Ret (true, o))
    (fun _ w' => ctl_eq w w' /\ (tr w' = tr w \/ tr w' = set_dents (delete (dlq_path a "new" f)) (tr w))) w3) as Hfin.
  { eapply wpi_mono; [apply (wpi_ro e I); [unfold sync_both; ro_tac|by destruct Ht3 as [->| ->]]|].
    intros x w4 [Ht4 Hc4]. rewrite Ht4. split; [by eapply ctl_eq_trans|done]. }
  destruct z as [[]|n]; [done|]. destruct (negb _); [by wret|done].
Qed.

(** ** Updating the envelope *)

(** Only the two places of the envelope change: both are as they were, or dlq/cur has the new
    text. *)
Definition record_inv (a f data : string) (t0 t : tree) : Prop :=
  evo (fun p => hidden p \/ p = dlq_path a "cur" f \/ p = dlq_path a "new" f) t0 t /\
  ((dents t !! dlq_path a "cur" f = dents t0 !! dlq_path a "cur" f /\
    dents t !! dlq_path a "new" f = dents t0 !! dlq_path a "new" f) \/
   content t (dlq_path a "cur" f) = Some data).

Lemma dlq_cur_not_new a f f' : dlq_path a "cur" f <> dlq_path a "new" f'.
Proof. unfold dlq_path. congruence. Qed.

Lemma record_replaced a f data t0 t :
  HasPrefix f "." = false -> evo (fun p => hidden p \/ p = dlq_path a "cur" f) t0 t ->
  dents t !! dlq_path a "cur" f = dents t0 !! dlq_path a "cur" f \/ content t (dlq_path a "cur" f) = Some data ->
  record_inv a f data t0 t.
Proof.
  intros Hf Hev Hc. split; [eapply evo_mono; [|exact Hev]; intros p [?|?]; auto|].
  destruct Hc as [Hc|Hc]; [left|by right]. split; [done|].
  apply (evo_deep _ _ _ _ Hev); [|apply dlq_path_depth]. intros [Hh|E]; [by eapply dlq_path_visible in Hh|].
  by eapply dlq_cur_not_new.
Qed.

Lemma record_hidden a f data t0 t :
  HasPrefix f "." = false -> evo hidden t0 t -> record_inv a f data t0 t.
Proof.
  intros Hf Hev. apply record_replaced; [done|eapply evo_mono; [|exact Hev]; by left|left].
  apply (evo_deep _ _ _ _ Hev); [by apply dlq_path_visible|apply dlq_path_depth].
Qed.

Lemma record_delete_new a f data t0 t i :
  dents t !! dlq_path a "new" f = Some (NFile i) -> record_inv a f data t0 t ->
  content t (dlq_path a "cur" f) = Some data ->
  let t' := set_dents (delete (dlq_path a "new" f)) t in
  record_inv a f data t0 t' /\ content t' (dlq_path a "cur" f) = Some data.
Proof.
  intros Hi [Hev _] Hc t'. assert (content t' (dlq_path a "cur" f) = Some data) as Hc'.
  { unfold content, t' in *. cbn. rewrite lookup_delete_ne; [done|]. intros E. by eapply dlq_cur_not_new. }
  split; [|done]. split; [|by right]. etrans; [exact Hev|].
  eapply evo_mono; [|apply evo_delete; by rewrite Hi]. intros p <-. tauto.
Qed.

Lemma wpi_update I a f box d0 data w :
  plain a = true -> ValidateMessageFilename f = None ->
  (box = "cur" \/ box = "new" /\ content (tr w) (dlq_path a "new" f) = Some d0) ->
  (forall t, record_inv a f data (tr w) t -> I t) ->
  wpi e I (updateRetriedDLQEnvelope r a f (dlq_path a box f) box data) (fun o w' =>
    ctl_eq w w' /\ record_inv a f data (tr w) (tr w') /\
    (o = None -> content (tr w') (dlq_path a "cur" f) = Some data)) w.
Proof.
  intros Ha Hf Hbox HI. pose proof (filename_not_hidden f Hf) as Hhid.
  unfold updateRetriedDLQEnvelope. rewrite !rp_root by done. rewrite dlq_dir_plain by done. wbind.
  assert (forall t, evo (fun _ => False) (tr w) t -> record_inv a f data (tr w) t) as Hmk.
  { intros t Ht. apply record_hidden; [done|]. by apply evo_none_hidden. }
  eapply wpi_mono; [apply wpi_mkdirall; [unfold layout_depth; cbn; lia|]; auto|].
  intros [x|] w1 (Hev1 & _ & Hc1 & _); [wret; split_and!; [done|by auto|done]|].
  set (cur := dlq_path a "cur" f) in *. set (new := dlq_path a "new" f) in *.
  assert (forall t, replaced cur data (tr w1) t -> record_inv a f data (tr w) t) as Hrep.
  { intros t (Hev & Ht & _). apply record_replaced; [done| |].
    - etrans; [eapply evo_mono; [|exact Hev1]; done|]. eapply evo_mono; [|exact Hev]. intros q [[? _]|?]; auto.
    - destruct Ht as [Ht|?]; [right; apply dlq_path_depth|left; etrans; [exact Ht|]|by right]. apply (evo_deep _ _ _ _ Hev1); [tauto|apply dlq_path_depth]. }
  assert (wpi e I (WriteFileAtomic r ["agents"; a; "dlq"; "cur"] f data)
    (fun x w' => replace_post cur data w1 x.2 w') w1) as Hwrite.
  { apply (wpi_WriteFileAtomic e r Hat I ["agents"; a; "dlq"; "cur"]); [by repeat constructor|by apply filename_plain|done|unfold layout_depth; cbn; lia|by auto]. }
  destruct Hbox as [->|[-> Hnew]]; cbn; wbind; (eapply wpi_mono; [exact Hwrite|]);
    intros [p o] w2 (Hc2 & Hr & Ho); pose proof (Hrep _ Hr) as Hr2;
    assert (ctl_eq w w2) as Hcw2 by (by eapply ctl_eq_trans); cbn [snd] in *;
    (destruct o as [x|]; [wret; by split_and!|]).
  - eapply wpi_mono; [apply (wpi_ro e I); [auto with amq|by auto]|].
    intros o w3 [Ht3 Hc3]. rewrite Ht3. split; [by eapply ctl_eq_trans|by auto].
  - destruct (content_file _ _ _ Hnew) as (i & Hi & _).
    assert (dents (tr w2) !! new = Some (NFile i)) as Hi2.
    { rewrite <-Hi, <-(evo_deep _ _ _ new Hev1) by (tauto || apply dlq_path_depth).
      apply (evo_deep _ _ _ _ (proj1 Hr)); [|apply dlq_path_depth].
      intros [[Hh _]|E]; [by eapply dlq_path_visible in Hh|by eapply dlq_cur_not_new]. }
    destruct (record_delete_new a f data (tr w) (tr w2) i Hi2 Hr2 Ho) as [Hdel Hdelc].
    wbind. eapply wpi_mono; [apply wpi_remove_file; [fold new; by rewrite Hi2|by auto|by auto]|].
    intros y w3 (Hc3 & _ & Hy). assert (ctl_eq w w3) as Hcw3 by (by eapply ctl_eq_trans).
    assert (record_inv a f data (tr w) (tr w3) /\ content (tr w3) cur = Some data) as [Hr3 Hcur3].
    { by destruct Hy as [[-> _]|[_ ->]]. }
    assert (wpi e I (if_err x := syncDir r (Dir new) then Ret (Some (Errorf "sync old dlq envelope dir" x))
      else syncDir r ["agents"; a; "dlq"; "cur"]) (fun o w' =>
      ctl_eq w w' /\ record_inv a f data (tr w) (tr w') /\ (o = None -> content (tr w') cur = Some data)) w3) as Hfin.
    { eapply wpi_mono; [apply (wpi_ro e I); [ro_tac|by auto]|].
      intros o w4 [Ht4 Hc4]. rewrite Ht4. split; [by eapply ctl_eq_trans|by auto]. }
    destruct y as [[]|n]; [done|]. destruct (negb _); [wret; by split_and!|done].
Qed.

(** ** Recovering a retained temporary *)

Definition names_ok (t : tree) : Prop := forall p n, dents t !! p = Some n -> Forall (fun c => plain c = true) p.

Lemma children_plain t p : names_ok t -> Forall (fun x => plain x.1 = true) (children t p).
Proof.
  intros Hn. unfold children. apply Forall_fmap, Forall_forall. intros [k n] Hk%list_elem_of_In. cbn.
  apply filter_In in Hk as [Hk%list_elem_of_In%elem_of_map_to_list Hc].
  specialize (Hn _ _ Hk). destruct k as [|c k] using rev_ind; [done|].
  unfold Base. rewrite last_snoc. cbn. apply Forall_app in Hn as [_ Hn]. by inv Hn.
Qed.

Lemma wpi_ReadDir I p w :
  names_ok (tr w) -> I (tr w) -> wpi e I (ReadDir r p) (fun x w' => tr w' = tr w /\ ctl_eq w w' /\
    Forall (fun y => plain y.1 = true) x.1) w.
Proof.
  intros Hn HI. unfold ReadDir.
  apply wpi_ro_bind; [auto with amq|done|]. intros [x|] w1 Ht1 Hc1; [by wret|].
  apply wpi_ro_bind; [ro_tac|by rewrite Ht1|]. intros y w2 Ht2 Hc2. rewrite Ht1 in Ht2.
  assert (ctl_eq w w2) as Hcw2 by (by eapply ctl_eq_trans). destruct y as [h|x]; [|by wret].
  destruct (negb _); [by wret|]. wbind. apply wpi_sys; [wexec; case_match; cbn; by rewrite Ht2|].
  wret. wexec. destruct (e_fault e (tick w2)); cbn; [by wret|]. wret. split; [done|]. split; [done|].
  cbn. rewrite e_order_perm, Ht2. by apply children_plain.
Qed.

Lemma wpi_find_tmp I a f want entries w :
  plain a = true -> Forall (fun y => plain y.1 = true) entries -> I (tr w) ->
  wpi e I (find_tmp r (inbox_dir a "tmp") f want entries) (fun x w' => tr w' = tr w /\ ctl_eq w w' /\
    (x.2 = None -> x.1 = [] \/ exists name, x.1 = box_path a "tmp" name /\
       (name = f \/ HasPrefix name "." = true) /\ content (tr w) x.1 = Some want /\
       t_parent (tr w) x.1 = None)) w.
Proof.
  intros Ha. revert w. induction entries as [|[name k] entries IH]; intros w Hpl HI; cbn [find_tmp].
  { wret. split_and!; try done. by left. }
  apply Forall_cons in Hpl as [Hname Hpl]. cbn in Hname.
  destruct (bool_decide _ || negb _) eqn:Hm; [by apply IH|].
  apply orb_false_iff in Hm as [_ Hm%negb_false_iff]. rewrite inbox_file_plain by done. wbind.
  eapply wpi_mono; [by apply wpi_ReadRegularNoFollow|]. intros [got [x|]] w1 (Ht1 & Hc1 & Hs); [by wret|].
  case_bool_decide as Hg.
  - wret. split_and!; try done. intros _. right. exists name. destruct (Hs eq_refl) as [? ?]. cbn [fst snd] in *.
    subst got. split_and!; try done. revert Hm. unfold attemptTmpMatches. case_bool_decide; [by left|].
    intros Hp. right. apply HasPrefix_spec in Hp as [x ->]. rewrite !string_app_assoc. apply HasPrefix_app.
  - eapply wpi_mono; [apply IH; [done|by rewrite Ht1]|]. rewrite Ht1. intros x w2 (? & ? & ?).
    split; [done|]. split; [by eapply ctl_eq_trans|done].
Qed.

(** ** The invariant of a retry *)

(** [data] is the envelope [env'], rewritten around the message [msg] of the envelope [env]. *)
Definition rewrites (env : DLQEnvelope) (msg data : string) (env' : DLQEnvelope) : Prop :=
  (exists hdr, data = hdr +:+ msg) /\ parseDLQMessage data = inl (env', crlf_to_lf msg) /\
  OriginalFile env' = OriginalFile env /\ ID env' = ID env.

Lemma serialize_rewrites env s msg data :
  envelope_text env = true -> known_state s -> serializeDLQMessage (setRetryState env s) msg = inl data ->
  rewrites env msg data (setRetryState env s).
Proof.
  intros Ht Hs Hser. set (env' := setRetryState env s) in *.
  assert (envelope_text env' = true) as Ht'.
  { apply envelope_text_inv in Ht as (H1 & H2 & H3 & H4 & H5 & H6 & H7 & H8 & H9 & H10).
    unfold envelope_text. cbn [forallb Schema ID OriginalID OriginalFile FailureReason FailureDetail FailureTime
      RetryState SourceDir RetryCount env' setRetryState].
    rewrite H1, H2, H3, H4, H5, H6, H7, H9, H10. by destruct Hs as [->|[->|[->| ->]]]. }
  assert (0 <= RetryCount env')%Z as Hc.
  { unfold serializeDLQMessage, normalizeRetryState in Hser.
    destruct (Z.ltb_spec (RetryCount env') 0); [done|lia]. }
  assert (coherent env') as Hco by (by apply setRetryState_coherent).
  pose proof (normalize_again env' Hco) as Hn.
  destruct (normalizeRetryState env') as [env''|x] eqn:En.
  - destruct Hn as [-> Hw]. split; [|split; [by apply parse_serialize|done]].
    unfold serializeDLQMessage in Hser. rewrite En in Hser. injection Hser as <-.
    exists (frame_start +:+ MarshalIndent (envelope_json env') +:+ frame_end). by rewrite !string_app_assoc.
  - unfold serializeDLQMessage in Hser. by rewrite En in Hser.
Qed.

Section invariant.
Context (a f data0 : string) (env : DLQEnvelope) (msg : string) (force : bool).

Let orig := OriginalFile env.

(** A retry may record and deliver something. *)
Definition retry_ok : Prop :=
  RetryState env <> RetryStateDelivered /\
  (RetryState env = RetryStateReady -> (RetryCount env < MaxRetries)%Z \/ force = true).

(** The places a retry may change. *)
Definition touched (p : path) : Prop :=
  hidden p \/ p = dlq_path a "cur" f \/ p = dlq_path a "new" f \/ p = dest orig a \/ p = box_path a "tmp" orig.

(** The envelope of record is [data] with the retry state of [env'], and the message is not
    in the inbox unless the envelope says that a retry was started. *)
Record retry_at (data : string) (env' : DLQEnvelope) (t0 t : tree) : Prop := {
  ra_evo : evo touched t0 t;
  ra_record : authority a f t = Some data;
  ra_text : (data = data0 /\ env' = env) \/ (retry_ok /\ rewrites env msg data env');
  ra_dest : dents t !! dest orig a = dents t0 !! dest orig a \/
    (retry_ok /\ content t (dest orig a) = Some msg /\ RetryState env' <> RetryStateReady);
}.

Definition retry_inv (t0 t : tree) : Prop := exists data env', retry_at data env' t0 t.

Lemma authority_keep X t t' d :
  evo X t t' -> dents t' !! dlq_path a "cur" f = dents t !! dlq_path a "cur" f ->
  dents t' !! dlq_path a "new" f = dents t !! dlq_path a "new" f ->
  authority a f t = Some d -> authority a f t' = Some d.
Proof.
  intros Hev Hc Hn. unfold authority, content. rewrite Hc, Hn. intros H.
  repeat case_match; try done; eapply lookup_weaken; try done; by eapply evo_data.
Qed.

Lemma authority_cur t d : content t (dlq_path a "cur" f) = Some d -> authority a f t = Some d.
Proof. unfold authority, content. by destruct (dents t !! dlq_path a "cur" f) as [[]|]. Qed.

Context (Hf : ValidateMessageFilename f = None) (Hof : ValidateMessageFilename orig = None).

Lemma dest_not_record : ~ (hidden (dest orig a) \/ dest orig a = dlq_path a "cur" f \/ dest orig a = dlq_path a "new" f).
Proof.
  intros [Hh|[E|E]]; [|by unfold dest, box_path, dlq_path in E..].
  eapply box_path_visible; [|exact Hh]. by apply filename_not_hidden.
Qed.

Lemma record_not_published box : ~ (hidden (dlq_path a box f) \/ dlq_path a box f = dest orig a \/
  dlq_path a box f = box_path a "tmp" orig).
Proof.
  intros [Hh|[E|E]]; [|by unfold dest, box_path, dlq_path in E..].
  eapply dlq_path_visible; [|exact Hh]. by apply filename_not_hidden.
Qed.

(** Rewriting the envelope. *)
Lemma retry_step_record data env' data1 env1 t0 t t' :
  retry_at data env' t0 t -> retry_ok -> rewrites env msg data1 env1 ->
  (dents t !! dest orig a = dents t0 !! dest orig a \/ RetryState env1 <> RetryStateReady) ->
  record_inv a f data1 t t' ->
  retry_inv t0 t' /\ (content t' (dlq_path a "cur" f) = Some data1 -> retry_at data1 env1 t0 t').
Proof.
  intros [Hev Hrec Htxt Hdest] Hok Hrw Hd [Hev' Ht'].
  assert (evo touched t0 t') as Hev1.
  { etrans; [exact Hev|]. eapply evo_mono; [|exact Hev']. unfold touched. tauto. }
  assert (dents t' !! dest orig a = dents t !! dest orig a) as Hsame.
  { apply (evo_deep _ _ _ _ Hev'); [apply dest_not_record|apply box_path_depth]. }
  assert (forall s, content t (dest orig a) = Some s -> content t' (dest orig a) = Some s) as Hcont.
  { intros s. eapply evo_content; [exact Hev'|apply dest_not_record]. }
  assert (content t' (dlq_path a "cur" f) = Some data1 -> retry_at data1 env1 t0 t') as Hnew.
  { intros Hc. split; [done|by apply authority_cur|by right|].
    destruct Hdest as [E|(? & ? & ?)]; [left; congruence|].
    destruct Hd as [E|?]; [left; congruence|right; auto]. }
  split; [|done]. destruct Ht' as [[Hc Hn]|Hc]; [|exists data1, env1; auto].
  exists data, env'. split; [done|exact (authority_keep _ _ _ _ Hev' Hc Hn Hrec)|done|].
  destruct Hdest as [E|(? & ? & ?)]; [left; congruence|right; auto].
Qed.

(** Publishing the message, the envelope saying that a retry was started. *)
Lemma retry_step_publish data env' t0 t t' :
  retry_at data env' t0 t -> retry_ok -> RetryState env' <> RetryStateReady ->
  evo (fun p => hidden p \/ p = dest orig a \/ p = box_path a "tmp" orig) t t' ->
  published_or_same (dest orig a) msg t t' -> retry_at data env' t0 t'.
Proof.
  intros [Hev Hrec Htxt Hdest] Hok Hst Hev' Hpub. split.
  - etrans; [exact Hev|]. eapply evo_mono; [|exact Hev']. unfold touched. tauto.
  - eapply authority_keep; [exact Hev'| | |done];
      (apply (evo_deep _ _ _ _ Hev'); [apply record_not_published|apply dlq_path_depth]).
  - done.
  - destruct Hpub as [E|[Hn Hc]]; [|by right].
    destruct Hdest as [E'|(? & Hc & ?)]; [left; congruence|]. right. split_and!; try done.
    unfold content in *. rewrite E. repeat case_match; try done. eapply lookup_weaken; [done|by eapply evo_data].
Qed.

Context (Ha : plain a = true) (t0 : tree).

(** Where the envelope is and what it says there. *)
Definition in_box (box : string) (t : tree) : Prop :=
  box = "cur" \/ box = "new" /\ exists d, content t (dlq_path a "new" f) = Some d.

Lemma wpi_rewrite data env' data1 env1 box w :
  retry_at data env' t0 (tr w) -> retry_ok -> rewrites env msg data1 env1 ->
  (dents (tr w) !! dest orig a = dents t0 !! dest orig a \/ RetryState env1 <> RetryStateReady) ->
  in_box box (tr w) ->
  wpi e (retry_inv t0) (updateRetriedDLQEnvelope r a f (dlq_path a box f) box data1) (fun o w' =>
    ctl_eq w w' /\ retry_inv t0 (tr w') /\ dents (tr w') !! dest orig a = dents (tr w) !! dest orig a /\
    (forall d, content (tr w) (dest orig a) = Some d -> content (tr w') (dest orig a) = Some d) /\
    (o = None -> retry_at data1 env1 t0 (tr w'))) w.
Proof.
  intros Hra Hok Hrw Hd Hbox.
  pose proof (fun t => retry_step_record data env' data1 env1 t0 (tr w) t Hra Hok Hrw Hd) as Hstep.
  assert (exists d0, box = "cur" \/ box = "new" /\ content (tr w) (dlq_path a "new" f) = Some d0) as [d0 Hbox'].
  { destruct Hbox as [->|[-> [d ?]]]; [exists ""; by left|exists d; by right]. }
  eapply wpi_mono; [apply (wpi_update _ a f box d0 data1); try done; intros t Ht; by apply Hstep|].
  intros o w1 (Hc1 & Hr & Ho). destruct (Hstep _ Hr) as [Hinv Hnew]. split_and!; [done|done| | |by auto].
  - apply (evo_deep _ _ _ _ (proj1 Hr)); [apply dest_not_record|apply box_path_depth].
  - intros d. eapply evo_content; [apply Hr|apply dest_not_record].
Qed.

(** Recovering the message from a retained temporary. *)
Lemma wpi_recover data env' w :
  retry_at data env' t0 (tr w) -> retry_ok -> RetryState env' <> RetryStateReady -> names_ok (tr w) ->
  wpi e (retry_inv t0) (recoverPendingInboxTmp r a orig msg) (fun x w' =>
    ctl_eq w w' /\ retry_at data env' t0 (tr w') /\
    dents (tr w') !! dlq_path a "new" f = dents (tr w) !! dlq_path a "new" f /\ Fs.data (tr w) ⊆ Fs.data (tr w')) w.
Proof.
  intros Hra Hok Hst Hnames. assert (retry_inv t0 (tr w)) as Hi by (by exists data, env').
  unfold recoverPendingInboxTmp. wbind. eapply wpi_mono; [by apply wpi_ReadDir|].
  intros [entries [x|]] w1 (Ht1 & Hc1 & Hpl); [case_match; wret; rewrite Ht1; by split_and!|].
  wbind. eapply wpi_mono; [apply wpi_find_tmp; [done|done|by rewrite Ht1]|].
  intros [tmp [x|]] w2 (Ht2 & Hc2 & Hx); rewrite Ht1 in Ht2, Hx;
    assert (ctl_eq w w2) as Hcw2 by (by eapply ctl_eq_trans); [wret; rewrite Ht2; by split_and!|].
  specialize (Hx eq_refl). cbn [fst] in Hx. case_bool_decide as Ht; [wret; rewrite Ht2; by split_and!|].
  destruct Hx as [?|(name & -> & Hname & Hcont & Hpar)]; [done|].
  rewrite inbox_file_plain by (done || by apply filename_plain).
  set (tmp := box_path a "tmp" name) in *.
  assert (forall t, publish_inv tmp (dest orig a) msg (tr w) t ->
    evo (fun p => hidden p \/ p = dest orig a \/ p = box_path a "tmp" orig) (tr w) t) as Hevp.
  { intros t [Hev _]. eapply evo_mono; [|exact Hev]. intros p [->| ->]; [|tauto].
    destruct Hname as [->|Hh]; [tauto|]. left. by apply box_path_hidden. }
  assert (forall t, publish_inv tmp (dest orig a) msg (tr w) t -> retry_at data env' t0 t) as Hpub.
  { intros t Ht'. eapply retry_step_publish; try done; [by apply Hevp|by apply Ht']. }
  wbind. eapply wpi_mono; [apply (wpi_publish e r Hat); rewrite ?Ht2; try done|].
  { intros t Ht'. exists data, env'. by apply Hpub. }
  rewrite Ht2. intros o w3 (Hc3 & Hp & _). assert (ctl_eq w w3) as Hcw3 by (by eapply ctl_eq_trans).
  assert (dents (tr w3) !! dlq_path a "new" f = dents (tr w) !! dlq_path a "new" f) as Hsame.
  { apply (evo_deep _ _ _ _ (Hevp _ Hp)); [apply record_not_published|apply dlq_path_depth]. }
  pose proof (evo_data _ _ _ (Hevp _ Hp)) as Hdata.
  destruct o as [x|]; [wret; split_and!; by auto|].
  eapply wpi_mono; [apply (wpi_ro e (retry_inv t0)); [ro_tac|exists data, env'; by auto]|].
  intros x w4 [Ht4 Hc4]. rewrite Ht4. split; [by eapply ctl_eq_trans|]. split_and!; by auto.
Qed.

(** Recovery never reports success, and ends with the envelope of record marked delivered or
    as it was. *)
Lemma wpi_finish_pending box present w :
  RetryState env = RetryStatePending \/ RetryState env = RetryStateIndeterminate ->
  envelope_text env = true -> retry_at data0 env t0 (tr w) -> in_box box (tr w) -> names_ok (tr w) ->
  wpi e (retry_inv t0) (finish_pending r a f (dlq_path a box f) box env msg present) (fun o w' =>
    retry_inv t0 (tr w') /\ o <> None) w.
Proof.
  intros Hst Htext Hra Hbox Hnames.
  assert (retry_ok) as Hok.
  { split; [by destruct Hst as [->| ->]|]. by destruct Hst as [->| ->]. }
  assert (RetryState env <> RetryStateReady) as Hnr by (by destruct Hst as [->| ->]).
  assert (forall w, retry_at data0 env t0 (tr w) -> retry_inv t0 (tr w)) as Hinv by (by exists data0, env).
  unfold finish_pending. cbv zeta. fold orig.
  match goal with |- context [match ?s with inl _ => _ | inr _ => Ret (Some (Errorf "serialize recovered dlq envelope" _)) end] =>
    destruct s as [data1|x] eqn:Hser end.
  - pose proof (serialize_rewrites env _ msg data1 Htext (or_intror (or_intror (or_introl eq_refl))) Hser) as Hrw.
    assert (forall w', retry_at data0 env t0 (tr w') -> in_box box (tr w') ->
      wpi e (retry_inv t0) (if_err y := updateRetriedDLQEnvelope r a f (dlq_path a box f) box data1 then
        Ret (Some (Errorf "retry delivery exists but finalize recovered dlq envelope" y)) else
      Ret (Some (Errorf "retry already delivered" (ESent ErrDLQRetryDelivered))))
      (fun o w' => retry_inv t0 (tr w') /\ o <> None) w') as Hfin.
    { intros w' Hra' Hbox'. wbind. eapply wpi_mono; [by eapply wpi_rewrite; eauto|].
      intros [y|] w2 (_ & ? & _); by wret. }
    case_bool_decide; [|by apply Hfin]. wbind. eapply wpi_mono; [by apply wpi_recover|].
    intros [b [y|]] w1 (_ & Hra1 & Hn & Hd); [destruct b; wret; by auto|]. destruct b; [|wret; by auto].
    apply Hfin; [done|]. destruct Hbox as [->|[-> [d Hc]]]; [by left|right]. split; [done|].
    exists d. unfold content in *. rewrite Hn. repeat case_match; try done. by eapply lookup_weaken.
  - case_bool_decide; [|wret; by auto]. wbind. eapply wpi_mono; [by apply wpi_recover|].
    intros [b [y|]] w1 (_ & Hra1 & _); [destruct b; wret; by auto|]. destruct b; wret; by auto.
Qed.

(** How a successful retry ends: the message is delivered and the envelope says so. *)
Definition retried (t : tree) : Prop :=
  content t (dest orig a) = Some msg /\
  exists data', retry_at data' (setRetryState (incr_retry env) RetryStateDelivered) t0 t /\ data' <> data0.

Lemma rewrites_of env1 data env2 :
  OriginalFile env1 = OriginalFile env -> ID env1 = ID env ->
  rewrites env1 msg data env2 -> rewrites env msg data env2.
Proof. intros H1 H2 (? & ? & ? & ?). split_and!; try done; congruence. Qed.

Lemma wpi_redeliver data1 env1 w :
  retry_ok -> RetryState env = RetryStateReady -> parseDLQMessage data0 = inl (env, msg) ->
  env1 = setRetryState (incr_retry env) RetryStatePending -> envelope_text env1 = true ->
  retry_at data1 env1 t0 (tr w) -> dents (tr w) !! dest orig a = dents t0 !! dest orig a ->
  wpi e (retry_inv t0) (redeliver r a f env1 msg) (fun o w' =>
    retry_inv t0 (tr w') /\ (o = None -> retried (tr w'))) w.
Proof.
  intros Hok Hready Hparse Henv1 Htext Hra Hsame.
  assert (RetryState env1 = RetryStatePending) as Hst by (by rewrite Henv1).
  assert (OriginalFile env1 = orig) as Horig by (by rewrite Henv1).
  assert (ID env1 = ID env) as Hid by (by rewrite Henv1).
  assert (setRetryState env1 RetryStateDelivered = setRetryState (incr_retry env) RetryStateDelivered) as Hdel
    by (by rewrite Henv1).
  unfold redeliver. rewrite Horig, Join_dlq by (done || by apply filename_plain).
  unfold DeliverToInbox. wbind. wbind.
  assert (forall t, atomic_for [a] orig msg (tr w) t -> retry_at data1 env1 t0 t) as Hatom.
  { intros t [Hev Hpub]. eapply retry_step_publish; try done; [by rewrite Hst| |by apply Hpub, list_elem_of_here].
    eapply evo_mono; [|exact Hev]. intros p [?|(a' & Ha'%list_elem_of_singleton & ->)]; [tauto|]. subst a'. tauto. }
  eapply wpi_mono; [eapply wpi_inv_mono; [|by apply (wpi_DeliverToInboxes e r Hat)]|].
  { intros t Ht. exists data1, env1. by apply Hatom. }
  intros [m o] w1 [Hat1 Hpost]. pose proof (Hatom _ Hat1) as Hra1.
  assert (retry_inv t0 (tr w1)) as Hinv1 by (by exists data1, env1).
  assert (forall s data2 w', known_state s -> serializeDLQMessage (setRetryState env1 s) msg = inl data2 ->
    retry_at data1 env1 t0 (tr w') ->
    (dents (tr w') !! dest orig a = dents t0 !! dest orig a \/ s <> RetryStateReady) ->
    wpi e (retry_inv t0) (updateRetriedDLQEnvelope r a f (dlq_path a "cur" f) "cur" data2) (fun o w'' =>
      retry_inv t0 (tr w'') /\ (forall d, content (tr w') (dest orig a) = Some d ->
        content (tr w'') (dest orig a) = Some d) /\
      (o = None -> retry_at data2 (setRetryState env1 s) t0 (tr w''))) w') as Hup.
  { intros s data2 w' Hk Hser Hra' Hd. eapply wpi_mono;
      [apply (wpi_rewrite data1 env1 data2 (setRetryState env1 s) "cur"); [done|done| |exact Hd|by left]|].
    - eapply (rewrites_of env1); [done|done|]. by apply serialize_rewrites.
    - by intros o' w'' (_ & ? & _ & ? & ?). }
  destruct o as [err|].
  - destruct Hpost as (_ & ok & Herr & Hex). wret.
    destruct (errors_As_committed err) as [[[fp rc] c]|] eqn:Hcm.
    + destruct (serializeDLQMessage (setRetryState env1 RetryStateDelivered) msg) as [data2|x] eqn:Hser;
        [|wret; by split].
      wbind. eapply wpi_mono; [apply (Hup RetryStateDelivered); try done; [unfold known_state; tauto|by right]|].
      intros [y|] w2 (? & _ & _); wret; by split.
    + assert (ok = []) as ->.
      { destruct Herr as [| ok' b pend D c E|ok' b pend D c E Hr Hc]; [done| |].
        - destruct ok' as [|? [|]]; by simplify_eq/=.
        - unfold is_committed in Hc. change (errors_As_committed (EPartialDelivery D "" pend c)) with (errors_As_committed c) in Hcm.
          by rewrite Hcm in Hc. }
      assert (dents (tr w1) !! dest orig a = dents t0 !! dest orig a) as Hd1.
      { rewrite <-Hsame. apply Hex; [by apply list_elem_of_here|apply not_elem_of_nil]. }
      destruct (serializeDLQMessage (setRetryState env1 RetryStateReady) msg) as [data2|x] eqn:Hser;
        [|wret; by split].
      wbind. eapply wpi_mono; [apply (Hup RetryStateReady); try done; [unfold known_state; tauto|by left]|].
      intros [y|] w2 (? & _ & _); wret; by split.
  - destruct Hpost as (_ & Hcont & _). specialize (Hcont a (list_elem_of_here _ _)). wret.
    destruct (serializeDLQMessage (setRetryState env1 RetryStateDelivered) msg) as [data2|x] eqn:Hser;
      [|wret; by split].
    wbind. eapply wpi_mono; [apply (Hup RetryStateDelivered); try done; [unfold known_state; tauto|by right]|].
    intros [y|] w2 (Hinv2 & Hk & Hra2); wret; (split; [done|]); [done|]. intros _.
    specialize (Hra2 eq_refl). rewrite Hdel in Hra2. split; [by apply Hk|]. exists data2. split; [done|].
    intros E. pose proof (ra_text _ _ _ _ Hra2) as [[_ E']|(_ & _ & Hp & _)].
    + apply (f_equal RetryState) in E'. cbn in E'. by rewrite Hready in E'.
    + rewrite E, Hparse in Hp. injection Hp as E' _. apply (f_equal RetryState) in E'. cbn in E'.
      by rewrite Hready in E'.
Qed.

End invariant.

(** ** The whole operation under the lock *)

Lemma incr_retry_text env : envelope_text env = true ->
  envelope_text (setRetryState (incr_retry env) RetryStatePending) = true.
Proof.
  intros (H1 & H2 & H3 & H4 & H5 & H6 & H7 & H8 & H9 & H10)%envelope_text_inv.
  unfold envelope_text. cbn [forallb Schema ID OriginalID OriginalFile FailureReason FailureDetail FailureTime
    RetryState SourceDir RetryCount setRetryState incr_retry].
  rewrite H1, H2, H3, H4, H5, H6, H7, H9, int64_wrap_range. done.
Qed.

Lemma retry_at_start a f data0 env msg force t0 :
  authority a f t0 = Some data0 -> retry_at a f data0 env msg force data0 env t0 t0.
Proof. intros H. split; [done|done|by left|by left]. Qed.

Lemma retry_at_reconciled a f data0 env msg force t0 d :
  (forall i m, dents t0 !! dlq_path a "new" f <> Some (NDir i m)) ->
  authority a f t0 = Some data0 -> content t0 (dlq_path a "cur" f) = Some d ->
  retry_at a f data0 env msg force data0 env t0 (set_dents (delete (dlq_path a "new" f)) t0).
Proof.
  intros Hnd Hau Hc. rewrite (authority_cur a f t0 d Hc) in Hau. injection Hau as ->. split.
  - eapply evo_mono; [|by apply evo_delete]. intros p <-. unfold touched. tauto.
  - apply authority_cur. unfold content in *. cbn. rewrite lookup_delete_ne; [done|]. intros E.
    by eapply dlq_cur_not_new.
  - by left.
  - left. cbn. by rewrite lookup_delete_ne.
Qed.

(** The part of a retry after the checks. *)
Lemma wpi_retry_start a f data0 env msg force box t0 w :
  ValidateMessageFilename f = None -> ValidateMessageFilename (OriginalFile env) = None -> plain a = true ->
  parseDLQMessage data0 = inl (env, msg) -> envelope_text env = true ->
  RetryState env = RetryStateReady -> retry_ok env force ->
  retry_at a f data0 env msg force data0 env t0 (tr w) -> in_box a f box (tr w) ->
  dents (tr w) !! dest (OriginalFile env) a = dents t0 !! dest (OriginalFile env) a ->
  wpi e (retry_inv a f data0 env msg force t0)
   (let env := setRetryState (incr_retry env) RetryStatePending in
    match serializeDLQMessage env msg with
    | inr x => Ret (Some (Errorf "serialize updated dlq envelope" x))
    | inl updatedData =>
      if_err x := updateRetriedDLQEnvelope r a f (dlq_path a box f) box updatedData then Ret (Some x) else
      redeliver r a f env msg
    end) (fun o w' => retry_inv a f data0 env msg force t0 (tr w') /\
      (o = None -> retried a f data0 env msg force t0 (tr w'))) w.
Proof.
  intros Hf Hof Ha Hparse Htext Hready Hok Hra Hbox Hsame. cbv zeta.
  set (env1 := setRetryState (incr_retry env) RetryStatePending).
  destruct (serializeDLQMessage env1 msg) as [data1|x] eqn:Hser.
  2: { wret. split; [by exists data0, env|done]. }
  assert (rewrites env msg data1 env1) as Hrw.
  { pose proof (incr_retry_text env Htext) as Htext1.
    apply (rewrites_of env msg env1); [done|done|].
    apply (serialize_rewrites env1 RetryStatePending); [done|unfold known_state; tauto|done]. }
  wbind. eapply wpi_mono; [by eapply (wpi_rewrite a f data0 env msg force Hf Hof Ha t0 data0 env data1 env1 box); auto|].
  intros [x|] w1 (_ & Hinv & Hd & _ & Hra1); [wret; by split|].
  apply (wpi_redeliver a f data0 env msg force Hf Hof Ha t0 data1 env1); try done; [by apply incr_retry_text|by auto|congruence].
Qed.

Lemma wpi_retry a f force data0 env msg w :
  plain a = true -> names_ok (tr w) ->
  (is_file (tr w) (dlq_path a "cur" f) -> t_parent (tr w) (dlq_path a "cur" f) = None) ->
  ~ is_dir (tr w) (dlq_path a "new" f) ->
  authority a f (tr w) = Some data0 -> parseDLQMessage data0 = inl (env, msg) -> envelope_text env = true ->
  wpi e (retry_inv a f data0 env msg force (tr w)) (retryFromDLQLocked r a f force) (fun o w' =>
    retry_inv a f data0 env msg force (tr w) (tr w') /\
    (o = None -> RetryState env = RetryStateReady /\ retry_ok env force /\
       retried a f data0 env msg force (tr w) (tr w'))) w.
Proof.
  intros Ha Hnames0 Hroot Hnd Hau Hparse Htext. set (t0 := tr w) in *.
  assert (retry_inv a f data0 env msg force t0 t0) as Hinv0 by (exists data0, env; by apply retry_at_start).
  assert (forall i m, dents t0 !! dlq_path a "new" f <> Some (NDir i m)) as Hnd'.
  { intros i m E. apply Hnd. by exists i, m. }
  unfold retryFromDLQLocked. wbind. eapply wpi_mono; [by apply wpi_FindDLQMessage|].
  intros [[p box] [x|]] w1 (Ht1 & _ & Hx); [wret; by rewrite Ht1|]. destruct Hx as (Hf & -> & Hbox).
  fold t0 in Ht1, Hbox. wbind. eapply wpi_mono; [apply wpi_ReadDLQEnvelope; by rewrite Ht1|].
  intros [[[env' msg']|] [x|]] w2 (Ht2 & _ & Hx); rewrite Ht1 in Ht2; rewrite ?Ht1 in Hx; try done; [wret; by rewrite Ht2| |wret; by rewrite Ht2].
  destruct Hx as (data & Hc & Hp).
  assert (data = data0) as ->.
  { destruct Hbox as [->|[-> Hnf]]; [rewrite (authority_cur _ _ _ _ Hc) in Hau; congruence|].
    unfold authority in Hau. destruct (dents t0 !! dlq_path a "cur" f) as [[i| | |]|] eqn:E; try congruence.
    exfalso. apply Hnf. by exists i. }
  rewrite Hparse in Hp. injection Hp as <- <-.
  wbind. eapply (wpi_mono _ _ _ (fun _ w' => tr w' = t0 \/
    (tr w' = set_dents (delete (dlq_path a "new" f)) t0 /\ box = "cur"))).
  { case_bool_decide as Hb; [|wret; by left]. subst box. wbind. eapply wpi_mono; [eapply wpi_reconcile; rewrite ?Ht2; try done|].
    - by apply filename_plain.
    - exists data0, env. by eapply retry_at_reconciled.
    - rewrite Ht2. intros y w3 (_ & Ht3). wret. destruct Ht3; auto. }
  intros rc w3 Ht3.
  assert (retry_at a f data0 env msg force data0 env t0 (tr w3)) as Hra.
  { destruct Ht3 as [->|[-> ->]]; [by apply retry_at_start|by eapply retry_at_reconciled]. }
  assert (retry_inv a f data0 env msg force t0 (tr w3)) as Hinv by (by exists data0, env).
  assert (in_box a f box (tr w3)) as Hbox3.
  { destruct Hbox as [->|[-> _]]; [by left|]. right. split; [done|].
    destruct Ht3 as [->|[_ ?]]; [by exists data0|done]. }
  assert (names_ok (tr w3)) as Hnames.
  { intros q n. destruct Ht3 as [->|[-> _]]; cbn; [|rewrite lookup_delete_Some; intros [_ H]; revert H];
      intros; by eapply Hnames0. }
  assert (dents (tr w3) !! dest (OriginalFile env) a = dents t0 !! dest (OriginalFile env) a) as Hsame.
  { destruct Ht3 as [->|[-> _]]; cbn; [done|]. by rewrite lookup_delete_ne. }
  destruct rc as [x|]; [wret; by split|].
  destruct (ValidateMessageFilename (OriginalFile env)) as [x|] eqn:Hof; [wret; by split|].
  case_bool_decide as Hdel; [wret; by split|].
  apply wpi_ro_bind; [apply ro_find_original|done|]. intros [pb [x|]] w4 Ht4 _; rewrite <-Ht4 in *; [wret; by split|].
  destruct (bool_decide _ || bool_decide _) eqn:Hpend.
  { apply orb_true_iff in Hpend. rewrite !bool_decide_eq_true in Hpend.
    eapply wpi_mono; [by apply wpi_finish_pending|]. by intros o w5 [? ?]. }
  apply orb_false_iff in Hpend as [Hp1%bool_decide_eq_false Hp2%bool_decide_eq_false].
  destruct (negb _); [wret; by split|].
  assert (RetryState env = RetryStateReady) as Hready.
  { pose proof (co_state _ (parse_coherent _ _ _ Hparse)) as Hk. unfold known_state in Hk. tauto. }
  destruct (Z.leb MaxRetries (RetryCount env) && negb force) eqn:Hmax; [wret; by split|].
  assert (retry_ok env force) as Hok.
  { split; [done|]. intros _. apply andb_false_iff in Hmax as [Hm%Z.leb_gt|Hm%negb_false_iff]; auto. }
  eapply wpi_mono; [by apply (wpi_retry_start a f data0 env msg force box t0)|].
  intros o w5 [? Ho]. split; [done|]. auto.
Qed.

(** ** Under the lock *)

Definition lock_path (a f : string) : path := ["agents"; a; "dlq"; "locks"; f +:+ ".lock"].

Definition lock_evo (a f : string) (t0 t : tree) : Prop :=
  evo (eq (lock_path a f)) t0 t /\ (names_ok t0 -> names_ok t).

Lemma mkdir_prefixes_names t pre rest perm :
  names_ok t -> Forall (fun c => plain c = true) pre -> Forall (fun c => plain c = true) rest ->
  names_ok (mkdir_prefixes t pre rest perm).1.
Proof.
  revert t pre. induction rest as [|c rest IH]; intros t pre Hn Hpre Hr; [done|]. cbn.
  apply Forall_cons in Hr as [Hc Hr].
  assert (Forall (fun c => plain c = true) (pre ++ [c])) as Hpc by (apply Forall_app; split; [done|by constructor]).
  destruct (dents t !! (pre ++ [c])) as [[]|]; try done; apply IH; try done.
  intros p n. cbn. rewrite lookup_insert_Some. intros [[<- _]|[_ H]]; [done|]. by eapply Hn.
Qed.

Lemma lock_plain f : ValidateMessageFilename f = None -> plain (f +:+ ".lock") = true.
Proof.
  intros Hf. pose proof (filename_plain f Hf) as (Hne & _ & _ & Hs)%plain_spec.
  pose proof (filename_not_hidden f Hf) as Hd. destruct f as [|c f]; [done|].
  apply plain_spec. cbn in Hd. split_and!; try done.
  - rewrite string_app_cons. intros [= -> ?]. done.
  - rewrite string_app_cons. intros [= -> ?]. done.
  - by rewrite str_mem_app, Hs.
Qed.

Lemma wpi_plain_sys {A X} I (c : sysop X) (k : X -> prog A) Q w :
  (forall w, tr (exec e c w).2 = tr w) -> I (tr w) ->
  (forall x w', tr w' = tr w -> wpi e I (k x) Q w') -> wpi e I (prog_bind (sys c) k) Q w.
Proof. intros Hc HI Hk. wbind. apply wpi_sys; [by rewrite Hc|]. wret. by apply Hk. Qed.

Lemma wpi_open_create {A} I a f (k : ior handle -> prog A) Q w :
  ValidateHandle a = None -> ValidateMessageFilename f = None -> I (tr w) ->
  (forall x w', lock_evo a f (tr w) (tr w') -> I (tr w') /\ wpi e I (k x) Q w') ->
  wpi e I (prog_bind (sys (SOpenCreate (lock_path a f))) k) Q w.
Proof.
  intros Ha Hf HI Hk. assert (forall w', tr w' = tr w -> lock_evo a f (tr w) (tr w')) as Hrefl.
  { intros w' ->. by split. }
  assert (lock_evo a f (tr w) (tr (exec e (SOpenCreate (lock_path a f)) w).2)) as Hev.
  { cbn. unfold upd. destruct (e_fault e (tick w)) as [ft|]; cbn; [by apply Hrefl|].
    destruct (t_open_create (tr w) (lock_path a f)) as [[h t]|x] eqn:Eo; cbn; [|by apply Hrefl].
    unfold t_open_create in Eo. destruct (t_open (tr w) (lock_path a f)) as [h'|x].
    { destruct (h_kind h'); simplify_eq; by split. }
    destruct x; try done. unfold t_open_excl in Eo. cbn [lock_path] in Eo. fold (lock_path a f) in Eo.
    destruct (t_parent (tr w) (lock_path a f)); [done|].
    destruct (dents (tr w) !! lock_path a f) eqn:Hn; [done|]. simplify_eq. split.
    - by apply evo_add_file.
    - intros Hok p n. cbn. rewrite lookup_insert_Some. intros [[<- _]|[_ H]]; [|by eapply Hok].
      repeat constructor; [by apply handle_plain|by apply lock_plain]. }
  wbind. apply wpi_sys; [by apply (Hk (Er ENOENT))|]. wret. by apply Hk.
Qed.

Lemma wpi_withLock {A} I a f (dflt : A) (fn : DeliveryRoot -> prog (A * option gerr)) (Q : A * option gerr -> world -> Prop) w :
  (forall t, evo (eq (lock_path a f)) (tr w) t -> I t) ->
  (forall x w', evo (eq (lock_path a f)) (tr w) (tr w') -> Q (dflt, Some x) w') ->
  (ValidateHandle a = None -> ValidateMessageFilename f = None ->
   forall r' w1, dr_at r' = [] -> lock_evo a f (tr w) (tr w1) ->
    wpi e I (fn r') (fun x w' => I (tr w') /\ forall w'', tr w'' = tr w' -> Q x w'') w1) ->
  wpi e I (WithDLQEnvelopeLock r a f dflt fn) Q w.
Proof.
  intros HI HQ Hfn. assert (evo (eq (lock_path a f)) (tr w) (tr w)) as Hrefl by done.
  unfold WithDLQEnvelopeLock. destruct (ValidateHandle a) eqn:Ha; [wret; by apply HQ|].
  destruct (ValidateMessageFilename f) eqn:Hf; [wret; by apply HQ|].
  specialize (Hfn eq_refl eq_refl). pose proof (handle_plain a Ha) as Hpa.
  unfold WithPinnedBatch. apply wpi_ro_bind; [auto with amq|by apply HI|].
  intros [x|] w1 Ht1 _; [wret; apply HQ; by rewrite Ht1|].
  apply wpi_plain_sys; [done|apply HI; by rewrite Ht1|]. intros l w2 Ht2. rewrite Ht1 in Ht2.
  set (r' := MkRoot _ _ _ _ _ _). assert (dr_at r' = []) as Hat' by done. generalize dependent r'. intros r' Hat'.
  rewrite (Join_plain ["agents"; a; "dlq"; "locks"]) by (by repeat constructor).
  rewrite Join_under_plain by (repeat constructor; done || by apply lock_plain). cbn [app].
  fold (lock_path a f). rewrite !rp_root by done.
  (* the end of the lease changes nothing *)
  assert (forall (p : prog (A * option gerr)) w', wpi e I p (fun x w' => I (tr w') /\ forall w'', tr w'' = tr w' -> Q x w'') w' ->
    wpi e I (x ← p; _ ← sys (SLeaseEnd l); Ret x) Q w') as Hend.
  { intros p w' Hp. wbind. eapply wpi_mono; [exact Hp|]. intros x w'' [HI'' Hx].
    apply wpi_plain_sys; [done|done|]. intros [] w3 Ht3. wret. by apply Hx. }
  apply Hend. clear Hend.
  assert (forall x w', evo (eq (lock_path a f)) (tr w) (tr w') ->
    I (tr w') /\ forall w'', tr w'' = tr w' -> Q (dflt, Some x) w'') as Hbad.
  { intros x w' Hw'. split; [by apply HI|]. intros w'' E. apply HQ. by rewrite E. }
  wbind. eapply wpi_mono; [apply wpi_mkdirall; [unfold layout_depth; cbn; lia|]|].
  { rewrite Ht2. intros t Ht. apply HI. eapply evo_mono; [|exact Ht]. done. }
  rewrite Ht2. intros o w3 (Hev3 & _ & _ & Ho).
  assert (evo (eq (lock_path a f)) (tr w) (tr w3)) as Hl3 by (eapply evo_mono; [|exact Hev3]; done).
  destruct o as [x|]; [wret; by apply Hbad|]. destruct (Ho eq_refl) as [_ Ht3].
  assert (lock_evo a f (tr w) (tr w3)) as [_ Hn3].
  { split; [done|]. intros Hn. rewrite Ht3. unfold t_mkdirall. destruct (escapes _); [done|].
    apply mkdir_prefixes_names; [done|by constructor|by repeat constructor]. }
  apply (wpi_open_create I a f); [done|done|by apply HI|].
  intros x w4 [Hev4 Hn4]. assert (evo (eq (lock_path a f)) (tr w) (tr w4)) as Hl4 by (by etrans).
  split; [by apply HI|]. destruct x as [h|x]; [|wret; by apply Hbad].
  unfold withExclusiveDLQEnvelopeLock.
  wbind. apply wpi_sys; [cbn; case_match; cbn; by apply HI|]. wret. cbn.
  destruct (e_fault e (tick w4)) as [ft|]; cbn; [wret; by apply Hbad|].
  assert (forall (p : prog (A * option gerr)) w', wpi e I p (fun x w' => I (tr w') /\ forall w'', tr w'' = tr w' -> Q x w'') w' ->
    wpi e I (x ← p; _ ← sys (SFunlock h); Ret x)
      (fun x w' => I (tr w') /\ forall w'', tr w'' = tr w' -> Q x w'') w') as Hend.
  { intros p w' Hp. wbind. eapply wpi_mono; [exact Hp|]. intros x w'' [HI'' Hx].
    apply wpi_plain_sys; [done|done|]. intros [] w5 Ht5. wret. rewrite Ht5. by split. }
  apply Hend. apply wpi_ro_bind; [auto with amq|by apply HI|].
  intros [x|] w5 Ht5 _; cbn in Ht5; [wret; apply Hbad; by rewrite Ht5|].
  apply Hfn; [done|]. rewrite Ht5. split; [done|]. auto.
Qed.

End retry.

(** What RetryFromDLQ of internal/fsq/dlq.go guarantees as a whole, the lock included. *)

(** The state of a retry of the envelope text [data0], which reads as [env] around [msg]: the
    envelope of record is as it was or was rewritten around the same message, and the
    destination in the inbox is as it was, or it has the message and the envelope of record
    says that a retry was started. *)
Definition retry_state (a f data0 : string) (env : DLQEnvelope) (msg : string) (force : bool) (t0 t : tree) : Prop :=
  exists data env', authority a f t = Some data /\
    ((data = data0 /\ env' = env) \/ (retry_ok env force /\ rewrites env msg data env')) /\
    (dents t !! dest (OriginalFile env) a = dents t0 !! dest (OriginalFile env) a \/
     (retry_ok env force /\ content t (dest (OriginalFile env) a) = Some msg /\
      RetryState env' <> RetryStateReady)).

Definition retry_done (a f data0 : string) (env : DLQEnvelope) (msg : string) (force : bool) (t : tree) : Prop :=
  RetryState env = RetryStateReady /\ ((RetryCount env < MaxRetries)%Z \/ force = true) /\
  content t (dest (OriginalFile env) a) = Some msg /\
  exists data', authority a f t = Some data' /\
    rewrites env msg data' (setRetryState (incr_retry env) RetryStateDelivered).

Section lock.
Context (a f data0 : string) (env : DLQEnvelope) (msg : string) (force : bool).

Lemma lock_other t0 t p :
  evo (eq (lock_path a f)) t0 t -> lock_path a f <> p -> (layout_depth < length p)%nat ->
  dents t !! p = dents t0 !! p.
Proof. intros Hev Hne Hl. by apply (evo_deep _ _ _ _ Hev). Qed.

Lemma lock_not_dlq box : box <> "locks" -> lock_path a f <> dlq_path a box f.
Proof. unfold lock_path, dlq_path. congruence. Qed.

Lemma lock_authority t0 t :
  evo (eq (lock_path a f)) t0 t -> authority a f t0 = Some data0 -> authority a f t = Some data0.
Proof.
  intros Hev. apply (authority_keep a f _ _ _ _ Hev);
    (apply lock_other; [done|by apply lock_not_dlq|apply dlq_path_depth]).
Qed.

Lemma retry_inv_state t0 t1 t :
  evo (eq (lock_path a f)) t0 t1 -> retry_inv a f data0 env msg force t1 t ->
  retry_state a f data0 env msg force t0 t.
Proof.
  intros Hev (data & env' & [_ Hau Htxt Hd]). exists data, env'. split; [done|]. split; [done|].
  rewrite <-(lock_other t0 t1 _ Hev); [done|done|apply box_path_depth].
Qed.

Lemma wpi_RetryFromDLQ e r w :
  dr_at r = [] -> wf_tree (tr w) -> ~ is_dir (tr w) (dlq_path a "new" f) ->
  authority a f (tr w) = Some data0 -> parseDLQMessage data0 = inl (env, msg) -> envelope_text env = true ->
  wpi e (retry_state a f data0 env msg force (tr w)) (RetryFromDLQ r a f force) (fun o w' =>
    retry_state a f data0 env msg force (tr w) (tr w') /\
    (o = None -> retry_done a f data0 env msg force (tr w'))) w.
Proof.
  intros Hat Hwf Hnd Hau Hparse Htext.
  assert (forall t, evo (eq (lock_path a f)) (tr w) t -> retry_state a f data0 env msg force (tr w) t) as Hlock.
  { intros t Hev. eapply retry_inv_state; [exact Hev|]. exists data0, env.
    apply retry_at_start. by eapply lock_authority. }
  unfold RetryFromDLQ. wbind.
  apply wpi_withLock; [done|exact Hlock| |].
  { intros x w' Hev. wret. split; [by apply Hlock|done]. }
  intros Ha Hf r' w1 Hat' [Hev Hn]. wbind.
  eapply wpi_mono; [eapply wpi_inv_mono; [|apply (wpi_retry e r' Hat' a f force data0 env msg w1)]|].
  - intros t. by apply retry_inv_state.
  - by apply handle_plain.
  - apply Hn. exact (wf_names _ Hwf).
  - intros [i Hi]. eapply evo_parent; [exact Hev|]. eapply (wf_rooted _ Hwf).
    rewrite <-(lock_other _ _ _ Hev); [exact Hi|by apply lock_not_dlq|apply dlq_path_depth].
  - unfold is_dir. by rewrite (lock_other _ _ _ Hev (lock_not_dlq "new" ltac:(done)) (dlq_path_depth _ _ _)).
  - by eapply lock_authority.
  - done.
  - done.
  - intros o w2 [Hinv Ho]. wret. pose proof (retry_inv_state _ _ _ Hev Hinv) as Hst. split; [done|].
    intros w3 E. wret. cbn. rewrite E. split; [done|]. intros ->. destruct (Ho eq_refl) as (Hready & [_ Hok] & Hc & d & Hra & Hne).
    split; [done|]. split; [by apply Hok|]. split; [done|]. exists d. split; [by eapply ra_record|].
    by destruct (ra_text _ _ _ _ _ _ _ _ _ _ Hra) as [[? _]|[_ ?]].
Qed.

End lock.

(** ** The properties *)

(** C4: A retry is recorded before it is delivered.  Stopped after any of its calls, under any
    I/O failures, the envelope of record still holds the whole message (it is as it was, or
    was rewritten around it), and if the original's place in inbox/new has changed then it
    holds the message and the envelope of record is not in state ready: whoever comes after
    a crash knows that a delivery was started and does not start a second one. *)
Theorem retry_write_ahead e r a f force data0 env msg w :
  dr_at r = [] -> wf_tree (tr w) -> ~ is_dir (tr w) (dlq_path a "new" f) ->
  authority a f (tr w) = Some data0 -> parseDLQMessage data0 = inl (env, msg) -> envelope_text env = true ->
  Forall (fun w' => retry_state a f data0 env msg force (tr w) (tr w')) (trace e (RetryFromDLQ r a f force) w).
Proof. intros. eapply wpi_trace. by apply wpi_RetryFromDLQ. Qed.

Definition retry_env (state : string) (n : Z) : DLQEnvelope :=
  setRetryState (Envelope DLQSchemaVersion "dlq_1" "id-1" "m.md" "parse_error" "" "2024-01-02T03:04:05Z" n ""
    false false "new") state.

Definition retry_text (state : string) (n : Z) : string :=
  match serializeDLQMessage (retry_env state n) "hello" with inl s => s | inr _ => "" end.

Definition retry_world (state : string) (n : Z) : world :=
  sample_world [(dlq_path "bob" "new" "d.md", retry_text state n)].

Lemma retry_write_ahead_witness :
  let w := retry_world RetryStateReady 0 in
  let p := RetryFromDLQ sample_root "bob" "d.md" false in
  length (trace (failing_env 48 EIO) p w) = 71%nat /\
  Forall (fun w' => retry_state "bob" "d.md" (retry_text RetryStateReady 0) (retry_env RetryStateReady 0) "hello"
    false (tr w) (tr w')) (trace (failing_env 48 EIO) p w).
Proof.
  intros w p. split; [vm_compute; reflexivity|].
  apply retry_write_ahead; try (vm_compute; reflexivity).
  - apply wf_treeb_spec. vm_compute. reflexivity.
  - intros (i & m & E). vm_compute in E. discriminate.
Defined.

(** C22: RetryFromDLQ returns without error only when it has done its work: the envelope was
    ready, its retries were not used up (or the caller forced it), the message is in
    inbox/new under its original name, and the envelope of record counts one more retry, is
    marked delivered and still holds the message. *)
Theorem retry_success e r a f force data0 env msg w w' :
  dr_at r = [] -> wf_tree (tr w) -> ~ is_dir (tr w) (dlq_path a "new" f) ->
  authority a f (tr w) = Some data0 -> parseDLQMessage data0 = inl (env, msg) -> envelope_text env = true ->
  run e (RetryFromDLQ r a f force) w = (None, w') -> retry_done a f data0 env msg force (tr w').
Proof.
  intros Hat Hwf Hnd Hau Hp Ht Hrun.
  pose proof (wpi_run e _ _ _ _ (wpi_RetryFromDLQ a f data0 env msg force e r w Hat Hwf Hnd Hau Hp Ht)) as [_ H].
  rewrite Hrun in H. by apply H.
Qed.

Lemma retry_success_witness :
  let w := retry_world RetryStateReady 2 in
  let x := run quiet_env (RetryFromDLQ sample_root "bob" "d.md" false) w in
  retry_done "bob" "d.md" (retry_text RetryStateReady 2) (retry_env RetryStateReady 2) "hello" false (tr x.2).
Proof.
  intros w x. assert (x.1 = None) as Hx by (vm_compute; reflexivity).
  refine (retry_success quiet_env sample_root "bob" "d.md" false (retry_text RetryStateReady 2)
    (retry_env RetryStateReady 2) "hello" w x.2 eq_refl _ _ _ _ _ _).
  - apply wf_treeb_spec. vm_compute. reflexivity.
  - intros (i & m & E). vm_compute in E. discriminate.
  - vm_compute. reflexivity.
  - vm_compute. reflexivity.
  - vm_compute. reflexivity.
  - etransitivity; [exact (surjective_pairing x)|]. rewrite Hx. reflexivity.
Defined.

(** A retry of an envelope that was already delivered, or that used up its retries and is
    not forced, is refused: it returns an error, and at no point is the envelope of record or
    the original's place in the inbox anything but what it was. *)
Theorem retry_refused e r a f force data0 env msg w :
  dr_at r = [] -> wf_tree (tr w) -> ~ is_dir (tr w) (dlq_path a "new" f) ->
  authority a f (tr w) = Some data0 -> parseDLQMessage data0 = inl (env, msg) -> envelope_text env = true ->
  RetryState env = RetryStateDelivered \/
    (RetryState env = RetryStateReady /\ (MaxRetries <= RetryCount env)%Z /\ force = false) ->
  (run e (RetryFromDLQ r a f force) w).1 <> None /\
  Forall (fun w' => authority a f (tr w') = Some data0 /\
    dents (tr w') !! dest (OriginalFile env) a = dents (tr w) !! dest (OriginalFile env) a)
    (trace e (RetryFromDLQ r a f force) w).
Proof.
  intros Hat Hwf Hnd Hau Hp Ht Hno.
  assert (~ retry_ok env force) as Hbad.
  { intros [H1 H2]. destruct Hno as [?|(Hr & Hm & ->)]; [done|]. destruct (H2 Hr); [lia|done]. }
  pose proof (wpi_RetryFromDLQ a f data0 env msg force e r w Hat Hwf Hnd Hau Hp Ht) as Hw. split.
  - apply wpi_run in Hw as [_ Hw]. intros E. destruct (Hw E) as (Hr & Hc & _). apply Hbad.
    split; [|done]. rewrite Hr. done.
  - apply wpi_trace in Hw. eapply Forall_impl; [exact Hw|]. intros w' (data & env' & Hd & Htxt & Hdest).
    destruct Htxt as [[-> _]|[? _]]; [|done]. split; [done|]. by destruct Hdest as [?|[? _]].
Qed.

Lemma retry_refused_witness :
  let w := retry_world RetryStateReady 3 in
  (run quiet_env (RetryFromDLQ sample_root "bob" "d.md" false) w).1 <> None.
Proof.
  intros w.
  refine (proj1 (retry_refused quiet_env sample_root "bob" "d.md" false (retry_text RetryStateReady 3)
    (retry_env RetryStateReady 3) "hello" w eq_refl _ _ _ _ _ _)).
  - apply wf_treeb_spec. vm_compute. reflexivity.
  - intros (i & m & E). vm_compute in E. discriminate.
  - vm_compute. reflexivity.
  - vm_compute. reflexivity.
  - vm_compute. reflexivity.
  - right. split; [reflexivity|]. split; [cbn; unfold MaxRetries; lia|reflexivity].
Defined.
