(* ===== verification/Receipt.v ===== *)
(** Delivery receipts: internal/receipt/receipt.go. *)
From S2P Require Import Prelude GoStr GoSort GoTime GoPath Json JsonFacts JsonStruct GoErr Fs Wp Names DeliveryRoot.
From S2P Require Ambient Format.

Definition StageDrained : string := "drained".
Definition StageDLQ : string := "dlq".

Record Receipt := MkReceipt {
  Schema : Z;
  MsgID : string;
  Thread : string;
  Sender : string;
  Consumer : string;
  Stage : string;
  EmittedAt : string;
  Detail : string;
}.

Definition receipt_fields : list string :=
  ["schema"; "msg_id"; "thread"; "sender"; "consumer"; "stage"; "emitted_at"; "detail"].

Definition receipt_json (r : Receipt) : json :=
  JObj ([("schema", to_json (Schema r)); ("msg_id", to_json (MsgID r))] ++
        opt_member "thread" (to_json (Thread r)) (bool_decide (Thread r = "")) ++
        [("sender", to_json (Sender r)); ("consumer", to_json (Consumer r)); ("stage", to_json (Stage r));
         ("emitted_at", to_json (EmittedAt r))] ++
        opt_member "detail" (to_json (Detail r)) (bool_decide (Detail r = "")) ++ []).

Definition receipt_of_json (j : json) : option Receipt :=
  match j with
  | JNull => Some (MkReceipt 0 "" "" "" "" "" "" "")
  | JObj l =>
    let get {A} `{JsonField A} := @get A _ receipt_fields l in
    a1 ← get "schema" 0%Z; a2 ← get "msg_id" ""; a3 ← get "thread" ""; a4 ← get "sender" "";
    a5 ← get "consumer" ""; a6 ← get "stage" ""; a7 ← get "emitted_at" ""; a8 ← get "detail" "";
    Some (MkReceipt a1 a2 a3 a4 a5 a6 a7 a8)
  | _ => None
  end.

Definition New (msgID thread sender consumer stage detail : string) : prog Receipt :=
  now ← sys SNow;
  Ret (MkReceipt Format.CurrentSchema msgID thread sender consumer stage (Format_RFC3339Nano now) detail).

Definition receipt_name (msgID consumer stage : string) : string :=
  msgID +:+ "__" +:+ consumer +:+ "__" +:+ stage +:+ ".json".

Definition filename (r : Receipt) : string := receipt_name (MsgID r) (Consumer r) (Stage r).

Definition Receipt_Marshal (r : Receipt) : string := MarshalIndent (receipt_json r) +:+ LF.

Definition parseReceipt (data : string) : Receipt + gerr :=
  match j ← Unmarshal data; receipt_of_json j with
  | Some r => inl r
  | None => inr (EMsg "parse receipt")
  end.

(** ** Writing *)

Definition Emit (root : path) (r : Receipt) : prog (option gerr) :=
  x ← Ambient.WriteFileAtomic (AgentReceipts root (Consumer r)) (filename r) (Receipt_Marshal r);
  match x.2 with
  | Some e => Ret (Some (Errorf "receipt write" e))
  | None => Ret None
  end.

Definition receipts_dir (consumer : string) : path := Join ["agents"; consumer; "receipts"].

Definition EmitDeliveryRoot (root : DeliveryRoot) (r : Receipt) : prog (option gerr) :=
  x ← WriteFileAtomic root (receipts_dir (Consumer r)) (filename r) (Receipt_Marshal r);
  match x.2 with
  | Some e => Ret (Some (Errorf "receipt write" e))
  | None => Ret None
  end.

(** ** Reading *)

Definition parsed (x : string * option gerr) : option Receipt * option gerr :=
  match x with
  | (_, Some e) => (None, Some e)
  | (data, None) => match parseReceipt data with inl r => (Some r, None) | inr e => (None, Some e) end
  end.

Definition Read (p : path) : prog (option Receipt * option gerr) :=
  x ← Ambient.ReadRegularNoFollow p; Ret (parsed x).

Definition ReadDeliveryRoot (root : DeliveryRoot) (p : path) : prog (option Receipt * option gerr) :=
  x ← ReadRegularNoFollow root p; Ret (parsed x).

(** ** Waiting *)

(** The polling loop, [fuel] rounds of it: [None] when it is still waiting.  Sleeping between
    two rounds is no call of its own; others run between any two calls. *)
Fixpoint poll (fuel : nat) (attempt : prog (option Receipt * option gerr)) (deadline : option Z)
  : prog (option (option Receipt * option gerr)) :=
  match fuel with
  | O => Ret None
  | S fuel' =>
    x ← attempt;
    match x with
    | (r, None) => Ret (Some (r, None))
    | (_, Some err) =>
      if negb (os_IsNotExist err) then Ret (Some (None, Some err)) else
      match deadline with
      | None => poll fuel' attempt deadline
      | Some d =>
        now ← sys SNow;
        if Z.ltb d now then Ret (Some (None, Some (ESent ErrDeadlineExceeded)))
        else poll fuel' attempt deadline
      end
    end
  end.

Definition wait_deadline (timeout : Z) : prog (option Z) :=
  if Z.ltb 0 timeout then now ← sys SNow; Ret (Some (now + timeout)%Z) else Ret None.

Definition WaitFor (fuel : nat) (root : path) (msgID consumer stage : string) (timeout : Z)
  : prog (option (option Receipt * option gerr)) :=
  let p := Join_under (AgentReceipts root consumer) [receipt_name msgID consumer stage] in
  deadline ← wait_deadline timeout;
  poll fuel (Read p) deadline.

Definition WaitForDeliveryRoot (fuel : nat) (root : DeliveryRoot) (msgID consumer stage : string) (timeout : Z)
  : prog (option (option Receipt * option gerr)) :=
  let p := Join ["agents"; consumer; "receipts"; receipt_name msgID consumer stage] in
  deadline ← wait_deadline timeout;
  poll fuel (ReadDeliveryRoot root p) deadline.

(** ** Listing *)

Record ListFilter := MkFilter { fl_MsgID : string; fl_Consumer : string; fl_Stage : string }.

(** The file names that List opens. *)
Definition name_matches (f : ListFilter) (name : string) : bool :=
  HasSuffix name ".json" &&
  (bool_decide (fl_MsgID f = "") || HasPrefix name (fl_MsgID f +:+ "__")) &&
  (bool_decide (fl_Stage f = "") || HasSuffix name ("__" +:+ fl_Stage f +:+ ".json")) &&
  (bool_decide (fl_Consumer f = "") || Contains name ("__" +:+ fl_Consumer f +:+ "__")).

Fixpoint read_matching (dir : path) (f : ListFilter) (entries : list (string * kind)) : prog (list Receipt) :=
  match entries with
  | [] => Ret []
  | (name, k) :: rest =>
    if bool_decide (k = KDir) || negb (name_matches f name) then read_matching dir f rest else
    x ← Read (Join_under dir [name]);
    more ← read_matching dir f rest;
    match x with
    | (Some r, None) => Ret (r :: more)
    | _ => Ret more
    end
  end.

Definition List_ `{SortSlice} (root : path) (agent : string) (f : ListFilter)
  : prog (list Receipt * option gerr) :=
  let dir := AgentReceipts root agent in
  x ← Ambient.os_ReadDir dir;
  match x with
  | (_, Some e) => if os_IsNotExist e then Ret ([], None) else Ret ([], Some e)
  | (entries, None) =>
    receipts ← read_matching dir f entries;
    Ret (sort_slice (fun a b => str_ltb (EmittedAt a) (EmittedAt b)) receipts, None)
  end.
