(* ===== verification/ReceiptFacts.v ===== *)
(** What receipts guarantee: internal/receipt. *)
From S2P Require Import Prelude GoStr GoSort GoTime GoPath Json JsonFacts JsonStruct GoErr Fs Wp FsFacts Names DeliveryRoot DeliveryRootFacts AtomicFacts Sample AmbientFacts Delivery Receipt.

(** ** The text *)

Definition receipt_text (r : Receipt) : bool :=
  forallb utf8_valid [MsgID r; Thread r; Sender r; Consumer r; Stage r; EmittedAt r; Detail r] &&
  int64_range (Schema r).

Lemma receipt_text_inv r : receipt_text r = true ->
  utf8_valid (MsgID r) = true /\ utf8_valid (Thread r) = true /\ utf8_valid (Sender r) = true /\
  utf8_valid (Consumer r) = true /\ utf8_valid (Stage r) = true /\ utf8_valid (EmittedAt r) = true /\
  utf8_valid (Detail r) = true /\ int64_range (Schema r) = true.
Proof. unfold receipt_text. cbn. rewrite !andb_true_iff. tauto. Qed.

Definition receipt_members (r : Receipt) : list (string * json) :=
  match receipt_json r with JObj l => l | _ => [] end.

Lemma receipt_json_back r : receipt_text r = true -> receipt_of_json (receipt_json r) = Some r.
Proof.
  intros (H1 & H2 & H3 & H4 & H5 & H6 & H7 & H8)%receipt_text_inv.
  assert (let get {A} `{JsonField A} := @get A _ receipt_fields (receipt_members r) in
    get "schema" 0%Z = Some (Schema r) /\ get "msg_id" "" = Some (MsgID r) /\ get "thread" "" = Some (Thread r) /\
    get "sender" "" = Some (Sender r) /\ get "consumer" "" = Some (Consumer r) /\ get "stage" "" = Some (Stage r) /\
    get "emitted_at" "" = Some (EmittedAt r) /\ get "detail" "" = Some (Detail r)) as Hg.
  { unfold receipt_members, receipt_json. cbv zeta. cbn [app].
    split_and!; get_field; try done; by intros E%bool_decide_eq_true. }
  cbv zeta in Hg. change (receipt_json r) with (JObj (receipt_members r)). unfold receipt_of_json. cbv zeta.
  destruct Hg as (-> & -> & -> & -> & -> & -> & -> & ->). by destruct r.
Qed.

Lemma receipt_json_wf r : receipt_text r = true -> wf_json (receipt_json r) = true.
Proof.
  intros (H1 & H2 & H3 & H4 & H5 & H6 & H7 & H8)%receipt_text_inv.
  change (wf_members (receipt_members r) = true).
  unfold receipt_members, receipt_json. cbn [app]. wf_fields. done.
Qed.

Lemma Unmarshal_line j : wf_json j = true -> Unmarshal (MarshalIndent j +:+ LF) = Some j.
Proof. intros Hwf. unfold Unmarshal. by rewrite Decode_MarshalIndent. Qed.

Lemma parse_receipt r : receipt_text r = true -> parseReceipt (Receipt_Marshal r) = inl r.
Proof.
  intros Ht. unfold parseReceipt, Receipt_Marshal. rewrite Unmarshal_line by (by apply receipt_json_wf).
  cbn [mbind option_bind]. by rewrite receipt_json_back.
Qed.

(** ** Emitting *)

Definition receipt_path (r : Receipt) : path := ["agents"; Consumer r; "receipts"; filename r].

Lemma wpi_Emit e root I r w :
  dr_at root = [] -> plain (Consumer r) = true -> plain (filename r) = true -> HasPrefix (filename r) "." = false ->
  (forall t, replaced (receipt_path r) (Receipt_Marshal r) (tr w) t -> I t) ->
  wpi e I (EmitDeliveryRoot root r) (fun o w' => replaced (receipt_path r) (Receipt_Marshal r) (tr w) (tr w') /\
    (o = None -> content (tr w') (receipt_path r) = Some (Receipt_Marshal r)) /\ ctl_eq w w') w.
Proof.
  intros Hat Hc Hf Hd HI. unfold EmitDeliveryRoot, receipts_dir. rewrite Join_plain by (by repeat constructor). wbind.
  eapply wpi_mono; [apply (wpi_WriteFileAtomic e root Hat I ["agents"; Consumer r; "receipts"]); try done|].
  - by repeat constructor.
  - unfold layout_depth. cbn. lia.
  - intros [p [x|]] w' (Hcw & Hr & Hx); wret; by split.
Qed.

(** C25: Emitting a receipt puts the receipt file in place as a whole: stopped after any call,
    under any I/O failures, a receipt file that was there is as it was or has the whole of the
    new text, and where there was none there is none or the whole of it; and when
    EmitDeliveryRoot returns without error the file has the new text, which reads back as the
    very receipt that was emitted. *)
Theorem receipt_emitted e root r w :
  dr_at root = [] -> plain (Consumer r) = true -> plain (filename r) = true -> HasPrefix (filename r) "." = false ->
  receipt_text r = true ->
  Forall (fun w' =>
    (forall d, content (tr w) (receipt_path r) = Some d ->
      content (tr w') (receipt_path r) = Some d \/ content (tr w') (receipt_path r) = Some (Receipt_Marshal r)) /\
    (dents (tr w) !! receipt_path r = None ->
      content (tr w') (receipt_path r) = None \/ content (tr w') (receipt_path r) = Some (Receipt_Marshal r)))
    (trace e (EmitDeliveryRoot root r) w) /\
  ((run e (EmitDeliveryRoot root r) w).1 = None ->
   exists data, content (tr (run e (EmitDeliveryRoot root r) w).2) (receipt_path r) = Some data /\
     parseReceipt data = inl r).
Proof.
  intros Hat Hc Hf Hd Ht.
  pose proof (fun I => wpi_Emit e root I r w Hat Hc Hf Hd) as Hw. split.
  - specialize (Hw _ (fun t H => H)). apply wpi_trace in Hw. eapply Forall_impl; [exact Hw|].
    intros w'. apply replaced_content.
  - specialize (Hw _ (fun _ _ => Logic.I)). apply wpi_run in Hw as [_ Hw]. intros E.
    exists (Receipt_Marshal r). split; [by apply Hw|]. by apply parse_receipt.
Qed.

Definition sample_receipt : Receipt :=
  MkReceipt 1 "id-1" "t" "alice" "bob" StageDrained "2024-01-02T03:04:05Z" "".

Lemma receipt_emitted_witness :
  let x := run quiet_env (EmitDeliveryRoot sample_root sample_receipt) (sample_world []) in
  exists data, content (tr x.2) (receipt_path sample_receipt) = Some data /\ parseReceipt data = inl sample_receipt.
Proof.
  intros x. refine (proj2 (receipt_emitted quiet_env sample_root sample_receipt (sample_world []) _ _ _ _ _) _);
    vm_compute; reflexivity.
Defined.

(** ** Waiting *)

(** Every call advances the count of calls. *)
Lemma exec_tick {X} e (c : sysop X) w : tick (exec e c w).2 = S (tick w).
Proof.
  destruct c; cbn; unfold upd_unit, upd, obs; try done;
    repeat (case_match; cbn); simplify_eq; done.
Qed.

Lemma run_tick {A} e (p : prog A) w : (tick w <= tick (run e p w).2)%nat.
Proof.
  revert w; induction p as [a|X c k IH]; intros w; [done|]. cbn.
  pose proof (exec_tick e c w) as Ht. destruct (exec e c w) as [r w']. cbn in Ht.
  specialize (IH r w'). lia.
Qed.

(** Once the clock is past the deadline the loop does not go round again. *)
Lemma poll_ends e attempt d (T : nat) fuel w :
  (forall n, (T <= n)%nat -> (d < e_clock e n)%Z) -> (T < fuel + tick w)%nat -> (0 < fuel)%nat ->
  exists x, (run e (poll fuel attempt (Some d)) w).1 = Some x.
Proof.
  intros Hclock. revert w. induction fuel as [|fuel IH]; intros w HT Hf; [lia|]. cbn [poll].
  rewrite run_mbind. pose proof (run_tick e attempt w) as Ht.
  destruct (run e attempt w) as [[r [err|]] w1]; cbn in Ht |- *; [|by eexists].
  destruct (os_IsNotExist err); cbn [negb]; [|by eexists].
  rewrite run_mbind, run_sys. cbn [exec fst snd].
  destruct (Z.ltb_spec d (e_clock e (tick w1))) as [Hd|Hd]; [by eexists|].
  assert (tick w1 < T)%nat as Hlt.
  { destruct (le_lt_dec T (tick w1)) as [Hle|]; [|done]. specialize (Hclock _ Hle). lia. }
  apply IH; cbn; lia.
Qed.

Definition wait_path (msgID consumer stage : string) : path :=
  ["agents"; consumer; "receipts"; receipt_name msgID consumer stage].

(** What the loop returned, it read. *)
Lemma wpi_poll e root p fuel deadline w :
  dr_at root = [] ->
  wpi e (fun t => t = tr w) (poll fuel (ReadDeliveryRoot root p) deadline) (fun x w' => tr w' = tr w /\
    forall r, x = Some (Some r, None) -> exists data, content (tr w) p = Some data /\ parseReceipt data = inl r) w.
Proof.
  intros Hat. remember (tr w) as t eqn:Et. revert w Et. induction fuel as [|fuel IH]; intros w Et; cbn [poll].
  { wret. by split. }
  wbind. unfold ReadDeliveryRoot. wbind.
  eapply wpi_mono; [by apply (wpi_ReadRegularNoFollow e (fun t' => t' = t))|].
  intros [data [err|]] w1 (Ht1 & _ & Hs); wret; rewrite <-Et in *.
  - cbn. destruct (os_IsNotExist err); cbn [negb]; [|wret; by split].
    destruct deadline as [d|]; [|by apply IH]. wbind. apply wpi_sys; [by cbn|]. wret. cbn.
    destruct (Z.ltb d _); [wret; by split|]. by apply IH.
  - destruct (Hs eq_refl) as [Hc _]. cbn in Hc. cbn [parsed].
    destruct (parseReceipt data) as [r|err] eqn:Ep.
    + wret. split; [done|]. intros r' [= <-]. by exists data.
    + cbn. destruct (os_IsNotExist err); cbn [negb]; [|wret; by split].
      destruct deadline as [d|]; [|by apply IH]. wbind. apply wpi_sys; [by cbn|]. wret. cbn.
      destruct (Z.ltb d _); [wret; by split|]. by apply IH.
Qed.

(** C26: Waiting for a receipt with a timeout ends: when the clock is past the deadline after
    at most [T] calls, the loop returns within [T + 1] rounds, whatever else fails; and if it
    returns a receipt, that receipt is what the receipt's own file says. *)
Theorem receipt_wait_ends e root msgID consumer stage timeout (T fuel : nat) w :
  dr_at root = [] -> plain consumer = true -> plain (receipt_name msgID consumer stage) = true ->
  (0 < timeout)%Z -> (forall n, (T <= n)%nat -> (e_clock e (tick w) + timeout < e_clock e n)%Z) -> (T < fuel)%nat ->
  exists x, (run e (WaitForDeliveryRoot fuel root msgID consumer stage timeout) w).1 = Some x /\
    forall r, x = (Some r, None) -> exists data,
      content (tr w) (wait_path msgID consumer stage) = Some data /\ parseReceipt data = inl r.
Proof.
  intros Hat Hc Hn Ht Hclock Hf. unfold WaitForDeliveryRoot, wait_deadline.
  rewrite (proj2 (Z.ltb_lt 0 timeout)) by done. rewrite Join_plain by (by repeat constructor).
  rewrite run_mbind, run_mbind, run_sys. cbn [exec fst snd run].
  destruct (poll_ends e (ReadDeliveryRoot root (wait_path msgID consumer stage)) (e_clock e (tick w) + timeout)
    T fuel (bump w) Hclock) as [x Hx]; [cbn; lia|lia|].
  exists x. split; [exact Hx|]. intros r ->.
  pose proof (wpi_run e _ _ _ _ (wpi_poll e root (wait_path msgID consumer stage) fuel
    (Some (e_clock e (tick w) + timeout)%Z) (bump w) Hat)) as [_ H]. by apply H.
Qed.

Lemma receipt_wait_ends_witness :
  exists x, (run quiet_env (WaitForDeliveryRoot 7 sample_root "id-1" "bob" StageDrained 5) (sample_world [])).1 = Some x.
Proof.
  destruct (receipt_wait_ends quiet_env sample_root "id-1" "bob" StageDrained 5 6 7 (sample_world [])) as (x & Hx & _).
  - reflexivity.
  - reflexivity.
  - reflexivity.
  - lia.
  - intros n Hn. cbn. lia.
  - lia.
  - exists x. exact Hx.
Defined.

(** ** Listing *)

Lemma Contains_inner a b c : Contains (a +:+ b +:+ c) b = true.
Proof. apply Contains_app. Qed.

(** The receipt has what the filter asks for. *)
Definition wanted (f : ListFilter) (r : Receipt) : Prop :=
  (fl_MsgID f = "" \/ fl_MsgID f = MsgID r) /\ (fl_Consumer f = "" \/ fl_Consumer f = Consumer r) /\
  (fl_Stage f = "" \/ fl_Stage f = Stage r).

Lemma wanted_matches f r : wanted f r -> name_matches f (filename r) = true.
Proof.
  intros (H1 & H2 & H3). unfold name_matches, filename, receipt_name. rewrite !andb_true_iff, !orb_true_iff.
  split_and!.
  - rewrite <-!string_app_assoc. apply HasSuffix_app.
  - destruct H1 as [->| ->]; [left; by apply bool_decide_eq_true|right].
    rewrite <-(string_app_assoc (MsgID r) "__"). apply HasPrefix_app.
  - destruct H3 as [->| ->]; [left; by apply bool_decide_eq_true|right].
    rewrite <-!string_app_assoc. rewrite (string_app_assoc _ (Stage r) ".json").
    rewrite (string_app_assoc _ "__" (Stage r +:+ ".json")). rewrite <-(string_app_assoc "__" (Stage r) ".json"). apply HasSuffix_app.
  - destruct H2 as [->| ->]; [left; by apply bool_decide_eq_true|right].
    pose proof (Contains_app (MsgID r) ("__" +:+ Consumer r +:+ "__") (Stage r +:+ ".json")) as H.
    by rewrite !string_app_assoc in H.
Qed.

Lemma ro_Read p : ro (Read p).
Proof.
  unfold Read, Ambient.ReadRegularNoFollow, Ambient.OpenRegularNoFollow. ro_tac; repeat case_match; ro_tac.
Qed.

Lemma live_Read e p i s w :
  healthy e -> p <> [] -> t_parent (tr w) p = None -> dents (tr w) !! p = Some (NFile i) -> data (tr w) !! i = Some s ->
  (run e (Read p) w).1 = parsed (s, None).
Proof.
  intros Hnf Hp Hpar Hi Hd. unfold Read, Ambient.ReadRegularNoFollow. rewrite !run_mbind.
  rewrite (live_OpenRegularNoFollow e p i w) by done. cbn [fst snd]. live. by rewrite Hd.
Qed.

Lemma read_matching_ro dir f entries : ro (read_matching dir f entries).
Proof.
  induction entries as [|[name k] entries IH]; [done|]. cbn [read_matching]. destruct (_ || _); [done|].
  apply ro_bind; [apply ro_Read|]. intros x. apply ro_bind; [done|]. intros more. by repeat case_match.
Qed.

(** What is listed was read from a file whose name matches. *)
Lemma read_matching_complete e dir f entries name k i s r w :
  healthy e -> (name, k) ∈ entries -> k <> KDir -> name_matches f name = true ->
  let p := Join_under dir [name] in
  p <> [] -> t_parent (tr w) p = None -> dents (tr w) !! p = Some (NFile i) -> data (tr w) !! i = Some s ->
  parseReceipt s = inl r -> r ∈ (run e (read_matching dir f entries) w).1.
Proof.
  intros Hnf Hin Hk Hm p Hp Hpar Hi Hd Hparse. revert w Hpar Hi Hd.
  induction entries as [|[n k'] entries IH]; intros w Hpar Hi Hd; [by apply elem_of_nil in Hin|].
  cbn [read_matching]. apply elem_of_cons in Hin as [[= <- <-]|Hin].
  - rewrite bool_decide_eq_false_2, Hm by done. cbn [negb orb]. rewrite run_mbind.
    rewrite (live_Read e _ i s) by done. cbn [parsed]. rewrite Hparse. rewrite run_mbind. cbn. by left.
  - destruct (bool_decide (k' = KDir) || negb (name_matches f n)); [by apply IH|].
    destruct (run_ro e _ w (ro_Read (Join_under dir [n]))) as [Ht _].
    rewrite run_mbind, run_mbind. specialize (IH Hin (run e (Read (Join_under dir [n])) w).2).
    rewrite Ht in IH. specialize (IH Hpar Hi Hd).
    destruct (run e (Read (Join_under dir [n])) w).1 as [[r'|] [x|]]; cbn; [done|by right|done|done].
Qed.

(** Listing receipts finds them: when no call fails, List returns no error for an agent
    whose receipts directory exists, the receipts it returns are in the order of their emission
    times, and among them is every receipt that was emitted into that directory and has the
    message, consumer and stage the filter asks for. *)
Theorem receipt_listed `{SortSlice} e agent f w :
  healthy e -> plain agent = true -> dirs_upto (tr w) ["agents"; agent; "receipts"] ->
  exists l w', run e (List_ [] agent f) w = ((l, None), w') /\
    StronglySorted (fun a b => str_ltb (EmittedAt b) (EmittedAt a) = false) l /\
    forall r, wanted f r -> receipt_text r = true -> plain (filename r) = true ->
      content (tr w) ["agents"; agent; "receipts"; filename r] = Some (Receipt_Marshal r) -> r ∈ l.
Proof.
  intros Hnf Ha Hdir. unfold List_. set (dir := AgentReceipts [] agent).
  assert (dir = ["agents"; agent; "receipts"]) as Edir.
  { unfold dir. apply (Join_plain ["agents"; agent; "receipts"]). by repeat constructor. }
  generalize dependent dir. intros dir Edir. rewrite Edir. clear Edir dir.
  set (dir := ["agents"; agent; "receipts"]) in *.
  assert (escapes dir = false) as Hesc.
  { apply plain_escapes. by repeat constructor. }
  destruct (dirs_upto_node _ _ (ltac:(done) : dir <> []) Hesc Hdir) as (j & m & Hnode).
  rewrite run_mbind. rewrite (live_os_ReadDir e dir j m w Hnf Hnode). cbn [fst snd]. rewrite run_mbind.
  set (entries := Ambient.sort_entries _). set (w1 := bump (bump w)).
  pose proof (run_ro e _ w1 (read_matching_ro dir f entries)) as [Ht _].
  destruct (run e (read_matching dir f entries) w1) as [l w2] eqn:Hrun. cbn in *.
  eexists _, _. split; [reflexivity|]. split.
  - apply (sort_slice_sorted (fun _ => True)); [|by apply Forall_true].
    apply (weak_order_key _ _ EmittedAt str_weak_order).
  - intros r Hw Htext Hpf Hc. rewrite sort_slice_perm. apply content_file in Hc as (i & Hi & Hd).
    assert (l = (run e (read_matching dir f entries) w1).1) as -> by (by rewrite Hrun).
    assert (Join_under dir [filename r] = dir ++ [filename r]) as Ep.
    { apply Join_under_plain; by repeat constructor. }
    eapply (read_matching_complete e dir f entries (filename r) KFile i); rewrite ?Ep; try done.
    + unfold entries. rewrite sort_entries_perm, e_order_perm. by apply (children_elem _ dir _ (NFile i)).
    + by apply wanted_matches.
    + apply dirs_upto_parent; [done|]. apply plain_escapes. by repeat constructor.
    + by apply parse_receipt.
Qed.

Lemma receipt_listed_witness :
  let w := sample_world [(receipt_path sample_receipt, Receipt_Marshal sample_receipt)] in
  exists l w', run quiet_env (List_ [] "bob" (MkFilter "id-1" "" StageDrained)) w = ((l, None), w') /\ sample_receipt ∈ l.
Proof.
  intros w. destruct (receipt_listed quiet_env "bob" (MkFilter "id-1" "" StageDrained) w) as (l & w' & Hrun & _ & Hl).
  - done.
  - reflexivity.
  - apply dirs_uptob_spec. vm_compute. reflexivity.
  - exists l, w'. split; [exact Hrun|]. apply Hl.
    + split_and!; [by right|by left|by right].
    + vm_compute. reflexivity.
    + vm_compute. reflexivity.
    + vm_compute. reflexivity.
Defined.

(** The file names alone do not decide: a filter on a consumer also opens the receipt of a
    consumer whose handle ends with two underscores and that name. *)
Lemma name_matches_overmatches :
  name_matches (MkFilter "" "a" "") (receipt_name "id" "b__a" StageDrained) = true.
Proof. reflexivity. Qed.
