(* ===== verification/Doorbell.v ===== *)
(** The doorbell that reminds an agent of unread messages: internal/cli/wake_doorbell.go, and
    what internal/cli/wake.go does with it around one notification. *)
From S2P Require Import Prelude GoStr GoTime.

#[local] Open Scope Z_scope.

(** ** Durations and instants *)

(** A time.Duration is a number of nanoseconds; a time.Time is an instant in nanoseconds,
    [zero_time] being the zero value. *)
Definition Second : Z := 1000000000.
Definition Minute : Z := 60 * Second.

Definition Before (a b : Z) : bool := Z.ltb a b.

(** ** Files and cohorts *)

(** What an os.FileInfo has of a stat_t, when its Sys is one. *)
Record wakeFileIdentity := MkIdentity { Device : Z; Inode : Z; CTimeSec : Z; CTimeNsec : Z }.
#[global] Instance wakeFileIdentity_eq_dec : EqDecision wakeFileIdentity.
Proof. solve_decision. Defined.

Record FileInfo := MkFileInfo { Sys : option wakeFileIdentity }.

(** A map from names to FileInfo values that may be nil. *)
Abbreviation pending := (gmap string (option FileInfo)).
Abbreviation cohort_map := (gmap string (option wakeFileIdentity)).

Definition captureWakeFileIdentity (info : FileInfo) : option wakeFileIdentity := Sys info.

Definition snapshotWakeFileIdentities (current : pending) : cohort_map :=
  (fun info => match info with
               | None => None
               | Some i => captureWakeFileIdentity i
               end) <$> current.

(** The members of a cohort that show that the inbox was drained or a file replaced. *)
Definition member_progressed (current : pending) (name : string) (identity : option wakeFileIdentity) : bool :=
  match current !! name with
  | None => true
  | Some None => false
  | Some (Some info) =>
    match identity, captureWakeFileIdentity info with
    | None, Some _ => true
    | None, None => false
    | Some _, None => false
    | Some i, Some c => negb (bool_decide (i = c))
    end
  end.

Definition wakeCohortProgressed (cohort : cohort_map) (current : pending) : bool :=
  existsb (fun x => member_progressed current x.1 x.2) (map_to_list cohort).

Definition wakeCohortExpanded (cohort : cohort_map) (current : pending) : bool :=
  existsb (fun x => match cohort !! x.1 with Some _ => false | None => true end) (map_to_list current).

Definition member_replaced (current : pending) (name : string) (identity : option wakeFileIdentity) : bool :=
  match current !! name, identity with
  | Some (Some info), Some i =>
    match captureWakeFileIdentity info with
    | Some c => negb (bool_decide (i = c))
    | None => false
    end
  | _, _ => false
  end.

Definition wakeCohortReplacedInPlace (cohort : cohort_map) (current : pending) : bool :=
  existsb (fun x => member_replaced current x.1 x.2) (map_to_list cohort).

(** ** The state *)

Inductive wakeDoorbellPhase :=
| wakeDoorbellIdle | wakeDoorbellRetrying | wakeDoorbellParked | wakeDoorbellAnnounced | wakeDoorbellRecoveryRequired.
#[global] Instance wakeDoorbellPhase_eq_dec : EqDecision wakeDoorbellPhase.
Proof. solve_decision. Defined.

Definition wakeDoorbellRetryBase : Z := 5 * Second.
Definition wakeDoorbellAttentionRetryBase : Z := 30 * Second.
Definition wakeDoorbellRetryMax : Z := 2 * Minute.
Definition wakeDoorbellAttentionRetryMax : Z := 15 * Minute.
Definition wakeDoorbellInitialAttemptBudget : Z := 4.
Definition wakeDoorbellLifetimeAttemptCap : Z := 8.

Record wakeDoorbellState := MkDoorbell {
  phase : wakeDoorbellPhase;
  cohort : cohort_map;
  presentationConfirmed : bool;
  attempts : Z;
  reminderAttempts : Z;
  attemptBudget : Z;
  nextAttempt : Z;
  additionAttemptFloor : Z;
  transientAttentionAttempts : Z;
  nextTransientAttention : Z;
  recoveryPending : bool;
  recoveryAttentionUndelivered : bool;
}.

Definition zero_state : wakeDoorbellState :=
  MkDoorbell wakeDoorbellIdle ∅ false 0 0 0 zero_time zero_time 0 zero_time false false.

(** Assignments to the fields. *)
Definition set_phase (x : wakeDoorbellPhase) (s : wakeDoorbellState) : wakeDoorbellState :=
  let 'MkDoorbell _ b c d e f g h i j k l := s in MkDoorbell x b c d e f g h i j k l.
Definition set_cohort (x : cohort_map) (s : wakeDoorbellState) : wakeDoorbellState :=
  let 'MkDoorbell a _ c d e f g h i j k l := s in MkDoorbell a x c d e f g h i j k l.
Definition set_presentationConfirmed (x : bool) (s : wakeDoorbellState) : wakeDoorbellState :=
  let 'MkDoorbell a b _ d e f g h i j k l := s in MkDoorbell a b x d e f g h i j k l.
Definition set_attempts (x : Z) (s : wakeDoorbellState) : wakeDoorbellState :=
  let 'MkDoorbell a b c _ e f g h i j k l := s in MkDoorbell a b c x e f g h i j k l.
Definition set_reminderAttempts (x : Z) (s : wakeDoorbellState) : wakeDoorbellState :=
  let 'MkDoorbell a b c d _ f g h i j k l := s in MkDoorbell a b c d x f g h i j k l.
Definition set_attemptBudget (x : Z) (s : wakeDoorbellState) : wakeDoorbellState :=
  let 'MkDoorbell a b c d e _ g h i j k l := s in MkDoorbell a b c d e x g h i j k l.
Definition set_nextAttempt (x : Z) (s : wakeDoorbellState) : wakeDoorbellState :=
  let 'MkDoorbell a b c d e f _ h i j k l := s in MkDoorbell a b c d e f x h i j k l.
Definition set_additionAttemptFloor (x : Z) (s : wakeDoorbellState) : wakeDoorbellState :=
  let 'MkDoorbell a b c d e f g _ i j k l := s in MkDoorbell a b c d e f g x i j k l.
Definition set_transient (n t : Z) (s : wakeDoorbellState) : wakeDoorbellState :=
  let 'MkDoorbell a b c d e f g h _ _ k l := s in MkDoorbell a b c d e f g h n t k l.
Definition set_recoveryPending (x : bool) (s : wakeDoorbellState) : wakeDoorbellState :=
  let 'MkDoorbell a b c d e f g h i j _ l := s in MkDoorbell a b c d e f g h i j x l.
Definition set_recoveryAttentionUndelivered (x : bool) (s : wakeDoorbellState) : wakeDoorbellState :=
  let 'MkDoorbell a b c d e f g h i j k _ := s in MkDoorbell a b c d e f g h i j k x.

Definition reset (s : wakeDoorbellState) : wakeDoorbellState := zero_state.

(** ** The retry ladder *)

(** The loop of cappedExponentialBackoff, [fuel] being the rounds [attempt] leaves. *)
Fixpoint backoff_rounds (fuel : nat) (delay maximum : Z) : Z :=
  match fuel with
  | O => delay
  | S fuel' =>
    if Z.ltb delay maximum then
      let delay' := int64_wrap (delay * 2) in
      if Z.leb maximum delay' then maximum else backoff_rounds fuel' delay' maximum
    else delay
  end.

Definition cappedExponentialBackoff (attempt base maximum : Z) : Z :=
  if Z.leb maximum base then maximum else backoff_rounds (Z.to_nat (attempt - 1)) base maximum.

Definition recordAttemptWithBase (now base maximum : Z) (s : wakeDoorbellState) : wakeDoorbellState :=
  let s := set_attempts (uint_succ (attempts s)) s in
  let s := set_additionAttemptFloor (now + base) s in
  set_nextAttempt (now + cappedExponentialBackoff (attempts s) base maximum) s.

Definition pullForwardForAddition (now : Z) (s : wakeDoorbellState) : wakeDoorbellState :=
  if IsZero (additionAttemptFloor s) then s else
  let deadline := if Before (additionAttemptFloor s) now then now else additionAttemptFloor s in
  if IsZero (nextAttempt s) || Before deadline (nextAttempt s) then set_nextAttempt deadline s else s.

(** ** Operations *)

Definition default_budget (s : wakeDoorbellState) : wakeDoorbellState :=
  if Z.eqb (attemptBudget s) 0 then set_attemptBudget wakeDoorbellInitialAttemptBudget s else s.

Definition arm (current : pending) (s : wakeDoorbellState) : wakeDoorbellState :=
  default_budget (set_presentationConfirmed false
    (set_cohort (snapshotWakeFileIdentities current) (set_phase wakeDoorbellRetrying s))).

Definition confirmPresentation (s : wakeDoorbellState) : wakeDoorbellState := set_presentationConfirmed true s.

Definition parkCurrentCohort (s : wakeDoorbellState) : wakeDoorbellState :=
  set_nextAttempt zero_time (set_phase wakeDoorbellParked s).

Definition recordAttempt (now : Z) (s : wakeDoorbellState) : wakeDoorbellState :=
  let s := default_budget s in
  let s := recordAttemptWithBase now wakeDoorbellRetryBase wakeDoorbellRetryMax s in
  let s := set_reminderAttempts (uint_succ (reminderAttempts s)) s in
  if Z.leb (attemptBudget s) (reminderAttempts s) then parkCurrentCohort s else s.

Definition recordDeferredInputAttempt (now : Z) (s : wakeDoorbellState) : wakeDoorbellState :=
  recordAttemptWithBase now wakeDoorbellRetryBase wakeDoorbellRetryMax s.

Definition recordInjected (current : pending) (s : wakeDoorbellState) : wakeDoorbellState :=
  set_cohort (snapshotWakeFileIdentities current) (set_phase wakeDoorbellAnnounced (reset s)).

Definition recordAttentionAttempt (now : Z) (s : wakeDoorbellState) : wakeDoorbellState :=
  set_additionAttemptFloor zero_time
    (recordAttemptWithBase now wakeDoorbellAttentionRetryBase wakeDoorbellAttentionRetryMax s).

Definition transientAttentionDue (now : Z) (s : wakeDoorbellState) : bool :=
  IsZero (nextTransientAttention s) || negb (Before now (nextTransientAttention s)).

Definition recordTransientAttentionAttempt (now : Z) (s : wakeDoorbellState) : wakeDoorbellState :=
  let n := uint_succ (transientAttentionAttempts s) in
  set_transient n
    (now + cappedExponentialBackoff n wakeDoorbellAttentionRetryBase wakeDoorbellAttentionRetryMax) s.

Definition noteRecoveryInboxEmpty (s : wakeDoorbellState) : wakeDoorbellState := reset s.

Definition planRecoveryAttention (now : Z) (current : pending) (s : wakeDoorbellState) : bool * wakeDoorbellState :=
  if Nat.eqb (size current) 0 then
    if bool_decide (phase s = wakeDoorbellRecoveryRequired) && recoveryAttentionUndelivered s
    then (IsZero (nextAttempt s) || negb (Before now (nextAttempt s)), s)
    else (false, noteRecoveryInboxEmpty s)
  else if negb (bool_decide (phase s = wakeDoorbellRecoveryRequired)) then (true, s)
  else
    let s := set_recoveryPending true s in
    (negb (negb (IsZero (nextAttempt s)) && Before now (nextAttempt s)), s).

Definition recordRecoveryRequired (now : Z) (current : pending) (s : wakeDoorbellState) : wakeDoorbellState :=
  let s := if negb (bool_decide (phase s = wakeDoorbellRecoveryRequired)) then reset s else s in
  let s := set_cohort (snapshotWakeFileIdentities current) (set_phase wakeDoorbellRecoveryRequired s) in
  let s := set_recoveryAttentionUndelivered true (set_recoveryPending true s) in
  recordAttentionAttempt now s.

Definition retainRecoveryRequired (now : Z) (s : wakeDoorbellState) : wakeDoorbellState :=
  let c := cohort s in
  let s := set_cohort c (set_phase wakeDoorbellRecoveryRequired (reset s)) in
  let s := set_recoveryAttentionUndelivered true (set_recoveryPending true s) in
  recordAttentionAttempt now s.

Definition recordRecoveryAttentionDelivered (s : wakeDoorbellState) : wakeDoorbellState :=
  set_recoveryAttentionUndelivered false s.

Definition makeDue (now : Z) (s : wakeDoorbellState) : wakeDoorbellState :=
  if negb (bool_decide (phase s = wakeDoorbellRetrying)) || Nat.eqb (size (cohort s)) 0 then s
  else set_nextAttempt now s.

Definition pendingInput (s : wakeDoorbellState) : bool := bool_decide (phase s = wakeDoorbellRetrying).

Definition parkedReminderAttempts (s : wakeDoorbellState) : Z * bool :=
  (reminderAttempts s, bool_decide (phase s = wakeDoorbellParked)).

Definition nextDeadline (s : wakeDoorbellState) : Z * bool :=
  match phase s with
  | wakeDoorbellRetrying => (nextAttempt s, negb (IsZero (nextAttempt s)))
  | wakeDoorbellRecoveryRequired => (nextAttempt s, recoveryPending s && negb (IsZero (nextAttempt s)))
  | _ => (zero_time, false)
  end.

(** ** Planning *)

Definition coopWakeDoorbell : string := ": AMQ doorbell run amq drain --include-body then act on it".

Record wakeDoorbellPlan := MkPlan {
  attempt : bool; prompt : string; submitOnly : bool; contentChange : bool; progress : bool }.

Definition no_plan : wakeDoorbellPlan := MkPlan false "" false false false.

Definition plan_announced (current : pending) (s : wakeDoorbellState) : wakeDoorbellPlan * wakeDoorbellState :=
  if wakeCohortExpanded (cohort s) current || wakeCohortReplacedInPlace (cohort s) current
  then (MkPlan true coopWakeDoorbell false false false, arm current s)
  else (no_plan, if wakeCohortProgressed (cohort s) current then recordInjected current s else s).

(** Additions to a cohort that is being retried or was parked. *)
Definition extend_cohort (now : Z) (current : pending) (s : wakeDoorbellState) : wakeDoorbellState :=
  if bool_decide (phase s = wakeDoorbellParked) then
    let s := set_presentationConfirmed false (set_cohort (snapshotWakeFileIdentities current) s) in
    if Z.ltb (attemptBudget s) wakeDoorbellLifetimeAttemptCap
    then pullForwardForAddition now (set_phase wakeDoorbellRetrying (set_attemptBudget (uint_succ (attemptBudget s)) s))
    else s
  else pullForwardForAddition now (arm current s).

Definition plan (now : Z) (current : pending) (s : wakeDoorbellState) : wakeDoorbellPlan * wakeDoorbellState :=
  if Nat.eqb (size current) 0 then (no_plan, reset s) else
  if bool_decide (phase s = wakeDoorbellAnnounced) then plan_announced current s else
  let progress := negb (bool_decide (phase s = wakeDoorbellIdle)) && wakeCohortProgressed (cohort s) current in
  let expanded := negb (bool_decide (phase s = wakeDoorbellIdle)) && wakeCohortExpanded (cohort s) current in
  let contentChange := negb progress && expanded in
  let s := if progress then reset s else if expanded then extend_cohort now current s else s in
  let s := if bool_decide (phase s = wakeDoorbellIdle) then arm current s else s in
  if bool_decide (phase s = wakeDoorbellParked) then (no_plan, s) else
  if Z.ltb 0 (attempts s) && Before now (nextAttempt s) then (no_plan, s) else
  (MkPlan true coopWakeDoorbell (presentationConfirmed s) contentChange progress, s).

(** ** One notification: internal/cli/wake.go *)

Definition wakeRetryUntilDrained : string := "drained".
Definition wakeRetryUntilInjected : string := "injected".

(** The classes of delivery errors the code tells apart with errors.As; an error may join
    several. *)
Inductive wakeError :=
| wakeAttentionDelivery | wakeTerminalAuthorityLoss | wakeTerminalPartialProgress
| wakeInputDemotionBlocked | wakeTerminalProgressUncertain | wakeOther.
#[global] Instance wakeError_eq_dec : EqDecision wakeError.
Proof. solve_decision. Defined.

Definition errors_As (err : option (list wakeError)) (k : wakeError) : bool :=
  match err with Some l => bool_decide (k ∈ l) | None => false end.

(** What a wake keeps beside the doorbell that these functions use: of the terminal, the inject
    mode and whether input is pending in it, and blocks a change to no injection. *)
Record wakeDoorbellStatus := MkStatus { parked : bool; st_attempts : Z }.
#[global] Instance wakeDoorbellStatus_eq_dec : EqDecision wakeDoorbellStatus.
Proof. solve_decision. Defined.

Definition wakeInjectModeNone : string := "none".

Record terminal := MkTerminal { injectMode : string; input_pending : bool; blocksDemotion : bool }.

Record wakeConfig := MkWake {
  retryUntil : string;
  inputRecoveryRequired : bool;
  lastAttemptAttention : bool;
  lastAttemptTransientAttention : bool;
  doorbell : wakeDoorbellState;
  reportedDoorbellStatus : wakeDoorbellStatus;
  pendingDoorbellStatus : option wakeDoorbellStatus;
  term : terminal;
}.

Definition set_recovery (x : bool) (c : wakeConfig) : wakeConfig :=
  let 'MkWake a _ b t d r p m := c in MkWake a x b t d r p m.
Definition set_last (attention transient : bool) (c : wakeConfig) : wakeConfig :=
  let 'MkWake a q _ _ d r p m := c in MkWake a q attention transient d r p m.
Definition set_doorbell (x : wakeDoorbellState) (c : wakeConfig) : wakeConfig :=
  let 'MkWake a q b t _ r p m := c in MkWake a q b t x r p m.
Definition set_status (r : wakeDoorbellStatus) (p : option wakeDoorbellStatus) (c : wakeConfig) : wakeConfig :=
  let 'MkWake a q b t d _ _ m := c in MkWake a q b t d r p m.
Definition set_term (m : terminal) (c : wakeConfig) : wakeConfig :=
  let 'MkWake a q b t d r p _ := c in MkWake a q b t d r p m.

Definition mode_none (c : wakeConfig) : bool := bool_decide (injectMode (term c) = wakeInjectModeNone).

(** clearWakeInputState resets the input delivery: nothing is pending in it. *)
Definition clearWakeInputState (c : wakeConfig) : wakeConfig :=
  set_term (MkTerminal (injectMode (term c)) false false) c.

Definition shouldRecordWakeAttempt (err : option (list wakeError)) : bool :=
  match err with
  | None => true
  | Some _ =>
    negb (errors_As err wakeTerminalAuthorityLoss) && negb (errors_As err wakeTerminalPartialProgress) &&
    negb (errors_As err wakeInputDemotionBlocked) && negb (errors_As err wakeTerminalProgressUncertain)
  end.

(** cfg.recordDoorbellStatus is the caller's: [record_ok] is whether this call of it succeeds. *)
Definition persistWakeDoorbellStatus (record_ok : bool) (c : wakeConfig) : bool * wakeConfig :=
  let '(n, p) := parkedReminderAttempts (doorbell c) in
  let desired := MkStatus p (if p then n else 0) in
  if bool_decide (pendingDoorbellStatus c = None) && bool_decide (desired = reportedDoorbellStatus c) then (true, c) else
  if record_ok then (true, set_status desired None c)
  else (false, set_status (reportedDoorbellStatus c) (Some desired) c).

Definition retryPendingWakeDoorbellStatus (record_ok : bool) (c : wakeConfig) : bool * wakeConfig :=
  match pendingDoorbellStatus c with
  | None => (true, c)
  | Some p => if record_ok then (true, set_status p None c) else (false, c)
  end.

Definition recordWakeAttempt (record_ok : bool) (now : Z) (currentPending : pending)
  (deliveryErr : option (list wakeError)) (c : wakeConfig) : wakeConfig :=
  let c := if Nat.eqb (size (cohort (doorbell c))) 0 then set_doorbell (arm currentPending (doorbell c)) c else c in
  if bool_decide (retryUntil c = wakeRetryUntilInjected) && bool_decide (deliveryErr = None) &&
     negb (lastAttemptAttention c) && negb (lastAttemptTransientAttention c)
  then set_doorbell (recordInjected currentPending (doorbell c)) c
  else
    let record :=
      if lastAttemptTransientAttention c then recordDeferredInputAttempt
      else if lastAttemptAttention c || errors_As deliveryErr wakeAttentionDelivery then recordAttentionAttempt
      else recordAttempt in
    (persistWakeDoorbellStatus record_ok (set_doorbell (record now (doorbell c)) c)).2.

(** While an uncertain write has to be recovered from, the agent gets attention notices
    instead; [emitted] is whether writing the notice succeeds. *)
Definition deliverWakeInputRecoveryAttention (now : Z) (currentPending : pending) (record_ok emitted : bool)
  (c : wakeConfig) : option (list wakeError) * wakeConfig :=
  let '(due, s) := planRecoveryAttention now currentPending (doorbell c) in
  let c := set_doorbell s c in
  if negb due then (None, c) else
  let c := set_doorbell (recordRecoveryRequired now currentPending (doorbell c)) c in
  let c := (persistWakeDoorbellStatus record_ok c).2 in
  if negb emitted then (Some [wakeAttentionDelivery], c) else
  let c := set_doorbell (recordRecoveryAttentionDelivered (doorbell c)) c in
  (None, if Nat.eqb (size currentPending) 0 then set_doorbell (noteRecoveryInboxEmpty (doorbell c)) c else c).

Definition enterWakeInputRecovery (now : Z) (currentPending : pending) (cause : list wakeError) (record_ok emitted : bool)
  (c : wakeConfig) : option (list wakeError) * wakeConfig :=
  let '(err, c) := deliverWakeInputRecoveryAttention now currentPending record_ok emitted (set_recovery true c) in
  match err with Some e => (Some (cause ++ e), c) | None => (None, c) end.

Definition dischargeWakeInputRecoveryAfterProgress (currentPending : pending) (record_ok : bool) (c : wakeConfig)
  : bool * wakeConfig :=
  if negb (inputRecoveryRequired c) then (false, c) else
  let progressed := Nat.eqb (size currentPending) 0 ||
    bool_decide (phase (doorbell c) = wakeDoorbellRecoveryRequired) &&
    wakeCohortProgressed (cohort (doorbell c)) currentPending in
  if negb progressed then (false, c) else
  let c := clearWakeInputState (set_recovery false c) in
  let c := set_doorbell (reset (doorbell c)) c in
  (true, (persistWakeDoorbellStatus record_ok c).2).

(** What the code around the doorbell answers in one notification: the clock, read when the
    notification is planned, within the delivery and after it, the writing of input that was retained, the delivery of the notice (its error, the flags it sets, whether
    it retired the injector, the terminal it leaves), and whether the status and attention
    writes succeed. *)
Record delivery := MkDelivery {
  d_now : Z; d_mid : Z; d_later : Z;
  d_reconciled : option (list wakeError); d_reconciled_term : terminal;
  d_err : option (list wakeError); d_attention : bool; d_transient : bool; d_retired : bool; d_term : terminal;
  d_ok_plan : bool; d_ok_retire : bool; d_ok_record : bool; d_emitted : bool }.

(** deliverWakeNotification, of which the doorbell sees the flags, the attempt that
    deliverWakeTransientAttention records when it sets its flag and, when the injector is
    retired, the reset of retireWakeInputState. *)
Definition apply_delivery (d : delivery) (c : wakeConfig) : wakeConfig :=
  let c := set_term (d_term d) (set_last (d_attention d) (d_transient d) c) in
  let c := if d_transient d then set_doorbell (recordTransientAttentionAttempt (d_mid d) (doorbell c)) c else c in
  if d_retired d then (persistWakeDoorbellStatus (d_ok_retire d) (set_doorbell (reset (doorbell c)) c)).2 else c.

Definition wakeInputAttemptConfirmed (c : wakeConfig) (deliveryErr : option (list wakeError)) : bool :=
  bool_decide (deliveryErr = None) && negb (mode_none c) && negb (input_pending (term c)) &&
  negb (lastAttemptAttention c) && negb (lastAttemptTransientAttention c).

(** After the plan asked for an attempt. *)
Definition attempt_delivery (currentPending : pending) (d : delivery) (p : wakeDoorbellPlan) (c : wakeConfig)
  : option (list wakeError) * wakeConfig :=
  let inject := negb (mode_none c) in
  let retainedInputPending := input_pending (term c) in
  let c := apply_delivery d c in
  if errors_As (d_err d) wakeInputDemotionBlocked then
    enterWakeInputRecovery (d_later d) currentPending (default [] (d_err d)) (d_ok_record d) (d_emitted d) c else
  if inject && mode_none c then
    let c := clearWakeInputState c in
    (d_err d, if shouldRecordWakeAttempt (d_err d)
              then recordWakeAttempt (d_ok_record d) (d_later d) currentPending (d_err d) c else c)
  else if shouldRecordWakeAttempt (d_err d) then
    let confirmed := inject && negb (submitOnly p) && (negb (contentChange p) || negb retainedInputPending) &&
      wakeInputAttemptConfirmed c (d_err d) in
    let c := if confirmed then set_doorbell (confirmPresentation (doorbell c)) c else c in
    (d_err d, recordWakeAttempt (d_ok_record d) (d_later d) currentPending (d_err d) c)
  else (d_err d, c).

Record notified := MkNotified { n_plan : wakeDoorbellPlan; n_err : option (list wakeError); n_cfg : wakeConfig }.

Definition plan_and_deliver (currentPending : pending) (d : delivery) (c : wakeConfig) : notified :=
  if mode_none c && blocksDemotion (term c) then MkNotified no_plan (Some [wakeInputDemotionBlocked]) c else
  let c := if mode_none c then clearWakeInputState c else c in
  let '(p, s) := plan (d_now d) currentPending (doorbell c) in
  let c := (persistWakeDoorbellStatus (d_ok_plan d) (set_doorbell s c)).2 in
  if negb (attempt p) then MkNotified p None c else
  if progress p && input_pending (term c) then
    match d_reconciled d with
    | Some err => MkNotified no_plan (Some err) (set_term (d_reconciled_term d) c)
    | None =>
      let c := set_term (d_reconciled_term d) c in
      if input_pending (term c) then MkNotified no_plan None c
      else let '(err, c) := attempt_delivery currentPending d p c in MkNotified p err c
    end
  else let '(err, c) := attempt_delivery currentPending d p c in MkNotified p err c.

(** The plan of the result is [no_plan] when nothing was delivered. *)
Definition deliverNewMessageNotification (currentPending : pending) (d : delivery) (c : wakeConfig) : notified :=
  if inputRecoveryRequired c then
    let '(discharged, c) := dischargeWakeInputRecoveryAfterProgress currentPending (d_ok_plan d) c in
    if negb discharged then
      let '(err, c) := deliverWakeInputRecoveryAttention (d_now d) currentPending (d_ok_record d) (d_emitted d) c in
      MkNotified no_plan err c
    else if Nat.eqb (size currentPending) 0 then MkNotified no_plan None c
    else plan_and_deliver currentPending d c
  else plan_and_deliver currentPending d c.
