(* ===== verification/DoorbellFacts.v ===== *)
(** What the doorbell guarantees: it rings often enough, and not too often. *)
From S2P Require Import Prelude GoStr GoTime Doorbell.

#[local] Open Scope Z_scope.

(** ** The retry ladder *)

Lemma backoff_rounds_spec fuel delay maximum :
  0 < delay < maximum -> maximum <= 2 ^ 62 ->
  backoff_rounds fuel delay maximum = Z.min maximum (delay * 2 ^ Z.of_nat fuel).
Proof.
  revert delay; induction fuel as [|fuel IH]; intros delay Hd Hm; cbn [backoff_rounds].
  - rewrite Z.mul_1_r. lia.
  - rewrite (proj2 (Z.ltb_lt _ _)) by lia.
    rewrite int64_wrap_id by (unfold int64_range; apply andb_true_iff; split; [apply Z.leb_le|apply Z.ltb_lt]; lia).
    rewrite Nat2Z.inj_succ, Z.pow_succ_r by lia. pose proof (Z.pow_pos_nonneg 2 (Z.of_nat fuel)).
    destruct (Z.leb_spec maximum (delay * 2)) as [H2|H2].
    + rewrite Z.min_l; [done|]. nia.
    + rewrite IH by lia. f_equal. lia.
Qed.

Lemma backoff_between n base maximum :
  0 < base -> base <= maximum -> maximum <= 2 ^ 62 ->
  base <= cappedExponentialBackoff n base maximum <= maximum.
Proof.
  intros Hb Hm Hx. unfold cappedExponentialBackoff. destruct (Z.leb_spec maximum base); [lia|].
  rewrite backoff_rounds_spec by lia. pose proof (Z.pow_pos_nonneg 2 (Z.of_nat (Z.to_nat (n - 1)))). nia.
Qed.

(** The delay before the next attempt is the base delay doubled for every attempt after the
    first and cut off at the maximum: the loop of cappedExponentialBackoff computes the closed
    form, in 64 bits, for every number of attempts. *)
Theorem backoff_closed_form attempt base maximum :
  1 <= attempt -> 0 < base -> maximum <= 2 ^ 62 ->
  cappedExponentialBackoff attempt base maximum = Z.min maximum (base * 2 ^ (attempt - 1)).
Proof.
  intros Ha Hb Hm. unfold cappedExponentialBackoff. pose proof (Z.pow_pos_nonneg 2 (attempt - 1)).
  destruct (Z.leb_spec maximum base); [nia|].
  rewrite backoff_rounds_spec by lia. by rewrite Z2Nat.id by lia.
Qed.

Lemma backoff_closed_form_witness :
  cappedExponentialBackoff 4 wakeDoorbellRetryBase wakeDoorbellRetryMax = 40 * Second /\
  cappedExponentialBackoff 6 wakeDoorbellRetryBase wakeDoorbellRetryMax = wakeDoorbellRetryMax.
Proof. split; rewrite backoff_closed_form; vm_compute; congruence || reflexivity. Defined.

(** ** Cohorts *)

Lemma existsb_map_to_list {A} (m : gmap string A) (f : string -> A -> bool) :
  existsb (fun x => f x.1 x.2) (map_to_list m) = true <-> exists k a, m !! k = Some a /\ f k a = true.
Proof.
  rewrite existsb_exists. split.
  - intros ([k a] & Hin & Hf). apply list_elem_of_In, elem_of_map_to_list in Hin. eauto.
  - intros (k & a & Hin & Hf). exists (k, a). split; [|done]. by apply list_elem_of_In, elem_of_map_to_list.
Qed.

Lemma progressed_true c cur :
  wakeCohortProgressed c cur = true <-> exists k i, c !! k = Some i /\ member_progressed cur k i = true.
Proof. apply (existsb_map_to_list c (member_progressed cur)). Qed.

Lemma replaced_true c cur :
  wakeCohortReplacedInPlace c cur = true <-> exists k i, c !! k = Some i /\ member_replaced cur k i = true.
Proof. apply (existsb_map_to_list c (member_replaced cur)). Qed.

Lemma expanded_true c (cur : pending) :
  wakeCohortExpanded c cur = true <-> exists k, is_Some (cur !! k) /\ c !! k = None.
Proof.
  unfold wakeCohortExpanded.
  rewrite (existsb_map_to_list cur (fun k _ => match c !! k with Some _ => false | None => true end)).
  split.
  - intros (k & a & Hk & Hn). exists k. split; [by eexists|]. by destruct (c !! k).
  - intros (k & [a Hk] & Hn). exists k, a. by rewrite Hn.
Qed.

Lemma snapshot_lookup cur k :
  snapshotWakeFileIdentities cur !! k = (fun x => x ≫= Sys) <$> cur !! k.
Proof. unfold snapshotWakeFileIdentities. rewrite lookup_fmap. by destruct (cur !! k) as [[?|]|]. Qed.

Lemma snapshot_size cur : size (snapshotWakeFileIdentities cur) = size cur.
Proof. apply map_size_fmap. Qed.

(** Files that are still there, unchanged, are no progress. *)
Lemma grown_not_progressed (cur cur' : pending) :
  cur ⊆ cur' -> wakeCohortProgressed (snapshotWakeFileIdentities cur) cur' = false.
Proof.
  intros Hsub. apply not_true_iff_false. intros (k & i & Hk & Hp)%progressed_true.
  rewrite snapshot_lookup in Hk. apply fmap_Some in Hk as (info & Hk & ->).
  unfold member_progressed in Hp. rewrite (lookup_weaken _ _ _ _ Hk Hsub) in Hp.
  destruct info as [info|]; [|done]. cbn in Hp. unfold captureWakeFileIdentity in Hp.
  destruct (Sys info) as [x|]; [|done]. by rewrite bool_decide_eq_true_2 in Hp.
Qed.

Lemma same_not_expanded (cur : pending) : wakeCohortExpanded (snapshotWakeFileIdentities cur) cur = false.
Proof.
  apply not_true_iff_false. intros (k & [a Ha] & Hn)%expanded_true.
  rewrite snapshot_lookup, Ha in Hn. done.
Qed.

Lemma size_nonempty (cur : pending) : cur <> ∅ -> Nat.eqb (size cur) 0 = false.
Proof. intros Hne. apply Nat.eqb_neq. by rewrite map_size_empty_iff. Qed.

(** ** How often it rings *)

(** What the ladder and the screen leave alone. *)
Definition core (s : wakeDoorbellState) : wakeDoorbellPhase * cohort_map * Z * Z :=
  (phase s, cohort s, reminderAttempts s, attemptBudget s).

Lemma core_pull now s : core (pullForwardForAddition now s) = core s.
Proof. unfold pullForwardForAddition. repeat case_match; by destruct s. Qed.

Lemma core_ladder now base maximum s : core (recordAttemptWithBase now base maximum s) = core s.
Proof. by destruct s. Qed.

Lemma core_deferred now s : core (recordDeferredInputAttempt now s) = core s.
Proof. by destruct s. Qed.

Lemma core_attention now s : core (recordAttentionAttempt now s) = core s.
Proof. by destruct s. Qed.

Lemma core_transient now s : core (recordTransientAttentionAttempt now s) = core s.
Proof. by destruct s. Qed.

Lemma core_confirm s : core (confirmPresentation s) = core s.
Proof. by destruct s. Qed.

(** The cohort [cur] has been reminded of [k] times; additions extended the budget at most
    [a] times. *)
Definition ringing (k : Z) (a : nat) (cur : pending) (s : wakeDoorbellState) : Prop :=
  cohort s = snapshotWakeFileIdentities cur /\ reminderAttempts s = k /\ 0 <= k /\
  4 <= attemptBudget s <= Z.min 8 (4 + Z.of_nat a) /\
  (phase s = wakeDoorbellRetrying /\ k < attemptBudget s \/ phase s = wakeDoorbellParked /\ k = attemptBudget s).

Lemma ringing_core k a cur s s' : core s' = core s -> ringing k a cur s -> ringing k a cur s'.
Proof. unfold core, ringing. by intros [= -> -> -> ->]. Qed.

Lemma ringing_more k a a' cur s : ringing k a cur s -> (a <= a')%nat -> ringing k a' cur s.
Proof. unfold ringing. intros (? & ? & ? & ? & ?) Ha. split_and!; try done; lia. Qed.

Lemma ringing_arm k a cur cur' s :
  ringing k a cur s -> phase s = wakeDoorbellRetrying -> ringing k a cur' (arm cur' s).
Proof.
  intros (Hc & Hr & Hk & Hb & Hp) Hph. unfold ringing, arm, default_budget. destruct s; cbn in *.
  rewrite (proj2 (Z.eqb_neq _ 0)) by lia. cbn. split_and!; try done; try lia.
  destruct Hp as [[_ ?]|[? _]]; [by left|congruence].
Qed.

Lemma ringing_extend now k a cur cur' s :
  ringing k a cur s -> ringing k (S a) cur' (extend_cohort now cur' s).
Proof.
  intros Hs. pose proof Hs as (Hc & Hr & Hk & Hb & Hp). unfold extend_cohort. case_bool_decide as Hpark.
  - destruct Hp as [[? _]|[_ Hkb]]; [congruence|]. cbv zeta.
    assert (attemptBudget (set_presentationConfirmed false (set_cohort (snapshotWakeFileIdentities cur') s)) =
      attemptBudget s) as -> by (by destruct s).
    destruct (Z.ltb_spec (attemptBudget s) wakeDoorbellLifetimeAttemptCap) as [Hlt|Hlt];
      unfold wakeDoorbellLifetimeAttemptCap in Hlt.
    + eapply ringing_core; [apply core_pull|]. unfold ringing. destruct s; cbn in *.
      rewrite uint_succ_small by lia. split_and!; try done; try lia. left. split; [done|lia].
    + unfold ringing. destruct s; cbn in *. split_and!; try done; try lia. by right.
  - destruct Hp as [[Hph _]|[? _]]; [|congruence]. eapply ringing_core; [apply core_pull|].
    eapply ringing_more; [by apply ringing_arm with (cur := cur)|lia].
Qed.

Lemma ringing_start cur : ringing 0 0 cur (arm cur zero_state).
Proof.
  unfold ringing, arm, default_budget. cbn. split_and!; try done; try (unfold wakeDoorbellInitialAttemptBudget; lia).
  left. split; [done|]. unfold wakeDoorbellInitialAttemptBudget. lia.
Qed.

Lemma unexpanded_same (cur cur' : pending) :
  cur ⊆ cur' -> wakeCohortExpanded (snapshotWakeFileIdentities cur) cur' = false -> cur = cur'.
Proof.
  intros Hsub He. apply map_eq. intros k. destruct (cur' !! k) as [x|] eqn:Hk.
  - destruct (cur !! k) as [y|] eqn:Hy.
    + rewrite (lookup_weaken _ _ _ _ Hy Hsub) in Hk. congruence.
    + apply not_true_iff_false in He. exfalso. apply He, expanded_true. exists k.
      rewrite snapshot_lookup, Hy. split; [by eexists|done].
  - by eapply lookup_weaken_None.
Qed.

(** The additions between two looks at the inbox. *)
Definition added (cur cur' : pending) : nat := if wakeCohortExpanded (snapshotWakeFileIdentities cur) cur' then 1 else 0.

Lemma ringing_plan now k a cur cur' s p s' :
  ringing k a cur s -> cur ⊆ cur' -> cur' <> ∅ -> plan now cur' s = (p, s') ->
  ringing k (a + added cur cur') cur' s' /\ (attempt p = true -> phase s' = wakeDoorbellRetrying).
Proof.
  intros Hs Hsub Hne Hplan. pose proof Hs as (Hc & Hr & Hk & Hb & Hp).
  assert (phase s <> wakeDoorbellIdle /\ phase s <> wakeDoorbellAnnounced) as [Hi Han].
  { by destruct Hp as [[-> _]|[-> _]]. }
  unfold plan in Hplan. rewrite size_nonempty in Hplan by done.
  rewrite !(bool_decide_eq_false_2 (phase s = _)) in Hplan by done. cbn [negb andb] in Hplan.
  rewrite Hc, grown_not_progressed in Hplan by done. cbn [negb andb] in Hplan.
  set (s1 := if wakeCohortExpanded _ cur' then _ else s) in Hplan.
  assert (ringing k (a + added cur cur') cur' s1) as Hs1.
  { unfold s1, added. destruct (wakeCohortExpanded _ cur') eqn:He.
    - rewrite Nat.add_1_r. by eapply ringing_extend.
    - rewrite Nat.add_0_r. by rewrite <-(unexpanded_same _ _ Hsub He). }
  pose proof Hs1 as (_ & _ & _ & _ & Hp1).
  rewrite (bool_decide_eq_false_2 (phase s1 = wakeDoorbellIdle)) in Hplan by (by destruct Hp1 as [[-> _]|[-> _]]).
  destruct Hp1 as [[Hph _]|[Hph _]].
  - rewrite bool_decide_eq_false_2 in Hplan by (by rewrite Hph). by case_match; simplify_eq.
  - rewrite bool_decide_eq_true_2 in Hplan by done. by simplify_eq.
Qed.

Lemma ringing_first now cur p s' :
  cur <> ∅ -> plan now cur zero_state = (p, s') ->
  ringing 0 0 cur s' /\ (attempt p = true -> phase s' = wakeDoorbellRetrying).
Proof.
  intros Hne Hplan.
  assert (plan now cur zero_state = (MkPlan true coopWakeDoorbell false false false, arm cur zero_state)) as E.
  { unfold plan. by rewrite size_nonempty by done. }
  rewrite E in Hplan. simplify_eq. split; [apply ringing_start|done].
Qed.

(** Whether a delivery is a reminder typed at the agent, as opposed to an attention notice or a
    delivery that is not recorded. *)
Definition reminder (d : delivery) : bool :=
  shouldRecordWakeAttempt (d_err d) && negb (d_transient d) && negb (d_attention d) &&
  negb (errors_As (d_err d) wakeAttentionDelivery).

(** What the updates of the configuration leave alone. *)
Definition modes (c : wakeConfig) : string * bool * (bool * bool) :=
  (retryUntil c, inputRecoveryRequired c, (lastAttemptAttention c, lastAttemptTransientAttention c)).

Lemma doorbell_set s c : doorbell (set_doorbell s c) = s.
Proof. by destruct c. Qed.
Lemma doorbell_last x y c : doorbell (set_last x y c) = doorbell c.
Proof. by destruct c. Qed.
Lemma doorbell_term m c : doorbell (set_term m c) = doorbell c.
Proof. by destruct c. Qed.
Lemma doorbell_clear c : doorbell (clearWakeInputState c) = doorbell c.
Proof. by destruct c. Qed.
Lemma doorbell_recovery x c : doorbell (set_recovery x c) = doorbell c.
Proof. by destruct c. Qed.
Lemma doorbell_persist b c : doorbell (persistWakeDoorbellStatus b c).2 = doorbell c.
Proof. unfold persistWakeDoorbellStatus, parkedReminderAttempts. repeat case_match; by destruct c. Qed.
Lemma modes_set s c : modes (set_doorbell s c) = modes c.
Proof. by destruct c. Qed.
Lemma modes_term m c : modes (set_term m c) = modes c.
Proof. by destruct c. Qed.
Lemma modes_clear c : modes (clearWakeInputState c) = modes c.
Proof. by destruct c. Qed.
Lemma modes_persist b c : modes (persistWakeDoorbellStatus b c).2 = modes c.
Proof. unfold persistWakeDoorbellStatus, parkedReminderAttempts. repeat case_match; by destruct c. Qed.
Lemma modes_last x y c : modes (set_last x y c) = (retryUntil c, inputRecoveryRequired c, (x, y)).
Proof. by destruct c. Qed.
Lemma modes_recovery x c :
  modes (set_recovery x c) = (retryUntil c, x, (lastAttemptAttention c, lastAttemptTransientAttention c)).
Proof. by destruct c. Qed.

Create Rewrite HintDb wake.
#[export] Hint Rewrite doorbell_set doorbell_last doorbell_term doorbell_clear doorbell_recovery doorbell_persist
  modes_set modes_term modes_clear modes_persist : wake.

Lemma ringing_recordAttempt now k a cur s :
  ringing k a cur s -> phase s = wakeDoorbellRetrying -> ringing (k + 1) a cur (recordAttempt now s).
Proof.
  intros (Hc & Hr & Hk & Hb & Hp) Hph. destruct Hp as [[_ Hlt]|[? _]]; [|congruence].
  unfold recordAttempt, default_budget. rewrite (proj2 (Z.eqb_neq _ 0)) by lia. cbv zeta.
  unfold ringing. destruct s as [ph co pc at_ re bu na fl ta nt rp ru]; cbn in *. rewrite uint_succ_small by lia. subst.
  destruct (Z.leb_spec bu (k + 1)); cbn; split_and!; try done; try lia.
  - right. split; [done|lia].
  - left. by split.
Qed.

Lemma ringing_record ok now k a cur err c :
  ringing k a cur (doorbell c) -> phase (doorbell c) = wakeDoorbellRetrying -> cur <> ∅ ->
  retryUntil c <> wakeRetryUntilInjected ->
  ringing (k + if lastAttemptTransientAttention c || lastAttemptAttention c || errors_As err wakeAttentionDelivery
               then 0 else 1) a cur (doorbell (recordWakeAttempt ok now cur err c)).
Proof.
  intros Hs Hph Hne Hu. unfold recordWakeAttempt.
  assert (Nat.eqb (size (cohort (doorbell c))) 0 = false) as ->.
  { destruct Hs as (-> & _). rewrite snapshot_size. by apply size_nonempty. }
  rewrite bool_decide_eq_false_2 by done. cbn [andb]. rewrite doorbell_persist, doorbell_set.
  destruct (lastAttemptTransientAttention c); cbn [orb].
  { rewrite Z.add_0_r. by eapply ringing_core; [apply core_deferred|]. }
  destruct (_ || _).
  - rewrite Z.add_0_r. by eapply ringing_core; [apply core_attention|].
  - by apply ringing_recordAttempt.
Qed.

Lemma modes_record ok now cur err c : modes (recordWakeAttempt ok now cur err c) = modes c.
Proof. unfold recordWakeAttempt. cbv zeta. repeat case_match; by autorewrite with wake. Qed.

(** While a write has to be recovered from, the cohort is one that the inbox still holds. *)
Definition recovering (cur : pending) (s : wakeDoorbellState) : Prop :=
  phase s = wakeDoorbellRecoveryRequired -> exists cur0, cur0 ⊆ cur /\ cohort s = snapshotWakeFileIdentities cur0.

(** A doorbell at rest, or one that rang for what the inbox still holds. *)
Definition rang (k : Z) (a : nat) (cur : pending) (s : wakeDoorbellState) : Prop :=
  s = zero_state /\ k = 0 \/
  exists cur0 a0, cur0 ⊆ cur /\ (a0 + added cur0 cur <= a)%nat /\ ringing k a0 cur0 s.

(** Where a wake is that has typed [k] reminders of what the inbox holds. *)
Definition watched (k : Z) (a : nat) (cur : pending) (c : wakeConfig) : Prop :=
  retryUntil c <> wakeRetryUntilInjected /\
  if inputRecoveryRequired c then k <= Z.min 8 (4 + Z.of_nat a) /\ recovering cur (doorbell c)
  else rang k a cur (doorbell c).

Lemma ringing_rang k a cur s : ringing k a cur s -> rang k a cur s.
Proof.
  intros Hs. right. exists cur, a. split; [done|]. split; [|done]. unfold added. rewrite same_not_expanded. lia.
Qed.

Lemma ringing_bound k a cur s : ringing k a cur s -> k <= Z.min 8 (4 + Z.of_nat a).
Proof. intros (_ & _ & _ & Hb & [[_ ?]|[_ ->]]); lia. Qed.

Lemma ringing_not_recovering k a cur s : ringing k a cur s -> recovering cur s.
Proof. intros (_ & _ & _ & _ & [[E _]|[E _]]) H; congruence. Qed.

Lemma recovering_attention now cur ok emitted c :
  cur <> ∅ -> recovering cur (doorbell c) ->
  let x := deliverWakeInputRecoveryAttention now cur ok emitted c in
  recovering cur (doorbell x.2) /\ modes x.2 = modes c.
Proof.
  intros Hne Hr. unfold deliverWakeInputRecoveryAttention, planRecoveryAttention. rewrite size_nonempty by done.
  assert (forall s, cohort (recordRecoveryRequired now cur s) = snapshotWakeFileIdentities cur) as Hc.
  { intros s. unfold recordRecoveryRequired. case_match; by destruct s. }
  assert (forall s, recovering cur (recordRecoveryRequired now cur s)) as Hrec.
  { intros s _. exists cur. split; [done|apply Hc]. }
  assert (forall s, recovering cur (recordRecoveryAttentionDelivered (recordRecoveryRequired now cur s))) as Hrec'.
  { intros s _. exists cur. split; [done|]. rewrite <-(Hc s). by destruct (recordRecoveryRequired now cur s). }
  assert (forall b, recovering cur (set_recoveryPending b (doorbell c))) as Hp.
  { intros b. by destruct (doorbell c). }
  repeat case_match; simplify_eq; cbn [snd]; autorewrite with wake; done.
Qed.

Lemma modes_retry c c' : modes c = modes c' -> retryUntil c = retryUntil c' /\ inputRecoveryRequired c = inputRecoveryRequired c'.
Proof. by injection 1. Qed.

(** What a delivery does to the wake when it does not retire the injector. *)
Lemma applied d c : d_retired d = false ->
  core (doorbell (apply_delivery d c)) = core (doorbell c) /\
  attempts (doorbell (apply_delivery d c)) = attempts (doorbell c) /\
  modes (apply_delivery d c) = (retryUntil c, inputRecoveryRequired c, (d_attention d, d_transient d)).
Proof.
  intros Hret. unfold apply_delivery. rewrite Hret. cbv zeta.
  destruct (d_transient d); autorewrite with wake; rewrite ?core_transient, modes_last; (split; [done|]); split; try done.
  by destruct (doorbell c).
Qed.

(** A delivery that was attempted. *)
Lemma watched_attempt k a cur d p c :
  ringing k a cur (doorbell c) -> phase (doorbell c) = wakeDoorbellRetrying -> cur <> ∅ ->
  retryUntil c <> wakeRetryUntilInjected -> inputRecoveryRequired c = false -> d_retired d = false ->
  watched (k + if reminder d then 1 else 0) a cur (attempt_delivery cur d p c).2.
Proof.
  intros Hs Hph Hne Hu Hq Hret. unfold attempt_delivery. destruct (applied d c Hret) as (Ed & _ & Em).
  set (c1 := apply_delivery d c) in *.
  assert (forall c2, core (doorbell c2) = core (doorbell c) -> modes c2 = modes c1 -> shouldRecordWakeAttempt (d_err d) = true ->
    watched (k + if reminder d then 1 else 0) a cur (recordWakeAttempt (d_ok_record d) (d_later d) cur (d_err d) c2)) as Hrec.
  { intros c2 Hcore Hm Hsr. rewrite Em in Hm. injection Hm as Hm1 Hm2 Hm3 Hm4.
    assert (ringing k a cur (doorbell c2)) as Hs2 by (by eapply ringing_core).
    assert (phase (doorbell c2) = wakeDoorbellRetrying) as Hph2 by (rewrite <-Hph; by injection Hcore).
    pose proof (ringing_record (d_ok_record d) (d_later d) k a cur (d_err d) c2 Hs2 Hph2 Hne) as Hfin.
    rewrite Hm1, Hm3, Hm4 in Hfin. specialize (Hfin Hu).
    destruct (modes_retry _ _ (modes_record (d_ok_record d) (d_later d) cur (d_err d) c2)) as [Er Eq].
    unfold watched. rewrite Er, Eq, Hm1, Hm2, Hq. split; [done|]. apply ringing_rang. unfold reminder. rewrite Hsr.
    by destruct (d_transient d), (d_attention d), (errors_As (d_err d) wakeAttentionDelivery). }
  destruct (errors_As (d_err d) wakeInputDemotionBlocked) eqn:Hb.
  - assert (reminder d = false) as ->.
    { unfold reminder, shouldRecordWakeAttempt. destruct (d_err d); [|done]. rewrite Hb. cbn. by rewrite !andb_false_r. }
    rewrite Z.add_0_r. unfold enterWakeInputRecovery.
    destruct (recovering_attention (d_later d) cur (d_ok_record d) (d_emitted d) (set_recovery true c1) Hne) as [H1 H2].
    { rewrite doorbell_recovery. eapply ringing_not_recovering. by eapply ringing_core. }
    destruct (deliverWakeInputRecoveryAttention _ _ _ _ _) as [err c2]. cbn [snd] in H1, H2.
    rewrite modes_recovery in H2. injection Em as Em1 Em2 Em3 Em4. injection H2 as H2a H2b _ _.
    assert (watched k a cur c2); [|by destruct err]. unfold watched. rewrite H2a, H2b, Em1.
    split; [done|]. split; [by eapply ringing_bound|done].
  - assert (shouldRecordWakeAttempt (d_err d) = false -> reminder d = false) as Hnr by (unfold reminder; by intros ->).
    assert (forall c2, core (doorbell c2) = core (doorbell c) -> modes c2 = modes c1 -> shouldRecordWakeAttempt (d_err d) = false ->
      watched (k + if reminder d then 1 else 0) a cur c2) as Hno.
    { intros c2 Hd2 Hm Hsr. rewrite Hnr by done. rewrite Em in Hm. injection Hm as Hm1 Hm2 _ _.
      unfold watched. rewrite Hm1, Hm2, Hq, Z.add_0_r. split; [done|]. apply ringing_rang. by eapply ringing_core. }
    destruct (shouldRecordWakeAttempt (d_err d)) eqn:Hsr; destruct (negb (mode_none c) && mode_none c1); cbn [snd].
    + apply Hrec; [..|done]; autorewrite with wake; by rewrite ?Ed.
    + lazymatch goal with |- watched _ _ _ (recordWakeAttempt _ _ _ _ (if ?b then _ else _)) => destruct b end; apply Hrec; autorewrite with wake; rewrite ?core_confirm, ?Ed; done.
    + apply Hno; [..|done]; by autorewrite with wake.
    + by apply Hno.
Qed.

Lemma added_trans cur0 cur cur' : cur0 ⊆ cur -> (added cur0 cur' <= added cur0 cur + added cur cur')%nat.
Proof.
  intros Hsub. unfold added. destruct (wakeCohortExpanded _ cur) eqn:H1; [repeat case_match; lia|].
  by rewrite (unexpanded_same _ _ Hsub H1).
Qed.

Lemma rang_grows k a cur cur' s : cur ⊆ cur' -> rang k a cur s -> rang k (a + added cur cur') cur' s.
Proof.
  intros Hsub [?|(cur0 & a0 & Hsub0 & Ha & Hs)]; [by left|right]. exists cur0, a0.
  pose proof (added_trans cur0 cur cur' Hsub0). split; [by etrans|]. split; [lia|done].
Qed.

Lemma rang_plan now k a cur s p s' :
  rang k a cur s -> cur <> ∅ -> plan now cur s = (p, s') ->
  ringing k a cur s' /\ (attempt p = true -> phase s' = wakeDoorbellRetrying).
Proof.
  intros [[-> ->]|(cur0 & a0 & Hsub & Ha & Hs)] Hne Hplan.
  - destruct (ringing_first _ _ _ _ Hne Hplan) as [H1 H2]. split; [|done]. eapply ringing_more; [done|lia].
  - destruct (ringing_plan _ _ _ _ _ _ _ _ Hs Hsub Hne Hplan) as [H1 H2]. split; [|done]. by eapply ringing_more.
Qed.

Lemma recovering_grows cur cur' s : cur ⊆ cur' -> recovering cur s -> recovering cur' s.
Proof. intros Hsub H Hp. destruct (H Hp) as (cur0 & ? & ?). exists cur0. split; [by etrans|done]. Qed.

Lemma watched_deliver k a cur d c :
  rang k a cur (doorbell c) -> cur <> ∅ -> retryUntil c <> wakeRetryUntilInjected -> inputRecoveryRequired c = false ->
  d_retired d = false ->
  let n := plan_and_deliver cur d c in
  watched (k + if attempt (n_plan n) && reminder d then 1 else 0) a cur (n_cfg n).
Proof.
  intros Hs Hne Hu Hq Hret. unfold plan_and_deliver.
  destruct (mode_none c && blocksDemotion (term c)); cbn [n_plan n_cfg attempt no_plan andb].
  { rewrite Z.add_0_r. unfold watched. by rewrite Hq. }
  set (c0 := if mode_none c then _ else c).
  assert (doorbell c0 = doorbell c /\ modes c0 = modes c) as [-> Em0] by (unfold c0; case_match; by autorewrite with wake).
  destruct (plan (d_now d) cur (doorbell c)) as [p s] eqn:Hplan.
  destruct (rang_plan _ _ _ _ _ _ _ Hs Hne Hplan) as [Hs' Hph].
  set (c1 := (persistWakeDoorbellStatus _ _).2).
  assert (forall m, (doorbell (set_term m c1) = s /\ modes (set_term m c1) = modes c) /\ (doorbell c1 = s /\ modes c1 = modes c)) as Hc1.
  { intros m. unfold c1. by autorewrite with wake. }
  assert (forall c2, doorbell c2 = s -> modes c2 = modes c -> watched k a cur c2) as Hidle.
  { intros c2 E Em. injection Em as Em1 Em2 _ _. unfold watched. rewrite Em1, Em2, Hq, E. split; [done|]. by apply ringing_rang. }
  assert (forall c2, doorbell c2 = s -> modes c2 = modes c -> attempt p = true ->
    watched (k + if reminder d then 1 else 0) a cur (attempt_delivery cur d p c2).2) as Hatt.
  { intros c2 E Em Hp. injection Em as Em1 Em2 _ _. apply watched_attempt; try done; rewrite ?E, ?Em1, ?Em2; auto. }
  destruct (attempt p) eqn:Ep; cbn [negb]; [|cbn; rewrite Ep, Z.add_0_r; by apply Hidle; apply (Hc1 (term c))].
  destruct (progress p && input_pending (term c1)); [destruct (d_reconciled d)|].
  - cbn. rewrite Z.add_0_r. apply Hidle; apply Hc1.
  - destruct (input_pending (term (set_term (d_reconciled_term d) c1))); cbn [n_plan n_cfg].
    + cbn. rewrite Z.add_0_r. apply Hidle; apply Hc1.
    + specialize (Hatt (set_term (d_reconciled_term d) c1)). destruct (attempt_delivery _ _ _ _) as [err c2].
      cbn [n_plan n_cfg]. rewrite Ep. apply Hatt; [apply Hc1..|done].
  - specialize (Hatt c1). destruct (attempt_delivery _ _ _ _) as [err c2].
    cbn [n_plan n_cfg]. rewrite Ep. apply Hatt; [apply (Hc1 (term c))..|done].
Qed.

(** One look at the inbox. *)
Lemma watched_notify k a cur cur' d c :
  watched k a cur c -> cur ⊆ cur' -> cur' <> ∅ -> d_retired d = false ->
  let n := deliverNewMessageNotification cur' d c in
  watched (k + if attempt (n_plan n) && reminder d then 1 else 0) (a + added cur cur') cur' (n_cfg n).
Proof.
  intros [Hu Hw] Hsub Hne Hret. unfold deliverNewMessageNotification. destruct (inputRecoveryRequired c) eqn:Hq.
  - destruct Hw as [Hk Hrec]. unfold dischargeWakeInputRecoveryAfterProgress. rewrite Hq, size_nonempty by done. cbn [negb orb].
    apply (recovering_grows _ _ _ Hsub) in Hrec.
    assert (bool_decide (phase (doorbell c) = wakeDoorbellRecoveryRequired) && wakeCohortProgressed (cohort (doorbell c)) cur' = false) as ->.
    { case_bool_decide as Hp; [|done]. destruct (Hrec Hp) as (cur0 & Hs0 & ->). by apply grown_not_progressed. }
    cbn [negb]. destruct (recovering_attention (d_now d) cur' (d_ok_record d) (d_emitted d) c Hne Hrec) as [H1 H2].
    destruct (deliverWakeInputRecoveryAttention _ _ _ _ _) as [err c1]. cbn in H1, H2 |- *. injection H2 as H2a H2b _ _.
    rewrite Z.add_0_r. unfold watched. rewrite H2a, H2b, Hq. split; [done|]. split; [lia|done].
  - apply watched_deliver; try done. by apply rang_grows.
Qed.

(** A sequence of looks at the inbox: what each found there and how what it did came out. *)
Abbreviation look := (pending * delivery)%type.

(** The reminders typed along the looks. *)
Fixpoint reminders (ls : list look) (c : wakeConfig) : Z :=
  match ls with
  | [] => 0
  | (cur, d) :: ls' =>
    let n := deliverNewMessageNotification cur d c in
    (if attempt (n_plan n) && reminder d then 1 else 0) + reminders ls' (n_cfg n)
  end.

(** Nothing is drained: every look finds what the last one found, and maybe more; and the
    injector is not retired. *)
Fixpoint grows (cur : pending) (ls : list look) : Prop :=
  match ls with
  | [] => True
  | (cur', d) :: ls' => cur ⊆ cur' /\ d_retired d = false /\ grows cur' ls'
  end.

Fixpoint additions (cur : pending) (ls : list look) : nat :=
  match ls with
  | [] => 0
  | (cur', _) :: ls' => added cur cur' + additions cur' ls'
  end.

Lemma subseteq_not_empty (cur cur' : pending) : cur ⊆ cur' -> cur <> ∅ -> cur' <> ∅.
Proof.
  intros Hsub Hne ->. apply Hne, map_eq. intros k. rewrite lookup_empty.
  eapply lookup_weaken_None; [apply lookup_empty|done].
Qed.

Lemma watched_bound k a cur c : watched k a cur c -> k <= Z.min 8 (4 + Z.of_nat a).
Proof.
  intros [_ Hw]. case_match; [by destruct Hw|]. destruct Hw as [[_ ->]|(cur0 & a0 & _ & Ha & Hs)]; [lia|].
  apply ringing_bound in Hs. lia.
Qed.

Lemma reminders_bound ls : forall k a cur c,
  watched k a cur c -> cur <> ∅ -> grows cur ls ->
  k + reminders ls c <= Z.min 8 (4 + Z.of_nat (a + additions cur ls)).
Proof.
  induction ls as [|[cur' d] ls IH]; intros k a cur c Hs Hne Hg; cbn [reminders additions].
  { rewrite Z.add_0_r, Nat.add_0_r. by eapply watched_bound. }
  destruct Hg as (Hsub & Hret & Hg). pose proof (subseteq_not_empty _ _ Hsub Hne) as Hne'.
  rewrite Z.add_assoc, Nat.add_assoc. apply IH; [|done|done]. by apply watched_notify.
Qed.

(** C30: An agent that does not drain its inbox is not flooded: from a doorbell at rest that is to
    ring until the inbox is drained (not only until a notice was injected), however often the
    inbox is looked at, whatever comes of the deliveries, and through any input that has to be
    recovered, at most four reminders are recorded for the same unread files, at most one more
    for every time that files were added, and never more than eight in all, as long as nothing
    is drained and the injector is not retired.  A delivery that fails part of the way is not a
    recorded reminder. *)
Theorem doorbell_reminders_bounded cur ls c :
  doorbell c = zero_state -> inputRecoveryRequired c = false -> retryUntil c <> wakeRetryUntilInjected -> cur <> ∅ ->
  grows cur ls ->
  reminders ls c <=
    Z.min wakeDoorbellLifetimeAttemptCap (wakeDoorbellInitialAttemptBudget + Z.of_nat (additions cur ls)).
Proof.
  intros Hz Hq Hu Hne Hg. rewrite <-(Z.add_0_l (reminders ls c)). apply (reminders_bound ls 0 0%nat cur c); [|done|done].
  split; [done|]. rewrite Hq. by left.
Qed.

Definition sample_pending (n : Z) : pending := {["a.md" := Some (MkFileInfo (Some (MkIdentity 1 n 0 0)))]}.
Definition sample_terminal : terminal := MkTerminal "raw" false false.
Definition sample_delivery (t : Z) : delivery :=
  MkDelivery t t t None sample_terminal None false false false sample_terminal true true true true.
Definition sample_wake : wakeConfig :=
  MkWake wakeRetryUntilDrained false false false zero_state (MkStatus false 0) None sample_terminal.
Definition sample_look (n : Z) : look := (sample_pending 1, sample_delivery (n * 10 * Minute)).

Lemma doorbell_reminders_bounded_witness :
  reminders (sample_look <$> [0; 1; 2; 3; 4; 5; 6]) sample_wake = 4 /\
  reminders (sample_look <$> [0; 1; 2; 3; 4; 5; 6]) sample_wake <= 4.
Proof.
  split; [vm_compute; reflexivity|].
  etrans; [apply (doorbell_reminders_bounded (sample_pending 1))|].
  - reflexivity.
  - reflexivity.
  - vm_compute. congruence.
  - unfold sample_pending. apply map_non_empty_singleton.
  - cbn. repeat split; reflexivity.
  - vm_compute. congruence.
Defined.

(** ** When it rings again *)

(** The cohort is what the inbox holds. *)
Definition settled (cur : pending) (s : wakeDoorbellState) : Prop :=
  wakeCohortProgressed (cohort s) cur = false /\ wakeCohortExpanded (cohort s) cur = false.

Lemma settled_snapshot cur s : cohort s = snapshotWakeFileIdentities cur -> settled cur s.
Proof. unfold settled. intros ->. split; [by apply grown_not_progressed|apply same_not_expanded]. Qed.

Lemma settled_cohort cur s s' : cohort s' = cohort s -> settled cur s -> settled cur s'.
Proof. unfold settled. by intros ->. Qed.

Lemma cohort_core s s' : core s' = core s -> cohort s' = cohort s.
Proof. by injection 1. Qed.

Lemma cohort_arm cur s : cohort (arm cur s) = snapshotWakeFileIdentities cur.
Proof. unfold arm, default_budget. case_match; by destruct s. Qed.

Lemma cohort_extend now cur s : cohort (extend_cohort now cur s) = snapshotWakeFileIdentities cur.
Proof.
  unfold extend_cohort. repeat case_match; rewrite ?(cohort_core _ _ (core_pull _ _)), ?cohort_arm; by destruct s.
Qed.

Lemma plan_settled now cur s p s' :
  plan now cur s = (p, s') -> attempt p = true -> settled cur s'.
Proof.
  unfold plan. case_match; [by intros [= <- <-]|]. case_bool_decide.
  { unfold plan_announced. case_match; [|by intros [= <- <-]]. intros [= <- <-] _.
    apply settled_snapshot, cohort_arm. }
  set (s1 := if _ && wakeCohortProgressed _ _ then _ else _). set (s2 := if bool_decide (phase s1 = _) then _ else s1).
  assert (settled cur s2) as Hs2.
  { unfold s2. case_bool_decide as H1; [apply settled_snapshot, cohort_arm|]. unfold s1 in *.
    case_bool_decide as Hi; cbn [negb andb] in *; [done|].
    destruct (wakeCohortProgressed (cohort s) cur) eqn:Hp; [done|].
    destruct (wakeCohortExpanded (cohort s) cur) eqn:He; [apply settled_snapshot, cohort_extend|done]. }
  repeat case_match; by intros [= <- <-].
Qed.

Lemma settled_not_empty cur s : settled cur s -> cur <> ∅ -> Nat.eqb (size (cohort s)) 0 = false.
Proof.
  intros [_ He] Hne. apply Nat.eqb_neq. rewrite map_size_empty_iff. intros E. rewrite E in He.
  apply not_true_iff_false in He. apply map_choose in Hne as (k & x & Hk). apply He, expanded_true.
  exists k. rewrite lookup_empty. split; [by eexists|done].
Qed.

Lemma replan t cur s :
  settled cur s -> cur <> ∅ -> phase s = wakeDoorbellRetrying -> 0 < attempts s ->
  plan t cur s = if Before t (nextAttempt s) then (no_plan, s)
                 else (MkPlan true coopWakeDoorbell (presentationConfirmed s) false false, s).
Proof.
  intros [Hp He] Hne Hph Ha. unfold plan. rewrite size_nonempty by done.
  rewrite !(bool_decide_eq_false_2 (phase s = _)) by (by rewrite Hph). rewrite Hp, He. cbn [negb andb].
  rewrite !(bool_decide_eq_false_2 (phase s = _)) by (by rewrite Hph).
  by rewrite (proj2 (Z.ltb_lt 0 _)) by done.
Qed.

(** An attempt moves the deadline to between the base delay and the maximum from now. *)
Definition deferred_to (now base maximum : Z) (s s' : wakeDoorbellState) : Prop :=
  cohort s' = cohort s /\ 0 < attempts s' /\
  (phase s' = wakeDoorbellRetrying -> now + base <= nextAttempt s' <= now + maximum).

Lemma ladder_defers now base maximum s :
  0 <= attempts s < 2 ^ 64 - 1 -> 0 < base -> base <= maximum -> maximum <= 2 ^ 62 ->
  deferred_to now base maximum s (recordAttemptWithBase now base maximum s).
Proof.
  intros Ha Hb Hm Hx. unfold deferred_to. destruct s as [ph co pc n re bu na fl ta nt rp ru]; cbn in *.
  rewrite uint_succ_small by done. split; [done|]. split; [lia|]. intros _.
  pose proof (backoff_between (n + 1) base maximum). lia.
Qed.

Lemma record_defers (s : wakeDoorbellState) now :
  0 <= attempts s < 2 ^ 64 - 1 ->
  deferred_to now wakeDoorbellRetryBase wakeDoorbellRetryMax s (recordAttempt now s) /\
  deferred_to now wakeDoorbellRetryBase wakeDoorbellRetryMax s (recordDeferredInputAttempt now s) /\
  deferred_to now wakeDoorbellAttentionRetryBase wakeDoorbellAttentionRetryMax s (recordAttentionAttempt now s).
Proof.
  intros Ha. split_and!.
  - pose proof (ladder_defers now wakeDoorbellRetryBase wakeDoorbellRetryMax (default_budget s)) as H.
    assert (attempts (default_budget s) = attempts s /\ cohort (default_budget s) = cohort s) as [Ea Ec].
    { unfold default_budget. case_match; by destruct s. }
    rewrite Ea in H. destruct H as (H1 & H2 & H3); try done. rewrite Ec in H1.
    unfold recordAttempt. cbv zeta. set (s1 := recordAttemptWithBase _ _ _ _) in *.
    unfold deferred_to, parkCurrentCohort. case_match; by destruct s1.
  - by apply ladder_defers.
  - destruct (ladder_defers now wakeDoorbellAttentionRetryBase wakeDoorbellAttentionRetryMax s)
      as (H1 & H2 & H3); try done. unfold recordAttentionAttempt. set (s1 := recordAttemptWithBase _ _ _ _) in *.
    unfold deferred_to. by destruct s1.
Qed.

(** The pace of a delivery: reminders and deferred input on one ladder, attention on another. *)
Definition pace (d : delivery) : Z * Z :=
  if negb (d_transient d) && (d_attention d || errors_As (d_err d) wakeAttentionDelivery)
  then (wakeDoorbellAttentionRetryBase, wakeDoorbellAttentionRetryMax)
  else (wakeDoorbellRetryBase, wakeDoorbellRetryMax).

Lemma record_pace ok now cur d c :
  settled cur (doorbell c) -> cur <> ∅ -> retryUntil c <> wakeRetryUntilInjected ->
  lastAttemptAttention c = d_attention d -> lastAttemptTransientAttention c = d_transient d ->
  0 <= attempts (doorbell c) < 2 ^ 64 - 1 ->
  deferred_to now (pace d).1 (pace d).2 (doorbell c) (doorbell (recordWakeAttempt ok now cur (d_err d) c)).
Proof.
  intros Hs Hne Hu Ha Ht Hn. unfold recordWakeAttempt. rewrite (settled_not_empty cur) by done.
  rewrite bool_decide_eq_false_2 by done. cbn [andb]. rewrite doorbell_persist, doorbell_set, Ha, Ht.
  destruct (record_defers (doorbell c) now Hn) as (H1 & H2 & H3). unfold pace.
  by destruct (d_transient d), (d_attention d), (errors_As (d_err d) wakeAttentionDelivery).
Qed.

Lemma attempts_plan now cur s p s' N : 0 <= attempts s < N -> plan now cur s = (p, s') -> 0 <= attempts s' < N.
Proof.
  intros Hn.
  assert (forall cur s, attempts (arm cur s) = attempts s) as Harm.
  { intros ? x. unfold arm, default_budget. case_match; by destruct x. }
  assert (forall s, attempts (pullForwardForAddition now s) = attempts s) as Hpull.
  { intros x. unfold pullForwardForAddition. repeat case_match; by destruct x. }
  assert (forall s, attempts (extend_cohort now cur s) = attempts s) as Hext.
  { intros x. unfold extend_cohort. repeat case_match; rewrite ?Hpull, ?Harm; by destruct x. }
  unfold plan, plan_announced. repeat case_match; intros [= <- <-]; rewrite ?Harm, ?Hext; cbn; try lia.
Qed.

Lemma attempt_paced cur d p c :
  settled cur (doorbell c) -> cur <> ∅ -> retryUntil c <> wakeRetryUntilInjected -> d_retired d = false ->
  shouldRecordWakeAttempt (d_err d) = true -> 0 <= attempts (doorbell c) < 2 ^ 64 - 1 ->
  deferred_to (d_later d) (pace d).1 (pace d).2 (doorbell c) (doorbell (attempt_delivery cur d p c).2).
Proof.
  intros Hs Hne Hu Hret Hsr Hn. unfold attempt_delivery. rewrite Hsr. destruct (applied d c Hret) as (Ed & Ea & Em).
  set (c1 := apply_delivery d c) in *. apply cohort_core in Ed.
  assert (errors_As (d_err d) wakeInputDemotionBlocked = false) as ->.
  { unfold shouldRecordWakeAttempt in Hsr. destruct (d_err d); [|done].
    by destruct (errors_As _ wakeInputDemotionBlocked); rewrite ?andb_false_r in Hsr. }
  assert (forall c2, cohort (doorbell c2) = cohort (doorbell c) -> attempts (doorbell c2) = attempts (doorbell c) ->
    modes c2 = modes c1 -> deferred_to (d_later d) (pace d).1 (pace d).2 (doorbell c)
      (doorbell (recordWakeAttempt (d_ok_record d) (d_later d) cur (d_err d) c2))) as Hrec.
  { intros c2 Hc Ha Hm. rewrite Em in Hm. injection Hm as Hm1 Hm2 Hm3 Hm4.
    destruct (record_pace (d_ok_record d) (d_later d) cur d c2) as (H1 & H2 & H3); try done.
    - by eapply settled_cohort.
    - by rewrite Hm1.
    - by rewrite Ha.
    - split_and!; [congruence|done|done]. }
  destruct (negb (mode_none c) && mode_none c1); cbn [snd].
  - apply Hrec; autorewrite with wake; by rewrite ?Ed.
  - lazymatch goal with |- context [recordWakeAttempt _ _ _ _ (if ?b then _ else _)] => destruct b end;
      apply Hrec; autorewrite with wake; rewrite <-?Ed, <-?Ea; try done; by destruct (doorbell c1).
Qed.

Lemma replan_parked t cur s : settled cur s -> cur <> ∅ -> phase s = wakeDoorbellParked -> attempt (plan t cur s).1 = false.
Proof.
  intros [Hp He] Hne Hph. unfold plan. rewrite size_nonempty by done.
  rewrite !(bool_decide_eq_false_2 (phase s = _)) by (by rewrite Hph). rewrite Hp, He. cbn [negb andb].
  rewrite !(bool_decide_eq_false_2 (phase s = wakeDoorbellIdle)) by (by rewrite Hph).
  by rewrite bool_decide_eq_true_2.
Qed.

(** Where a delivery that was made and recorded leaves the wake. *)
Record recorded (cur : pending) (d : delivery) (c : wakeConfig) : Prop := {
  rc_input : inputRecoveryRequired c = false;
  rc_settled : settled cur (doorbell c);
  rc_attempts : 0 < attempts (doorbell c);
  rc_deadline : phase (doorbell c) = wakeDoorbellRetrying ->
    d_later d + (pace d).1 <= nextAttempt (doorbell c) <= d_later d + (pace d).2;
}.

(** A recorded attempt does not ask for recovery. *)
Lemma modes_attempt cur d p c : d_retired d = false -> shouldRecordWakeAttempt (d_err d) = true ->
  inputRecoveryRequired (attempt_delivery cur d p c).2 = inputRecoveryRequired c.
Proof.
  intros Hret Hsr. unfold attempt_delivery. rewrite Hsr. destruct (applied d c Hret) as (_ & _ & Em).
  set (c1 := apply_delivery d c) in *. injection Em as _ <- _ _.
  assert (errors_As (d_err d) wakeInputDemotionBlocked = false) as ->.
  { unfold shouldRecordWakeAttempt in Hsr. destruct (d_err d); [|done].
    by destruct (errors_As _ wakeInputDemotionBlocked); rewrite ?andb_false_r in Hsr. }
  assert (forall c2, modes c2 = modes c1 ->
    inputRecoveryRequired (recordWakeAttempt (d_ok_record d) (d_later d) cur (d_err d) c2) = inputRecoveryRequired c1) as Hrec.
  { intros c2 Hm. rewrite <-modes_record with (ok := d_ok_record d) (now := d_later d) (cur := cur) (err := d_err d) in Hm.
    by injection Hm. }
  destruct (negb (mode_none c) && mode_none c1); cbn [snd]; apply Hrec; repeat case_match; by autorewrite with wake.
Qed.

Lemma deliver_recorded cur d c :
  cur <> ∅ -> retryUntil c <> wakeRetryUntilInjected -> inputRecoveryRequired c = false -> d_retired d = false ->
  shouldRecordWakeAttempt (d_err d) = true -> 0 <= attempts (doorbell c) < 2 ^ 64 - 1 ->
  let n := plan_and_deliver cur d c in attempt (n_plan n) = true -> recorded cur d (n_cfg n).
Proof.
  intros Hne Hu Hq Hret Hsr Hn. unfold plan_and_deliver.
  destruct (mode_none c && blocksDemotion (term c)); [done|]. set (c0 := if mode_none c then _ else c).
  assert (doorbell c0 = doorbell c /\ modes c0 = modes c) as [-> Em0] by (unfold c0; case_match; by autorewrite with wake).
  destruct (plan (d_now d) cur (doorbell c)) as [p s] eqn:Hplan.
  pose proof (plan_settled _ _ _ _ _ Hplan) as Hset. pose proof (attempts_plan _ _ _ _ _ _ Hn Hplan) as Hns.
  set (c1 := (persistWakeDoorbellStatus _ _).2).
  assert (forall c2, doorbell c2 = s -> modes c2 = modes c -> attempt p = true ->
    recorded cur d (attempt_delivery cur d p c2).2) as Hatt.
  { intros c2 E Em Hp. injection Em as Em1 Em2 _ _.
    destruct (attempt_paced cur d p c2) as (Hco & Hpos & Hnext); rewrite ?E, ?Em1; auto.
    split; [by rewrite modes_attempt, Em2|apply (settled_cohort _ s); [by rewrite Hco, E|by apply Hset]|done|done]. }
  assert (forall m, (doorbell (set_term m c1) = s /\ modes (set_term m c1) = modes c) /\ (doorbell c1 = s /\ modes c1 = modes c)) as Hc1.
  { intros m. unfold c1. by autorewrite with wake. }
  destruct (attempt p) eqn:Ep; cbn [negb n_plan n_cfg]; [|congruence].
  destruct (progress p && input_pending (term c1)); [destruct (d_reconciled d); [done|]|].
  - destruct (input_pending (term (set_term (d_reconciled_term d) c1))); [done|].
    specialize (Hatt (set_term (d_reconciled_term d) c1)). destruct (attempt_delivery _ _ _ _) as [err c2].
    intros _. apply Hatt; [apply Hc1..|done].
  - specialize (Hatt c1). destruct (attempt_delivery _ _ _ _) as [err c2].
    intros _. apply Hatt; [apply (Hc1 (term c))..|done].
Qed.

Lemma notify_recorded cur d c :
  cur <> ∅ -> retryUntil c <> wakeRetryUntilInjected -> d_retired d = false ->
  shouldRecordWakeAttempt (d_err d) = true -> 0 <= attempts (doorbell c) < 2 ^ 64 - 1 ->
  let n := deliverNewMessageNotification cur d c in attempt (n_plan n) = true -> recorded cur d (n_cfg n).
Proof.
  intros Hne Hu Hret Hsr Hn. unfold deliverNewMessageNotification.
  destruct (inputRecoveryRequired c) eqn:Hq; [|by apply deliver_recorded].
  unfold dischargeWakeInputRecoveryAfterProgress. rewrite Hq, size_nonempty by done. cbn [negb orb].
  destruct (bool_decide (phase (doorbell c) = _) && _); cbn [negb].
  - set (c1 := (persistWakeDoorbellStatus _ _).2). assert (modes c1 = modes (set_recovery false c)) as Em
      by (unfold c1; by autorewrite with wake).
    rewrite modes_recovery in Em. injection Em as Em1 Em2 _ _.
    apply deliver_recorded; try done; [by rewrite Em1|]. unfold c1. by autorewrite with wake.
  - by destruct (deliverWakeInputRecoveryAttention _ _ _ _ _).
Qed.

(** The wake after a sequence of looks. *)
Fixpoint after (ls : list look) (c : wakeConfig) : wakeConfig :=
  match ls with
  | [] => c
  | (cur, d) :: ls' => after ls' (n_cfg (deliverNewMessageNotification cur d c))
  end.

Lemma reminders_snoc ls cur d c : reminders (ls ++ [(cur, d)]) c =
  reminders ls c + if attempt (n_plan (deliverNewMessageNotification cur d (after ls c))) && reminder d then 1 else 0.
Proof.
  revert c; induction ls as [|[cur0 d0] ls IH]; intros c; cbn [reminders after app]; [lia|]. rewrite IH. lia.
Qed.

Lemma watched_looks ls cur' d : forall k a cur c, watched k a cur c -> cur <> ∅ -> grows cur (ls ++ [(cur', d)]) ->
  exists a cur1, watched (k + reminders ls c) a cur1 (after ls c) /\ cur1 ⊆ cur' /\ cur' <> ∅ /\ d_retired d = false.
Proof.
  induction ls as [|[cur0 d0] ls IH]; intros k a cur c Hw Hne Hg; cbn [reminders after].
  { destruct Hg as (Hsub & Hret & _). exists a, cur. rewrite Z.add_0_r. split_and!; try done. by eapply subseteq_not_empty. }
  destruct Hg as (Hsub & Hret & Hg). pose proof (subseteq_not_empty _ _ Hsub Hne) as Hne0.
  rewrite Z.add_assoc. eapply IH; [by apply watched_notify|done|done].
Qed.

(** Where the doorbell is after the [k]-th recorded delivery [d] of reminders of [cur]: it goes
    on at its pace while it has typed fewer reminders than its budget, and is silent after that. *)
Definition paced (k : Z) (cur : pending) (d : delivery) (s : wakeDoorbellState) : Prop :=
  wakeDoorbellInitialAttemptBudget <= attemptBudget s <= wakeDoorbellLifetimeAttemptCap /\ k <= attemptBudget s /\
  if Z.ltb k (attemptBudget s)
  then d_later d + (pace d).1 <= nextAttempt s <= d_later d + (pace d).2 /\
       forall t, attempt (plan t cur s).1 = negb (Before t (nextAttempt s))
  else forall t, attempt (plan t cur s).1 = false.

Lemma recorded_paced k a cur0 cur d c : recorded cur d c -> cur0 ⊆ cur -> cur <> ∅ -> ringing k a cur0 (doorbell c) ->
  paced k cur d (doorbell c).
Proof.
  intros [_ Hset Hpos Hdl] Hsub Hne (_ & _ & _ & Hb & Hph). unfold paced.
  change wakeDoorbellInitialAttemptBudget with 4. change wakeDoorbellLifetimeAttemptCap with 8.
  split; [lia|]. destruct Hph as [[Hph Hlt]|[Hph ->]]; (split; [lia|]).
  - rewrite (proj2 (Z.ltb_lt k _)) by done. split; [by apply Hdl|]. intros t. rewrite replan by done. by destruct (Before t _).
  - rewrite Z.ltb_irrefl. intros t. by apply replan_parked.
Qed.

(** C31: The doorbell keeps its pace.  From a doorbell at rest that is to ring until the inbox is
    drained, after any looks at an inbox from which nothing is drained, when a look makes a
    delivery that is recorded: while fewer reminders were recorded in all than the budget, which
    is at least four and at most eight, and the inbox stays as it is, the doorbell rings again
    at its deadline and not before, and the deadline is at least the base delay and at most the
    maximum delay after the delivery: 5 seconds and 2 minutes for a reminder, 30 seconds and 15
    minutes for an attention notice; when the budget is used up it does not ring again for the
    same files. *)
Theorem doorbell_paced cur ls cur' d c :
  doorbell c = zero_state -> inputRecoveryRequired c = false -> retryUntil c <> wakeRetryUntilInjected -> cur <> ∅ ->
  grows cur (ls ++ [(cur', d)]) -> shouldRecordWakeAttempt (d_err d) = true ->
  0 <= attempts (doorbell (after ls c)) < 2 ^ 64 - 1 ->
  let n := deliverNewMessageNotification cur' d (after ls c) in attempt (n_plan n) = true ->
  paced (reminders (ls ++ [(cur', d)]) c) cur' d (doorbell (n_cfg n)).
Proof.
  intros Hz Hq Hu Hne Hg Hsr Ha n Hn.
  destruct (watched_looks ls cur' d 0 0 cur c) as (a & cur1 & Hw & Hsub & Hne' & Hret); [|done|done|].
  { split; [done|]. rewrite Hq. by left. }
  pose proof (notify_recorded cur' d (after ls c) Hne' (proj1 Hw) Hret Hsr Ha Hn) as Hrec.
  apply (watched_notify _ _ _ cur' d) in Hw; [|done..]. fold n in Hw, Hrec. rewrite reminders_snoc. fold n.
  destruct Hw as [_ Hw]. rewrite (rc_input _ _ _ Hrec) in Hw. destruct Hw as [[E _]|(cur0 & a0 & Hsub0 & _ & Hs)].
  - pose proof (rc_attempts _ _ _ Hrec) as Hpos. by rewrite E in Hpos.
  - rewrite Z.add_0_l in Hs. by apply (recorded_paced _ _ cur0 _ _ _ Hrec Hsub0 Hne' Hs).
Qed.

Lemma doorbell_paced_witness :
  let ls := sample_look <$> [0; 1] in
  let n := deliverNewMessageNotification (sample_pending 1) (sample_delivery (20 * Minute)) (after ls sample_wake) in
  reminders (ls ++ [sample_look 2]) sample_wake = 3 /\
  paced (reminders (ls ++ [sample_look 2]) sample_wake) (sample_pending 1) (sample_delivery (20 * Minute)) (doorbell (n_cfg n)).
Proof.
  intros ls n. split; [vm_compute; reflexivity|].
  apply (doorbell_paced (sample_pending 1) ls (sample_pending 1) (sample_delivery (20 * Minute)) sample_wake).
  - reflexivity.
  - reflexivity.
  - vm_compute. congruence.
  - unfold sample_pending. apply map_non_empty_singleton.
  - cbn. repeat split; reflexivity.
  - reflexivity.
  - vm_compute. split; congruence.
  - vm_compute. reflexivity.
Defined.

(** ** Announcing once *)

Lemma replaced_snapshot cur cur' :
  wakeCohortReplacedInPlace (snapshotWakeFileIdentities cur) cur' = true <->
  exists name old new i j, cur !! name = Some (Some old) /\ cur' !! name = Some (Some new) /\
    Sys old = Some i /\ Sys new = Some j /\ i <> j.
Proof.
  rewrite replaced_true. unfold member_replaced, captureWakeFileIdentity. split.
  - intros (k & i & Hk & Hm). rewrite snapshot_lookup in Hk. apply fmap_Some in Hk as (info & Hk & ->).
    destruct (cur' !! k) as [[new|]|] eqn:Hn; try done. destruct info as [old|]; cbn in Hm; [|done].
    destruct (Sys old) as [i|] eqn:Hi; [|done]. destruct (Sys new) as [j|] eqn:Hj; [|done].
    apply negb_true_iff, bool_decide_eq_false in Hm. by exists k, old, new, i, j.
  - intros (k & old & new & i & j & Hk & Hk' & Hi & Hj & Hne). exists k, (Some i).
    rewrite snapshot_lookup, Hk, Hk', Hj. cbn. rewrite Hi. split; [done|]. by rewrite bool_decide_eq_false_2.
Qed.

(** A wake that only has to announce messages announces each once: after a recorded
    injection of the files [cur], a later look at a nonempty inbox rings again exactly when a
    file is there whose name was not, or a name now stands for a file that is provably
    another. *)
Theorem doorbell_announces_once now cur cur' s :
  cur' <> ∅ ->
  attempt (plan now cur' (recordInjected cur s)).1 = true <->
    (exists name, is_Some (cur' !! name) /\ cur !! name = None) \/
    (exists name old new i j, cur !! name = Some (Some old) /\ cur' !! name = Some (Some new) /\
       Sys old = Some i /\ Sys new = Some j /\ i <> j).
Proof.
  intros Hne. unfold plan. rewrite size_nonempty by done. rewrite bool_decide_eq_true_2 by done.
  unfold plan_announced. change (cohort (recordInjected cur s)) with (snapshotWakeFileIdentities cur).
  rewrite <-replaced_snapshot.
  assert (wakeCohortExpanded (snapshotWakeFileIdentities cur) cur' = true <->
    exists name, is_Some (cur' !! name) /\ cur !! name = None) as <-.
  { rewrite expanded_true. split; intros (k & Hk & Hn); exists k; split; try done; rewrite snapshot_lookup in *.
    - by apply fmap_None in Hn.
    - by rewrite Hn. }
  rewrite <-orb_true_iff. by destruct (_ || _).
Qed.

Lemma doorbell_announces_once_witness :
  attempt (plan 5 (sample_pending 2) (recordInjected (sample_pending 1) zero_state)).1 = true /\
  attempt (plan 5 (sample_pending 1) (recordInjected (sample_pending 1) zero_state)).1 = false.
Proof.
  split; [|vm_compute; reflexivity].
  apply doorbell_announces_once; [apply map_non_empty_singleton|]. right.
  exists "a.md", (MkFileInfo (Some (MkIdentity 1 1 0 0))), (MkFileInfo (Some (MkIdentity 1 2 0 0))),
    (MkIdentity 1 1 0 0), (MkIdentity 1 2 0 0).
  split_and!; try reflexivity. congruence.
Defined.

(** ** The reported status *)

Definition status_of (s : wakeDoorbellState) : wakeDoorbellStatus :=
  MkStatus (bool_decide (phase s = wakeDoorbellParked))
    (if bool_decide (phase s = wakeDoorbellParked) then reminderAttempts s else 0).

Definition reported (c : wakeConfig) : Prop :=
  reportedDoorbellStatus c = status_of (doorbell c) /\ pendingDoorbellStatus c = None.

Lemma persist_reported c : reported (persistWakeDoorbellStatus true c).2.
Proof.
  unfold persistWakeDoorbellStatus, parkedReminderAttempts. fold (status_of (doorbell c)).
  repeat case_bool_decide; cbn; unfold reported; simplify_eq; by destruct c.
Qed.

Lemma plan_rings_unparked now cur s p s' :
  plan now cur s = (p, s') -> attempt p = true -> phase s' <> wakeDoorbellParked.
Proof.
  unfold plan, plan_announced. repeat case_match; intros [= <- <-]; try done; intros _;
    repeat match goal with H : bool_decide _ = false |- _ => apply bool_decide_eq_false in H end; try done.
  unfold arm, default_budget. case_match; by destruct s.
Qed.

Lemma unparked_status s : phase s <> wakeDoorbellParked -> status_of s = MkStatus false 0.
Proof. intros H. unfold status_of. by rewrite bool_decide_eq_false_2. Qed.

(** The reports made and the status they are about. *)
Definition report (c : wakeConfig) : wakeDoorbellStatus * option wakeDoorbellStatus * wakeDoorbellStatus :=
  (reportedDoorbellStatus c, pendingDoorbellStatus c, status_of (doorbell c)).

Lemma reported_report c c' : report c' = report c -> reported c -> reported c'.
Proof.
  unfold report, reported. intros [[E1 E2]%pair_equal_spec E3]%pair_equal_spec. by rewrite E1, E2, E3.
Qed.

Lemma report_set s c : status_of s = status_of (doorbell c) -> report (set_doorbell s c) = report c.
Proof. intros E. unfold report. rewrite doorbell_set, E. by destruct c. Qed.
Lemma report_last x y c : report (set_last x y c) = report c.
Proof. by destruct c. Qed.
Lemma report_term m c : report (set_term m c) = report c.
Proof. by destruct c. Qed.
Lemma report_clear c : report (clearWakeInputState c) = report c.
Proof. by destruct c. Qed.
Lemma report_recovery x c : report (set_recovery x c) = report c.
Proof. by destruct c. Qed.

Definition unparked (c : wakeConfig) : Prop := reported c /\ phase (doorbell c) <> wakeDoorbellParked.

Lemma reported_attention now cur emitted c :
  cur <> ∅ -> reported c -> reported (deliverWakeInputRecoveryAttention now cur true emitted c).2.
Proof.
  intros Hne Hr. unfold deliverWakeInputRecoveryAttention, planRecoveryAttention. rewrite size_nonempty by done.
  assert (forall x s, status_of (set_recoveryPending x s) = status_of s) as Hp by (intros x s; by destruct s).
  assert (forall s, status_of (recordRecoveryAttentionDelivered s) = status_of s) as Hd by (intros s; by destruct s).
  assert (forall c, reported c -> reported (set_doorbell (recordRecoveryAttentionDelivered (doorbell c)) c)) as Hd'.
  { intros x. unfold reported. rewrite doorbell_set, Hd. by destruct x. }
  repeat case_match; simplify_eq; cbn [snd]; try (apply Hd'); try apply persist_reported;
    (eapply reported_report; [|exact Hr]); by apply report_set.
Qed.

Lemma reported_record now cur err c : unparked c -> reported (recordWakeAttempt true now cur err c).
Proof.
  intros [Hr Hp]. unfold recordWakeAttempt. set (c1 := if Nat.eqb _ 0 then _ else c).
  lazymatch goal with |- reported (if ?b then _ else _) => destruct b end; [|apply persist_reported].
  assert (reported c1 /\ status_of (doorbell c1) = MkStatus false 0) as [Hr1 Hs1].
  { unfold c1. case_match; [|split; [done|by apply unparked_status]]. rewrite doorbell_set.
    assert (status_of (arm cur (doorbell c)) = MkStatus false 0) as Ha.
    { apply unparked_status. unfold arm, default_budget. case_match; by destruct (doorbell c). }
    split; [|done]. eapply reported_report; [|exact Hr]. apply report_set. by rewrite Ha, unparked_status. }
  eapply reported_report; [|exact Hr1]. apply report_set. by rewrite Hs1.
Qed.

Lemma reported_attempt cur d p c :
  d_ok_retire d = true -> d_ok_record d = true -> cur <> ∅ -> unparked c -> reported (attempt_delivery cur d p c).2.
Proof.
  intros H1 H2 Hne [Hr Hp]. unfold attempt_delivery. rewrite H2.
  assert (unparked (apply_delivery d c)) as Hu.
  { unfold apply_delivery. rewrite H1. split.
    - case_match; [apply persist_reported|]. eapply reported_report; [|exact Hr].
      case_match; [rewrite report_set by (by destruct (doorbell (set_term _ _)))|]; by rewrite report_term, report_last.
    - repeat case_match; autorewrite with wake; try done. by destruct (doorbell c). }
  set (c1 := apply_delivery d c) in *. destruct (errors_As _ wakeInputDemotionBlocked).
  { unfold enterWakeInputRecovery. pose proof (reported_attention (d_later d) cur (d_emitted d) (set_recovery true c1) Hne) as Ha.
    destruct (deliverWakeInputRecoveryAttention _ _ _ _ _) as [[err|] c2]; apply Ha;
      (eapply reported_report; [apply report_recovery|apply Hu]). }
  assert (unparked (clearWakeInputState c1)) as Hc.
  { split; [eapply reported_report; [apply report_clear|apply Hu]|]. rewrite doorbell_clear. apply Hu. }
  assert (unparked (set_doorbell (confirmPresentation (doorbell c1)) c1)) as Hf.
  { split; [|rewrite doorbell_set; destruct Hu as [_ Hu]; by destruct (doorbell c1)].
    eapply reported_report; [|apply Hu]. apply report_set. by destruct (doorbell c1). }
  destruct (_ && mode_none c1); destruct (shouldRecordWakeAttempt (d_err d)); cbn [snd];
    try apply reported_record; try done; try apply Hc; try apply Hu. by case_match.
Qed.

Lemma plan_rings_nonempty now cur s p s' : plan now cur s = (p, s') -> attempt p = true -> cur <> ∅.
Proof. intros Hplan Ha ->. unfold plan in Hplan. rewrite map_size_empty in Hplan. cbn in Hplan. by simplify_eq. Qed.

Lemma reported_deliver cur d c :
  d_ok_plan d = true -> d_ok_retire d = true -> d_ok_record d = true -> reported c ->
  reported (n_cfg (plan_and_deliver cur d c)).
Proof.
  intros H1 H2 H3 Hr. unfold plan_and_deliver. destruct (_ && blocksDemotion _); [done|]. rewrite H1.
  set (c0 := if mode_none c then _ else c). destruct (plan (d_now d) cur (doorbell c0)) as [p s] eqn:Hplan.
  pose proof (persist_reported (set_doorbell s c0)) as Hr1. set (c1 := (persistWakeDoorbellStatus true _).2) in *.
  assert (doorbell c1 = s) as E1 by (unfold c1; by autorewrite with wake).
  destruct (attempt p) eqn:Ep; cbn [negb n_cfg]; [|done].
  pose proof (plan_rings_unparked _ _ _ _ _ Hplan Ep) as Hu. pose proof (plan_rings_nonempty _ _ _ _ _ Hplan Ep) as Hne.
  assert (forall m, reported (set_term m c1)) as Hrm by (intros m; by eapply reported_report; [apply report_term|]).
  assert (forall c2, reported c2 -> doorbell c2 = s -> reported (n_cfg (let '(err, c) := attempt_delivery cur d p c2 in MkNotified p err c))) as Hatt.
  { intros c2 Hr2 E2. pose proof (reported_attempt cur d p c2 H2 H3 Hne) as Ha. destruct (attempt_delivery _ _ _ _).
    apply Ha. split; [done|]. by rewrite E2. }
  destruct (progress p && _); [destruct (d_reconciled d); [apply Hrm|]|by apply Hatt].
  destruct (input_pending _); [apply Hrm|]. apply Hatt; [apply Hrm|]. by autorewrite with wake.
Qed.

(** What the wake reports about its doorbell is true: a look at the inbox whose status writes
    succeed leaves the reported status saying whether the doorbell is parked and after how many
    reminders, with no report left to be made, whatever came of the delivery. *)
Theorem doorbell_status_reported cur d c :
  d_ok_plan d = true -> d_ok_retire d = true -> d_ok_record d = true -> reported c ->
  reported (n_cfg (deliverNewMessageNotification cur d c)).
Proof.
  intros H1 H2 H3 Hr. unfold deliverNewMessageNotification. destruct (inputRecoveryRequired c) eqn:Hq; [|by apply reported_deliver].
  unfold dischargeWakeInputRecoveryAfterProgress. rewrite Hq, H1. cbn [negb].
  lazymatch goal with |- context [negb ?b] => destruct b eqn:Hb end; cbn [negb].
  - case_match; [apply persist_reported|]. apply reported_deliver; try done. apply persist_reported.
  - pose proof (reported_attention (d_now d) cur (d_emitted d) c) as Ha. rewrite H3.
    destruct (deliverWakeInputRecoveryAttention _ _ _ _ _) as [err c1]. apply Ha; [|done].
    intros ->. by rewrite map_size_empty in Hb.
Qed.

Lemma doorbell_status_reported_witness :
  reported (n_cfg (deliverNewMessageNotification (sample_pending 1) (sample_delivery 7) sample_wake)).
Proof. apply doorbell_status_reported; try reflexivity. split; reflexivity. Defined.
