(* ===== verification/SessionGuard.v ===== *)
(** The policy table of the session guard: internal/sessionguard/session_guard_table.go. *)
From S2P Require Import Prelude.

Inductive Kind := KindMailbox | KindSource | KindList | KindEnv | KindDoctorRepair.
Inductive Channel := ChannelExit5 | ChannelJSON.
Inductive PinState := PinAbsent | PinLegacy | PinIdentity | PinInvalid.
Inductive TargetRelation := TargetUnbound | TargetMatch | TargetMismatch | TargetOwnPinnedBase.
Inductive Verdict := Allow | RefuseExit5 | WarnContinue | StructuredErrorContinueExit0 | JSONErrorExit0.

#[global] Instance Kind_eq_dec : EqDecision Kind. Proof. solve_decision. Defined.
#[global] Instance Channel_eq_dec : EqDecision Channel. Proof. solve_decision. Defined.
#[global] Instance PinState_eq_dec : EqDecision PinState. Proof. solve_decision. Defined.
#[global] Instance TargetRelation_eq_dec : EqDecision TargetRelation. Proof. solve_decision. Defined.
#[global] Instance Verdict_eq_dec : EqDecision Verdict. Proof. solve_decision. Defined.

Definition RowR01UnboundAllow : string := "R01_unbound_allow".
Definition RowR02MatchAllow : string := "R02_match_allow".
Definition RowR03MailboxRouted : string := "R03_mailbox_routed_allow".
Definition RowR04IgnorePin : string := "R04_ignore_pin_allow".
Definition RowR05SourceFromSession : string := "R05_source_from_session_allow".
Definition RowR06ListOwnBase : string := "R06_list_own_base_allow".
Definition RowR07DoctorOwnBase : string := "R07_doctor_own_base_allow".
Definition RowR08MismatchExit5 : string := "R08_mismatch_exit5".
Definition RowR09InvalidExit5 : string := "R09_invalid_pin_exit5".
Definition RowR10ListMismatchWarn : string := "R10_list_mismatch_warn".
Definition RowR11ListInvalidWarn : string := "R11_list_invalid_warn".
Definition RowR12DoctorMismatchErr : string := "R12_doctor_mismatch_structured_error".
Definition RowR13DoctorInvalidErr : string := "R13_doctor_invalid_structured_error".
Definition RowR14RouteMismatchJSON : string := "R14_route_mismatch_json_error".
Definition RowR15RouteInvalidJSON : string := "R15_route_invalid_json_error".

Definition canonicalRows : list string :=
  [RowR01UnboundAllow; RowR02MatchAllow; RowR03MailboxRouted; RowR04IgnorePin; RowR05SourceFromSession;
   RowR06ListOwnBase; RowR07DoctorOwnBase; RowR08MismatchExit5; RowR09InvalidExit5; RowR10ListMismatchWarn;
   RowR11ListInvalidWarn; RowR12DoctorMismatchErr; RowR13DoctorInvalidErr; RowR14RouteMismatchJSON;
   RowR15RouteInvalidJSON].

Record Flags := MkFlags {
  Routed : bool; IgnorePin : bool; ExplicitRoot : bool; ExplicitContext : bool; CrossProject : bool;
  FromSession : bool; Revalidation : bool }.

Record Input := MkInput {
  in_Kind : Kind; in_Channel : Channel; in_Pin : PinState; in_Relation : TargetRelation; in_Flags : Flags }.

Record Decision := MkDecision { Row : string; Verdict_ : Verdict }.
#[global] Instance Decision_eq_dec : EqDecision Decision. Proof. solve_decision. Defined.

Definition validPin (pin : PinState) : bool :=
  bool_decide (pin = PinAbsent) || bool_decide (pin = PinLegacy) || bool_decide (pin = PinIdentity).

Definition decisionFor (row : string) (verdict : Verdict) : Decision := MkDecision row verdict.

Definition decide_invalid (inp : Input) : Decision :=
  match in_Kind inp with
  | KindList => decisionFor RowR11ListInvalidWarn WarnContinue
  | KindDoctorRepair => decisionFor RowR13DoctorInvalidErr StructuredErrorContinueExit0
  | KindSource =>
    if bool_decide (in_Channel inp = ChannelJSON) then decisionFor RowR15RouteInvalidJSON JSONErrorExit0
    else decisionFor RowR09InvalidExit5 RefuseExit5
  | _ => decisionFor RowR09InvalidExit5 RefuseExit5
  end.

Definition own_base (inp : Input) : option Decision :=
  if bool_decide (in_Relation inp = TargetOwnPinnedBase) then
    match in_Kind inp with
    | KindList =>
      if ExplicitRoot (in_Flags inp) && validPin (in_Pin inp) then Some (decisionFor RowR06ListOwnBase Allow) else None
    | KindDoctorRepair => if validPin (in_Pin inp) then Some (decisionFor RowR07DoctorOwnBase Allow) else None
    | _ => None
    end
  else None.

Definition Decide (inp : Input) : Decision :=
  let k := in_Kind inp in let f := in_Flags inp in
  if bool_decide (k = KindMailbox) && Routed f && validPin (in_Pin inp) then decisionFor RowR03MailboxRouted Allow else
  if IgnorePin f && (bool_decide (k = KindMailbox) || bool_decide (k = KindSource) || bool_decide (k = KindDoctorRepair))
  then decisionFor RowR04IgnorePin Allow else
  if bool_decide (k = KindSource) && FromSession f && validPin (in_Pin inp)
  then decisionFor RowR05SourceFromSession Allow else
  if bool_decide (in_Pin inp = PinInvalid) then decide_invalid inp else
  if bool_decide (in_Relation inp = TargetUnbound) then decisionFor RowR01UnboundAllow Allow else
  if bool_decide (in_Relation inp = TargetMatch) && validPin (in_Pin inp) then decisionFor RowR02MatchAllow Allow else
  match own_base inp with
  | Some d => d
  | None =>
    if bool_decide (k = KindList) then decisionFor RowR10ListMismatchWarn WarnContinue else
    if bool_decide (k = KindDoctorRepair) then decisionFor RowR12DoctorMismatchErr StructuredErrorContinueExit0 else
    if bool_decide (k = KindSource) && bool_decide (in_Channel inp = ChannelJSON)
    then decisionFor RowR14RouteMismatchJSON JSONErrorExit0 else
    decisionFor RowR08MismatchExit5 RefuseExit5
  end.

(** ** Every input *)

Definition all_flags : list Flags :=
  a ← [false; true]; b ← [false; true]; c ← [false; true]; d ← [false; true];
  e ← [false; true]; f ← [false; true]; g ← [false; true]; [MkFlags a b c d e f g].

Definition all_inputs : list Input :=
  k ← [KindMailbox; KindSource; KindList; KindEnv; KindDoctorRepair];
  c ← [ChannelExit5; ChannelJSON];
  p ← [PinAbsent; PinLegacy; PinIdentity; PinInvalid];
  r ← [TargetUnbound; TargetMatch; TargetMismatch; TargetOwnPinnedBase];
  f ← all_flags; [MkInput k c p r f].

Lemma all_flags_complete f : f ∈ all_flags.
Proof.
  destruct f as [a b c d e g h]. unfold all_flags.
  repeat (apply list_elem_of_bind; eexists; split; [|match goal with |- ?x ∈ _ => by destruct x; set_solver end]).
  by apply list_elem_of_singleton.
Qed.

Lemma all_inputs_complete inp : inp ∈ all_inputs.
Proof.
  destruct inp as [k c p r f]. unfold all_inputs.
  do 4 (apply list_elem_of_bind; eexists; split; [|match goal with |- ?x ∈ _ => by destruct x; set_solver end]).
  apply list_elem_of_bind. exists f. split; [|apply all_flags_complete]. by apply list_elem_of_singleton.
Qed.

(** A check of every input decides a universal statement. *)
Lemma for_all_inputs (P : Input -> bool) inp : forallb P all_inputs = true -> P inp = true.
Proof. rewrite forallb_forall. intros H. apply H, list_elem_of_In, all_inputs_complete. Qed.

Lemma for_all_inputs_dec (P : Input -> Prop) `{forall i, base.Decision (P i)} inp :
  forallb (fun i => bool_decide (P i)) all_inputs = true -> P inp.
Proof.
  intros Hall. pose proof (for_all_inputs (fun i => bool_decide (P i)) inp Hall) as Hp. cbv beta in Hp.
  by apply bool_decide_eq_true in Hp.
Qed.

(** ** What the table allows *)

(** Why a command may go on in the tree it targets. *)
Inductive licence (inp : Input) : Prop :=
| licence_routed : in_Kind inp = KindMailbox -> Routed (in_Flags inp) = true -> in_Pin inp <> PinInvalid -> licence inp
| licence_ignored : in_Kind inp ∈ [KindMailbox; KindSource; KindDoctorRepair] -> IgnorePin (in_Flags inp) = true -> licence inp
| licence_from_session : in_Kind inp = KindSource -> FromSession (in_Flags inp) = true -> in_Pin inp <> PinInvalid -> licence inp
| licence_target : in_Pin inp <> PinInvalid -> in_Relation inp ∈ [TargetUnbound; TargetMatch] -> licence inp
| licence_list_base : in_Kind inp = KindList -> in_Pin inp <> PinInvalid -> in_Relation inp = TargetOwnPinnedBase ->
    ExplicitRoot (in_Flags inp) = true -> licence inp
| licence_doctor_base : in_Kind inp = KindDoctorRepair -> in_Pin inp <> PinInvalid ->
    in_Relation inp = TargetOwnPinnedBase -> licence inp.

Definition licenceb (inp : Input) : bool :=
  let k := in_Kind inp in let f := in_Flags inp in let valid := negb (bool_decide (in_Pin inp = PinInvalid)) in
  bool_decide (k = KindMailbox) && Routed f && valid ||
  bool_decide (k ∈ [KindMailbox; KindSource; KindDoctorRepair]) && IgnorePin f ||
  bool_decide (k = KindSource) && FromSession f && valid ||
  valid && bool_decide (in_Relation inp ∈ [TargetUnbound; TargetMatch]) ||
  bool_decide (k = KindList) && valid && bool_decide (in_Relation inp = TargetOwnPinnedBase) && ExplicitRoot f ||
  bool_decide (k = KindDoctorRepair) && valid && bool_decide (in_Relation inp = TargetOwnPinnedBase).

Lemma licenceb_spec inp : licenceb inp = true <-> licence inp.
Proof.
  unfold licenceb. cbv zeta. rewrite !orb_true_iff, !andb_true_iff, !negb_true_iff, !bool_decide_eq_true, !bool_decide_eq_false.
  split.
  - intros [[[[[|]|]|]|]|]; destruct_and!.
    + by apply licence_routed.
    + by apply licence_ignored.
    + by apply licence_from_session.
    + by apply licence_target.
    + by apply licence_list_base.
    + by apply licence_doctor_base.
  - intros []; tauto.
Qed.

#[global] Instance licence_dec inp : base.Decision (licence inp).
Proof. refine (cast_if (decide (licenceb inp = true))); by rewrite <-licenceb_spec. Defined.

(** What happens without a licence: a listing goes on with a warning, a repair goes on and reports a
    structured error, a route that is explained as JSON reports the error there, and everything else
    is refused with exit code 5. *)
Definition refusal_of (inp : Input) : Verdict :=
  match in_Kind inp, in_Channel inp with
  | KindList, _ => WarnContinue
  | KindDoctorRepair, _ => StructuredErrorContinueExit0
  | KindSource, ChannelJSON => JSONErrorExit0
  | _, _ => RefuseExit5
  end.

(** C32: The guard has one verdict for every input.  It allows a command outright exactly with a
    licence: a valid pin that the target agrees with or that binds nothing, the agent's own pinned
    base for a repair or an explicitly rooted listing, a routed mailbox or source session under a
    valid pin, or an explicit override by a mailbox, source or repair command (the only one that
    gets round an invalid pin).  Without a licence the verdict is fixed by the kind and the channel: a
    listing goes on with a warning, a repair with a structured error, a JSON channel of a source
    reports the error, and every other command is refused with exit code 5. *)
Theorem guard_verdict inp : Verdict_ (Decide inp) = if decide (licence inp) then Allow else refusal_of inp.
Proof.
  assert (Verdict_ (Decide inp) = if licenceb inp then Allow else refusal_of inp) as ->.
  { apply (for_all_inputs_dec (fun inp => Verdict_ (Decide inp) = if licenceb inp then Allow else refusal_of inp)).
    vm_compute. reflexivity. }
  pose proof (licenceb_spec inp) as Hs. destruct (licenceb inp), (decide (licence inp)); try done; exfalso; naive_solver.
Qed.

(** The verdict of a row. *)
Definition row_verdict (row : string) : option Verdict :=
  snd <$> List.find (fun x => String.eqb x.1 row)
    (zip canonicalRows (replicate 7 Allow ++ [RefuseExit5; RefuseExit5; WarnContinue; WarnContinue;
       StructuredErrorContinueExit0; StructuredErrorContinueExit0; JSONErrorExit0; JSONErrorExit0])).

(** The decision is one row of the policy table: the row is one of the fifteen and fixes the
    verdict; what is not allowed is refused in the one way of its kind and channel; and the
    explicit context, cross-project and revalidation flags change nothing. *)
Theorem guard_rows inp :
  let d := Decide inp in let f := in_Flags inp in
  row_verdict (Row d) = Some (Verdict_ d) /\ Row d ∈ canonicalRows /\
  (Verdict_ d <> Allow -> Verdict_ d = refusal_of inp) /\
  forall x y z, Decide (MkInput (in_Kind inp) (in_Channel inp) (in_Pin inp) (in_Relation inp)
    (MkFlags (Routed f) (IgnorePin f) (ExplicitRoot f) x y (FromSession f) z)) = d.
Proof.
  cbv zeta. split_and!; [| | |by destruct inp as [k c p r []]].
  - apply (for_all_inputs_dec (fun inp => row_verdict (Row (Decide inp)) = Some (Verdict_ (Decide inp)))).
    vm_compute. reflexivity.
  - apply (for_all_inputs_dec (fun inp => Row (Decide inp) ∈ canonicalRows)). vm_compute. reflexivity.
  - apply (for_all_inputs_dec (fun inp => Verdict_ (Decide inp) <> Allow -> Verdict_ (Decide inp) = refusal_of inp)).
    vm_compute. reflexivity.
Qed.

(** Each row is decided for some input. *)
Lemma guard_rows_reached row : row ∈ canonicalRows -> exists inp, Row (Decide inp) = row.
Proof.
  intros Hin. assert (forallb (fun r => existsb (fun inp => bool_decide (Row (Decide inp) = r)) all_inputs) canonicalRows = true)
    as H by (vm_compute; reflexivity).
  rewrite forallb_forall in H. apply list_elem_of_In, H, existsb_exists in Hin as (inp & _ & E%bool_decide_eq_true). by exists inp.
Qed.
