(* ===== verification/Supervisor.v ===== *)
(** The keepalive supervisor: internal/keepalive/supervisor/supervisor.go. *)
From S2P Require Import Prelude GoStr GoTime.

#[local] Open Scope Z_scope.

Definition ActionBackoff : string := "backoff".
Definition ActionDeferred : string := "deferred".
Definition ActionDetached : string := "detached".
Definition ActionEnsured : string := "ensured".
Definition ActionStartFailed : string := "start_failed".

Definition second : Z := 1000000000.
Definition minute : Z := 60 * second.
Definition defaultActiveCheckInterval : Z := 5 * minute.
Definition defaultDetachedBackoffBase : Z := 5 * minute.
Definition defaultDetachedBackoffMax : Z := 60 * minute.
Definition defaultFailureBackoffBase : Z := minute.
Definition defaultFailureBackoffMax : Z := 15 * minute.

(** ** The registry entry: internal/keepalive/registry/store.go *)

Definition StateAttached : string := "attached".
Definition StateActive : string := "active".
Definition StateDetached : string := "detached".

Record Entry := MkEntry {
  ID : string; Root : string; BaseRoot : string; SessionName : string; Agent : string; Adapter : string;
  Target : string; OwnershipKey : string; State : string;
  LastAttach : Z; LastSeenBySupervisor : Z; FailureCount : Z; BackoffUntil : Z; NextHealthCheck : Z;
  DetachedSince : Z; LastError : string; LastSupervisorDecision : string;
}.

(** The fields the supervisor assigns. *)
Record verdict := MkVerdict {
  v_State : string; v_Seen : Z; v_Failures : Z; v_Backoff : Z; v_Check : Z; v_Since : Z; v_Error : string; v_Decision : string }.

Definition verdict_of (e : Entry) : verdict :=
  MkVerdict (State e) (LastSeenBySupervisor e) (FailureCount e) (BackoffUntil e) (NextHealthCheck e) (DetachedSince e)
    (LastError e) (LastSupervisorDecision e).

Definition assign (v : verdict) (e : Entry) : Entry :=
  MkEntry (ID e) (Root e) (BaseRoot e) (SessionName e) (Agent e) (Adapter e) (Target e) (OwnershipKey e) (v_State v)
    (LastAttach e) (v_Seen v) (v_Failures v) (v_Backoff v) (v_Check v) (v_Since v) (v_Error v) (v_Decision v).

Definition set_seen (now : Z) (e : Entry) : Entry :=
  assign (MkVerdict (State e) now (FailureCount e) (BackoffUntil e) (NextHealthCheck e) (DetachedSince e)
    (LastError e) (LastSupervisorDecision e)) e.

(** ** The collaborators *)

(** An error: its text, and whether errors.Is finds in it the two sentinels of the adapters and the
    one of the wake runner. *)
Record error := MkError { e_text : string; is_not_found : bool; is_degraded : bool; is_uncertain : bool }.
Definition plain_error (text : string) : error := MkError text false false false.

Record StartWakeRequest := MkRequest {
  rq_Root : string; rq_Me : string; rq_InjectVia : string; rq_Adapter : string; rq_Target : string; rq_Timeout : Z }.

(** The probe of the adapter and the start of a wake are interfaces; [Jitter] and the
    configured durations are optional; [rand] is crypto/rand's Int for a span. *)
Record Reconciler := MkReconciler {
  Wake : option (StartWakeRequest -> option error);
  Probe : option (string -> option error);
  BackoffBase : Z; BackoffMax : Z;
  Jitter : option (Z -> Z);
  InjectVia : string; WakeTimeout : Z; ActiveCheckInterval : Z;
  DetachedBackoffBase : Z; DetachedBackoffMax : Z;
  rand : Z -> option Z;
}.

(** The context's error at the three places where it is asked for: at the start, after a failed
    probe and after a failed start. *)
Record context := MkContext { ctx_start : option error; ctx_probed : option error; ctx_started : option error }.

Record Result := MkResult { Action : string; AMQTouched : bool; Error : list error }.

(** ** Delays *)

Definition jitter (r : Reconciler) (delay maxDelay : Z) : Z :=
  match Jitter r with
  | Some f => let jittered := f delay in
    if Z.ltb jittered 0 then 0 else if Z.ltb maxDelay jittered then maxDelay else jittered
  | None =>
    if Z.leb delay 0 then delay else
    let window := Z.quot delay 5 in
    if Z.leb window 0 then delay else
    let span := int64_wrap (int64_wrap (window * 2) + 1) in
    match rand r span with
    | None => delay
    | Some offset =>
      let jittered := int64_wrap (int64_wrap (delay - window) + offset) in
      if Z.ltb jittered 0 then 0 else if Z.ltb maxDelay jittered then maxDelay else jittered
    end
  end.

(** The doublings after the first failure; [None] when the maximum was reached. *)
Fixpoint doubled (rounds : nat) (delay maxDelay : Z) : option Z :=
  match rounds with
  | O => Some delay
  | S rounds' =>
    let delay' := int64_wrap (delay * 2) in
    if Z.leb maxDelay delay' then None else doubled rounds' delay' maxDelay
  end.

Definition exponentialBackoff (r : Reconciler) (failureCount base maxDelay : Z) : Z :=
  let failureCount := if Z.ltb failureCount 1 then 1 else failureCount in
  match doubled (Z.to_nat (failureCount - 1)) base maxDelay with
  | None => maxDelay
  | Some delay => if Z.ltb maxDelay delay then maxDelay else jitter r delay maxDelay
  end.

Definition positive_or (x default : Z) : Z := if Z.leb x 0 then default else x.

Definition backoff (r : Reconciler) (failureCount : Z) : Z :=
  exponentialBackoff r failureCount (positive_or (BackoffBase r) defaultFailureBackoffBase)
    (positive_or (BackoffMax r) defaultFailureBackoffMax).

Definition detachedBackoff (r : Reconciler) (failureCount : Z) : Z :=
  exponentialBackoff r failureCount (positive_or (DetachedBackoffBase r) defaultDetachedBackoffBase)
    (positive_or (DetachedBackoffMax r) defaultDetachedBackoffMax).

Definition activeCheckInterval (r : Reconciler) : Z :=
  if Z.ltb 0 (ActiveCheckInterval r) then ActiveCheckInterval r else defaultActiveCheckInterval.

(** ** Decisions *)

Definition markBackoff (r : Reconciler) (entry : Entry) (now : Z) (err : error) (action : string) (amqTouched : bool)
  : Entry * Result :=
  let n := int64_wrap (FailureCount entry + 1) in
  (assign (MkVerdict StateAttached (LastSeenBySupervisor entry) n (now + backoff r n) zero_time zero_time
     (e_text err) action) entry,
   MkResult action amqTouched [err]).

Definition markDetached (r : Reconciler) (entry : Entry) (now : Z) (err : error) : Entry * Result :=
  let n := int64_wrap (FailureCount entry + 1) in
  (assign (MkVerdict StateDetached (LastSeenBySupervisor entry) n (now + detachedBackoff r n) zero_time
     (if IsZero (DetachedSince entry) then now else DetachedSince entry) (e_text err) ActionDetached) entry,
   MkResult ActionDetached false [err]).

Definition markActive (r : Reconciler) (entry : Entry) (now : Z) (action : string) : Entry :=
  assign (MkVerdict StateActive now 0 zero_time (now + activeCheckInterval r) zero_time "" action) entry.

Definition before (now t : Z) : bool := negb (IsZero t) && Z.ltb now t.

Definition checkLocalReadiness (r : Reconciler) (ctx : context) (entry : Entry) (now : Z)
  : Entry * (Result + unit) :=
  match ctx_start ctx with
  | Some err => (entry, inl (MkResult ActionDeferred false [err]))
  | None =>
    if before now (NextHealthCheck entry) then (entry, inl (MkResult ActionDeferred false [])) else
    if before now (BackoffUntil entry) then (entry, inl (MkResult ActionDeferred false [])) else
    let seen := set_seen now entry in
    match Probe r with
    | None => let '(e, x) := markBackoff r seen now (plain_error "adapter is not configured") ActionBackoff false in
              (e, inl x)
    | Some probe =>
      match probe (Target seen) with
      | Some err =>
        match ctx_probed ctx with
        | Some ctxErr => (seen, inl (MkResult ActionDeferred false [ctxErr]))
        | None =>
          if is_not_found err then let '(e, x) := markDetached r seen now err in (e, inl x)
          else if is_degraded err then (entry, inl (MkResult ActionDeferred false [err]))
          else let '(e, x) := markBackoff r seen now err ActionBackoff false in (e, inl x)
        end
      | None =>
        match Wake r with
        | None => let '(e, x) := markBackoff r seen now (plain_error "amq runner is not configured") ActionBackoff false in
                  (e, inl x)
        | Some _ => (seen, inr tt)
        end
      end
    end
  end.

(** [wake] is the configured runner: checkLocalReadiness does not get here without one. *)
Definition ensureWake (r : Reconciler) (wake : StartWakeRequest -> option error) (ctx : context) (entry : Entry) (now : Z)
  : Entry * Result :=
  match wake (MkRequest (Root entry) (Agent entry) (InjectVia r) (Adapter entry) (Target entry) (WakeTimeout r)) with
  | None => (markActive r entry now ActionEnsured, MkResult ActionEnsured true [])
  | Some err =>
    match ctx_started ctx with
    | Some ctxErr => (entry, MkResult ActionDeferred true [ctxErr; err])
    | None => markBackoff r entry now err ActionStartFailed true
    end
  end.

Definition Reconcile (r : Reconciler) (ctx : context) (entry : Entry) (now : Z) : Entry * Result :=
  match checkLocalReadiness r ctx entry now with
  | (blocked, inl result) => (blocked, result)
  | (_, inr _) =>
    match Wake r with
    | Some wake => ensureWake r wake ctx entry now
    | None => (entry, MkResult "" false [])
    end
  end.

Definition StartFresh (r : Reconciler) (ctx : context) (entry : Entry) (now : Z) : Entry * Result :=
  match checkLocalReadiness r ctx entry now with
  | (blocked, inl result) => (blocked, result)
  | (_, inr _) =>
    match Wake r with
    | Some wake => ensureWake r wake ctx entry now
    | None => (entry, MkResult "" false [])
    end
  end.

(** What the keepalive supervisor guarantees. *)

#[local] Open Scope Z_scope.

(** ** Delays *)

Lemma wrap_small z : - 2 ^ 63 <= z < 2 ^ 63 -> int64_wrap z = z.
Proof. intros H. apply int64_wrap_id. unfold int64_range. apply andb_true_iff. split; [apply Z.leb_le|apply Z.ltb_lt]; lia. Qed.

Lemma doubled_spec rounds delay maxDelay :
  0 < delay <= maxDelay -> maxDelay < 2 ^ 62 ->
  match doubled rounds delay maxDelay with
  | None => maxDelay <= delay * 2 ^ Z.of_nat rounds
  | Some d => d = delay * 2 ^ Z.of_nat rounds /\ d <= maxDelay
  end.
Proof.
  revert delay; induction rounds as [|n IH]; intros delay Hd Hm; cbn [doubled].
  { rewrite Z.mul_1_r. lia. }
  rewrite wrap_small by lia. rewrite Nat2Z.inj_succ, Z.pow_succ_r by lia.
  pose proof (Z.pow_pos_nonneg 2 (Z.of_nat n)). destruct (Z.leb_spec maxDelay (delay * 2)) as [H2|H2]; [nia|].
  specialize (IH (delay * 2)). destruct (doubled n (delay * 2) maxDelay) as [d|].
  - destruct IH as [-> Hle]; [lia|lia|]. split; [|done]. lia.
  - specialize (IH ltac:(lia) ltac:(lia)). lia.
Qed.

(** crypto/rand.Int returns a number below the span it is given. *)
Definition rand_ok (r : Reconciler) : Prop := forall span x, 0 < span -> rand r span = Some x -> 0 <= x < span.

Lemma jitter_between r delay maxDelay :
  rand_ok r -> 0 < delay <= maxDelay -> maxDelay < 2 ^ 62 ->
  0 <= jitter r delay maxDelay <= maxDelay /\
  (Jitter r = None -> delay - Z.quot delay 5 <= jitter r delay maxDelay <= delay + Z.quot delay 5).
Proof.
  intros Hrand Hd Hm. unfold jitter. destruct (Jitter r) as [f|].
  { split; [|done]. destruct (Z.ltb_spec (f delay) 0); [lia|]. destruct (Z.ltb_spec maxDelay (f delay)); lia. }
  rewrite (proj2 (Z.leb_gt _ 0)) by lia. pose proof (Z.quot_pos delay 5). pose proof (Z.quot_le_upper_bound delay 5 delay).
  destruct (Z.leb_spec (Z.quot delay 5) 0); [split; [lia|intros _; lia]|].
  rewrite !(wrap_small (Z.quot delay 5 * 2)) by lia. rewrite wrap_small by lia.
  destruct (rand r _) as [x|] eqn:Hx; [|split; [lia|intros _; lia]].
  apply Hrand in Hx; [|lia]. rewrite !(wrap_small (delay - Z.quot delay 5)) by lia. rewrite wrap_small by lia.
  destruct (Z.ltb_spec (delay - Z.quot delay 5 + x) 0); [lia|].
  destruct (Z.ltb_spec maxDelay (delay - Z.quot delay 5 + x)); split; try intros _; lia.
Qed.

Lemma exponential_between r n base maxDelay :
  rand_ok r -> 0 < base <= maxDelay -> maxDelay < 2 ^ 62 ->
  let ideal := Z.min maxDelay (base * 2 ^ (Z.max 1 n - 1)) in
  0 <= exponentialBackoff r n base maxDelay <= maxDelay /\
  (Jitter r = None -> ideal - Z.quot ideal 5 <= exponentialBackoff r n base maxDelay).
Proof.
  intros Hrand Hb Hm ideal. unfold exponentialBackoff.
  assert ((if Z.ltb n 1 then 1 else n) = Z.max 1 n) as -> by (destruct (Z.ltb_spec n 1); lia).
  pose proof (doubled_spec (Z.to_nat (Z.max 1 n - 1)) base maxDelay Hb Hm) as Hd. rewrite Z2Nat.id in Hd by lia.
  destruct (doubled _ base maxDelay) as [d|].
  - destruct Hd as [Ed Hd]. rewrite (proj2 (Z.ltb_ge _ _)) by lia.
    assert (ideal = d) as -> by (unfold ideal; lia).
    pose proof (Z.pow_pos_nonneg 2 (Z.max 1 n - 1)).
    destruct (jitter_between r d maxDelay Hrand) as [H1 H2]; [nia|done|]. split; [done|]. intros Hj. by apply H2.
  - assert (ideal = maxDelay) as -> by (unfold ideal; lia). pose proof (Z.quot_pos maxDelay 5). split; [lia|].
    intros _. lia.
Qed.

Definition ladder (base maxDelay n : Z) : Z := Z.min maxDelay (base * 2 ^ (Z.max 1 n - 1)).

(** The supervisor waits long enough and not too long: after the n-th failure in a row the
    delay is never negative and never above the configured maximum, whatever the jitter
    returns, and with the built-in jitter it is at least four fifths of the base delay doubled
    n-1 times and cut off at the maximum.  In 64 bits, for every count of failures, and for
    targets that are gone as for other failures. *)
Theorem supervisor_delay_bounds r n :
  rand_ok r ->
  let base := positive_or (BackoffBase r) defaultFailureBackoffBase in
  let maxDelay := positive_or (BackoffMax r) defaultFailureBackoffMax in
  let dbase := positive_or (DetachedBackoffBase r) defaultDetachedBackoffBase in
  let dmax := positive_or (DetachedBackoffMax r) defaultDetachedBackoffMax in
  base <= maxDelay < 2 ^ 62 -> dbase <= dmax < 2 ^ 62 ->
  (0 <= backoff r n <= maxDelay /\ 0 <= detachedBackoff r n <= dmax) /\
  (Jitter r = None ->
     4 * ladder base maxDelay n <= 5 * backoff r n /\ 4 * ladder dbase dmax n <= 5 * detachedBackoff r n).
Proof.
  intros Hrand base maxDelay dbase dmax Hm Hd.
  assert (0 < base /\ 0 < dbase) as [Hb Hdb].
  { unfold base, dbase, positive_or, defaultFailureBackoffBase, defaultDetachedBackoffBase, minute, second.
    split; repeat case_match; rewrite ?Z.leb_gt in *; lia. }
  destruct (exponential_between r n base maxDelay Hrand ltac:(lia) ltac:(lia)) as [H1 H2].
  destruct (exponential_between r n dbase dmax Hrand ltac:(lia) ltac:(lia)) as [H3 H4].
  split; [by split|]. intros Hj. specialize (H2 Hj). specialize (H4 Hj). cbv zeta in H2, H4.
  assert (forall x, 0 < x -> 5 * Z.quot x 5 <= x) as Hq by (intros x Hx; by apply Z.mul_quot_le; lia).
  pose proof (Z.pow_pos_nonneg 2 (Z.max 1 n - 1)). unfold ladder, backoff, detachedBackoff.
  fold base maxDelay dbase dmax.
  pose proof (Hq (Z.min maxDelay (base * 2 ^ (Z.max 1 n - 1))) ltac:(nia)).
  pose proof (Hq (Z.min dmax (dbase * 2 ^ (Z.max 1 n - 1))) ltac:(nia)). lia.
Qed.

Definition sample_reconciler : Reconciler :=
  MkReconciler (Some (fun _ => None)) (Some (fun _ => None)) 0 0 None "" 0 0 0 0 (fun span => Some (span - 1)).

Lemma sample_rand : rand_ok sample_reconciler.
Proof. intros span x Hs [= <-]. lia. Qed.

Lemma supervisor_delay_bounds_witness :
  backoff sample_reconciler 3 = 288 * second /\
  (0 <= backoff sample_reconciler 3 <= 15 * minute /\ 0 <= detachedBackoff sample_reconciler 3 <= 60 * minute).
Proof.
  split; [vm_compute; reflexivity|].
  refine (proj1 (supervisor_delay_bounds sample_reconciler 3 sample_rand _ _)); vm_compute; split; congruence.
Defined.

(** ** Decisions *)

(** The configured delays make sense: the maxima are above the bases and far from overflow. *)
Definition config_ok (r : Reconciler) : Prop :=
  rand_ok r /\
  positive_or (BackoffBase r) defaultFailureBackoffBase <= positive_or (BackoffMax r) defaultFailureBackoffMax < 2 ^ 62 /\
  positive_or (DetachedBackoffBase r) defaultDetachedBackoffBase <=
    positive_or (DetachedBackoffMax r) defaultDetachedBackoffMax < 2 ^ 62.

(** The longest the supervisor leaves an entry alone. *)
Definition longest (r : Reconciler) : Z :=
  Z.max (activeCheckInterval r) (Z.max (positive_or (BackoffMax r) defaultFailureBackoffMax)
    (positive_or (DetachedBackoffMax r) defaultDetachedBackoffMax)).

Lemma positive_or_pos x d : 0 < d -> 0 < positive_or x d.
Proof. unfold positive_or. destruct (Z.leb_spec x 0); lia. Qed.

Lemma delays_ok r n : config_ok r -> 0 <= backoff r n <= longest r /\ 0 <= detachedBackoff r n <= longest r.
Proof.
  intros (Hrand & Hm & Hd). unfold longest.
  pose proof (positive_or_pos (BackoffBase r) defaultFailureBackoffBase ltac:(done)).
  pose proof (positive_or_pos (DetachedBackoffBase r) defaultDetachedBackoffBase ltac:(done)).
  destruct (exponential_between r n _ _ Hrand (conj H (proj1 Hm)) (proj2 Hm)) as [H1 _].
  destruct (exponential_between r n _ _ Hrand (conj H0 (proj1 Hd)) (proj2 Hd)) as [H2 _].
  fold (backoff r n) in H1. fold (detachedBackoff r n) in H2. lia.
Qed.

Lemma interval_pos r : 0 < activeCheckInterval r <= longest r.
Proof.
  unfold longest, activeCheckInterval. destruct (Z.ltb_spec 0 (ActiveCheckInterval r)); [lia|].
  unfold defaultActiveCheckInterval, minute, second. lia.
Qed.

Lemma not_zero t : zero_time < t -> IsZero t = false.
Proof. intros H. unfold IsZero. apply Z.eqb_neq. lia. Qed.

(** What Reconcile can do to an entry, case by case. *)
Inductive outcome (r : Reconciler) (now : Z) (e : Entry) : Entry * Result -> Prop :=
| outcome_deferred err touched : outcome r now e (e, MkResult ActionDeferred touched err)
| outcome_deferred_seen err touched : outcome r now e (set_seen now e, MkResult ActionDeferred touched err)
| outcome_backoff err action touched :
    action <> ActionDeferred -> outcome r now e (markBackoff r (set_seen now e) now err action touched)
| outcome_detached err : outcome r now e (markDetached r (set_seen now e) now err)
| outcome_start_failed err : outcome r now e (markBackoff r e now err ActionStartFailed true)
| outcome_active : outcome r now e (markActive r e now ActionEnsured, MkResult ActionEnsured true []).

Lemma Reconcile_outcome r ctx e now : outcome r now e (Reconcile r ctx e now).
Proof.
  unfold Reconcile, checkLocalReadiness.
  destruct (ctx_start ctx) as [err|]; [apply outcome_deferred|].
  destruct (before now (NextHealthCheck e)); [apply outcome_deferred|].
  destruct (before now (BackoffUntil e)); [apply outcome_deferred|]. cbv zeta.
  destruct (Probe r) as [probe|]; [|by apply outcome_backoff].
  destruct (probe (Target (set_seen now e))) as [err|].
  - destruct (ctx_probed ctx); [apply outcome_deferred_seen|].
    destruct (is_not_found err); [apply outcome_detached|].
    destruct (is_degraded err); [apply outcome_deferred|by apply outcome_backoff].
  - destruct (Wake r) as [wake|] eqn:Hw; [|by apply outcome_backoff]. unfold ensureWake.
    destruct (wake _) as [err|]; [|apply outcome_active].
    destruct (ctx_started ctx); [apply outcome_deferred|apply outcome_start_failed].
Qed.

(** An entry that the supervisor may find: an active one has no failures and no deadline but its
    next check, a detached one says since when, an attached one is not detached. *)
Definition entry_ok (e : Entry) : Prop :=
  (State e = StateActive -> FailureCount e = 0 /\ IsZero (BackoffUntil e) = true /\ IsZero (DetachedSince e) = true /\
     LastError e = "") /\
  (State e = StateDetached -> IsZero (DetachedSince e) = false /\ IsZero (NextHealthCheck e) = true) /\
  (State e = StateAttached -> IsZero (DetachedSince e) = true).

Definition identity_of (e : Entry) : list string :=
  [ID e; Root e; BaseRoot e; SessionName e; Agent e; Adapter e; Target e; OwnershipKey e].

(** The supervisor keeps its entries well-formed: Reconcile and StartFresh leave the identity
    of an entry alone, and whatever the adapter, the wake and the context do, the state, the
    failure count, the deadlines and the last error of the entry they return agree. *)
Theorem supervisor_entry_kept r ctx e now :
  zero_time < now -> entry_ok e ->
  (entry_ok (Reconcile r ctx e now).1 /\ identity_of (Reconcile r ctx e now).1 = identity_of e) /\
  StartFresh r ctx e now = Reconcile r ctx e now.
Proof.
  intros Hnow He. split; [|done]. destruct (Reconcile_outcome r ctx e now) as [| |err action touched Ha|err|err|]; cbn [fst].
  - done.
  - by split.
  - split; [|done]. split_and!; by intros E.
  - split; [|done]. split_and!; try by intros E. intros _. split; [|done]. cbn.
    destruct (IsZero (DetachedSince e)) eqn:Hz; [by apply not_zero|done].
  - split; [|done]. split_and!; by intros E.
  - split; [|done]. by split_and!; intros E.
Qed.

Definition sample_entry : Entry :=
  MkEntry "id" "/q" "" "" "bob" "tmux" "%1" "" StateAttached 0 zero_time 0 zero_time zero_time zero_time "" "".
Definition sample_context : context := MkContext None None None.

Lemma supervisor_entry_kept_witness :
  entry_ok (Reconcile sample_reconciler sample_context sample_entry 5).1.
Proof.
  refine (proj1 (proj1 (supervisor_entry_kept sample_reconciler sample_context sample_entry 5 _ _))).
  - vm_compute. reflexivity.
  - split_and!; intros E; try done.
Defined.

(** The entry is left alone before the deadline and looked at from then on. *)
Definition next_look (e : Entry) (deadline : Z) : Prop :=
  (forall r ctx now, ctx_start ctx = None -> now < deadline ->
     Reconcile r ctx e now = (e, MkResult ActionDeferred false [])) /\
  (forall r ctx now wake probe, ctx_start ctx = None -> deadline <= now -> Wake r = Some wake -> Probe r = Some probe ->
     probe (Target e) = None -> (forall q, wake q = None) ->
     Reconcile r ctx e now = (markActive r e now ActionEnsured, MkResult ActionEnsured true [])).

Lemma next_look_at e deadline :
  IsZero deadline = false ->
  NextHealthCheck e = deadline /\ BackoffUntil e = zero_time \/ NextHealthCheck e = zero_time /\ BackoffUntil e = deadline ->
  next_look e deadline.
Proof.
  intros Hz Hd.
  assert (forall now, before now (NextHealthCheck e) || before now (BackoffUntil e) = Z.ltb now deadline) as Hb.
  { intros now. unfold before. destruct Hd as [[-> ->]|[-> ->]]; rewrite Hz; cbn; by rewrite ?orb_false_r. }
  split.
  - intros r ctx now Hc Hlt. unfold Reconcile, checkLocalReadiness. rewrite Hc. specialize (Hb now).
    rewrite (proj2 (Z.ltb_lt _ _)) in Hb by done.
    destruct (before now (NextHealthCheck e)); [done|]. by destruct (before now (BackoffUntil e)).
  - intros r ctx now wake probe Hc Hge Hw Hp Hprobe Hwake. unfold Reconcile, checkLocalReadiness, ensureWake.
    rewrite Hc. specialize (Hb now). rewrite (proj2 (Z.ltb_ge _ _)) in Hb by done.
    apply orb_false_iff in Hb as [-> ->]. rewrite Hp. change (Target (set_seen now e)) with (Target e).
    by rewrite Hprobe, Hw, Hwake.
Qed.

(** C33: The supervisor neither hammers nor forgets a target: when Reconcile decided something
    other than to defer, the entry has one deadline, not later than the longest configured
    delay; before it every Reconcile returns the entry untouched, without a probe and without
    starting a wake, and from then on a healthy target is made active again. *)
Theorem supervisor_waits r ctx e now :
  config_ok r -> zero_time < now -> let x := Reconcile r ctx e now in
  Action x.2 <> ActionDeferred ->
  exists deadline, now <= deadline <= now + longest r /\ next_look x.1 deadline.
Proof.
  intros Hr Hnow x Hact. unfold x in *. clear x.
  destruct (Reconcile_outcome r ctx e now) as [| |err action touched Ha|err|err|]; cbn [fst snd Action] in *; try done.
  - destruct (delays_ok r (int64_wrap (FailureCount e + 1)) Hr) as [H1 _].
    eexists. split; [|apply next_look_at; [|right; by split]]; cbn; [lia|]. apply not_zero. lia.
  - destruct (delays_ok r (int64_wrap (FailureCount e + 1)) Hr) as [_ H1].
    eexists. split; [|apply next_look_at; [|right; by split]]; cbn; [lia|]. apply not_zero. lia.
  - destruct (delays_ok r (int64_wrap (FailureCount e + 1)) Hr) as [H1 _].
    eexists. split; [|apply next_look_at; [|right; by split]]; cbn; [lia|]. apply not_zero. lia.
  - pose proof (interval_pos r) as Hi.
    eexists. split; [|apply next_look_at; [|left; by split]]; cbn; [lia|]. apply not_zero. lia.
Qed.

Lemma supervisor_waits_witness :
  exists deadline, 5 <= deadline <= 5 + longest sample_reconciler /\
    next_look (Reconcile sample_reconciler sample_context sample_entry 5).1 deadline.
Proof.
  apply (supervisor_waits sample_reconciler sample_context sample_entry 5).
  - split_and!; [exact sample_rand|vm_compute; congruence..|vm_compute; reflexivity|vm_compute; congruence|vm_compute; reflexivity].
  - vm_compute. reflexivity.
  - vm_compute. congruence.
Defined.

(** The readiness check notes when the entry was looked at, but a wake that fails to start is
    recorded on the entry as it was before: the time of the last look is not updated. *)
Lemma failed_start_unseen r ctx e now wake probe err :
  ctx_start ctx = None -> ctx_started ctx = None -> before now (NextHealthCheck e) = false -> before now (BackoffUntil e) = false ->
  Wake r = Some wake -> Probe r = Some probe -> probe (Target e) = None -> (forall q, wake q = Some err) ->
  Action (Reconcile r ctx e now).2 = ActionStartFailed /\ LastSeenBySupervisor (Reconcile r ctx e now).1 = LastSeenBySupervisor e.
Proof.
  intros Hc Hs Hn Hb Hw Hp Hprobe Hwake. unfold Reconcile, checkLocalReadiness, ensureWake.
  rewrite Hc, Hn, Hb, Hp. change (Target (set_seen now e)) with (Target e). by rewrite Hprobe, Hw, Hwake, Hs.
Qed.
