(* ===== verification/Validate.v ===== *)
(** Checking the header of a message: internal/cli/validate.go, with normalizeHandle and
    ensureSafeBaseName of internal/cli/common.go. *)
From S2P Require Import Prelude GoStr GoTime GoPath Json JsonStruct TimeParse GoErr Fs Names.
From S2P Require Format.

(** ** Names and handles *)

(** [strings.ContainsAny] with both separators. *)
Definition has_separator (s : string) : bool := Contains s "/" || Contains s BACKSLASH.

Definition normalizeHandle (raw : string) : string + gerr :=
  let handle := TrimSpace raw in
  if has_separator handle then inr (EMsg "invalid handle (slashes not allowed)") else
  match ValidateHandle handle with
  | Some e => inr e
  | None => inl handle
  end.

Definition ensureSafeBaseName (name : string) : string + gerr :=
  let name := TrimSpace name in
  if bool_decide (name = "") then inr (EMsg "name cannot be empty")
  else if HasPrefix name "." then inr (EMsg "invalid name")
  else if bool_decide (name = ".") || bool_decide (name = "..") then inr (EMsg "invalid name")
  else if negb (base_is_self name) then inr (EMsg "invalid name")
  else if has_separator name then inr (EMsg "invalid name")
  else if HasSuffix name ".md" then inr (EMsg "invalid name")
  else inl name.

Definition safeHeaderID (id : string) : option string :=
  match ensureSafeBaseName id with inl _ => Some id | inr _ => None end.

Definition validateHandleValue (label handle : string) : option gerr :=
  if bool_decide (TrimSpace handle = "") then Some (EMsg (label +:+ " handle is empty")) else
  match normalizeHandle handle with
  | inr e => Some (Errorf ("invalid " +:+ label +:+ " handle") e)
  | inl norm =>
    if negb (bool_decide (norm = handle)) then Some (EMsg ("invalid " +:+ label +:+ " handle (not normalized)"))
    else None
  end.

Definition validateLegacyInspectionHandleValue (label handle : string) : option gerr :=
  match validateHandleValue label handle with
  | None => None
  | Some _ =>
    match ValidateLegacyHandleForInspection handle with
    | Some e => Some (Errorf ("invalid " +:+ label +:+ " handle") e)
    | None => None
    end
  end.

(** ** Headers *)

(** The first error of a list, nil being no error. *)
Fixpoint first_error {A} (f : A -> option gerr) (l : list A) : option gerr :=
  match l with
  | [] => None
  | x :: l' => match f x with Some e => Some e | None => first_error f l' end
  end.

Definition recipients (h : Format.Header) : list string := default [] (Format.To h).

Definition validateHeaderFieldsWithHandleValidation (h : Format.Header) (validate : string -> string -> option gerr)
  : option gerr :=
  match ensureSafeBaseName (Format.ID h) with
  | inr e => Some (Errorf "invalid message id" e)
  | inl _ =>
    match validate "sender" (Format.From h) with
    | Some e => Some e
    | None =>
      if bool_decide (recipients h = []) then Some (EMsg "missing recipients") else
      match first_error (validate "recipient") (recipients h) with
      | Some e => Some e
      | None =>
        let thread := TrimSpace (Format.Thread h) in
        if bool_decide (thread = "") then Some (EMsg "missing thread") else
        if negb (bool_decide (thread = Format.Thread h)) then Some (EMsg "thread contains leading/trailing whitespace") else
        let created := TrimSpace (Format.Created h) in
        if bool_decide (created = "") then Some (EMsg "missing created timestamp") else
        if negb (bool_decide (created = Format.Created h))
        then Some (EMsg "created timestamp contains leading/trailing whitespace") else
        match Parse_RFC3339Nano (Format.Created h) with
        | None => Some (EMsg "invalid created timestamp")
        | Some _ =>
          if negb (Format.IsValidPriority (Format.Priority h)) then Some (EMsg "invalid priority") else
          if negb (Format.IsValidKind (Format.Kind h)) then Some (EMsg "invalid kind") else None
        end
      end
    end
  end.

Definition validateHeaderFields (h : Format.Header) : option gerr :=
  validateHeaderFieldsWithHandleValidation h validateHandleValue.

Record headerValidator := MkValidator { strict : bool; known : gset string; allowLegacyFlagHandles : bool }.

Definition validateHeaderBasic (v : headerValidator) (h : Format.Header) : option gerr :=
  if strict v && negb (Z.eqb (Format.Schema h) Format.CurrentSchema) then Some (EMsg "unsupported schema") else
  if allowLegacyFlagHandles v
  then validateHeaderFieldsWithHandleValidation h validateLegacyInspectionHandleValue
  else validateHeaderFields h.

Definition validate (v : headerValidator) (h : Format.Header) : option gerr :=
  match validateHeaderBasic v h with
  | Some e => Some e
  | None =>
    if bool_decide (known v = ∅) then None else
    if negb (bool_decide (Format.From h ∈ known v)) then Some (EMsg "unknown sender handle") else
    first_error (fun recipient =>
      if bool_decide (recipient ∈ known v) then None else Some (EMsg "unknown recipient handle")) (recipients h)
  end.
