(* ===== verification/ValidateFacts.v ===== *)
(** What an accepted header guarantees: internal/cli/validate.go. *)
From S2P Require Import Prelude GoStr GoTrim GoTime GoPath Json JsonStruct TimeParse GoErr Fs Names Validate.
From S2P Require Format Receipt.

(** ** Handles *)

Lemma handle_char_no_space c : handle_char c = true -> negb (space_byte c) = true.
Proof. destruct c as [[] [] [] [] [] [] [] []]; vm_compute; congruence. Qed.

Lemma handle_trimmed a : validateLegacyInspectableHandle a = None -> TrimSpace a = a.
Proof.
  intros [_ Ha]%legacy_handle_None. apply TrimSpace_none. eapply str_forallb_impl; [apply handle_char_no_space|done].
Qed.

Lemma handle_no_separator a : validateLegacyInspectableHandle a = None -> has_separator a = false.
Proof.
  intros [_ Ha]%legacy_handle_None. unfold has_separator.
  change "/" with (String (chr 47) ""). unfold BACKSLASH. rewrite !str_mem_Contains.
  by rewrite !(forallb_no_char handle_char _ a Ha).
Qed.

(** A handle is accepted exactly when it is valid as it stands. *)
Lemma validateHandleValue_None label a : validateHandleValue label a = None <-> ValidateHandle a = None.
Proof.
  unfold validateHandleValue, normalizeHandle. split.
  - case_bool_decide; [done|]. destruct (has_separator _); [done|]. destruct (ValidateHandle (TrimSpace a)) eqn:Ev; [done|].
    case_bool_decide as E; [|done]. by rewrite <-E at 1.
  - intros Ha. pose proof Ha as [Hl _]%ValidateHandle_None. rewrite (handle_trimmed a Hl).
    rewrite (handle_no_separator a Hl), Ha. apply legacy_handle_None in Hl as [Hne _].
    by rewrite bool_decide_eq_false_2, bool_decide_eq_true_2.
Qed.

Definition handle_ok (v : headerValidator) (a : string) : Prop :=
  if allowLegacyFlagHandles v then validateLegacyInspectableHandle a = None else ValidateHandle a = None.

Lemma handle_ok_plain v a : handle_ok v a -> plain a = true.
Proof. unfold handle_ok. case_match; [apply legacy_handle_plain|apply handle_plain]. Qed.

Lemma validateLegacy_None label a :
  validateLegacyInspectionHandleValue label a = None <-> validateLegacyInspectableHandle a = None.
Proof.
  unfold validateLegacyInspectionHandleValue, ValidateLegacyHandleForInspection. split.
  - destruct (validateHandleValue label a) eqn:E.
    + by destruct (validateLegacyInspectableHandle a).
    + intros _. apply validateHandleValue_None in E. by apply ValidateHandle_None in E as [? _].
  - intros ->. by destruct (validateHandleValue label a).
Qed.

(** ** Names *)

(** A name that is safe as the base of a file name. *)
Definition safe_name (s : string) : Prop :=
  TrimSpace s <> "" /\ HasPrefix (TrimSpace s) "." = false /\ has_separator (TrimSpace s) = false /\
  HasSuffix (TrimSpace s) ".md" = false.

Lemma ensureSafeBaseName_safe s : (exists n, ensureSafeBaseName s = inl n) <-> safe_name s.
Proof.
  unfold ensureSafeBaseName, safe_name. set (t := TrimSpace s). clearbody t. split.
  - intros [n H]. repeat (case_match; try done). split_and!; try done. by eapply bool_decide_eq_false_1.
  - intros (Hne & Hdot & Hsep & Hmd). exists t. rewrite bool_decide_eq_false_2, Hdot, Hsep, Hmd by done.
    rewrite !bool_decide_eq_false_2; try (intros ->; by vm_compute in Hdot). cbn [orb].
    assert (base_is_self t = true) as ->; [|done]. unfold base_is_self. rewrite bool_decide_eq_false_2 by done.
    unfold has_separator in Hsep. apply orb_false_iff in Hsep as [Hs _]. change "/" with (String slash "") in Hs.
    rewrite str_mem_Contains in Hs. by rewrite Hs.
Qed.

Lemma safe_name_plain s : safe_name s -> s <> "" /\ HasPrefix s "." = false /\ str_mem slash s = false.
Proof.
  intros (Hne & Hdot & Hsep & _). destruct (TrimSpace_spec s) as (l & r & E & Hl & Hr).
  set (t := TrimSpace s) in *. clearbody t. subst s. unfold has_separator in Hsep. apply orb_false_iff in Hsep as [Hs _].
  change "/" with (String slash "") in Hs. rewrite str_mem_Contains in Hs. split_and!.
  - destruct l; [|done]. rewrite string_app_nil_l. by destruct t.
  - destruct l as [|c l].
    + rewrite string_app_nil_l. destruct t as [|c t]; [done|]. exact Hdot.
    + cbn [str_forallb] in Hl. apply andb_true_iff in Hl as [Hl _]. rewrite string_app_cons. cbn. case_bool_decide as E; [|done].
      by subst c.
  - rewrite !str_mem_app, Hs. rewrite (forallb_no_char space_byte _ l Hl), (forallb_no_char space_byte _ r Hr) by done. done.
Qed.

(** The receipt for a safe message identifier is one visible file. *)
Lemma receipt_name_plain id consumer stage :
  id <> "" -> HasPrefix id "." = false -> str_mem slash id = false -> plain consumer = true -> str_mem slash stage = false ->
  plain (Receipt.receipt_name id consumer stage) = true /\ HasPrefix (Receipt.receipt_name id consumer stage) "." = false.
Proof.
  intros Hne Hdot Hsl (_ & _ & _ & Hc)%plain_spec Hst. destruct id as [|c id]; [done|].
  assert (HasPrefix (Receipt.receipt_name (String c id) consumer stage) "." = false) as Hp.
  { unfold Receipt.receipt_name. rewrite string_app_cons. exact Hdot. }
  split; [|done]. apply plain_spec. split; [done|].
  split; [intros E; by rewrite E in Hp|]. split; [intros E; by rewrite E in Hp|].
  unfold Receipt.receipt_name. by rewrite !str_mem_app, Hsl, Hc, Hst.
Qed.

(** ** Headers *)

Lemma first_error_None {A} (f : A -> option gerr) l : first_error f l = None <-> Forall (fun x => f x = None) l.
Proof.
  induction l as [|x l IH]; [done|]. cbn. rewrite Forall_cons, <-IH. destruct (f x); naive_solver.
Qed.

Record header_ok (v : headerValidator) (h : Format.Header) : Prop := {
  ok_schema : strict v = true -> Format.Schema h = Format.CurrentSchema;
  ok_id : safe_name (Format.ID h);
  ok_from : handle_ok v (Format.From h);
  ok_some : recipients h <> [];
  ok_to : Forall (handle_ok v) (recipients h);
  ok_thread : Format.Thread h <> "" /\ TrimSpace (Format.Thread h) = Format.Thread h;
  ok_created : Format.Created h <> "" /\ TrimSpace (Format.Created h) = Format.Created h /\
    exists t, Parse_RFC3339Nano (Format.Created h) = Some t;
  ok_priority : Format.Priority h = "" \/ Format.Priority h ∈ Format.ValidPriorities;
  ok_kind : Format.Kind h = "" \/ Format.Kind h ∈ Format.ValidKinds;
  ok_known : known v <> ∅ -> Format.From h ∈ known v /\ Forall (fun x => x ∈ known v) (recipients h);
}.

Lemma valid_member (p : string) l :
  (if bool_decide (p = "") then true else existsb (fun v => bool_decide (p = v)) l) = true <-> p = "" \/ p ∈ l.
Proof.
  case_bool_decide as E; [naive_solver|]. rewrite existsb_exists. setoid_rewrite bool_decide_eq_true.
  rewrite list_elem_of_In. naive_solver.
Qed.

(** The fields, for a check of handles that accepts what it should. *)
Lemma fields_ok v h (check : string -> string -> option gerr) :
  (forall label a, check label a = None <-> handle_ok v a) ->
  validateHeaderFieldsWithHandleValidation h check = None <->
  (safe_name (Format.ID h) /\ handle_ok v (Format.From h) /\ recipients h <> [] /\ Forall (handle_ok v) (recipients h)) /\
  (Format.Thread h <> "" /\ TrimSpace (Format.Thread h) = Format.Thread h) /\
  (Format.Created h <> "" /\ TrimSpace (Format.Created h) = Format.Created h /\
    exists t, Parse_RFC3339Nano (Format.Created h) = Some t) /\
  (Format.Priority h = "" \/ Format.Priority h ∈ Format.ValidPriorities) /\
  (Format.Kind h = "" \/ Format.Kind h ∈ Format.ValidKinds).
Proof.
  intros Hcheck. unfold validateHeaderFieldsWithHandleValidation.
  rewrite <-ensureSafeBaseName_safe, <-(Hcheck "sender" (Format.From h)).
  rewrite <-(valid_member (Format.Priority h)), <-(valid_member (Format.Kind h)).
  assert (Forall (handle_ok v) (recipients h) <-> first_error (check "recipient") (recipients h) = None) as ->.
  { rewrite first_error_None. apply Forall_iff. intros x. by rewrite Hcheck. }
  fold (Format.IsValidPriority (Format.Priority h)) (Format.IsValidKind (Format.Kind h)).
  destruct (ensureSafeBaseName (Format.ID h)) as [n|]; [|naive_solver].
  destruct (check "sender" (Format.From h)); [naive_solver|].
  case_bool_decide; [naive_solver|]. destruct (first_error _ _); [naive_solver|].
  destruct (decide (TrimSpace (Format.Thread h) = Format.Thread h)) as [Et|Et];
    [rewrite Et, (bool_decide_eq_true_2 (Format.Thread h = Format.Thread h)) by done
    |rewrite (bool_decide_eq_false_2 (TrimSpace _ = Format.Thread h)) by done];
    (case_bool_decide; [naive_solver|]); cbn [negb]; [|naive_solver].
  destruct (decide (TrimSpace (Format.Created h) = Format.Created h)) as [Ec|Ec];
    [rewrite Ec, (bool_decide_eq_true_2 (Format.Created h = Format.Created h)) by done
    |rewrite (bool_decide_eq_false_2 (TrimSpace _ = Format.Created h)) by done];
    (case_bool_decide; [naive_solver|]); cbn [negb]; [|naive_solver].
  destruct (Parse_RFC3339Nano (Format.Created h)); [|naive_solver].
  destruct (Format.IsValidPriority _); cbn [negb]; [|naive_solver].
  destruct (Format.IsValidKind _); cbn [negb]; naive_solver.
Qed.

Definition handle_check (v : headerValidator) : string -> string -> option gerr :=
  if allowLegacyFlagHandles v then validateLegacyInspectionHandleValue else validateHandleValue.

Lemma handle_check_ok v label a : handle_check v label a = None <-> handle_ok v a.
Proof. unfold handle_check, handle_ok. case_match; [apply validateLegacy_None|apply validateHandleValue_None]. Qed.

Lemma validateHeaderBasic_None v h : validateHeaderBasic v h = None <->
  (strict v = true -> Format.Schema h = Format.CurrentSchema) /\
  validateHeaderFieldsWithHandleValidation h (handle_check v) = None.
Proof.
  unfold validateHeaderBasic, validateHeaderFields, handle_check.
  destruct (strict v); cbn [andb]; [destruct (Z.eqb_spec (Format.Schema h) Format.CurrentSchema); cbn [negb]|];
    destruct (allowLegacyFlagHandles v); naive_solver.
Qed.

Lemma known_ok v h :
  (if bool_decide (known v = ∅) then None else
   if negb (bool_decide (Format.From h ∈ known v)) then Some (EMsg "unknown sender handle") else
   first_error (fun recipient =>
     if bool_decide (recipient ∈ known v) then None else Some (EMsg "unknown recipient handle")) (recipients h)) = None <->
  (known v <> ∅ -> Format.From h ∈ known v /\ Forall (fun x => x ∈ known v) (recipients h)).
Proof.
  case_bool_decide as Ek; [naive_solver|]. case_bool_decide as Hf; cbn [negb]; [|naive_solver].
  rewrite first_error_None. split.
  - intros H _. split; [done|]. eapply Forall_impl; [exact H|]. intros x. cbn. by case_bool_decide.
  - intros H. eapply Forall_impl; [by apply H|]. intros x Hx. cbn. by rewrite bool_decide_eq_true_2.
Qed.

(** C27: A header is accepted exactly when it is right: its identifier is a safe base name,
    sender and recipients are valid handles and there is a recipient, thread and time stamp are
    there without space around them and the time stamp can be read, priority and kind are
    known words or empty, in strict mode the schema is the current one, and if there is a list
    of known agents sender and recipients are on it.  Then sender and recipients are single
    components of a path, and the receipt of the message is one visible file. *)
Theorem header_accepted_iff v h :
  (validate v h = None <-> header_ok v h) /\
  (header_ok v h -> Forall (fun a => plain a = true) (Format.From h :: recipients h) /\
    forall consumer stage, plain consumer = true -> str_mem slash stage = false ->
      plain (Receipt.receipt_name (Format.ID h) consumer stage) = true /\
      HasPrefix (Receipt.receipt_name (Format.ID h) consumer stage) "." = false).
Proof.
  split.
  - unfold validate. pose proof (validateHeaderBasic_None v h) as Hb. pose proof (known_ok v h) as Hk.
    rewrite (fields_ok v h _ (handle_check_ok v)) in Hb. split.
    + destruct (validateHeaderBasic v h); [done|]. intros Hkn. pose proof (proj1 Hk Hkn) as Hkn1.
      destruct (proj1 Hb eq_refl) as (? & ? & ? & ? & ? & ?).
      by split; try tauto.
    + intros []. rewrite (proj2 Hb) by tauto. by apply Hk.
  - intros []. split.
    + constructor; [by eapply handle_ok_plain|]. eapply Forall_impl; [exact ok_to0|]. intros x. apply handle_ok_plain.
    + intros consumer stage Hc Hst. destruct (safe_name_plain _ ok_id0) as (? & ? & ?). by apply receipt_name_plain.
Qed.
