(* ===== verification/Thread.v ===== *)
(** Collecting the messages of a thread: internal/thread/thread.go. *)
From S2P Require Import Prelude GoStr GoSort GoTime GoPath Json JsonStruct TimeParse GoErr Fs Wp FsFacts Names DeliveryRoot DeliveryRootFacts Sample AmbientFacts Delivery MessageFormat.
From S2P Require Ambient Format.

Record Entry := MkEntry {
  ID : string; From : string; To : option (list string); Thread : string; Subject : string; Created : string;
  Body : string; Priority : string; Kind : string; Labels : option (list string); RawTime : Z }.

#[global] Instance Entry_Timestamped : Format.Timestamped Entry :=
  {| Format.GetCreated := Created; Format.GetID := ID; Format.GetRawTime := RawTime |}.

(** The time stamp of a header, the zero time when it cannot be read. *)
Definition raw_time (created : string) : Z := default zero_time (Parse_RFC3339Nano created).

Definition entry_of (h : Format.Header) (body : string) : Entry :=
  MkEntry (Format.ID h) (Format.From h) (Format.To h) (Format.Thread h) (Format.Subject h) (Format.Created h)
    body (Format.Priority h) (Format.Kind h) (Format.Labels h) (raw_time (Format.Created h)).

(** The header, and the body when it is wanted. *)
Definition read_entry (includeBody : bool) (p : path) : prog ((Format.Header * string) + gerr) :=
  if includeBody then
    x ← Format.ReadMessageFile p;
    match x with
    | (Some m, None) => Ret (inl (Format.Header_ m, Format.Body m))
    | (_, Some e) => Ret (inr e)
    | (None, None) => Ret (inl (Format.zero_header, ""))
    end
  else
    x ← Format.ReadHeaderFile p;
    match x with
    | (Some h, None) => Ret (inl (h, ""))
    | (_, Some e) => Ret (inr e)
    | (None, None) => Ret (inl (Format.zero_header, ""))
    end.

Definition skipped (name : string) (k : kind) : bool :=
  bool_decide (k = KDir) || HasPrefix name "." || negb (HasSuffix name ".md").

(** onError, when there is one, says for a message that cannot be read whether to go on. *)
Abbreviation callback := (option (path -> gerr -> option gerr)).

Definition parse_failed (onError : callback) (p : path) (err : gerr) : option gerr :=
  match onError with
  | None => Some (Errorf "parse message" err)
  | Some f => f p err
  end.

(** What has been collected: the entries, and the identifiers seen. *)
Abbreviation collected := (list Entry * gset string)%type.

Definition add_entry (threadID : string) (h : Format.Header) (body : string) (st : collected) : collected :=
  if negb (bool_decide (Format.Thread h = threadID)) then st else
  if bool_decide (Format.ID h ∈ st.2) then st else
  (st.1 ++ [entry_of h body], {[Format.ID h]} ∪ st.2).

Section collect.
Context (threadID : string) (includeBody : bool) (onError : callback).

Fixpoint scan_files (dir : path) (files : list (string * kind)) (st : collected) : prog (collected + gerr) :=
  match files with
  | [] => Ret (inl st)
  | (name, k) :: rest =>
    if skipped name k then scan_files dir rest st else
    let p := Join_under dir [name] in
    x ← read_entry includeBody p;
    match x with
    | inr err =>
      match parse_failed onError p err with
      | Some e => Ret (inr e)
      | None => scan_files dir rest st
      end
    | inl (h, body) => scan_files dir rest (add_entry threadID h body st)
    end
  end.

Fixpoint scan_dirs (dirs : list path) (st : collected) : prog (collected + gerr) :=
  match dirs with
  | [] => Ret (inl st)
  | dir :: rest =>
    x ← Ambient.os_ReadDir dir;
    match x with
    | (_, Some err) => if os_IsNotExist err then scan_dirs rest st else Ret (inr err)
    | (files, None) =>
      y ← scan_files dir files st;
      match y with
      | inr e => Ret (inr e)
      | inl st => scan_dirs rest st
      end
    end
  end.

Definition agent_dirs (root : path) (agent : string) : list path :=
  [AgentInboxNew root agent; AgentInboxCur root agent; AgentOutboxSent root agent].

Definition Collect `{SortSlice} (root : path) (agents : list string) : prog (list Entry * option gerr) :=
  x ← scan_dirs (List.flat_map (agent_dirs root) agents) ([], ∅);
  match x with
  | inr e => Ret ([], Some e)
  | inl (entries, _) => Ret (Format.SortByTimestamp entries, None)
  end.

End collect.

(** What collecting a thread guarantees: internal/thread. *)

(** ** Reading one file *)

(** What the text of a file is read as. *)
Definition text_of (includeBody : bool) (d : string) : (Format.Header * string) + gerr :=
  if includeBody then
    if Z.ltb Format.MaxMessageSize (Z.of_nat (String.length d)) then inr (Errorf "" (ESent ErrMessageTooLarge)) else
    match Format.ParseMessage (Format.limit (Format.MaxMessageSize + 1) d) with
    | inl m => inl (Format.Header_ m, Format.Body m)
    | inr e => inr e
    end
  else match Format.ReadHeader d with inl h => inl (h, "") | inr e => inr e end.

Lemma live_read_entry e b p i d w :
  healthy e -> p <> [] -> t_parent (tr w) p = None -> dents (tr w) !! p = Some (NFile i) -> data (tr w) !! i = Some d ->
  (run e (read_entry b p) w).1 = text_of b d.
Proof.
  intros Hnf Hp Hpar Hi Hd. unfold read_entry, text_of. destruct b; rewrite run_mbind.
  - unfold Format.ReadMessageFile. rewrite run_mbind, (live_OpenRegularNoFollow e p i w) by done. cbn [fst snd i_size].
    rewrite Hd. cbn [default]. destruct (Z.ltb _ _); [done|]. live. rewrite Hd. cbn [fst snd].
    by destruct (Format.ParseMessage _).
  - unfold Format.ReadHeaderFile. rewrite run_mbind, (live_OpenRegularNoFollow e p i w) by done. cbn [fst snd].
    live. rewrite Hd. cbn [fst snd]. by destruct (Format.ReadHeader d).
Qed.

Lemma ro_read_entry b p : ro (read_entry b p).
Proof.
  unfold read_entry, Format.ReadMessageFile, Format.ReadHeaderFile.
  destruct b; (apply ro_bind; [apply ro_bind; [apply ro_OpenRegular|]|]); intros; repeat case_match; ro_tac; repeat case_match; ro_tac.
Qed.

(** What was read was in the file, whatever fails. *)
Lemma open_regular e p w : match run e (Ambient.OpenRegularNoFollow p) w with
  | ((Some (file, i), None), w') => dents (tr w) !! p = Some (NFile (h_ino file)) /\ tr w' = tr w /\
      i_size i = String.length (default "" (data (tr w) !! h_ino file))
  | ((None, None), _) => False
  | _ => True
  end.
Proof.
  unfold Ambient.OpenRegularNoFollow. rewrite run_bind, run_sys. cbn [exec]. unfold obs.
  destruct (e_fault e (tick w)); [by cbn|]. destruct (t_lstat (tr w) p) as [i|]; [|by cbn]. cbn [fst snd].
  destruct (DeliveryRoot.validateRegularNoFollowFile i); [by cbn|]. rewrite run_bind, run_sys. cbn [exec]. unfold obs.
  change (tr (bump w)) with (tr w).
  destruct (e_fault e _); [by cbn|]. destruct (t_open_nofollow (tr w) p) as [h|] eqn:Eo; [|by cbn]. cbn [fst snd].
  rewrite run_bind, run_sys. cbn [exec]. unfold obs. change (tr (bump (bump w))) with (tr w). destruct (e_fault e _); [by cbn|]. cbn [fst snd].
  unfold t_open_nofollow in Eo. destruct p as [|c p]; [by cbn in Eo; simplify_eq|].
  destruct (t_node (tr w) (c :: p)) as [[j|j m|j q|j]|] eqn:En; simplify_eq; cbn; try done.
  apply t_node_Ok_inv in En as [_ En]; [|done]. done.
Qed.

Lemma read_entry_text e b p w h body : (run e (read_entry b p) w).1 = inl (h, body) ->
  exists d, content (tr w) p = Some d /\ text_of b d = inl (h, body).
Proof.
  pose proof (open_regular e p w) as Ho. unfold read_entry, text_of, Format.ReadMessageFile, Format.ReadHeaderFile, content.
  destruct b; rewrite !run_mbind; destruct (run e (Ambient.OpenRegularNoFollow p) w) as [[[[f i]|] [x|]] w1]; cbn [fst snd]; try done.
  - destruct Ho as (-> & Ht & ->). destruct (Z.ltb _ _) eqn:Hsz; [done|]. rewrite run_bind, run_sys. cbn [exec]. unfold obs. rewrite Ht.
    destruct (e_fault e (tick w1)); [by cbn|]. destruct (data (tr w) !! h_ino f) as [d|]; [|by cbn]. change (default "" (Some d)) with d in Hsz.
    cbn [fst snd]. intros E. exists d. split; [done|]. rewrite Hsz. by destruct (Format.ParseMessage _).
  - destruct Ho as (-> & Ht & _). rewrite run_bind, run_sys. cbn [exec]. unfold obs. rewrite Ht.
    destruct (e_fault e (tick w1)); [by cbn|]. destruct (data (tr w) !! h_ino f) as [d|]; [|by cbn].
    cbn [fst snd]. intros E. exists d. split; [done|]. by destruct (Format.ReadHeader _).
Qed.

(** ** What is collected *)

(** The entries are those of the thread, one for each identifier seen. *)
Definition tidy (threadID : string) (st : collected) : Prop :=
  NoDup (ID <$> st.1) /\ Forall (fun x => Thread x = threadID) st.1 /\ st.2 = list_to_set (ID <$> st.1).

Lemma tidy_add threadID h body st : tidy threadID st -> tidy threadID (add_entry threadID h body st).
Proof.
  intros (Hn & Ht & Hs). unfold add_entry. case_bool_decide as Eth; cbn [negb]; [|done]. case_bool_decide as Hin; [done|].
  unfold tidy. cbn [fst snd]. rewrite fmap_app. split_and!.
  - apply NoDup_app. split; [done|]. split; [|apply NoDup_singleton]. intros x Hx ->%list_elem_of_singleton.
    apply Hin. rewrite Hs. by apply elem_of_list_to_set.
  - apply Forall_app. split; [done|]. by repeat constructor.
  - rewrite Hs, list_to_set_app_L. cbn. set_solver.
Qed.

(** Nothing is dropped, and a message of the thread has an entry with its identifier. *)
Lemma add_keeps threadID h body st x : x ∈ st.1 -> x ∈ (add_entry threadID h body st).1.
Proof. intros Hx. unfold add_entry. repeat case_match; try done. cbn. apply elem_of_app. by left. Qed.

Lemma add_has threadID h body st : tidy threadID st -> Format.Thread h = threadID ->
  Format.ID h ∈ ID <$> (add_entry threadID h body st).1.
Proof.
  intros (_ & _ & Hs) E. unfold add_entry. rewrite bool_decide_eq_true_2 by done. cbn [negb]. case_bool_decide as Hin.
  - rewrite Hs in Hin. by apply elem_of_list_to_set in Hin.
  - cbn [fst]. rewrite fmap_app. apply elem_of_app. right. by left.
Qed.

Section scan.
Context (threadID : string) (b : bool) (onError : callback).

Lemma tidy_scan_files dir files st : tidy threadID st ->
  returns (fun x => match x with inl st' => tidy threadID st' /\ forall x, x ∈ st.1 -> x ∈ st'.1 | inr _ => True end)
    (scan_files threadID b onError dir files st).
Proof.
  revert st. induction files as [|[name k] files IH]; intros st Hst; [done|]. cbn [scan_files].
  destruct (skipped name k); [by apply IH|]. eapply returns_bind; [apply returns_any|]. intros [[h body]|err] _.
  - eapply returns_mono; [|apply IH, tidy_add, Hst]. intros [st'|]; [|done]. intros [H1 H2]. split; [done|].
    intros x Hx. by apply H2, add_keeps.
  - destruct (parse_failed onError _ err); [done|]. by apply IH.
Qed.

Lemma tidy_scan_dirs dirs st : tidy threadID st ->
  returns (fun x => match x with inl st' => tidy threadID st' /\ forall x, x ∈ st.1 -> x ∈ st'.1 | inr _ => True end)
    (scan_dirs threadID b onError dirs st).
Proof.
  revert st. induction dirs as [|dir dirs IH]; intros st Hst; [done|]. cbn [scan_dirs].
  eapply returns_bind; [apply returns_any|]. intros [files [err|]] _.
  - destruct (os_IsNotExist err); [by apply IH|done].
  - eapply returns_bind; [by apply tidy_scan_files|]. intros [st'|e'] Hst'; [|done]. destruct Hst' as [H1 H2].
    eapply returns_mono; [|by apply IH]. intros [st''|]; [|done]. intros [H3 H4]. split; [done|]. auto.
Qed.

(** The message in a file of the listing is collected. *)
Lemma scan_files_complete e dir files name k i d h body : forall st st' w w',
  healthy e -> tidy threadID st -> (name, k) ∈ files -> skipped name k = false ->
  let p := Join_under dir [name] in
  p <> [] -> t_parent (tr w) p = None -> dents (tr w) !! p = Some (NFile i) -> data (tr w) !! i = Some d ->
  text_of b d = inl (h, body) -> Format.Thread h = threadID ->
  run e (scan_files threadID b onError dir files st) w = (inl st', w') ->
  Format.ID h ∈ ID <$> st'.1.
Proof.
  induction files as [|[name' k'] files IH]; intros st st' w w' Hnf Hst Hin Hsk p Hp Hpar Hi Hd Ht Eth Hrun;
    [by apply elem_of_nil in Hin|]. cbn [scan_files] in Hrun. apply elem_of_cons in Hin as [[= <- <-]|Hin].
  - rewrite Hsk in Hrun. rewrite run_mbind in Hrun. fold p in Hrun. rewrite (live_read_entry e b p i d w) in Hrun by done.
    rewrite Ht in Hrun.
    pose proof (returns_run e _ _ (run e (read_entry b p) w).2
      (tidy_scan_files dir files (add_entry threadID h body st) (tidy_add _ _ _ _ Hst))) as H.
    rewrite Hrun in H. destruct H as [_ H]. pose proof (add_has threadID h body st Hst Eth) as Ha.
    apply list_elem_of_fmap in Ha as (x & Ex & Hx). apply list_elem_of_fmap. exists x. split; [done|]. by apply H.
  - destruct (skipped name' k'); [by apply (IH st st' w w')|]. rewrite run_mbind in Hrun.
    destruct (run_ro e _ w (ro_read_entry b (Join_under dir [name']))) as [Htr _].
    destruct (run e (read_entry b (Join_under dir [name'])) w) as [[[h' body']|err] w1]; cbn [fst snd] in *.
    + apply (IH (add_entry threadID h' body' st) st' w1 w' Hnf (tidy_add _ _ _ _ Hst) Hin Hsk); by rewrite ?Htr.
    + destruct (parse_failed onError _ err); [done|].
      apply (IH st st' w1 w' Hnf Hst Hin Hsk); by rewrite ?Htr.
Qed.

Lemma ro_scan_files dir files st : ro (scan_files threadID b onError dir files st).
Proof.
  revert st. induction files as [|[name k] files IH]; intros st; [done|]. cbn [scan_files].
  destruct (skipped name k); [done|]. apply ro_bind; [apply ro_read_entry|]. intros [[h body]|err]; [done|]. by case_match.
Qed.

(** A file of one of the directories is collected. *)
Lemma scan_dirs_complete e dir dirs name i d h body : forall st st' w w',
  healthy e -> tidy threadID st -> dir ∈ dirs -> skipped name KFile = false ->
  Forall (fun c => plain c = true) (dir ++ [name]) -> dirs_upto (tr w) dir -> dir <> [] ->
  dents (tr w) !! (dir ++ [name]) = Some (NFile i) -> data (tr w) !! i = Some d ->
  text_of b d = inl (h, body) -> Format.Thread h = threadID ->
  run e (scan_dirs threadID b onError dirs st) w = (inl st', w') ->
  Format.ID h ∈ ID <$> st'.1.
Proof.
  induction dirs as [|dir' dirs IH]; intros st st' w w' Hnf Hst Hin Hsk Hpl Hdir Hne Hi Hd Ht Eth Hrun;
    [by apply elem_of_nil in Hin|]. cbn [scan_dirs] in Hrun. rewrite run_mbind in Hrun.
  apply elem_of_cons in Hin as [<-|Hin].
  - destruct (dirs_upto_node _ _ Hne (plain_escapes _ (proj1 (proj1 (Forall_app _ _ _) Hpl))) Hdir) as (j & m & Hnode).
    rewrite (live_os_ReadDir e dir j m w Hnf Hnode) in Hrun. cbn [fst snd] in Hrun. rewrite run_mbind in Hrun.
    set (files := Ambient.sort_entries _) in Hrun.
    assert (Join_under dir [name] = dir ++ [name]) as Ep
      by (apply Join_under_plain; by apply (proj1 (Forall_app _ _ _) Hpl)).
    destruct (run e (scan_files _ _ _ dir files st) _) as [[st1|err] w1] eqn:Hf; cbn [fst snd] in Hrun; [|done].
    assert (Format.ID h ∈ ID <$> st1.1) as Hx.
    { refine (scan_files_complete e dir files name KFile i d h body st st1 (bump (bump w)) w1 Hnf Hst _ Hsk _ _ _ Hd Ht Eth Hf); rewrite ?Ep.
      - unfold files. rewrite sort_entries_perm, e_order_perm. by apply (children_elem _ dir _ (NFile i)).
      - apply snoc_not_nil.
      - apply dirs_upto_parent; [done|]. by apply plain_escapes.
      - done. }
    pose proof (returns_run e _ _ (bump (bump w)) (tidy_scan_files dir files st Hst)) as H1. rewrite Hf in H1. destruct H1 as [Hst1 _].
    pose proof (returns_run e _ _ w1 (tidy_scan_dirs dirs st1 Hst1)) as H2. rewrite Hrun in H2. destruct H2 as [_ H2].
    apply list_elem_of_fmap in Hx as (x & Ex & Hx). apply list_elem_of_fmap. exists x. split; [done|]. by apply H2.
  - destruct (run_ro e _ w (ro_os_ReadDir dir')) as [Htr _].
    destruct (run e (Ambient.os_ReadDir dir') w) as [[files [err|]] w1]; cbn [fst snd] in *.
    + destruct (os_IsNotExist err); [|done]. apply (IH st st' w1 w' Hnf Hst Hin Hsk Hpl); by rewrite ?Htr.
    + rewrite run_mbind in Hrun. destruct (run_ro e _ w1 (ro_scan_files dir' files st)) as [Htr2 _].
      pose proof (returns_run e _ _ w1 (tidy_scan_files dir' files st Hst)) as H1.
      destruct (run e (scan_files _ _ _ dir' files st) w1) as [[st1|err] w2]; cbn [fst snd] in *; [|done].
      destruct H1 as [Hst1 _]. apply (IH st1 st' w2 w' Hnf Hst1 Hin Hsk Hpl); by rewrite ?Htr2, ?Htr.
Qed.

End scan.

(** ** Where it comes from *)

(** The entry of a message in a file of one of the directories. *)
Definition from_file (b : bool) (t : tree) (dirs : list path) (x : Entry) : Prop :=
  exists dir name k d h body, dir ∈ dirs /\ skipped name k = false /\
    content t (Join_under dir [name]) = Some d /\ text_of b d = inl (h, body) /\ x = entry_of h body.

Lemma add_from b t dirs threadID h body st x : from_file b t dirs (entry_of h body) ->
  x ∈ (add_entry threadID h body st).1 -> x ∈ st.1 \/ from_file b t dirs x.
Proof.
  intros Hf. unfold add_entry. repeat case_match; try by left. cbn [fst].
  intros [?| ->%list_elem_of_singleton]%elem_of_app; [by left|by right].
Qed.

Section source.
Context (threadID : string) (b : bool) (onError : callback) (e : env) (t : tree).

Lemma scan_files_from dir dirs files : dir ∈ dirs -> forall st st' w w', tr w = t ->
  run e (scan_files threadID b onError dir files st) w = (inl st', w') ->
  forall x, x ∈ st'.1 -> x ∈ st.1 \/ from_file b t dirs x.
Proof.
  intros Hdir. induction files as [|[name k] files IH]; intros st st' w w' Ht Hrun x Hx; cbn [scan_files] in Hrun.
  { injection Hrun as <- _. by left. }
  destruct (skipped name k) eqn:Hsk; [by eapply IH|]. rewrite run_mbind in Hrun.
  destruct (run_ro e _ w (ro_read_entry b (Join_under dir [name]))) as [Htr _].
  pose proof (read_entry_text e b (Join_under dir [name]) w) as Hread.
  destruct (run e (read_entry b (Join_under dir [name])) w) as [[[h body]|err] w1]; cbn [fst snd] in *.
  - destruct (IH _ _ w1 w' ltac:(congruence) Hrun x Hx) as [Hx'|?]; [|by right]. destruct (Hread h body eq_refl) as (d & Hd & Htx).
    eapply add_from; [|exact Hx']. exists dir, name, k, d, h, body. by rewrite <-Ht.
  - destruct (parse_failed onError _ err); [done|]. eapply IH; [|exact Hrun|done]. congruence.
Qed.

Lemma scan_dirs_from all dirs : (forall dir, dir ∈ dirs -> dir ∈ all) -> forall st st' w w', tr w = t ->
  run e (scan_dirs threadID b onError dirs st) w = (inl st', w') ->
  forall x, x ∈ st'.1 -> x ∈ st.1 \/ from_file b t all x.
Proof.
  induction dirs as [|dir dirs IH]; intros Hall st st' w w' Ht Hrun x Hx; cbn [scan_dirs] in Hrun.
  { injection Hrun as <- _. by left. }
  assert (forall dir', dir' ∈ dirs -> dir' ∈ all) as Hall' by (intros; apply Hall; by right).
  rewrite run_mbind in Hrun. destruct (run_ro e _ w (ro_os_ReadDir dir)) as [Htr _].
  destruct (run e (Ambient.os_ReadDir dir) w) as [[files [err|]] w1]; cbn [fst snd] in *.
  { destruct (os_IsNotExist err); [|done]. eapply IH; [done| |exact Hrun|done]. congruence. }
  rewrite run_mbind in Hrun. destruct (run_ro e _ w1 (ro_scan_files threadID b onError dir files st)) as [Htr2 _].
  destruct (run e (scan_files _ _ _ dir files st) w1) as [[st1|err] w2] eqn:Hf; cbn [fst snd] in *; [|done].
  destruct (IH Hall' _ _ w2 w' ltac:(congruence) Hrun x Hx) as [Hx'|?]; [|by right].
  apply (scan_files_from dir all files ltac:(apply Hall; by left) st st1 w1 w2 ltac:(congruence) Hf x Hx').
Qed.

End source.

(** ** The result *)

(** A time stamp that the program writes. *)
Definition stamped_at (created : string) (t : Z) : Prop :=
  created = Format_RFC3339Nano t /\ (0 <= c_year (civil_of t) <= 9999)%Z /\ t <> zero_time.

Lemma sorted_by_time `{SortSlice} (l : list Entry) :
  Forall (fun x => exists t, RawTime x = t /\ t <> zero_time) l ->
  StronglySorted (fun a b => RawTime a <= RawTime b)%Z (Format.SortByTimestamp l).
Proof.
  intros Hl. assert (Forall (same_clock (T := Entry) false) l) as Hz.
  { eapply Forall_impl; [exact Hl|]. intros x (t & Ht & Hne). unfold same_clock. cbn. rewrite Ht. by apply Z.eqb_neq. }
  pose proof (sort_slice_sorted _ _ _ (timestamp_weak_order (T := Entry) false) Hz) as Hs.
  pose proof (sort_slice_perm Format.timestamp_less l) as Hp. fold (Format.SortByTimestamp l) in Hs, Hp.
  rewrite <-Hp in Hz. revert Hz Hs. generalize (Format.SortByTimestamp l). clear. intros l Hz Hs.
  induction Hs as [|a l Hs IH Hall]; [constructor|]. inv Hz as [|? ? Ha Hz']. constructor; [by apply IH|].
  rewrite Forall_forall in Hall, Hz' |- *. intros x Hx. specialize (Hall x Hx). specialize (Hz' x Hx).
  unfold Format.timestamp_less, same_clock in *. cbn in *. rewrite Ha, Hz' in Hall. cbn in Hall.
  destruct (Z.eqb_spec (RawTime x) (RawTime a)); [lia|]. apply Z.ltb_ge in Hall. lia.
Qed.

(** Every entry has the time its time stamp says. *)
Lemma scan_raw_time threadID b onError dirs st :
  Forall (fun x => RawTime x = raw_time (Created x)) st.1 ->
  returns (fun x => match x with inl st' => Forall (fun x => RawTime x = raw_time (Created x)) st'.1 | inr _ => True end)
    (scan_dirs threadID b onError dirs st).
Proof.
  assert (forall dir files st, Forall (fun x => RawTime x = raw_time (Created x)) st.1 ->
    returns (fun x => match x with inl st' => Forall (fun x => RawTime x = raw_time (Created x)) st'.1 | inr _ => True end)
    (scan_files threadID b onError dir files st)) as Hf.
  { intros dir files. induction files as [|[name k] files IH]; intros s Hs; [done|]. cbn [scan_files].
    destruct (skipped name k); [by apply IH|]. eapply returns_bind; [apply returns_any|]. intros [[h body]|err] _.
    - apply IH. unfold add_entry. repeat case_match; try done. cbn. apply Forall_app. split; [done|]. by repeat constructor.
    - case_match; [done|]. by apply IH. }
  revert st. induction dirs as [|dir dirs IH]; intros st Hs; [done|]. cbn [scan_dirs].
  eapply returns_bind; [apply returns_any|]. intros [files [err|]] _; [case_match; [by apply IH|done]|].
  eapply returns_bind; [by apply Hf|]. intros [st'|e'] Hst'; [by apply IH|done].
Qed.

(** C29: A collected thread is right: whatever fails, when Collect returns without error its
    entries are messages of the thread with pairwise distinct identifiers, and each is the entry
    of a message that is in a file of the inboxes and sent boxes of the agents; if all their time
    stamps were written by the program they are in the order of the instants (see
    timestamp_circle for others), and each has the instant its time stamp stands for.  And it is
    complete: when no call fails, every readable message of the thread in the inboxes and sent
    boxes of the agents has an entry with its identifier. *)
Theorem thread_collected `{SortSlice} e threadID b onError agents w l w' :
  run e (Collect threadID b onError [] agents) w = ((l, None), w') ->
  (NoDup (ID <$> l) /\ Forall (fun x => Thread x = threadID) l /\
   Forall (from_file b (tr w) (List.flat_map (agent_dirs []) agents)) l) /\
  (Forall (fun x => exists t, stamped_at (Created x) t) l ->
     StronglySorted (fun x y => RawTime x <= RawTime y)%Z l /\
     Forall (fun x => Created x = Format_RFC3339Nano (RawTime x)) l) /\
  (healthy e -> forall agent dir name d h body,
     agent ∈ agents -> plain agent = true -> dir ∈ agent_dirs [] agent -> skipped name KFile = false ->
     Forall (fun c => plain c = true) (dir ++ [name]) -> dirs_upto (tr w) dir ->
     content (tr w) (dir ++ [name]) = Some d -> text_of b d = inl (h, body) -> Format.Thread h = threadID ->
     Format.ID h ∈ ID <$> l).
Proof.
  unfold Collect. rewrite run_mbind. set (dirs := List.flat_map (agent_dirs []) agents).
  pose proof (returns_run e _ _ w (tidy_scan_dirs threadID b onError dirs ([], ∅) ltac:(by split_and!; [constructor|..]))) as Ht.
  pose proof (returns_run e _ _ w (scan_raw_time threadID b onError dirs ([], ∅) ltac:(constructor))) as Hr.
  destruct (run e (scan_dirs threadID b onError dirs ([], ∅)) w) as [[[entries seen]|err] w1] eqn:Hrun; [|done].
  cbn [fst snd] in Ht, Hr |- *. intros [= <- <-]. destruct Ht as [(Hn & Hth & _) _]. cbn [fst] in *.
  pose proof (sort_slice_perm Format.timestamp_less entries) as Hp. fold (Format.SortByTimestamp entries) in Hp.
  split_and!.
  - by rewrite Hp.
  - by rewrite Hp.
  - rewrite Hp. apply Forall_forall. intros x Hx.
    destruct (scan_dirs_from threadID b onError e (tr w) dirs dirs ltac:(done) _ _ w w1 eq_refl Hrun x Hx) as [[]%elem_of_nil|?]; done.
  - intros Hs. rewrite Hp in Hs.
    assert (Forall (fun x => exists t, RawTime x = t /\ t <> zero_time /\ Created x = Format_RFC3339Nano t) entries) as Hx.
    { rewrite Forall_forall in Hs, Hr |- *. intros x Hx. destruct (Hs x Hx) as (t & Ec & Hy & Hz). exists t.
      rewrite (Hr x Hx), Ec. unfold raw_time. by rewrite Parse_Format. }
    split.
    + apply sorted_by_time. eapply Forall_impl; [exact Hx|]. intros x (t & ? & ? & _). by exists t.
    + rewrite Hp. eapply Forall_impl; [exact Hx|]. by intros x (t & -> & _ & ->).
  - intros Hnf agent dir name d h body Hag Hpa Hdir Hsk Hpl Hup Hc Htx Eth. rewrite Hp.
    apply content_file in Hc as (i & Hi & Hd).
    apply (scan_dirs_complete threadID b onError e dir dirs name i d h body ([], ∅) (entries, seen) w w1); try done.
    + by split_and!; [constructor|..].
    + apply list_elem_of_In, in_flat_map. exists agent. by rewrite <-!list_elem_of_In.
    + intros ->. unfold agent_dirs in Hdir. rewrite !elem_of_cons, elem_of_nil in Hdir.
      unfold AgentInboxNew, AgentInboxCur, AgentOutboxSent in Hdir. rewrite !AgentMailboxPath_plain in Hdir by done. naive_solver.
Qed.

(** A message of bob's inbox is collected, with its body. *)
Definition thread_world : world :=
  sample_world [(["agents"; "bob"; "inbox"; "new"; "id-1.md"], Format.marshal_at 0 (Format.MkMessage sample_header "hello"))].

Lemma thread_collected_witness :
  let x := run quiet_env (Collect "p2p/alice__bob" true None [] ["alice"; "bob"]) thread_world in
  NoDup (ID <$> x.1.1) /\ "id-1" ∈ ID <$> x.1.1.
Proof.
  intros x.
  assert (x = ((x.1.1, None), x.2)) as Hx by (apply run_outcome; vm_compute; reflexivity).
  destruct (thread_collected quiet_env "p2p/alice__bob" true None ["alice"; "bob"] thread_world _ _ Hx) as ([Hn _] & _ & Hc).
  split; [exact Hn|].
  refine (Hc _ "bob" ["agents"; "bob"; "inbox"; "new"] "id-1.md" _ (stored (Format.set_defaults 0 sample_header))
    ("hello" +:+ LF) _ _ _ _ _ _ _ _ _).
  - intros n; reflexivity.
  - right. by left.
  - reflexivity.
  - vm_compute. by left.
  - reflexivity.
  - by repeat constructor.
  - apply dirs_uptob_spec. vm_compute. reflexivity.
  - vm_compute. reflexivity.
  - vm_compute. reflexivity.
  - reflexivity.
Defined.
