(* ===== verification/JsonUtf8.v ===== *)
(** What is decoded is valid UTF-8, whatever the input. *)
From S2P Require Import Prelude GoStr Json JsonFacts.

(** ** Runes *)

(** Bytes that are a whole number of valid runes. *)
Definition runes (p : string) : Prop := forall x, utf8_valid (p +:+ x) = utf8_valid x.

Lemma code_byte n : (n < 256)%N -> code (Ascii.ascii_of_N n) = N.to_nat n.
Proof.
  intros Hn. unfold code, Ascii.nat_of_ascii. by rewrite Ascii.N_ascii_embedding.
Qed.

Lemma runes_ascii c : is_ascii c = true -> runes (String c "").
Proof. intros Hc x. rewrite string_app_cons. cbn [utf8_valid]. by rewrite Hc. Qed.

Lemma runes_app p q : runes p -> runes q -> runes (p +:+ q).
Proof. intros Hp Hq x. by rewrite string_app_assoc, Hp, Hq. Qed.

Lemma runes_high2 a b : is_ascii a = false -> rune_len (String a (String b "")) = 2%nat -> runes (String a (String b "")).
Proof.
  intros Ha Hl x. rewrite !string_app_cons, string_app_nil_l. cbn [utf8_valid]. rewrite Ha.
  by rewrite (rune_len_2 a b "" Ha Hl x).
Qed.

Lemma runes_high3 a b c : is_ascii a = false -> rune_len (String a (String b (String c ""))) = 3%nat ->
  runes (String a (String b (String c ""))).
Proof.
  intros Ha Hl x. rewrite !string_app_cons, string_app_nil_l. cbn [utf8_valid]. rewrite Ha.
  by rewrite (rune_len_3 a b c "" Ha Hl x).
Qed.

Lemma runes_high4 a b c d : is_ascii a = false -> rune_len (String a (String b (String c (String d "")))) = 4%nat ->
  runes (String a (String b (String c (String d "")))).
Proof.
  intros Ha Hl x. rewrite !string_app_cons, string_app_nil_l. cbn [utf8_valid]. rewrite Ha.
  by rewrite (rune_len_4 a b c d "" Ha Hl x).
Qed.

(** A valid text is a whole number of runes. *)
Lemma valid_runes_len n s : (String.length s <= n)%nat -> utf8_valid s = true -> runes s.
Proof.
  revert s. induction n as [|n IH]; intros s Hl Hs x; (destruct s as [|a s]; [done|]); cbn in Hl; [lia|].
  rewrite string_app_cons. cbn [utf8_valid] in *. destruct (is_ascii a) eqn:Ha; [apply IH; [lia|done]|].
  destruct (rune_len (String a s)) as [|[|[|[|[|k]]]]] eqn:El; try done.
  - destruct s as [|b s]; [done|]. rewrite string_app_cons, (rune_len_2 a b _ Ha El). apply IH; [cbn in Hl; lia|done].
  - destruct s as [|b [|c s]]; try done. rewrite !string_app_cons, (rune_len_3 a b c _ Ha El). apply IH; [cbn in Hl; lia|done].
  - destruct s as [|b [|c [|d s]]]; try done. rewrite !string_app_cons, (rune_len_4 a b c d _ Ha El). apply IH; [cbn in Hl; lia|done].
Qed.

Lemma utf8_app s t : utf8_valid s = true -> utf8_valid t = true -> utf8_valid (s +:+ t) = true.
Proof. intros Hs Ht. by rewrite (valid_runes_len _ s (le_n _) Hs). Qed.

Lemma in_range_iff lo hi c : in_range lo hi c = true <-> (lo <= code c <= hi)%nat.
Proof. unfold in_range, code. rewrite andb_true_iff, !Nat.leb_le. done. Qed.

Lemma not_ascii_code a : (128 <= code a)%nat -> is_ascii a = false.
Proof. intros H. unfold is_ascii. by apply Nat.ltb_ge. Qed.

Lemma in_range_no lo hi c : (code c < lo \/ hi < code c)%nat -> in_range lo hi c = false.
Proof. intros H. apply not_true_iff_false. rewrite in_range_iff. lia. Qed.

Lemma runes_2 a b : (194 <= code a <= 223)%nat -> (128 <= code b <= 191)%nat -> runes (String a (String b "")).
Proof.
  intros Ha Hb. pose proof (not_ascii_code a ltac:(lia)) as Hna. apply runes_high2; [done|]. unfold rune_len, cont_byte.
  rewrite Hna. by rewrite !(proj2 (in_range_iff _ _ _)) by lia.
Qed.

Lemma runes_3 a b c :
  (224 <= code a <= 239)%nat -> (128 <= code b <= 191)%nat -> (128 <= code c <= 191)%nat ->
  (code a = 224 -> 160 <= code b)%nat -> (code a = 237 -> code b <= 159)%nat ->
  runes (String a (String b (String c ""))).
Proof.
  intros Ha Hb Hc Hlo Hhi. pose proof (not_ascii_code a ltac:(lia)) as Hna. apply runes_high3; [done|].
  unfold rune_len, cont_byte. rewrite Hna, (in_range_no 194) by lia. rewrite (proj2 (in_range_iff 224 239 a)) by lia.
  rewrite (proj2 (in_range_iff 128 191 c)) by lia. rewrite (proj2 (in_range_iff _ _ b)); [done|].
  destruct (Nat.eqb_spec (code a) 224), (Nat.eqb_spec (code a) 237); lia.
Qed.

Lemma runes_4 a b c d :
  (240 <= code a <= 244)%nat -> (128 <= code b <= 191)%nat -> (128 <= code c <= 191)%nat -> (128 <= code d <= 191)%nat ->
  (code a = 240 -> 144 <= code b)%nat -> (code a = 244 -> code b <= 143)%nat ->
  runes (String a (String b (String c (String d "")))).
Proof.
  intros Ha Hb Hc Hd Hlo Hhi. pose proof (not_ascii_code a ltac:(lia)) as Hna. apply runes_high4; [done|].
  unfold rune_len, cont_byte. rewrite Hna, (in_range_no 194), (in_range_no 224) by lia.
  rewrite (proj2 (in_range_iff 240 244 a)) by lia.
  rewrite (proj2 (in_range_iff 128 191 c)), (proj2 (in_range_iff 128 191 d)) by lia.
  rewrite (proj2 (in_range_iff _ _ b)); [done|].
  destruct (Nat.eqb_spec (code a) 240), (Nat.eqb_spec (code a) 244); lia.
Qed.

(** An encoded code point that is no surrogate is one valid rune. *)
Lemma runes_rune_bytes r : is_surrogate r = false -> (r < 1114112)%N -> runes (rune_bytes r).
Proof.
  intros Hs Hr. assert (r < 55296 \/ 57344 <= r)%N as Hs'.
  { unfold is_surrogate in Hs. apply andb_false_iff in Hs as [?%N.leb_gt|?%N.ltb_ge]; lia. }
  pose proof (N.div_mod r 64 ltac:(done)) as E1. pose proof (N.mod_lt r 64 ltac:(done)) as L1.
  pose proof (N.div_mod (r / 64) 64 ltac:(done)) as E2. pose proof (N.mod_lt (r / 64) 64 ltac:(done)) as L2.
  pose proof (N.div_mod (r / 4096) 64 ltac:(done)) as E3. pose proof (N.mod_lt (r / 4096) 64 ltac:(done)) as L3.
  assert (r / 4096 = r / 64 / 64)%N as D2 by (by rewrite N.Div0.div_div).
  assert (r / 262144 = r / 4096 / 64)%N as D3 by (by rewrite N.Div0.div_div).
  unfold rune_bytes, s1. rewrite !string_app_cons, !string_app_nil_l. rewrite D3, D2 in *. clear D3 D2.
  set (m3 := ((r / 64 / 64) mod 64)%N) in *. set (q3 := (r / 64 / 64 / 64)%N) in *. clearbody m3 q3.
  set (m2 := ((r / 64) mod 64)%N) in *. set (q2 := (r / 64 / 64)%N) in *. clearbody m2 q2.
  set (m1 := (r mod 64)%N) in *. set (q1 := (r / 64)%N) in *. clearbody m1 q1.
  destruct (N.ltb_spec r 128) as [H1|H1].
  { apply runes_ascii. unfold is_ascii. apply Nat.ltb_lt. rewrite code_byte by lia. lia. }
  destruct (N.ltb_spec r 2048) as [H2|H2]; [apply runes_2; rewrite code_byte; lia|].
  destruct (N.ltb_spec r 65536) as [H3|H3]; [apply runes_3; rewrite ?code_byte; lia|].
  apply runes_4; rewrite ?code_byte; lia.
Qed.

Lemma runes_RuneError : runes RuneError.
Proof. by apply runes_3; vm_compute; lia. Qed.

(** ** Strings *)

Lemma onto_valid p r x rest : runes p -> (forall y rest', r = Some (y, rest') -> utf8_valid y = true) ->
  onto p r = Some (x, rest) -> utf8_valid x = true.
Proof.
  intros Hp Hr. unfold onto. destruct r as [[y r']|]; [|done]. intros [= <- <-]. rewrite Hp. by eapply Hr.
Qed.

Lemma hex4_small a b c d r : hex4 a b c d = Some r -> (r < 65536)%N.
Proof.
  assert (forall h v, hex_val h = Some v -> (v < 16)%N) as Hv.
  { intros h v. unfold hex_val, is_digit. destruct (in_range 48 57 h) eqn:E1; [apply in_range_iff in E1|].
    - intros [= <-]. unfold code, Ascii.nat_of_ascii in E1. lia.
    - destruct (in_range 97 102 h) eqn:E2; [apply in_range_iff in E2|].
      + intros [= <-]. unfold code, Ascii.nat_of_ascii in E2. lia.
      + destruct (in_range 65 70 h) eqn:E3; [apply in_range_iff in E3|done].
        intros [= <-]. unfold code, Ascii.nat_of_ascii in E3. lia. }
  unfold hex4. destruct (hex_val a) eqn:Ea, (hex_val b) eqn:Eb, (hex_val c) eqn:Ec, (hex_val d) eqn:Ed; try done.
  intros [= <-]. apply Hv in Ea, Eb, Ec, Ed. lia.
Qed.

Lemma unesc_ascii b c : unesc_simple b = Some c -> is_ascii c = true.
Proof. destruct b as [[] [] [] [] [] [] [] []]; intros H; try discriminate H; by injection H as <-. Qed.

Lemma unquote_valid_len n s x rest : (String.length s <= n)%nat -> unquote s = Some (x, rest) -> utf8_valid x = true.
Proof.
  revert s x rest. induction n as [|n IH]; intros s x rest Hl; (destruct s as [|a s]; [done|]); cbn in Hl; [lia|].
  assert (forall s', (String.length s' <= n)%nat -> forall y r', unquote s' = Some (y, r') -> utf8_valid y = true) as IH'
    by (intros s' Hs' y r'; by apply IH).
  destruct (is_ascii a) eqn:Ha.
  - cbn [unquote]. destruct (Ascii.eqb a (chr 34)); [by intros [= <- <-]|]. destruct (Ascii.eqb a (chr 92)).
    + destruct s as [|b s2]; [done|]. cbn in Hl. destruct (Ascii.eqb b (chr 117)).
      * destruct s2 as [|h1 [|h2 [|h3 [|h4 s6]]]]; try done. destruct (hex4 h1 h2 h3 h4) as [r|] eqn:Eh; [|done].
        apply hex4_small in Eh. cbn in Hl. destruct (is_surrogate r) eqn:Es.
        -- destruct (low_half s6) as [r1|].
           ++ destruct (N.ltb r 56320 && N.leb 56320 r1 && N.ltb r1 57344) eqn:Ep.
              ** destruct s6 as [|? [|? [|? [|? [|? [|? s12]]]]]]; try done. apply onto_valid.
                 --- rewrite !andb_true_iff, !N.ltb_lt, N.leb_le in Ep. destruct Ep as [[? ?] ?].
                     unfold is_surrogate in Es. rewrite andb_true_iff, N.leb_le, N.ltb_lt in Es.
                     apply runes_rune_bytes; [|lia]. unfold is_surrogate. apply andb_false_iff. right. apply N.ltb_ge. lia.
                 --- apply IH'. cbn in Hl. lia.
              ** apply onto_valid; [apply runes_RuneError|]. apply IH'. lia.
           ++ apply onto_valid; [apply runes_RuneError|]. apply IH'. lia.
        -- apply onto_valid; [apply runes_rune_bytes; [done|lia]|]. apply IH'. lia.
      * destruct (unesc_simple b) as [c|] eqn:Eu; [|done]. apply onto_valid; [by eapply runes_ascii, unesc_ascii|]. apply IH'. lia.
    + destruct (Nat.ltb (code a) 32); [done|]. rewrite Ha. apply onto_valid; [by apply runes_ascii|]. apply IH'. lia.
  - rewrite unquote_high by done. destruct (rune_len (String a s)) as [|[|[|[|[|k]]]]] eqn:El;
      try (apply onto_valid; [apply runes_RuneError|]; apply IH'; lia).
    + destruct s as [|b s2]; [apply onto_valid; [apply runes_RuneError|]; apply IH'; cbn; lia|].
      apply onto_valid; [apply runes_high2; [done|]; by eapply rune_len_2|]. apply IH'. cbn in Hl. lia.
    + destruct s as [|b [|c s3]]; try (apply onto_valid; [apply runes_RuneError|]; apply IH'; cbn in *; lia).
      apply onto_valid; [apply runes_high3; [done|]; by eapply rune_len_3|]. apply IH'. cbn in Hl. lia.
    + destruct s as [|b [|c [|d s4]]]; try (apply onto_valid; [apply runes_RuneError|]; apply IH'; cbn in *; lia).
      apply onto_valid; [apply runes_high4; [done|]; by eapply rune_len_4|]. apply IH'. cbn in Hl. lia.
Qed.

Lemma unquote_valid s x rest : unquote s = Some (x, rest) -> utf8_valid x = true.
Proof. by eapply unquote_valid_len. Qed.

(** ** Values *)

Definition text_ok (j : json) : Prop := match j with JStr s => utf8_valid s = true | _ => True end.
Definition texts_ok (j : json) : Prop :=
  match j with JObj l => Forall (fun kv => text_ok kv.2) l | _ => text_ok j end.

Lemma texts_text j : texts_ok j -> text_ok j.
Proof. by destruct j. Qed.

Lemma value_texts n :
  (forall s j r, value n s = Some (j, r) -> texts_ok j) /\
  (forall s l r, members n s = Some (l, r) -> Forall (fun kv : string * json => text_ok kv.2) l).
Proof.
  induction n as [|n [IHv IHm]]; [done|]. split; intros s j r; cbn [value members].
  - destruct (skip_ws s) as [|c s']; [done|]. destruct (Ascii.eqb c (chr 34)).
    { destruct (unquote s') as [[x r']|] eqn:Eu; [|done]. intros [= <- <-]. by eapply unquote_valid. }
    destruct (Ascii.eqb c (chr 123)).
    { destruct (HasPrefix _ _); [intros [= <- <-]; constructor|]. destruct (members n s') as [[l r']|] eqn:Em; [|done].
      intros [= <- <-]. by eapply IHm. }
    destruct (Ascii.eqb c (chr 91)).
    { destruct (HasPrefix _ _); [by intros [= <- <-]|]. destruct (elems n s') as [[l r']|]; [|done]. by intros [= <- <-]. }
    do 3 (destruct (HasPrefix (String c s') _); [by intros [= <- <-]|]). destruct (scan_number _) as [[l r']|]; [|done]. by intros [= <- <-].
  - destruct (skip_ws s) as [|q s']; [done|]. destruct (negb _); [done|].
    destruct (unquote s') as [[k r']|] eqn:Eu; [|done]. cbn [mbind option_bind]. destruct (skip_ws r') as [|c s2]; [done|].
    destruct (negb _); [done|]. destruct (value n s2) as [[v r2]|] eqn:Ev; [|done]. cbn [mbind option_bind].
    apply IHv in Ev. destruct (skip_ws r2) as [|c2 s3]; [done|]. destruct (Ascii.eqb c2 (chr 44)).
    + destruct (members n s3) as [[l r3]|] eqn:Em; [|done]. intros [= <- <-]. constructor; [by apply texts_text|]. by eapply IHm.
    + destruct (Ascii.eqb c2 (chr 125)); [|done]. intros [= <- <-]. repeat constructor. by apply texts_text.
Qed.

Lemma Decode_texts s j r : Decode s = Some (j, r) -> texts_ok j.
Proof. apply value_texts. Qed.

Lemma Unmarshal_texts s j : Unmarshal s = Some j -> texts_ok j.
Proof.
  unfold Unmarshal. destruct (Decode s) as [[j' r]|] eqn:Ed; [|done]. cbn. case_match; [|done]. intros [= <-].
  by eapply Decode_texts.
Qed.

(** No rune goes on over an ASCII character. *)
Section stop.
Context (c : ascii) (Hc : is_ascii c = true).

Lemma ascii_no_cont lo hi : (128 <= lo)%nat -> cont_byte lo hi c = false.
Proof. intros Hlo. apply in_range_no. unfold is_ascii in Hc. apply Nat.ltb_lt in Hc. lia. Qed.

Lemma low_bound (b : bool) n : (128 <= n)%nat -> (128 <= (if b then n else 128))%nat.
Proof. destruct b; lia. Qed.

Lemma rune_len_stop1 a q : (rune_len (String a (String c q)) <= 1)%nat.
Proof.
  unfold rune_len. destruct (is_ascii a); [done|]. rewrite !ascii_no_cont by (try apply low_bound; lia). cbn [andb].
  repeat case_match; lia.
Qed.

Lemma rune_len_stop2 a b q : (rune_len (String a (String b (String c q))) <= 2)%nat.
Proof.
  unfold rune_len. destruct (is_ascii a); [lia|]. rewrite !ascii_no_cont by (try apply low_bound; lia).
  rewrite !andb_false_r. cbn [andb]. repeat case_match; lia.
Qed.

Lemma rune_len_stop3 a b d q : (rune_len (String a (String b (String d (String c q)))) <= 3)%nat.
Proof.
  unfold rune_len. destruct (is_ascii a); [lia|]. rewrite (ascii_no_cont 128) by lia.
  rewrite !andb_false_r. repeat case_match; lia.
Qed.

(** What comes before an ASCII character in a valid text is valid. *)
Lemma utf8_valid_prefix_len n s q : (String.length s <= n)%nat ->
  utf8_valid (s +:+ String c q) = true -> utf8_valid s = true.
Proof.
  revert s. induction n as [|n IH]; intros s Hl; (destruct s as [|a s]; [done|]); cbn in Hl; [lia|].
  rewrite string_app_cons. cbn [utf8_valid]. destruct (is_ascii a) eqn:Ha; [apply IH; lia|].
  destruct s as [|b s]; [|destruct s as [|d s]; [|destruct s as [|f s]]]; rewrite ?string_app_cons, ?string_app_nil_l.
  - pose proof (rune_len_stop1 a q). by destruct (rune_len _) as [|[|k]]; [done|done|lia].
  - pose proof (rune_len_stop2 a b q). destruct (rune_len (String a (String b (String c q)))) as [|[|[|k]]] eqn:El; try done; [|lia].
    by rewrite (rune_len_2 a b _ Ha El "").
  - pose proof (rune_len_stop3 a b d q).
    destruct (rune_len (String a (String b (String d (String c q))))) as [|[|[|[|k]]]] eqn:El; try done; [| |lia].
    + rewrite (rune_len_2 a b _ Ha El (String d "")). apply (IH (String d "")). cbn in *; lia.
    + by rewrite (rune_len_3 a b d _ Ha El "").
  - destruct (rune_len (String a (String b (String d (String f (s +:+ String c q)))))) as [|[|[|[|[|k]]]]] eqn:El; try done.
    + rewrite (rune_len_2 a b _ Ha El (String d (String f s))). apply (IH (String d (String f s))). cbn in *; lia.
    + rewrite (rune_len_3 a b d _ Ha El (String f s)). apply (IH (String f s)). cbn in *; lia.
    + rewrite (rune_len_4 a b d f _ Ha El s). apply IH. cbn in *; lia.
Qed.

Lemma utf8_valid_prefix s q : utf8_valid (s +:+ String c q) = true -> utf8_valid s = true.
Proof. by eapply utf8_valid_prefix_len. Qed.

End stop.
