(* ===== verification/Drain.v ===== *)
(** Draining and looking at an inbox: internal/cli/inbox_item.go and inbox_collect.go.

    The warnings written to stderr are left out.  The text of an error, [err.Error()], is a
    parameter: it is put into the items, the envelopes and the receipts, and nothing else
    depends on it. *)
From S2P Require Import Prelude GoStr GoSort GoTime GoPath Json JsonStruct TimeParse GoErr Fs Names DeliveryRoot Claim Dlq Validate.
From S2P Require Format Receipt.

Record inboxItem := MkItem {
  ID : string; From : string; To : option (list string); Thread : string; Subject : string; Created : string;
  Body : string; Priority : string; Kind : string; Labels : option (list string);
  Context_ : option (list (string * json)); FromProject : string; ReplyProject : string;
  MovedToCur : bool; MovedToDLQ : bool; ParseError : string; FailureReason : string; Filename : string; SortKey : Z }.

#[global] Instance inboxItem_Timestamped : Format.Timestamped inboxItem :=
  {| Format.GetCreated := Created; Format.GetID := ID; Format.GetRawTime := SortKey |}.

(** ** Items *)

(** The item of a file before it is read. *)
Definition blank_item (filename : string) : inboxItem :=
  MkItem (TrimSuffix filename ".md") "" None "" "" "" "" "" "" None None "" "" false false "" "" filename zero_time.

Definition set_failure (text reason : string) (i : inboxItem) : inboxItem :=
  MkItem (ID i) (From i) (To i) (Thread i) (Subject i) (Created i) (Body i) (Priority i) (Kind i) (Labels i)
    (Context_ i) (FromProject i) (ReplyProject i) (MovedToCur i) (MovedToDLQ i) text reason (Filename i) (SortKey i).
Definition set_moved (cur dlq : bool) (i : inboxItem) : inboxItem :=
  MkItem (ID i) (From i) (To i) (Thread i) (Subject i) (Created i) (Body i) (Priority i) (Kind i) (Labels i)
    (Context_ i) (FromProject i) (ReplyProject i) cur dlq (ParseError i) (FailureReason i) (Filename i) (SortKey i).

(** A header that the validator refuses: the sender and the thread are kept, and the identifier if it is safe. *)
Definition refused_item (text : string) (h : Format.Header) (i : inboxItem) : inboxItem :=
  MkItem (default (ID i) (safeHeaderID (Format.ID h))) (Format.From h) (To i) (Format.Thread h) (Subject i) (Created i)
    (Body i) (Priority i) (Kind i) (Labels i) (Context_ i) (FromProject i) (ReplyProject i) (MovedToCur i) (MovedToDLQ i)
    text "invalid_header" (Filename i) (SortKey i).

Definition accepted_item (includeBody : bool) (h : Format.Header) (body : string) (i : inboxItem) : inboxItem :=
  MkItem (Format.ID h) (Format.From h) (Format.To h) (Format.Thread h) (Format.Subject h) (Format.Created h)
    (if includeBody then body else Body i) (Format.Priority h) (Format.Kind h) (Format.Labels h) (Format.Context_ h)
    (Format.FromProject h) (Format.ReplyProject h) (MovedToCur i) (MovedToDLQ i) (ParseError i) (FailureReason i) (Filename i)
    (match Parse_RFC3339Nano (Format.Created h) with Some ts => ts | None => SortKey i end).

Section drain.
Context (Error : gerr -> string).

Definition failedClaimedInboxItem (filename reason : string) (err : gerr) : inboxItem :=
  set_failure (Error err) reason (blank_item filename).

(** ** Reading one item *)

(** The header and the body of the message in a file, an error of parsing, or an error of the file. *)
Inductive reading := Parsed (h : Format.Header) (body : string) | Unparsed (e : gerr) | Failed (e : gerr).

Definition read_message (root : DeliveryRoot) (p : path) : prog reading :=
  let_val info := Stat root p orelse e => Ret (Failed e) in
  match info with
  | None => Ret (Failed (EMsg ""))
  | Some info =>
    if Z.ltb Format.MaxMessageSize (Z.of_nat (i_size info)) then Ret (Unparsed (Errorf "" (ESent ErrMessageTooLarge))) else
    let_val data := ReadRegularNoFollow root p orelse e => Ret (Failed e) in
    if Z.ltb Format.MaxMessageSize (Z.of_nat (String.length data)) then Ret (Unparsed (Errorf "" (ESent ErrMessageTooLarge))) else
    match Format.ParseMessage data with
    | inr e => Ret (Unparsed e)
    | inl m => Ret (Parsed (Format.Header_ m) (Format.Body m))
    end
  end.

Definition read_header (root : DeliveryRoot) (p : path) : prog reading :=
  x ← OpenRegularNoFollow root p;
  match x with
  | (Some (file, _), None) =>
    d ← sys (SReadAll file);
    let header := match d with Er x => inr (EErrno x) | Ok s => Format.ReadHeader s end in
    c ← sys (SClose file);
    match header, c with
    | inr e, _ => Ret (Unparsed e)
    | inl h, Er x => Ret (Failed (EErrno x))
    | inl h, Ok _ => Ret (Parsed h "")
    end
  | (_, Some e) => Ret (Failed e)
  | (None, None) => Ret (Failed (EMsg ""))
  end.

(** What becomes of the item of a file once the file is read. *)
Definition item_of (includeBody : bool) (validator : headerValidator) (x : reading) (item : inboxItem)
  : inboxItem * option gerr :=
  match x with
  | Failed e => (item, Some e)
  | Unparsed e => (set_failure (Error e) "parse_error" item, None)
  | Parsed h body =>
    match validate validator h with
    | Some e => (refused_item ("invalid header: " +:+ Error e) h item, None)
    | None => (accepted_item includeBody h body item, None)
    end
  end.

Definition readInboxItem (root : DeliveryRoot) (p : path) (filename : string) (includeBody : bool)
    (validator : headerValidator) : prog (inboxItem * option gerr) :=
  x ← if includeBody then read_message root p else read_header root p;
  Ret (item_of includeBody validator x (blank_item filename)).

(** ** Listing *)

Definition listed (x : string * kind) : bool :=
  negb (bool_decide (x.2 = KDir)) && negb (HasPrefix x.1 "." || negb (HasSuffix x.1 ".md")).

Definition collectInboxFilenames (root : DeliveryRoot) (me : string) : prog (list string * option gerr) :=
  let_val entries := ReadDir root (Join ["agents"; me; "inbox"; "new"]) orelse e => Ret ([], Some e) in
  Ret (sort_strings (fst <$> List.filter listed entries), None).

Context `{SortSlice}.

Definition finishInboxBatch (items : list inboxItem) (err : option gerr) : list inboxItem * option gerr :=
  (Format.SortByTimestamp items, err).

(** ** Looking *)

Fixpoint collect_each (root : DeliveryRoot) (me : string) (includeBody : bool) (validator : headerValidator)
    (revalidateContext : option (prog (option gerr))) (filenames : list string) (items : list inboxItem)
  : prog (list inboxItem + gerr) :=
  match filenames with
  | [] => Ret (inl items)
  | filename :: rest =>
    if_err e := match revalidateContext with Some f => f | None => Ret None end then Ret (inr e) else
    x ← readInboxItem root (Join ["agents"; me; "inbox"; "new"; filename]) filename includeBody validator;
    match x with
    | (_, Some err) =>
      if os_IsNotExist err then collect_each root me includeBody validator revalidateContext rest items
      else Ret (inr err)
    | (item, None) => collect_each root me includeBody validator revalidateContext rest (items ++ [item])
    end
  end.

Definition collectInboxItemsPinned (root : DeliveryRoot) (me : string) (includeBody : bool) (limit : Z)
    (validator : headerValidator) (revalidateContext : option (prog (option gerr))) : prog (list inboxItem * option gerr) :=
  let_val filenames := collectInboxFilenames root me orelse e => Ret ([], Some e) in
  x ← collect_each root me includeBody validator revalidateContext filenames [];
  match x with
  | inr e => Ret ([], Some e)
  | inl items =>
    let items := Format.SortByTimestamp items in
    Ret (if Z.ltb 0 limit && Z.ltb limit (Z.of_nat (length items)) then take (Z.to_nat limit) items else items, None)
  end.

Definition collectInboxItems (root : DeliveryRoot) (me : string) (includeBody : bool) (limit : Z)
    (validator : headerValidator) (revalidateContext : option (prog (option gerr))) : prog (list inboxItem * option gerr) :=
  WithPinnedBatch root [] (fun batch => collectInboxItemsPinned batch me includeBody limit validator revalidateContext).

(** ** Receipts *)

Definition receiptSenderUnavailableDetail : string :=
  "sender unavailable because message metadata could not be parsed".

Definition receipt_detail (item : inboxItem) (stage detail : string) : string :=
  if bool_decide (TrimSpace (From item) = "") && bool_decide (stage = Receipt.StageDLQ) then
    if bool_decide (TrimSpace detail = "") then receiptSenderUnavailableDetail
    else detail +:+ "; " +:+ receiptSenderUnavailableDetail
  else detail.

Definition receipt_sender (item : inboxItem) : string :=
  if negb (bool_decide (TrimSpace (From item) = "")) then
    match normalizeHandle (From item) with inl sender => sender | inr _ => "" end
  else "".

Definition emitReceipt (root : DeliveryRoot) (consumer : string) (item : inboxItem) (stage detail : string) : prog unit :=
  r ← Receipt.New (ID item) (Thread item) (receipt_sender item) consumer stage (receipt_detail item stage detail);
  _ ← Receipt.EmitDeliveryRoot root r;
  Ret ().

(** ** Draining *)

Fixpoint dirs_exist (root : DeliveryRoot) (dirs : list path) : prog (bool * option gerr) :=
  match dirs with
  | [] => Ret (true, None)
  | dir :: rest =>
    x ← Stat root dir;
    match x with
    | (_, Some err) => if os_IsNotExist err then Ret (false, None) else Ret (false, Some err)
    | (Some info, None) => if negb (bool_decide (i_kind info = KDir)) then Ret (false, None) else dirs_exist root rest
    | (None, None) => Ret (false, None)
    end
  end.

Definition claimMailboxDirsExist (root : DeliveryRoot) (me : string) : prog (bool * option gerr) :=
  dirs_exist root [Join ["agents"; me; "inbox"; "new"]; Join ["agents"; me; "inbox"; "cur"]].

(** One round of the loop: the items after it, and the result to return if the loop ends with it. *)
Abbreviation round := (list inboxItem * option (option gerr))%type.

(** The message that could not be parsed goes to the dead-letter queue. *)
Definition drain_unreadable (root : DeliveryRoot) (me : string) (claimErr : option gerr) (claimCommitted : bool)
    (item : inboxItem) (items : list inboxItem) : prog round :=
  let reason := if bool_decide (FailureReason item = "") then "parse_error" else FailureReason item in
  x ← if claimCommitted then MoveClaimedCurToDLQ root me (Filename item) (ID item) reason (ParseError item) claimErr
      else MoveCurToDLQ root me (Filename item) (ID item) reason (ParseError item);
  match x with
  | (_, None) =>
    let item := set_moved (MovedToCur item) true item in
    _ ← emitReceipt root me item Receipt.StageDLQ (ParseError item);
    Ret (items ++ [item], None)
  | (dlqPath, Some dlqErr) =>
    match errors_As_transition dlqErr with
    | Some _ => Ret (items ++ [item], Some (Some dlqErr))
    | None =>
      if negb (bool_decide (dlqPath = [])) && is_committed dlqErr then
        let item := set_moved (MovedToCur item) true item in
        _ ← emitReceipt root me item Receipt.StageDLQ (ParseError item);
        Ret (items ++ [item], Some (Some dlqErr))
      else Ret (items ++ [item], Some (Some dlqErr))
    end
  end.

(** The message is claimed. *)
Definition drain_claimed (root : DeliveryRoot) (me : string) (includeBody : bool) (validator : headerValidator)
    (claimErr : option gerr) (claimCommitted : bool) (filename : string) (items : list inboxItem) : prog round :=
  x ← readInboxItem root (Join ["agents"; me; "inbox"; "cur"; filename]) filename includeBody validator;
  let item := match x with
              | (item, Some err) => set_failure (Error err) "parse_error" item
              | (item, None) => item
              end in
  if negb (bool_decide (ParseError item = "")) then drain_unreadable root me claimErr claimCommitted item items else
  let item := set_moved true (MovedToDLQ item) item in
  _ ← emitReceipt root me item Receipt.StageDrained "";
  Ret (items ++ [item], if claimCommitted then Some claimErr else None).

Definition drain_one (root : DeliveryRoot) (me : string) (includeBody : bool) (validator : headerValidator)
    (afterClaim : option (string -> prog (option gerr))) (filename : string) (items : list inboxItem) : prog round :=
  claimErr ← MoveNewToCur root me filename;
  let claimCommitted := match claimErr with Some e => is_committed e | None => false end in
  match claimErr, claimCommitted with
  | Some err, false =>
    if os_IsNotExist err then
      x ← claimMailboxDirsExist root me;
      match x with
      | (_, Some checkErr) => Ret (items, Some (Some checkErr))
      | (true, None) => Ret (items, None)
      | (false, None) => Ret (items, Some (Some (EMsg "mailbox disappeared while claiming")))
      end
    else Ret (items, Some (Some err))
  | _, _ =>
    hookErr ← match afterClaim with Some f => f filename | None => Ret None end;
    match hookErr with
    | Some err =>
      let items := items ++ [failedClaimedInboxItem filename "processing_error" err] in
      Ret (items, Some (if claimCommitted then errors_Join [claimErr; Some err] else Some err))
    | None => drain_claimed root me includeBody validator claimErr claimCommitted filename items
    end
  end.

Fixpoint drain_each (root : DeliveryRoot) (me : string) (includeBody : bool) (limit : Z) (validator : headerValidator)
    (afterClaim : option (string -> prog (option gerr))) (filenames : list string) (items : list inboxItem)
  : prog (list inboxItem * option gerr) :=
  match filenames with
  | [] => Ret (finishInboxBatch items None)
  | filename :: rest =>
    if Z.ltb 0 limit && Z.leb limit (Z.of_nat (length items)) then Ret (finishInboxBatch items None) else
    x ← drain_one root me includeBody validator afterClaim filename items;
    match x with
    | (items, Some err) => Ret (finishInboxBatch items err)
    | (items, None) => drain_each root me includeBody limit validator afterClaim rest items
    end
  end.

Definition drainInboxItemsPinned (root : DeliveryRoot) (me : string) (includeBody : bool) (limit : Z)
    (validator : headerValidator) (afterClaim : option (string -> prog (option gerr))) : prog (list inboxItem * option gerr) :=
  let_val filenames := collectInboxFilenames root me orelse e => Ret ([], Some e) in
  drain_each root me includeBody limit validator afterClaim filenames [].

Definition drainInboxItemsWithClaimHook (root : DeliveryRoot) (me : string) (includeBody : bool) (limit : Z)
    (validator : headerValidator) (afterClaim : option (string -> prog (option gerr))) : prog (list inboxItem * option gerr) :=
  WithPinnedBatch root [] (fun batch => drainInboxItemsPinned batch me includeBody limit validator afterClaim).

Definition drainInboxItems (root : DeliveryRoot) (me : string) (includeBody : bool) (limit : Z)
    (validator : headerValidator) : prog (list inboxItem * option gerr) :=
  drainInboxItemsWithClaimHook root me includeBody limit validator None.

End drain.
