(* ===== verification/DrainLoop.v ===== *)
(** Lemmas about draining an inbox: what is read, what one round of the loop does, and what
    the loop keeps; internal/cli/inbox_collect.go. *)
From S2P Require Import Prelude GoStr GoSort GoTime GoPath Json JsonFacts JsonStruct TimeParse GoErr Fs Wp FsFacts Names DeliveryRoot DeliveryRootFacts Maildir Delivery Claim AtomicFacts Dlq DeadLetter Retry Validate ValidateFacts JsonUtf8 Drain.
From S2P Require Format Receipt ReceiptFacts.

(** ** Texts *)

Lemma get_text names l n a s :
  Forall (fun kv => text_ok kv.2) l -> utf8_valid a = true -> get names l n a = Some s -> utf8_valid s = true.
Proof.
  intros Hl. revert a. induction Hl as [|[k v] l Hv Hl IH]; intros a Ha; cbn; [by intros [= <-]|].
  case_bool_decide; [|by apply IH]. destruct v; cbn; try done; by apply IH.
Qed.

(** The identifier in a header that was read is valid UTF-8. *)
Lemma header_id_text j h : texts_ok j -> Format.header_of_json j = Some h -> utf8_valid (Format.ID h) = true.
Proof.
  intros Hj. unfold Format.header_of_json. destruct j as [| | | | |l]; try done; [by intros [= <-]|]. cbn in Hj.
  destruct (get Format.header_fields l "schema" 0%Z); [|done]. cbn [mbind option_bind].
  destruct (get Format.header_fields l "id" "") eqn:E; [|done]. apply get_text in E; [|done|done]. cbn [mbind option_bind].
  repeat match goal with |- context [get ?x l ?n ?a] => destruct (get x l n a); [|done]; cbn [mbind option_bind] end.
  by intros [= <-].
Qed.

Lemma ParseMessage_text d m : Format.ParseMessage d = inl m -> utf8_valid (Format.ID (Format.Header_ m)) = true.
Proof.
  unfold Format.ParseMessage, Format.unmarshal_header. destruct (Format.splitFrontmatter d) as [[hb body]|]; [|done].
  destruct (Unmarshal hb) as [j|] eqn:Ej; [|done]. cbn [mbind option_bind].
  destruct (Format.header_of_json j) as [h|] eqn:Eh; [|done]. intros [= <-]. cbn.
  eapply header_id_text; [|exact Eh]. by eapply Unmarshal_texts.
Qed.

Lemma ReadHeader_text d h : Format.ReadHeader d = inl h -> utf8_valid (Format.ID h) = true.
Proof.
  unfold Format.ReadHeader. set (s := Format.limit _ d). clearbody s. intros H.
  destruct (match Format.read_line s with Some (l, r) => (l, Some r) | None => (s, None) end) as [line rest] eqn:El.
  destruct (negb _); [done|]. destruct rest as [rest|]; [|done].
  destruct (Decode rest) as [[j rest']|] eqn:Ej; [|done]. destruct (Format.header_of_json j) as [h'|] eqn:Eh; [|done].
  destruct (Format.consumeFrontmatterEnd rest'); [done|]. injection H as <-.
  eapply header_id_text; [|exact Eh]. by eapply Decode_texts.
Qed.

(** What the text of a file is read as. *)
Definition text_reads (includeBody : bool) (d : string) (h : Format.Header) (body : string) : Prop :=
  if includeBody then Format.ParseMessage d = inl (Format.MkMessage h body)
  else Format.ReadHeader d = inl h /\ body = "".

Lemma text_reads_id b d h body : text_reads b d h body -> utf8_valid (Format.ID h) = true.
Proof.
  unfold text_reads. destruct b; [by intros ?%ParseMessage_text|]. intros [? _]. by eapply ReadHeader_text.
Qed.

(** ** Reading *)

Lemma ro_reading r p : ro (read_message r p) /\ ro (read_header r p).
Proof.
  split; unfold read_message, read_header, Stat; ro_tac; repeat case_match; ro_tac; repeat case_match; ro_tac.
Qed.

Section read.
Context (e : env) (r : DeliveryRoot) (Hat : dr_at r = []).

Lemma wpi_read_message I p w : I (tr w) ->
  wpi e I (read_message r p) (fun x w' => tr w' = tr w /\ ctl_eq w w' /\
    forall h body, x = Parsed h body -> exists d, content (tr w) p = Some d /\ text_reads true d h body) w.
Proof.
  intros HI. unfold read_message. wbind.
  eapply wpi_mono; [by apply wpi_Stat|]. intros [[i|] [x|]] w1 (Ht1 & Hc1 & _); try (by wret).
  destruct (Z.ltb _ _); [by wret|]. wbind.
  eapply wpi_mono; [apply wpi_ReadRegularNoFollow; [done|by rewrite Ht1]|]. rewrite Ht1.
  intros [d [x|]] w2 (Ht2 & Hc2 & Hd); (assert (ctl_eq w w2) as Hcw2 by (by eapply ctl_eq_trans)); [by wret|].
  destruct (Z.ltb _ _); [by wret|]. destruct (Format.ParseMessage d) as [m|] eqn:Em; [|by wret]. wret.
  split; [done|]. split; [done|]. intros h body [= <- <-]. exists d. split; [by apply Hd|]. cbn. by destruct m.
Qed.

Lemma wpi_read_header I p w : I (tr w) ->
  wpi e I (read_header r p) (fun x w' => tr w' = tr w /\ ctl_eq w w' /\
    forall h body, x = Parsed h body -> exists d, content (tr w) p = Some d /\ text_reads false d h body) w.
Proof.
  intros HI. unfold read_header. wbind.
  eapply wpi_mono; [by apply wpi_OpenRegularNoFollow|].
  intros [[[h i]|] [x|]] w1 (Ht1 & Hc1 & Hx); try done; try (by wret). destruct Hx as [Hx _].
  wbind. apply wpi_sys; [cbn; unfold obs; case_match; cbn; by rewrite Ht1|]. wret. wexec.
  assert (forall (header : Format.Header + gerr) w2, tr w2 = tr w -> ctl_eq w w2 ->
    (forall hd, header = inl hd -> exists d, content (tr w) p = Some d /\ Format.ReadHeader d = inl hd) ->
    wpi e I (c ← sys (SClose h);
      match header, c with
      | inr e, _ => Ret (Unparsed e)
      | inl h, Er x => Ret (Failed (EErrno x))
      | inl h, Ok _ => Ret (Parsed h "")
      end) (fun x w' => tr w' = tr w /\ ctl_eq w w' /\
      forall h body, x = Parsed h body -> exists d, content (tr w) p = Some d /\ text_reads false d h body) w2) as Hend.
  { intros header w2 Ht2 Hc2 Hh. apply wpi_ro_bind; [ro_tac|by rewrite Ht2|]. intros c w3 Ht3 Hc3.
    rewrite Ht2 in Ht3. assert (ctl_eq w w3) as Hcw3 by (by eapply ctl_eq_trans).
    destruct header as [hd|]; [|by wret]. destruct c; [|by wret]. wret. split; [done|]. split; [done|].
    intros h' body [= <- <-]. destruct (Hh hd eq_refl) as (d & Hd & Hr). by exists d. }
  destruct (e_fault e (tick w1)) as [ft|]; [by apply (Hend (inr (EErrno (IOErr (f_err ft)))))|].
  destruct (data (tr w1) !! h_ino h) as [d|] eqn:Ed; [|by apply (Hend (inr (EErrno EISDIR)))].
  apply (Hend (Format.ReadHeader d)); try done.
  intros hd Hhd. exists d. split; [|done]. unfold content. rewrite Hx. by rewrite <-Ht1.
Qed.

End read.

(** ** Items *)

Lemma TrimSuffix_md f : HasSuffix f ".md" = true -> f = TrimSuffix f ".md" +:+ ".md".
Proof.
  intros H. unfold TrimSuffix. rewrite H. apply HasSuffix_spec in H as [s ->].
  replace (String.length (s +:+ ".md") - String.length ".md")%nat with (String.length s) by (rewrite length_string_app; lia).
  by rewrite str_take_app.
Qed.

(** An identifier that can name a receipt and be put into an envelope. *)
Definition usable_id (id : string) : Prop :=
  id <> "" /\ HasPrefix id "." = false /\ str_mem slash id = false /\ utf8_valid id = true.

Lemma filename_id f : ValidateMessageFilename f = None -> utf8_valid f = true -> usable_id (TrimSuffix f ".md").
Proof.
  intros (Hdot & Hsl & Hmd)%ValidateMessageFilename_None Hu. pose proof (TrimSuffix_md f Hmd) as E.
  set (s := TrimSuffix f ".md") in *. clearbody s. subst f. split_and!.
  - by intros ->.
  - destruct s as [|c s]; [done|]. exact Hdot.
  - rewrite str_mem_app in Hsl. by apply orb_false_iff in Hsl as [? _].
  - by apply (utf8_valid_prefix (chr 46) eq_refl s "md").
Qed.

(** An item as the loop handles it: it is of the file, not yet moved, and its texts can be
    written. *)
Record item_fit (f : string) (i : inboxItem) : Prop := {
  fit_file : Filename i = f;
  fit_id : usable_id (ID i);
  fit_error : utf8_valid (ParseError i) = true;
  fit_reason : utf8_valid (FailureReason i) = true;
  fit_cur : MovedToCur i = false;
  fit_dlq : MovedToDLQ i = false;
}.

Section items.
Context (Error : gerr -> string) (Herr : forall x, Error x <> "" /\ utf8_valid (Error x) = true).

Lemma ascii_prefix_text s t : str_forallb is_ascii s = true -> utf8_valid t = true -> utf8_valid (s +:+ t) = true.
Proof.
  induction s as [|c s IH]; [done|]. cbn [str_forallb]. intros [Hc Hs]%andb_true_iff Ht. rewrite string_app_cons.
  cbn [utf8_valid]. rewrite Hc. by apply IH.
Qed.

Lemma blank_fit f : ValidateMessageFilename f = None -> utf8_valid f = true -> item_fit f (blank_item f).
Proof. intros Hf Hu. by split; [|apply filename_id|..]. Qed.

Lemma set_failure_fit f i text reason :
  item_fit f i -> utf8_valid text = true -> utf8_valid reason = true -> item_fit f (set_failure text reason i).
Proof. intros [] ? ?. by split. Qed.

(** What the loop makes of a file it has claimed. *)
Definition claimed_item (includeBody : bool) (v : headerValidator) (f : string) (x : reading) : inboxItem :=
  match item_of Error includeBody v x (blank_item f) with
  | (item, Some err) => set_failure (Error err) "parse_error" item
  | (item, None) => item
  end.

Lemma claimed_item_fit b v f x : ValidateMessageFilename f = None -> utf8_valid f = true ->
  (forall h body, x = Parsed h body -> utf8_valid (Format.ID h) = true) -> item_fit f (claimed_item b v f x).
Proof.
  intros Hf Hu Hid. pose proof (blank_fit f Hf Hu) as Hb. unfold claimed_item, item_of. destruct x as [h body|x|x].
  - specialize (Hid h body eq_refl). pose proof (header_accepted_iff v h) as [[Hok _] _]. destruct (validate v h) as [x|].
    + destruct Hb. split; try done; cbn.
      * unfold safeHeaderID. destruct (ensureSafeBaseName (Format.ID h)) as [n|] eqn:En; [|done]. cbn.
        destruct (safe_name_plain (Format.ID h)) as (? & ? & ?); [|done]. apply ensureSafeBaseName_safe. by exists n.
      * apply ascii_prefix_text; [done|apply Herr].
    + specialize (Hok eq_refl). destruct Hb. split; try done; cbn.
      destruct (safe_name_plain (Format.ID h)) as (? & ? & ?); [apply Hok|done].
  - apply set_failure_fit; [done|apply Herr|done].
  - apply set_failure_fit; [done|apply Herr|done].
Qed.

(** It has no error exactly when the message was read and its header accepted. *)
Lemma claimed_item_ok b v f x : ParseError (claimed_item b v f x) = "" ->
  exists h body, x = Parsed h body /\ validate v h = None /\ claimed_item b v f x = accepted_item b h body (blank_item f).
Proof.
  unfold claimed_item, item_of. destruct x as [h body|x|x]; cbn; [|by intros ?%Herr|by intros ?%Herr].
  destruct (validate v h) as [x|] eqn:Ev; cbn; [done|]. intros _. by exists h, body.
Qed.

End items.

(** One round of draining, and the loop: drainInboxItemsPinned of
    internal/cli/inbox_collect.go. *)

Definition receipt_at (me n : string) : path := ["agents"; me; "receipts"; n].

(** ** What may change *)

Definition receipt_area (me : string) (p : path) : Prop :=
  (hidden p /\ Dir p = ["agents"; me; "receipts"]) \/ exists n, p = receipt_at me n.

(** What a round for the file [f] may touch. *)
Definition round_area (me f : string) (p : path) : Prop :=
  hidden p \/ p = box_path me "new" f \/ p = box_path me "cur" f \/ (exists g, p = dlq_path me "new" g) \/
  exists n, p = receipt_at me n.

Record round_evo (me f : string) (t t' : tree) : Prop := {
  re_evo : evo (round_area me f) t t';
  re_dlq : forall g x, HasPrefix g "." = false -> content t (dlq_path me "new" g) = Some x ->
             content t' (dlq_path me "new" g) = Some x;
}.

#[global] Instance round_evo_preorder me f : PreOrder (round_evo me f).
Proof.
  split; [intros t; by split|]. intros t1 t2 t3 [H1 H2] [H3 H4]. split; [by etrans|]. intros g x Hv Hg. by apply H4, H2.
Qed.

Lemma round_spared me f t t' : spared me f t t' -> round_evo me f t t'.
Proof.
  intros [Hev Hd]. split; [|done]. eapply evo_mono; [|exact Hev]. unfold moving, round_area. naive_solver.
Qed.

Lemma round_off_dlq me f (X : path -> Prop) t t' :
  (forall p, X p -> round_area me f p) -> (forall g, HasPrefix g "." = false -> ~ X (dlq_path me "new" g)) ->
  evo X t t' -> round_evo me f t t'.
Proof.
  intros HX Hd Hev. split; [by eapply evo_mono|]. intros g x Hv Hg. eapply evo_content; [exact Hev|by apply Hd|done].
Qed.

Lemma round_receipt me f t t' : evo (receipt_area me) t t' -> round_evo me f t t'.
Proof.
  apply round_off_dlq; [unfold receipt_area, round_area; naive_solver|]. intros g Hv [[Hh _]|[n E]]; [by eapply dlq_path_visible|].
  unfold dlq_path, receipt_at in E. congruence.
Qed.

Lemma round_unclaimed me f t t' : unclaimed t t' -> round_evo me f t t'.
Proof. intros Hu. apply (round_off_dlq me f (fun _ => False)); [done|by intros g _ []|exact Hu]. Qed.

Lemma round_claimed me f t t' n : dents t !! box_path me "new" f = Some n -> (forall i m, n <> NDir i m) ->
  claimed me f t t' -> round_evo me f t t'.
Proof.
  intros Hn Hnd (_ & _ & _ & _ & _ & _ & H). destruct (H n Hn Hnd) as [Hev _]. revert Hev.
  apply round_off_dlq; [unfold round_area; naive_solver|]. intros g _ [E|E]; unfold box_path, dlq_path in E; congruence.
Qed.

(** A place that a round for another file leaves alone. *)
Lemma round_other_box me f f' b t t' d :
  f <> f' -> HasPrefix f' "." = false -> round_evo me f t t' ->
  content t (box_path me b f') = Some d -> content t' (box_path me b f') = Some d.
Proof.
  intros Hne Hv [Hev _]. eapply evo_content; [exact Hev|]. unfold round_area.
  intros [Hh|[E|[E|[[g E]|[n E]]]]]; [by eapply box_path_visible|..]; unfold box_path, dlq_path, receipt_at in E; congruence.
Qed.

Lemma round_other_dents me f f' b t t' :
  f <> f' -> HasPrefix f' "." = false -> round_evo me f t t' ->
  dents t' !! box_path me b f' = dents t !! box_path me b f'.
Proof.
  intros Hne Hv [Hev _]. apply (evo_deep _ _ _ _ Hev); [|apply box_path_depth]. unfold round_area.
  intros [Hh|[E|[E|[[g E]|[n E]]]]]; [by eapply box_path_visible|..]; unfold box_path, dlq_path, receipt_at in E; congruence.
Qed.

Lemma enveloped_round me f f' g t t' d :
  round_evo me f t t' -> enveloped_at me f' d g t -> enveloped_at me f' d g t'.
Proof. intros [_ Hd] [Hv (x & Hx & Hw)]. split; [done|]. exists x. split; [|done]. by apply Hd. Qed.

(** Receipts are none of the places of messages. *)
Lemma receipt_box me f b t t' : HasPrefix f "." = false -> evo (receipt_area me) t t' ->
  dents t' !! box_path me b f = dents t !! box_path me b f /\
  forall d, content t (box_path me b f) = Some d -> content t' (box_path me b f) = Some d.
Proof.
  intros Hv Hev. assert (~ receipt_area me (box_path me b f)) as Hno.
  { intros [[Hh _]|[n E]]; [by eapply box_path_visible|]. unfold box_path, receipt_at in E. congruence. }
  split; [|intros d; by eapply evo_content]. apply (evo_deep _ _ _ _ Hev); [done|apply box_path_depth].
Qed.

Lemma kept_receipt me f d t t' : HasPrefix f "." = false -> evo (receipt_area me) t t' -> kept me f d t -> kept me f d t'.
Proof.
  intros Hv Hev [H|[H|[g H]]].
  - left. by eapply receipt_box.
  - right. left. by eapply receipt_box.
  - right. right. exists g. eapply enveloped_round; [|exact H]. by apply (round_receipt _ f).
Qed.

(** What holds at every point of a round that began in [t]. *)
Record round_inv (me f : string) (t t' : tree) : Prop := {
  ri_evo : round_evo me f t t';
  ri_cur : dents t !! box_path me "cur" f <> None -> dents t' !! box_path me "cur" f = dents t !! box_path me "cur" f;
  ri_kept : forall d, content t (box_path me "new" f) = Some d -> kept me f d t';
}.

Lemma round_inv_unclaimed me f t t' : unclaimed t t' -> round_inv me f t t'.
Proof.
  intros Hu. split; [by apply round_unclaimed|by intros _; apply unclaimed_box|].
  intros d Hd. left. by eapply unclaimed_content.
Qed.

(** ** Moves and receipts *)

(** Where the item of the message [d] in the file [f] says the message is. *)
Definition reported (me : string) (b : bool) (v : headerValidator) (f d : string) (i : inboxItem) (t : tree) : Prop :=
  (MovedToCur i = true /\ content t (box_path me "cur" f) = Some d /\
   exists h body, text_reads b d h body /\ validate v h = None /\
     i = set_moved true false (accepted_item b h body (blank_item f))) \/
  (MovedToCur i = false /\ ParseError i <> "" /\
   if MovedToDLQ i then dents t !! box_path me "cur" f = None /\ exists g, enveloped_at me f d g t
   else content t (box_path me "cur" f) = Some d).

(** A later change that leaves the places of the message alone does not make the report wrong. *)
Lemma reported_stable me b v f d i t t' :
  (forall d, content t (box_path me "cur" f) = Some d -> content t' (box_path me "cur" f) = Some d) ->
  dents t' !! box_path me "cur" f = dents t !! box_path me "cur" f ->
  (forall g, enveloped_at me f d g t -> enveloped_at me f d g t') ->
  reported me b v f d i t -> reported me b v f d i t'.
Proof.
  intros Hc Hd He [(H1 & H2 & H3)|(H1 & H2 & H3)]; [left; split; [done|]; split; [by apply Hc|done]|].
  right. split; [done|]. split; [done|]. destruct (MovedToDLQ i); [|by apply Hc].
  destruct H3 as (H3 & g & H4). split; [by rewrite Hd|]. exists g. by apply He.
Qed.

Section round.
Context (e : env) (r : DeliveryRoot) (Hat : dr_at r = []) (me : string) (Hme : ValidateHandle me = None).
Context (Error : gerr -> string) (Herr : forall x, Error x <> "" /\ utf8_valid (Error x) = true).

Lemma wpi_emitReceipt I item stage detail w :
  usable_id (ID item) -> str_mem slash stage = false -> (forall t, evo (receipt_area me) (tr w) t -> I t) ->
  wpi e I (emitReceipt r me item stage detail) (fun _ w' => evo (receipt_area me) (tr w) (tr w') /\ ctl_eq w w') w.
Proof.
  intros (Hne & Hdot & Hsl & _) Hst HI. pose proof (handle_plain me Hme) as Hpm. unfold emitReceipt, Receipt.New. wbind.
  apply wpi_ro_bind; [ro_tac|by apply HI|]. intros now w1 Ht1 Hc1. wret. rewrite <-Ht1 in HI |- *. wbind.
  set (rc := Receipt.MkReceipt _ _ _ _ _ _ _ _).
  destruct (receipt_name_plain (ID item) me stage Hne Hdot Hsl Hpm Hst) as [Hp Hv].
  assert (forall t, replaced (ReceiptFacts.receipt_path rc) (Receipt.Receipt_Marshal rc) (tr w1) t ->
    evo (receipt_area me) (tr w1) t) as Hev.
  { intros t [Ht _]. eapply evo_mono; [|exact Ht]. unfold receipt_area. intros p [?| ->]; [by left|right; by eexists]. }
  eapply wpi_mono; [apply (ReceiptFacts.wpi_Emit e r I rc w1); try done; by auto|].
  intros o w2 (Hr & _ & Hc2). wret. split; [by apply Hev|by eapply ctl_eq_trans].
Qed.

(** Moving a claimed file that is no message: nothing happens. *)
Lemma wpi_moveInbox_none I src f oid reason detail w :
  ValidateMessageFilename f = None -> content (tr w) (box_path me "cur" f) = None -> I (tr w) ->
  wpi e I (moveInboxMessageToDLQ r me "cur" src f oid reason detail) (fun x w' =>
    tr w' = tr w /\ x.1 = [] /\ x.2 <> None) w.
Proof.
  intros Hf Hc HI. unfold moveInboxMessageToDLQ. rewrite Hf. cbn [inboxSourceDir].
  change (inboxSourceDir me "cur") with (@inl path gerr (inbox_dir me "cur")). cbv beta iota.
  pose proof (handle_plain me Hme) as Hpm. rewrite inbox_file_plain by (done || by apply filename_plain). wbind.
  eapply wpi_mono; [by apply wpi_ReadRegularNoFollow|]. intros [s [x|]] w1 (Ht1 & _ & Hs); [by wret|].
  destruct (Hs eq_refl) as [Hs' _]. congruence.
Qed.

(** The move of a claimed file, in both forms. *)
Definition move_claimed (claimErr : option gerr) (cc : bool) (f id reason detail : string) : prog (path * option gerr) :=
  if cc then MoveClaimedCurToDLQ r me f id reason detail claimErr else MoveCurToDLQ r me f id reason detail.

(** How it may end. *)
Definition move_post (f : string) (t : tree) (x : path * option gerr) (t' : tree) : Prop :=
  spared me f t t' /\ dents t' !! box_path me "new" f = dents t !! box_path me "new" f /\
  (forall d, content t (box_path me "cur" f) = Some d -> moved r me f d t x t') /\
  (content t (box_path me "cur" f) = None -> x.2 <> None).

Lemma move_post_none f t x : x.1 = [] -> x.2 <> None -> move_post f t x t.
Proof.
  intros H1 H2. split; [done|]. split; [done|]. split; [|done]. intros d Hd. split; [done|]. by left.
Qed.

Section move.
Context (I : tree -> Prop) (f id reason detail : string) (w : world).
Context (Hf : ValidateMessageFilename f = None) (Htext : forallb utf8_valid [id; f; reason; detail] = true).
Context (Hpar : t_parent (tr w) (box_path me "cur" f) = None).
Context (HI : forall t, spared me f (tr w) t ->
  (forall d, content (tr w) (box_path me "cur" f) = Some d -> kept me f d t) -> I t).

Lemma move_start : I (tr w).
Proof. apply HI; [done|]. intros d Hd. right. by left. Qed.

(** What the specification of a move needs of the invariant. *)
Lemma move_inv d : content (tr w) (box_path me "cur" f) = Some d ->
  forall t, kept me f d t -> spared me f (tr w) t -> I t.
Proof. intros Hd t Hk Hs. apply HI; [done|]. intros d' Hd'. congruence. Qed.

Lemma wpi_move_cur : wpi e I (MoveCurToDLQ r me f id reason detail) (fun x w' => move_post f (tr w) x (tr w')) w.
Proof.
  pose proof (handle_plain me Hme) as Hpm. pose proof move_start as HI0. pose proof move_inv as HI1. unfold MoveCurToDLQ.
  destruct (content (tr w) (box_path me "cur" f)) as [d|] eqn:Ec.
  - eapply wpi_mono; [apply (wpi_moveInbox e r Hat I me "cur" f id reason detail d w); try done|].
    + by apply HI1.
    + intros x w' (_ & Hs & Hm). split; [done|]. split; [apply Hm|]. split; [|congruence]. intros d' Hd'. by simplify_eq.
  - eapply wpi_mono; [apply wpi_moveInbox_none; [done|done|done]|]. intros x w' (-> & H1 & H2). by apply move_post_none.
Qed.

Lemma wpi_move_resynced claim w1 :
  errors_As_transition claim = None -> tr w1 = tr w ->
  wpi e I (moveClaimedCurToDLQ r me "cur" f id reason detail (Some claim)) (fun x w' => move_post f (tr w) x (tr w')) w1.
Proof.
  intros Hcl Ht1. pose proof (handle_plain me Hme) as Hpm. pose proof move_start as HI0. pose proof move_inv as HI1.
  destruct (content (tr w) (box_path me "cur" f)) as [d|] eqn:Ec.
  - eapply wpi_mono; [apply (wpi_moveClaimed e r Hat I me "cur" f id reason detail d (Some claim) w1); rewrite ?Ht1; try done|].
    + by intros x [= <-].
    + by apply HI1.
    + intros x w' (_ & Hs & Hm). rewrite Ht1 in Hs, Hm. split; [done|]. split; [apply Hm|]. split; [|congruence]. intros d' Hd'. by simplify_eq.
  - unfold moveClaimedCurToDLQ. wbind.
    eapply wpi_mono; [apply wpi_moveInbox_none; rewrite ?Ht1; done|]. rewrite Ht1.
    intros [p [t|]] w2 (Ht2 & H1 & H2); [|done]. cbn in H1. subst p.
    rewrite (bool_decide_eq_true_2 ([] = [])) by done. rewrite orb_true_r. cbn [orb]. wret. rewrite Ht2. by apply move_post_none.
Qed.

Lemma wpi_move_claimed claimErr cc :
  (forall x, claimErr = Some x -> errors_As_transition x = None) ->
  wpi e I (move_claimed claimErr cc f id reason detail) (fun x w' => move_post f (tr w) x (tr w')) w.
Proof.
  intros Hcl. unfold move_claimed. destruct cc; [|apply wpi_move_cur].
  unfold MoveClaimedCurToDLQ. destruct claimErr as [c|]; [|apply wpi_move_cur].
  destruct (errors_As_committed c) as [[[p q] y]|]; [|wret; by apply move_post_none].
  rewrite Hme, Hf. apply wpi_ro_bind; [auto with amq|apply move_start|].
  intros [y'|] w1 Ht1 _; [wret; rewrite Ht1; by apply move_post_none|].
  case_match; [wret; rewrite Ht1; by apply move_post_none|]. apply wpi_move_resynced; [by apply Hcl|done].
Qed.

End move.

(** ** A claimed message *)

(** What holds after the claim, [t] being the tree at the beginning of the round. *)
Record phase2 (f : string) (t t' : tree) : Prop := {
  p2_evo : round_evo me f t t';
  p2_new : dents t' !! box_path me "new" f = None;
  p2_kept : forall d, content t (box_path me "new" f) = Some d -> kept me f d t';
}.

Lemma phase2_inv f t t' : dents t !! box_path me "cur" f = None -> phase2 f t t' -> round_inv me f t t'.
Proof. intros Hc [H1 H2 H3]. by split. Qed.

Lemma phase2_receipt f t t1 t2 : HasPrefix f "." = false ->
  phase2 f t t1 -> evo (receipt_area me) t1 t2 -> phase2 f t t2.
Proof.
  intros Hv [H1 H2 H3] Hev. split.
  - etrans; [exact H1|]. by apply round_receipt.
  - destruct (receipt_box me f "new" t1 t2 Hv Hev) as [-> _]. done.
  - intros d Hd. eapply kept_receipt; [done|exact Hev|by apply H3].
Qed.

Lemma reported_receipt b v f d i t t' : HasPrefix f "." = false -> evo (receipt_area me) t t' ->
  reported me b v f d i t -> reported me b v f d i t'.
Proof.
  intros Hv Hev. destruct (receipt_box me f "cur" t t' Hv Hev) as [H1 H2]. apply reported_stable; [done|done|].
  intros g. apply (enveloped_round me f). by apply round_receipt.
Qed.

(** What a round that claimed the file returns. *)
Definition claimed_post (b : bool) (v : headerValidator) (f : string) (t : tree) (items : list inboxItem)
    (x : list inboxItem * option (option gerr)) (t' : tree) : Prop :=
  phase2 f t t' /\ exists item, x.1 = items ++ [item] /\ Filename item = f /\
    forall d, content t (box_path me "new" f) = Some d -> reported me b v f d item t'.

Lemma claimed_post_receipt I b v f t items item o stage detail w :
  HasPrefix f "." = false -> usable_id (ID item) -> str_mem slash stage = false -> Filename item = f ->
  (forall t', phase2 f t t' -> I t') -> phase2 f t (tr w) ->
  (forall d, content t (box_path me "new" f) = Some d -> reported me b v f d item (tr w)) ->
  wpi e I (_ ← emitReceipt r me item stage detail; Ret (items ++ [item], o))
    (fun x w' => claimed_post b v f t items x (tr w')) w.
Proof.
  intros Hv Hid Hst Hfile HI H2 Hr. wbind. eapply wpi_mono; [apply wpi_emitReceipt; [done|done|]|].
  - intros t' Ht'. apply HI. by eapply phase2_receipt.
  - intros u w' [Hev _]. wret. split; [by eapply phase2_receipt|]. exists item. split; [done|]. split; [done|].
    intros d Hd. by eapply reported_receipt, Hr.
Qed.

(** The item of a message that was moved, and of one that was not. *)
Lemma reported_moved b v f d i t x t' :
  ParseError i <> "" -> MovedToCur i = false -> moved r me f d t x t' ->
  (forall err, x.2 = Some err -> errors_As_transition err = None /\ x.1 <> []) ->
  reported me b v f d (set_moved (MovedToCur i) true i) t'.
Proof.
  intros He Hc [_ Hm] Hx. right. split; [done|]. split; [done|]. cbn.
  destruct Hm as [(H1 & H2 & _)|(g & _ & _ & Hg & [[Hgone _]|(_ & err & Hr & Ht)])].
  - destruct x as [p [err|]]; [|done]. by destruct (Hx err eq_refl).
  - split; [done|]. by exists g.
  - by destruct (Hx err Hr).
Qed.

Lemma reported_unmoved b v f d i t x t' err :
  ParseError i <> "" -> MovedToCur i = false -> MovedToDLQ i = false -> moved r me f d t x t' -> x.2 = Some err ->
  (errors_As_transition err = None -> x.1 = [] \/ is_committed err = false) ->
  reported me b v f d i t'.
Proof.
  intros He Hc Hq [_ Hm] Hx Herr'. right. split; [done|]. split; [done|]. rewrite Hq.
  destruct Hm as [(_ & _ & ?)|(g & _ & Hne & Hg & [[Hgone Hall]|(? & _)])]; [done| |done].
  destruct (Hall err Hx) as [Hcm Htr]. destruct (Herr' Htr) as [?|Hnc]; [done|congruence].
Qed.

(** After the claim the move only touches what a round may. *)
Lemma phase2_spared f t t1 t2 : phase2 f t t1 -> dents t2 !! box_path me "new" f = None -> spared me f t1 t2 ->
  (forall d, content t (box_path me "new" f) = Some d -> kept me f d t2) -> phase2 f t t2.
Proof. intros [H1 H2 H3] Hn Hs Hk. split; [|done|done]. etrans; [exact H1|]. by apply round_spared. Qed.

Lemma moved_kept f d t x t' : moved r me f d t x t' -> kept me f d t'.
Proof. intros [_ [(_ & _ & ?)|(g & _ & _ & ? & _)]]; [right; by left|right; right; by exists g]. Qed.

Lemma wpi_drain_unreadable I b v f t claimErr cc item items w :
  ValidateMessageFilename f = None -> utf8_valid f = true -> item_fit f item -> ParseError item <> "" ->
  (forall x, claimErr = Some x -> errors_As_transition x = None) ->
  (forall t', phase2 f t t' -> I t') -> phase2 f t (tr w) -> t_parent (tr w) (box_path me "cur" f) = None ->
  (forall d, content t (box_path me "new" f) = Some d -> content (tr w) (box_path me "cur" f) = Some d) ->
  wpi e I (drain_unreadable r me claimErr cc item items) (fun x w' => claimed_post b v f t items x (tr w')) w.
Proof.
  intros Hf Hu [Hfile Hid Het Hrt Hmc Hmd] Hpe Hcl HI H2 Hpar Hcur. pose proof (filename_not_hidden f Hf) as Hv.
  unfold drain_unreadable. rewrite Hfile.
  set (reason := if bool_decide (FailureReason item = "") then "parse_error" else FailureReason item).
  assert (utf8_valid reason = true) as Hreason by (unfold reason; by case_bool_decide).
  change (if cc then _ else _) with (move_claimed claimErr cc f (ID item) reason (ParseError item)). wbind.
  eapply wpi_mono; [apply wpi_move_claimed; try done|].
  - cbn [forallb]. rewrite Hu, Het, Hreason. by destruct Hid as (_ & _ & _ & ->).
  - intros t' Hs Hk. apply HI. eapply phase2_spared; [done| |done|by auto].
    rewrite (evo_deep _ _ _ _ (sp_evo _ _ _ _ Hs)); [apply H2| |apply box_path_depth].
    intros [Hh|[E|[g E]]]; [by eapply box_path_visible| |]; unfold box_path, dlq_path in E; congruence.
  - intros x w1 (Hs & Hn & Hm & Hno).
    assert (phase2 f t (tr w1)) as H2'.
    { eapply phase2_spared; [done|by rewrite Hn; apply H2|done|]. intros d Hd. eapply moved_kept, Hm, Hcur, Hd. }
    destruct x as [dlqPath [dlqErr|]].
    + destruct (errors_As_transition dlqErr) as [y|] eqn:Etr;
        [|destruct (negb (bool_decide (dlqPath = [])) && is_committed dlqErr) eqn:Ecm].
      * wret. split; [done|]. exists item. split; [done|]. split; [done|]. intros d Hd.
        apply (reported_unmoved b v f d item (tr w) (dlqPath, Some dlqErr) (tr w1) dlqErr); try done; [by apply Hm, Hcur|congruence].
      * apply claimed_post_receipt; try done. intros d Hd. apply (reported_moved b v f d item (tr w) (dlqPath, Some dlqErr)); try done; [by apply Hm, Hcur|].
        intros err [= <-]. split; [done|]. apply andb_true_iff in Ecm as [Hp _]. by apply negb_true_iff, bool_decide_eq_false_1 in Hp.
      * wret. split; [done|]. exists item. split; [done|]. split; [done|]. intros d Hd.
        apply (reported_unmoved b v f d item (tr w) (dlqPath, Some dlqErr) (tr w1) dlqErr); try done; [by apply Hm, Hcur|]. intros _.
        apply andb_false_iff in Ecm as [Hp|?]; [left|by right]. by apply negb_false_iff, bool_decide_eq_true in Hp.
    + apply claimed_post_receipt; try done. intros d Hd. apply (reported_moved b v f d item (tr w) (dlqPath, None)); try done. by apply Hm, Hcur.
Qed.

Lemma wpi_drain_claimed I b v f t claimErr cc items w :
  ValidateMessageFilename f = None -> utf8_valid f = true ->
  (forall x, claimErr = Some x -> errors_As_transition x = None) ->
  (forall t', phase2 f t t' -> I t') -> phase2 f t (tr w) -> t_parent (tr w) (box_path me "cur" f) = None ->
  (forall d, content t (box_path me "new" f) = Some d -> content (tr w) (box_path me "cur" f) = Some d) ->
  wpi e I (drain_claimed Error r me b v claimErr cc f items) (fun x w' => claimed_post b v f t items x (tr w')) w.
Proof.
  intros Hf Hu Hcl HI H2 Hpar Hcur. pose proof (handle_plain me Hme) as Hpm. pose proof (filename_not_hidden f Hf) as Hv.
  unfold drain_claimed, readInboxItem. rewrite Join_plain by (repeat constructor; done || by apply filename_plain).
  change ["agents"; me; "inbox"; "cur"; f] with (box_path me "cur" f). wbind. wbind.
  eapply (wpi_mono _ _ _ (fun x w' => tr w' = tr w /\ forall h body, x = Parsed h body ->
    exists d, content (tr w) (box_path me "cur" f) = Some d /\ text_reads b d h body)).
  { destruct b; (eapply wpi_mono; [apply wpi_read_message || apply wpi_read_header; by auto|]); by intros x w' (? & _ & ?). }
  intros x w1 [Ht1 Hx]. wret.
  assert (item_fit f (claimed_item Error b v f x)) as Hfit.
  { apply claimed_item_fit; [done|done|done|]. intros h body E. destruct (Hx h body E) as (d & _ & Hd). by eapply text_reads_id. }
  pose proof (claimed_item_ok Error Herr b v f x) as Hok. unfold claimed_item in Hfit, Hok.
  set (item := match item_of Error b v x (blank_item f) with (item, Some err) => _ | (item, None) => _ end) in *.
  case_bool_decide as Hpe; cbn [negb].
  - apply claimed_post_receipt; rewrite ?Ht1; try done; try apply Hfit. intros d Hd. left. split; [done|]. split; [by apply Hcur|].
    destruct (Hok Hpe) as (h & body & -> & Hval & ->). exists h, body. destruct (Hx h body eq_refl) as (d' & Hd' & Hr).
    rewrite (Hcur d Hd) in Hd'. injection Hd' as <-. done.
  - apply wpi_drain_unreadable; rewrite ?Ht1; done.
Qed.

(** ** One round *)

Definition one_post (b : bool) (v : headerValidator) (f : string) (t : tree) (items : list inboxItem)
    (x : list inboxItem * option (option gerr)) (t' : tree) : Prop :=
  round_inv me f t t' /\
  ((x.1 = items /\ dents t' !! box_path me "new" f = dents t !! box_path me "new" f) \/
   exists item, x.1 = items ++ [item] /\ Filename item = f /\ dents t' !! box_path me "new" f = None /\
     forall d, content t (box_path me "new" f) = Some d -> reported me b v f d item t').

Lemma one_post_unclaimed b v f t items o t' : unclaimed t t' -> one_post b v f t items (items, o) t'.
Proof. intros Hu. split; [by apply round_inv_unclaimed|]. left. split; [done|]. by apply unclaimed_box. Qed.

Lemma ro_claimMailboxDirsExist : ro (claimMailboxDirsExist r me).
Proof. unfold claimMailboxDirsExist. cbn [dirs_exist]. unfold Stat. ro_tac; repeat case_match; ro_tac; repeat case_match; ro_tac. Qed.

(** The file was not claimed. *)
Lemma wpi_not_claimed b v f t err items w : unclaimed t (tr w) ->
  wpi e (round_inv me f t)
    (if os_IsNotExist err then
      x ← claimMailboxDirsExist r me;
      match x with
      | (_, Some checkErr) => Ret (items, Some (Some checkErr))
      | (true, None) => Ret (items, None)
      | (false, None) => Ret (items, Some (Some (EMsg "mailbox disappeared while claiming")))
      end
    else Ret (items, Some (Some err))) (fun x w' => one_post b v f t items x (tr w')) w.
Proof.
  intros Hu. destruct (os_IsNotExist err); [|wret; by apply one_post_unclaimed].
  apply wpi_ro_bind; [apply ro_claimMailboxDirsExist|by apply round_inv_unclaimed|].
  intros [[] [x|]] w1 Ht1 _; wret; rewrite Ht1; by apply one_post_unclaimed.
Qed.

Lemma phase2_claimed f t t' n : dents t !! box_path me "new" f = Some n -> (forall i m, n <> NDir i m) ->
  claimed me f t t' -> phase2 f t t' /\ dents t !! box_path me "cur" f = None /\
    t_parent t' (box_path me "cur" f) = None /\
    forall d, content t (box_path me "new" f) = Some d -> content t' (box_path me "cur" f) = Some d.
Proof.
  intros Hn Hnd Hcl. pose proof (round_claimed me f t t' n Hn Hnd Hcl) as Hev.
  destruct Hcl as (_ & H2 & H3 & H4 & _ & _ & H6). destruct (H6 n Hn Hnd) as (_ & _ & Hpar).
  split; [|split; [done|]; split; [done|]; intros d Hd; by apply H4].
  split; [done|done|]. intros d Hd. right. left. by apply H4.
Qed.

Lemma wpi_drain_one b v f n items w :
  dents (tr w) !! box_path me "new" f = Some n -> (forall i m, n <> NDir i m) -> utf8_valid f = true ->
  wpi e (round_inv me f (tr w)) (drain_one Error r me b v None f items)
    (fun x w' => one_post b v f (tr w) items x (tr w')) w.
Proof.
  intros Hn Hnd Hu. unfold drain_one. wbind. assert (unclaimed (tr w) (tr w)) as Hrefl by apply evo_refl.
  destruct (ValidateMessageFilename f) as [x|] eqn:Hf.
  { unfold MoveNewToCur. rewrite Hme, Hf. wret. rewrite quiet_not_committed by (by eapply filename_error_quiet).
    by apply wpi_not_claimed. }
  eapply wpi_mono; [apply wpi_returns; [apply MoveNewToCur_errs|]; eapply wpi_inv_mono; [|by apply wpi_MoveNewToCur]|].
  { intros t [Ht|Ht]; [by apply round_inv_unclaimed|]. destruct (phase2_claimed f _ _ n Hn Hnd Ht) as (H2 & Hc & _).
    by apply phase2_inv. }
  intros o w1 (Herrs & _ & Ho). unfold claim_outcome in Ho.
  assert (won o = true -> forall cc, wpi e (round_inv me f (tr w)) (drain_claimed Error r me b v o cc f items)
    (fun x w' => one_post b v f (tr w) items x (tr w')) w1) as Hwon.
  { intros Hw cc. rewrite Hw in Ho. destruct (phase2_claimed f _ _ n Hn Hnd Ho) as (H2 & Hc & Hpar & Hcur).
    eapply wpi_mono; [apply (wpi_drain_claimed _ b v f (tr w) o cc items w1); try done; intros t; by apply phase2_inv|].
    intros x w2 (H2' & item & Hx & Hfi & Hr). split; [by apply phase2_inv|]. right. exists item. split; [done|].
    split; [done|]. split; [apply H2'|done]. }
  destruct o as [x|]; [|wbind; wret; by apply Hwon]. cbn in Hwon, Ho. destruct (is_committed x); [wbind; wret; by apply Hwon|].
  apply wpi_not_claimed, Ho.
Qed.

End round.
