(* ===== verification/Draining.v ===== *)
(** What draining an inbox guarantees: drainInboxItems and collectInboxItems of
    internal/cli/inbox_collect.go. *)
From S2P Require Import Prelude GoStr GoSort GoTime GoPath Json JsonFacts JsonStruct JsonUtf8 TimeParse GoErr Fs Wp FsFacts Names DeliveryRoot DeliveryRootFacts Sample AmbientFacts Maildir Delivery Claim AtomicFacts Dlq DeadLetter Retry Validate ValidateFacts Drain DrainLoop.
From S2P Require Format Receipt ReceiptFacts MessageFormat.

(** ** Listing *)

Lemma child_path p q : is_child p q = true -> q = p ++ [Base q].
Proof.
  unfold is_child. destruct q as [|c q]; [done|]. intros H%bool_decide_eq_true.
  destruct (exists_last (ltac:(done) : c :: q <> [])) as (l & x & E). rewrite E in *. rewrite Dir_snoc in H. subst l.
  unfold Base. by rewrite last_snoc.
Qed.

Lemma children_elem_inv t p name k :
  (name, k) ∈ children t p -> exists n, dents t !! (p ++ [name]) = Some n /\ node_kind n = k.
Proof.
  unfold children. intros ([q n] & [= -> ->] & H)%list_elem_of_fmap.
  apply list_elem_of_In, filter_In in H as [H Hc]. apply list_elem_of_In, elem_of_map_to_list in H. exists n.
  cbn in Hc. by rewrite <-(child_path _ _ Hc).
Qed.

Lemma children_nodup t p : NoDup (fst <$> children t p).
Proof.
  unfold children. rewrite <-list_fmap_compose.
  assert (forall l, NoDup (fst <$> l) -> NoDup ((fst ∘ (fun kn : path * node => (Base kn.1, node_kind kn.2))) <$>
    List.filter (fun kv : path * node => is_child p kv.1) l)) as H; [|apply H, NoDup_fst_map_to_list].
  intros l. induction l as [|[q n] l IH]; cbn; [constructor|]. intros [Hq Hl]%NoDup_cons.
  destruct (is_child p q) eqn:Hc; cbn; [|by apply IH]. constructor; [|by apply IH].
  intros ([q' n'] & E & H)%list_elem_of_fmap. apply list_elem_of_In, filter_In in H as [H Hc']. cbn [compose fst snd] in E, Hc'.
  apply Hq, list_elem_of_fmap. exists (q', n'). split; [|by apply list_elem_of_In].
  change (Base q = Base q') in E. cbn. transitivity (p ++ [Base q]); [by apply child_path|]. rewrite E. symmetry. by apply child_path.
Qed.

(** A directory entry that is a message to drain. *)
Definition listable (me : string) (t : tree) (f : string) : Prop :=
  HasPrefix f "." = false /\ HasSuffix f ".md" = true /\
  exists n, dents t !! box_path me "new" f = Some n /\ forall i m, n <> NDir i m.

Lemma listed_listable me t f k :
  (f, k) ∈ children t ["agents"; me; "inbox"; "new"] -> listed (f, k) = true -> listable me t f.
Proof.
  intros (n & Hn & <-)%children_elem_inv. unfold listed. cbn [fst snd]. rewrite andb_true_iff, !negb_true_iff.
  intros [Hk%bool_decide_eq_false [Hd Hm%negb_false_iff]%orb_false_iff]. split; [done|]. split; [done|].
  exists n. split; [done|]. by intros i m ->.
Qed.

Lemma listable_listed me t f : listable me t f ->
  exists k, (f, k) ∈ children t ["agents"; me; "inbox"; "new"] /\ listed (f, k) = true.
Proof.
  intros (Hd & Hm & n & Hn & Hnd). exists (node_kind n). split; [by apply (children_elem t ["agents"; me; "inbox"; "new"])|].
  unfold listed. cbn [fst snd]. rewrite Hd, Hm. rewrite bool_decide_eq_false_2; [done|]. destruct n; try done. by destruct (Hnd i perm).
Qed.

Section listing.
Context (e : env) (r : DeliveryRoot) (Hat : dr_at r = []) (me : string) (Hme : plain me = true).

(** ReadDir of a directory that is no link. *)
Lemma wpi_ReadDir_children I p w : p <> [] -> is_dir (tr w) p -> I (tr w) ->
  wpi e I (ReadDir r p) (fun x w' => tr w' = tr w /\ (x.2 = None -> x.1 ≡ₚ children (tr w) p)) w.
Proof.
  intros Hp (j & m & Hd) HI. unfold ReadDir. rewrite rp_root by done.
  apply wpi_ro_bind; [auto with amq|done|]. intros [x|] w1 Ht1 _; [by wret|].
  wbind. apply wpi_sys; [wexec; case_match; cbn; by rewrite Ht1|]. wret. wexec.
  destruct (e_fault e (tick w1)); cbn; [by wret|]. rewrite Ht1. unfold t_open. cbn [t_follow].
  destruct (t_node (tr w) p) as [n|x] eqn:En; [|by wret].
  assert (n = NDir j m) as -> by (apply t_node_Ok_inv in En as [_ En]; [by simplify_eq|done]).
  cbn. rewrite bool_decide_eq_true_2 by done. cbn [negb]. wbind.
  apply wpi_sys; [wexec; case_match; cbn; by rewrite Ht1|]. wret. wexec. destruct (e_fault e (S (tick w1))); cbn; [by wret|].
  wret. split; [done|]. intros _. cbn. by rewrite e_order_perm, Ht1.
Qed.

Lemma wpi_collectInboxFilenames I w : is_dir (tr w) ["agents"; me; "inbox"; "new"] -> I (tr w) ->
  wpi e I (collectInboxFilenames r me) (fun x w' => tr w' = tr w /\
    (x.2 = None -> NoDup x.1 /\ forall f, f ∈ x.1 <-> listable me (tr w) f)) w.
Proof.
  intros Hd HI. unfold collectInboxFilenames. rewrite Join_plain by (by repeat constructor). wbind.
  eapply wpi_mono; [by apply wpi_ReadDir_children|]. intros [l [x|]] w1 [Ht1 Hl]; [by wret|]. specialize (Hl eq_refl). cbn in Hl.
  wret. split; [done|]. intros _. cbn. rewrite sort_strings_perm.
  assert (forall f, f ∈ fst <$> List.filter listed l <-> exists k, (f, k) ∈ l /\ listed (f, k) = true) as Hf.
  { intros f. rewrite list_elem_of_fmap. split.
    - intros ([f' k] & -> & H). apply list_elem_of_In, filter_In in H as [H1 H2]. exists k. by rewrite list_elem_of_In.
    - intros (k & H1 & H2). exists (f, k). split; [done|]. apply list_elem_of_In, filter_In. by rewrite <-list_elem_of_In. }
  split.
  - assert (NoDup (fst <$> l)) as Hnd by (rewrite Hl; apply children_nodup). clear -Hnd.
    induction l as [|x l IH]; cbn; [constructor|]. cbn in Hnd. apply NoDup_cons in Hnd as [Hx Hnd].
    destruct (listed x); cbn; [|by apply IH]. constructor; [|by apply IH]. intros (y & E & H)%list_elem_of_fmap.
    apply list_elem_of_In, filter_In in H as [H _]. apply Hx, list_elem_of_fmap. exists y. split; [done|]. by apply list_elem_of_In.
  - intros f. rewrite sort_strings_perm, Hf. setoid_rewrite Hl. split.
    + intros (k & H1 & H2). by eapply listed_listable.
    + apply listable_listed.
Qed.

End listing.

(** ** The loop *)

(** No message is lost, and no other file changed but dot files and receipts. *)
Record safe_since (me : string) (t0 t : tree) : Prop := {
  sf_kept : forall f d, HasPrefix f "." = false -> content t0 (box_path me "new" f) = Some d -> kept me f d t;
  sf_other : forall p d, ~ hidden p -> (forall f, p <> box_path me "new" f) -> (forall n, p <> receipt_at me n) ->
    content t0 p = Some d -> content t p = Some d;
}.

Lemma kept_other me f f' d t t' : f <> f' -> HasPrefix f' "." = false -> round_evo me f t t' ->
  kept me f' d t -> kept me f' d t'.
Proof.
  intros Hne Hv Hev [H|[H|[g H]]].
  - left. by eapply round_other_box.
  - right. left. by eapply round_other_box.
  - right. right. exists g. by eapply enveloped_round.
Qed.

Lemma safe_step me f t0 t t' :
  (forall d, HasPrefix f "." = false -> content t0 (box_path me "new" f) = Some d -> content t (box_path me "new" f) = Some d) ->
  safe_since me t0 t -> round_inv me f t t' -> safe_since me t0 t'.
Proof.
  intros Hf [Hk Ho] [Hev Hcur Hkept]. split.
  - intros f' d Hv Hd. destruct (decide (f = f')) as [->|Hne]; [by apply Hkept, Hf|]. eapply kept_other; [done|done|done|by apply Hk].
  - intros p d Hh Hn Hr Hd. specialize (Ho p d Hh Hn Hr Hd). destruct Hev as [Hev Hdlq].
    destruct (decide (p = box_path me "cur" f)) as [->|Hpc].
    { apply content_file in Ho as (i & Hi & Hdi). unfold content. rewrite Hcur, Hi by congruence.
      by eapply lookup_weaken, evo_data. }
    destruct (decide (p = dlq_path me "new" (Base p))) as [Ep|Hg].
    { rewrite Ep in Ho |- *. apply Hdlq; [|done]. unfold hidden in Hh. by destruct (HasPrefix (Base p) "."). }
    eapply evo_content; [exact Hev| |done]. intros [?|[E|[E|[[g ->]|[n E]]]]]; [done|by eapply Hn|done| |by eapply Hr].
    by apply Hg.
Qed.

Section loop.
Context `{SortSlice} (e : env) (r : DeliveryRoot) (Hat : dr_at r = []) (me : string) (Hme : ValidateHandle me = None).
Context (Error : gerr -> string) (Herr : forall x, Error x <> "" /\ utf8_valid (Error x) = true).
Context (b : bool) (limit : Z) (v : headerValidator) (t0 : tree) (fs : list string).
Context (Hfs : forall f, f ∈ fs -> listable me t0 f /\ utf8_valid f = true).

(** The items account for the messages: each is of a file that is gone from inbox/new, and
    says where its message is; a message without an item is still in inbox/new. *)
Record accounted (items : list inboxItem) (t : tree) : Prop := {
  ac_safe : safe_since me t0 t;
  ac_nodup : NoDup (Filename <$> items);
  ac_items : forall i, i ∈ items -> Filename i ∈ fs /\ dents t !! box_path me "new" (Filename i) = None /\
    forall d, content t0 (box_path me "new" (Filename i)) = Some d -> reported me b v (Filename i) d i t;
  ac_left : forall f d, HasPrefix f "." = false -> f ∉ Filename <$> items ->
    content t0 (box_path me "new" f) = Some d -> content t (box_path me "new" f) = Some d;
  ac_limit : (0 < limit)%Z -> (Z.of_nat (length items) <= limit)%Z;
}.

(** What the loop has to do still. *)
Record pending (rest : list string) (items : list inboxItem) (t : tree) : Prop := {
  pe_in : forall f, f ∈ rest -> f ∈ fs;
  pe_nodup : NoDup rest;
  pe_items : forall f, f ∈ rest -> f ∉ Filename <$> items;
  pe_same : forall f, f ∈ rest -> dents t !! box_path me "new" f = dents t0 !! box_path me "new" f;
}.

#[global] Instance accounted_perm : Proper ((≡ₚ) ==> eq ==> iff) accounted.
Proof.
  assert (forall l l' t, l ≡ₚ l' -> accounted l t -> accounted l' t) as Hp.
  { intros l l' t Hl []. split; [done|by rewrite <-Hl| | |by rewrite <-Hl].
    - intros i Hi. apply ac_items0. by rewrite Hl.
    - intros f d Hv Hf. apply ac_left0; [done|]. by rewrite Hl. }
  intros l l' Hl t ? <-. split; apply Hp; [done|by symmetry].
Qed.

Lemma visible_rest rest items t f : pending rest items t -> f ∈ rest -> HasPrefix f "." = false.
Proof. intros Hp Hf. by destruct (Hfs f) as [[? _] _]; [eapply pe_in|]. Qed.

Lemma pending_step f rest items t t' x :
  pending (f :: rest) items t -> one_post me b v f t items x t' -> pending rest x.1 t'.
Proof.
  intros Hpe [Hri Hx]. pose proof Hpe as [Hin [Hf Hnd]%NoDup_cons Hit Hsame].
  assert (forall f', f' ∈ rest -> f <> f') as Hne by (by intros f' Hf' ->).
  split; [intros; apply Hin; by right|done| |].
  - intros f' Hf'. destruct Hx as [[-> _]|(i & -> & Hi & _)]; [apply Hit; by right|].
    rewrite fmap_app, elem_of_app. intros [H'|H'].
    + by apply (Hit f'); [right|].
    + cbn in H'. apply list_elem_of_singleton in H' as ->. by apply (Hne _ Hf').
  - intros f' Hf'. rewrite (round_other_dents me f f' "new" t t'); [apply Hsame; by right|by apply Hne| |apply Hri].
    eapply visible_rest; [done|by right].
Qed.

Lemma accounted_step f rest items t t' x :
  pending (f :: rest) items t -> accounted items t -> ((0 < limit)%Z -> (Z.of_nat (length items) < limit)%Z) ->
  one_post me b v f t items x t' -> accounted x.1 t'.
Proof.
  intros Hpe Hac Hlim [Hri Hx]. pose proof (visible_rest _ _ _ f Hpe ltac:(by left)) as Hv.
  assert (f ∉ Filename <$> items) as Hfi by (apply Hpe; by left).
  destruct Hac as [Hsafe Hnd Hit Hleft Hlen]. pose proof (ri_evo _ _ _ _ Hri) as Hev.
  assert (safe_since me t0 t') as Hsafe' by (eapply safe_step; [|done|done]; intros d ?; by apply Hleft).
  assert (forall f', HasPrefix f' "." = false -> f <> f' -> forall d, f' ∉ Filename <$> items ->
    content t0 (box_path me "new" f') = Some d -> content t' (box_path me "new" f') = Some d) as Hleft'.
  { intros f' Hv' Hne d Hf' Hd. eapply round_other_box; [done|done|done|]. by apply Hleft. }
  assert (forall i, i ∈ items -> Filename i ∈ fs /\ dents t' !! box_path me "new" (Filename i) = None /\
    forall d, content t0 (box_path me "new" (Filename i)) = Some d -> reported me b v (Filename i) d i t') as Hit'.
  { intros i Hi. destruct (Hit i Hi) as (Hifs & Hg & Hr). destruct (Hfs _ Hifs) as [[Hvi _] _].
    assert (f <> Filename i) as Hne by (intros ->; apply Hfi, list_elem_of_fmap; by exists i).
    split; [done|]. split; [by rewrite (round_other_dents me f _ "new" t t')|]. intros d Hd.
    eapply reported_stable; [| | |by apply Hr].
    - intros d'. by eapply round_other_box.
    - by apply (round_other_dents me f).
    - intros g. by apply (enveloped_round me f). }
  destruct Hx as [[-> Hdent]|(i & -> & Hi & Hgone & Hr)].
  - split; [done|done|done| |]; [|intros; lia || by apply Hlen]. intros f' d Hv' Hf' Hd.
    destruct (decide (f = f')) as [<-|Hne]; [|by apply Hleft']. specialize (Hleft f d Hv Hfi Hd).
    apply content_file in Hleft as (j & Hj & Hdj). unfold content. rewrite Hdent, Hj. by eapply lookup_weaken, evo_data, re_evo.
  - split; [done| | | |].
    + rewrite fmap_app. apply NoDup_app. split; [done|]. split; [|apply NoDup_singleton].
      intros y Hy ->%list_elem_of_singleton. by rewrite Hi in Hy.
    + intros i' [Hi'| ->%list_elem_of_singleton]%elem_of_app; [by apply Hit'|]. rewrite Hi. split; [apply Hpe; by left|].
      split; [done|]. intros d Hd. apply Hr. by apply Hleft.
    + intros f' d Hv' Hf'. rewrite fmap_app, elem_of_app in Hf'. apply Hleft'; [done| |tauto]. intros <-. apply Hf'. right.
      cbn. rewrite Hi. by left.
    + intros Hl. rewrite length_app. cbn. specialize (Hlim Hl). lia.
Qed.

Lemma wpi_drain_each rest : forall items w,
  pending rest items (tr w) -> accounted items (tr w) ->
  wpi e (safe_since me t0) (drain_each Error r me b limit v None rest items)
    (fun x w' => accounted x.1 (tr w')) w.
Proof.
  assert (forall items o w, accounted items (tr w) ->
    wpi e (safe_since me t0) (Ret (finishInboxBatch items o)) (fun x w' => accounted x.1 (tr w')) w) as Hfin.
  { intros items o w Hac. wret. cbn. unfold Format.SortByTimestamp. by rewrite sort_slice_perm. }
  induction rest as [|f rest IH]; intros items w Hpe Hac; cbn [drain_each]; [by apply Hfin|].
  destruct (Z.ltb 0 limit && Z.leb limit (Z.of_nat (length items))) eqn:El; [by apply Hfin|].
  assert ((0 < limit)%Z -> (Z.of_nat (length items) < limit)%Z) as Hlim.
  { intros Hl. apply andb_false_iff in El as [?%Z.ltb_ge|?%Z.leb_gt]; lia. }
  destruct (Hfs f) as [(Hv & _ & n & Hn & Hnd) Hu]; [by apply Hpe; left|].
  rewrite <-(pe_same _ _ _ Hpe f ltac:(by left)) in Hn. wbind.
  eapply wpi_mono; [eapply wpi_inv_mono; [|by eapply wpi_drain_one]|].
  { intros t Ht. eapply safe_step; [|apply Hac|exact Ht]. intros d ?. eapply ac_left; [done|done|].
    eapply pe_items; [done|by left]. }
  intros x w1 Hx. pose proof (accounted_step _ _ _ _ _ _ Hpe Hac Hlim Hx) as Hac'.
  destruct x as [items' [err|]]; [by apply Hfin|]. apply IH; [|done]. apply (pending_step _ _ _ _ _ _ Hpe Hx).
Qed.

End loop.

(** ** Draining *)

Section drain.
Context `{SortSlice} (e : env) (r : DeliveryRoot) (Hat : dr_at r = []) (me : string) (Hme : ValidateHandle me = None).
Context (Error : gerr -> string) (Herr : forall x, Error x <> "" /\ utf8_valid (Error x) = true).
Context (b : bool) (limit : Z) (v : headerValidator).

Lemma accounted_start t fs : accounted me b limit v t fs [] t.
Proof.
  split; [|constructor|by intros i ?%elem_of_nil|done|cbn; lia]. split; [|done]. intros f d _ Hd. by left.
Qed.

Lemma wpi_drainInboxItems w :
  is_dir (tr w) ["agents"; me; "inbox"; "new"] ->
  (forall f n, dents (tr w) !! box_path me "new" f = Some n -> utf8_valid f = true) ->
  wpi e (safe_since me (tr w)) (drainInboxItems Error r me b limit v) (fun x w' =>
    exists fs, (forall f, f ∈ fs -> listable me (tr w) f) /\ accounted me b limit v (tr w) fs x.1 (tr w')) w.
Proof.
  intros Hdir Hutf. pose proof (fun fs => accounted_start (tr w) fs) as Hst. pose proof (ac_safe _ _ _ _ _ _ _ _ (Hst [])) as Hs0.
  assert (forall o w', tr w' = tr w -> exists fs, (forall f, f ∈ fs -> listable me (tr w) f) /\
    accounted me b limit v (tr w) fs ([] : list inboxItem, o : option gerr).1 (tr w')) as Hnone.
  { intros o w' ->. exists []. split; [by intros f ?%elem_of_nil|done]. }
  unfold drainInboxItems, drainInboxItemsWithClaimHook, WithPinnedBatch.
  apply wpi_ro_bind; [auto with amq|done|]. intros [x|] w1 Ht1 _; [wret; by apply Hnone|].
  apply wpi_plain_sys; [done|by rewrite Ht1|]. intros l w2 Ht2. rewrite Ht1 in Ht2.
  set (r' := MkRoot _ _ _ _ _ _). assert (dr_at r' = []) as Hat' by done. generalize dependent r'. intros r' Hat'.
  wbind. eapply (wpi_mono _ _ _ (fun x w' => exists fs, (forall f, f ∈ fs -> listable me (tr w) f) /\
    accounted me b limit v (tr w) fs x.1 (tr w'))).
  - unfold drainInboxItemsPinned. wbind.
    eapply wpi_mono; [apply (wpi_collectInboxFilenames e r' Hat' me (handle_plain me Hme)); rewrite Ht2; done|]. rewrite Ht2.
    intros [fs [x|]] w3 [Ht3 Hfs]; [wret; by apply Hnone|]. destruct (Hfs eq_refl) as [Hnd Hin]. cbn in Hnd, Hin.
    eapply wpi_mono; [apply (wpi_drain_each e r' Hat' me Hme Error Herr b limit v (tr w) fs)|].
    + intros f Hf%Hin. split; [done|]. destruct Hf as (_ & _ & n & Hn & _). by eapply Hutf.
    + split; [done|done|by intros f _ ?%elem_of_nil|by intros f _; rewrite Ht3].
    + by rewrite Ht3.
    + intros x w4 Hac. exists fs. split; [by intros f Hf%Hin|done].
  - intros x w3 (fs & Hfs & Hac). apply wpi_plain_sys; [done|apply Hac|]. intros [] w4 Ht4. wret. exists fs.
    split; [done|]. by rewrite Ht4.
Qed.

End drain.

(** The texts of errors: never empty, valid UTF-8. *)
Definition error_texts (Error : gerr -> string) : Prop := forall x, Error x <> "" /\ utf8_valid (Error x) = true.

(** An inbox with real directories whose file names are valid UTF-8. *)
Definition sound_inbox (me : string) (t : tree) : Prop :=
  is_dir t ["agents"; me; "inbox"; "new"] /\
  forall f n, dents t !! box_path me "new" f = Some n -> utf8_valid f = true.

(** C5: Draining an inbox loses nothing: stopped after any of its calls, under any I/O
    failures, every message that was in inbox/new is, whole, in inbox/new, in inbox/cur, or in
    an envelope of the dead-letter queue that can be read; and every other file of the queue
    but the agent's receipts and dot files has its contents, the messages in inbox/cur, the
    envelopes and the mailboxes of the other agents among them. *)
Theorem drain_never_loses `{SortSlice} Error e r me b limit v w :
  error_texts Error -> dr_at r = [] -> ValidateHandle me = None -> sound_inbox me (tr w) ->
  Forall (fun w' => safe_since me (tr w) (tr w')) (trace e (drainInboxItems Error r me b limit v) w).
Proof. intros Herr Hat Hme [Hdir Hutf]. eapply wpi_trace. by apply wpi_drainInboxItems. Qed.

Definition sample_error (x : gerr) : string := "error".
Definition lenient : headerValidator := MkValidator false ∅ false.

Lemma sample_error_texts : error_texts sample_error.
Proof. done. Qed.

(** A message that can be read and one that cannot. *)
Definition drain_world : world :=
  sample_world [(box_path "bob" "new" "id-1.md", Format.marshal_at 0 (Format.MkMessage MessageFormat.sample_header "hello"));
                (box_path "bob" "new" "bad.md", "no front matter")].

(** A check of all the paths of a tree. *)
Lemma all_paths (t : tree) (P : path -> bool) p n :
  forallb P (fst <$> map_to_list (dents t)) = true -> dents t !! p = Some n -> P p = true.
Proof.
  intros H Hn. rewrite forallb_forall in H. apply H. apply list_elem_of_In, list_elem_of_fmap.
  exists (p, n). split; [done|]. by apply elem_of_map_to_list.
Qed.

Definition utf8_names (p : path) : bool := match p with ["agents"; _; "inbox"; "new"; f] => utf8_valid f | _ => true end.

Lemma drain_world_sound : sound_inbox "bob" (tr drain_world).
Proof.
  split; [|intros f n; apply (all_paths _ utf8_names); vm_compute; reflexivity].
  destruct (dents (tr drain_world) !! ["agents"; "bob"; "inbox"; "new"]) as [[i|i m|i q|i]|] eqn:E;
    vm_compute in E; try discriminate E. exists i, m. vm_compute. exact E.
Qed.

Lemma drain_never_loses_witness :
  let e := failing_env 40 EIO in
  let p := drainInboxItems sample_error sample_root "bob" true 0 lenient in
  (40 < length (trace e p drain_world))%nat /\
  Forall (fun w' => safe_since "bob" (tr drain_world) (tr w')) (trace e p drain_world).
Proof.
  intros e p. split; [apply Nat.ltb_lt; vm_compute; reflexivity|].
  apply drain_never_loses; [apply sample_error_texts|reflexivity|vm_compute; reflexivity|apply drain_world_sound].
Defined.

(** C6: What a drain returns accounts for the inbox, whatever failed: the items are of different
    files, no more than the limit; each is of a message that is gone from inbox/new, and says
    where it is: moved_to_cur means that the message is in inbox/cur, its header was accepted
    and the item has its fields (and its body if asked for); moved_to_dlq that it is in an
    envelope of the dead-letter queue and no longer in inbox/cur; neither that it could not be
    read and is still in inbox/cur.  And every message without an item is still in inbox/new. *)
Theorem drain_accounts `{SortSlice} Error e r me b limit v w items err w' :
  error_texts Error -> dr_at r = [] -> ValidateHandle me = None -> sound_inbox me (tr w) ->
  run e (drainInboxItems Error r me b limit v) w = ((items, err), w') ->
  NoDup (Filename <$> items) /\ ((0 < limit)%Z -> (Z.of_nat (length items) <= limit)%Z) /\
  (forall i, i ∈ items -> listable me (tr w) (Filename i) /\ dents (tr w') !! box_path me "new" (Filename i) = None /\
     forall d, content (tr w) (box_path me "new" (Filename i)) = Some d -> reported me b v (Filename i) d i (tr w')) /\
  (forall f d, HasPrefix f "." = false -> f ∉ Filename <$> items ->
     content (tr w) (box_path me "new" f) = Some d -> content (tr w') (box_path me "new" f) = Some d).
Proof.
  intros Herr Hat Hme [Hdir Hutf] Hrun.
  pose proof (wpi_run e _ _ _ _ (wpi_drainInboxItems e r Hat me Hme Error Herr b limit v w Hdir Hutf)) as (fs & Hfs & Hac).
  rewrite Hrun in Hac. destruct Hac as [_ Hnd Hit Hleft Hlim]. split; [done|]. split; [done|]. split; [|done].
  intros i Hi. destruct (Hit i Hi) as (Hin & Hg & Hr). split; [by apply Hfs|]. done.
Qed.

Lemma drain_accounts_witness :
  let x := run quiet_env (drainInboxItems sample_error sample_root "bob" true 0 lenient) drain_world in
  x.1.2 = None /\ (Filename <$> x.1.1) ≡ₚ ["bad.md"; "id-1.md"] /\
  NoDup (Filename <$> x.1.1) /\
  (forall i, i ∈ x.1.1 -> dents (tr x.2) !! box_path "bob" "new" (Filename i) = None).
Proof.
  intros x. assert (x = ((x.1.1, None), x.2)) as Hx by (apply run_outcome; vm_compute; reflexivity).
  destruct (drain_accounts sample_error quiet_env sample_root "bob" true 0 lenient drain_world x.1.1 None x.2
    sample_error_texts eq_refl ltac:(vm_compute; reflexivity) drain_world_sound Hx) as (Hnd & _ & Hit & _).
  split; [by rewrite Hx|]. split; [vm_compute; reflexivity|]. split; [exact Hnd|].
  intros i Hi. by destruct (Hit i Hi) as (_ & ? & _).
Defined.
