(* ===== verification/DlqLive.v ===== *)
(** Moving a message to the dead-letter queue without failures: internal/fsq/dlq.go. *)
From S2P Require Import Prelude GoStr GoTime GoPath Json JsonFacts JsonStruct GoErr Fs Wp FsFacts Names DeliveryRoot DeliveryRootFacts Sample AmbientFacts Maildir Delivery Claim AtomicFacts DlqEnvelope Dlq DeadLetter.
From S2P Require ReceiptFacts.

(** ** Reading *)

Section read.
Context (e : env) (Hnf : healthy e) (r : DeliveryRoot) (Hat : dr_at r = []).
Context (p : path) (Hp : p <> []) (i : ino) (d : string).

Record readable (w : world) : Prop := {
  rd_attached : attached e r w;
  rd_parent : t_parent (tr w) p = None;
  rd_entry : dents (tr w) !! p = Some (NFile i);
  rd_data : data (tr w) !! i = Some d;
}.

Lemma readable_same w w' : tr w' = tr w -> ctl_eq w w' -> readable w -> readable w'.
Proof. intros Ht Hc []. split; rewrite ?Ht; try done. by eapply attached_ctl. Qed.

Lemma live_verified {A} (k : option gerr -> prog A) w : readable w ->
  exists w1, run e (prog_bind (VerifyBase r) k) w = run e (k None) w1 /\ readable w1.
Proof.
  intros Hr. destruct (run_ro_bind e (VerifyBase r) k w None) as (w1 & H1 & H2 & H3);
    [auto with amq|by apply live_VerifyBase, Hr|].
  exists w1. split; [done|]. by eapply readable_same.
Qed.

Lemma readable_node w : readable w -> t_node (tr w) p = Ok (NFile i).
Proof. intros []. by apply t_node_lookup. Qed.

Lemma live_Open w : readable w ->
  (run e (OpenRegularNoFollow r p) w).1 = (Some (Handle KFile i p, Info KFile i 384 (String.length d)), None).
Proof.
  intros Hr. unfold OpenRegularNoFollow. rewrite !rp_root by done.
  edestruct @live_verified as (w1 & -> & Hr1); [exact Hr|]. cbn beta iota. pose proof (readable_node w1 Hr1) as Hn.
  live. unfold t_lstat. rewrite Hn. live. rewrite !validate_file by done. live. unfold t_open_nofollow.
  rewrite Hn. live. rewrite !validate_file by done. live. rewrite (rd_data w1 Hr1). unfold SameFile. cbn.
  by rewrite !bool_decide_eq_true_2.
Qed.

(** Going on after a call that changes nothing. *)
Lemma live_step {A} (q : prog A) a w : ro q -> (run e q w).1 = a -> readable w ->
  exists w1, run e q w = (a, w1) /\ readable w1.
Proof.
  intros Hro <- Hr. exists (run e q w).2. split; [apply surjective_pairing|]. destruct (run_ro e q w Hro). by eapply readable_same.
Qed.

Lemma live_ReadRegular w : readable w -> (run e (ReadRegularNoFollow r p) w).1 = (d, None).
Proof.
  intros Hr. unfold ReadRegularNoFollow.
  destruct (live_step (OpenRegularNoFollow r p) _ w ltac:(auto with amq) (live_Open w Hr) Hr) as (w2 & E2 & Hr2).
  rewrite run_mbind, E2. live. by rewrite (rd_data w2 Hr2).
Qed.

End read.

(** ** Evolution of a tree, undone at a place *)

Lemma evo_restored (X : path -> Prop) p t t' :
  evo (fun q => q = p \/ X q) t t' -> dents t' !! p = dents t !! p -> evo X t t'.
Proof.
  intros [Hd Hi He] E. split; [done|done|]. intros q Hq. destruct (decide (q = p)) as [->|Hne]; [by left|].
  apply He. tauto.
Qed.

(** ** Delivering to the queue *)

(** The queue of an agent is laid out and no temporary is left in it. *)
Record dlq_ready (a : string) (t : tree) : Prop := {
  dq_tmp : dirs_upto t ["agents"; a; "dlq"; "tmp"];
  dq_new : dirs_upto t ["agents"; a; "dlq"; "new"];
  dq_clean : forall name, HasPrefix name "." = true -> dents t !! dlq_path a "tmp" name = None;
}.

Section live.
Context (e : env) (Hnf : healthy e) (r : DeliveryRoot) (Hat : dr_at r = []) (a : string) (Ha : plain a = true).

Lemma dlq_path_parent t box f : dirs_upto t ["agents"; a; "dlq"; box] -> plain box = true -> t_parent t (dlq_path a box f) = None.
Proof. intros Hd Hb. by apply (dirs_upto_parent t ["agents"; a; "dlq"; box] f). Qed.

Lemma live_publish_dlq name g data w :
  dirs_upto (tr w) ["agents"; a; "dlq"; "tmp"] -> dirs_upto (tr w) ["agents"; a; "dlq"; "new"] ->
  content (tr w) (dlq_path a "tmp" name) = Some data -> dents (tr w) !! dlq_path a "new" g = None ->
  (run e (publishTmpNoReplace r (dlq_path a "tmp" name) (dlq_path a "new" g) data) w).1 = None.
Proof.
  intros Hdt Hdn (i & Hi & _)%content_file Hn. unfold publishTmpNoReplace. rewrite run_bind.
  rewrite (live_renameNoReplace e Hnf r (dlq_path a "tmp" name) (dlq_path a "new" g) i); try done;
    try (by apply dlq_path_parent); apply dirs_upto_node; try done; cbn; by rewrite Ha.
Qed.

Lemma live_sync {A} box (k : option gerr -> prog A) w : plain box = true -> dirs_upto (tr w) ["agents"; a; "dlq"; box] ->
  exists w', run e (prog_bind (syncDir r (dlq_dir a box)) k) w = run e (k None) w' /\ tr w' = tr w /\ ctl_eq w w'.
Proof.
  intros Hb Hd. apply run_ro_bind; [auto with amq|]. rewrite dlq_dir_plain by done. by apply live_syncDir.
Qed.

(** Only the envelope is new afterwards. *)
Lemma live_dlq_write name g data w : dlq_ready a (tr w) -> HasPrefix name "." = true ->
  dents (tr w) !! dlq_path a "new" g = None ->
  let tmp := dlq_path a "tmp" name in let new := dlq_path a "new" g in
  exists w', run e (if_err x := writeAndSync r tmp data then Ret ([], Some x) else
    if_err x := syncDir r (dlq_dir a "tmp") then x' ← cleanupTemp r tmp x; Ret ([], Some x') else
    if_err x := publishTmpNoReplace r tmp new data then Ret ([], Some x) else
    if_err x := syncDir r (dlq_dir a "new") then
      Ret (displayPath r new, Some (ECommitted (displayPath r new) a (Errorf "sync dlq new dir" x))) else
    _ ← syncDir r (dlq_dir a "tmp"); Ret (displayPath r new, None)) w = ((displayPath r new, None), w') /\
    ctl_eq w w' /\ evo (eq new) (tr w) (tr w').
Proof.
  intros Hr Hname Hn tmp new. pose proof Hr as [Hdt Hdn Hcl]. specialize (Hcl name Hname). fold tmp in Hcl.
  assert (tmp <> new) as Hne by (unfold tmp, new, dlq_path; congruence).
  assert (t_parent (tr w) tmp = None) as Hpar by (by apply dlq_path_parent).
  pose proof (live_writeAndSync e Hnf r tmp data w Hat ltac:(done) Hpar Hcl) as Hl1.
  pose proof (wpi_run e _ _ _ _ (wpi_writeAndSync e (fun _ => True) r tmp data w Hat (fun _ _ => Logic.I))) as (Hev1 & Hc1 & Hw & _).
  rewrite run_bind. destruct (run e (writeAndSync r tmp data) w) as [o w1]. cbn [fst snd] in *. subst o.
  destruct (Hw eq_refl) as (_ & _ & _ & Hcont). cbn beta iota. pose proof (evo_parent _ _ _ _ Hev1 Hpar) as Hpar1.
  edestruct @live_sync as (w2 & -> & Ht2 & Hc2); [|by eapply dirs_upto_evo|]; [done|]. cbn beta iota. rewrite <-Ht2 in Hcont, Hev1, Hpar1.
  assert (dents (tr w2) !! new = None) as Hn2.
  { rewrite <-Hn. apply (evo_deep _ _ _ _ Hev1); [done|apply dlq_path_depth]. }
  pose proof (live_publish_dlq name g data w2 ltac:(by eapply dirs_upto_evo) ltac:(by eapply dirs_upto_evo) Hcont Hn2) as Hl3.
  pose proof (wpi_run e _ _ _ _ (wpi_publish e r Hat (fun _ => True) tmp new data w2 ltac:(done) Hne Hcont Hpar1 (fun _ _ => Logic.I)))
    as (Hc3 & (Hev3 & _) & Hw3).
  rewrite run_bind. fold tmp new in Hl3. destruct (run e (publishTmpNoReplace r tmp new data) w2) as [o w3].
  cbn [fst snd] in *. subst o. destruct Hw3 as [_ Hgone]. cbn beta iota.
  assert (evo (eq new) (tr w) (tr w3)) as Hev.
  { apply (evo_restored _ tmp); [|congruence]. etrans; [eapply evo_mono; [|exact Hev1]; by left|].
    eapply evo_mono; [|exact Hev3]. intros q [?|?]; [by left|by right]. }
  edestruct @live_sync as (w4 & -> & Ht4 & Hc4); [|by eapply dirs_upto_evo|]; [done|]. cbn beta iota.
  rewrite run_mbind. destruct (run_ro e (syncDir r (dlq_dir a "tmp")) w4) as [Ht5 Hc5]; [auto with amq|].
  eexists. split; [reflexivity|]. cbn [run snd]. rewrite Ht5, Ht4. split; [|done]. by do 4 (eapply ctl_eq_trans; [done|]).
Qed.

Lemma live_deliverToDLQ g data w : attached e r w -> dlq_ready a (tr w) -> ValidateMessageFilename g = None ->
  dents (tr w) !! dlq_path a "new" g = None ->
  exists w', run e (deliverToDLQ r a g data) w = ((displayPath r (dlq_path a "new" g), None), w') /\
    ctl_eq w w' /\ evo (eq (dlq_path a "new" g)) (tr w) (tr w').
Proof.
  intros Hatt Hr Hg Hn. pose proof Hr as [Hdt Hdn _]. unfold deliverToDLQ. rewrite !rp_root by done.
  rewrite run_bind, (live_VerifyBase e r w Hatt). cbn beta iota.
  destruct (run_ro e (VerifyBase r) w) as [Ht1 Hc1]; [auto with amq|].
  generalize dependent (run e (VerifyBase r) w).2. intros w1 Ht1 Hc1.
  assert (forall w' box, plain box = true -> dirs_upto (tr w') ["agents"; a; "dlq"; box] ->
    run e (call (SMkdirAll (dlq_dir a box) 448)) w' = (None, bump w')) as Hmk.
  { intros w' box Hb Hd. rewrite dlq_dir_plain by done. by apply live_mkdirall. }
  rewrite run_bind, Hmk by (done || by rewrite Ht1). cbn [fst snd]. rewrite run_bind, Hmk by (done || by cbn; rewrite Ht1). cbn [fst snd].
  set (w2 := bump (bump w1)). assert (tr w2 = tr w) as Ht2 by done. assert (ctl_eq w w2) as Hc2 by done. clearbody w2.
  pose proof (wpi_run e _ _ _ _ (wpi_dlq_tmpPath e (fun _ => True) a g w2 Ha Hg Logic.I)) as Htmp.
  pose proof (live_tmpPath e Hnf (dlq_dir a "tmp") g w2) as Hl. rewrite run_bind.
  destruct (run e (uniqueAttemptTmpPath (dlq_dir a "tmp") g) w2) as [[p o] w3]. cbn [fst snd] in *. subst o.
  destruct Htmp as (Ht3 & Hc3 & name & -> & Hname). rewrite Ht2 in Ht3. cbn beta iota.
  rewrite dlq_file_plain by (done || by apply filename_plain).
  destruct (live_dlq_write name g data w3) as (w4 & Hrun & Hc4 & Hev); rewrite ?Ht3; try done.
  exists w4. split; [exact Hrun|]. rewrite <-Ht3. split; [|done]. by do 2 (eapply ctl_eq_trans; [done|]).
Qed.

(** ** Moving a message *)

(** The move of the message [f] from inbox/cur to the envelope [g]. *)
Definition move_area (f g : string) (p : path) : Prop := p = box_path a "cur" f \/ p = dlq_path a "new" g.

Lemma live_dlq_transition f id data i w :
  attached e r w -> dlq_ready a (tr w) -> ValidateMessageFilename f = None -> ValidateMessageFilename (id +:+ ".md") = None ->
  dirs_upto (tr w) (inbox_dir a "cur") -> dents (tr w) !! box_path a "cur" f = Some (NFile i) ->
  dents (tr w) !! dlq_path a "new" (id +:+ ".md") = None ->
  exists p w', run e (dlq_transition r a (inbox_dir a "cur") f id data) w = ((p, None), w') /\
    ctl_eq w w' /\ evo (move_area f (id +:+ ".md")) (tr w) (tr w').
Proof.
  intros Hatt Hr Hf Hid Hdc Hi Hn. set (g := id +:+ ".md") in *. unfold dlq_transition. fold g. rewrite run_mbind.
  destruct (live_deliverToDLQ g data w Hatt Hr Hid Hn) as (w1 & -> & Hc1 & Hev1). cbn beta iota. cbn [fst snd].
  rewrite inbox_file_plain by (done || by apply filename_plain). rewrite rp_root by done. rewrite run_mbind.
  assert (dents (tr w1) !! box_path a "cur" f = Some (NFile i)) as Hi1.
  { rewrite <-Hi. apply (evo_deep _ _ _ _ Hev1); [|apply box_path_depth]. unfold box_path, dlq_path. congruence. }
  pose proof (box_path_parent (tr w1) a "cur" f Ha eq_refl ltac:(by eapply dirs_upto_evo)) as Hpar.
  set (w2 := set_tree (set_dents (delete (box_path a "cur" f)) (tr w1)) w1).
  assert (run e (sys (SRemove (box_path a "cur" f))) w1 = (Ok (), w2)) as ->.
  { rewrite run_sys. cbn [exec fst snd]. unfold upd_unit, upd. rewrite Hnf. unfold t_remove.
    pose proof (t_node_lookup (tr w1) (box_path a "cur" f) (NFile i) ltac:(done) Hpar Hi1) as Hnode. by rewrite Hnode. }
  cbn beta iota. cbn [fst snd]. assert (evo (move_area f g) (tr w) (tr w2)) as Hev.
  { etrans; [eapply evo_mono; [|exact Hev1]; intros q <-; by right|].
    eapply evo_mono; [|apply evo_delete; by rewrite Hi1]. intros q <-. by left. }
  rewrite run_bind, live_syncDir; try done; [|by rewrite inbox_dir_plain..|by eapply dirs_upto_evo].
  destruct (run_ro e (syncDir r (inbox_dir a "cur")) w2) as [Ht3 Hc3]; [auto with amq|].
  eexists _, _. split; [reflexivity|]. cbn [run snd]. rewrite Ht3. split; [|done]. eapply ctl_eq_trans; [exact Hc1|]. exact Hc3.
Qed.

(** The name of the envelope that is made when the random bytes are read by the [n]-th call. *)
Definition name_at (n : nat) : string := dlq_id (e_clock e (S n)) (e_pid e (S (S n))) (e_random e n 6) +:+ ".md".

Lemma live_GenerateDLQID w : run e GenerateDLQID w =
  ((dlq_id (e_clock e (S (tick w))) (e_pid e (S (S (tick w)))) (e_random e (tick w) 6), None), bump (bump (bump w))).
Proof. unfold GenerateDLQID. rewrite run_bind, run_sys. cbn [exec fst snd]. unfold obs. rewrite Hnf. reflexivity. Qed.

Lemma live_moveInbox src f oid reason detail d w :
  attached e r w -> dlq_ready a (tr w) -> ValidateMessageFilename f = None ->
  forallb utf8_valid [oid; f; reason; detail; src] = true ->
  dirs_upto (tr w) (inbox_dir a "cur") -> content (tr w) (box_path a "cur" f) = Some d ->
  (forall n, (tick w <= n)%nat -> dents (tr w) !! dlq_path a "new" (name_at n) = None) ->
  exists p n w', run e (moveInboxMessageToDLQ r a "cur" src f oid reason detail) w = ((p, None), w') /\
    ctl_eq w w' /\ (tick w <= n < tick w')%nat /\ evo (move_area f (name_at n)) (tr w) (tr w').
Proof.
  intros Hatt Hr Hf Hu Hdc Hcur Hfresh. unfold moveInboxMessageToDLQ. rewrite Hf. cbn [inboxSourceDir].
  change (inboxSourceDir a "cur") with (@inl path gerr (inbox_dir a "cur")). cbv beta iota.
  rewrite inbox_file_plain by (done || by apply filename_plain). destruct (content_file _ _ _ Hcur) as (i & Hi & Hd).
  assert (readable e r (box_path a "cur" f) i d w) as Hrd by (split; try done; by apply box_path_parent).
  pose proof (ReceiptFacts.run_tick e (ReadRegularNoFollow r (box_path a "cur" f)) w) as Hk1.
  pose proof (live_ReadRegular e Hnf r Hat (box_path a "cur" f) ltac:(done) i d w Hrd) as Hl1.
  destruct (run_ro e (ReadRegularNoFollow r (box_path a "cur" f)) w) as [Ht1 Hc1]; [auto with amq|]. rewrite run_bind.
  destruct (run e (ReadRegularNoFollow r (box_path a "cur" f)) w) as [x w1]. cbn [fst snd] in *. subst x. cbn beta iota.
  rewrite run_bind, live_GenerateDLQID. cbn beta iota. cbn [fst snd].
  rewrite run_mbind, run_sys. cbn [exec fst snd]. set (n := tick w1) in *.
  set (w2 := bump (bump (bump (bump w1)))). assert (tr w2 = tr w) as Ht2 by done. assert (ctl_eq w w2) as Hc2 by done.
  assert (tick w2 = n + 4)%nat as Hk2 by (cbn; lia). set (id := dlq_id _ _ _).
  edestruct (fresh_envelope id oid f reason detail) as (data & -> & _); [|exact Hu|].
  { eapply str_forallb_impl; [apply id_char_ascii|apply dlq_id_chars]. }
  destruct (live_dlq_transition f id data i w2) as (p & w3 & Hrun & Hc3 & Hev); rewrite ?Ht2; try done.
  { by eapply attached_ctl. } { apply dlq_name_valid. } { by apply (Hfresh n). }
  pose proof (ReceiptFacts.run_tick e (dlq_transition r a (inbox_dir a "cur") f id data) w2) as Hk3.
  rewrite Hrun in Hk3. cbn [snd] in Hk3. exists p, n, w3. split; [exact Hrun|]. split; [by eapply ctl_eq_trans|].
  split; [lia|]. by rewrite <-Ht2.
Qed.

End live.
