(* ===== verification/DrainLive.v ===== *)
(** Draining without failures: every message is taken.  internal/cli/inbox_collect.go. *)
From S2P Require Import Prelude GoStr GoSort GoTime GoPath Json JsonFacts JsonStruct JsonUtf8 TimeParse GoErr Fs Wp FsFacts Names DeliveryRoot DeliveryRootFacts Sample AmbientFacts Maildir Delivery Claim AtomicFacts Dlq DeadLetter DlqLive Retry Validate ValidateFacts Drain DrainLoop Draining.
From S2P Require Encode Format Receipt ReceiptFacts MessageFormat.

(** ** Reading *)

Section read.
Context (e : env) (Hnf : healthy e) (r : DeliveryRoot) (Hat : dr_at r = []).
Context (p : path) (Hp : p <> []) (i : ino) (d : string).
Abbreviation readable := (readable e r p i d).

Lemma live_read_message h body w : readable w -> text_reads true d h body ->
  (run e (read_message r p) w).1 = Parsed h body.
Proof.
  intros Hr Ht. assert (Z.ltb Format.MaxMessageSize (Z.of_nat (String.length d)) = false) as Hsz.
  { unfold text_reads, Format.ParseMessage, Format.splitFrontmatter in Ht. by destruct (Z.ltb _ _). }
  unfold read_message. assert ((run e (Stat r p) w).1 = (Some (Info KFile i 384 (String.length d)), None)) as Hst.
  { unfold Stat. rewrite rp_root by done. edestruct @live_verified as (w1 & -> & Hr1); [exact Hr|]. cbn beta iota. live.
    unfold t_stat. cbn [t_follow]. rewrite (readable_node e r p Hp i d w1 Hr1). cbn. unfold node_info, file_size. by rewrite (rd_data _ _ _ _ _ w1 Hr1). }
  destruct (live_step e r p i d (Stat r p) _ w ltac:(auto with amq) Hst Hr) as (w1 & E1 & Hr1).
  rewrite run_bind, E1. cbn [fst snd i_size]. rewrite Hsz.
  rewrite run_bind, (live_ReadRegular e Hnf r Hat p Hp i d w1 Hr1), Hsz.
  unfold text_reads in Ht. by rewrite Ht.
Qed.

Lemma live_read_header h body w : readable w -> text_reads false d h body ->
  (run e (read_header r p) w).1 = Parsed h body.
Proof.
  intros Hr [Ht ->]. unfold read_header.
  destruct (live_step e r p i d (OpenRegularNoFollow r p) _ w ltac:(auto with amq) (live_Open e Hnf r Hat p Hp i d w Hr) Hr) as (w2 & E2 & Hr2).
  rewrite run_mbind, E2. live. rewrite (rd_data _ _ _ _ _ w2 Hr2). by rewrite Ht.
Qed.

End read.

(** ** A round *)

(** A text that is read as a message with a header that the validator accepts. *)
Definition acceptable (b : bool) (v : headerValidator) (d : string) : Prop :=
  exists h body, text_reads b d h body /\ validate v h = None.

Section round.
Context `{SortSlice} (e : env) (Hnf : healthy e) (Hids : forall n m, n <> m -> name_at e n <> name_at e m).
Context (r : DeliveryRoot) (Hat : dr_at r = []) (me : string) (Hme : ValidateHandle me = None).
Context (Error : gerr -> string) (Herr : error_texts Error) (b : bool) (v : headerValidator).

(** A file that can be claimed, whatever is in it. *)
Definition claimable (t : tree) (f : string) : Prop :=
  ValidateMessageFilename f = None /\ utf8_valid f = true /\ dents t !! box_path me "cur" f = None /\
  is_Some (content t (box_path me "new" f)).

(** A mailbox in which every round can do its work: the directories are there, no temporary is
    left in the dead-letter queue, and the names of the envelopes to come are free in it. *)
Record ready (w : world) : Prop := {
  ry_attached : attached e r w;
  ry_new : dirs_upto (tr w) (inbox_dir me "new");
  ry_cur : dirs_upto (tr w) (inbox_dir me "cur");
  ry_dlq : dlq_ready me (tr w);
  ry_fresh : forall n, (tick w <= n)%nat -> dents (tr w) !! dlq_path me "new" (name_at e n) = None;
}.

Lemma ready_evo (X : path -> Prop) w w' : ctl_eq w w' -> (tick w <= tick w')%nat -> evo X (tr w) (tr w') ->
  (forall name, HasPrefix name "." = true -> ~ X (dlq_path me "tmp" name)) ->
  (forall n, (tick w' <= n)%nat -> ~ X (dlq_path me "new" (name_at e n))) -> ready w -> ready w'.
Proof.
  intros Hc Hk Hev Htmp Hnew [Ha Hn Hcu [Hqt Hqn Hcl] Hfr].
  split; [by eapply attached_ctl|by eapply dirs_upto_evo..|split; [by eapply dirs_upto_evo..|]|].
  - intros name Hname. rewrite <-(Hcl name Hname). apply (evo_deep _ _ _ _ Hev); [by apply Htmp|apply dlq_path_depth].
  - intros n Hle. rewrite <-(Hfr n) by lia. apply (evo_deep _ _ _ _ Hev); [by apply Hnew|apply dlq_path_depth].
Qed.

Lemma ready_boxes f w w' : ctl_eq w w' -> (tick w <= tick w')%nat ->
  evo (fun p => p = box_path me "new" f \/ p = box_path me "cur" f) (tr w) (tr w') -> ready w -> ready w'.
Proof.
  intros Hc Hk Hev. eapply ready_evo; [done|done|exact Hev|..]; intros ? _ [E|E]; unfold box_path, dlq_path in E; congruence.
Qed.

Lemma ready_same w w' : ctl_eq w w' -> (tick w <= tick w')%nat -> tr w' = tr w -> ready w -> ready w'.
Proof. intros Hc Hk Ht. apply (ready_evo (fun _ => False)); try done; [by rewrite Ht|tauto|tauto]. Qed.

Lemma ready_moved f n w w' : ctl_eq w w' -> (tick w <= n < tick w')%nat ->
  evo (move_area me f (name_at e n)) (tr w) (tr w') -> ready w -> ready w'.
Proof.
  intros Hc Hk Hev. eapply ready_evo; [done|lia|exact Hev|..].
  - intros name _ [E|E]; unfold box_path, dlq_path in E; congruence.
  - intros m Hm [E|E]; [unfold box_path, dlq_path in E; congruence|]. assert (m <> n) as Hne by lia.
    apply (Hids m n Hne). unfold dlq_path in E. congruence.
Qed.

(** A receipt is written, or not. *)
Lemma live_receipt {A} item stage detail (x : A) w : usable_id (ID item) -> str_mem slash stage = false -> ready w ->
  exists w', run e (_ ← emitReceipt r me item stage detail; Ret x) w = (x, w') /\ ready w'.
Proof.
  intros Hid Hst Hr. rewrite run_mbind. eexists. split; [reflexivity|]. cbn [run snd].
  pose proof (wpi_run e _ _ _ _ (wpi_emitReceipt e r Hat me Hme (fun _ => True) item stage detail w Hid Hst
    (fun _ _ => Logic.I))) as [Hev Hc].
  eapply ready_evo; [exact Hc|apply ReceiptFacts.run_tick|exact Hev| | |exact Hr]; unfold receipt_area.
  - intros name _ [[_ E]|[m E]]; unfold dlq_path, receipt_at in E; cbn in E; congruence.
  - intros n _ [[_ E]|[m E]]; unfold dlq_path, receipt_at in E; cbn in E; congruence.
Qed.

(** The message that cannot be parsed goes to the queue. *)
Lemma live_unreadable f d item items w : ready w -> ValidateMessageFilename f = None -> utf8_valid f = true ->
  item_fit f item -> content (tr w) (box_path me "cur" f) = Some d ->
  exists w', run e (drain_unreadable r me None false item items) w = ((items ++ [set_moved (MovedToCur item) true item], None), w') /\ ready w'.
Proof.
  intros Hr Hf Hu [Hfile Hid Het Hrt Hmc Hmd] Hd. unfold drain_unreadable. rewrite Hfile.
  set (reason := if bool_decide (FailureReason item = "") then "parse_error" else FailureReason item).
  assert (utf8_valid reason = true) as Hreason by (unfold reason; by case_bool_decide).
  rewrite run_mbind. unfold MoveCurToDLQ. pose proof (handle_plain me Hme) as Hpm. pose proof Hr as [H1 H2 H3 H4 H5].
  destruct (live_moveInbox e Hnf r Hat me Hpm "cur" f (ID item) reason (ParseError item) d w) as (p & n & w1 & -> & Hc & Hk & Hev); try done.
  { cbn [forallb]. rewrite Hu, Het, Hreason. by destruct Hid as (_ & _ & _ & ->). }
  cbn [fst snd]. apply live_receipt; [done|done|]. by eapply ready_moved.
Qed.

(** A claimed file is taken or goes to the queue. *)
Lemma live_drain_claimed f d items w : ready w -> ValidateMessageFilename f = None -> utf8_valid f = true ->
  content (tr w) (box_path me "cur" f) = Some d ->
  exists i w', run e (drain_claimed Error r me b v None false f items) w = ((items ++ [i], None), w') /\
    Filename i = f /\ (MovedToCur i = true \/ MovedToDLQ i = true) /\ (acceptable b v d -> MovedToCur i = true) /\ ready w'.
Proof.
  intros Hr Hf Hu Hd. pose proof (handle_plain me Hme) as Hpm. pose proof (filename_plain f Hf) as Hpf.
  unfold drain_claimed, readInboxItem. rewrite Join_plain by (repeat constructor; done).
  change ["agents"; me; "inbox"; "cur"; f] with (box_path me "cur" f). rewrite !run_mbind.
  set (rd := if b then read_message r (box_path me "cur" f) else read_header r (box_path me "cur" f)).
  destruct (content_file _ _ _ Hd) as (i & Hi & Hdi).
  assert (readable e r (box_path me "cur" f) i d w) as Hrd.
  { destruct Hr. split; try done. by apply box_path_parent. }
  assert (forall h body, text_reads b d h body -> (run e rd w).1 = Parsed h body) as Hlive.
  { intros h body Htx. unfold rd. destruct b; [by eapply live_read_message|by eapply live_read_header]. }
  assert (ro rd) as Hro by (unfold rd; destruct b; apply ro_reading). destruct (run_ro e rd w Hro) as [Ht1 Hc1].
  pose proof (ReceiptFacts.run_tick e rd w) as Hk1.
  assert (forall h body, (run e rd w).1 = Parsed h body -> text_reads b d h body) as Hsafe.
  { intros h body E. unfold rd in E.
    assert (exists d', content (tr w) (box_path me "cur" f) = Some d' /\ text_reads b d' h body) as (d' & Hd' & Htx); [|congruence].
    destruct b.
    - pose proof (wpi_run e _ _ _ _ (wpi_read_message e r Hat (fun _ => True) (box_path me "cur" f) w Logic.I)) as (_ & _ & Hx). by apply Hx.
    - pose proof (wpi_run e _ _ _ _ (wpi_read_header e r Hat (fun _ => True) (box_path me "cur" f) w Logic.I)) as (_ & _ & Hx). by apply Hx. }
  destruct (run e rd w) as [x w1]. cbn [fst snd] in *. cbn [run fst snd].
  pose proof (ready_same w w1 Hc1 Hk1 Ht1 Hr) as Hr1.
  assert (item_fit f (claimed_item Error b v f x)) as Hfit.
  { apply claimed_item_fit; try done. intros h body ->. by eapply text_reads_id, Hsafe. }
  pose proof (claimed_item_ok Error Herr b v f x) as Hok.
  change (match item_of Error b v x (blank_item f) with (item, Some err) => _ | (item, None) => _ end)
    with (claimed_item Error b v f x).
  assert (acceptable b v d -> ParseError (claimed_item Error b v f x) = "") as Hacc.
  { intros (h & body & Htx & Hval). rewrite (Hlive h body Htx). unfold claimed_item, item_of. by rewrite Hval. }
  generalize dependent (claimed_item Error b v f x). intros item Hfit Hok Hacc.
  case_bool_decide as Hpe; cbn [negb].
  - destruct (live_receipt (set_moved true (MovedToDLQ item) item) Receipt.StageDrained "" (items ++ [set_moved true (MovedToDLQ item) item], None : option (option gerr)) w1)
      as (w2 & Hrun & Hr2); [apply Hfit|done|done|].
    eexists _, w2. split; [exact Hrun|]. split; [apply Hfit|]. split; [by left|]. done.
  - destruct (live_unreadable f d item items w1) as (w2 & Hrun & Hr2); try done; [by rewrite Ht1|].
    eexists _, w2. split; [exact Hrun|]. split; [apply Hfit|]. split; [by right|]. split; [by intros ?%Hacc|done].
Qed.

Lemma live_drain_one f items w : ready w -> claimable (tr w) f ->
  exists i w', run e (drain_one Error r me b v None f items) w = ((items ++ [i], None), w') /\
    Filename i = f /\ (MovedToCur i = true \/ MovedToDLQ i = true) /\
    (forall d, content (tr w) (box_path me "new" f) = Some d -> acceptable b v d -> MovedToCur i = true) /\ ready w'.
Proof.
  intros Hr (Hf & Hu & Hcn & d & Hd). pose proof Hr as [Hatt Hdn Hdc _ _]. destruct (content_file _ _ _ Hd) as (j & Hj & Hdj).
  pose proof (live_MoveNewToCur e r me f j w Hnf Hatt Hat Hme Hf Hdn Hdc Hj Hcn) as Hmv.
  pose proof (wpi_run e _ _ _ _ (wpi_MoveNewToCur e r Hat me f w)) as [Hc1 Hcl].
  pose proof (ReceiptFacts.run_tick e (MoveNewToCur r me f) w) as Hk1.
  unfold drain_one. rewrite run_mbind.
  destruct (run e (MoveNewToCur r me f) w) as [o w1]. cbn [fst snd] in Hmv, Hc1, Hcl, Hk1 |- *. subst o.
  destruct (phase2_claimed me f _ _ _ Hj ltac:(done) Hcl) as (_ & _ & _ & Hcur).
  assert (ready w1) as Hr1.
  { destruct Hcl as (_ & _ & _ & _ & _ & _ & H6). destruct (H6 _ Hj ltac:(done)) as [Hev _]. by eapply ready_boxes. }
  rewrite run_mbind. cbn [run fst snd].
  destruct (live_drain_claimed f d items w1 Hr1 Hf Hu (Hcur d Hd)) as (i & w2 & Hrun & Hi & Hm & Hacc & Hr2).
  exists i, w2. split; [exact Hrun|]. split; [done|]. split; [done|]. split; [|done]. intros d' Hd'. by simplify_eq.
Qed.

(** ** The loop *)

Lemma claimable_after f f' t t' : f <> f' -> round_evo me f t t' -> claimable t f' ->
  claimable t' f' /\ content t' (box_path me "new" f') = content t (box_path me "new" f').
Proof.
  intros Hne Hev (Hf & Hu & Hc & d & Hd). pose proof (filename_not_hidden f' Hf) as Hv.
  assert (content t' (box_path me "new" f') = Some d) as Hd' by (by eapply round_other_box).
  split; [|congruence]. split; [done|]. split; [done|]. split; [by rewrite (round_other_dents me f f' "cur" t t')|].
  by exists d.
Qed.

Lemma live_drain_each limit rest : (limit <= 0)%Z -> forall items w,
  ready w -> NoDup rest -> (forall f, f ∈ rest -> claimable (tr w) f) ->
  exists items' w', run e (drain_each Error r me b limit v None rest items) w = ((items', None), w') /\
    (forall i, i ∈ items -> i ∈ items') /\
    forall f, f ∈ rest -> exists i, i ∈ items' /\ Filename i = f /\ (MovedToCur i = true \/ MovedToDLQ i = true) /\
      forall d, content (tr w) (box_path me "new" f) = Some d -> acceptable b v d -> MovedToCur i = true.
Proof.
  intros Hlim. induction rest as [|f rest IH]; intros items w Hr Hnd Hall; cbn [drain_each].
  { eexists _, _. split; [reflexivity|]. split; [|by intros f ?%elem_of_nil].
    intros i Hi. cbn. unfold Format.SortByTimestamp. by rewrite sort_slice_perm. }
  rewrite (proj2 (Z.ltb_ge 0 limit)) by done. cbn [andb]. rewrite run_mbind. apply NoDup_cons in Hnd as [Hf Hnd].
  pose proof (Hall f ltac:(by left)) as Hdr. destruct (live_drain_one f items w Hr Hdr) as (i & w1 & Hrun & Hi & Hm & Hacc & Hr1).
  destruct Hdr as (_ & Hu & _ & d & Hd). destruct (content_file _ _ _ Hd) as (j & Hj & _).
  pose proof (wpi_run e _ _ _ _ (wpi_drain_one e r Hat me Hme Error Herr b v f _ items w Hj ltac:(done) Hu)) as [Hri _].
  rewrite Hrun in Hri |- *. cbn [fst snd] in Hri |- *. pose proof (ri_evo _ _ _ _ Hri) as Hev.
  assert (forall f', f' ∈ rest -> claimable (tr w1) f' /\
    content (tr w1) (box_path me "new" f') = content (tr w) (box_path me "new" f')) as Hrest.
  { intros f' Hf'. apply (claimable_after f); [by intros ->|done|]. apply Hall. by right. }
  destruct (IH (items ++ [i]) w1) as (items' & w' & Hrun' & Hkeep & Hgot); [done|done|intros f' Hf'; by apply Hrest|].
  exists items', w'. split; [done|]. split.
  - intros i' Hi'. apply Hkeep, elem_of_app. by left.
  - intros f' [->|Hf']%elem_of_cons.
    + exists i. split; [apply Hkeep, elem_of_app; right; by left|]. done.
    + destruct (Hrest f' Hf') as [_ <-]. by apply Hgot.
Qed.

End round.

(** ** Listing *)

Lemma ro_collectInboxFilenames r me : ro (collectInboxFilenames r me).
Proof. unfold collectInboxFilenames. ro_tac; repeat case_match; ro_tac. Qed.

Lemma live_ReadDir e r p j m w : healthy e -> dr_at r = [] -> attached e r w -> t_node (tr w) p = Ok (NDir j m) ->
  (run e (ReadDir r p) w).1.2 = None.
Proof.
  intros Hnf Hat Hatt Hn. unfold ReadDir. rewrite rp_root by done.
  rewrite run_bind, (live_VerifyBase e r w Hatt). cbn beta iota.
  destruct (run_ro e (VerifyBase r) w) as [Ht1 _]; [auto with amq|].
  generalize dependent (run e (VerifyBase r) w).2. intros w1 Ht1. rewrite <-Ht1 in Hn.
  live. unfold t_open, t_follow. rewrite Hn. live. rewrite bool_decide_eq_true_2 by done. cbn [negb]. by live.
Qed.

Lemma live_collectInboxFilenames e r me w :
  healthy e -> dr_at r = [] -> attached e r w -> plain me = true ->
  dirs_upto (tr w) (inbox_dir me "new") -> is_dir (tr w) ["agents"; me; "inbox"; "new"] ->
  exists fs w', run e (collectInboxFilenames r me) w = ((fs, None), w') /\ tr w' = tr w /\ ctl_eq w w' /\
    NoDup fs /\ forall f, f ∈ fs <-> listable me (tr w) f.
Proof.
  intros Hnf Hat Hatt Hme Hdn Hdir.
  destruct (run_ro e (collectInboxFilenames r me) w (ro_collectInboxFilenames r me)) as [Ht Hc].
  pose proof (wpi_run e _ _ _ _ (wpi_collectInboxFilenames e r Hat me Hme (fun _ => True) w Hdir Logic.I)) as [_ Hfs].
  assert ((run e (collectInboxFilenames r me) w).1.2 = None) as Hnone.
  { unfold collectInboxFilenames. change (Join _) with (inbox_dir me "new"). rewrite inbox_dir_plain in * by done.
    destruct (dirs_upto_node _ _ (ltac:(done) : ["agents"; me; "inbox"; "new"] <> []) ltac:(done) Hdn) as (j & m & Hn).
    pose proof (live_ReadDir e r _ j m w Hnf Hat Hatt Hn) as Hl. rewrite run_bind.
    by destruct (run e (ReadDir r _) w) as [[l [x|]] w1]. }
  destruct (run e (collectInboxFilenames r me) w) as [[fs o] w1]. cbn [fst snd] in *. subst o.
  exists fs, w1. split; [done|]. split; [done|]. split; [done|]. by apply Hfs.
Qed.

(** The whole drain. *)
Lemma live_drainInboxItems `{SortSlice} Error e r me b v w :
  healthy e -> (forall n m, n <> m -> name_at e n <> name_at e m) ->
  error_texts Error -> dr_at r = [] -> ValidateHandle me = None -> ready e r me w ->
  is_dir (tr w) ["agents"; me; "inbox"; "new"] ->
  (forall f, listable me (tr w) f -> claimable me (tr w) f) ->
  exists items w', run e (drainInboxItems Error r me b 0 v) w = ((items, None), w') /\
    forall f, listable me (tr w) f -> exists i, i ∈ items /\ Filename i = f /\
      (MovedToCur i = true \/ MovedToDLQ i = true) /\
      forall d, content (tr w) (box_path me "new" f) = Some d -> acceptable b v d -> MovedToCur i = true.
Proof.
  intros Hnf Hids Herr Hat Hme Hrd Hdir Hall. pose proof Hrd as [Hatt Hdn Hdc Hdq Hfr].
  unfold drainInboxItems, drainInboxItemsWithClaimHook, WithPinnedBatch.
  rewrite run_bind, (live_VerifyBase e r w Hatt). cbn beta iota.
  pose proof (ReceiptFacts.run_tick e (VerifyBase r) w) as Hk1.
  destruct (run_ro e (VerifyBase r) w) as [Ht1 _]; [auto with amq|].
  generalize dependent (run e (VerifyBase r) w).2. intros w1 Hk1 Ht1.
  rewrite run_mbind, run_sys. cbn [exec fst snd]. set (w2 := World _ _ _ _ _).
  set (r' := MkRoot _ _ _ _ _ _). assert (dr_at r' = []) as Hat' by done.
  assert (attached e r' w2) as Hatt' by (split; [done|cbn; set_solver]). assert (tr w2 = tr w) as Ht2 by done.
  assert (tick w <= tick w2)%nat as Hk2 by (cbn; lia).
  clearbody r' w2. rewrite run_mbind. unfold drainInboxItemsPinned. rewrite run_bind.
  pose proof (ReceiptFacts.run_tick e (collectInboxFilenames r' me) w2) as Hk3.
  destruct (live_collectInboxFilenames e r' me w2) as (fs & w3 & E3 & Ht3 & Hc3 & Hnd & Hfs);
    rewrite ?Ht2; try done; [by apply handle_plain|]. rewrite E3 in Hk3 |- *. cbn [fst snd] in Hk3 |- *. rewrite Ht2 in Ht3, Hfs.
  destruct (live_drain_each e Hnf Hids r' Hat' me Hme Error Herr b v 0 fs ltac:(lia) [] w3) as (items & w4 & -> & _ & Hgot).
  - split; rewrite ?Ht3; try done; [by eapply attached_ctl|]. intros n Hn. apply Hfr. lia.
  - done.
  - intros f Hf%Hfs. rewrite Ht3. by apply Hall.
  - rewrite Ht3 in Hgot. rewrite run_mbind. cbn [run fst snd]. eexists items, _. split; [reflexivity|]. intros f Hf%Hfs. by apply Hgot.
Qed.

(** C7: Draining takes everything.  When no call fails, the directories of the inbox and of the
    dead-letter queue are there, no dot file is left in dlq/tmp, the environment gives envelopes
    names that are not taken (different ones at different calls, and none that is in dlq/new
    already), and every message file in inbox/new is a regular file with a valid name that is
    free in inbox/cur, then a drain without a limit ends without error whatever the files
    contain, and all of them are gone from inbox/new.  Each has its item: a message that can be
    read and whose header the validator accepts is in inbox/cur, and its item says so and has
    the fields of its header; any other is in an envelope of the dead-letter queue and no longer
    in inbox/cur, and its item says so. *)
Theorem drain_complete `{SortSlice} Error e r me b v w :
  healthy e -> (forall n m, n <> m -> name_at e n <> name_at e m) ->
  error_texts Error -> dr_at r = [] -> ValidateHandle me = None -> sound_inbox me (tr w) -> ready e r me w ->
  (forall f, listable me (tr w) f -> claimable me (tr w) f) ->
  exists items w', run e (drainInboxItems Error r me b 0 v) w = ((items, None), w') /\
    forall f d, listable me (tr w) f -> content (tr w) (box_path me "new" f) = Some d ->
      dents (tr w') !! box_path me "new" f = None /\
      exists i, i ∈ items /\ Filename i = f /\
        ((exists h body, text_reads b d h body /\ validate v h = None /\ content (tr w') (box_path me "cur" f) = Some d /\
            i = set_moved true false (accepted_item b h body (blank_item f))) \/
         (~ acceptable b v d /\ MovedToDLQ i = true /\ dents (tr w') !! box_path me "cur" f = None /\
            exists g, enveloped_at me f d g (tr w'))).
Proof.
  intros Hnf Hids Herr Hat Hme Hs Hrd Hall. pose proof Hs as [Hdir Hutf].
  destruct (live_drainInboxItems Error e r me b v w) as (items & w' & Hrun & Hgot); try done.
  exists items, w'. split; [done|]. intros f d Hf Hd.
  pose proof (wpi_run e _ _ _ _ (wpi_drainInboxItems e r Hat me Hme Error Herr b 0 v w Hdir Hutf)) as (fs & _ & Hac).
  rewrite Hrun in Hac. destruct (Hgot f Hf) as (i & Hi & <- & Hm & Hacc). specialize (Hacc d Hd).
  destruct (ac_items _ _ _ _ _ _ _ _ Hac i Hi) as (_ & Hg & Hr). split; [done|]. exists i. split; [done|]. split; [done|].
  destruct (Hr d Hd) as [(_ & Hcur & h & body & Htx & Hval & Ei)|(Hm' & _ & Hq)]; [left; by exists h, body|right].
  destruct Hm as [?|Hm]; [congruence|]. rewrite Hm in Hq. split; [|done]. intros ?%Hacc. congruence.
Qed.

(** Envelopes made at different times have different names. *)
Lemma dlq_id_time c1 c2 p1 p2 b1 b2 s1 s2 : dlq_id c1 p1 b1 +:+ s1 = dlq_id c2 p2 b2 +:+ s2 -> c1 = c2.
Proof.
  unfold dlq_id. rewrite !string_app_assoc. intros E.
  apply (inj (String.app "dlq_")), (Encode.sep_inj (chr 95)) in E as [E _]; [by apply (inj pretty.pretty) in E|..];
    (apply numeral_no_char; [done|apply itoa_numeral]).
Qed.

Lemma quiet_names n m : n <> m -> name_at quiet_env n <> name_at quiet_env m.
Proof. intros Hne E%dlq_id_time. cbn in E. lia. Qed.

(** The files of the sample inbox: a message and one that is none. *)
Definition only_sample (p : path) : bool :=
  match p with ["agents"; "bob"; "inbox"; "new"; f] => bool_decide (f = "id-1.md") || bool_decide (f = "bad.md") | _ => true end.

Lemma drain_world_only f n : dents (tr drain_world) !! box_path "bob" "new" f = Some n -> f = "id-1.md" \/ f = "bad.md".
Proof.
  intros Hn. pose proof (all_paths (tr drain_world) only_sample _ n ltac:(vm_compute; reflexivity) Hn) as H.
  apply orb_true_iff in H as [H|H]; [left|right]; exact (bool_decide_eq_true_1 _ H).
Qed.

Lemma drain_world_ready : ready quiet_env sample_root "bob" drain_world.
Proof.
  split.
  - split; [reflexivity|]. intros n. exists base_info. split; reflexivity.
  - apply dirs_uptob_spec. vm_compute. reflexivity.
  - apply dirs_uptob_spec. vm_compute. reflexivity.
  - split; [apply dirs_uptob_spec; vm_compute; reflexivity..|].
    intros name Hname. by apply no_hiddenb_spec; [vm_compute; reflexivity|].
  - intros n _. destruct (dents (tr drain_world) !! _) as [k|] eqn:E; [|done]. exfalso.
    pose proof (all_paths (tr drain_world) (fun p => match p with ["agents"; _; "dlq"; "new"; _] => false | _ => true end) _ k
      ltac:(vm_compute; reflexivity) E) as H. discriminate H.
Qed.

Lemma drain_complete_witness :
  exists items w', run quiet_env (drainInboxItems sample_error sample_root "bob" true 0 lenient) drain_world = ((items, None), w') /\
    content (tr w') (box_path "bob" "cur" "id-1.md") = content (tr drain_world) (box_path "bob" "new" "id-1.md") /\
    exists g, enveloped_at "bob" "bad.md" "no front matter" g (tr w').
Proof.
  destruct (drain_complete sample_error quiet_env sample_root "bob" true lenient drain_world) as (items & w' & Hrun & H).
  - intros n. reflexivity.
  - apply quiet_names.
  - apply sample_error_texts.
  - reflexivity.
  - vm_compute. reflexivity.
  - apply drain_world_sound.
  - apply drain_world_ready.
  - intros f (_ & _ & n & Hn & _). apply drain_world_only in Hn as [-> | ->]; (split; [vm_compute; reflexivity|]);
      (split; [vm_compute; reflexivity|]); (split; [vm_compute; reflexivity|]); vm_compute; by eexists.
  - exists items, w'. split; [exact Hrun|]. split.
    + destruct (content (tr drain_world) (box_path "bob" "new" "id-1.md")) as [d|] eqn:E; [|vm_compute in E; discriminate E].
      destruct (H "id-1.md" d) as (_ & i & _ & _ & [(h & body & _ & _ & Hc & _)|(Hn & _)]); [|exact E|exact Hc|].
      * split; [reflexivity|]. split; [reflexivity|]. exists (NFile 0). split; [vm_compute; reflexivity|discriminate].
      * destruct Hn. exists (MessageFormat.stored (Format.set_defaults 0 MessageFormat.sample_header)), ("hello" +:+ LF).
        vm_compute in E. injection E as <-. split; vm_compute; reflexivity.
    + destruct (H "bad.md" "no front matter") as (_ & i & _ & _ & [(h & body & Hr & _)|(_ & _ & _ & Hg)]); [| | |exact Hg].
      * split; [reflexivity|]. split; [reflexivity|]. exists (NFile 1). split; [vm_compute; reflexivity|discriminate].
      * vm_compute. reflexivity.
      * vm_compute in Hr. discriminate Hr.
Defined.
