(* ===== verification/Presence.v ===== *)
(** The presence of an agent: internal/presence/presence.go. *)
From stdpp Require Import pretty.
From S2P Require Import Prelude GoStr GoTime GoPath Json JsonFacts JsonStruct GoErr Fs Wp FsFacts Names DeliveryRoot DeliveryRootFacts Sample Delivery AtomicFacts Retry JsonUtf8 DrainLoop.
From S2P Require Ambient ReceiptFacts.

(** ** A uint in JSON *)

Definition uint_range (n : N) : bool := N.ltb n 18446744073709551616.

(** [strconv.ParseUint(lit, 10, 64)]. *)
Definition ParseUint (lit : string) : option N :=
  match lit with
  | "" => None
  | _ => z ← digits_val 0 lit; if uint_range (Z.to_N z) then Some (Z.to_N z) else None
  end.

#[global] Instance json_uint : JsonField N := {|
  to_json n := JNum (itoa (Z.of_N n));
  from_json old j := match j with JNum l => ParseUint l | JNull => Some old | _ => None end;
|}.

Lemma ParseUint_itoa n : uint_range n = true -> ParseUint (itoa (Z.of_N n)) = Some n.
Proof.
  intros Hn. destruct (digits_val_pretty n) as (c & r & E & _ & Hv). unfold ParseUint, itoa.
  assert (pretty (Z.of_N n) = pretty n) as -> by (by destruct n). rewrite Hv, E. cbn [mbind option_bind].
  by rewrite N2Z.id, Hn.
Qed.

#[global] Program Instance json_uint_law : JsonFieldLaw N := {| good := uint_range |}.
Next Obligation. intros. apply itoa_number. Qed.
Next Obligation. intros. by apply ParseUint_itoa. Qed.

(** ** The record *)

Record Presence := MkPresence {
  Schema : Z; Handle : string; Status : string; LastSeen : string; Note : string; NotifierStatus : string;
  NotifierMode : string; NotifierReason : string; DoorbellParked : bool; DoorbellAttempts : N }.

Definition New (handle status note : string) (now : Z) : Presence :=
  MkPresence 1 handle status (Format_RFC3339Nano now) note "" "" "" false 0.

Definition zero_presence : Presence := MkPresence 0 "" "" "" "" "" "" "" false 0.

Definition presence_fields : list string :=
  ["schema"; "handle"; "status"; "last_seen"; "note"; "notifier_status"; "notifier_mode"; "notifier_reason";
   "doorbell_parked"; "doorbell_attempts"].

Definition presence_json (p : Presence) : json :=
  JObj ([("schema", to_json (Schema p)); ("handle", to_json (Handle p)); ("status", to_json (Status p));
         ("last_seen", to_json (LastSeen p))] ++
        opt_member "note" (to_json (Note p)) (bool_decide (Note p = "")) ++
        opt_member "notifier_status" (to_json (NotifierStatus p)) (bool_decide (NotifierStatus p = "")) ++
        opt_member "notifier_mode" (to_json (NotifierMode p)) (bool_decide (NotifierMode p = "")) ++
        opt_member "notifier_reason" (to_json (NotifierReason p)) (bool_decide (NotifierReason p = "")) ++
        opt_member "doorbell_parked" (to_json (DoorbellParked p)) (bool_decide (DoorbellParked p = false)) ++
        opt_member "doorbell_attempts" (to_json (DoorbellAttempts p)) (bool_decide (DoorbellAttempts p = 0%N)) ++ []).

(** json.Unmarshal into the zero Presence. *)
Definition presence_of_json (j : json) : option Presence :=
  match j with
  | JNull => Some zero_presence
  | JObj l =>
    let get {A} `{JsonField A} := @get A _ presence_fields l in
    a1 ← get "schema" 0%Z; a2 ← get "handle" ""; a3 ← get "status" ""; a4 ← get "last_seen" ""; a5 ← get "note" "";
    a6 ← get "notifier_status" ""; a7 ← get "notifier_mode" ""; a8 ← get "notifier_reason" "";
    a9 ← get "doorbell_parked" false; a10 ← get "doorbell_attempts" 0%N;
    Some (MkPresence a1 a2 a3 a4 a5 a6 a7 a8 a9 a10)
  | _ => None
  end.

Definition presence_data (p : Presence) : string := MarshalIndent (presence_json p) +:+ LF.

Definition parse_presence (data : string) : Presence + gerr :=
  match j ← Unmarshal data; presence_of_json j with
  | Some p => inl p
  | None => inr (EMsg "json")
  end.

Definition set_seen (seen : string) (p : Presence) : Presence :=
  MkPresence (Schema p) (Handle p) (Status p) seen (Note p) (NotifierStatus p) (NotifierMode p) (NotifierReason p)
    (DoorbellParked p) (DoorbellAttempts p).
Definition set_notifier (status mode reason : string) (p : Presence) : Presence :=
  MkPresence (Schema p) (Handle p) (Status p) (LastSeen p) (Note p) status mode reason (DoorbellParked p) (DoorbellAttempts p).

(** ** By path *)

Definition Write (root : path) (p : Presence) : prog (option gerr) :=
  let path := Join_under root ["agents"; Handle p; "presence.json"] in
  x ← Ambient.WriteFileAtomic (Dir path) (Base path) (presence_data p);
  Ret x.2.

Definition Read (root : path) (handle : string) : prog (Presence * option gerr) :=
  let_val data := Ambient.os_ReadFile (Join_under root ["agents"; handle; "presence.json"]) orelse e =>
    Ret (zero_presence, Some e) in
  match parse_presence data with
  | inr e => Ret (zero_presence, Some e)
  | inl p => Ret (p, None)
  end.

Definition Touch (root : path) (handle : string) : prog (option gerr) :=
  x ← Read root handle;
  match x with
  | (_, Some err) =>
    if negb (os_IsNotExist err) then Ret (Some err) else
    now ← sys SNow; Write root (New handle "active" "" now)
  | (p, None) => now ← sys SNow; Write root (set_seen (Format_RFC3339Nano now) p)
  end.

Definition SetNotifierStatus (root : path) (handle status mode reason : string) : prog (option gerr) :=
  x ← Read root handle;
  match x with
  | (_, Some err) =>
    if negb (os_IsNotExist err) then Ret (Some err) else
    now ← sys SNow;
    let p := set_notifier status mode reason (New handle "active" "" now) in
    seen ← sys SNow; Write root (set_seen (Format_RFC3339Nano seen) p)
  | (p, None) =>
    let p := set_notifier status mode reason p in
    seen ← sys SNow; Write root (set_seen (Format_RFC3339Nano seen) p)
  end.

(** ** Through a pinned root *)

Definition WriteDeliveryRoot (root : DeliveryRoot) (p : Presence) : prog (option gerr) :=
  x ← WriteFileAtomic root (Join ["agents"; Handle p]) "presence.json" (presence_data p);
  Ret x.2.

Definition TouchDeliveryRoot (root : DeliveryRoot) (handle : string) : prog (option gerr) :=
  x ← ReadFile root (Join ["agents"; handle; "presence.json"]);
  match x with
  | (_, Some err) =>
    if negb (os_IsNotExist err) then Ret (Some err) else
    now ← sys SNow; WriteDeliveryRoot root (New handle "active" "" now)
  | (data, None) =>
    match parse_presence data with
    | inr e => Ret (Some e)
    | inl p => now ← sys SNow; WriteDeliveryRoot root (set_seen (Format_RFC3339Nano now) p)
    end
  end.

(** What updating a presence guarantees: internal/presence. *)

(** ** The text *)

Record presence_text (p : Presence) : Prop := {
  pt_schema : int64_range (Schema p) = true;
  pt_handle : utf8_valid (Presence.Handle p) = true;
  pt_status : utf8_valid (Status p) = true;
  pt_seen : utf8_valid (LastSeen p) = true;
  pt_note : utf8_valid (Note p) = true;
  pt_nstatus : utf8_valid (NotifierStatus p) = true;
  pt_mode : utf8_valid (NotifierMode p) = true;
  pt_reason : utf8_valid (NotifierReason p) = true;
  pt_attempts : uint_range (DoorbellAttempts p) = true;
}.

Definition presence_members (p : Presence) : list (string * json) :=
  match presence_json p with JObj l => l | _ => [] end.

Lemma presence_json_back p : presence_text p -> presence_of_json (presence_json p) = Some p.
Proof.
  intros [].
  assert (let get {A} `{JsonField A} := @get A _ presence_fields (presence_members p) in
    get "schema" 0%Z = Some (Schema p) /\ get "handle" "" = Some (Presence.Handle p) /\ get "status" "" = Some (Status p) /\
    get "last_seen" "" = Some (LastSeen p) /\ get "note" "" = Some (Note p) /\
    get "notifier_status" "" = Some (NotifierStatus p) /\ get "notifier_mode" "" = Some (NotifierMode p) /\
    get "notifier_reason" "" = Some (NotifierReason p) /\ get "doorbell_parked" false = Some (DoorbellParked p) /\
    get "doorbell_attempts" 0%N = Some (DoorbellAttempts p)) as Hg.
  { unfold presence_members, presence_json. cbv zeta. cbn [app].
    split_and!; get_field; try done; by intros E%bool_decide_eq_true. }
  cbv zeta in Hg. change (presence_json p) with (JObj (presence_members p)). unfold presence_of_json. cbv zeta.
  destruct Hg as (-> & -> & -> & -> & -> & -> & -> & -> & -> & ->). by destruct p.
Qed.

Lemma presence_json_wf p : presence_text p -> wf_json (presence_json p) = true.
Proof.
  intros []. change (wf_members (presence_members p) = true).
  unfold presence_members, presence_json. cbn [app]. wf_fields. done.
Qed.

Lemma parse_presence_data p : presence_text p -> parse_presence (presence_data p) = inl p.
Proof.
  intros Ht. unfold parse_presence, presence_data. rewrite ReceiptFacts.Unmarshal_line by (by apply presence_json_wf).
  cbn [mbind option_bind]. by rewrite presence_json_back.
Qed.

(** Whatever a presence was read from, it can be written. *)
Lemma get_in_range {A} `{JsonField A} (P : A -> Prop) names l n (a x : A) :
  (forall old j y, P old -> from_json old j = Some y -> P y) -> P a -> get names l n a = Some x -> P x.
Proof.
  intros Hj. revert a. induction l as [|[k v] l IH]; intros a Ha; cbn; [by intros [= <-]|].
  case_bool_decide; [|by apply IH]. destruct (from_json a v) as [y|] eqn:E; [|done]. cbn. apply IH. by eapply Hj.
Qed.

Lemma parsed_text data p : parse_presence data = inl p -> presence_text p.
Proof.
  unfold parse_presence. destruct (Unmarshal data) as [j|] eqn:Ej; [|done]. apply Unmarshal_texts in Ej. cbn [mbind option_bind].
  unfold presence_of_json. destruct j as [| | | | |l]; try done; [by intros [= <-]; split|]. cbn in Ej.
  assert (forall n s, get presence_fields l n "" = Some s -> utf8_valid s = true) as Hs by (intros n s; by apply get_text).
  assert (forall n z, get presence_fields l n 0%Z = Some z -> int64_range z = true) as Hz.
  { intros n z. apply (get_in_range (fun z => int64_range z = true)); [|done]. intros old [| |x| | |] y Ho; cbn; try done.
    - by intros [= <-].
    - unfold ParseInt. destruct (match x with "" => None | _ => _ end) as [u|]; [|done]. cbn.
      destruct (int64_range u) eqn:E; [|done]. by intros [= <-]. }
  assert (forall n z, get presence_fields l n 0%N = Some z -> uint_range z = true) as Hn.
  { intros n z. apply (get_in_range (fun z => uint_range z = true)); [|done]. intros old [| |x| | |] y Ho; cbn; try done.
    - by intros [= <-].
    - unfold ParseUint. destruct x as [|c x]; [done|]. destruct (digits_val 0 _) as [u|]; [|done]. cbn [mbind option_bind].
      destruct (uint_range (Z.to_N u)) eqn:E; [|done]. by intros [= <-]. }
  cbv zeta.
  repeat match goal with |- context [get presence_fields l ?n ?a] =>
    let E := fresh "E" in destruct (get presence_fields l n a) eqn:E; [|done]; cbn [mbind option_bind] end.
  intros [= <-]. split; cbn; eauto.
Qed.

(** ** Touching *)

Definition presence_path (h : string) : path := ["agents"; h; "presence.json"].

(** The presence of [h] that is stored: none, or a file that says it is of [h]. *)
Definition stored_presence (h : string) (old : option Presence) (t : tree) : Prop :=
  match old with
  | None => dents t !! presence_path h = None
  | Some p => exists d, content t (presence_path h) = Some d /\ parse_presence d = inl p /\ Presence.Handle p = h
  end.

(** What a touch at the time [now] should make of it: every field is kept but last_seen. *)
Definition touched_at (h : string) (old : option Presence) (now : Z) : Presence :=
  match old with
  | None => New h "active" "" now
  | Some p => MkPresence (Schema p) (Presence.Handle p) (Status p) (Format_RFC3339Nano now) (Note p) (NotifierStatus p)
                (NotifierMode p) (NotifierReason p) (DoorbellParked p) (DoorbellAttempts p)
  end.

Lemma handle_text h : ValidateHandle h = None -> utf8_valid h = true.
Proof.
  intros [[_ Hc]%legacy_handle_None _]%ValidateHandle_None. apply ascii_utf8. eapply str_forallb_impl; [|exact Hc].
  intros c. destruct c as [[] [] [] [] [] [] [] []]; vm_compute; congruence.
Qed.

Lemma touched_text h old t now : ValidateHandle h = None -> stored_presence h old t ->
  presence_text (touched_at h old now) /\ Presence.Handle (touched_at h old now) = h.
Proof.
  intros Hh. pose proof (stamp_utf8 _ (Format_RFC3339Nano_stamp now)) as Hst. destruct old as [p|]; cbn.
  - intros (d & _ & Hp & <-). apply parsed_text in Hp as []. split; [by split|done].
  - intros _. pose proof (handle_text h Hh). split; [by split|done].
Qed.

Section touch.
Context (e : env) (r : DeliveryRoot) (Hat : dr_at r = []).

(** ReadFile of a path whose parents are directories, when it is absent or a regular file. *)
Lemma wpi_ReadFile I p w : p <> [] -> t_parent (tr w) p = None -> I (tr w) ->
  wpi e I (ReadFile r p) (fun x w' => tr w' = tr w /\
    (dents (tr w) !! p = None -> x.2 <> None) /\
    forall d, content (tr w) p = Some d -> (x.2 = None -> x.1 = d) /\ forall y, x.2 = Some y -> os_IsNotExist y = false) w.
Proof.
  intros Hp Hpar HI.
  assert (forall (s : string) y w', tr w' = tr w -> os_IsNotExist y = false -> tr w' = tr w /\
    (dents (tr w) !! p = None -> (s, Some y).2 <> None) /\ forall d, content (tr w) p = Some d ->
      ((s, Some y).2 = None -> (s, Some y).1 = d) /\ forall y', (s, Some y).2 = Some y' -> os_IsNotExist y' = false) as Hbad.
  { intros s y w' Ht Hy. split_and!; [done|done|]. intros d _. split; [done|]. by intros y' [= <-]. }
  unfold ReadFile. rewrite rp_root by done. wbind.
  eapply wpi_mono; [apply wpi_returns; [apply VerifyBase_exists|]; apply wpi_ro; [auto with amq|done]|].
  intros [x|] w1 (Hx & Ht1 & _); [wret; by apply Hbad|].
  wbind. apply wpi_sys; [wexec; case_match; cbn; by rewrite Ht1|]. wret. wexec.
  destruct (e_fault e (tick w1)); cbn; [wret; by apply Hbad|].
  rewrite Ht1. unfold t_open. destruct (content (tr w) p) as [d|] eqn:Ec.
  - destruct (content_file _ _ _ Ec) as (i & Hi & Hd). cbn [t_follow]. rewrite (t_node_lookup _ _ _ Hp Hpar Hi). cbn. wbind.
    apply wpi_sys; [wexec; case_match; cbn; by rewrite Ht1|]. wret. wexec. destruct (e_fault e (S (tick w1))); cbn; [wret; by apply Hbad|].
    rewrite Ht1, Hd. wret. split_and!; [done|congruence|]. intros d' [= <-]. by split.
  - destruct (dents (tr w) !! p) as [n|] eqn:En.
    + eapply wpi_mono; [apply wpi_ro; [case_match; ro_tac|by cbn; rewrite Ht1]|]. intros x w2 [-> _]. cbn. by rewrite Ht1.
    + cbn [t_follow]. rewrite (t_node_absent _ _ Hp Hpar En). cbn. wret. split_and!; [done|done|]. congruence.
Qed.

Lemma presence_plain h : plain h = true -> Join ["agents"; h; "presence.json"] = presence_path h /\ Join ["agents"; h] = ["agents"; h].
Proof. intros Hh. split; apply Join_plain; by repeat constructor. Qed.

Lemma wpi_WriteDeliveryRoot I p w :
  plain (Presence.Handle p) = true ->
  (forall t, replaced (presence_path (Presence.Handle p)) (presence_data p) (tr w) t -> I t) ->
  wpi e I (WriteDeliveryRoot r p) (fun o w' =>
    o = None -> content (tr w') (presence_path (Presence.Handle p)) = Some (presence_data p)) w.
Proof.
  intros Hh HI. unfold WriteDeliveryRoot. rewrite (proj2 (presence_plain _ Hh)). wbind.
  eapply wpi_mono; [apply (wpi_WriteFileAtomic e r Hat I ["agents"; Presence.Handle p] "presence.json"); try done|].
  - by repeat constructor.
  - unfold layout_depth. cbn. lia.
  - intros [q [y|]] w' (_ & _ & Hx); wret; [done|]. intros _. exact Hx.
Qed.

Lemma wpi_TouchDeliveryRoot I h old w :
  ValidateHandle h = None -> t_parent (tr w) (presence_path h) = None -> stored_presence h old (tr w) ->
  I (tr w) -> (forall now t, replaced (presence_path h) (presence_data (touched_at h old now)) (tr w) t -> I t) ->
  wpi e I (TouchDeliveryRoot r h) (fun o w' =>
    o = None -> exists now, content (tr w') (presence_path h) = Some (presence_data (touched_at h old now))) w.
Proof.
  intros Hh Hpar Hst HI HI'. pose proof (handle_plain h Hh) as Hph.
  assert (forall now w1, tr w1 = tr w -> wpi e I (WriteDeliveryRoot r (touched_at h old now)) (fun o w' =>
    o = None -> exists now, content (tr w') (presence_path h) = Some (presence_data (touched_at h old now))) w1) as Hwr.
  { intros now w1 Ht1. destruct (touched_text h old (tr w) now Hh Hst) as [_ Eh].
    eapply wpi_mono; [apply wpi_WriteDeliveryRoot; rewrite Eh; [done|rewrite Ht1; by apply HI']|].
    intros o w2 Ho E. exists now. rewrite Eh in Ho. by apply Ho. }
  unfold TouchDeliveryRoot. rewrite (proj1 (presence_plain _ Hph)). wbind.
  eapply wpi_mono; [by apply wpi_ReadFile|]. intros [s o] w1 (Ht1 & Hnone & Hsome). destruct old as [p|].
  - destruct Hst as (d & Hd & Hpd & _). destruct (Hsome d Hd) as [Hs Hy]. destruct o as [y|].
    + rewrite (Hy y eq_refl). wret. done.
    + cbn in Hs. rewrite Hs, Hpd by done. apply wpi_ro_bind; [ro_tac|by rewrite Ht1|]. intros now w2 Ht2 _.
      apply (Hwr now). congruence.
  - destruct o as [y|]; [|by destruct (Hnone Hst)]. destruct (os_IsNotExist y); cbn [negb]; [|by wret].
    apply wpi_ro_bind; [ro_tac|by rewrite Ht1|]. intros now w2 Ht2 _. apply (Hwr now). congruence.
Qed.

End touch.

(** C28: Touching a presence keeps it, when the mailbox of the agent is there and its presence
    file, if there is one, is the presence of that agent (its handle is the one that is touched,
    see presence_touch_redirected): stopped after any call, under any I/O failures, the presence
    file is as it was, absent if it was absent, or holds a whole new presence; and when
    TouchDeliveryRoot returns without error it reads back as the presence that was stored, every
    field of it, with the time of the touch as last_seen, or as a new presence with the status
    active when there was none. *)
Theorem presence_touched e r h old w :
  dr_at r = [] -> ValidateHandle h = None -> dirs_upto (tr w) ["agents"; h] -> stored_presence h old (tr w) ->
  Forall (fun w' => content (tr w') (presence_path h) = content (tr w) (presence_path h) \/
    exists now, content (tr w') (presence_path h) = Some (presence_data (touched_at h old now)))
    (trace e (TouchDeliveryRoot r h) w) /\
  ((run e (TouchDeliveryRoot r h) w).1 = None ->
   exists now data, content (tr (run e (TouchDeliveryRoot r h) w).2) (presence_path h) = Some data /\
     parse_presence data = inl (touched_at h old now)).
Proof.
  intros Hat Hh Hdir Hst.
  assert (t_parent (tr w) (presence_path h) = None) as Hpar by (by apply (dirs_upto_parent _ ["agents"; h])). split.
  - eapply (wpi_trace e (fun t => content t (presence_path h) = content (tr w) (presence_path h) \/
      exists now, content t (presence_path h) = Some (presence_data (touched_at h old now)))).
    eapply (wpi_TouchDeliveryRoot e r Hat _ h old w); try done; [by left|].
    intros now t [Ho Hn]%replaced_content. destruct old as [p|]; cbn in Hst.
    + destruct Hst as (d & Hd & _). rewrite Hd. destruct (Ho d Hd); [by left|right; by exists now].
    + destruct (Hn Hst) as [->|?]; [left|right; by exists now]. unfold content. by rewrite Hst.
  - intros E. pose proof (wpi_run e _ _ _ _ (wpi_TouchDeliveryRoot e r Hat (fun _ => True) h old w Hh Hpar Hst Logic.I
      (fun _ _ _ => Logic.I)) E) as [now Hd].
    exists now, (presence_data (touched_at h old now)). split; [done|]. apply parse_presence_data. by eapply touched_text.
Qed.

Definition sample_presence : Presence :=
  MkPresence 1 "bob" "busy" "2024-01-02T03:04:05Z" "lunch" "" "" "" true 4.
Definition presence_world : world := sample_world [(presence_path "bob", presence_data sample_presence)].

Lemma presence_touched_witness :
  let x := run quiet_env (TouchDeliveryRoot sample_root "bob") presence_world in
  exists now data, content (tr x.2) (presence_path "bob") = Some data /\
    parse_presence data = inl (MkPresence 1 "bob" "busy" (Format_RFC3339Nano now) "lunch" "" "" "" true 4).
Proof.
  intros x. refine (proj2 (presence_touched quiet_env sample_root "bob" (Some sample_presence) presence_world _ _ _ _) _).
  - reflexivity.
  - vm_compute. reflexivity.
  - apply dirs_uptob_spec. vm_compute. reflexivity.
  - exists (presence_data sample_presence). split; [vm_compute; reflexivity|]. split; [vm_compute; reflexivity|reflexivity].
  - vm_compute. reflexivity.
Defined.

(** The file that is written is that of the handle inside the presence that was read, not that
    of the handle that is touched: with a presence of alice in bob's mailbox, touching bob
    leaves bob's file and writes alice's. *)
Lemma presence_touch_redirected :
  let w := sample_world [(presence_path "bob", presence_data (New "alice" "busy" "" 0))] in
  let x := run quiet_env (TouchDeliveryRoot sample_root "bob") w in
  x.1 = None /\ content (tr x.2) (presence_path "bob") = content (tr w) (presence_path "bob") /\
  content (tr w) (presence_path "alice") = None /\ content (tr x.2) (presence_path "alice") <> None.
Proof. vm_compute. split_and!; done. Qed.
