(* ===== verification/Layout.v ===== *)
(** Mailbox layouts: inspecting them and completing the missing directories
    (internal/fsq/layout.go from EnsureRootDirs on, internal/fsq/layout_cap_unix.go).

    A layoutDirCapability is an open directory; a name looked up through it (fstatat, openat,
    mkdirat) is the component below the path of its handle.  Flags of openat: O_NOFOLLOW is
    the call, O_DIRECTORY the check of the kind after it.  The texts of a failure are kept as
    error values.  CreatedPaths and the keys of the plan are paths, that is, lists of
    components, where the source has the same with slashes.  Of the hooks only [fail] is set
    outside of tests. *)
From S2P Require Import Prelude GoStr GoPath GoErr Fs Wp Names Json JsonStruct DeliveryRoot.
From S2P Require Ambient.

(** ** EnsureRootDirs and EnsureAgentDirs on a path *)

Fixpoint mkdirall_each (dirs : list path) : prog (option gerr) :=
  match dirs with
  | [] => Ret None
  | d :: dirs' => if_err e := call (SMkdirAll d 448) then Ret (Some e) else mkdirall_each dirs'
  end.

Definition EnsureRootDirs (root : path) : prog (option gerr) :=
  mkdirall_each [Join_under root ["agents"]; Join_under root ["threads"]; Join_under root ["meta"]].

Definition EnsureAgentDirs (root : path) (agent : string) : prog (option gerr) :=
  match ValidateHandle agent with
  | Some e => Ret (Some e)
  | None => mkdirall_each (AgentMailboxPath root agent <$> requiredMailboxLeaves)
  end.

(** ** Data *)

Inductive MailboxProvenance :=
| MailboxConfigured | MailboxDiscovered | MailboxConfiguredAndDiscovered.

Inductive MailboxPathState :=
| MailboxPathDirectory | MailboxPathMissing | MailboxPathSymlink | MailboxPathNonDirectory
| MailboxPathUnreadable | MailboxPathChangedDuringInspection.

#[global] Instance MailboxPathState_eq_dec : EqDecision MailboxPathState.
Proof. solve_decision. Defined.

Definition state_string (s : MailboxPathState) : string :=
  match s with
  | MailboxPathDirectory => "directory"
  | MailboxPathMissing => "missing"
  | MailboxPathSymlink => "symlink"
  | MailboxPathNonDirectory => "non_directory"
  | MailboxPathUnreadable => "unreadable"
  | MailboxPathChangedDuringInspection => "changed_during_inspection"
  end.

Record MailboxPathInspection := PathInspection {
  pi_Path : path;
  pi_State : MailboxPathState;
  pi_Mode : string;
}.

Record MailboxInspection := Inspection {
  mi_Handle : string;
  mi_Provenance : MailboxProvenance;
  mi_Status : string;
  mi_Issues : list string;
  mi_Paths : list MailboxPathInspection;
  mi_RepairEligible : bool;
  mi_CreatedPaths : list path;
}.

Record MailboxInventory := Inventory {
  inv_Mailboxes : list MailboxInspection;
  inv_ActiveConfigStatus : string;
  inv_ActiveConfigIssue : option gerr;
  inv_ConfiguredAgents : list string;
  inv_AgentsState : option MailboxPathState;      (* None: the zero value *)
  inv_AgentsIssue : string;
  inv_RepairAuthorized : bool;
}.
Definition zero_inventory : MailboxInventory := Inventory [] "" None [] None "" false.

Record MailboxRepairFailure := RepairFailure {
  rf_Code : string;
  rf_Stage : string;
  rf_Path : path;
  rf_Message : gerr;
  rf_DurabilityIndeterminate : bool;
}.

Record MailboxRepairResult := RepairResult {
  rr_Status : string;
  rr_CreatedPaths : list path;
  rr_Failure : option MailboxRepairFailure;
  rr_Inventory : MailboxInventory;
}.

Record mailboxLayoutNode := LayoutNode {
  ln_state : MailboxPathState;
  ln_mode : Z;
  ln_info : option info;
}.

Record mailboxLayoutPlan := LayoutPlan {
  plan_inventory : MailboxInventory;
  plan_nodes : gmap path mailboxLayoutNode;
}.

Definition mailboxActiveConfig := list string.

Record mailboxConfigPin := ConfigPin {
  pin_root : DeliveryRoot;
  pin_file : handle;
  pin_info : info;
  pin_data : string;
  pin_cfg : mailboxActiveConfig;
}.

(** ** Directory capabilities (layout_cap_unix.go) *)

Definition layoutDirCapability := handle.

Definition below (c : layoutDirCapability) (name : string) : path := h_path c ++ [name].

Definition openLayoutRootCapability (r : DeliveryRoot)
  : prog (option layoutDirCapability * option gerr) :=
  let_ok file := sys (SOpenNoFollow (rp r [])) orelse x => Ret (None, Some (EErrno x)) in
  if negb (bool_decide (h_kind file = KDir)) then Ret (None, Some (EErrno ENOTDIR))
  else Ret (Some file, None).

Definition lstatLayoutNode (parent : layoutDirCapability) (name : string) : prog (ior info) :=
  sys (SLstat (below parent name)).

Definition node_mode (i : info) : Z := Z.land (i_perm i) 511.

(** identity: device, inode and kind *)
Definition sameLayoutNode (left right : info) : bool := SameFile left right.

Definition openLayoutDirectory (parent : layoutDirCapability) (name : string) (before : info)
  : prog (option layoutDirCapability * option gerr) :=
  let_ok file := sys (SOpenNoFollow (below parent name)) orelse x => Ret (None, Some (EErrno x)) in
  if negb (bool_decide (h_kind file = KDir)) then Ret (None, Some (EErrno ENOTDIR)) else
  let_ok after := sys (SFstat file) orelse x => Ret (None, Some (EErrno x)) in
  if negb (bool_decide (i_kind after = KDir)) || negb (sameLayoutNode before after)
  then Ret (None, Some (ESent ErrLayoutIdentityChanged))
  else Ret (Some file, None).

Definition readLayoutRegularFile (parent : layoutDirCapability) (name : string)
  : prog (string * MailboxPathState * option gerr) :=
  let_ok before := lstatLayoutNode parent name orelse x =>
    Ret ("", if errors_Is_NotExist (EErrno x) then MailboxPathMissing else MailboxPathUnreadable,
         Some (EErrno x)) in
  match i_kind before with
  | KSym => Ret ("", MailboxPathSymlink, Some (EErrno ErrInvalid))
  | KDir | KOther => Ret ("", MailboxPathNonDirectory, Some (EErrno ErrInvalid))
  | KFile =>
    let_ok file := sys (SOpenNoFollow (below parent name)) orelse x =>
      Ret ("", MailboxPathUnreadable, Some (EErrno x)) in
    let_ok after := sys (SFstat file) orelse x => Ret ("", MailboxPathUnreadable, Some (EErrno x)) in
    if negb (bool_decide (i_kind after = KFile)) || negb (sameLayoutNode before after)
    then Ret ("", MailboxPathChangedDuringInspection, Some (ESent ErrLayoutIdentityChanged)) else
    let_ok data := sys (SReadAll file) orelse x => Ret ("", MailboxPathUnreadable, Some (EErrno x)) in
    Ret (data, MailboxPathDirectory, None)
  end.

Definition readDirNames (c : layoutDirCapability) : prog (list string * option gerr) :=
  let_ok l := sys (SReadDir c) orelse x => Ret ([], Some (EErrno x)) in
  Ret (sort_strings (fst <$> l), None).

Definition mkdirLayoutDirectory (parent : layoutDirCapability) (name : string) (mode : Z)
  : prog (option gerr) := call (SMkdir (below parent name) mode).

Definition cap_chmod (c : layoutDirCapability) (mode : Z) : prog (option gerr) :=
  call (SChmod (h_path c) mode).

Definition cap_mode (c : layoutDirCapability) : prog (ior Z) :=
  x ← sys (SFstat c); Ret (ior_map i_perm x).

Definition cap_sync (c : layoutDirCapability) : prog (option gerr) :=
  x ← sys (SFsync c);
  Ret (match x with
       | Er n => if isSyncUnsupported n then None else Some (EErrno n)
       | Ok _ => None
       end).

Definition layoutModeSupported (mode : Z) : bool := bool_decide (Z.land mode 511 = 448)%Z.

(** ** Components of a mailbox *)

(** The proper prefixes of a list and the list itself, shortest first. *)
Definition prefixes_of (p : path) : list path := (fun n => take n p) <$> seq 1 (length p).

(** Keeps the first occurrence of each path. *)
Definition add_unseen (acc : list path) (p : path) : list path :=
  if bool_decide (p ∈ acc) then acc else acc ++ [p].

(** Parent-first; the empty path is the directory of the agent itself. *)
Definition mailboxComponentPaths : list path :=
  foldl add_unseen [[]] (requiredMailboxLeaves ≫= fun leaf => prefixes_of (leaf_path leaf)).

Definition mailboxIssue (state : MailboxPathState) (p : path) : string :=
  state_string state +:+ ":" +:+ path_string p.

Definition inspectDirectoryComponent (parent : layoutDirCapability) (name : string)
  : prog (mailboxLayoutNode * option layoutDirCapability) :=
  let_ok i := lstatLayoutNode parent name orelse x =>
    Ret (LayoutNode (if errors_Is_NotExist (EErrno x) then MailboxPathMissing
                     else MailboxPathUnreadable) 0 None, None) in
  let node st := LayoutNode st (node_mode i) (Some i) in
  match i_kind i with
  | KSym => Ret (node MailboxPathSymlink, None)
  | KDir =>
    let_val child := openLayoutDirectory parent name i orelse e =>
      Ret (node (if errors_Is ErrLayoutIdentityChanged e
                 then MailboxPathChangedDuringInspection else MailboxPathUnreadable), None) in
    Ret (node MailboxPathDirectory, child)
  | KFile | KOther => Ret (node MailboxPathNonDirectory, None)
  end.

(** ** The active configuration *)

Definition config_of_json (j : json) : option mailboxActiveConfig :=
  match j with
  | JObj l => default [] <$> get (A:=option (list string)) ["agents"] l "agents" None
  | JNull => Some []
  | _ => None
  end.

Definition parse_config (data : string) : option mailboxActiveConfig :=
  j ← Unmarshal data; config_of_json j.

Definition readActiveMailboxConfig (root : layoutDirCapability)
  : prog (mailboxActiveConfig * string * option gerr) :=
  x ← inspectDirectoryComponent root "meta";
  match x with
  | (LayoutNode MailboxPathDirectory _ _, Some meta) =>
    y ← readLayoutRegularFile meta "config.json";
    match y with
    | (_, state, Some _) =>
      Ret ([], state_string state, Some (EMsg (mailboxIssue state ["meta"; "config.json"])))
    | (data, _, None) =>
      match parse_config data with
      | None => Ret ([], "malformed", Some (EMsg "malformed:meta/config.json"))
      | Some cfg =>
        match find_some ValidateHandle cfg with
        | Some e => Ret (cfg, "invalid_handles", Some (Errorf "invalid_handle" e))
        | None => Ret (cfg, "ok", None)
        end
      end
    end
  | (node, _) =>
    Ret ([], state_string (ln_state node), Some (EMsg (mailboxIssue (ln_state node) ["meta"])))
  end.

Definition configPath : path := ["meta"; "config.json"].

Definition pinActiveMailboxConfig (r : DeliveryRoot)
  : prog (option mailboxConfigPin * string * option gerr) :=
  x ← OpenRegularNoFollow r configPath;
  match x with
  | (Some (file, i), None) =>
    let_ok data := sys (SReadAll file) orelse x =>
      Ret (None, state_string MailboxPathUnreadable, Some (EMsg (mailboxIssue MailboxPathUnreadable configPath))) in
    match parse_config data with
    | None => Ret (None, "malformed", Some (EMsg "malformed:meta/config.json"))
    | Some cfg =>
      match find_some ValidateHandle cfg with
      | Some e => Ret (None, "invalid_handles", Some (Errorf "invalid_handle" e))
      | None => Ret (Some (ConfigPin r file i data cfg), "ok", None)
      end
    end
  | (_, Some e) =>
    if errors_Is_NotExist e
    then Ret (None, state_string MailboxPathMissing, Some (EMsg (mailboxIssue MailboxPathMissing configPath)))
    else Ret (None, state_string MailboxPathUnreadable,
              Some (Errorf (mailboxIssue MailboxPathUnreadable configPath) e))
  | (None, None) => Ret (None, "", None)
  end.

(** Seeking to the start of a regular file cannot fail and is not a call here. *)
Definition verify (p : mailboxConfigPin) : prog (option gerr) :=
  if_err e := VerifyBase (pin_root p) then Ret (Some e) else
  x ← sys (SFstat (pin_file p));
  if negb (match x with Ok i => SameFile (pin_info p) i | Er _ => false end)
  then Ret (Some (EMsg "mailbox config descriptor identity changed")) else
  let_ok pinnedData := sys (SReadAll (pin_file p)) orelse x =>
    Ret (Some (Errorf "re-read mailbox config descriptor" (EErrno x))) in
  if negb (bool_decide (pinnedData = pin_data p)) then Ret (Some (EMsg "mailbox config content changed")) else
  y ← OpenRegularNoFollow (pin_root p) configPath;
  match y with
  | (Some (current, currentInfo), None) =>
    if negb (SameFile (pin_info p) currentInfo)
    then Ret (Some (EMsg "mailbox config path identity changed")) else
    let_ok currentData := sys (SReadAll current) orelse x =>
      Ret (Some (Errorf "re-read current mailbox config" (EErrno x))) in
    if negb (bool_decide (currentData = pin_data p))
    then Ret (Some (EMsg "mailbox config path content changed")) else Ret None
  | (_, Some e) => Ret (Some (Errorf "re-open mailbox config" e))
  | (None, None) => Ret None
  end.

Definition MailboxConfigAuthorization := option mailboxConfigPin.

Definition OpenMailboxConfigAuthorization (configRoot : DeliveryRoot)
  : prog (MailboxConfigAuthorization * MailboxInventory * option gerr) :=
  x ← pinActiveMailboxConfig configRoot;
  match x with
  | (Some pin, status, issue) =>
    Ret (Some pin, Inventory [] status issue (pin_cfg pin) None "" true, None)
  | (None, status, issue) =>
    Ret (None, Inventory [] status issue [] None "" false, Some (default (EMsg "") issue))
  end.

Definition ConfiguredAgents (a : MailboxConfigAuthorization) : list string :=
  match a with Some pin => pin_cfg pin | None => [] end.

Definition Verify (a : MailboxConfigAuthorization) : prog (option gerr) :=
  match a with
  | Some pin => verify pin
  | None => Ret (Some (EMsg "mailbox config authorization is missing"))
  end.

(** ** Inspection *)

Definition mailboxIssuesRepairable (issues : list string) : bool :=
  match issues with
  | [] => false
  | _ => forallb (fun issue => HasPrefix issue "missing:") issues
  end.

Definition mailboxSeverity (p : MailboxProvenance) : string :=
  match p with MailboxDiscovered => "warn" | _ => "error" end.

(** fmt's %04o of permission bits. *)
Definition octal4 (mode : Z) : string :=
  let d n := String (hex_digit (Z.to_nat (Z.land (Z.shiftr mode (3 * n)) 7))) "" in
  d 3%Z +:+ d 2%Z +:+ d 1%Z +:+ d 0%Z.

(** What inspectOneMailbox keeps while it goes through the components. *)
Record one_state := OneState {
  os_nodes : gmap path mailboxLayoutNode;
  os_caps : gmap path layoutDirCapability;
  os_paths : list MailboxPathInspection;
  os_issues : list string;
}.

Definition component_path (agent : string) (rel : path) : path := "agents" :: agent :: rel.

Definition component_issues (node : mailboxLayoutNode) (rel : path) : list string :=
  if negb (bool_decide (ln_state node = MailboxPathDirectory)) then [mailboxIssue (ln_state node) rel]
  else if negb (layoutModeSupported (ln_mode node)) then ["permissive_mode:" +:+ path_string rel]
  else [].

Definition inspect_component (agentsCap : option layoutDirCapability)
    (agentsState : MailboxPathState) (agent : string) (st : one_state) (rel : path) : prog one_state :=
  let rootRel := component_path agent rel in
  let name := match rel with [] => agent | _ => Base rel end in
  let parent := match rel with [] => agentsCap | _ => os_caps st !! Dir rel end in
  let parentState := match rel with
                     | [] => Some agentsState
                     | _ => ln_state <$> os_nodes st !! component_path agent (Dir rel)
                     end in
  x ← match parent with
      | Some c => inspectDirectoryComponent c name
      | None => Ret (LayoutNode (if bool_decide (parentState = Some MailboxPathMissing)
                                 then MailboxPathMissing else MailboxPathUnreadable) 0 None, None)
      end;
  let '(node, child) := x in
  let mode := if bool_decide (ln_state node = MailboxPathMissing) || bool_decide (ln_mode node = 0%Z)
              then "" else octal4 (ln_mode node) in
  Ret (OneState (<[rootRel := node]> (os_nodes st))
         (match child with Some c => <[rel := c]> (os_caps st) | None => os_caps st end)
         (os_paths st ++ [PathInspection rel (ln_state node) mode])
         (os_issues st ++ component_issues node rel)).

Fixpoint inspect_components (agentsCap : option layoutDirCapability) (agentsState : MailboxPathState)
    (agent : string) (st : one_state) (rels : list path) : prog one_state :=
  match rels with
  | [] => Ret st
  | rel :: rels' =>
    st' ← inspect_component agentsCap agentsState agent st rel;
    inspect_components agentsCap agentsState agent st' rels'
  end.

Definition inspectOneMailbox (nodes : gmap path mailboxLayoutNode) (agentsCap : option layoutDirCapability)
    (agentsState : MailboxPathState) (agent : string) (prov : MailboxProvenance)
  : prog (gmap path mailboxLayoutNode * MailboxInspection) :=
  st ← inspect_components agentsCap agentsState agent (OneState nodes ∅ [] []) mailboxComponentPaths;
  Ret (os_nodes st,
       Inspection agent prov (match os_issues st with [] => "ok" | _ => mailboxSeverity prov end)
         (os_issues st) (os_paths st) false []).

Definition provenance_of (configured discovered : gset string) (agent : string) : MailboxProvenance :=
  if bool_decide (agent ∈ configured) && bool_decide (agent ∈ discovered) then MailboxConfiguredAndDiscovered
  else if bool_decide (agent ∈ configured) then MailboxConfigured
  else MailboxDiscovered.

Definition set_eligible (b : bool) (m : MailboxInspection) : MailboxInspection :=
  Inspection (mi_Handle m) (mi_Provenance m) (mi_Status m) (mi_Issues m) (mi_Paths m) b (mi_CreatedPaths m).

Fixpoint inspect_handles (configured discovered : gset string) (authorized : bool)
    (agentsCap : option layoutDirCapability) (agentsState : MailboxPathState)
    (nodes : gmap path mailboxLayoutNode) (acc : list MailboxInspection) (handles : list string)
  : prog (gmap path mailboxLayoutNode * list MailboxInspection) :=
  match handles with
  | [] => Ret (nodes, acc)
  | agent :: rest =>
    let prov := provenance_of configured discovered agent in
    match ValidateHandle agent with
    | Some _ =>
      inspect_handles configured discovered authorized agentsCap agentsState nodes
        (acc ++ [Inspection agent prov (mailboxSeverity prov) ["invalid_handle"] [] false []]) rest
    | None =>
      x ← inspectOneMailbox nodes agentsCap agentsState agent prov;
      let '(nodes', entry) := x in
      let entry := set_eligible (bool_decide (agent ∈ configured) && authorized &&
                                 mailboxIssuesRepairable (mi_Issues entry)) entry in
      inspect_handles configured discovered authorized agentsCap agentsState nodes' (acc ++ [entry]) rest
    end
  end.

Definition inspectMailboxLayoutCapability (rootCap : layoutDirCapability) (cfg : mailboxActiveConfig)
    (configStatus : string) (configIssue : option gerr) (additionalHandles : list string)
  : prog (mailboxLayoutPlan * option gerr) :=
  let authorized := bool_decide (configStatus = "ok") in
  let configured : gset string := list_to_set cfg in
  x ← inspectDirectoryComponent rootCap "agents";
  let '(agentsNode, agentsCap) := x in
  names ← match agentsCap with Some c => readDirNames c | None => Ret ([], None) end;
  let agentsState := match names.2 with Some _ => MailboxPathUnreadable | None => ln_state agentsNode end in
  let agentsIssue :=
    if negb (bool_decide (agentsState = MailboxPathDirectory)) && negb (bool_decide (agentsState = MailboxPathMissing))
    then mailboxIssue agentsState ["agents"] else "" in
  let discovered : gset string := list_to_set names.1 in
  let handles := sort_strings (elements (configured ∪ discovered ∪ list_to_set additionalHandles)) in
  y ← inspect_handles configured discovered authorized agentsCap agentsState
        {[["agents"] := agentsNode]} [] handles;
  Ret (LayoutPlan (Inventory y.2 configStatus configIssue cfg (Some agentsState) agentsIssue authorized) y.1, None).

Definition zero_plan : mailboxLayoutPlan := LayoutPlan zero_inventory ∅.

Definition inspectMailboxLayout (r : DeliveryRoot) (additionalHandles : list string)
  : prog (mailboxLayoutPlan * option gerr) :=
  if_err e := VerifyBase r then Ret (zero_plan, Some e) else
  x ← openLayoutRootCapability r;
  match x with
  | (Some rootCap, None) =>
    y ← readActiveMailboxConfig rootCap;
    let '(cfg, configStatus, configIssue) := y in
    inspectMailboxLayoutCapability rootCap cfg configStatus configIssue additionalHandles
  | (_, e) => Ret (zero_plan, e)
  end.

Definition inspectMailboxLayoutWithConfig (r : DeliveryRoot) (cfg : mailboxActiveConfig)
    (additionalHandles : list string) : prog (mailboxLayoutPlan * option gerr) :=
  if_err e := VerifyBase r then Ret (zero_plan, Some e) else
  x ← openLayoutRootCapability r;
  match x with
  | (Some rootCap, None) => inspectMailboxLayoutCapability rootCap cfg "ok" None additionalHandles
  | (_, e) => Ret (zero_plan, e)
  end.

Definition InspectMailboxLayout (r : DeliveryRoot) : prog (MailboxInventory * option gerr) :=
  x ← inspectMailboxLayout r []; Ret (plan_inventory x.1, x.2).

(** Keeps the first occurrence of each handle; the error of the first that is not valid. *)
Fixpoint unique_handles (acc handles : list string) : list string + gerr :=
  match handles with
  | [] => inl acc
  | h :: rest =>
    match ValidateHandle h with
    | Some e => inr e
    | None => unique_handles (if bool_decide (h ∈ acc) then acc else acc ++ [h]) rest
    end
  end.

Definition mailboxConfigWithEffectiveAgents (cfg : mailboxActiveConfig) (effectiveAgents : list string)
  : mailboxActiveConfig + gerr := unique_handles cfg effectiveAgents.

Definition InspectMailboxLayoutWithAuthorization (r : DeliveryRoot) (a : MailboxConfigAuthorization)
    (effectiveAgents : list string) : prog (MailboxInventory * option gerr) :=
  match a with
  | None => Ret (zero_inventory, Some (EMsg "mailbox config authorization is missing"))
  | Some pin =>
    if_err e := Verify a then Ret (zero_inventory, Some (Errorf "verify mailbox config authorization" e)) else
    match mailboxConfigWithEffectiveAgents (pin_cfg pin) effectiveAgents with
    | inr e => Ret (zero_inventory, Some e)
    | inl cfg =>
      x ← inspectMailboxLayoutWithConfig r cfg [];
      match x with
      | (plan, Some e) => Ret (plan_inventory plan, Some e)
      | (plan, None) =>
        if_err e := Verify a then
          Ret (plan_inventory plan, Some (Errorf "mailbox config authorization changed during inspection" e)) else
        Ret (plan_inventory plan, None)
      end
    end
  end.

(** byHandle: the last mailbox with the handle. *)
Definition by_handle (l : list MailboxInspection) (h : string) : option MailboxInspection :=
  List.find (fun m => bool_decide (mi_Handle m = h)) (reverse l).

Definition incomplete (l : list MailboxInspection) (h : string) : option gerr :=
  match by_handle l h with
  | None => Some (EMsg "mailbox is incomplete: missing:.")
  | Some m => match mi_Issues m with
              | [] => None
              | issues => Some (EMsg ("mailbox is incomplete: " +:+ Join_with "," issues))
              end
  end.

Definition ValidateExistingMailboxLayout (r : DeliveryRoot) (handles : list string) : prog (option gerr) :=
  match unique_handles [] handles with
  | inr e => Ret (Some e)
  | inl unique =>
    x ← inspectMailboxLayout r unique;
    match x with
    | (_, Some e) => Ret (Some e)
    | (plan, None) => Ret (find_some (incomplete (inv_Mailboxes (plan_inventory plan))) unique)
    end
  end.

(** ** Repair *)

Definition hazard_state (m : MailboxInspection) (p : MailboxPathInspection) : option gerr :=
  match pi_State p with
  | MailboxPathDirectory | MailboxPathMissing => None
  | st => Some (EMsg (mi_Handle m +:+ ":" +:+ mailboxIssue st (pi_Path p)))
  end.

Definition mailbox_hazard (repairSet : list string) (m : MailboxInspection) : option gerr :=
  if negb (bool_decide (mi_Handle m ∈ repairSet)) then None
  else match mi_Issues m with
       | _ :: _ as issues =>
         if negb (mailboxIssuesRepairable issues)
         then Some (EMsg (mi_Handle m +:+ ":" +:+ Join_with "," issues))
         else find_some (hazard_state m) (mi_Paths m)
       | [] => find_some (hazard_state m) (mi_Paths m)
       end.

(** The reason not to start, if there is one. *)
Definition preflightHazard (plan : mailboxLayoutPlan) (repairHandles : list string) : option gerr :=
  let inv := plan_inventory plan in
  if negb (inv_RepairAuthorized inv) then Some (default (EMsg "") (inv_ActiveConfigIssue inv))
  else if negb (bool_decide (inv_AgentsState inv = Some MailboxPathDirectory)) &&
          negb (bool_decide (inv_AgentsState inv = Some MailboxPathMissing))
  then Some (EMsg (inv_AgentsIssue inv))
  else find_some (mailbox_hazard repairHandles) (inv_Mailboxes inv).

Definition repairComponentPaths (repairHandles : list string) : list path :=
  foldl add_unseen [["agents"]]
    (sort_strings repairHandles ≫= fun h => component_path h <$> mailboxComponentPaths).

Definition merge_one (mailboxes : list MailboxInspection) (p : path) : list MailboxInspection :=
  match p with
  | "agents" :: agent :: rel =>
    (fix go l := match l with
     | [] => []
     | m :: l' =>
       if bool_decide (mi_Handle m = agent)
       then Inspection (mi_Handle m) (mi_Provenance m) (mi_Status m) (mi_Issues m) (mi_Paths m)
              (mi_RepairEligible m) (mi_CreatedPaths m ++ [rel]) :: l'
       else m :: go l'
     end) mailboxes
  | _ => mailboxes
  end.

Definition mergeCreatedPaths (inv : MailboxInventory) (created : list path) : MailboxInventory :=
  Inventory (foldl merge_one (inv_Mailboxes inv) created) (inv_ActiveConfigStatus inv)
    (inv_ActiveConfigIssue inv) (inv_ConfiguredAgents inv) (inv_AgentsState inv) (inv_AgentsIssue inv)
    (inv_RepairAuthorized inv).

(** A repair that was given up before it created anything, and one that was given up later. *)
Definition failed (code stage : string) (p : path) (e : gerr) (inv : MailboxInventory) : MailboxRepairResult :=
  RepairResult "failed" [] (Some (RepairFailure code stage p e false)) inv.

Definition repairFailure (code stage : string) (p : path) (err : gerr) (created : list path)
    (r : DeliveryRoot) (cfg : mailboxActiveConfig) : prog MailboxRepairResult :=
  x ← inspectMailboxLayoutWithConfig r cfg [];
  let err := match x.2 with Some _ => Errorf "re-inspection failed" err | None => err end in
  Ret (RepairResult "partial" created
         (Some (RepairFailure code stage p err
            (bool_decide (stage = "child_sync") || bool_decide (stage = "parent_sync"))))
         (mergeCreatedPaths (plan_inventory x.1) created)).

(** hooks.fail *)
Definition fail_hook := option (string -> path -> prog (option gerr)).
Definition hook (fail : fail_hook) (stage : string) (p : path) : prog (option gerr) :=
  match fail with Some f => f stage p | None => Ret None end.

Section repair.
Context (r : DeliveryRoot) (cfg : mailboxActiveConfig) (fail : fail_hook).

(** The rest of an iteration after the directory was made: it is opened, its mode set and it
    and its parent are synced.  [inl] continues with the new capability. *)
Definition repair_settle (parent : layoutDirCapability) (name : string) (p : path) (created : list path)
  : prog (layoutDirCapability + MailboxRepairResult) :=
  let abandon code stage e := x ← repairFailure code stage p e created r cfg; Ret (inr x) in
  let_ok current := lstatLayoutNode parent name orelse x => abandon "create_failed" "lstat" (EErrno x) in
  if negb (bool_decide (i_kind current = KDir))
  then abandon "concurrent_race" "identity" (EMsg "created path is not a directory") else
  if_err e := hook fail "open" p then abandon "create_failed" "open" e else
  x ← openLayoutDirectory parent name current;
  match x with
  | (Some child, None) =>
    if_err e := hook fail "chmod" p then abandon "create_failed" "chmod" e else
    if_err e := cap_chmod child 448 then abandon "create_failed" "chmod" e else
    let_ok mode := cap_mode child orelse x => abandon "create_failed" "fstat" (EErrno x) in
    if negb (layoutModeSupported mode)
    then abandon "create_failed" "mode" (EMsg "created directory mode, want 0700") else
    if_err e := hook fail "child_sync" p then abandon "durability_failed" "child_sync" e else
    if_err e := cap_sync child then abandon "durability_failed" "child_sync" e else
    if_err e := hook fail "parent_sync" p then abandon "durability_failed" "parent_sync" e else
    if_err e := cap_sync parent then abandon "durability_failed" "parent_sync" e else
    Ret (inl child)
  | (_, e) => abandon "create_failed" "open" (default (EMsg "") e)
  end.

(** The case of a component that was missing. *)
Definition repair_create (parent : layoutDirCapability) (name : string) (p : path) (stat : ior info)
    (created : list path) : prog (layoutDirCapability * list path + MailboxRepairResult) :=
  let abandon code stage e := x ← repairFailure code stage p e created r cfg; Ret (inr x) in
  match stat with
  | Ok _ => abandon "concurrent_race" "create" (EMsg "appeared after preflight")
  | Er x =>
    if negb (errors_Is_NotExist (EErrno x)) then abandon "create_failed" "create" (EErrno x) else
    if_err e := hook fail "mkdir" p then abandon "create_failed" "mkdir" e else
    if_err e := mkdirLayoutDirectory parent name 448 then
      abandon (if errors_Is_Exist e then "concurrent_race" else "create_failed") "mkdir" e else
    let created := created ++ [p] in
    y ← repair_settle parent name p created;
    Ret (match y with inl child => inl (child, created) | inr x => inr x end)
  end.

(** The case of a component that was there. *)
Definition repair_keep (parent : layoutDirCapability) (name : string) (p : path) (before : mailboxLayoutNode)
    (stat : ior info) (created : list path) : prog (layoutDirCapability * list path + MailboxRepairResult) :=
  let abandon stage e := x ← repairFailure "concurrent_change" stage p e created r cfg; Ret (inr x) in
  match stat with
  | Er x => abandon "identity" (EErrno x)
  | Ok current =>
    if negb (match ln_info before with Some i => sameLayoutNode i current | None => false end)
    then abandon "identity" (ESent ErrLayoutIdentityChanged) else
    x ← openLayoutDirectory parent name current;
    match x with
    | (Some child, None) => Ret (inl (child, created))
    | (_, e) => abandon "open" (default (EMsg "") e)
    end
  end.

Fixpoint repair_loop (nodes : gmap path mailboxLayoutNode) (caps : gmap path layoutDirCapability)
    (created : list path) (paths : list path) : prog (list path + MailboxRepairResult) :=
  match paths with
  | [] => Ret (inl created)
  | p :: rest =>
    match caps !! Dir p with
    | None =>
      x ← repairFailure "concurrent_change" "open" p (ESent ErrLayoutIdentityChanged) created r cfg;
      Ret (inr x)
    | Some parent =>
      let name := Base p in
      stat ← lstatLayoutNode parent name;
      y ← match nodes !! p with
          | Some (LayoutNode MailboxPathMissing _ _) => repair_create parent name p stat created
          | Some (LayoutNode MailboxPathDirectory _ _ as before) => repair_keep parent name p before stat created
          | _ => x ← repairFailure "preflight_failed" "preflight" p (EMsg "unsafe preflight state") created r cfg;
                 Ret (inr x)
          end;
      match y with
      | inl (child, created') => repair_loop nodes (<[p := child]> caps) created' rest
      | inr x => Ret (inr x)
      end
    end
  end.

(** A path of a repaired mailbox that is still not a directory. *)
Definition not_repaired (repairHandles : list string) (mailboxes : list MailboxInspection)
  : option (path * gerr) :=
  find_some (fun m =>
    if negb (bool_decide (mi_Handle m ∈ repairHandles)) then None
    else find_some (fun p =>
      if bool_decide (pi_State p = MailboxPathDirectory) then None
      else Some (component_path (mi_Handle m) (pi_Path p), EMsg ("post-repair state " +:+ state_string (pi_State p))))
      (mi_Paths m)) mailboxes.

Definition repair_verify (a : MailboxConfigAuthorization) (repairHandles : list string) (created : list path)
  : prog MailboxRepairResult :=
  if_err e := Verify a then repairFailure "authorization_changed" "verify" configPath e created r cfg else
  x ← inspectMailboxLayoutWithConfig r cfg repairHandles;
  match x with
  | (_, Some e) => repairFailure "verification_failed" "verify" [] e created r cfg
  | (verifiedPlan, None) =>
    let inventory := mergeCreatedPaths (plan_inventory verifiedPlan) created in
    match not_repaired repairHandles (inv_Mailboxes inventory) with
    | Some (p, e) => repairFailure "verification_failed" "verify" p e created r cfg
    | None =>
      if_err e := Verify a then repairFailure "authorization_changed" "verify" configPath e created r cfg else
      Ret (RepairResult "repaired" created None inventory)
    end
  end.

End repair.

Definition repairMailboxLayoutHandlesAuthorizedWithConfig (r : DeliveryRoot) (a : MailboxConfigAuthorization)
    (requestedHandles : list string) (configuredSet : bool) (inspectionConfig : mailboxActiveConfig)
    (fail : fail_hook) : prog MailboxRepairResult :=
  match a with
  | None => Ret (failed "preflight_failed" "authorization" [] (EMsg "mailbox config authorization is missing") zero_inventory)
  | Some configPin =>
    if_err e := verify configPin then
      Ret (failed "authorization_changed" "authorization" configPath e
             (Inventory [] "changed" (Some e) inspectionConfig None "" false)) else
    x ← inspectMailboxLayoutWithConfig r inspectionConfig requestedHandles;
    match x with
    | (_, Some e) => Ret (failed "unsafe_root" "preflight" [] e zero_inventory)
    | (plan, None) =>
      let repairHandles := if configuredSet then inv_ConfiguredAgents (plan_inventory plan) else requestedHandles in
      match preflightHazard plan repairHandles with
      | Some issue => Ret (failed "preflight_failed" "preflight" [] issue (plan_inventory plan))
      | None =>
        if_err e := verify configPin then
          Ret (failed "authorization_changed" "authorization" configPath e (plan_inventory plan)) else
        y ← openLayoutRootCapability r;
        match y with
        | (Some rootCap, None) =>
          z ← repair_loop r inspectionConfig fail (plan_nodes plan) {[[] := rootCap]} []
                (repairComponentPaths repairHandles);
          match z with
          | inr res => Ret res
          | inl created => repair_verify r inspectionConfig a repairHandles created
          end
        | (_, e) => repairFailure "unsafe_root" "open" [] (default (EMsg "") e) [] r inspectionConfig
        end
      end
    end
  end.

Definition repairMailboxLayoutHandlesAuthorized (r : DeliveryRoot) (a : MailboxConfigAuthorization)
    (requestedHandles : list string) (configuredSet : bool) (fail : fail_hook) : prog MailboxRepairResult :=
  match a with
  | None => Ret (failed "preflight_failed" "authorization" [] (EMsg "mailbox config authorization is missing") zero_inventory)
  | Some pin => repairMailboxLayoutHandlesAuthorizedWithConfig r a requestedHandles configuredSet (pin_cfg pin) fail
  end.

Definition repairMailboxLayoutHandles (r configRoot : DeliveryRoot) (requestedHandles : list string)
    (configuredSet : bool) (fail : fail_hook) : prog MailboxRepairResult :=
  x ← OpenMailboxConfigAuthorization configRoot;
  match x with
  | (_, inventory, Some _) =>
    Ret (failed "preflight_failed" "authorization" [] (default (EMsg "") (inv_ActiveConfigIssue inventory)) inventory)
  | (a, _, None) => repairMailboxLayoutHandlesAuthorized r a requestedHandles configuredSet fail
  end.

Definition RepairMailboxLayout (r : DeliveryRoot) : prog MailboxRepairResult :=
  repairMailboxLayoutHandles r r [] true None.

Definition RepairMailboxLayoutForAgentsWithAuthorization (r : DeliveryRoot) (a : MailboxConfigAuthorization)
    (agents : list string) : prog MailboxRepairResult :=
  match unique_handles [] agents with
  | inr e => Ret (failed "preflight_failed" "preflight" [] e zero_inventory)
  | inl handles => repairMailboxLayoutHandlesAuthorized r a handles false None
  end.

Definition RepairMailboxLayoutForAgentsAuthorized (r configRoot : DeliveryRoot) (agents : list string)
  : prog MailboxRepairResult :=
  x ← OpenMailboxConfigAuthorization configRoot;
  match x with
  | (_, inventory, Some _) =>
    Ret (failed "preflight_failed" "authorization" [] (default (EMsg "") (inv_ActiveConfigIssue inventory)) inventory)
  | (a, _, None) => RepairMailboxLayoutForAgentsWithAuthorization r a agents
  end.

Definition RepairMailboxLayoutForAgents (r : DeliveryRoot) (agents : list string) : prog MailboxRepairResult :=
  RepairMailboxLayoutForAgentsAuthorized r r agents.

(** [writeGuard] is nil or a function of the caller. *)
Definition RepairMailboxLayoutForAgentsWithAuthorizationAndWriteGuard (r : DeliveryRoot)
    (a : MailboxConfigAuthorization) (agents : list string) (writeGuard : option (prog (option gerr)))
  : prog MailboxRepairResult :=
  match a, writeGuard with
  | None, _ => Ret (failed "preflight_failed" "authorization" [] (EMsg "mailbox config authorization is missing") zero_inventory)
  | _, None => Ret (failed "preflight_failed" "authorization" [] (EMsg "mailbox write guard is missing") zero_inventory)
  | Some pin, Some guard =>
    repairMailboxLayoutHandlesAuthorizedWithConfig r a agents false (pin_cfg pin)
      (Some (fun stage _ => if bool_decide (stage ∈ ["mkdir"; "chmod"; "child_sync"; "parent_sync"])
                            then guard else Ret None))
  end.

Definition RepairMailboxLayoutForConfiguredAgentsWithAuthorization (r : DeliveryRoot)
    (a : MailboxConfigAuthorization) (effectiveAgents : list string) : prog MailboxRepairResult :=
  match a with
  | None => Ret (failed "preflight_failed" "authorization" [] (EMsg "mailbox config authorization is missing") zero_inventory)
  | Some pin =>
    match mailboxConfigWithEffectiveAgents (pin_cfg pin) effectiveAgents with
    | inr e => Ret (failed "preflight_failed" "preflight" [] e zero_inventory)
    | inl cfg => repairMailboxLayoutHandlesAuthorizedWithConfig r a cfg false cfg None
    end
  end.
