(* ===== verification/Repair.v ===== *)
(** What an inspection of mailbox layouts reports, and what a repair does to the tree. *)
From S2P Require Import Prelude GoStr GoPath Json JsonStruct GoErr Fs Wp FsFacts Names DeliveryRoot DeliveryRootFacts Sample Layout.

(** ** Programs that only look

    What a read-only program returns in worlds with the tree [t]. *)
Definition sees {A} (e : env) (t : tree) (p : prog A) (Q : A -> Prop) : Prop :=
  ro p /\ forall w, tr w = t -> Q (run e p w).1.

Section sees.
Context (e : env) (t : tree).

Lemma sees_ret {A} (a : A) (Q : A -> Prop) : Q a -> sees e t (Ret a) Q.
Proof. by split. Qed.

Lemma sees_bind {A B} (p : prog A) (k : A -> prog B) Q Q' :
  sees e t p Q -> (forall a, Q a -> sees e t (k a) Q') -> (forall a, ro (k a)) ->
  sees e t (prog_bind p k) Q'.
Proof.
  intros [Hro Hp] Hk Hrk. split; [by apply ro_bind|]. intros w Hw. rewrite run_bind.
  apply Hk; [by apply Hp|]. rewrite <-Hw. by apply run_ro.
Qed.

Lemma sees_mono {A} (p : prog A) (Q Q' : A -> Prop) :
  sees e t p Q -> (forall a, Q a -> Q' a) -> sees e t p Q'.
Proof. intros [? H] HQ. split; [done|]. intros. by apply HQ, H. Qed.

Lemma sees_any {A} (p : prog A) : ro p -> sees e t p (fun _ => True).
Proof. by split. Qed.

Lemma sees_ro {A} (p : prog A) Q : sees e t p Q -> ro p.
Proof. by intros [? _]. Qed.

Lemma wpi_sees {A} I (p : prog A) Q w :
  I (tr w) -> sees e (tr w) p Q -> wpi e I p (fun a w' => Q a /\ tr w' = tr w /\ ctl_eq w w') w.
Proof.
  intros HI [Hro HQ]. assert (wpi e I p (fun a w' => (a, w') = run e p w) w) as H.
  { revert HI. clear HQ. revert w. induction p as [a|X c k IH]; intros w HI; [by apply wpi_ret|].
    destruct Hro as [Hop Hk]. destruct (obs_op_spec c e w Hop) as [Ht _].
    apply wpi_sys; [by rewrite Ht|]. cbn. destruct (exec e c w) as [x w1] eqn:E. cbn in *.
    apply IH; [done|by rewrite Ht]. }
  eapply wpi_mono; [exact H|]. intros a w' E. assert (run e p w = (a, w')) as E' by done.
  destruct (run_ro e p w Hro) as [H1 H2]. rewrite E' in *. split; [|done].
  specialize (HQ w eq_refl). by rewrite E' in HQ.
Qed.

(** An observing call fails, or answers what is in the tree. *)
Lemma sees_obs {X} (c : sysop (ior X)) (r : ior X) :
  obs_op c -> (forall w, tr w = t -> exec e c w = obs e w r) ->
  sees e t (sys c) (fun x => (exists y, x = Er (IOErr y) /\ ~ healthy e) \/ x = r).
Proof.
  intros Ho H. split; [by apply ro_sys|]. intros w Hw. rewrite run_sys, (H w Hw). unfold obs.
  destruct (e_fault e (tick w)) as [f|] eqn:E; [left|by right]. exists (f_err f). split; [done|].
  intros Hh. by rewrite (Hh (tick w)) in E.
Qed.

Lemma sees_lstat p :
  sees e t (sys (SLstat p)) (fun x => (exists y, x = Er (IOErr y) /\ ~ healthy e) \/ x = t_lstat t p).
Proof. apply sees_obs; [done|]. by intros w <-. Qed.
Lemma sees_nofollow p :
  sees e t (sys (SOpenNoFollow p)) (fun x => (exists y, x = Er (IOErr y) /\ ~ healthy e) \/ x = t_open_nofollow t p).
Proof. apply sees_obs; [done|]. by intros w <-. Qed.
Lemma sees_fstat h :
  sees e t (sys (SFstat h)) (fun x => (exists y, x = Er (IOErr y) /\ ~ healthy e) \/
    x = Ok (Info (h_kind h) (h_ino h) (handle_perm t h) (String.length (default "" (data t !! h_ino h))))).
Proof. apply sees_obs; [done|]. by intros w <-. Qed.

End sees.

(** ** The inspection only looks *)

Lemma ro_openLayoutRootCapability r : ro (openLayoutRootCapability r).
Proof. unfold openLayoutRootCapability. ro_tac. Qed.
Lemma ro_openLayoutDirectory c n i : ro (openLayoutDirectory c n i).
Proof. unfold openLayoutDirectory. ro_tac. Qed.
#[export] Hint Resolve ro_openLayoutRootCapability ro_openLayoutDirectory : amq.
Lemma ro_inspectDirectoryComponent c n : ro (inspectDirectoryComponent c n).
Proof. unfold inspectDirectoryComponent, lstatLayoutNode. ro_tac. Qed.
Lemma ro_readDirNames c : ro (readDirNames c).
Proof. unfold readDirNames. ro_tac. Qed.
Lemma ro_readLayoutRegularFile c n : ro (readLayoutRegularFile c n).
Proof. unfold readLayoutRegularFile, lstatLayoutNode. ro_tac. Qed.
#[export] Hint Resolve ro_inspectDirectoryComponent ro_readDirNames ro_readLayoutRegularFile : amq.
Lemma ro_readActiveMailboxConfig c : ro (readActiveMailboxConfig c).
Proof. unfold readActiveMailboxConfig. ro_tac. Qed.
Lemma ro_pinActiveMailboxConfig r : ro (pinActiveMailboxConfig r).
Proof. unfold pinActiveMailboxConfig. ro_tac. Qed.
Lemma ro_verify p : ro (verify p).
Proof. unfold verify. ro_tac. Qed.
#[export] Hint Resolve ro_readActiveMailboxConfig ro_pinActiveMailboxConfig ro_verify : amq.
Lemma ro_Verify a : ro (Verify a).
Proof. unfold Verify. ro_tac. Qed.
Lemma ro_OpenAuthorization r : ro (OpenMailboxConfigAuthorization r).
Proof. unfold OpenMailboxConfigAuthorization. ro_tac. Qed.
#[export] Hint Resolve ro_Verify ro_OpenAuthorization : amq.

(** ** One component *)

Section component.
Context (e : env) (t : tree).

Lemma below_not_nil c n : below c n <> [].
Proof. apply snoc_not_nil. Qed.

Lemma t_lstat_Ok p i : t_lstat t p = Ok i -> exists n, t_node t p = Ok n /\ i = node_info t n.
Proof. unfold t_lstat. destruct (t_node t p) as [n|]; [|done]. intros [= <-]. by exists n. Qed.

(** The handle of a directory that was opened under its own name. *)
Definition opened_at (p : path) (h : handle) : Prop :=
  h_path h = p /\ h_kind h = KDir /\ exists i m, t_node t p = Ok (NDir i m) /\ h_ino h = i.

Lemma sees_openLayoutDirectory c n before :
  sees e t (openLayoutDirectory c n before) (fun x => match x with
    | (Some h, None) => opened_at (below c n) h
    | (None, Some err) => healthy e -> forall i m,
        t_node t (below c n) = Ok (NDir i m) -> before <> node_info t (NDir i m)
    | _ => False
    end).
Proof.
  unfold openLayoutDirectory. set (p := below c n).
  eapply sees_bind; [apply sees_nofollow| |intros ?; ro_tac].
  intros [h|x] Hx; [|apply sees_ret; intros Hh i m E; destruct Hx as [(y & _ & Hn)|Hx]; [by exfalso|]];
    [|unfold t_open_nofollow in Hx; by rewrite E in Hx].
  destruct Hx as [(? & [=] & _)|Hx]. unfold t_open_nofollow in Hx.
  destruct (t_node t p) as [nd|] eqn:En; [|done].
  assert (h = Handle (node_kind nd) (node_ino nd) p /\ forall i o, nd <> NSym i o) as [-> Hns].
  { destruct nd; try done; by injection Hx as ->. } clear Hx. cbn [h_kind].
  destruct nd as [i|i m|i o|i]; try (cbn; apply sees_ret; by intros ? ? ? [= ]).
  cbn [node_kind]. rewrite bool_decide_eq_true_2 by done. cbn [negb].
  eapply sees_bind; [apply sees_fstat| |intros ?; ro_tac].
  intros [a|x] Hx.
  - destruct Hx as [(? & [=] & _)|[= ->]]. cbn [i_kind h_kind].
    rewrite bool_decide_eq_true_2 by done. cbn [negb orb].
    destruct (sameLayoutNode before _) eqn:Es; apply sees_ret.
    + split; [done|]. split; [done|]. exists i, m. done.
    + intros Hh i' m' [= <- <-] ->. unfold sameLayoutNode, SameFile in Es. cbn in Es.
      by rewrite !bool_decide_eq_true_2 in Es.
  - apply sees_ret. intros Hh. destruct Hx as [(y & _ & Hn)|]; [by destruct Hn|done].
Qed.

Definition component_seen (p : path) (x : mailboxLayoutNode * option layoutDirCapability) : Prop :=
  match x with
  | (node, Some h) =>
    ln_state node = MailboxPathDirectory /\ opened_at p h /\
    exists i m, t_node t p = Ok (NDir i m) /\ ln_mode node = Z.land m 511 /\ ln_info node = Some (node_info t (NDir i m))
  | (node, None) =>
    ln_state node <> MailboxPathDirectory /\
    (ln_state node = MailboxPathMissing -> t_node t p = Er ENOENT) /\
    (healthy e -> forall i m, t_node t p <> Ok (NDir i m))
  end.

Lemma sees_inspectDirectoryComponent c n :
  sees e t (inspectDirectoryComponent c n) (component_seen (below c n)).
Proof.
  unfold inspectDirectoryComponent. set (p := below c n).
  eapply sees_bind; [apply sees_lstat| |intros ?; ro_tac].
  intros [i|x] Hx.
  2:{ apply sees_ret. cbn. destruct Hx as [(y & [= ->] & Hn)|Hx].
      - split; [done|]. split; [done|]. by intros.
      - unfold t_lstat in Hx. fold p in Hx. destruct (t_node t p) as [nd|y]; [done|]. injection Hx as <-.
        split; [by destruct x|]. split; [by destruct x|]. done. }
  destruct Hx as [(? & [=] & _)|Hx]. fold p in Hx. symmetry in Hx. apply t_lstat_Ok in Hx as (nd & En & ->).
  destruct nd as [j|j m|j o|j]; cbn [node_info i_kind node_kind];
    try (apply sees_ret; cbn; split; [done|]; split; [done|]; intros; congruence).
  eapply sees_bind; [apply sees_openLayoutDirectory| |intros [? []]; ro_tac].
  fold p. intros [[h|] [err|]] Hx; try done; apply sees_ret; cbn.
  - split; [done|]. split; [done|]. by exists j, m.
  - split; [by destruct (errors_Is _ _)|]. split; [by destruct (errors_Is _ _)|].
    intros Hh i m' E. rewrite En in E. injection E as <- <-. by destruct (Hx Hh j m En).
Qed.

Lemma component_seen_dir p x : component_seen p x -> p <> [] -> ln_state x.1 = MailboxPathDirectory ->
  exists i m, dents t !! p = Some (NDir i m) /\ ln_mode x.1 = Z.land m 511.
Proof.
  destruct x as [node [h|]]; [|by intros (? & _)]. intros (_ & _ & i & m & E & Hm & _) Hp _.
  exists i, m. split; [|done]. by apply t_node_Ok_inv in E as [_ ?].
Qed.

End component.

(** ** One mailbox *)

Lemma component_paths_closed :
  forallb (fun n => let pre := take n mailboxComponentPaths in
             match mailboxComponentPaths !! n with
             | Some rel => bool_decide (rel ∉ pre) && match rel with [] => true | _ => bool_decide (Dir rel ∈ pre) end
             | None => true
             end) (seq 0 (length mailboxComponentPaths)) = true.
Proof. vm_compute. reflexivity. Qed.

Section mailbox.
Context (e : env) (t : tree).

(** Every directory of the mailbox is there, with the mode that is required. *)
Definition complete_mailbox (agent : string) : Prop := forall rel, rel ∈ mailboxComponentPaths ->
  exists i m, dents t !! component_path agent rel = Some (NDir i m) /\ Z.land m 511 = 448%Z.

Record one_ok (agent : string) (done : list path) (st : one_state) : Prop := {
  oo_paths : pi_Path <$> os_paths st = done;
  oo_states : forall x, x ∈ os_paths st -> pi_State x = MailboxPathDirectory ->
    is_dir t (component_path agent (pi_Path x));
  oo_issues : os_issues st = [] -> forall rel, rel ∈ done ->
    exists i m, dents t !! component_path agent rel = Some (NDir i m) /\ Z.land m 511 = 448%Z;
  oo_caps : forall rel h, os_caps st !! rel = Some h -> h_path h = component_path agent rel;
}.

Lemma path_snoc (p : path) : p <> [] -> Dir p ++ [Base p] = p.
Proof.
  intros Hp. destruct p as [|x p _] using rev_ind; [done|]. unfold Dir, Base.
  rewrite removelast_last, last_snoc. done.
Qed.

Lemma component_not_nil agent rel : component_path agent rel <> [].
Proof. done. Qed.

Lemma one_ok_step agent done st rel node child mode :
  one_ok agent done st ->
  (ln_state node = MailboxPathDirectory ->
     exists i m, dents t !! component_path agent rel = Some (NDir i m) /\ ln_mode node = Z.land m 511) ->
  (forall h, child = Some h -> h_path h = component_path agent rel) ->
  one_ok agent (done ++ [rel])
    (OneState (<[component_path agent rel := node]> (os_nodes st))
       (match child with Some c => <[rel := c]> (os_caps st) | None => os_caps st end)
       (os_paths st ++ [PathInspection rel (ln_state node) mode])
       (os_issues st ++ component_issues node rel)).
Proof.
  intros [Hp Hs Hi Hc] Hnode Hchild. split; cbn.
  - by rewrite fmap_app, Hp.
  - intros x [Hx| ->%list_elem_of_singleton]%elem_of_app; [by apply Hs|]. cbn. intros Hd.
    destruct (Hnode Hd) as (i & m & ? & _). by exists i, m.
  - intros [Ho Hn]%app_eq_nil rel' [Hr| ->%list_elem_of_singleton]%elem_of_app; [by apply Hi|].
    unfold component_issues in Hn. case_bool_decide as Hd; [|done]. cbn in Hn.
    destruct (layoutModeSupported (ln_mode node)) eqn:Hm; [|done].
    destruct (Hnode Hd) as (i & m & ? & E). exists i, m. split; [done|].
    apply bool_decide_eq_true in Hm. rewrite E in Hm. rewrite <-Z.land_assoc in Hm. done.
  - intros rel' h. destruct child as [c|]; [|by apply Hc].
    destruct (decide (rel = rel')) as [<-|Hne].
    + rewrite lookup_insert_eq. intros [= <-]. by apply Hchild.
    + rewrite lookup_insert_ne by done. by apply Hc.
Qed.

Lemma ro_inspect_component ac as' agent st rel : ro (inspect_component ac as' agent st rel).
Proof. unfold inspect_component. ro_tac. Qed.
#[local] Hint Resolve ro_inspect_component : amq.

Lemma ro_inspect_components ac as' agent st rels : ro (inspect_components ac as' agent st rels).
Proof. revert st; induction rels as [|rel rels IH]; intros st; [done|]. cbn [inspect_components]. ro_tac. Qed.
#[local] Hint Resolve ro_inspect_components : amq.

Lemma sees_inspect_component (ac : option layoutDirCapability) as' agent done st rel :
  (forall h, ac = Some h -> h_path h = ["agents"]) -> one_ok agent done st ->
  sees e t (inspect_component ac as' agent st rel) (one_ok agent (done ++ [rel])).
Proof.
  intros Hac Hok. unfold inspect_component. cbv zeta.
  set (parent := match rel return option layoutDirCapability with [] => ac | _ => os_caps st !! Dir rel end).
  set (name := match rel with [] => agent | _ => Base rel end).
  assert (forall c, parent = Some c -> below c name = component_path agent rel) as Hbelow.
  { intros c Hc. unfold below. destruct rel as [|x rel].
    - by rewrite (Hac c Hc).
    - unfold parent in Hc. apply (oo_caps _ _ _ Hok) in Hc. rewrite Hc.
      unfold component_path, name. cbn [app]. by rewrite path_snoc. }
  clearbody parent name.
  eapply (sees_bind e t _ _ (fun x => (ln_state x.1 = MailboxPathDirectory ->
     exists i m, dents t !! component_path agent rel = Some (NDir i m) /\ ln_mode x.1 = Z.land m 511) /\
     forall h, x.2 = Some h -> h_path h = component_path agent rel)); [| |intros []; ro_tac].
  - destruct parent as [c|] eqn:Ep.
    + eapply sees_mono; [apply sees_inspectDirectoryComponent|]. intros x Hx.
      rewrite (Hbelow c eq_refl) in Hx. split; [intros; by eapply component_seen_dir|].
      intros h Hh. destruct x as [node child]. cbn in Hh. subst child. by destruct Hx as (_ & (? & _) & _).
    + apply sees_ret. cbn. by case_bool_decide.
  - intros [node child] [Hn Hc]. apply sees_ret. by apply one_ok_step.
Qed.

Lemma sees_inspect_components ac as' agent done st rels :
  (forall h, ac = Some h -> h_path h = ["agents"]) -> one_ok agent done st ->
  sees e t (inspect_components ac as' agent st rels) (one_ok agent (done ++ rels)).
Proof.
  intros Hac. revert done st; induction rels as [|rel rels IH]; intros done st Hok.
  - apply sees_ret. by rewrite app_nil_r.
  - cbn [inspect_components]. eapply sees_bind; [by apply sees_inspect_component| |intros ?; ro_tac].
    intros st' Hst'. rewrite (app_assoc done [rel] rels : done ++ rel :: rels = _). by apply IH.
Qed.

(** What an entry of the inventory says. *)
Definition entry_ok (m : MailboxInspection) : Prop :=
  match ValidateHandle (mi_Handle m) with
  | Some _ => mi_Issues m = ["invalid_handle"]
  | None =>
    pi_Path <$> mi_Paths m = mailboxComponentPaths /\
    (forall x, x ∈ mi_Paths m -> pi_State x = MailboxPathDirectory ->
       is_dir t (component_path (mi_Handle m) (pi_Path x))) /\
    (mi_Issues m = [] -> complete_mailbox (mi_Handle m))
  end.

Lemma sees_inspectOneMailbox nodes ac as' agent prov :
  ValidateHandle agent = None -> (forall h, ac = Some h -> h_path h = ["agents"]) ->
  sees e t (inspectOneMailbox nodes ac as' agent prov) (fun x => mi_Handle x.2 = agent /\ entry_ok x.2).
Proof.
  intros Hv Hac. unfold inspectOneMailbox.
  eapply sees_bind; [apply (sees_inspect_components ac as' agent []); [done|]| |intros ?; ro_tac].
  - split; cbn; [done|by intros x Hx%elem_of_nil|by intros _ rel Hr%elem_of_nil|done].
  - intros st [Hp Hs Hi _]. apply sees_ret. split; [reflexivity|]. unfold entry_ok. cbn [snd mi_Handle mi_Paths mi_Issues]. rewrite Hv.
    split; [exact Hp|]. split; [exact Hs|exact Hi].
Qed.

Lemma ro_inspect_handles c d au ac as' nodes acc hs : ro (inspect_handles c d au ac as' nodes acc hs).
Proof.
  revert nodes acc; induction hs as [|h hs IH]; intros nodes acc; [done|]. cbn [inspect_handles].
  unfold inspectOneMailbox. ro_tac.
Qed.

Lemma sees_inspect_handles c d au ac as' nodes acc hs :
  (forall h, ac = Some h -> h_path h = ["agents"]) -> Forall entry_ok acc ->
  sees e t (inspect_handles c d au ac as' nodes acc hs) (fun x =>
    Forall entry_ok x.2 /\ mi_Handle <$> x.2 = (mi_Handle <$> acc) ++ hs).
Proof.
  intros Hac. revert nodes acc; induction hs as [|h hs IH]; intros nodes acc Hacc.
  - apply sees_ret. cbn. by rewrite app_nil_r.
  - cbn [inspect_handles]. destruct (ValidateHandle h) eqn:Hv.
    + eapply sees_mono; [apply IH|].
      * apply Forall_app. split; [done|]. apply Forall_singleton. unfold entry_ok. cbn. by rewrite Hv.
      * intros x [? E]. rewrite fmap_app in E. cbn in E. rewrite <-app_assoc in E. by split.
    + eapply sees_bind; [by apply sees_inspectOneMailbox| |intros []; ro_tac; apply ro_inspect_handles].
      intros [nodes' m] [Eh Hm]. cbn in Eh, Hm.
      eapply sees_mono; [apply IH|].
      * apply Forall_app. split; [done|]. by apply Forall_singleton.
      * intros x [? E]. rewrite fmap_app in E. cbn in E. rewrite <-app_assoc, Eh in E. by split.
Qed.

(** An inventory that speaks the truth about all the handles of interest. *)
Definition plan_ok (hs : list string) (plan : mailboxLayoutPlan) : Prop :=
  Forall entry_ok (inv_Mailboxes (plan_inventory plan)) /\
  hs ⊆ mi_Handle <$> inv_Mailboxes (plan_inventory plan).

Lemma ro_inspectCapability rc cfg st is' hs : ro (inspectMailboxLayoutCapability rc cfg st is' hs).
Proof. unfold inspectMailboxLayoutCapability. ro_tac; apply ro_inspect_handles. Qed.

Lemma sees_inspectCapability rc cfg status issue hs :
  h_path rc = [] ->
  sees e t (inspectMailboxLayoutCapability rc cfg status issue hs) (fun x =>
    x.2 = None /\ plan_ok (cfg ++ hs) x.1 /\ inv_ConfiguredAgents (plan_inventory x.1) = cfg).
Proof.
  intros Hrc. unfold inspectMailboxLayoutCapability.
  eapply sees_bind; [apply sees_inspectDirectoryComponent| |intros []; ro_tac; apply ro_inspect_handles].
  intros [agentsNode ac] Hx.
  assert (forall h, ac = Some h -> h_path h = ["agents"]) as Hac.
  { intros h ->. destruct Hx as (_ & (E & _) & _). rewrite E. unfold below. by rewrite Hrc. }
  eapply sees_bind; [apply sees_any; destruct ac; ro_tac| |intros ?; ro_tac; apply ro_inspect_handles].
  intros names _. eapply sees_bind; [by apply sees_inspect_handles| |intros ?; ro_tac].
  intros [nodes l] [Hl E]. cbn in Hl, E. apply sees_ret. cbn. split; [done|]. split; [|done].
  split; [done|]. cbn. rewrite E. intros h Hh. rewrite sort_strings_perm. apply elem_of_elements. set_solver.
Qed.

End mailbox.
#[export] Hint Resolve ro_inspectCapability : amq.

Lemma ro_inspectMailboxLayoutWithConfig r cfg hs : ro (inspectMailboxLayoutWithConfig r cfg hs).
Proof. unfold inspectMailboxLayoutWithConfig. ro_tac. Qed.
Lemma ro_inspectMailboxLayout r hs : ro (inspectMailboxLayout r hs).
Proof. unfold inspectMailboxLayout. ro_tac. Qed.
#[export] Hint Resolve ro_inspectMailboxLayoutWithConfig ro_inspectMailboxLayout : amq.
Lemma ro_ValidateExisting r hs : ro (ValidateExistingMailboxLayout r hs).
Proof. unfold ValidateExistingMailboxLayout. ro_tac. Qed.
Lemma ro_repairFailure code stage p err created r cfg : ro (repairFailure code stage p err created r cfg).
Proof. unfold repairFailure. ro_tac. Qed.
#[export] Hint Resolve ro_ValidateExisting ro_repairFailure : amq.

(** ** Whole inspections *)

Lemma unique_handles_valid acc hs us :
  unique_handles acc hs = inl us -> Forall (fun h => ValidateHandle h = None) hs /\ acc ++ hs ⊆ us.
Proof.
  revert acc; induction hs as [|h hs IH]; intros acc; cbn.
  - intros [= <-]. split; [by constructor|]. by rewrite app_nil_r.
  - destruct (ValidateHandle h) eqn:Hv; [done|]. intros [H1 H2]%IH. split; [by constructor|].
    case_bool_decide; set_solver.
Qed.

Lemma find_some_None {A B} (f : A -> option B) l : find_some f l = None <-> Forall (fun x => f x = None) l.
Proof.
  induction l as [|x l IH]; cbn; [split; [by constructor|done]|]. rewrite Forall_cons, <-IH.
  destruct (f x); naive_solver.
Qed.

Lemma by_handle_in l h m : by_handle l h = Some m -> m ∈ l /\ mi_Handle m = h.
Proof.
  unfold by_handle. intros [H1 H2]%List.find_some. apply bool_decide_eq_true in H2. split; [|done].
  apply list_elem_of_In in H1. by rewrite reverse_Permutation in H1.
Qed.

Section inspections.
Context (e : env) (r : DeliveryRoot) (Hat : dr_at r = []).

Lemma sees_root t : sees e t (openLayoutRootCapability r) (fun x => match x with
  | (Some c, None) => h_path c = []
  | (None, Some _) => True
  | _ => False
  end).
Proof.
  unfold openLayoutRootCapability. eapply sees_bind; [apply sees_nofollow| |intros ?; ro_tac].
  intros [h|x] Hx; [|by apply sees_ret]. destruct Hx as [(? & [=] & _)|Hx].
  rewrite rp_root in Hx by done. injection Hx as ->. by apply sees_ret.
Qed.

Lemma sees_inspectWithConfig t cfg hs :
  sees e t (inspectMailboxLayoutWithConfig r cfg hs) (fun x => x.2 = None ->
    plan_ok t (cfg ++ hs) x.1 /\ inv_ConfiguredAgents (plan_inventory x.1) = cfg).
Proof.
  unfold inspectMailboxLayoutWithConfig.
  eapply sees_bind; [apply sees_any; auto with amq| |intros ?; ro_tac].
  intros [err|] _; [by apply sees_ret|].
  eapply sees_bind; [apply sees_root| |intros ?; ro_tac].
  intros [[c|] [err|]] Hx; [done| |by apply sees_ret|done].
  eapply sees_mono; [by apply sees_inspectCapability|]. by intros x (_ & ? & ?).
Qed.

Lemma sees_inspect t hs :
  sees e t (inspectMailboxLayout r hs) (fun x => x.2 = None -> plan_ok t hs x.1).
Proof.
  unfold inspectMailboxLayout.
  eapply sees_bind; [apply sees_any; auto with amq| |intros ?; ro_tac].
  intros [err|] _; [by apply sees_ret|].
  eapply sees_bind; [apply sees_root| |intros ?; ro_tac].
  intros [[c|] [err|]] Hx; [done| |by apply sees_ret|done].
  eapply sees_bind; [apply sees_any; auto with amq| |intros [[]]; ro_tac].
  intros [[cfg status] issue] _.
  eapply sees_mono; [by apply sees_inspectCapability|]. intros x (_ & [H1 H2] & _) _.
  split; [done|]. etrans; [|exact H2]. set_solver.
Qed.

Lemma sees_ValidateExisting t hs :
  sees e t (ValidateExistingMailboxLayout r hs) (fun x => x = None ->
    Forall (fun h => ValidateHandle h = None /\ complete_mailbox t h) hs).
Proof.
  unfold ValidateExistingMailboxLayout. destruct (unique_handles [] hs) as [us|] eqn:Hu; [|by apply sees_ret].
  apply unique_handles_valid in Hu as [Hv Hsub]. cbn in Hsub.
  eapply sees_bind; [apply sees_inspect| |intros ?; ro_tac].
  intros [plan [err|]] Hx; apply sees_ret; [done|]. destruct (Hx eq_refl) as [Hok _].
  intros Hn%find_some_None. rewrite Forall_forall in Hn, Hv |- *. intros h Hh. split; [by apply Hv|].
  specialize (Hn h (Hsub h Hh)). unfold incomplete in Hn.
  destruct (by_handle _ h) as [m|] eqn:Hm; [|done]. apply by_handle_in in Hm as [Hm <-].
  rewrite Forall_forall in Hok. specialize (Hok m Hm). unfold entry_ok in Hok.
  rewrite (Hv _ Hh) in Hok. apply Hok. by destruct (mi_Issues m).
Qed.

End inspections.

(** ** What a repair changes *)

(** The tree has the directories [C] more than before, nothing else is different. *)
Record grown (C : list path) (t0 t : tree) : Prop := {
  gr_nodup : NoDup C;
  gr_made : forall p, p ∈ C -> dents t0 !! p = None /\ exists i, dents t !! p = Some (NDir i 448);
  gr_rest : forall p, p ∉ C -> dents t !! p = dents t0 !! p;
  gr_data : data t = data t0;
}.

Lemma grown_nil t : grown [] t t.
Proof. split; [constructor|by intros p ?%elem_of_nil|done|done]. Qed.

Lemma grown_mkdir C t0 t p t' :
  grown C t0 t -> t_mkdir t p 448 = Ok t' -> grown (C ++ [p]) t0 t'.
Proof.
  intros [Hnd Hm Hr Hd] Hmk. unfold t_mkdir in Hmk. destruct p as [|x p]; [done|].
  destruct (t_parent t (x :: p)); [done|]. destruct (dents t !! (x :: p)) eqn:Hp; [done|].
  injection Hmk as <-. set (q := x :: p) in *.
  assert (q ∉ C) as Hq by (intros Hin; destruct (Hm q Hin) as (_ & i & E); congruence).
  split; cbn.
  - apply NoDup_app. split; [done|]. split; [intros y Hy ->%list_elem_of_singleton; done|apply NoDup_singleton].
  - intros y [Hy| ->%list_elem_of_singleton]%elem_of_app.
    + rewrite lookup_insert_ne by (by intros <-). by apply Hm.
    + rewrite <-Hr, lookup_insert_eq by done. split; [done|]. by eexists.
  - intros y [Hy Hne]%not_elem_of_app. rewrite lookup_insert_ne by set_solver. by apply Hr.
  - done.
Qed.

Lemma grown_chmod C t0 t p :
  grown C t0 t -> p ∈ C -> grown C t0 (set_dents (alter (chmod_node 448) p) t).
Proof.
  intros [Hnd Hm Hr Hd] Hp. split; cbn; [done| |intros q Hq|done].
  - intros q Hq. destruct (Hm q Hq) as (H1 & i & H2). split; [done|].
    destruct (decide (p = q)) as [->|Hne]; [rewrite lookup_alter_eq, H2; by exists i|].
    rewrite lookup_alter_ne by done. by exists i.
  - rewrite lookup_alter_ne by set_solver. by apply Hr.
Qed.

Section repair.
Context (e : env) (r : DeliveryRoot) (Hat : dr_at r = []) (cfg : mailboxActiveConfig) (fail : fail_hook).
Context (Hfail : forall stage p, ro (hook fail stage p)).
Context (I : tree -> Prop) (t0 : tree).

Definition given_up (created : list path) (res : MailboxRepairResult) : Prop :=
  rr_Status res = "partial" /\ rr_CreatedPaths res = created.

Lemma returns_repairFailure code stage p err created :
  returns (given_up created) (repairFailure code stage p err created r cfg).
Proof. eapply returns_bind; [apply returns_any|]. by intros x _. Qed.

Lemma wpi_repairFailure code stage p err created w :
  I (tr w) -> wpi e I (repairFailure code stage p err created r cfg)
    (fun res w' => given_up created res /\ tr w' = tr w /\ ctl_eq w w') w.
Proof. intros HI. apply wpi_returns; [apply returns_repairFailure|]. apply wpi_ro; auto with amq. Qed.

Lemma wpi_abandon {B} code stage p err created (Q : B + MailboxRepairResult -> world -> Prop) w :
  I (tr w) -> (forall res w', given_up created res -> tr w' = tr w -> Q (inr res) w') ->
  wpi e I (x ← repairFailure code stage p err created r cfg; Ret (inr x)) Q w.
Proof.
  intros HI HQ. apply wpi_bind. eapply wpi_mono; [by apply wpi_repairFailure|].
  intros res w' (H1 & H2 & _). wret. by apply HQ.
Qed.

Definition step_post {A} (path_of : A -> path) (p : path) (created : A -> list path)
    (x : A + MailboxRepairResult) (w' : world) : Prop :=
  match x with
  | inl a => path_of a = p /\ grown (created a) t0 (tr w')
  | inr res => exists C, given_up C res /\ grown C t0 (tr w')
  end.

Lemma wpi_chmod p created w :
  p ∈ created -> grown created t0 (tr w) -> (forall t, grown created t0 t -> I t) ->
  wpi e I (call (SChmod p 448)) (fun _ w' => grown created t0 (tr w')) w.
Proof.
  intros Hp Hg HI. assert (grown created t0 (tr (exec e (SChmod p 448) w).2)) as H.
  { cbn. unfold upd_unit, upd. destruct (e_fault e (tick w)); cbn; [done|]. by apply grown_chmod. }
  apply wpi_sys; [by apply HI|]. by apply wpi_ret.
Qed.

Lemma wpi_repair_settle (parent : layoutDirCapability) name p created w :
  below parent name = p -> p ∈ created -> grown created t0 (tr w) -> (forall t, grown created t0 t -> I t) ->
  wpi e I (repair_settle r cfg fail parent name p created) (step_post h_path p (fun _ => created)) w.
Proof.
  intros Hb Hp Hg HI. unfold repair_settle.
  assert (forall code stage err w1, grown created t0 (tr w1) ->
    wpi e I (x ← repairFailure code stage p err created r cfg; Ret (inr x))
      (step_post (A:=handle) h_path p (fun _ => created)) w1) as Hgu.
  { intros code stage err w1 Hg1. apply wpi_abandon; [by apply HI|]. intros res w' Hres Ht.
    exists created. by rewrite Ht. }
  apply wpi_ro_bind; [unfold lstatLayoutNode; ro_tac|by apply HI|]. intros [current|x] w1 Ht1 _; rewrite <-Ht1 in Hg; [|by apply Hgu].
  destruct (negb (bool_decide (i_kind current = KDir))); [by apply Hgu|].
  apply wpi_ro_bind; [done|by apply HI|]. intros [err|] w2 Ht2 _; rewrite <-Ht2 in Hg; [by apply Hgu|].
  apply wpi_bind. eapply wpi_mono; [apply wpi_sees; [by apply HI|]; apply sees_openLayoutDirectory|].
  intros [[child|] [err|]] w3 (Hx & Ht3 & _); rewrite <-Ht3 in Hg; try done; [|by apply Hgu].
  destruct Hx as (Hc & _). rewrite Hb in Hc.
  apply wpi_ro_bind; [done|by apply HI|]. intros [err|] w4 Ht4 _; rewrite <-Ht4 in Hg; [by apply Hgu|].
  apply wpi_bind. unfold cap_chmod. rewrite Hc. eapply wpi_mono; [by apply (wpi_chmod p created)|].
  clear Hg. intros [err|] w5 Hg; [by apply Hgu|].
  apply wpi_ro_bind; [unfold cap_mode; ro_tac|by apply HI|]. intros [mode|x] w6 Ht6 _; rewrite <-Ht6 in Hg; [|by apply Hgu].
  destruct (negb (layoutModeSupported mode)); [by apply Hgu|].
  apply wpi_ro_bind; [done|by apply HI|]. intros [err|] w7 Ht7 _; rewrite <-Ht7 in Hg; [by apply Hgu|].
  apply wpi_ro_bind; [unfold cap_sync; ro_tac|by apply HI|]. intros [err|] w8 Ht8 _; rewrite <-Ht8 in Hg; [by apply Hgu|].
  apply wpi_ro_bind; [done|by apply HI|]. intros [err|] w9 Ht9 _; rewrite <-Ht9 in Hg; [by apply Hgu|].
  apply wpi_ro_bind; [unfold cap_sync; ro_tac|by apply HI|]. intros [err|] wa Hta _; rewrite <-Hta in Hg; [by apply Hgu|].
  wret. done.
Qed.

Definition loop_post (p : path) := step_post (A:=handle * list path) (fun a => h_path a.1) p snd.

Lemma wpi_repair_create (parent : layoutDirCapability) name p stat created w :
  below parent name = p -> grown created t0 (tr w) -> (forall C t, C ∈ [created; created ++ [p]] -> grown C t0 t -> I t) ->
  wpi e I (repair_create r cfg fail parent name p stat created) (fun x w' => loop_post p x w' /\
    forall a, x = inl a -> a.2 = created ++ [p]) w.
Proof.
  intros Hb Hg HI. unfold repair_create.
  assert (forall t, grown created t0 t -> I t) as HI1 by (intros t; apply HI; set_solver).
  assert (forall t, grown (created ++ [p]) t0 t -> I t) as HI2 by (intros t; apply HI; set_solver).
  assert (forall code stage err w1, grown created t0 (tr w1) ->
    wpi e I (x ← repairFailure code stage p err created r cfg; Ret (inr x))
      (fun x w' => loop_post p x w' /\ forall a, x = inl a -> a.2 = created ++ [p]) w1) as Hgu.
  { intros code stage err w1 Hg1. apply wpi_abandon; [by apply HI1|]. intros res w' Hres Ht.
    split; [|done]. exists created. by rewrite Ht. }
  destruct stat as [i|x]; [by apply Hgu|].
  destruct (negb (errors_Is_NotExist (EErrno x))); [by apply Hgu|].
  apply wpi_ro_bind; [done|by apply HI1|]. intros [err|] w1 Ht1 _; rewrite <-Ht1 in Hg; [by apply Hgu|].
  apply wpi_bind. unfold mkdirLayoutDirectory. rewrite Hb.
  assert (match (exec e (SMkdir p 448) w1).1 with Ok _ => grown (created ++ [p]) t0 (tr (exec e (SMkdir p 448) w1).2)
          | Er _ => grown created t0 (tr (exec e (SMkdir p 448) w1).2) end) as Hmk.
  { cbn. unfold upd_unit, upd. destruct (e_fault e (tick w1)); cbn; [done|].
    destruct (t_mkdir (tr w1) p 448) as [t'|] eqn:E; cbn; [|done]. by eapply grown_mkdir. }
  apply wpi_sys; [by destruct (exec e (SMkdir p 448) w1).1; [apply HI2|apply HI1]|]. apply wpi_ret.
  destruct (exec e (SMkdir p 448) w1) as [[?|y] w2]; cbn in Hmk |- *; [|by apply Hgu].
  apply wpi_bind. eapply wpi_mono; [apply wpi_repair_settle; [done| |done|done]; set_solver|].
  intros [child|res] w3 Hx; wret.
  - split; [done|]. by intros ? [= <-].
  - by split.
Qed.

Lemma wpi_repair_keep (parent : layoutDirCapability) name p before stat created w :
  below parent name = p -> grown created t0 (tr w) -> (forall t, grown created t0 t -> I t) ->
  wpi e I (repair_keep r cfg parent name p before stat created) (fun x w' => loop_post p x w' /\
    forall a, x = inl a -> a.2 = created) w.
Proof.
  intros Hb Hg HI. unfold repair_keep.
  assert (forall code stage err w1, grown created t0 (tr w1) ->
    wpi e I (x ← repairFailure code stage p err created r cfg; Ret (inr x))
      (fun x w' => loop_post p x w' /\ forall a, x = inl a -> a.2 = created) w1) as Hgu.
  { intros code stage err w1 Hg1. apply wpi_abandon; [by apply HI|]. intros res w' Hres Ht.
    split; [|done]. exists created. by rewrite Ht. }
  destruct stat as [current|x]; [|by apply Hgu]. case_match; [by apply Hgu|].
  apply wpi_bind. eapply wpi_mono; [apply wpi_sees; [by apply HI|]; apply sees_openLayoutDirectory|].
  intros [[child|] [err|]] w3 (Hx & Ht3 & _); rewrite <-Ht3 in Hg; try done; [|by apply Hgu].
  destruct Hx as (Hc & _). rewrite Hb in Hc. wret. split; [done|]. by intros ? [= <-].
Qed.

Definition loop_result (all : list path) (x : list path + MailboxRepairResult) (w' : world) : Prop :=
  match x with
  | inl C => C ⊆ all /\ grown C t0 (tr w')
  | inr res => exists C, given_up C res /\ grown C t0 (tr w')
  end.

Lemma wpi_repair_loop (nodes : gmap path mailboxLayoutNode) (caps : gmap path layoutDirCapability) all created paths w :
  (forall q c, caps !! q = Some c -> h_path c = q) -> Forall (fun p => p <> []) paths ->
  created ++ paths ⊆ all -> grown created t0 (tr w) -> (forall C t, C ⊆ all -> grown C t0 t -> I t) ->
  wpi e I (repair_loop r cfg fail nodes caps created paths) (loop_result all) w.
Proof.
  revert caps created w; induction paths as [|p paths IH]; intros caps created w Hcaps Hne Hall Hg HI.
  { wret. split; [|done]. by rewrite app_nil_r in Hall. }
  apply Forall_cons in Hne as [Hp Hne]. cbn [repair_loop].
  assert (created ⊆ all) as Hc1 by (clear -Hall; set_solver).
  assert (created ++ [p] ⊆ all) as Hc2 by (clear -Hall; set_solver).
  assert (forall t, grown created t0 t -> I t) as HI1 by (intros t; by apply HI).
  assert (forall code stage err w1, grown created t0 (tr w1) ->
    wpi e I (x ← repairFailure code stage p err created r cfg; Ret (inr x)) (loop_result all) w1) as Hgu.
  { intros code stage err w1 Hg1. apply wpi_abandon; [by apply HI1|]. intros res w' Hres Ht.
    exists created. by rewrite Ht. }
  destruct (caps !! Dir p) as [parent|] eqn:Hpar; [|by apply Hgu].
  assert (below parent (Base p) = p) as Hb by (unfold below; rewrite (Hcaps _ _ Hpar); by apply path_snoc).
  apply wpi_ro_bind; [unfold lstatLayoutNode; ro_tac|by apply HI1|].
  intros stat w1 Ht1 _. rewrite <-Ht1 in Hg. apply wpi_bind.
  eapply wpi_mono with (Q := fun x w' => loop_post p x w' /\ forall a, x = inl a -> a.2 = created \/ a.2 = created ++ [p]).
  - destruct (nodes !! p) as [[[] ? ?]|]; try (apply wpi_abandon; [by apply HI1|];
      intros res w' Hres Ht; split; [exists created; by rewrite Ht|done]).
    + eapply wpi_mono; [by apply wpi_repair_keep|]. intros x w' [? Ha]. split; [done|].
      intros [c l] E. specialize (Ha _ E). cbn in Ha |- *. subst l. by left.
    + eapply wpi_mono; [apply wpi_repair_create; [done|done|]|].
      * intros C t [->| ->%list_elem_of_singleton]%elem_of_cons; by apply HI.
      * intros x w' [? Ha]. split; [done|]. intros [c l] E. specialize (Ha _ E). cbn in Ha |- *. subst l. by right.
  - intros [[child created']|res] w2 [Hx Ha]; [|wret; exact Hx].
    destruct Hx as [Hc Hg2]. cbn in Hc, Hg2. specialize (Ha _ eq_refl). cbn in Ha.
    apply IH; [|done| |done|done].
    + intros q c. destruct (decide (p = q)) as [<-|Hq]; [rewrite lookup_insert_eq; by intros [= <-]|].
      rewrite lookup_insert_ne by done. apply Hcaps.
    + clear -Ha Hall. destruct Ha as [-> | ->]; set_solver.
Qed.

Definition mailbox_made (t : tree) (h : string) : Prop :=
  forall rel, rel ∈ mailboxComponentPaths -> is_dir t (component_path h rel).

Lemma merge_one_same l p :
  (fun m => (mi_Handle m, mi_Paths m)) <$> merge_one l p = (fun m => (mi_Handle m, mi_Paths m)) <$> l.
Proof.
  unfold merge_one. destruct p as [|x [|agent rel]]; try done; [by repeat case_match|].
  repeat case_match; try done. induction l as [|m l IH]; [done|]. cbn. case_bool_decide; [done|]. cbn. by rewrite IH.
Qed.

Lemma mergeCreatedPaths_same inv C m :
  m ∈ inv_Mailboxes inv -> exists m', m' ∈ inv_Mailboxes (mergeCreatedPaths inv C) /\
    mi_Handle m' = mi_Handle m /\ mi_Paths m' = mi_Paths m.
Proof.
  cbn. generalize (inv_Mailboxes inv) as l. intros l Hm.
  assert ((fun m => (mi_Handle m, mi_Paths m)) <$> foldl merge_one l C = (fun m => (mi_Handle m, mi_Paths m)) <$> l) as E.
  { clear Hm. revert l; induction C as [|p C IH]; intros l; [done|]. cbn [foldl]. by rewrite IH, merge_one_same. }
  apply (list_elem_of_fmap_2 (fun m => (mi_Handle m, mi_Paths m))) in Hm. rewrite <-E in Hm.
  apply list_elem_of_fmap in Hm as (m' & [= H1 H2] & Hm'). by exists m'.
Qed.

(** All the paths of an accepted inspection are directories. *)
Lemma not_repaired_dirs t hs h plan C :
  plan_ok t hs plan -> h ∈ hs -> ValidateHandle h = None ->
  not_repaired hs (inv_Mailboxes (mergeCreatedPaths (plan_inventory plan) C)) = None -> mailbox_made t h.
Proof.
  intros [Hok Hsub] Hh Hv Hn%find_some_None rel Hrel. rewrite Forall_forall in Hok, Hn.
  pose proof (Hsub h Hh) as (m & -> & Hm)%list_elem_of_fmap. specialize (Hok m Hm). unfold entry_ok in Hok.
  rewrite Hv in Hok. destruct Hok as (Hp & Hs & _). rewrite <-Hp in Hrel.
  apply list_elem_of_fmap in Hrel as (x & -> & Hx).
  destruct (mergeCreatedPaths_same (plan_inventory plan) C m Hm) as (m' & Hm' & E1 & E2).
  specialize (Hn m' Hm'). cbn beta in Hn. rewrite E1, E2, bool_decide_eq_true_2 in Hn by done. cbn [negb] in Hn.
  apply find_some_None in Hn. rewrite Forall_forall in Hn. specialize (Hn x Hx). cbn beta in Hn.
  case_bool_decide; [|done]. by apply Hs.
Qed.

Lemma preflight_valid t hs plan :
  plan_ok t hs plan -> preflightHazard plan hs = None -> Forall (fun h => ValidateHandle h = None) hs.
Proof.
  intros [Hok Hsub] Hp. apply Forall_forall. intros h Hh.
  pose proof (Hsub h Hh) as (m & -> & Hm)%list_elem_of_fmap. rewrite Forall_forall in Hok.
  specialize (Hok m Hm). unfold entry_ok in Hok. destruct (ValidateHandle (mi_Handle m)); [|done].
  unfold preflightHazard in Hp. do 2 (case_match; [done|]). apply find_some_None in Hp.
  rewrite Forall_forall in Hp. specialize (Hp m Hm). unfold mailbox_hazard in Hp.
  rewrite bool_decide_eq_true_2, Hok in Hp by done. done.
Qed.

(** What the result of a repair says. *)
Definition repair_post (hs : list string) (res : MailboxRepairResult) (w' : world) : Prop :=
  grown (rr_CreatedPaths res) t0 (tr w') /\
  (rr_Status res = "failed" -> rr_CreatedPaths res = []) /\
  (rr_Status res = "repaired" -> Forall (fun h => ValidateHandle h = None /\ mailbox_made (tr w') h) hs).

Lemma given_up_post hs C res w : given_up C res -> grown C t0 (tr w) -> repair_post hs res w.
Proof. intros [Hs Hc] Hg. unfold repair_post. rewrite Hs, Hc. by split. Qed.

Lemma failed_post hs code stage p x inv w : tr w = t0 -> repair_post hs (failed code stage p x inv) w.
Proof. intros E. split; [cbn; rewrite E; apply grown_nil|]. by split. Qed.

Lemma wpi_repair_verify a hs created w :
  Forall (fun h => ValidateHandle h = None) hs -> grown created t0 (tr w) -> (forall t, grown created t0 t -> I t) ->
  wpi e I (repair_verify r cfg a hs created) (repair_post hs) w.
Proof.
  intros Hv Hg HI. unfold repair_verify.
  assert (forall code stage p err w1, grown created t0 (tr w1) ->
    wpi e I (repairFailure code stage p err created r cfg) (repair_post hs) w1) as Hgu.
  { intros code stage p err w1 Hg1. eapply wpi_mono; [apply wpi_repairFailure; by apply HI|].
    intros res w' (Hres & Ht & _). eapply given_up_post; [done|]. by rewrite Ht. }
  apply wpi_ro_bind; [auto with amq|by apply HI|]. intros [err|] w1 Ht1 _; rewrite <-Ht1 in Hg; [by apply Hgu|].
  apply wpi_bind. eapply wpi_mono; [apply wpi_sees; [by apply HI|]; by apply sees_inspectWithConfig|].
  intros [plan [err|]] w2 (Hx & Ht2 & _); rewrite <-Ht2 in Hg; [by apply Hgu|].
  destruct (Hx eq_refl) as [[Hok Hsub] _]. cbn in Hok, Hsub.
  destruct (not_repaired hs _) as [[p err]|] eqn:Hnr; [by apply Hgu|].
  apply wpi_ro_bind; [auto with amq|by apply HI|]. intros [err|] w3 Ht3 _; rewrite <-Ht3 in Hg; [by apply Hgu|].
  wret. split; [done|]. split; [done|]. intros _. rewrite Forall_forall in Hv |- *. intros h Hh.
  split; [by apply Hv|]. rewrite Ht3. eapply not_repaired_dirs; [|done|by apply Hv|done].
  rewrite Ht2. split; [done|]. etrans; [|exact Hsub]. set_solver.
Qed.

End repair.

(** Repairing mailbox layouts: RepairMailboxLayoutForAgentsAuthorized and
    RepairMailboxLayout of internal/fsq/layout.go as a whole. *)

(** A directory of the layout of one of the agents. *)
Definition layout_dir (agents : list string) (p : path) : Prop :=
  p = ["agents"] \/ exists h rel, h ∈ agents /\ rel ∈ mailboxComponentPaths /\ p = component_path h rel.

Lemma foldl_add_unseen acc l : forall p, p ∈ foldl add_unseen acc l <-> p ∈ acc \/ p ∈ l.
Proof.
  revert acc; induction l as [|q l IH]; intros acc p; cbn [foldl]; [set_solver|]. rewrite IH.
  unfold add_unseen. case_bool_decide; set_solver.
Qed.

Lemma repairComponentPaths_spec hs p : p ∈ repairComponentPaths hs <-> layout_dir hs p.
Proof.
  unfold repairComponentPaths, layout_dir. rewrite foldl_add_unseen, list_elem_of_singleton.
  split; intros [?|H]; try (by left); right.
  - apply list_elem_of_bind in H as (h & Hp & Hh). rewrite sort_strings_perm in Hh.
    apply list_elem_of_fmap in Hp as (rel & -> & Hrel). by exists h, rel.
  - destruct H as (h & rel & Hh & Hrel & ->). apply list_elem_of_bind. exists h.
    rewrite sort_strings_perm. split; [by apply list_elem_of_fmap_2|done].
Qed.

Lemma layout_dir_not_nil hs : Forall (fun p => p <> []) (repairComponentPaths hs).
Proof. apply Forall_forall. intros p [->|(h & rel & _ & _ & ->)]%repairComponentPaths_spec; done. Qed.

Section repair.
Context (e : env) (r : DeliveryRoot) (Hat : dr_at r = []).

(** Between the calls of a repair: some directories of the layout were made. *)
Definition repairing (hs : list string) (t0 t : tree) : Prop :=
  exists C, (forall p, p ∈ C -> layout_dir hs p) /\ grown C t0 t.

Lemma repairing_refl hs t : repairing hs t t.
Proof. exists []. split; [by intros p ?%elem_of_nil|apply grown_nil]. Qed.

Lemma wpi_repairWithConfig a rs (configured : bool) cfg fail w :
  (forall stage p, ro (hook fail stage p)) -> let hs := if configured then cfg else rs in
  wpi e (repairing hs (tr w)) (repairMailboxLayoutHandlesAuthorizedWithConfig r a rs configured cfg fail)
    (repair_post (tr w) hs) w.
Proof.
  intros Hfail hs. unfold repairMailboxLayoutHandlesAuthorizedWithConfig. destruct a as [pin|].
  2:{ wret. by apply failed_post. }
  set (J := repairing hs (tr w)). assert (forall w1, tr w1 = tr w -> J (tr w1)) as HJ.
  { intros w1 ->. apply repairing_refl. }
  apply wpi_ro_bind; [auto with amq|by apply HJ|]. intros [err|] w1 Ht1 _; [wret; by apply failed_post|].
  apply wpi_bind. eapply wpi_mono; [apply wpi_sees; [by apply HJ|]; by apply sees_inspectWithConfig|].
  intros [plan [err|]] w2 (Hx & Ht2 & _); [wret; apply failed_post; congruence|].
  destruct (Hx eq_refl) as [[Hok Hsub] Hcfg]. cbn in Hok, Hsub, Hcfg. rewrite Ht1 in *.
  replace (if configured then inv_ConfiguredAgents (plan_inventory plan) else rs) with hs by (by rewrite Hcfg).
  assert (plan_ok (tr w) hs plan) as Hplan.
  { split; [done|]. etrans; [|exact Hsub]. unfold hs. destruct configured; set_solver. }
  destruct (preflightHazard plan hs) as [x|] eqn:Hpre; [wret; by apply failed_post|].
  pose proof (preflight_valid (tr w) hs plan Hplan Hpre) as Hv.
  apply wpi_ro_bind; [auto with amq|by apply HJ|]. intros [err|] w3 Ht3 _; [wret; apply failed_post; congruence|].
  apply wpi_bind. eapply wpi_mono; [apply wpi_sees; [apply HJ; congruence|]; by apply sees_root|].
  assert (forall C t, C ⊆ repairComponentPaths hs -> grown C (tr w) t -> J t) as HI.
  { intros C t HC Hg. exists C. split; [|done]. intros p Hp. by apply repairComponentPaths_spec, HC. }
  intros [[rc|] [err|]] w4 (Hrc & Ht4 & _); try done.
  - apply wpi_bind. eapply wpi_mono; [apply (wpi_repair_loop e r Hat cfg fail Hfail J (tr w) _ _ (repairComponentPaths hs))|].
    + intros q c. destruct (decide (q = [])) as [->|Hq]; [rewrite lookup_singleton_eq; by intros [= <-]|].
      by rewrite lookup_singleton_ne.
    + apply layout_dir_not_nil.
    + done.
    + rewrite Ht4, Ht3, Ht2. apply grown_nil.
    + intros C t HC. by apply HI.
    + intros [C|res] w5 Hz.
      * destruct Hz as [HC Hg]. apply (wpi_repair_verify e r Hat cfg fail Hfail); [done|exact Hg|]. intros t. by apply HI.
      * wret. destruct Hz as (C & Hres & Hg). by eapply given_up_post.
  - eapply wpi_mono; [apply wpi_repairFailure; apply HJ; congruence|].
    intros res w5 (Hres & Ht5 & _). eapply given_up_post; [done|]. rewrite Ht5, Ht4, Ht3, Ht2. apply grown_nil.
Qed.

Lemma unique_handles_sub acc hs us : unique_handles acc hs = inl us -> us ⊆ acc ++ hs.
Proof.
  revert acc; induction hs as [|h hs IH]; intros acc; cbn; [intros [= <-]; by rewrite app_nil_r|].
  destruct (ValidateHandle h); [done|]. intros H%IH. clear IH. case_bool_decide; set_solver.
Qed.

Lemma layout_dir_mono hs hs' p : hs ⊆ hs' -> layout_dir hs p -> layout_dir hs' p.
Proof. intros H [->|(h & rel & ? & ? & ->)]; [by left|]. right. exists h, rel. auto. Qed.

Lemma repair_post_mono t0 hs hs' res w : hs' ⊆ hs -> repair_post t0 hs res w -> repair_post t0 hs' res w.
Proof.
  intros H (? & ? & Hr). split; [done|]. split; [done|]. intros E. specialize (Hr E).
  rewrite Forall_forall in *. auto.
Qed.

Lemma wpi_RepairForAgents config agents w :
  wpi e (repairing agents (tr w)) (RepairMailboxLayoutForAgentsAuthorized r config agents)
    (repair_post (tr w) agents) w.
Proof.
  unfold RepairMailboxLayoutForAgentsAuthorized.
  apply wpi_ro_bind; [auto with amq|apply repairing_refl|].
  intros [[a inv] [err|]] w1 Ht1 _; [wret; by apply failed_post|].
  unfold RepairMailboxLayoutForAgentsWithAuthorization.
  destruct (unique_handles [] agents) as [us|] eqn:Hu; [|wret; by apply failed_post].
  unfold repairMailboxLayoutHandlesAuthorized. destruct a as [pin|]; [|wret; by apply failed_post].
  rewrite <-Ht1. eapply wpi_mono; [eapply wpi_inv_mono; [|by apply (wpi_repairWithConfig (Some pin) us false)]|].
  - intros t (C & HC & Hg). exists C. split; [|done]. intros p Hp. eapply layout_dir_mono; [|by apply HC].
    by apply unique_handles_sub in Hu.
  - intros res w2. apply repair_post_mono. by apply unique_handles_valid in Hu as [_ ?].
Qed.

End repair.

(** C34: A repair only adds what is missing: stopped after any call, under any I/O failures, the
    tree has some more directories of the layouts of the agents asked for, each with mode 0700
    and made where nothing was, and nothing else is different: no file, link or directory that
    was there was changed, replaced or removed. *)
Theorem repair_only_adds e r config agents w :
  dr_at r = [] ->
  Forall (fun w' => repairing agents (tr w) (tr w'))
    (trace e (RepairMailboxLayoutForAgentsAuthorized r config agents) w).
Proof. intros Hat. eapply wpi_trace. by apply wpi_RepairForAgents. Qed.

Definition config_file : path * string := (["meta"; "config.json"], "{" +:+ DQ +:+ "agents" +:+ DQ +:+ ": [" +:+ DQ +:+ "bob" +:+ DQ +:+ "]}").
(** The sample queue, where the mailboxes have no outbox, with a configuration. *)
Definition unfinished : world :=
  let t := add_dir (sample_tree []) ["meta"] 448 in
  World (t_write (add_file t config_file.1) (fresh_ino t) config_file.2) 0 ∅ 0 ∅.

Example repair_only_adds_witness :
  Forall (fun w' => repairing ["bob"] (tr unfinished) (tr w'))
    (trace (failing_env 200 EIO) (RepairMailboxLayoutForAgentsAuthorized sample_root sample_root ["bob"]) unfinished).
Proof. by apply repair_only_adds. Defined.

(** What a repair returns accounts for what it did, whatever failed: the created paths it
    reports are exactly the directories the tree has more than before; a repair that failed in
    its preflight changed nothing; and after one that reports success every agent asked for has
    a valid handle and every directory of its mailbox is there. *)
Theorem repair_accounts e r config agents w res w' :
  dr_at r = [] -> run e (RepairMailboxLayoutForAgentsAuthorized r config agents) w = (res, w') ->
  grown (rr_CreatedPaths res) (tr w) (tr w') /\
  (rr_Status res = "failed" -> rr_CreatedPaths res = []) /\
  (rr_Status res = "repaired" -> Forall (fun h => ValidateHandle h = None /\
     forall rel, rel ∈ mailboxComponentPaths -> is_dir (tr w') (component_path h rel)) agents).
Proof.
  intros Hat E. pose proof (wpi_run e _ _ _ _ (wpi_RepairForAgents e r Hat config agents w)) as H.
  by rewrite E in H.
Qed.

Example repair_accounts_witness :
  let x := run quiet_env (RepairMailboxLayoutForAgentsAuthorized sample_root sample_root ["bob"]) unfinished in
  rr_Status x.1 = "repaired" /\ rr_CreatedPaths x.1 = [["agents"; "bob"; "outbox"]; ["agents"; "bob"; "outbox"; "sent"]] /\
  grown (rr_CreatedPaths x.1) (tr unfinished) (tr x.2).
Proof.
  split; [vm_compute; reflexivity|]. split; [vm_compute; reflexivity|].
  eapply (repair_accounts quiet_env sample_root sample_root ["bob"] unfinished); [reflexivity|apply surjective_pairing].
Defined.
