(* ===== verification/ExistingInbox.v ===== *)
(** Delivery into an inbox that must be there already: DeliverToExistingInbox of
    internal/fsq/maildir.go. *)
From S2P Require Import Prelude GoStr GoPath GoErr Fs Wp FsFacts Names DeliveryRoot DeliveryRootFacts Sample Maildir Delivery Layout Repair.

(** Writing and syncing the temporary; the record says where the delivery goes. *)
Definition write_stage (r : DeliveryRoot) (agent filename data : string) (tmpPath : path)
  : prog (option stagedDelivery * option gerr) :=
  if_err x := writeAndSync r tmpPath data then Ret (None, Some x) else
  if_err x := syncDir r (inbox_dir agent "tmp") then
    x' ← cleanupTemp r tmpPath x; Ret (None, Some x') else
  Ret (Some (Staged agent (inbox_dir agent "tmp") (inbox_dir agent "new") tmpPath
               (Join_under (inbox_dir agent "new") [filename])), None).

Definition DeliverToExistingInbox (r : DeliveryRoot) (agent filename data : string)
  : prog (path * option gerr) :=
  match ValidateHandle agent with
  | Some e => Ret ([], Some e)
  | None =>
    match ValidateMessageFilename filename with
    | Some e => Ret ([], Some e)
    | None =>
      if_err e := VerifyBase r then Ret ([], Some e) else
      if_err e := ValidateExistingMailboxLayout r [agent] then Ret ([], Some e) else
      tmpThere ← dirExists r (inbox_dir agent "tmp");
      if negb tmpThere then Ret ([], Some (EMsg "peer inbox tmp dir does not exist")) else
      newThere ← dirExists r (inbox_dir agent "new");
      if negb newThere then Ret ([], Some (EMsg "peer inbox new dir does not exist")) else
      let_val tmpPath := uniqueAttemptTmpPath (inbox_dir agent "tmp") filename orelse e => Ret ([], Some e) in
      x ← write_stage r agent filename data tmpPath;
      match x with
      | (Some s, None) =>
        if_err e := publishTmpNoReplace r (sd_tmpPath s) (sd_newPath s) data then
          Ret ([], Some (Errorf "rename tmp->new" e)) else
        let committedPath := displayPath r (sd_newPath s) in
        if_err e := syncDir r (sd_newDir s) then
          Ret (committedPath, Some (ECommitted committedPath agent (Errorf "sync new dir" e))) else
        _ ← syncDir r (sd_tmpDir s);
        Ret (committedPath, None)
      | (_, e) => Ret ([], e)
      end
    end
  end.

Section existing.
Context (e : env) (r : DeliveryRoot) (Hat : dr_at r = []).

Definition existing_post (a f d : string) (t0 : tree) (x : path * option gerr) (w' : world) : Prop :=
  atomic_for [a] f d t0 (tr w') /\
  match x with
  | (p, None) => p = displayPath r (dest f a) /\ content (tr w') (dest f a) = Some d /\ complete_mailbox t0 a
  | (p, Some err) =>
    if is_committed err then p = displayPath r (dest f a) /\ content (tr w') (dest f a) = Some d
    else dents (tr w') !! dest f a = dents t0 !! dest f a
  end.

Lemma existing_early a f d t0 err w :
  visible_err err = false -> HasPrefix f "." = false -> evo hidden t0 (tr w) -> existing_post a f d t0 ([], Some err) w.
Proof.
  intros Herr Hf Hev. split; [by apply atomic_for_hidden|]. rewrite quiet_not_committed by done.
  apply (evo_deep _ _ _ _ Hev); [by apply box_path_visible|apply box_path_depth].
Qed.

Lemma existing_same a f d t0 err w :
  visible_err err = false -> tr w = t0 -> existing_post a f d t0 ([], Some err) w.
Proof.
  intros Herr E. split; [rewrite E; apply atomic_for_refl|]. rewrite quiet_not_committed by done. by rewrite E.
Qed.

Lemma quiet_ValidateExisting hs : returns quiet (ValidateExistingMailboxLayout r hs).
Proof.
  unfold ValidateExistingMailboxLayout. destruct (unique_handles [] hs) as [us|x] eqn:Hu.
  - eapply (returns_bind (fun x => quiet x.2)).
    + unfold inspectMailboxLayout.
      eapply returns_bind; [apply quiet_VerifyBase|]. intros [y|] Hy; [done|].
      eapply (returns_bind (fun x => quiet x.2)).
      { unfold openLayoutRootCapability. quiet_tac. }
      intros [[c|] [y'|]] Hy'; try done.
      eapply returns_bind; [apply returns_any|]. intros [[cfg st] is'] _.
      unfold inspectMailboxLayoutCapability. eapply returns_bind; [apply returns_any|]. intros [] _.
      eapply returns_bind; [apply returns_any|]. intros ? _.
      eapply returns_bind; [apply returns_any|]. by intros ? _.
    + intros [plan [y|]] Hy; [done|]. cbn. destruct (find_some _ us) as [z|] eqn:Hz; [|done].
      revert Hz. clear. induction us as [|h us IH]; [done|]. cbn. unfold incomplete at 1.
      repeat case_match; intros; simplify_eq; try done; auto.
  - cbn. revert Hu. generalize (@nil string) as acc. induction hs as [|h hs IH]; intros acc; [done|]. cbn.
    destruct (ValidateHandle h) eqn:Hv; [|apply IH]. intros [= <-]. by eapply handle_error_quiet.
Qed.

Lemma quiet_write_stage a f d p : returns (fun x => quiet x.2) (write_stage r a f d p).
Proof. unfold write_stage. quiet_tac. Qed.

Lemma wpi_DeliverToExistingInbox a f d w :
  wpi e (atomic_for [a] f d (tr w)) (DeliverToExistingInbox r a f d) (existing_post a f d (tr w)) w.
Proof.
  unfold DeliverToExistingInbox. destruct (ValidateHandle a) eqn:Ha; [wret; apply existing_same; [by eapply handle_error_quiet|done]|].
  destruct (ValidateMessageFilename f) eqn:Hf; [wret; apply existing_same; [by eapply filename_error_quiet|done]|].
  pose proof (filename_not_hidden f Hf) as Hhid. set (J := atomic_for [a] f d (tr w)).
  assert (forall w1, tr w1 = tr w -> J (tr w1)) as HJ by (intros w1 ->; apply atomic_for_refl).
  apply wpi_bind. eapply wpi_mono; [apply wpi_returns; [apply quiet_VerifyBase|]; apply wpi_ro; [auto with amq|by apply HJ]|].
  intros [x|] w1 (Hq & Ht1 & _); [wret; by apply existing_same|].
  apply wpi_bind. eapply wpi_mono; [apply wpi_returns; [apply quiet_ValidateExisting|]; apply wpi_sees; [by apply HJ|by apply sees_ValidateExisting]|].
  intros [x|] w2 (Hq2 & Hlay & Ht2 & _); rewrite Ht1 in Ht2; [wret; by apply existing_same|].
  specialize (Hlay eq_refl). apply Forall_singleton in Hlay as [_ Hlay]. rewrite Ht1 in Hlay.
  apply wpi_ro_bind; [auto with amq|by apply HJ|]. intros [] w3 Ht3 _; rewrite Ht2 in Ht3; [|wret; by apply existing_same].
  apply wpi_ro_bind; [auto with amq|by apply HJ|]. intros [] w4 Ht4 _; rewrite Ht3 in Ht4; [|wret; by apply existing_same].
  cbn [negb]. apply wpi_bind. eapply wpi_mono; [apply wpi_returns; [apply quiet_tmpPath|]; by apply wpi_tmpPath; [..|apply HJ]|].
  intros [tmp [x|]] w5 (Hq5 & Ht5 & _ & Htmp); rewrite Ht4 in Ht5; [wret; by apply existing_same|].
  destruct Htmp as (name & -> & Hname).
  assert (forall t, evo hidden (tr w5) t -> J t) as HJh by (rewrite Ht5; intros t Ht; by apply atomic_for_hidden).
  apply wpi_bind. eapply wpi_mono; [apply wpi_returns; [apply quiet_write_stage|];
    by apply (wpi_stage_write e r Hat J f d a name w5 w5)|].
  intros [[s|] [x|]] w6 (Hq6 & _ & Hev6 & Hx); try done; cbn in Hq6.
  { wret. apply existing_early; [done|done|]. rewrite <-Ht5. eapply evo_mono; [|exact Hev6]. by intros p [? _]. }
  2:{ wret. apply existing_early; [done|done|]. rewrite <-Ht5. eapply evo_mono; [|exact Hev6]. by intros p [? _]. }
  destruct Hx as (Hsh & Hrec & [Hc6 Hp6] & Hnone & Hev6'). destruct Hsh as (_ & En & nm & Et & Hnm).
  rewrite Hrec in En, Et. rewrite Ht5 in *. change (box_path a "new" f) with (dest f a) in En. rewrite En.
  assert (hidden (sd_tmpPath s)) as Hhs by (rewrite Et; by apply box_path_hidden).
  assert (~ hidden (dest f a)) as Hvis by (by apply box_path_visible).
  assert (sd_tmpPath s <> dest f a) as Htn by (intros E; apply Hvis; by rewrite <-E).
  assert (dents (tr w6) !! dest f a = dents (tr w) !! dest f a) as Hsame6.
  { apply (evo_deep _ _ _ _ Hev6'); [by intros E; apply Htn|apply box_path_depth]. }
  assert (forall t, publish_inv (sd_tmpPath s) (dest f a) d (tr w6) t -> J t) as HJp.
  { intros t (Hev & Hpub & _). split.
    - eapply evo_trans; [eapply evo_mono; [|exact Hev6']; intros p <-; by left|].
      eapply evo_mono; [|exact Hev]. intros p [->| ->]; [by left|right]. exists a. split; [by apply list_elem_of_singleton|done].
    - intros b ->%list_elem_of_singleton. destruct Hpub as [Hp|[Hp Hc]]; [left; congruence|right]. split; [congruence|done]. }
  apply wpi_bind. eapply wpi_mono; [apply (wpi_publish e r Hat); try done|].
  { by rewrite Et. }
  intros o w7 (_ & Hinv & Ho). pose proof (HJp _ Hinv) as HJ7. destruct o as [x|].
  { destruct Ho as [Hd7 Hx]. wret. split; [exact HJ7|]. rewrite is_committed_Errorf, Hx. congruence. }
  destruct Ho as [Hc7 _]. apply wpi_ro_bind; [auto with amq|done|].
  intros [x|] w8 Ht8 _; rewrite <-Ht8 in *.
  { wret. split; [exact HJ7|]. done. }
  apply wpi_ro_bind; [auto with amq|done|]. intros ? w9 Ht9 _; rewrite <-Ht9 in *. wret. done.
Qed.

End existing.
