(* ===== verification/Bridge.v ===== *)
(** The bridge between hosts: internal/bridge (envelope.go, auth.go, apply.go, enqueue.go,
    enqueue_config.go).

    SHA-256 and Ed25519 are parameters, with the laws the code relies on; the random source of
    GenerateHostKey is the one of the world.  A path given by the user is a path of the tree;
    filepath.Abs does nothing to it. *)
From S2P Require Import Prelude GoStr GoPath GoErr Fs Wp Names Json JsonFacts JsonStruct Encode Format DeliveryRoot Maildir Layout ExistingInbox.
From S2P Require Ambient.

(** ** Cryptography *)

Class Crypto := {
  PrivateKey : Type;
  Sum256 : string -> string;                  (* sha256.Sum256 *)
  NewKeyFromSeed : string -> PrivateKey;
  Seed : PrivateKey -> string;
  Public : PrivateKey -> string;
  Sign : PrivateKey -> string -> string;
  VerifySig : string -> string -> string -> bool;   (* ed25519.Verify *)
}.

Class CryptoLaws `{Crypto} := {
  Sum256_length m : String.length (Sum256 m) = 32%nat;
  Sign_length k m : String.length (Sign k m) = 64%nat;
  Seed_length k : String.length (Seed k) = 32%nat;
  Public_length k : String.length (Public k) = 32%nat;
  Seed_key k : NewKeyFromSeed (Seed k) = k;
  Verify_Sign k m : VerifySig (Public k) m (Sign k m) = true;
}.

(** ** envelope.go *)

Definition EnvelopeVersion : Z := 1.

Record Envelope := MkEnvelope {
  Version : Z;
  TransferID : string;
  SourceHost : string;
  SourceHandle : string;
  DestAlias : string;
  SourceMessageID : string;
  ThreadID : string;
  PayloadSHA256 : string;
  KeyGeneration : string;
  Signature : string;
  Payload : string;
}.
Definition zero_envelope : Envelope := MkEnvelope 0 "" "" "" "" "" "" "" "" "" "".

Definition ParseAlias (alias : string) : string * string + gerr :=
  match Cut alias slash with
  | Some (host, agent) =>
    if Contains agent "/" then inr (EMsg "dest_alias must be host/agent")
    else match ValidateHandle host with
         | Some e => inr (Errorf "bridge dest_alias host" e)
         | None => match ValidateHandle agent with
                   | Some e => inr (Errorf "bridge dest_alias agent" e)
                   | None => inl (host, agent)
                   end
         end
  | None => inr (EMsg "dest_alias must be host/agent")
  end.

Definition TransferFilename (sourceHost transferID : string) : string :=
  "xfer-" +:+ sourceHost +:+ "-" +:+ transferID +:+ ".md".

Definition validateTransferID (id : string) : option gerr :=
  if ContainsAny id ("/" +:+ BACKSLASH +:+ ".") || HasPrefix id "-" || HasPrefix id "."
  then Some (EMsg "bridge envelope transfer_id is invalid")
  else Errorf "bridge envelope transfer_id" <$> ValidateHandle id.

Section bridge.
Context `{Crypto}.

Definition blank_or_padded (value : string) : bool :=
  bool_decide (TrimSpace value = "") || negb (bool_decide (value = TrimSpace value)).

Definition ValidateEnvelope (env : Envelope) : option gerr :=
  if negb (bool_decide (Version env = EnvelopeVersion)) then Some (EMsg "bridge envelope version is unsupported")
  else if existsb blank_or_padded
            [TransferID env; SourceHost env; SourceHandle env; DestAlias env; SourceMessageID env;
             ThreadID env; PayloadSHA256 env; KeyGeneration env; Signature env]
  then Some (EMsg "bridge envelope field is invalid")
  else match ValidateHandle (SourceHost env) with
  | Some e => Some (Errorf "bridge envelope source_host" e)
  | None => match ValidateHandle (SourceHandle env) with
  | Some e => Some (Errorf "bridge envelope source_handle" e)
  | None => match ParseAlias (DestAlias env) with
  | inr e => Some e
  | inl _ => match validateTransferID (TransferID env) with
  | Some e => Some e
  | None =>
    if negb (EqualFold (PayloadSHA256 env) (EncodeToString (Sum256 (Payload env))))
    then Some (EMsg "bridge envelope payload_sha256 does not match payload")
    else if bool_decide (Payload env = "") then Some (EMsg "bridge envelope payload is empty")
    else match DecodeString (Signature env) with
    | Some sig => if bool_decide (String.length sig = 64%nat) then None
                  else Some (EMsg "bridge envelope signature is invalid")
    | None => Some (EMsg "bridge envelope signature is invalid")
    end
  end end end end.

Definition envelope_fields : list string :=
  ["version"; "transfer_id"; "source_host"; "source_handle"; "dest_alias"; "source_message_id";
   "thread_id"; "payload_sha256"; "key_generation"; "signature"; "payload"].

Definition envelope_json (env : Envelope) : json :=
  JObj [("version", to_json (Version env)); ("transfer_id", to_json (TransferID env));
        ("source_host", to_json (SourceHost env)); ("source_handle", to_json (SourceHandle env));
        ("dest_alias", to_json (DestAlias env)); ("source_message_id", to_json (SourceMessageID env));
        ("thread_id", to_json (ThreadID env)); ("payload_sha256", to_json (PayloadSHA256 env));
        ("key_generation", to_json (KeyGeneration env)); ("signature", to_json (Signature env));
        ("payload", to_json (Bytes (Payload env)))].

Definition MarshalEnvelope (env : Envelope) : string + gerr :=
  match ValidateEnvelope env with
  | Some e => inr e
  | None => inl (Marshal (envelope_json env))
  end.

(** DisallowUnknownFields: every member is for one of the fields. *)
Definition known_fields (names : list string) (l : list (string * json)) : bool :=
  forallb (fun kv => match field_of names kv.1 with Some _ => true | None => false end) l.

Definition envelope_of_json (j : json) : option Envelope :=
  match j with
  | JNull => Some zero_envelope
  | JObj l =>
    if negb (known_fields envelope_fields l) then None else
    let get {A} `{JsonField A} := @get A _ envelope_fields l in
    a1 ← get "version" 0%Z; a2 ← get "transfer_id" ""; a3 ← get "source_host" "";
    a4 ← get "source_handle" ""; a5 ← get "dest_alias" ""; a6 ← get "source_message_id" "";
    a7 ← get "thread_id" ""; a8 ← get "payload_sha256" ""; a9 ← get "key_generation" "";
    a10 ← get "signature" ""; a11 ← get "payload" (Bytes "");
    Some (MkEnvelope a1 a2 a3 a4 a5 a6 a7 a8 a9 a10 (raw a11))
  | _ => None
  end.

(** The decoded envelope after the checks; the text is one value and space. *)
Definition checked_envelope (o : option Envelope) : Envelope + gerr :=
  match o with
  | None => inr (EMsg "bridge envelope")
  | Some env => match ValidateEnvelope env with Some e => inr e | None => inl env end
  end.

Definition UnmarshalEnvelope (text : string) : Envelope + gerr :=
  match Decode text with
  | None => inr (EMsg "bridge envelope")
  | Some (j, rest) =>
    match envelope_of_json j with
    | None => inr (EMsg "bridge envelope")
    | Some env =>
      if negb (bool_decide (skip_ws rest = "")) then inr (EMsg "bridge envelope trailer")
      else checked_envelope (Some env)
    end
  end.

(** ** auth.go *)

Record HostKey := MkHostKey { Generation : string; Private : PrivateKey }.

Definition IdentityPath (root : path) : path := Join_under root ["bridge"; "identity"].
Definition HostIDPath (root : path) : path := Join_under root ["bridge"; "host-id"].
Definition TrustedPath (root : path) (host : string) : path := Join_under root ["bridge"; "trusted"; host].

(** ed25519.GenerateKey reads the seed from the random source. *)
Definition GenerateHostKey (generation : string) : prog (option HostKey * option gerr) :=
  let generation := TrimSpace generation in
  if bool_decide (generation = "") then Ret (None, Some (EMsg "key generation is required")) else
  let_ok seed := sys (SRandom 32) orelse x => Ret (None, Some (Errorf "generate host key" (EErrno x))) in
  Ret (Some (MkHostKey generation (NewKeyFromSeed seed)), None).

Definition CanonicalBytes (env : Envelope) : string :=
  Join_with LF
    ["amq-bridge-envelope-v1";
     "version=" +:+ itoa (Version env);
     "transfer_id=" +:+ TransferID env;
     "source_host=" +:+ SourceHost env;
     "source_handle=" +:+ SourceHandle env;
     "dest_alias=" +:+ DestAlias env;
     "source_message_id=" +:+ SourceMessageID env;
     "thread_id=" +:+ ThreadID env;
     "payload_sha256=" +:+ ToLower (PayloadSHA256 env);
     "key_generation=" +:+ KeyGeneration env].

Definition set_signature (s : string) (env : Envelope) : Envelope :=
  MkEnvelope (Version env) (TransferID env) (SourceHost env) (SourceHandle env) (DestAlias env)
    (SourceMessageID env) (ThreadID env) (PayloadSHA256 env) (KeyGeneration env) s (Payload env).

(** The envelope as it is left behind, and the error. *)
Definition SignEnvelope (env : Envelope) (key : HostKey) : Envelope * option gerr :=
  if negb (bool_decide (KeyGeneration env = Generation key))
  then (env, Some (EMsg "envelope key_generation does not match identity generation"))
  else let env' := set_signature (EncodeToString (Sign (Private key) (CanonicalBytes env))) env in
       (env', ValidateEnvelope env').

Definition VerifyEnvelope (env : Envelope) (pub generation : string) : option gerr :=
  match ValidateEnvelope env with
  | Some e => Some e
  | None =>
    if negb (bool_decide (KeyGeneration env = generation))
    then Some (EMsg "envelope key_generation is not the trusted generation")
    else match DecodeString (Signature env) with
         | None => Some (EMsg "bridge envelope signature")
         | Some sig => if negb (VerifySig pub (CanonicalBytes env) sig)
                       then Some (EMsg "bridge envelope signature does not match source host")
                       else None
         end
  end.

Definition parseHostID (data : string) : string * option gerr :=
  let host := TrimSpace data in
  match ValidateHandle host with
  | Some e => ("", Some (Errorf "bridge host-id" e))
  | None => if negb (bool_decide (data = host +:+ LF)) && negb (bool_decide (data = host))
            then ("", Some (EMsg "bridge host-id has surrounding whitespace"))
            else (host, None)
  end.

(** Lines "key value"; the error of the first that is not one, or repeats a key. *)
Fixpoint parse_key_lines (fields : gmap string string) (lines : list string) : gmap string string + gerr :=
  match lines with
  | [] => inl fields
  | line :: rest =>
    match Cut (TrimSpace line) (chr 32) with
    | Some (key, value) =>
      if bool_decide (key = "") || bool_decide (value = "") || ContainsAny value (" " +:+ TAB)
      then inr (EMsg "line is invalid")
      else match fields !! key with
           | Some _ => inr (EMsg "repeats field")
           | None => parse_key_lines (<[key := value]> fields) rest
           end
    | None => inr (EMsg "line is invalid")
    end
  end.

Definition parseKeyFields (data secretField : string) : gmap string string + gerr :=
  match parse_key_lines ∅ (Split_on (chr 10) (TrimSpace data)) with
  | inr e => inr e
  | inl fields =>
    let generation := default "" (fields !! "generation") in
    if bool_decide (generation = "") || negb (bool_decide (generation = TrimSpace generation))
    then inr (EMsg "generation is invalid")
    else if bool_decide (default "" (fields !! secretField) = "") then inr (EMsg "missing secret")
    else if negb (bool_decide (size fields = 2%nat)) then inr (EMsg "has unknown fields")
    else inl fields
  end.

Definition validatePrivateKeyInfo (i : info) : option gerr :=
  if bool_decide (i_kind i = KSym) then Some (EMsg "must not be a symlink")
  else if negb (bool_decide (i_kind i = KFile)) then Some (EMsg "must be a regular file")
  else if negb (bool_decide (i_perm i = 384%Z)) then Some (EMsg "mode, want 0600")
  else None.

Definition readPrivateKeyRootFile (r : DeliveryRoot) (rel : path) : prog (string * option gerr) :=
  x ← OpenRegularNoFollow r rel;
  match x with
  | (Some (file, i), None) =>
    match validatePrivateKeyInfo i with
    | Some e => _ ← sys (SClose file); Ret ("", Some e)
    | None =>
      readRes ← sys (SReadAll file);
      closeRes ← sys (SClose file);
      match readRes, closeRes with
      | Er x, _ => Ret ("", Some (EErrno x))
      | _, Er x => Ret ("", Some (EErrno x))
      | Ok data, Ok _ => Ret (data, None)
      end
    end
  | (_, Some e) => Ret ("", Some e)
  | (None, None) => Ret ("", None)
  end.

Definition readPrivateKeyFile (p : path) : prog (string * option gerr) :=
  let_ok i := sys (SLstat p) orelse x => Ret ("", Some (EErrno x)) in
  match validatePrivateKeyInfo i with
  | Some e => Ret ("", Some e)
  | None => Ambient.ReadRegularNoFollow p
  end.

(** Created, written, synced, closed; removed again when one of them fails. *)
Definition writePrivateFile (p : path) (data : string) : prog (option gerr) :=
  let_ok file := sys (SOpenExcl p) orelse x => Ret (Some (EErrno x)) in
  let undo e := _ ← sys (SRemove p); Ret (Some e) in
  w ← sys (SWrite file data);
  match w with
  | (_, Some x) => _ ← sys (SClose file); undo (EErrno x)
  | (_, None) =>
    if_err e := call (SFsync file) then _ ← sys (SClose file); undo e else
    if_err e := call (SClose file) then undo e else
    Ret None
  end.

Definition LoadHostID (root : path) : prog (string * option gerr) :=
  let_val data := readPrivateKeyFile (HostIDPath root) orelse e => Ret ("", Some (Errorf "bridge host-id" e)) in
  Ret (parseHostID data).

Definition LoadHostIDFromDeliveryRoot (r : DeliveryRoot) : prog (string * option gerr) :=
  let_val data := readPrivateKeyRootFile r ["bridge"; "host-id"] orelse e => Ret ("", Some (Errorf "bridge host-id" e)) in
  Ret (parseHostID data).

Definition WriteHostID (root : path) (host : string) : prog (option gerr) :=
  match ValidateHandle host with
  | Some e => Ret (Some (Errorf "bridge host-id" e))
  | None =>
    if_err e := call (SMkdirAll (Join_under root ["bridge"]) 448) then Ret (Some (Errorf "create bridge directory" e)) else
    writePrivateFile (HostIDPath root) (host +:+ LF)
  end.

(** One of the fields as bytes of the given size. *)
Definition decode_field (fields : gmap string string) (name : string) (n : nat) : string + gerr :=
  match DecodeString (default "" (fields !! name)) with
  | None => inr (EMsg "key field")
  | Some b => if bool_decide (String.length b = n) then inl b else inr (EMsg "key field size")
  end.

Definition readKeyFields (p : path) (secretField : string) : prog (gmap string string + gerr) :=
  let_val data := readPrivateKeyFile p orelse e => Ret (inr e) in
  Ret (parseKeyFields data secretField).

Definition LoadIdentity (root : path) : prog (option HostKey * option gerr) :=
  x ← readKeyFields (IdentityPath root) "seed";
  match x with
  | inr e => Ret (None, Some (Errorf "bridge identity" e))
  | inl fields =>
    match decode_field fields "seed" 32 with
    | inr e => Ret (None, Some e)
    | inl seed => Ret (Some (MkHostKey (default "" (fields !! "generation")) (NewKeyFromSeed seed)), None)
    end
  end.

Definition key_text (generation field secret : string) : string :=
  "generation " +:+ generation +:+ LF +:+ field +:+ " " +:+ EncodeToString secret +:+ LF.

Definition WriteIdentity (root : path) (key : HostKey) : prog (option gerr) :=
  if_err e := call (SMkdirAll (Join_under root ["bridge"]) 448) then Ret (Some (Errorf "create bridge directory" e)) else
  writePrivateFile (IdentityPath root) (key_text (Generation key) "seed" (Seed (Private key))).

(** The public key and the generation of a trusted host, from its fields. *)
Definition trusted_key (fields : gmap string string) : string * string * option gerr :=
  match decode_field fields "public" 32 with
  | inr e => ("", "", Some e)
  | inl pub => (pub, default "" (fields !! "generation"), None)
  end.

Definition LoadTrusted (root : path) (host : string) : prog (string * string * option gerr) :=
  match ValidateHandle host with
  | Some e => Ret ("", "", Some (Errorf "trusted source host" e))
  | None =>
    x ← readKeyFields (TrustedPath root host) "public";
    match x with
    | inr e => Ret ("", "", Some (Errorf "trusted host" e))
    | inl fields => Ret (trusted_key fields)
    end
  end.

Definition LoadTrustedFromDeliveryRoot (r : DeliveryRoot) (host : string) : prog (string * string * option gerr) :=
  match ValidateHandle host with
  | Some e => Ret ("", "", Some (Errorf "trusted source host" e))
  | None =>
    let_val data := readPrivateKeyRootFile r (Join ["bridge"; "trusted"; host]) orelse e =>
      Ret ("", "", Some (Errorf "trusted host" e)) in
    match parseKeyFields data "public" with
    | inr e => Ret ("", "", Some (Errorf "trusted host" e))
    | inl fields => Ret (trusted_key fields)
    end
  end.

Definition WriteTrusted (root : path) (host pub generation : string) : prog (option gerr) :=
  match ValidateHandle host with
  | Some e => Ret (Some (Errorf "trusted source host" e))
  | None =>
    let generation := TrimSpace generation in
    if bool_decide (generation = "") then Ret (Some (EMsg "trusted host generation is required")) else
    if negb (bool_decide (String.length pub = 32%nat)) then Ret (Some (EMsg "trusted host public key size")) else
    if_err e := call (SMkdirAll (Join_under root ["bridge"; "trusted"]) 448) then
      Ret (Some (Errorf "create trusted directory" e)) else
    writePrivateFile (TrustedPath root host) (key_text generation "public" pub)
  end.

(** ** apply.go *)

Record ApplyResult := MkApply { ar_Path : path; ar_Replayed : bool }.
Definition no_apply : ApplyResult := MkApply [] false.

Definition ApplyEnvelope (r : DeliveryRoot) (localHost localAgent : string) (env : Envelope)
  : prog (ApplyResult * option gerr) :=
  match ValidateEnvelope env with
  | Some e => Ret (no_apply, Some e)
  | None =>
    match ParseAlias (DestAlias env) with
    | inr e => Ret (no_apply, Some e)
    | inl (destHost, destAgent) =>
      if negb (bool_decide (destHost = localHost)) then Ret (no_apply, Some (EMsg "bridge dest_alias host is not local host"))
      else if negb (bool_decide (destAgent = localAgent)) then Ret (no_apply, Some (EMsg "bridge dest_alias agent is not local agent"))
      else
        let filename := TransferFilename (SourceHost env) (TransferID env) in
        let rel := Join ["agents"; localAgent; "inbox"; "new"; filename] in
        existed ← Stat r rel;
        x ← DeliverToExistingInbox r localAgent filename (Payload env);
        match x with
        | (p, None) => Ret (MkApply p (match existed.2 with None => true | Some _ => false end), None)
        | (_, Some err) =>
          if negb (errors_Is_Exist err) then Ret (no_apply, Some err) else
          y ← ReadRegularNoFollow r rel;
          match y with
          | (_, Some _) => Ret (no_apply, Some err)
          | (existing, None) =>
            if bool_decide (existing = Payload env) then Ret (MkApply (displayPath r rel) true, None)
            else Ret (no_apply, Some err)
          end
        end
    end
  end.

End bridge.
