(* ===== verification/BridgeFacts.v ===== *)
(** What the envelopes of the bridge guarantee: what a signature covers, that envelopes and key
    files are read back as they were written, and that applying an envelope is safe. *)
From S2P Require Import Prelude GoStr GoTrim GoPath GoErr Fs Wp FsFacts Names Json JsonFacts JsonStruct Encode Format DeliveryRoot DeliveryRootFacts Sample Maildir Delivery Layout Repair ExistingInbox Bridge.

(** ** Lines *)

Lemma app_inj_r (a b x y : string) : String.length x = String.length y -> a +:+ x = b +:+ y -> a = b /\ x = y.
Proof.
  revert b; induction a as [|c a IH]; intros [|d b] Hl E.
  - done.
  - rewrite string_app_nil_l in E. subst x. rewrite length_string_app in Hl. cbn in Hl. lia.
  - rewrite string_app_nil_l in E. subst y. rewrite length_string_app in Hl. cbn in Hl. lia.
  - rewrite !string_app_cons in E. injection E as -> E. by destruct (IH b Hl E) as [-> ->].
Qed.

Lemma app_inj_l (p x y : string) : p +:+ x = p +:+ y -> x = y.
Proof. induction p as [|c p IH]; [done|]. rewrite !string_app_cons. intros [= E]. by apply IH. Qed.

(** The text up to the first line break. *)
Lemma line_inj (a b x y : string) :
  str_mem (chr 10) a = false -> str_mem (chr 10) b = false ->
  a +:+ LF +:+ x = b +:+ LF +:+ y -> a = b /\ x = y.
Proof. apply sep_inj. Qed.

Lemma handle_no_break a : ValidateHandle a = None -> str_mem (chr 10) a = false.
Proof.
  intros [[_ H]%legacy_handle_None _]%ValidateHandle_None. by eapply forallb_no_char.
Qed.

Lemma Cut_Some s c a b : Cut s c = Some (a, b) -> s = a +:+ String c b.
Proof.
  revert a; induction s as [|d s IH]; intros a; [done|]. cbn. case_bool_decide as E.
  - intros [= <- <-]. by subst.
  - destruct (Cut s c) as [[x y]|]; [|done]. cbn. intros [= <- <-]. by rewrite (IH x) by done.
Qed.

Lemma ParseAlias_inl al h a : ParseAlias al = inl (h, a) ->
  al = h +:+ "/" +:+ a /\ ValidateHandle h = None /\ ValidateHandle a = None.
Proof.
  unfold ParseAlias. destruct (Cut al slash) as [[x y]|] eqn:E; [|done]. apply Cut_Some in E.
  repeat (case_match; try done). intros [= <- <-]. done.
Qed.

Section envelopes.
Context `{CryptoLaws}.

(** What an accepted envelope has. *)
Record accepted (env : Envelope) : Prop := {
  acc_version : Version env = 1%Z;
  acc_host : ValidateHandle (SourceHost env) = None;
  acc_handle : ValidateHandle (SourceHandle env) = None;
  acc_alias : exists h a, ParseAlias (DestAlias env) = inl (h, a);
  acc_transfer : ValidateHandle (TransferID env) = None;
  acc_digest : ToLower (PayloadSHA256 env) = EncodeToString (Sum256 (Payload env));
  acc_sig : exists sig, DecodeString (Signature env) = Some sig /\ String.length sig = 64%nat;
}.

Lemma ValidateEnvelope_accepted env : ValidateEnvelope env = None -> accepted env.
Proof.
  unfold ValidateEnvelope. case_bool_decide as Hv; [|done]. cbn [negb].
  destruct (existsb _ _); [done|].
  destruct (ValidateHandle (SourceHost env)) eqn:?; [done|].
  destruct (ValidateHandle (SourceHandle env)) eqn:?; [done|].
  destruct (ParseAlias (DestAlias env)) as [[h a]|] eqn:?; [|done].
  destruct (validateTransferID (TransferID env)) eqn:Ht; [done|].
  destruct (EqualFold _ _) eqn:Hd; [|done]. case_bool_decide; [done|].
  destruct (DecodeString (Signature env)) as [sig|] eqn:?; [|done]. case_bool_decide; [|done]. intros _.
  split; try done; [by exists h, a| | |by exists sig].
  - unfold validateTransferID in Ht. case_match; [done|]. by destruct (ValidateHandle (TransferID env)).
  - unfold EqualFold in Hd. apply bool_decide_eq_true in Hd. by rewrite ToLower_Encode in Hd.
Qed.

Lemma alias_no_break env : accepted env -> str_mem (chr 10) (DestAlias env) = false.
Proof.
  intros [_ _ _ (h & a & (-> & Hh & Ha)%ParseAlias_inl) _ _ _]. rewrite !str_mem_app.
  by rewrite (handle_no_break h), (handle_no_break a).
Qed.

(** The part of the signed text in which line breaks are not excluded. *)
Definition ids_text (env : Envelope) : string :=
  "source_message_id=" +:+ SourceMessageID env +:+ LF +:+ "thread_id=" +:+ ThreadID env.

Definition tail_text (env : Envelope) : string :=
  LF +:+ "payload_sha256=" +:+ ToLower (PayloadSHA256 env) +:+ LF +:+ "key_generation=" +:+ KeyGeneration env.

Lemma CanonicalBytes_lines env :
  CanonicalBytes env = "amq-bridge-envelope-v1" +:+ LF +:+ ("version=" +:+ itoa (Version env)) +:+ LF +:+
    ("transfer_id=" +:+ TransferID env) +:+ LF +:+ ("source_host=" +:+ SourceHost env) +:+ LF +:+
    ("source_handle=" +:+ SourceHandle env) +:+ LF +:+ ("dest_alias=" +:+ DestAlias env) +:+ LF +:+
    ids_text env +:+ tail_text env.
Proof. unfold CanonicalBytes, ids_text, tail_text. cbn [Join_with]. by rewrite !string_app_assoc. Qed.

Lemma label_no_break p a : str_mem (chr 10) p = false -> str_mem (chr 10) a = false -> str_mem (chr 10) (p +:+ a) = false.
Proof. intros H1 H2. by rewrite str_mem_app, H1, H2. Qed.

Lemma canonical_parts e1 e2 :
  accepted e1 -> accepted e2 -> KeyGeneration e1 = KeyGeneration e2 -> CanonicalBytes e1 = CanonicalBytes e2 ->
  TransferID e1 = TransferID e2 /\ SourceHost e1 = SourceHost e2 /\ SourceHandle e1 = SourceHandle e2 /\
  DestAlias e1 = DestAlias e2 /\ ids_text e1 = ids_text e2 /\ Sum256 (Payload e1) = Sum256 (Payload e2).
Proof.
  intros A1 A2 Hg E. rewrite !CanonicalBytes_lines, (acc_version _ A1), (acc_version _ A2) in E.
  apply line_inj in E as [_ E]; [|done..]. apply line_inj in E as [_ E]; [|done..].
  pose proof (fun p a Hp Ha => label_no_break p a Hp (handle_no_break a Ha)) as Hl.
  apply line_inj in E as [E1 E]; [|apply Hl; [done|by apply acc_transfer]..].
  apply line_inj in E as [E2 E]; [|apply Hl; [done|by apply acc_host]..].
  apply line_inj in E as [E3 E]; [|apply Hl; [done|by apply acc_handle]..].
  apply line_inj in E as [E4 E]; [|apply label_no_break; [done|by apply alias_no_break]..].
  apply app_inj_l in E1, E2, E3, E4.
  assert (forall env, accepted env -> String.length (ToLower (PayloadSHA256 env)) = 64%nat) as Hlen.
  { intros env A. by rewrite (acc_digest _ A), length_EncodeToString, Sum256_length. }
  apply app_inj_r in E as [E5 E]; [|unfold tail_text; by rewrite !length_string_app, !Hlen, Hg by done].
  unfold tail_text in E. apply app_inj_l, app_inj_l in E. rewrite Hg in E.
  apply app_inj_r in E as [E6 _]; [|done]. rewrite (acc_digest _ A1), (acc_digest _ A2) in E6.
  split_and!; try done. apply (f_equal DecodeString) in E6. rewrite !Decode_Encode in E6. by injection E6.
Qed.

Lemma VerifyEnvelope_None env pub g : VerifyEnvelope env pub g = None ->
  accepted env /\ KeyGeneration env = g /\
  exists sig, DecodeString (Signature env) = Some sig /\ VerifySig pub (CanonicalBytes env) sig = true.
Proof.
  unfold VerifyEnvelope. destruct (ValidateEnvelope env) eqn:Hv; [done|]. apply ValidateEnvelope_accepted in Hv.
  case_bool_decide; [|done]. cbn [negb]. destruct (DecodeString (Signature env)) as [sig|]; [|done].
  destruct (VerifySig _ _ _) eqn:Hs; [|done]. intros _. split; [done|]. split; [done|]. by exists sig.
Qed.
End envelopes.

(** ** A concrete cryptography for the witnesses: digests are prefixes, all signatures equal. *)

Definition zeros (n : nat) : string := Nat.iter n (String (chr 48)) "".
#[global] Instance toy_crypto : Crypto := {|
  PrivateKey := unit;
  Sum256 m := str_take 32 (m +:+ zeros 32);
  NewKeyFromSeed _ := tt;
  Seed _ := zeros 32;
  Public _ := zeros 32;
  Sign _ _ := zeros 64;
  VerifySig _ _ sig := bool_decide (sig = zeros 64);
|}.

Lemma str_take_length n s : (n <= String.length s)%nat -> String.length (str_take n s) = n.
Proof. revert s; induction n as [|n IH]; intros [|c s] Hl; cbn in *; try lia. rewrite IH; lia. Qed.

#[global] Instance toy_laws : CryptoLaws.
Proof.
  split; try done.
  - intros m. apply str_take_length. rewrite length_string_app. cbn. lia.
  - by intros [].
Qed.

(** An envelope of alice on host red for bob on host blue. *)
Definition sample_envelope (id msg thread : string) : Envelope :=
  MkEnvelope 1 id "red" "alice" "blue/bob" msg thread (EncodeToString (Sum256 "hello")) "1"
    (EncodeToString (zeros 64)) "hello".

(** ** What a signature covers *)

(** C35: A signature binds the envelope to its route and its payload.  Let one signature be good for
    one text under the host key, and let the payloads be no collision of SHA-256.  Then two envelopes
    that both verify with this signature agree on the transfer, the source, the destination and the
    payload, and on the two lines of the signed text with the ids of the message and the thread; they
    agree on each of the ids when there is no line break in the ids of the messages. *)
Theorem signature_binds `{CryptoLaws} pub g sig e1 e2 :
  (forall m1 m2, VerifySig pub m1 sig = true -> VerifySig pub m2 sig = true -> m1 = m2) ->
  (Sum256 (Payload e1) = Sum256 (Payload e2) -> Payload e1 = Payload e2) ->
  DecodeString (Signature e1) = Some sig -> DecodeString (Signature e2) = Some sig ->
  VerifyEnvelope e1 pub g = None -> VerifyEnvelope e2 pub g = None ->
  (TransferID e1 = TransferID e2 /\ SourceHost e1 = SourceHost e2 /\ SourceHandle e1 = SourceHandle e2 /\
   DestAlias e1 = DestAlias e2 /\ Payload e1 = Payload e2) /\
  ids_text e1 = ids_text e2 /\
  (str_mem (chr 10) (SourceMessageID e1) = false -> str_mem (chr 10) (SourceMessageID e2) = false ->
   SourceMessageID e1 = SourceMessageID e2 /\ ThreadID e1 = ThreadID e2).
Proof.
  intros Hsig Hsum S1 S2 (A1 & G1 & sig1 & D1 & V1)%VerifyEnvelope_None (A2 & G2 & sig2 & D2 & V2)%VerifyEnvelope_None.
  rewrite S1 in D1. rewrite S2 in D2. injection D1 as <-. injection D2 as <-.
  destruct (canonical_parts e1 e2 A1 A2) as (? & ? & ? & ? & Ei & ?); [congruence|by apply Hsig|].
  split; [split_and!; auto|]. split; [done|]. intros Hm1 Hm2. unfold ids_text in Ei. apply app_inj_l in Ei.
  apply line_inj in Ei as [Em Et]; [|done..]. split; [done|]. by apply app_inj_l in Et.
Qed.

(** A cryptography in which one text has a signature of its own. *)
Definition marked_crypto (text : string) : Crypto := {|
  PrivateKey := unit; Sum256 := @Sum256 toy_crypto; NewKeyFromSeed _ := tt; Seed _ := zeros 32; Public _ := zeros 32;
  Sign _ m := if bool_decide (m = text) then Nat.iter 64 (String (chr 49)) "" else zeros 64;
  VerifySig _ m sig := bool_decide (sig = if bool_decide (m = text) then Nat.iter 64 (String (chr 49)) "" else zeros 64) |}.

Lemma marked_laws text : @CryptoLaws (marked_crypto text).
Proof.
  split; try done.
  - apply (@Sum256_length toy_crypto toy_laws).
  - intros k m. cbn. by case_bool_decide.
  - by intros [].
  - intros k m. cbn. by apply bool_decide_eq_true.
Qed.

Definition marked_envelope (msg thread : string) : Envelope :=
  MkEnvelope 1 "t1" "red" "alice" "blue/bob" msg thread (EncodeToString (@Sum256 toy_crypto "hello")) "1"
    (EncodeToString (Nat.iter 64 (String (chr 49)) "")) "hello".

(** Two different envelopes with one signature: the ids of one are the ids of the other, cut at
    another line break. *)
Example signature_binds_witness :
  let e1 := marked_envelope ("m" +:+ LF +:+ "thread_id=x") "y" in
  let e2 := marked_envelope "m" ("x" +:+ LF +:+ "thread_id=y") in
  SourceMessageID e1 <> SourceMessageID e2 /\ DestAlias e1 = DestAlias e2 /\ ids_text e1 = ids_text e2.
Proof.
  intros e1 e2. split; [vm_compute; discriminate|].
  destruct (@signature_binds (marked_crypto (CanonicalBytes e1)) (marked_laws _) (zeros 32) "1" (Nat.iter 64 (String (chr 49)) "") e1 e2)
    as ((_ & _ & _ & Hd & _) & Hi & _); [|reflexivity|vm_compute; reflexivity|vm_compute; reflexivity|vm_compute; reflexivity|vm_compute; reflexivity|].
  - intros m1 m2 H1%bool_decide_eq_true H2%bool_decide_eq_true. revert H1 H2. repeat case_bool_decide; congruence || (intros; vm_compute in *; congruence).
  - split; [exact Hd|exact Hi].
Defined.

(** The line break is a real exception: both of these verify, with the same signed text and
    the same signature, and they name different messages and threads. *)
Example signature_ambiguous :
  let e1 := sample_envelope "t1" ("m" +:+ LF +:+ "thread_id=x") "y" in
  let e2 := sample_envelope "t1" "m" ("x" +:+ LF +:+ "thread_id=y") in
  VerifyEnvelope e1 (zeros 32) "1" = None /\ VerifyEnvelope e2 (zeros 32) "1" = None /\
  CanonicalBytes e1 = CanonicalBytes e2 /\ SourceMessageID e1 <> SourceMessageID e2 /\ ThreadID e1 <> ThreadID e2.
Proof. repeat split; try (vm_compute; reflexivity); vm_compute; discriminate. Qed.

(** ** From the sender to the receiver *)

Section wire.
Context `{CryptoLaws}.

Lemma handle_utf8 a : ValidateHandle a = None -> utf8_valid a = true.
Proof.
  intros [[_ Hall]%legacy_handle_None _]%ValidateHandle_None. apply ascii_utf8.
  eapply str_forallb_impl; [|exact Hall]. by intros [[] [] [] [] [] [] [] []].
Qed.

Lemma lower_ascii c : is_ascii (lower_char c) = is_ascii c.
Proof. by destruct c as [[] [] [] [] [] [] [] []]. Qed.

Lemma ToLower_ascii s : str_forallb is_ascii (ToLower s) = str_forallb is_ascii s.
Proof. induction s as [|c s IH]; [done|]. cbn [ToLower str_forallb]. by rewrite lower_ascii, IH. Qed.

Lemma numeral_ascii c : numeral_char c = true -> is_ascii c = true.
Proof. by destruct c as [[] [] [] [] [] [] [] []]. Qed.

Lemma digest_utf8 env : accepted env -> utf8_valid (PayloadSHA256 env) = true.
Proof.
  intros A. apply ascii_utf8. rewrite <-ToLower_ascii, (acc_digest _ A).
  eapply str_forallb_impl; [apply numeral_ascii|]. apply EncodeToString_numeral.
Qed.

Lemma hex_val_ascii c x : hex_val c = Some x -> is_ascii c = true.
Proof. by destruct c as [[] [] [] [] [] [] [] []]. Qed.

Lemma DecodeString_ascii s b : DecodeString s = Some b -> str_forallb is_ascii s = true.
Proof.
  revert b; induction s as [| |a a' s IH] using pairs_ind; intros b; [done|done|]. cbn [DecodeString str_forallb].
  destruct (hex_val a) as [x|] eqn:E1; [|done]. destruct (hex_val a') as [y|] eqn:E2; [|done]. cbn [mbind option_bind].
  destruct (DecodeString s) as [r|]; [|done]. intros _.
  by rewrite (hex_val_ascii _ _ E1), (hex_val_ascii _ _ E2), (IH r).
Qed.

Lemma alias_utf8 env : accepted env -> utf8_valid (DestAlias env) = true.
Proof.
  intros [_ _ _ (h & a & (-> & Hh & Ha)%ParseAlias_inl) _ _ _]. apply ascii_utf8. rewrite !str_forallb_app.
  assert (forall x, ValidateHandle x = None -> str_forallb is_ascii x = true) as Hx.
  { intros x [[_ Hall]%legacy_handle_None _]%ValidateHandle_None.
    eapply str_forallb_impl; [|exact Hall]. by intros [[] [] [] [] [] [] [] []]. }
  by rewrite (Hx h), (Hx a).
Qed.

(** The three fields no check restricts to ASCII are valid UTF-8. *)
Definition ids_valid (env : Envelope) : Prop :=
  utf8_valid (SourceMessageID env) = true /\ utf8_valid (ThreadID env) = true /\ utf8_valid (KeyGeneration env) = true.

Definition envelope_members (env : Envelope) : list (string * json) :=
  match envelope_json env with JObj l => l | _ => [] end.

Lemma signature_utf8 env : accepted env -> utf8_valid (Signature env) = true.
Proof. intros A. destruct (acc_sig _ A) as (sig & Hs & _). by eapply ascii_utf8, DecodeString_ascii. Qed.

Lemma envelope_good env : accepted env ->
  good (Version env) = true /\ good (TransferID env) = true /\ good (SourceHost env) = true /\
  good (SourceHandle env) = true /\ good (DestAlias env) = true /\ good (PayloadSHA256 env) = true /\
  good (Signature env) = true.
Proof.
  intros A. split; [by rewrite (acc_version _ A)|].
  split_and!; try (apply handle_utf8; by destruct A);
    [by apply alias_utf8|by apply digest_utf8|by apply signature_utf8].
Qed.

Lemma wire_envelope_wf env : accepted env -> ids_valid env -> wf_json (envelope_json env) = true.
Proof.
  intros (? & ? & ? & ? & ? & ? & ?)%envelope_good (? & ? & ?).
  change (wf_members (envelope_members env) = true). unfold envelope_members, envelope_json. wf_fields. done.
Qed.

Lemma wire_envelope_back env : accepted env -> ids_valid env -> envelope_of_json (envelope_json env) = Some env.
Proof.
  intros (? & ? & ? & ? & ? & ? & ?)%envelope_good (? & ? & ?).
  unfold envelope_of_json, envelope_json. cbv zeta.
  match goal with |- (if negb ?b then _ else _) = _ => change b with true end. cbn [negb].
  repeat (get_field; cbn [mbind option_bind]). by destruct env.
Qed.

Lemma Decode_Marshal j : wf_json j = true -> Decode (Marshal j) = Some (j, "").
Proof.
  intros Hwf. rewrite <-(string_app_nil_r (Marshal j)). unfold Marshal. rewrite Decode_write; try done. by exists "".
Qed.

Lemma Unmarshal_MarshalEnvelope env : ValidateEnvelope env = None -> ids_valid env ->
  exists text, MarshalEnvelope env = inl text /\ UnmarshalEnvelope text = inl env.
Proof.
  intros Hv Hids. pose proof (ValidateEnvelope_accepted _ Hv) as A.
  exists (Marshal (envelope_json env)). unfold MarshalEnvelope, UnmarshalEnvelope. rewrite Hv. split; [done|].
  rewrite Decode_Marshal by (by apply wire_envelope_wf). rewrite wire_envelope_back by done.
  cbn [skip_ws]. unfold checked_envelope. by rewrite Hv.
Qed.

(** Whatever is read from the wire has been checked. *)
Lemma UnmarshalEnvelope_checked text env : UnmarshalEnvelope text = inl env -> ValidateEnvelope env = None.
Proof.
  unfold UnmarshalEnvelope, checked_envelope. repeat (case_match; try done). by intros [= <-].
Qed.

Lemma Sign_Verify env key env' : SignEnvelope env key = (env', None) ->
  VerifyEnvelope env' (Public (Private key)) (Generation key) = None /\
  env' = set_signature (Signature env') env.
Proof.
  unfold SignEnvelope. case_bool_decide as Hg; [|done]. cbn [negb]. intros [= <- Hv]. split; [|done].
  unfold VerifyEnvelope. rewrite Hv. cbn [set_signature KeyGeneration Signature].
  rewrite Hg, bool_decide_eq_true_2 by done. cbn [negb]. rewrite Decode_Encode.
  change (CanonicalBytes (set_signature ?x env)) with (CanonicalBytes env). by rewrite Verify_Sign.
Qed.
End wire.

(** C36: What a host signs arrives: an envelope that was signed without an error, and whose free
    ids are valid UTF-8, is written to the wire, read there as the very same envelope, and
    verifies under the public key of the signer; nothing but the signature was changed. *)
Theorem signed_envelope_arrives `{CryptoLaws} env key env' :
  SignEnvelope env key = (env', None) -> ids_valid env ->
  exists text, MarshalEnvelope env' = inl text /\ UnmarshalEnvelope text = inl env' /\
    VerifyEnvelope env' (Public (Private key)) (Generation key) = None /\
    env' = set_signature (Signature env') env.
Proof.
  intros [Hv E]%Sign_Verify Hids.
  destruct (Unmarshal_MarshalEnvelope env') as (text & Hm & Hu).
  - revert Hv. unfold VerifyEnvelope. by destruct (ValidateEnvelope env').
  - by rewrite E.
  - by exists text.
Qed.

Example signed_envelope_arrives_witness :
  let env := sample_envelope "t1" "m1" "th" in
  exists text, MarshalEnvelope env = inl text /\ UnmarshalEnvelope text = inl env.
Proof.
  destruct (signed_envelope_arrives (sample_envelope "t1" "m1" "th") (@MkHostKey toy_crypto "1" tt)
    (sample_envelope "t1" "m1" "th")) as (text & Hm & Hu & _).
  - vm_compute; reflexivity.
  - vm_compute; auto.
  - exists text. split; [exact Hm|exact Hu].
Defined.


(** ** Key files *)

Lemma Split_on_line a b : str_mem (chr 10) a = false ->
  Split_on (chr 10) (a +:+ LF +:+ b) = a :: Split_on (chr 10) b.
Proof.
  induction a as [|c a IH]; intros Ha; [done|]. cbn in Ha. apply orb_false_iff in Ha as [Hc Ha].
  rewrite string_app_cons. cbn [Split_on]. rewrite IH by done. apply bool_decide_eq_false in Hc.
  by rewrite bool_decide_eq_false_2 by congruence.
Qed.

Lemma solid_no_char c s : space_byte c = true -> solid s = true -> str_mem c s = false.
Proof.
  intros Hc. induction s as [|d s IH]; [done|]. unfold solid in *. cbn [str_mem str_forallb].
  intros [Hd Hs]%andb_true_iff. rewrite IH by done. rewrite orb_false_r. apply bool_decide_eq_false. intros ->. by rewrite Hc in Hd.
Qed.

Lemma hex_solid b : solid (EncodeToString b) = true.
Proof.
  eapply str_forallb_impl; [|apply EncodeToString_numeral].
  by intros [[] [] [] [] [] [] [] []].
Qed.

Lemma hex_not_empty b : b <> "" -> EncodeToString b <> "".
Proof. by destruct b. Qed.

(** A line "key value" is split at its space. *)
Lemma Cut_word k v : str_mem (chr 32) k = false -> Cut (k +:+ " " +:+ v) (chr 32) = Some (k, v).
Proof.
  induction k as [|c k IH]; [done|]. cbn [str_mem]. intros [Hc Hk]%orb_false_iff.
  rewrite string_app_cons. cbn [Cut]. apply bool_decide_eq_false in Hc.
  rewrite bool_decide_eq_false_2 by congruence. by rewrite IH.
Qed.

Lemma parse_key_line fields k v rest :
  solid k = true -> k <> "" -> solid v = true -> v <> "" -> fields !! k = None ->
  parse_key_lines fields ((k +:+ " " +:+ v) :: rest) = parse_key_lines (<[k := v]> fields) rest.
Proof.
  intros Hk Hk0 Hv Hv0 Hf. cbn [parse_key_lines]. destruct k as [|c k]; [done|].
  assert (TrimSpace (String c k +:+ " " +:+ v) = String c k +:+ " " +:+ v) as ->.
  { rewrite <-string_app_assoc, string_app_cons. apply solid_last; try done.
    unfold solid in Hk. cbn [str_forallb] in Hk. apply andb_true_iff in Hk as [Hc _]. by apply negb_true_iff. }
  rewrite Cut_word by (by apply solid_no_char). rewrite !bool_decide_eq_false_2 by done.
  assert (ContainsAny v (" " +:+ TAB) = false) as ->; [|by rewrite Hf].
  unfold ContainsAny. apply negb_false_iff. eapply str_forallb_impl; [|exact Hv].
  by intros [[] [] [] [] [] [] [] []].
Qed.

Lemma parse_key_text g field secret :
  solid g = true -> g <> "" -> solid field = true -> field <> "" -> field <> "generation" -> secret <> "" ->
  parseKeyFields (key_text g field secret) field =
  inl (<[field := EncodeToString secret]> (<["generation" := g]> ∅)).
Proof.
  intros Hg Hg0 Hf Hf0 Hne Hs. unfold parseKeyFields, key_text.
  set (h := EncodeToString secret). assert (h <> "") as Hh0 by (by apply hex_not_empty).
  assert (solid h = true) as Hh by apply hex_solid.
  assert (TrimSpace ("generation " +:+ g +:+ LF +:+ field +:+ " " +:+ h +:+ LF) =
    ("generation" +:+ " " +:+ g) +:+ LF +:+ (field +:+ " " +:+ h)) as ->.
  { assert (forall x, "generation " +:+ g +:+ LF +:+ field +:+ " " +:+ x =
      String (chr 103) ("eneration " +:+ g +:+ LF +:+ field +:+ " ") +:+ x) as E.
    { intros x. change (String (chr 103) ?y +:+ x) with (String (chr 103) (y +:+ x)). rewrite !string_app_assoc. reflexivity. }
    rewrite !string_app_assoc. change ("generation" +:+ " " +:+ ?x) with ("generation " +:+ x). rewrite !E.
    by apply solid_last. }
  rewrite Split_on_line by (rewrite !str_mem_app; by rewrite (solid_no_char _ g)).
  rewrite Split_on_no_sep by (rewrite !str_mem_app; by rewrite (solid_no_char _ h), (solid_no_char _ field)).
  rewrite parse_key_line by done.
  rewrite parse_key_line; [|done..|by rewrite lookup_insert_ne].
  cbn [parse_key_lines]. rewrite lookup_insert_ne, !lookup_insert_eq by done. unfold from_option, id.
  rewrite (TrimSpace_none g) by done. rewrite !bool_decide_eq_false_2 by done.
  rewrite bool_decide_eq_true_2 by done. cbn [negb orb]. rewrite (bool_decide_eq_false_2 (h = "")) by done. rewrite bool_decide_eq_true_2; [done|].
  rewrite map_size_insert_None by (by rewrite lookup_insert_ne). by rewrite map_size_insert_None, map_size_empty by done.
Qed.

Section key_files.
Context `{CryptoLaws}.

(** Key files are read back: the file written for a trusted host gives its public key and
    generation, and the file of the identity the key pair itself, for every generation that has
    no white space in it. *)
Theorem key_files_read_back generation :
  solid generation = true -> generation <> "" ->
  (forall pub, String.length pub = 32%nat -> exists fields,
     parseKeyFields (key_text generation "public" pub) "public" = inl fields /\
     trusted_key fields = (pub, generation, None)) /\
  (forall k, exists fields,
     parseKeyFields (key_text generation "seed" (Seed k)) "seed" = inl fields /\
     NewKeyFromSeed <$> (match decode_field fields "seed" 32 with inl s => Some s | inr _ => None end) = Some k /\
     fields !! "generation" = Some generation).
Proof.
  intros Hs Hg0. split.
  - intros pub Hp. eexists. split; [apply parse_key_text; try done; by intros ->|].
    unfold trusted_key, decode_field. rewrite lookup_insert_eq. unfold from_option at 1, id at 1. rewrite Decode_Encode.
    rewrite bool_decide_eq_true_2 by done. rewrite lookup_insert_ne, lookup_insert_eq by done. done.
  - intros k. pose proof (Seed_length k) as Hk. eexists. split; [apply parse_key_text; try done; intros E; by rewrite E in Hk|].
    unfold decode_field. rewrite lookup_insert_eq. unfold from_option at 1, id at 1. rewrite Decode_Encode.
    rewrite bool_decide_eq_true_2 by done. cbn. rewrite Seed_key. split; [done|].
    by rewrite lookup_insert_ne, lookup_insert_eq by done.
Qed.
End key_files.

Example key_files_read_back_witness : exists fields,
  parseKeyFields (key_text "2026-07" "public" (zeros 32)) "public" = inl fields /\
  trusted_key fields = (zeros 32, "2026-07", None).
Proof.
  refine (proj1 (key_files_read_back "2026-07" _ _) (zeros 32) _);
    [vm_compute; reflexivity|discriminate|reflexivity].
Defined.

(** A generation of two words is written but not read. *)
Example spaced_generation_unreadable :
  TrimSpace "july 2026" = "july 2026" /\
  parseKeyFields (key_text "july 2026" "public" (zeros 32)) "public" = inr (EMsg "line is invalid").
Proof. split; vm_compute; reflexivity. Qed.
