(* ===== verification/BridgeApply.v ===== *)
(** Applying an envelope to the local inbox: ApplyEnvelope of internal/bridge/apply.go. *)
From S2P Require Import Prelude GoStr GoTrim GoPath GoErr Fs Wp FsFacts Names Json JsonFacts JsonStruct Encode Format DeliveryRoot DeliveryRootFacts Sample Maildir Delivery Layout Repair ExistingInbox Bridge BridgeFacts.

(** ** The name of a transfer *)

Lemma dash_inj (a b x y : string) :
  str_mem (chr 45) a = false -> str_mem (chr 45) b = false ->
  a +:+ "-" +:+ x = b +:+ "-" +:+ y -> a = b /\ x = y.
Proof. apply sep_inj. Qed.

(** Transfers from hosts without a dash in their names have different files. *)
Lemma TransferFilename_inj h1 i1 h2 i2 :
  str_mem (chr 45) h1 = false -> str_mem (chr 45) h2 = false ->
  TransferFilename h1 i1 = TransferFilename h2 i2 -> h1 = h2 /\ i1 = i2.
Proof.
  unfold TransferFilename. intros H1 H2 E%app_inj_l. apply dash_inj in E as [-> E]; [|done..].
  by apply app_inj_r in E as [-> _].
Qed.

(** With a dash, different transfers of different hosts have the same file. *)
Example TransferFilename_collision :
  let e1 := sample_envelope "c-t1" "m1" "th" in
  TransferFilename "red" "c-t1" = TransferFilename "red-c" "t1" /\
  ValidateHandle "red" = None /\ ValidateHandle "red-c" = None /\
  validateTransferID "c-t1" = None /\ validateTransferID "t1" = None.
Proof. repeat split; vm_compute; reflexivity. Qed.

Lemma transfer_name_plain h i : ValidateHandle h = None -> validateTransferID i = None -> plain (TransferFilename h i) = true.
Proof.
  intros Hh Hi. assert (ValidateHandle i = None) as Hi'.
  { unfold validateTransferID in Hi. case_match; [done|]. by destruct (ValidateHandle i). }
  apply plain_spec. unfold TransferFilename. split_and!; try done.
  apply handle_plain, plain_spec in Hh as (_ & _ & _ & Hh). apply handle_plain, plain_spec in Hi' as (_ & _ & _ & Hi').
  by rewrite !str_mem_app, Hh, Hi'.
Qed.

Section apply.
Context `{Crypto} (e : env) (r : DeliveryRoot) (Hat : dr_at r = []).

Definition transfer_path (agent : string) (env : Envelope) : path :=
  dest (TransferFilename (SourceHost env) (TransferID env)) agent.

Definition apply_post (host agent : string) (env : Envelope) (t0 : tree) (x : ApplyResult * option gerr) (w' : world) : Prop :=
  atomic_for [agent] (TransferFilename (SourceHost env) (TransferID env)) (Payload env) t0 (tr w') /\
  match x with
  | (res, None) =>
    ValidateEnvelope env = None /\ DestAlias env = host +:+ "/" +:+ agent /\
    content (tr w') (transfer_path agent env) = Some (Payload env) /\
    ar_Path res = displayPath r (transfer_path agent env)
  | (_, Some err) =>
    (is_committed err = true -> content (tr w') (transfer_path agent env) = Some (Payload env)) /\
    (is_committed err = false -> dents (tr w') !! transfer_path agent env = dents t0 !! transfer_path agent env)
  end.

Lemma apply_untouched host agent env t0 w res err :
  visible_err err = false -> tr w = t0 -> apply_post host agent env t0 (res, Some err) w.
Proof.
  intros Hq E. split; [rewrite E; apply atomic_for_refl|]. rewrite quiet_not_committed by done. by rewrite E.
Qed.

Lemma ValidateEnvelope_quiet env x : ValidateEnvelope env = Some x -> visible_err x = false.
Proof.
  unfold ValidateEnvelope, validateTransferID, ParseAlias. intros Hx.
  repeat (case_match; simplify_eq; try done); rewrite ?visible_err_Errorf; try (by eapply handle_error_quiet).
  destruct (ValidateHandle (TransferID env)) eqn:Hh; [|done]. simplify_eq/=.
  rewrite visible_err_Errorf. by eapply handle_error_quiet.
Qed.

Lemma ValidateEnvelope_plain env : ValidateEnvelope env = None ->
  plain (TransferFilename (SourceHost env) (TransferID env)) = true.
Proof.
  unfold ValidateEnvelope. intros Hv. repeat (case_match; try done). by apply transfer_name_plain.
Qed.

Lemma wpi_ApplyEnvelope host agent env w :
  wpi e (atomic_for [agent] (TransferFilename (SourceHost env) (TransferID env)) (Payload env) (tr w))
    (ApplyEnvelope r host agent env) (apply_post host agent env (tr w)) w.
Proof.
  set (f := TransferFilename _ _). set (J := atomic_for _ _ _ _). assert (J (tr w)) as HJ0 by apply atomic_for_refl.
  unfold ApplyEnvelope. fold f. destruct (ValidateEnvelope env) eqn:Hv; [wret; apply apply_untouched; [by eapply ValidateEnvelope_quiet|done]|].
  pose proof (ValidateEnvelope_plain _ Hv) as Hf. fold f in Hf.
  destruct (ParseAlias (DestAlias env)) as [[h a]|] eqn:Hp.
  2:{ revert Hv. unfold ValidateEnvelope. rewrite Hp. by repeat case_match. }
  pose proof Hp as (Hal & _ & Ha)%ParseAlias_inl.
  case_bool_decide as Eh; [|by wret; apply apply_untouched]. case_bool_decide as Ea; [|by wret; apply apply_untouched].
  subst h a. cbn [negb].
  assert (Join ["agents"; agent; "inbox"; "new"; f] = dest f agent) as ->.
  { apply Join_plain. repeat constructor; try done. by apply handle_plain. }
  apply wpi_ro_bind; [auto with amq|done|]. intros [st se] w1 Ht1 _.
  apply wpi_bind. subst J. rewrite <-Ht1. eapply wpi_mono; [by apply wpi_DeliverToExistingInbox|].
  intros [p [err|]] w2 [Hat2 Hx].
  2:{ destruct Hx as (-> & Hc & _). wret. by split_and!. }
  assert (apply_post host agent env (tr w1) (no_apply, Some err) w2) as Herr.
  { split; [done|]. destruct (is_committed err); [|done]. by destruct Hx. }
  destruct (errors_Is_Exist err); [|by wret]. cbn [negb].
  apply wpi_bind. eapply wpi_mono; [by apply wpi_ReadRegularNoFollow|].
  intros [d [x|]] w3 (Ht3 & _ & Hd).
  { wret. unfold apply_post in *. by rewrite Ht3. }
  destruct (Hd eq_refl) as [Hd' _]. case_bool_decide as Epl; wret; unfold apply_post in *; rewrite Ht3; [|done].
  cbn in Hd'. subst d. by split_and!.
Qed.

End apply.

(** C37: Applying an envelope is atomic and never overwrites: stopped after any call, under any
    I/O failures, the inbox is as it was or has the whole payload under the name of the
    transfer, where nothing was. *)
Theorem apply_atomic `{Crypto} e r host agent env w :
  dr_at r = [] ->
  Forall (fun w' => atomic_for [agent] (TransferFilename (SourceHost env) (TransferID env)) (Payload env) (tr w) (tr w'))
    (trace e (ApplyEnvelope r host agent env) w).
Proof. intros Hat. eapply wpi_trace. by apply wpi_ApplyEnvelope. Qed.

Definition blue_bob : Envelope := sample_envelope "t1" "m1" "th".
(** The sample queue with complete mailboxes, and the given files. *)
Definition complete_world (files : list (path * string)) : world :=
  let t := foldl (fun t p => add_dir t p 448) (sample_tree [])
    [["agents"; "bob"; "outbox"]; ["agents"; "bob"; "outbox"; "sent"]; ["meta"]] in
  World (foldl (fun t '(p, s) => t_write (add_file t p) (fresh_ino t) s) t (config_file :: files)) 0 ∅ 0 ∅.

Example apply_atomic_witness :
  Forall (fun w' => atomic_for ["bob"] "xfer-red-t1.md" "hello" (tr (complete_world [])) (tr w'))
    (trace (failing_env 60 EIO) (ApplyEnvelope sample_root "blue" "bob" blue_bob) (complete_world [])).
Proof. by apply (apply_atomic (failing_env 60 EIO) sample_root "blue" "bob" blue_bob). Defined.

(** What an apply reports is what happened: after a success the envelope was valid and meant
    for this host and agent, and the inbox has its whole payload; after an error the inbox has
    no file of the transfer that it did not have before, or the error says that the message was
    committed.  A transfer whose file holds another payload is refused and left as it is. *)
Theorem apply_accounts `{Crypto} e r host agent env w res err w' :
  dr_at r = [] -> run e (ApplyEnvelope r host agent env) w = ((res, err), w') ->
  apply_post r host agent env (tr w) (res, err) w' /\
  (forall d, content (tr w) (transfer_path agent env) = Some d -> d <> Payload env ->
     err <> None /\ content (tr w') (transfer_path agent env) = Some d).
Proof.
  intros Hat E. pose proof (wpi_run e _ _ _ _ (wpi_ApplyEnvelope e r Hat host agent env w)) as H1. rewrite E in H1. cbn [fst snd] in H1.
  split; [done|]. intros d Hd Hne. destruct H1 as [[Hev Hpub] Hx].
  assert (content (tr w') (transfer_path agent env) = Some d) as Hd'.
  { destruct (Hpub agent) as [Hs|[Hs _]]; [by apply list_elem_of_singleton| |];
      unfold content, transfer_path in *; [|by rewrite Hs in Hd].
    rewrite Hs. destruct (dents (tr w) !! _) as [[]|]; try done. eapply lookup_weaken; [done|apply Hev]. }
  split; [|done]. intros ->. destruct Hx as (_ & _ & Hc & _). congruence.
Qed.

Example apply_accounts_witness :
  let w := complete_world [] in
  let x := run quiet_env (ApplyEnvelope sample_root "blue" "bob" blue_bob) w in
  x.1.2 = None /\ content (tr x.2) ["agents"; "bob"; "inbox"; "new"; "xfer-red-t1.md"] = Some "hello" /\
  apply_post sample_root "blue" "bob" blue_bob (tr w) (x.1.1, x.1.2) x.2.
Proof.
  split; [vm_compute; reflexivity|]. split; [vm_compute; reflexivity|].
  exact (proj1 (apply_accounts quiet_env sample_root "blue" "bob" blue_bob (complete_world []) _ _ _ eq_refl (triple_eta _))).
Defined.

(** Applied again, a transfer is reported as a replay and delivered once; applied again after
    the consumer has claimed it, it is delivered a second time. *)
Example apply_again :
  let apply files := (run quiet_env (ApplyEnvelope sample_root "blue" "bob" blue_bob) (complete_world files)) in
  let new := apply [(["agents"; "bob"; "inbox"; "new"; "xfer-red-t1.md"], "hello")] in
  let cur := apply [(["agents"; "bob"; "inbox"; "cur"; "xfer-red-t1.md"], "hello")] in
  (new.1.2 = None /\ ar_Replayed new.1.1 = true) /\
  (cur.1.2 = None /\ ar_Replayed cur.1.1 = false /\
   content (tr cur.2) ["agents"; "bob"; "inbox"; "new"; "xfer-red-t1.md"] = Some "hello" /\
   content (tr cur.2) ["agents"; "bob"; "inbox"; "cur"; "xfer-red-t1.md"] = Some "hello").
Proof. repeat split; vm_compute; reflexivity. Qed.
