(* ===== verification/Enqueue.v ===== *)
(** Putting a message into the outbound spool of the bridge: internal/bridge/enqueue.go and
    enqueue_config.go.

    [Abs] is filepath.Abs, which depends on the working directory of the process: it takes the
    text of a path to a path of the tree. *)
From S2P Require Import Prelude GoStr GoPath GoErr Fs Wp Names Json JsonFacts JsonStruct Encode DeliveryRoot Bridge.
From S2P Require Ambient Format.

Definition maxEnqueueConfigSize : Z := 64 * 1024.

Record EnqueueConfig := MkEnqueueConfig {
  Root : string;
  SourceHost : string;
  SourceHandle : string;
  AllowedDestAliases : option (list string);
}.

Definition config_fields : list string := ["root"; "source_host"; "source_handle"; "allowed_dest_aliases"].

Definition config_of_json (j : json) : option EnqueueConfig :=
  match j with
  | JNull => Some (MkEnqueueConfig "" "" "" None)
  | JObj l =>
    if negb (known_fields config_fields l) then None else
    let get {A} `{JsonField A} := @get A _ config_fields l in
    a1 ← get "root" ""; a2 ← get "source_host" ""; a3 ← get "source_handle" "";
    a4 ← get "allowed_dest_aliases" (@None (list string));
    Some (MkEnqueueConfig a1 a2 a3 a4)
  | _ => None
  end.

Definition aliases (cfg : EnqueueConfig) : list string := default [] (AllowedDestAliases cfg).

(** The entries in order; [seen] are the ones before. *)
Fixpoint check_aliases (seen : gset string) (l : list string) : option gerr :=
  match l with
  | [] => None
  | alias :: l' =>
    let alias := TrimSpace alias in
    if bool_decide (alias = "") then Some (EMsg "allowed_dest_aliases contains a blank entry") else
    match ParseAlias alias with
    | inr e => Some (Errorf "allowed_dest_aliases" e)
    | inl _ => if bool_decide (alias ∈ seen) then Some (EMsg "allowed_dest_aliases contains duplicate")
               else check_aliases ({[alias]} ∪ seen) l'
    end
  end.

Definition ValidateEnqueueConfig (cfg : EnqueueConfig) : option gerr :=
  if bool_decide (TrimSpace (Root cfg) = "") then Some (EMsg "enqueue config root is required") else
  match ValidateHandle (SourceHost cfg) with
  | Some e => Some (Errorf "enqueue config source_host" e)
  | None =>
    match ValidateHandle (SourceHandle cfg) with
    | Some e => Some (Errorf "enqueue config source_handle" e)
    | None => match aliases cfg with
              | [] => Some (EMsg "allowed_dest_aliases must not be empty")
              | l => check_aliases ∅ l
              end
    end
  end.

Definition AllowedDestSet (cfg : EnqueueConfig) : gset string := list_to_set (TrimSpace <$> aliases cfg).

(** The text of a configuration; the decoder refuses a second value. *)
Definition parse_config (data : string) : EnqueueConfig + gerr :=
  match Decode data with
  | None => inr (EMsg "parse enqueue config")
  | Some (j, rest) =>
    match config_of_json j with
    | None => inr (EMsg "parse enqueue config")
    | Some cfg =>
      if negb (bool_decide (skip_ws rest = "")) then inr (EMsg "enqueue config has trailing JSON") else
      match ValidateEnqueueConfig cfg with Some e => inr e | None => inl cfg end
    end
  end.

Definition normalizeEnqueueConfig (Abs : string -> path + gerr) (cfg : EnqueueConfig)
  : option EnqueueConfig * option gerr :=
  match Abs (TrimSpace (Root cfg)) with
  | inr e => (None, Some (Errorf "resolve enqueue config root" e))
  | inl root =>
    (Some (MkEnqueueConfig ("/" +:+ path_string root) (SourceHost cfg) (SourceHandle cfg) (AllowedDestAliases cfg)), None)
  end.

Definition LoadEnqueueConfig (Abs : string -> path + gerr) (p : path) : prog (option EnqueueConfig * option gerr) :=
  let_ok i := sys (SLstat p) orelse x => Ret (None, Some (Errorf "stat enqueue config" (EErrno x))) in
  match validatePrivateKeyInfo i with
  | Some e => Ret (None, Some e)
  | None =>
    x ← Ambient.OpenRegularNoFollow p;
    match x with
    | (Some (file, _), None) =>
      let_ok data := sys (SReadAll file) orelse x => Ret (None, Some (Errorf "read enqueue config" (EErrno x))) in
      let data := Format.limit (maxEnqueueConfigSize + 1) data in
      if Z.ltb maxEnqueueConfigSize (Z.of_nat (String.length data)) then Ret (None, Some (EMsg "enqueue config is too large")) else
      match parse_config data with
      | inr e => Ret (None, Some e)
      | inl cfg => Ret (normalizeEnqueueConfig Abs cfg)
      end
    | (_, e) => Ret (None, Errorf "open enqueue config" <$> e)
    end
  end.

(** ** The spool *)

Definition DestSidecarPath (messagePath : path) : path :=
  Dir messagePath ++ [TrimSuffix (Base messagePath) ".md" +:+ ".dest"].

Definition writeDestSidecar (messagePath : path) (destAlias : string) : prog (option gerr) :=
  Ambient.write_new "dest sidecar" (DestSidecarPath messagePath) (destAlias +:+ LF).

Definition syncDirectory (p : path) : prog (option gerr) :=
  let_ok dir := sys (SOpen p) orelse x => Ret (Some (EErrno x)) in
  syncRes ← call (SFsync dir);
  _ ← sys (SClose dir);
  Ret syncRes.

Record EnqueueResult := MkEnqueued { er_Path : path; er_Filename : string }.
Definition no_enqueue : EnqueueResult := MkEnqueued [] "".

(** The checks of a message for the spool; the name of its file. *)
Definition spool_name (cfg : EnqueueConfig) (destAlias message : string) : string + gerr :=
  if bool_decide (destAlias = "") then inr (EMsg "destination alias is required") else
  match ParseAlias destAlias with
  | inr e => inr (Errorf "destination alias" e)
  | inl _ =>
    if negb (bool_decide (destAlias ∈ AllowedDestSet cfg)) then inr (EMsg "destination alias is not in the allowlist") else
    if bool_decide (message = "") then inr (EMsg "message is empty") else
    if Z.ltb Format.MaxMessageSize (Z.of_nat (String.length message)) then inr (EMsg "message exceeds maximum size") else
    match Format.ParseMessage message with
    | inr e => inr (Errorf "parse message" e)
    | inl parsed =>
      let h := Format.Header_ parsed in
      if bool_decide (Format.ID h = "") || negb (bool_decide (TrimSpace (Format.ID h) = Format.ID h))
      then inr (EMsg "message id is invalid") else
      if bool_decide (Format.Thread h = "") || negb (bool_decide (TrimSpace (Format.Thread h) = Format.Thread h))
      then inr (EMsg "message thread is invalid") else
      if negb (bool_decide (Format.From h = SourceHandle cfg)) then inr (EMsg "message sender does not match source handle") else
      let filename := Format.ID h +:+ ".md" in
      match ValidateMessageFilename filename with
      | Some e => inr (Errorf "message filename" e)
      | None => inl filename
      end
    end
  end.

Definition Enqueue (Abs : string -> path + gerr) (cfg : EnqueueConfig) (destAlias message : string)
  : prog (EnqueueResult * option gerr) :=
  let destAlias := TrimSpace destAlias in
  match spool_name cfg destAlias message with
  | inr e => Ret (no_enqueue, Some e)
  | inl filename =>
    match Abs (Root cfg) with
    | inr e => Ret (no_enqueue, Some (Errorf "resolve bridge root" e))
    | inl root =>
      let spoolDir := Join_under root ["bridge"; "outbox"; SourceHandle cfg; "new"] in
      if_err e := call (SMkdirAll spoolDir 448) then Ret (no_enqueue, Some (Errorf "create bridge spool" e)) else
      let target := Join_under spoolDir [filename] in
      if_err e := Ambient.write_new "spool file" target message then Ret (no_enqueue, Some e) else
      if_err e := writeDestSidecar target destAlias then _ ← sys (SRemove target); Ret (no_enqueue, Some e) else
      if_err e := syncDirectory spoolDir then Ret (no_enqueue, Some (Errorf "sync bridge spool" e)) else
      Ret (MkEnqueued target filename, None)
    end
  end.
