(* ===== verification/Courier.v ===== *)
(** The courier of the bridge: cmd/amq-bridge/courier.go, and apply-file of apply_file.go.

    The tree is the directory the AMQ root names; paths below the root are written relative to
    it, whether the code reaches them through the ambient path or through the pinned root.
    The network is a parameter: a request is a program that answers with a response or an
    error.  So are the functions of net/url and net the code calls.  A path given as text is
    resolved by the parameter [Abs] (filepath.Abs). *)
From S2P Require Import Prelude GoStr GoTime GoPath GoErr Fs Wp Names Json JsonFacts JsonStruct Encode DeliveryRoot Bridge.
From S2P Require Ambient Format Enqueue.

Definition defaultBridgeBatchSize : Z := 20.
Definition defaultKeyGeneration : string := "1".
Definition maxHTTPBodySize : Z := 16 * 1024 * 1024.
Definition transfersPath : string := "/v1/transfers".

Definition ReceiptTransportAccepted : string := "transport_accepted".
Definition ReceiptDestinationMaildirCommit : string := "destination_maildir_committed".

Record Receipt := MkReceipt {
  Stage : string;
  rc_TransferID : string;
  rc_PayloadSHA256 : string;
  Replayed : bool;
  rc_SourceMessageID : string;
  CommittedPath : string;
  EmittedAt : string;
}.

Definition receipt_fields : list string :=
  ["stage"; "transfer_id"; "payload_sha256"; "replayed"; "source_message_id"; "committed_path"; "emitted_at"].

Definition receipt_json (r : Receipt) : json :=
  JObj ([("stage", to_json (Stage r)); ("transfer_id", to_json (rc_TransferID r));
         ("payload_sha256", to_json (rc_PayloadSHA256 r))] ++
        opt_member "replayed" (to_json (Replayed r)) (negb (Replayed r)) ++
        opt_member "source_message_id" (to_json (rc_SourceMessageID r)) (bool_decide (rc_SourceMessageID r = "")) ++
        opt_member "committed_path" (to_json (CommittedPath r)) (bool_decide (CommittedPath r = "")) ++
        [("emitted_at", to_json (EmittedAt r))]).

Definition receipt_of_json (j : json) : option Receipt :=
  match j with
  | JNull => Some (MkReceipt "" "" "" false "" "" "")
  | JObj l =>
    let get {A} `{JsonField A} := @get A _ receipt_fields l in
    a1 ← get "stage" ""; a2 ← get "transfer_id" ""; a3 ← get "payload_sha256" ""; a4 ← get "replayed" false;
    a5 ← get "source_message_id" ""; a6 ← get "committed_path" ""; a7 ← get "emitted_at" "";
    Some (MkReceipt a1 a2 a3 a4 a5 a6 a7)
  | _ => None
  end.

(** What the rendezvous sees of a receipt. *)
Record wireReceipt := MkWire { w_Stage : string; w_TransferID : string; w_PayloadSHA256 : string }.

Definition wire_fields : list string := ["stage"; "transfer_id"; "payload_sha256"].

#[global] Instance json_wire : JsonField wireReceipt := {|
  to_json r := JObj [("stage", to_json (w_Stage r)); ("transfer_id", to_json (w_TransferID r));
                     ("payload_sha256", to_json (w_PayloadSHA256 r))];
  from_json old j := match j with
    | JNull => Some old
    | JObj l =>
      if negb (known_fields wire_fields l) then None else
      let get {A} `{JsonField A} := @get A _ wire_fields l in
      a1 ← get "stage" (w_Stage old); a2 ← get "transfer_id" (w_TransferID old);
      a3 ← get "payload_sha256" (w_PayloadSHA256 old);
      Some (MkWire a1 a2 a3)
    | _ => None
    end;
|}.

(** {"receipt": ...} without other members. *)
Definition transportResponse (j : json) : option wireReceipt :=
  match j with
  | JNull => Some (MkWire "" "" "")
  | JObj l => if negb (known_fields ["receipt"] l) then None else get ["receipt"] l "receipt" (MkWire "" "" "")
  | _ => None
  end.

Definition ackRequest (r : wireReceipt) : json := JObj [("receipt", to_json r)].

(** []json.RawMessage: the values are kept for UnmarshalEnvelope. *)
#[global] Instance json_raws : JsonField (list json) := {|
  to_json := JArr;
  from_json old j := match j with JNull => Some [] | JArr l => Some l | _ => None end;
|}.

Definition pollResponse (j : json) : option (list json) :=
  match j with
  | JNull => Some []
  | JObj l => if negb (known_fields ["envelopes"] l) then None else get ["envelopes"] l "envelopes" []
  | _ => None
  end.

(** ** The network *)

Record URL := MkURL {
  Scheme : string; Host : string; Hostname : string; User : bool; Fragment : string;
  Path : string; RawPath : string; RawQuery : string;
}.

Record Request := MkRequest { Method : string; Endpoint : string; ReqBody : option string }.

(** The body as far as it comes, and the error that ends it. *)
Record Response := MkResponse { StatusCode : Z; RespBody : string; RespErr : option gerr }.

Class Net := {
  url_Parse : string -> URL + gerr;
  url_Query : string -> gmap string (list string);     (* URL.Query of a raw query *)
  url_Encode : gmap string (list string) -> string;    (* Values.Encode *)
  url_String : URL -> string;
  PathEscape : string -> string;
  LoopbackIP : string -> bool;                         (* net.ParseIP and IP.IsLoopback *)
  Do : Request -> prog (Response + gerr);              (* NewRequestWithContext, Client.Do *)
}.

(** ſ, the only rune outside ASCII that folds to a letter of "localhost". *)
Fixpoint unfold_long_s (s : string) : string :=
  match s with
  | String a (String b r as r') =>
    if bool_decide (a = chr 197) && bool_decide (b = chr 191) then String (chr 115) (unfold_long_s r)
    else String a (unfold_long_s r')
  | _ => s
  end.

Section network.
Context `{Net}.

Definition isLoopbackHost (host : string) : bool :=
  EqualFold (unfold_long_s host) "localhost" || LoopbackIP host.

Definition validateRendezvousURL (raw : string) : option gerr :=
  match url_Parse raw with
  | inr e => Some (Errorf "rendezvous URL" e)
  | inl u =>
    if negb (bool_decide (Scheme u = "https")) && negb (bool_decide (Scheme u = "http"))
    then Some (EMsg "rendezvous URL must use http or https")
    else if bool_decide (Scheme u = "http") && negb (isLoopbackHost (Hostname u))
    then Some (EMsg "non-loopback rendezvous URL must use https")
    else if bool_decide (Host u = "") || User u || negb (bool_decide (Fragment u = ""))
    then Some (EMsg "rendezvous URL must have a host and no userinfo or fragment")
    else None
  end.

Definition rendezvousEndpoint (raw requestPath : string) (query : gmap string (list string)) : string + gerr :=
  match url_Parse raw with
  | inr e => inr (Errorf "parse rendezvous URL" e)
  | inl base =>
    match validateRendezvousURL raw with
    | Some e => inr e
    | None =>
      inl (url_String (MkURL (Scheme base) (Host base) (Hostname base) (User base) (Fragment base)
             (TrimRight (Path base) "/" +:+ requestPath) ""
             (url_Encode (query ∪ url_Query (RawQuery base)))))
    end
  end.

(** The decoded answer to a request; one value and space. *)
Definition requestJSON {A} (raw method requestPath : string) (query : gmap string (list string))
    (body : option string) (decode : json -> option A) : prog (A + gerr) :=
  match rendezvousEndpoint raw requestPath query with
  | inr e => Ret (inr e)
  | inl endpoint =>
    x ← Do (MkRequest method endpoint body);
    match x with
    | inr e => Ret (inr e)
    | inl resp =>
      let responseBody := Format.limit (maxHTTPBodySize + 1) (RespBody resp) in
      let tooLong := Z.ltb maxHTTPBodySize (Z.of_nat (String.length responseBody)) in
      match (if tooLong then None else RespErr resp) with
      | Some e => Ret (inr e)
      | None =>
        if tooLong then Ret (inr (EMsg "rendezvous response exceeds the limit")) else
        if Z.ltb (StatusCode resp) 200 || Z.leb 300 (StatusCode resp) then Ret (inr (EMsg "rendezvous status")) else
        match Decode responseBody with
        | None => Ret (inr (EMsg "decode rendezvous response"))
        | Some (j, rest) =>
          match decode j with
          | None => Ret (inr (EMsg "decode rendezvous response"))
          | Some a =>
            if negb (bool_decide (skip_ws rest = "")) then Ret (inr (EMsg "rendezvous response has trailing JSON"))
            else Ret (inl a)
          end
        end
      end
    end
  end.

End network.

(** ** Configuration *)

Record Config := MkConfig {
  Root : string;
  RendezvousURL : string;
  cf_SourceHost : string;
  cf_SourceHandle : string;
  cf_DestAlias : string;
  ReceiveAlias : string;
  LocalHost : string;
  AllowedDestAliases : list string;
  AllowedSourceHosts : list string;
  SpoolDir : string;
  ReceiptDir : string;
  cf_KeyGeneration : string;
  BatchSize : Z;
}.

(** Entries separated by commas, trimmed, blank ones dropped, each checked. *)
Fixpoint checked_set (check : string -> option gerr) (set : gset string) (values : list string) : gset string + gerr :=
  match values with
  | [] => inl set
  | value :: rest =>
    let value := TrimSpace value in
    if bool_decide (value = "") then checked_set check set rest else
    match check value with
    | Some e => inr e
    | None => checked_set check ({[value]} ∪ set) rest
    end
  end.

Definition comma_values (values : list string) : list string := values ≫= Split_on (chr 44).

Definition aliasSet (values : list string) (kind : string) : gset string + gerr :=
  checked_set (fun v => match ParseAlias v with inr e => Some (Errorf kind e) | inl _ => None end) ∅ (comma_values values).

Definition handleSet (values : list string) (kind : string) : gset string + gerr :=
  checked_set (fun v => Errorf kind <$> ValidateHandle v) ∅ (comma_values values).

(** filepath.Rel of two absolute clean paths, refused unless it stays below the root. *)
Definition rootRelativePath (root p : path) : path + gerr :=
  if negb (bool_decide (root `prefix_of` p)) then inr (EMsg "path must stay under the AMQ root")
  else match drop (length root) p with
       | [] => inr (EMsg "path must name a directory below the AMQ root")
       | rel => inl rel
       end.

Section courier.
Context `{Crypto} `{Net} (Abs : string -> path + gerr).

Record Courier := MkCourier {
  cfg : Config;
  c_root : path;                 (* the absolute AMQ root *)
  c_spool : path;                (* the spool directory, relative to it *)
  allowedDest : gset string;
  allowedSource : gset string;
  receiveAlias : string;
  localHost : string;
  localAgent : string;
  hostID : string;
  identity : option HostKey;
  receiptRelDir : path;
}.

Definition refused {A} (s : string) : option A * option gerr := (None, Some (EMsg s)).

(** The defaults, and the checks of the settings that need no file. *)
Definition with_defaults (cf : Config) : Config :=
  MkConfig (Root cf) (RendezvousURL cf) (cf_SourceHost cf) (cf_SourceHandle cf) (cf_DestAlias cf) (ReceiveAlias cf)
    (LocalHost cf) (AllowedDestAliases cf) (AllowedSourceHosts cf) (SpoolDir cf) (ReceiptDir cf)
    (if bool_decide (cf_KeyGeneration cf = "") then defaultKeyGeneration else cf_KeyGeneration cf)
    (if bool_decide (BatchSize cf = 0%Z) then defaultBridgeBatchSize else BatchSize cf).

(** The routes: the destinations and sources allowed, the alias received for, its host and agent. *)
Definition routes (cf : Config) : gset string * gset string * string * string * string + gerr :=
  if bool_decide (TrimSpace (cf_DestAlias cf) = "") then inr (EMsg "destination alias is required") else
  match ParseAlias (cf_DestAlias cf) with
  | inr e => inr (Errorf "destination alias" e)
  | inl _ =>
    match aliasSet (AllowedDestAliases cf) "destination" with
    | inr e => inr e
    | inl dests =>
      if bool_decide (dests = ∅) then inr (EMsg "at least one destination alias must be allowlisted") else
      if negb (bool_decide (cf_DestAlias cf ∈ dests)) then inr (EMsg "destination alias is not in the allowlist") else
      let receive := TrimSpace (ReceiveAlias cf) in
      let receive' := if bool_decide (receive = "") then cf_DestAlias cf else receive in
      if negb (bool_decide (receive = "")) && negb (bool_decide (receive ∈ dests))
      then inr (EMsg "receive alias is not in the allowlist") else
      match ParseAlias receive' with
      | inr e => inr (Errorf "receive alias" e)
      | inl (host, agent) =>
        match (if bool_decide (LocalHost cf = "") then None else
               match ValidateHandle (LocalHost cf) with
               | Some e => Some (Errorf "local host" e)
               | None => if bool_decide (LocalHost cf = host) then None
                         else Some (EMsg "receive alias host does not match local host")
               end) with
        | Some e => inr e
        | None =>
          match handleSet (AllowedSourceHosts cf) "source host" with
          | inr e => inr e
          | inl sources => inl (dests, sources, receive', host, agent)
          end
        end
      end
    end
  end.

Definition optional_handle (what h : string) : option gerr :=
  if bool_decide (h = "") then None else Errorf what <$> ValidateHandle h.

(** The spool and the receipts, relative to the root. *)
Definition courier_dirs (cf : Config) (root : path) : path * path + gerr :=
  let given text dflt := if bool_decide (text = "") then inl dflt else Abs text in
  match given (SpoolDir cf) (if bool_decide (cf_SourceHandle cf = "") then Join_under root ["bridge"; "outbox"]
                             else Join_under root ["bridge"; "outbox"; cf_SourceHandle cf; "new"]) with
  | inr e => inr (Errorf "resolve bridge spool" e)
  | inl spool =>
    match given (ReceiptDir cf) (Join_under root ["bridge"; "receipts"]) with
    | inr e => inr (Errorf "resolve bridge receipt directory" e)
    | inl receipts =>
      match rootRelativePath root spool with
      | inr e => inr (Errorf "bridge spool directory" e)
      | inl spool =>
        match rootRelativePath root receipts with
        | inr e => inr (Errorf "receipt directory" e)
        | inl receipts => inl (spool, receipts)
        end
      end
    end
  end.

(** The key of a courier that pushes, of the configured generation. *)
Definition load_identity (cf : Config) : prog (option HostKey * option gerr) :=
  if bool_decide (cf_SourceHost cf = "") then Ret (None, None) else
  let_val key := LoadIdentity [] orelse e => Ret (None, Some e) in
  match key with
  | Some k => if negb (bool_decide (Generation k = cf_KeyGeneration cf))
              then Ret (refused "identity generation does not match --key-generation") else Ret (Some k, None)
  | None => Ret (None, None)
  end.

Definition NewCourier (cf : Config) : prog (option Courier * option gerr) :=
  if bool_decide (TrimSpace (Root cf) = "") then Ret (refused "bridge root is required") else
  match Abs (Root cf) with
  | inr e => Ret (None, Some (Errorf "resolve bridge root" e))
  | inl root =>
    if bool_decide (TrimSpace (RendezvousURL cf) = "") then Ret (refused "rendezvous URL is required") else
    match validateRendezvousURL (RendezvousURL cf) with
    | Some e => Ret (None, Some e)
    | None =>
      let cf := with_defaults cf in
      if bool_decide (TrimSpace (cf_KeyGeneration cf) = "") || negb (bool_decide (cf_KeyGeneration cf = TrimSpace (cf_KeyGeneration cf)))
      then Ret (refused "key generation must be nonblank and have no surrounding whitespace") else
      if Z.ltb (BatchSize cf) 1 then Ret (refused "batch size must be positive") else
      match routes cf with
      | inr e => Ret (None, Some e)
      | inl (dests, sources, receive, host, agent) =>
        match optional_handle "source host" (cf_SourceHost cf) with
        | Some e => Ret (None, Some e)
        | None =>
          match optional_handle "source handle" (cf_SourceHandle cf) with
          | Some e => Ret (None, Some e)
          | None =>
            let_val hid := LoadHostID [] orelse e => Ret (None, Some e) in
            if negb (bool_decide (cf_SourceHost cf = "")) && negb (bool_decide (cf_SourceHost cf = hid))
            then Ret (refused "source host does not match bridge host-id") else
            let_val key := load_identity cf orelse e => Ret (None, Some e) in
            match courier_dirs cf root with
            | inr e => Ret (None, Some e)
            | inl (spool, receipts) =>
              Ret (Some (MkCourier cf root spool dests sources receive host agent hid key receipts), None)
            end
          end
        end
      end
    end
  end.

(** ** Receipts *)

Definition receiptFilename (transferID stage : string) : string := transferID +:+ "__" +:+ stage +:+ ".json".

Definition parse_receipt (data : string) : option Receipt := j ← Unmarshal data; receipt_of_json j.

Definition same_transfer (r : Receipt) (stage id digest : string) : bool :=
  bool_decide (Stage r = stage) && bool_decide (rc_TransferID r = id) && EqualFold (rc_PayloadSHA256 r) digest.

Definition existingReceipt (c : Courier) (root : DeliveryRoot) (env : Envelope) (stage : string)
  : prog (Receipt + gerr) :=
  let p := Join_under (receiptRelDir c) [receiptFilename (TransferID env) stage] in
  let_val data := ReadRegularNoFollow root p orelse e => Ret (inr e) in
  match parse_receipt data with
  | None => Ret (inr (EMsg "parse receipt"))
  | Some r => if negb (same_transfer r stage (TransferID env) (PayloadSHA256 env))
              then Ret (inr (EMsg "receipt conflicts with transfer")) else Ret (inl r)
  end.

Definition stamp_receipt (r : Receipt) : prog Receipt :=
  if negb (bool_decide (EmittedAt r = "")) then Ret r else
  now ← sys SNow;
  Ret (MkReceipt (Stage r) (rc_TransferID r) (rc_PayloadSHA256 r) (Replayed r) (rc_SourceMessageID r) (CommittedPath r)
         (Format_RFC3339Nano now)).

Definition writeBridgeReceipt (root : DeliveryRoot) (dir : path) (r : Receipt) : prog (option gerr) :=
  r ← stamp_receipt r;
  let data := MarshalIndent (receipt_json r) +:+ LF in
  let filename := receiptFilename (rc_TransferID r) (Stage r) in
  let p := Join_under dir [filename] in
  x ← WriteFileExclusive root dir filename data;
  match x with
  | (_, None) => Ret None
  | (_, Some err) =>
    if negb (errors_Is_Exist err) then Ret (Some err) else
    let_val existing := ReadRegularNoFollow root p orelse e => Ret (Some e) in
    match parse_receipt existing with
    | None => Ret (Some (EMsg "parse existing receipt"))
    | Some prior => if negb (same_transfer prior (Stage r) (rc_TransferID r) (rc_PayloadSHA256 r))
                    then Ret (Some (EMsg "receipt conflicts with transfer")) else Ret None
    end
  end.

Definition writeReceipt (c : Courier) (root : DeliveryRoot) (r : Receipt) : prog (option gerr) :=
  writeBridgeReceipt root (receiptRelDir c) r.

(** ** The spool *)

Record spoolItem := MkItem { it_name : string; it_data : string; it_env : Envelope }.

Definition envelopeForMessage (cf : Config) (destAlias messageID threadID payload : string) : Envelope :=
  let nul := String (chr 0) "" in
  MkEnvelope EnvelopeVersion
    ("xfer-" +:+ EncodeToString (str_take 16 (Sum256 (cf_SourceHost cf +:+ nul +:+ messageID +:+ nul +:+ destAlias))))
    (cf_SourceHost cf) (cf_SourceHandle cf) destAlias messageID threadID (EncodeToString (Sum256 payload))
    (cf_KeyGeneration cf) "" payload.

Definition regular (i : info) : bool := bool_decide (i_kind i = KFile).

Definition destAliasForSpool (c : Courier) (messagePath : path) : prog (string * option gerr) :=
  let p := Enqueue.DestSidecarPath messagePath in
  x ← sys (SLstat p);
  match x with
  | Er e => if errno_is_notexist e then Ret (cf_DestAlias (cfg c), None) else Ret ("", Some (EErrno e))
  | Ok i =>
    if negb (regular i) then Ret ("", Some (EMsg "dest sidecar is not a regular non-symlink file")) else
    let_val data := Ambient.ReadRegularNoFollow p orelse e => Ret ("", Some e) in
    let alias := TrimSpace data in
    match ParseAlias alias with
    | inr e => Ret ("", Some e)
    | inl _ => if negb (bool_decide (alias ∈ allowedDest c)) then Ret ("", Some (EMsg "destination alias is not allowlisted"))
               else Ret (alias, None)
    end
  end.

(** The data of one spool file. *)
Definition readSpoolFile (p : path) : prog (string * option gerr) :=
  let_ok i := sys (SLstat p) orelse x => Ret ("", Some (Errorf "stat spool file" (EErrno x))) in
  if negb (regular i) then Ret ("", Some (EMsg "spool file is not a regular non-symlink file")) else
  x ← Ambient.OpenRegularNoFollow p;
  match x with
  | (Some (file, fileInfo), None) =>
    if Z.ltb Format.MaxMessageSize (Z.of_nat (i_size fileInfo))
    then _ ← sys (SClose file); Ret ("", Some (EMsg "spool file exceeds maximum message size")) else
    readRes ← sys (SReadAll file);
    closeRes ← sys (SClose file);
    match readRes, closeRes with
    | Er x, _ => Ret ("", Some (Errorf "read spool file" (EErrno x)))
    | _, Er x => Ret ("", Some (Errorf "close spool file" (EErrno x)))
    | Ok data, Ok _ =>
      let data := Format.limit (Format.MaxMessageSize + 1) data in
      if Z.ltb Format.MaxMessageSize (Z.of_nat (String.length data))
      then Ret ("", Some (EMsg "spool file exceeds maximum message size")) else Ret (data, None)
    end
  | (_, e) => Ret ("", Errorf "open spool file" <$> e)
  end.

(** A message of the spool as a signed envelope. *)
Definition readSpoolItem (c : Courier) (name : string) : prog (spoolItem + gerr) :=
  let p := Join_under (c_spool c) [name] in
  let_val data := readSpoolFile p orelse e => Ret (inr e) in
  match Format.ParseMessage data with
  | inr e => Ret (inr (Errorf "parse spool file" e))
  | inl message =>
    let h := Format.Header_ message in
    if bool_decide (Format.ID h = "") || negb (bool_decide (TrimSpace (Format.ID h) = Format.ID h))
    then Ret (inr (EMsg "spool file has invalid message id")) else
    if bool_decide (Format.Thread h = "") || negb (bool_decide (TrimSpace (Format.Thread h) = Format.Thread h))
    then Ret (inr (EMsg "spool file has invalid thread id")) else
    if negb (bool_decide (Format.From h = cf_SourceHandle (cfg c)))
    then Ret (inr (EMsg "spool file sender does not match source handle")) else
    let_val destAlias := destAliasForSpool c p orelse e => Ret (inr (Errorf "spool file dest" e)) in
    let env := envelopeForMessage (cfg c) destAlias (Format.ID h) (Format.Thread h) data in
    match identity c with
    | None => Ret (inr (EMsg "push requires a local host identity"))
    | Some key =>
      match SignEnvelope env key with
      | (env', None) => Ret (inl (MkItem name data env'))
      | (_, Some e) => Ret (inr (Errorf "sign spool file" e))
      end
    end
  end.

Fixpoint readSpoolEntries (c : Courier) (entries : list (string * kind)) : prog (list spoolItem + gerr) :=
  match entries with
  | [] => Ret (inl [])
  | (name, k) :: rest =>
    if bool_decide (k = KDir) || HasPrefix name "." || negb (HasSuffix name ".md") then readSpoolEntries c rest else
    match ValidateMessageFilename name with
    | Some e => Ret (inr (Errorf "spool file" e))
    | None =>
      x ← readSpoolItem c name;
      match x with
      | inr e => Ret (inr e)
      | inl item =>
        y ← readSpoolEntries c rest;
        match y with inr e => Ret (inr e) | inl items => Ret (inl (item :: items)) end
      end
    end
  end.

(** The entries come sorted by name; sorting them again changes nothing. *)
Definition readSpool (c : Courier) : prog (list spoolItem + gerr) :=
  if_err e := call (SMkdirAll (c_spool c) 448) then Ret (inr (Errorf "create bridge spool" e)) else
  let_val entries := Ambient.os_ReadDir (c_spool c) orelse e => Ret (inr (Errorf "read bridge spool" e)) in
  readSpoolEntries c (Ambient.sort_entries entries).

(** Removing something that is gone is no error. *)
Definition remove_if_there (p : path) : prog (option gerr) :=
  if_err e := call (SRemove p) then Ret (if os_IsNotExist e then None else Some e) else Ret None.

Definition moveToSent (c : Courier) (name data : string) : prog (option gerr) :=
  let sentDir := Join_under (Dir (c_spool c)) ["sent"] in
  if_err e := call (SMkdirAll sentDir 448) then Ret (Some e) else
  let source := Join_under (c_spool c) [name] in
  let destination := Join_under sentDir [name] in
  linked ← call (SLink source destination);
  archived ← match linked with
    | None => Ret None
    | Some err =>
      if negb (errors_Is_Exist err) then Ret (Some err) else
      let_val existing := Ambient.ReadRegularNoFollow destination orelse e => Ret (Some e) in
      if negb (bool_decide (existing = data)) then Ret (Some (EMsg "sent archive conflicts with source bytes")) else Ret None
    end;
  match archived with
  | Some e => Ret (Some e)
  | None =>
    if_err e := Enqueue.syncDirectory sentDir then Ret (Some (Errorf "sync sent archive" e)) else
    if_err e := remove_if_there source then Ret (Some e) else
    if_err e := remove_if_there (Enqueue.DestSidecarPath source) then Ret (Some e) else
    if_err e := Enqueue.syncDirectory (c_spool c) then Ret (Some (Errorf "sync bridge spool" e)) else
    Ret None
  end.

(** ** Requests *)

Definition validateWireReceipt (r : wireReceipt) (want : string) (env : Envelope) : option gerr :=
  if negb (bool_decide (w_Stage r = want)) then Some (EMsg "unexpected rendezvous receipt stage") else
  if negb (bool_decide (w_TransferID r = TransferID env)) then Some (EMsg "rendezvous receipt transfer_id does not match") else
  if negb (EqualFold (w_PayloadSHA256 r) (PayloadSHA256 env)) then Some (EMsg "rendezvous receipt digest does not match") else
  None.

Definition checked_receipt (want : string) (env : Envelope) (x : wireReceipt + gerr) : wireReceipt + gerr :=
  match x with
  | inr e => inr e
  | inl r => match validateWireReceipt r want env with Some e => inr e | None => inl r end
  end.

Definition postEnvelope (c : Courier) (env : Envelope) : prog (wireReceipt + gerr) :=
  match MarshalEnvelope env with
  | inr e => Ret (inr e)
  | inl body =>
    x ← requestJSON (RendezvousURL (cfg c)) "POST" transfersPath ∅ (Some body) transportResponse;
    Ret (checked_receipt ReceiptTransportAccepted env x)
  end.

Fixpoint checked_envelopes (l : list json) : list Envelope + gerr :=
  match l with
  | [] => inl []
  | j :: l' =>
    match checked_envelope (envelope_of_json j) with
    | inr e => inr (Errorf "decode polled envelope" e)
    | inl env => match checked_envelopes l' with inr e => inr e | inl envs => inl (env :: envs) end
    end
  end.

Definition pollEnvelopes (c : Courier) : prog (list Envelope + gerr) :=
  let query := {["dest_alias" := [receiveAlias c]; "limit" := [itoa (BatchSize (cfg c))]]} in
  x ← requestJSON (RendezvousURL (cfg c)) "GET" transfersPath query None pollResponse;
  match x with
  | inr e => Ret (inr e)
  | inl raws =>
    if Z.ltb (BatchSize (cfg c)) (Z.of_nat (length raws)) then Ret (inr (EMsg "rendezvous returned envelopes above batch size"))
    else Ret (checked_envelopes raws)
  end.

Definition ackEnvelope (c : Courier) (env : Envelope) : prog (option gerr) :=
  let body := Marshal (ackRequest (MkWire ReceiptDestinationMaildirCommit (TransferID env) (PayloadSHA256 env))) in
  x ← requestJSON (RendezvousURL (cfg c)) "POST" (transfersPath +:+ "/" +:+ PathEscape (TransferID env) +:+ "/ack") ∅
        (Some body) transportResponse;
  Ret (match checked_receipt ReceiptDestinationMaildirCommit env x with inr e => Some e | inl _ => None end).

(** ** One cycle *)

Definition openDeliveryRoot (c : Courier) : prog (option DeliveryRoot * option gerr) :=
  let_val i := SnapshotDeliveryRoot (c_root c) orelse e => Ret (None, Some e) in
  OpenDeliveryRoot (c_root c) i.

Definition requirePushConfig (c : Courier) : option gerr :=
  if bool_decide (cf_SourceHost (cfg c) = "") then Some (EMsg "source host is required for push") else
  if bool_decide (cf_SourceHandle (cfg c) = "") then Some (EMsg "source handle is required for push") else None.

(** The transport receipt of an item: the one written before, or that of the rendezvous. *)
Definition transport_receipt (c : Courier) (root : DeliveryRoot) (item : spoolItem) : prog (Receipt + gerr) :=
  x ← existingReceipt c root (it_env item) ReceiptTransportAccepted;
  match x with
  | inl r => Ret (inl r)
  | inr err =>
    if negb (errors_Is_NotExist err) then Ret (inr (Errorf "read transport receipt" err)) else
    y ← postEnvelope c (it_env item);
    match y with
    | inr e => Ret (inr (Errorf "push" e))
    | inl remote =>
      now ← sys SNow;
      let r := MkReceipt ReceiptTransportAccepted (w_TransferID remote) (w_PayloadSHA256 remote) false
                 (SourceMessageID (it_env item)) "" (Format_RFC3339Nano now) in
      if_err e := writeReceipt c root r then Ret (inr (Errorf "write transport receipt" e)) else
      Ret (inl r)
    end
  end.

Fixpoint push_items (c : Courier) (root : DeliveryRoot) (items : list spoolItem) (done : list Receipt)
  : prog (list Receipt * option gerr) :=
  match items with
  | [] => Ret (done, None)
  | item :: rest =>
    x ← transport_receipt c root item;
    match x with
    | inr e => Ret (done, Some e)
    | inl r =>
      if negb (bool_decide (rc_TransferID r = TransferID (it_env item))) ||
         negb (EqualFold (rc_PayloadSHA256 r) (PayloadSHA256 (it_env item)))
      then Ret (done, Some (EMsg "transport receipt conflicts with spool item")) else
      if_err e := moveToSent c (it_name item) (it_data item) then Ret (done, Some (Errorf "archive accepted spool item" e)) else
      push_items c root rest (done ++ [r])
    end
  end.

Definition PushOnce (c : Courier) : prog (list Receipt * option gerr) :=
  match requirePushConfig c with
  | Some e => Ret ([], Some e)
  | None =>
    x ← readSpool c;
    match x with
    | inr e => Ret ([], Some e)
    | inl items =>
      match take (Z.to_nat (BatchSize (cfg c))) items with
      | [] => Ret ([], None)
      | items =>
        let_val root := openDeliveryRoot c orelse e => Ret ([], Some e) in
        match root with
        | Some root => push_items c root items []
        | None => Ret ([], None)
        end
      end
    end
  end.

Definition guardPollIdentity (c : Courier) : option gerr :=
  if bool_decide (allowedSource c = ∅) then Some (EMsg "poll requires a non-empty --allow-source-host allowlist") else
  if negb (bool_decide (localHost c = hostID c)) then Some (EMsg "poll receive alias host is not local host-id") else
  if negb (bool_decide (cf_SourceHost (cfg c) = "")) && negb (bool_decide (localHost c = cf_SourceHost (cfg c)))
  then Some (EMsg "poll receive alias host is not local source host") else None.

(** Routed here, from a source allowed, under its trusted key. *)
Definition authenticate (c : Courier) (env : Envelope) : prog (option gerr) :=
  if negb (bool_decide (DestAlias env = receiveAlias c)) then Ret (Some (EMsg "inbound destination alias does not match")) else
  if negb (bool_decide (DestAlias env ∈ allowedDest c)) then Ret (Some (EMsg "inbound destination alias is not allowlisted")) else
  if negb (bool_decide (SourceHost env ∈ allowedSource c)) then Ret (Some (EMsg "inbound source host is not allowlisted")) else
  x ← LoadTrusted [] (SourceHost env);
  match x with
  | (_, _, Some e) => Ret (Some (Errorf "authenticate source host" e))
  | (pub, generation, None) => Ret (Errorf "authenticate transfer" <$> VerifyEnvelope env pub generation)
  end.

(** The receipt of a commit; an absolute path is printed with its slashes. *)
Definition commit_receipt (env : Envelope) (res : ApplyResult) (now : Z) : Receipt :=
  MkReceipt ReceiptDestinationMaildirCommit (TransferID env) (PayloadSHA256 env) (ar_Replayed res)
    (SourceMessageID env) ("/" +:+ path_string (ar_Path res)) (Format_RFC3339Nano now).

Fixpoint poll_envelopes (c : Courier) (root : DeliveryRoot) (envs : list Envelope) (done : list Receipt)
  : prog (list Receipt * option gerr) :=
  match envs with
  | [] => Ret (done, None)
  | env :: rest =>
    if_err e := authenticate c env then Ret (done, Some e) else
    x ← ApplyEnvelope root (localHost c) (localAgent c) env;
    match x with
    | (_, Some e) => Ret (done, Some (Errorf "apply transfer" e))
    | (res, None) =>
      now ← sys SNow;
      let r := commit_receipt env res now in
      if_err e := writeReceipt c root r then Ret (done, Some (Errorf "write destination receipt" e)) else
      if_err e := ackEnvelope c env then Ret (done, Some (Errorf "ack transfer" e)) else
      poll_envelopes c root rest (done ++ [r])
    end
  end.

Definition PollOnce (c : Courier) : prog (list Receipt * option gerr) :=
  match guardPollIdentity c with
  | Some e => Ret ([], Some e)
  | None =>
    x ← pollEnvelopes c;
    match x with
    | inr e => Ret ([], Some e)
    | inl [] => Ret ([], None)
    | inl envelopes =>
      let_val root := openDeliveryRoot c orelse e => Ret ([], Some e) in
      match root with
      | Some root => poll_envelopes c root envelopes []
      | None => Ret ([], None)
      end
    end
  end.

Record RunResult := MkRun { Push : list Receipt; Poll : list Receipt }.

Definition RunOnce (c : Courier) (mode : string) : prog (RunResult * option gerr) :=
  let mode_is m := bool_decide (mode = m) in
  if negb (mode_is "both" || mode_is "push" || mode_is "poll") then Ret (MkRun [] [], Some (EMsg "invalid bridge mode")) else
  push ← (if mode_is "both" || mode_is "push" then PushOnce c else Ret ([], None));
  match push with
  | (p, Some e) => Ret (MkRun p [], Some e)
  | (p, None) =>
    poll ← (if mode_is "both" || mode_is "poll" then PollOnce c else Ret ([], None));
    Ret (MkRun p poll.1, poll.2)
  end.

End courier.

(** ** apply-file *)

Definition maxApplyFileSize : Z := 16 * 1024 * 1024.

Definition readApplyFile (root : DeliveryRoot) (rel : path) : prog (string * option gerr) :=
  x ← OpenRegularNoFollow root rel;
  match x with
  | (Some (file, i), None) =>
    if Z.ltb maxApplyFileSize (Z.of_nat (i_size i)) then Ret ("", Some (EMsg "envelope is too large")) else
    let_ok data := sys (SReadAll file) orelse x => Ret ("", Some (EErrno x)) in
    let data := Format.limit (maxApplyFileSize + 1) data in
    if Z.ltb maxApplyFileSize (Z.of_nat (String.length data)) then Ret ("", Some (EMsg "envelope is too large"))
    else Ret (data, None)
  | (_, e) => Ret ("", e)
  end.

(** The file below the drop directory of the absolute root. *)
Definition applyFileRelPath (Abs : string -> path + gerr) (rootPath : path) (rawPath : string) : path + gerr :=
  let text := TrimSpace rawPath in
  if bool_decide (text = "") then inr (EMsg "--file is required") else
  match (if IsAbs text then Abs text else inl (Join_under rootPath [text])) with
  | inr e => inr (Errorf "resolve dropped envelope" e)
  | inl p =>
    let dropPath := Join_under rootPath ["bridge/drop"] in
    if negb (bool_decide (dropPath `prefix_of` p)) then inr (EMsg "dropped envelope must be under the drop directory")
    else match drop (length dropPath) p with
         | [] => inr (EMsg "dropped envelope must be under the drop directory")
         | rel => inl (["bridge"; "drop"] ++ rel)
         end
  end.

Section apply_file.
Context `{Crypto}.

(** What runApplyFile does with the parsed envelope. *)
Definition apply_dropped (root : DeliveryRoot) (env : Envelope) : prog (option Receipt * option gerr) :=
  let_val localHost := LoadHostIDFromDeliveryRoot root orelse e => Ret (None, Some e) in
  match ParseAlias (DestAlias env) with
  | inr e => Ret (None, Some e)
  | inl (destHost, destAgent) =>
    if negb (bool_decide (destHost = localHost)) then Ret (refused "bridge dest_alias host is not local host-id") else
    x ← LoadTrustedFromDeliveryRoot root (SourceHost env);
    match x with
    | (_, _, Some e) => Ret (None, Some (Errorf "authenticate source host" e))
    | (pub, generation, None) =>
      match VerifyEnvelope env pub generation with
      | Some e => Ret (None, Some (Errorf "authenticate transfer" e))
      | None =>
        y ← ApplyEnvelope root localHost destAgent env;
        match y with
        | (_, Some e) => Ret (None, Some (Errorf "apply transfer" e))
        | (res, None) =>
          now ← sys SNow;
          let r := commit_receipt env res now in
          if_err e := writeBridgeReceipt root ["bridge"; "receipts"] r then
            Ret (None, Some (Errorf "write destination receipt" e)) else
          Ret (Some r, None)
        end
      end
    end
  end.

(** runApplyFile after its flags; the receipt is what it prints. *)
Definition runApplyFile (Abs : string -> path + gerr) (rootPath : path) (file : string)
  : prog (option Receipt * option gerr) :=
  match applyFileRelPath Abs rootPath file with
  | inr e => Ret (None, Some e)
  | inl fileRel =>
    let_val i := SnapshotDeliveryRoot rootPath orelse e => Ret (None, Some e) in
    let_val root := OpenDeliveryRoot rootPath i orelse e => Ret (None, Some e) in
    match root with
    | None => Ret (None, None)
    | Some root =>
      let_val raw := readApplyFile root fileRel orelse e => Ret (None, Some (Errorf "read dropped envelope" e)) in
      match UnmarshalEnvelope raw with
      | inr e => Ret (None, Some (Errorf "parse dropped envelope" e))
      | inl env => apply_dropped root env
      end
    end
  end.

End apply_file.
