(* ===== verification/CourierFacts.v ===== *)
(** What the steps of the courier do to the tree: reading keys and spool files, writing
    receipts, archiving. *)
From S2P Require Import Prelude GoStr GoTrim GoTime GoPath GoErr Fs Wp FsFacts Names Json JsonFacts JsonStruct Encode DeliveryRoot DeliveryRootFacts AmbientFacts Sample Maildir Delivery Repair ExistingInbox Bridge BridgeFacts BridgeApply Courier.
From S2P Require Ambient Format Enqueue.

(** ** Reading *)

Lemma ro_ReadRegular p : ro (Ambient.ReadRegularNoFollow p).
Proof. unfold Ambient.ReadRegularNoFollow. ro_tac. Qed.
Lemma ro_syncDirectory p : ro (Enqueue.syncDirectory p).
Proof. unfold Enqueue.syncDirectory. ro_tac. Qed.
#[export] Hint Resolve ro_ReadRegular ro_syncDirectory : amq.
Lemma ro_readPrivateKeyFile p : ro (readPrivateKeyFile p).
Proof. unfold readPrivateKeyFile. ro_tac. Qed.
#[export] Hint Resolve ro_readPrivateKeyFile : amq.

Section reading.
Context (e : env) (t : tree).

Lemma sees_read_all h :
  sees e t (sys (SReadAll h)) (fun x => (exists y, x = Er (IOErr y) /\ ~ healthy e) \/
    x = match data t !! h_ino h with Some s => Ok s | None => Er EISDIR end).
Proof. apply sees_obs; [done|]. by intros w <-. Qed.

Lemma sees_OpenRegular p : p <> [] ->
  sees e t (Ambient.OpenRegularNoFollow p) (fun x => match x with
    | (Some (h, _), None) => dents t !! p = Some (NFile (h_ino h)) /\ t_parent t p = None
    | (None, None) => False
    | (_, Some _) => True
    end).
Proof.
  intros Hp. unfold Ambient.OpenRegularNoFollow.
  eapply sees_bind; [apply sees_any; ro_tac| |intros ?; ro_tac]. intros [i|x] _; [|by apply sees_ret].
  destruct (validateRegularNoFollowFile i); [by apply sees_ret|].
  eapply sees_bind; [apply sees_nofollow| |intros ?; ro_tac]. intros [h|x] Hx; [|by apply sees_ret].
  destruct Hx as [(? & [=] & _)|Hx]. unfold t_open_nofollow in Hx.
  destruct (t_node t p) as [n|] eqn:En; [|done]. apply t_node_Ok_inv in En as [Hpar En]; [|done].
  eapply sees_bind; [apply sees_fstat| |intros ?; ro_tac]. intros [i'|x] Hi; [|by apply sees_ret].
  destruct Hi as [(? & [=] & _)|[= ->]].
  unfold validateRegularNoFollowFile. cbn [i_kind]. case_bool_decide as E1; [by apply sees_ret|].
  case_bool_decide as E2; [|by apply sees_ret]. apply sees_ret.
  destruct n; simplify_eq; done.
Qed.

Lemma sees_ReadRegular p : p <> [] ->
  sees e t (Ambient.ReadRegularNoFollow p) (fun x => x.2 = None -> content t p = Some x.1).
Proof.
  intros Hp. unfold Ambient.ReadRegularNoFollow.
  eapply sees_bind; [by apply sees_OpenRegular| |intros ?; ro_tac].
  intros [[[h i]|] [x|]] Hx; try (by apply sees_ret).
  eapply sees_bind; [apply sees_read_all| |intros ?; ro_tac]. intros [s|x] Hs; [|by apply sees_ret].
  destruct Hs as [(? & [=] & _)|Hs]. apply sees_ret. intros _. unfold content. rewrite (proj1 Hx). cbn.
  destruct (data t !! h_ino h); [by injection Hs as ->|done].
Qed.

Lemma sees_readPrivateKeyFile p : p <> [] ->
  sees e t (readPrivateKeyFile p) (fun x => x.2 = None -> content t p = Some x.1).
Proof.
  intros Hp. unfold readPrivateKeyFile.
  eapply sees_bind; [apply sees_any; ro_tac| |intros ?; ro_tac]. intros [i|x] _; [|by apply sees_ret].
  destruct (validatePrivateKeyInfo i); [by apply sees_ret|by apply sees_ReadRegular].
Qed.

Context `{Crypto}.

(** The key a file gives for a trusted host. *)
Definition trusted_in (t' : tree) (host pub generation : string) : Prop :=
  exists data fields, content t' ["bridge"; "trusted"; host] = Some data /\
    parseKeyFields data "public" = inl fields /\ trusted_key fields = (pub, generation, None).

Lemma sees_LoadTrusted host :
  sees e t (LoadTrusted [] host) (fun x => match x with
    | (pub, g, None) => ValidateHandle host = None /\ trusted_in t host pub g
    | _ => True
    end).
Proof.
  unfold LoadTrusted. destruct (ValidateHandle host) eqn:Hh; [by apply sees_ret|].
  assert (TrustedPath [] host = ["bridge"; "trusted"; host]) as Ep.
  { apply Join_plain. repeat constructor; try done. by apply handle_plain. }
  rewrite Ep. unfold readKeyFields.
  eapply (sees_bind _ _ _ _ (fun x => match x with inl fields => exists data,
      content t ["bridge"; "trusted"; host] = Some data /\ parseKeyFields data "public" = inl fields | inr _ => True end));
    [|intros x Hx|intros ?; ro_tac].
  - eapply sees_bind; [by apply sees_readPrivateKeyFile| |intros ?; ro_tac].
    intros [d [x|]] Hd; apply sees_ret; [done|]. destruct (parseKeyFields d "public") eqn:E; [|done].
    exists d. split; [by apply Hd|done].
  - destruct x as [fields|]; [|by apply sees_ret]. destruct Hx as (d & Hd & Hf).
    apply sees_ret. destruct (trusted_key fields) as [[pub g] [x|]] eqn:Ek; [done|]. split; [done|].
    by exists d, fields.
Qed.

End reading.

(** ** Receipts *)

Definition receipt_text (r : Receipt) : string := MarshalIndent (receipt_json r) +:+ LF.

(** The file is a receipt of the transfer: one that was read, or one written here. *)
Definition recorded (t : tree) (p : path) (stage id digest : string) : Prop :=
  exists data r, content t p = Some data /\ (parse_receipt data = Some r \/ data = receipt_text r) /\
    same_transfer r stage id digest = true.

Lemma same_transfer_refl r : same_transfer r (Stage r) (rc_TransferID r) (rc_PayloadSHA256 r) = true.
Proof. unfold same_transfer, EqualFold. by rewrite !bool_decide_eq_true_2. Qed.

Lemma adds_recorded p t t' q stage id digest :
  adds p t t' -> recorded t q stage id digest -> recorded t' q stage id digest.
Proof. intros Ha (d & r & Hc & ?). exists d, r. split; [by eapply adds_content|done]. Qed.

Section receipts.
Context (e : env) (r : DeliveryRoot) (Hat : dr_at r = []).

(** Writing a new file adds it, and does nothing where one is. *)
Lemma wpi_write_adds I p d w :
  (forall t, adds p (tr w) t -> I t) ->
  wpi e I (writeAndSync r p d) (fun o w' => adds p (tr w) (tr w') /\ (o = None -> content (tr w') p = Some d)) w.
Proof.
  intros HI. destruct (dents (tr w) !! p) as [n|] eqn:Hn.
  - unfold writeAndSync. rewrite (rp_root r p Hat). wbind.
    assert (exists x, exec e (SOpenExcl p) w = (Er x, bump w)) as [x Hx].
    { cbn. unfold upd, t_open_excl. destruct (e_fault e (tick w)); [by eexists|]. destruct p as [|a p]; [by eexists|].
      destruct (t_parent _ _); [by eexists|]. rewrite Hn. by eexists. }
    apply wpi_sys; rewrite Hx; [apply HI, adds_refl|]. cbn [fst snd]. do 2 wret. split; [apply adds_refl|done].
  - assert (forall t, evo (eq p) (tr w) t -> adds p (tr w) t) as Ha.
    { intros t Ht. split; [done|]. rewrite Hn. by intros []. }
    eapply wpi_mono; [apply wpi_writeAndSync; [done|]; auto|].
    intros o w' (Hev & _ & Hw & _). split; [auto|]. intros Ho. by apply Hw.
Qed.

Lemma wpi_WriteFileExclusive I dir f d w :
  (length dir <= layout_depth)%nat -> Join_under dir [f] = dir ++ [f] ->
  (forall t, adds (dir ++ [f]) (tr w) t -> I t) ->
  wpi e I (WriteFileExclusive r dir f d) (fun x w' => adds (dir ++ [f]) (tr w) (tr w') /\
    (x.2 = None -> content (tr w') (dir ++ [f]) = Some d)) w.
Proof.
  intros Hl Hj HI. unfold WriteFileExclusive. rewrite (rp_root r dir Hat), Hj. set (p := dir ++ [f]) in *.
  assert (I (tr w)) as HI0 by (apply HI, adds_refl).
  apply wpi_ro_bind; [auto with amq|done|].
  intros [x|] w1 Ht1 _; [wret; rewrite Ht1; split; [apply adds_refl|done]|].
  rewrite <-Ht1 in *. apply wpi_bind. eapply wpi_mono; [apply wpi_mkdirall; [done|]|].
  { intros t Ht. by apply HI, adds_dirs. }
  intros y w2 (Hev2 & _). pose proof (adds_dirs p _ _ Hev2) as Ha2. destruct y as [x|]; [by wret|].
  apply wpi_bind. eapply wpi_mono; [apply wpi_write_adds|].
  { intros t Ht. apply HI. by eapply adds_trans. }
  intros y w3 [Ha3' Hc]. assert (adds p (tr w1) (tr w3)) as Ha3 by (by eapply adds_trans).
  destruct y as [x|]; [by wret|].
  apply wpi_ro_bind; [auto with amq|by apply HI|]. intros [x|] w4 Ht4 _; wret; rewrite Ht4; by split; auto.
Qed.

Lemma wpi_writeBridgeReceipt I dir rec w :
  (length dir <= layout_depth)%nat -> EmittedAt rec <> "" ->
  let f := receiptFilename (rc_TransferID rec) (Stage rec) in
  Join_under dir [f] = dir ++ [f] -> (forall t, adds (dir ++ [f]) (tr w) t -> I t) ->
  wpi e I (writeBridgeReceipt r dir rec) (fun o w' => adds (dir ++ [f]) (tr w) (tr w') /\
    (o = None -> recorded (tr w') (dir ++ [f]) (Stage rec) (rc_TransferID rec) (rc_PayloadSHA256 rec))) w.
Proof.
  intros Hl Hs f Hj HI. unfold writeBridgeReceipt, stamp_receipt. rewrite bool_decide_eq_false_2 by done. cbn [negb].
  apply wpi_bind, wpi_ret. cbn beta zeta. fold f. rewrite Hj.
  apply wpi_bind. eapply wpi_mono; [by apply wpi_WriteFileExclusive|].
  intros [q [x|]] w1 [Hev1 Hc].
  2:{ wret. split; [done|]. intros _. exists (receipt_text rec), rec. split; [by apply Hc|].
      split; [by right|]. apply same_transfer_refl. }
  destruct (errors_Is_Exist x); [|by wret]. cbn [negb].
  apply wpi_bind. eapply wpi_mono; [apply wpi_ReadRegularNoFollow; [done|by apply HI]|].
  intros [d [y|]] w2 (Ht2 & _ & Hd); [wret; by rewrite Ht2|].
  destruct (parse_receipt d) as [prior|] eqn:Hp; [|wret; by rewrite Ht2].
  destruct (same_transfer prior _ _ _) eqn:Hsame; [|wret; by rewrite Ht2]. cbn [negb].
  wret. rewrite Ht2. split; [done|]. intros _. exists d, prior. split; [by apply Hd|]. split; [by left|done].
Qed.

End receipts.
