(* ===== verification/CourierPoll.v ===== *)
(** Polling: PollOnce of cmd/amq-bridge/courier.go, and what the rendezvous may conclude from an
    acknowledgement. *)
From S2P Require Import Prelude GoStr GoTrim GoTime GoPath GoErr Fs Wp FsFacts Names Json JsonFacts JsonStruct Encode DeliveryRoot DeliveryRootFacts AmbientFacts Sample Maildir Delivery Repair ExistingInbox Bridge BridgeFacts BridgeApply Courier CourierFacts.
From S2P Require Ambient Format Enqueue.

(** ** Generalities *)

Lemma handle_not_dot a : ValidateHandle a = None -> HasPrefix a "." = false.
Proof.
  intros [[Hne Hall]%legacy_handle_None _]%ValidateHandle_None. destruct a as [|c a]; [done|]. cbn in *.
  apply andb_true_iff in Hall as [Hc _]. rewrite andb_true_r. apply bool_decide_eq_false. intros <-. done.
Qed.

(** What an atomic delivery leaves alone. *)
Lemma atomic_content rs f d t t' p x :
  atomic_for rs f d t t' -> ~ hidden p -> content t p = Some x -> content t' p = Some x.
Proof.
  intros [Hev Hpub] Hp Hx. destruct (decide (Exists (fun a => p = dest f a) rs)) as [Hd|Hd].
  - apply Exists_exists in Hd as (a & Ha & ->). unfold content in *.
    destruct (Hpub a Ha) as [Hs|[Hs _]]; rewrite Hs in *; [|done].
    destruct (dents t !! dest f a) as [[]|]; try done. eapply lookup_weaken; [done|apply Hev].
  - eapply evo_content; [exact Hev| |exact Hx]. intros [?|(a & Ha & E)]; [done|].
    apply Hd, Exists_exists. by exists a.
Qed.

Lemma recorded_evo X t t' p stage id digest :
  evo X t t' -> ~ X p -> recorded t p stage id digest -> recorded t' p stage id digest.
Proof. intros Hev Hp (d & r & Hc & ?). exists d, r. split; [by eapply evo_content|done]. Qed.

Lemma receipt_file_plain id stage : ValidateHandle id = None -> str_mem slash stage = false ->
  plain (receiptFilename id stage) = true.
Proof.
  intros Hi Hs. apply plain_spec. unfold receiptFilename. apply handle_plain, plain_spec in Hi as (Hne & _ & _ & Hi).
  assert (7 <= String.length (id +:+ "__" +:+ stage +:+ ".json"))%nat as H7 by (rewrite !length_string_app; cbn; lia).
  split_and!; try (intros E; rewrite E in H7; cbn in H7; lia).
  by rewrite !str_mem_app, Hi, Hs.
Qed.

Lemma Format_not_empty now : Format_RFC3339Nano now <> "".
Proof.
  unfold Format_RFC3339Nano. intros E%(f_equal String.length). rewrite !length_string_app in E. cbn in E. lia.
Qed.

(** ** The contract of the network

    What the service at the other end may rely on is [may]: a request is only made in a tree
    that satisfies it.  All that is asked of the service is that, then, it leaves the tree
    alone. *)
Definition network_ok `{Net} (e : env) (may : tree -> Request -> Prop) : Prop :=
  forall q w, may (tr w) q -> wpi e (eq (tr w)) (Do q) (fun _ w' => tr w' = tr w) w.

Lemma wpi_requestJSON `{Net} {A} e may I raw m p query body (decode : json -> option A) w :
  network_ok e may -> (forall ep, may (tr w) (MkRequest m ep body)) -> I (tr w) ->
  wpi e I (requestJSON raw m p query body decode) (fun _ w' => tr w' = tr w) w.
Proof.
  intros Hnet Hmay HI. unfold requestJSON. destruct (rendezvousEndpoint raw p query) as [ep|]; [|by wret].
  apply wpi_bind. eapply wpi_mono; [eapply wpi_inv_mono; [|by apply Hnet]|]; [by intros t <-|].
  intros x w1 Ht1. repeat (case_match; try (by wret)).
Qed.

Section poll.
Context `{Crypto} `{Net} (e : env) (c : Courier).

(** ** Authentic envelopes *)

(** Sent to this receiver, from a host that is allowed, under the key its file says. *)
Definition authentic (t : tree) (env : Envelope) : Prop :=
  DestAlias env = receiveAlias c /\ DestAlias env ∈ allowedDest c /\ SourceHost env ∈ allowedSource c /\
  exists pub g, trusted_in t (SourceHost env) pub g /\ VerifyEnvelope env pub g = None.

Lemma authentic_accepted t env : authentic t env -> accepted env.
Proof. intros (_ & _ & _ & pub & g & _ & Hv). by apply VerifyEnvelope_None in Hv as [? _]. Qed.

Definition inbox_new : path := ["agents"; localAgent c; "inbox"; "new"].

(** The places a poll may write to. *)
Definition poll_places (p : path) : Prop :=
  hidden p \/ Dir p = ["bridge"; "receipts"] \/ Dir p = inbox_new.

Lemma authentic_evo t t' env : evo poll_places t t' -> authentic t env -> authentic t' env.
Proof.
  intros Hev Hau. pose proof (acc_host _ (authentic_accepted _ _ Hau)) as Hh.
  destruct Hau as (? & ? & ? & pub & g & (d & fs & Hd & Hf) & Hv). split_and!; try done.
  exists pub, g. split; [|done]. exists d, fs. split; [|done]. eapply evo_content; [exact Hev| |exact Hd].
  intros [Hhid|[?|?]]; [|done|done]. unfold hidden, Base in Hhid.
  cbn [last default from_option id] in Hhid. by rewrite handle_not_dot in Hhid.
Qed.

Lemma sees_authenticate t env :
  sees e t (authenticate c env) (fun o => o = None -> authentic t env).
Proof.
  unfold authenticate. case_bool_decide; [|by apply sees_ret]. case_bool_decide; [|by apply sees_ret].
  case_bool_decide; [|by apply sees_ret]. cbn [negb].
  eapply sees_bind; [apply sees_LoadTrusted| |intros [[? ?] [?|]]; ro_tac].
  intros [[pub g] [x|]] Hx; apply sees_ret; [done|]. destruct Hx as [_ Ht].
  destruct (VerifyEnvelope env pub g) eqn:Hv; [done|]. intros _. split_and!; try done. by exists pub, g.
Qed.

(** ** The invariant *)

Definition poll_inv (t0 t : tree) : Prop :=
  evo poll_places t0 t /\
  forall p, ~ hidden p -> Dir p = inbox_new ->
    dents t !! p = dents t0 !! p \/
    (dents t0 !! p = None /\ exists env, authentic t env /\ p = transfer_path (localAgent c) env /\
       content t p = Some (Payload env)).

Lemma poll_inv_refl t : poll_inv t t.
Proof. split; [apply evo_refl|by left]. Qed.

Lemma inbox_new_deep p : Dir p = inbox_new -> (layout_depth < length p)%nat.
Proof.
  intros E%(f_equal length). destruct p as [|x p _] using rev_ind; [done|].
  unfold Dir in E. rewrite removelast_last in E. rewrite length_app. cbn in *. unfold layout_depth. lia.
Qed.

Lemma transfer_place env : Dir (transfer_path (localAgent c) env) = inbox_new.
Proof. done. Qed.

Lemma atomic_places env t t' :
  atomic_for [localAgent c] (TransferFilename (SourceHost env) (TransferID env)) (Payload env) t t' -> evo poll_places t t'.
Proof.
  intros [Hev _]. eapply evo_mono; [|exact Hev]. intros p [?|(a & ->%list_elem_of_singleton & ->)]; [by left|].
  right. by right.
Qed.

Lemma poll_inv_apply t0 t t' env :
  authentic t env -> poll_inv t0 t ->
  atomic_for [localAgent c] (TransferFilename (SourceHost env) (TransferID env)) (Payload env) t t' -> poll_inv t0 t'.
Proof.
  intros Hau [Hev Hin] Hat. pose proof (atomic_places _ _ _ Hat) as Hev'. split; [by eapply evo_trans|].
  intros p Hp Hd. destruct (Hin p Hp Hd) as [Hs|(Hn & env1 & Hau1 & Hp1 & Hc1)].
  - destruct (decide (p = transfer_path (localAgent c) env)) as [->|Hne].
    + destruct Hat as [_ Hpub]. destruct (Hpub (localAgent c)) as [Hs'|[Hn' Hc']]; [by apply list_elem_of_singleton|left|right].
      * unfold transfer_path in *. congruence.
      * split; [unfold transfer_path in *; congruence|]. exists env. split_and!; try done. by eapply authentic_evo.
    + left. rewrite <-Hs. destruct Hat as [Hev2 _]. apply (evo_deep _ _ _ _ Hev2); [|by apply inbox_new_deep].
      intros [?|(a & ->%list_elem_of_singleton & ->)]; [done|]. by apply Hne.
  - right. split; [done|]. exists env1. split; [by eapply authentic_evo|]. split; [done|].
    by eapply atomic_content.
Qed.

Lemma poll_inv_receipt t0 t t' f :
  poll_inv t0 t -> evo (eq (["bridge"; "receipts"] ++ [f])) t t' -> poll_inv t0 t'.
Proof.
  intros [Hev Hin] Hr. assert (evo poll_places t t') as Hev'.
  { eapply evo_mono; [|exact Hr]. intros p <-. right. by left. }
  split; [by eapply evo_trans|]. intros p Hp Hd.
  assert (["bridge"; "receipts"] ++ [f] <> p) as Hne by (by intros <-).
  destruct (Hin p Hp Hd) as [Hs|(Hn & env1 & Hau1 & Hp1 & Hc1)].
  - left. rewrite <-Hs. apply (evo_deep _ _ _ _ Hr); [done|by apply inbox_new_deep].
  - right. split; [done|]. exists env1. split; [by eapply authentic_evo|]. split; [done|].
    eapply evo_content; [exact Hr|exact Hne|exact Hc1].
Qed.

(** ** The loop *)

Definition receipts_dir : path := ["bridge"; "receipts"].
Definition commit_file (env : Envelope) : path :=
  receipts_dir ++ [receiptFilename (TransferID env) ReceiptDestinationMaildirCommit].

(** The payload is in the inbox, and a receipt of the commit on disk. *)
Definition committed (t : tree) (env : Envelope) : Prop :=
  content t (transfer_path (localAgent c) env) = Some (Payload env) /\
  recorded t (commit_file env) ReceiptDestinationMaildirCommit (TransferID env) (PayloadSHA256 env).

Definition ack_body (env : Envelope) : string :=
  Marshal (ackRequest (MkWire ReceiptDestinationMaildirCommit (TransferID env) (PayloadSHA256 env))).

(** What the rendezvous may rely on when the courier polls. *)
Definition may_poll (t : tree) (q : Request) : Prop :=
  (Method q = "GET" /\ ReqBody q = None) \/
  (Method q = "POST" /\ exists env, authentic t env /\ committed t env /\ ReqBody q = Some (ack_body env)).

(** A receipt the courier reports. *)
Definition reported (t : tree) (r : Receipt) : Prop :=
  exists env, authentic t env /\ committed t env /\ rc_TransferID r = TransferID env /\
    Stage r = ReceiptDestinationMaildirCommit.

Context (Hnet : network_ok e may_poll) (Hdir : receiptRelDir c = receipts_dir).

Lemma transfer_visible env : accepted env -> ~ hidden (transfer_path (localAgent c) env).
Proof.
  intros A. apply box_path_visible. unfold TransferFilename. done.
Qed.

Lemma committed_apply t t' env env' :
  accepted env -> committed t env ->
  atomic_for [localAgent c] (TransferFilename (SourceHost env') (TransferID env')) (Payload env') t t' -> committed t' env.
Proof.
  intros A [Hc Hr] Hat. split; [eapply atomic_content; [exact Hat|by apply transfer_visible|done]|].
  eapply recorded_evo; [apply Hat| |exact Hr]. intros [Hh|(a & _ & ?)]; [|done].
  unfold hidden, Base, commit_file, receiptFilename in Hh. rewrite last_snoc in Hh. cbn [default from_option id] in Hh.
  pose proof (handle_not_dot _ (acc_transfer _ A)) as Hn. pose proof (acc_transfer _ A) as Hv.
  apply ValidateHandle_None in Hv as [[Hne _]%legacy_handle_None _].
  destruct (TransferID env) as [|x s]; [done|]. rewrite string_app_cons in Hh. cbn in Hh, Hn. congruence.
Qed.

Lemma reported_apply t t' env r :
  authentic t env -> atomic_for [localAgent c] (TransferFilename (SourceHost env) (TransferID env)) (Payload env) t t' ->
  reported t r -> reported t' r.
Proof.
  intros Hau Hat (env1 & Hau1 & Hc1 & ?). exists env1. split; [eapply authentic_evo; [by eapply atomic_places|done]|].
  split; [|done]. eapply committed_apply; [by eapply authentic_accepted|done|done].
Qed.

Lemma adds_places f t t' : adds (receipts_dir ++ [f]) t t' -> evo poll_places t t'.
Proof. intros [Hev _]. eapply evo_mono; [|exact Hev]. intros p <-. right. by left. Qed.

Lemma committed_adds f t t' env : adds (receipts_dir ++ [f]) t t' -> committed t env -> committed t' env.
Proof. intros Ha [Hc Hr]. split; [by eapply adds_content|by eapply adds_recorded]. Qed.

Lemma reported_adds f t t' r : adds (receipts_dir ++ [f]) t t' -> reported t r -> reported t' r.
Proof.
  intros Ha (env1 & Hau1 & Hc1 & ?). exists env1. split; [eapply authentic_evo; [by eapply adds_places|done]|].
  split; [by eapply committed_adds|done].
Qed.

Lemma wpi_ackEnvelope I env w :
  authentic (tr w) env -> committed (tr w) env -> I (tr w) ->
  wpi e I (ackEnvelope c env) (fun _ w' => tr w' = tr w) w.
Proof.
  intros Hau Hc HI. unfold ackEnvelope. cbv zeta. apply wpi_bind.
  eapply wpi_mono; [eapply wpi_requestJSON; [exact Hnet| |done]|].
  - intros ep. right. split; [done|]. by exists env.
  - intros x w1 Ht1. by wret.
Qed.

Definition poll_post (t0 : tree) (x : list Receipt * option gerr) (w' : world) : Prop :=
  poll_inv t0 (tr w') /\ Forall (reported (tr w')) x.1.

Lemma wpi_poll_envelopes r envs acc t0 w :
  dr_at r = [] -> poll_inv t0 (tr w) -> Forall (reported (tr w)) acc ->
  wpi e (poll_inv t0) (poll_envelopes c r envs acc) (poll_post t0) w.
Proof.
  intros Hat. revert acc w; induction envs as [|env envs IH]; intros acc w Hinv Hacc; [by wret|].
  cbn [poll_envelopes]. apply wpi_bind. eapply wpi_mono; [apply wpi_sees; [done|apply sees_authenticate]|].
  intros o w1 (Hau & Ht1 & _). rewrite <-Ht1 in *. destruct o as [x|]; [by wret|]. specialize (Hau eq_refl).
  apply wpi_bind. eapply wpi_mono; [eapply wpi_inv_mono; [|by apply wpi_ApplyEnvelope]|].
  { intros t. by apply poll_inv_apply. }
  intros [res err] w2 [Hatm Hx]. assert (poll_inv t0 (tr w2)) as Hinv2 by (by eapply poll_inv_apply).
  assert (Forall (reported (tr w2)) acc) as Hacc2.
  { eapply Forall_impl; [exact Hacc|]. intros r'. by apply (reported_apply _ _ env). }
  destruct err as [x|]; [by wret|]. destruct Hx as (_ & _ & Hc2 & _).
  apply wpi_ro_bind; [ro_tac|done|]. intros now w3 Ht3 _. rewrite <-Ht3 in *.
  apply wpi_bind. unfold writeReceipt. rewrite Hdir.
  pose proof (authentic_accepted _ _ Hau) as A.
  eapply wpi_mono; [eapply (wpi_writeBridgeReceipt e r Hat (poll_inv t0) receipts_dir (commit_receipt env res now) w3)|].
  - cbn. unfold layout_depth. lia.
  - apply Format_not_empty.
  - apply Join_under_plain; [by repeat constructor|]. apply Forall_singleton.
    apply receipt_file_plain; [by apply acc_transfer|done].
  - intros t [Ht _]. by eapply poll_inv_receipt.
  - intros o w4 [Hadds Hrec]. set (f := receiptFilename _ _) in *.
    assert (poll_inv t0 (tr w4)) as Hinv4 by (eapply poll_inv_receipt; [done|apply Hadds]).
    assert (Forall (reported (tr w4)) acc) as Hacc4.
    { eapply Forall_impl; [exact Hacc2|]. intros r'. by apply (reported_adds f). }
    destruct o as [x|]; [by wret|]. specialize (Hrec eq_refl).
    assert (authentic (tr w4) env) as Hau4.
    { eapply authentic_evo; [by eapply adds_places|]. eapply authentic_evo; [by eapply atomic_places|done]. }
    assert (committed (tr w4) env) as Hc4 by (split; [by eapply adds_content|done]).
    apply wpi_bind. eapply wpi_mono; [by apply wpi_ackEnvelope|]. intros o w5 Ht5. rewrite <-Ht5 in *.
    destruct o as [x|]; [by wret|]. apply IH; [done|]. apply Forall_app. split; [done|].
    apply Forall_singleton. by exists env.
Qed.

Lemma OpenDeliveryRoot_at base i : returns (fun x => forall r, x.1 = Some r -> dr_at r = []) (OpenDeliveryRoot base i).
Proof.
  unfold OpenDeliveryRoot. destruct i as [i|]; [|done].
  eapply returns_bind; [apply returns_sys|]. intros [j|x] _; [|done].
  repeat (case_match; try done). intros r [= <-]. done.
Qed.

Lemma wpi_openDeliveryRoot I w : I (tr w) ->
  wpi e I (openDeliveryRoot c) (fun x w' => tr w' = tr w /\ forall r, x.1 = Some r -> dr_at r = []) w.
Proof.
  intros HI. unfold openDeliveryRoot. apply wpi_ro_bind; [unfold SnapshotDeliveryRoot; ro_tac|done|].
  intros [i [x|]] w1 Ht1 _; [by wret|]. rewrite <-Ht1 in *.
  eapply wpi_mono; [apply wpi_returns; [apply OpenDeliveryRoot_at|]; apply wpi_ro; [unfold OpenDeliveryRoot; ro_tac|done]|].
  by intros x w2 (? & ? & _).
Qed.

Lemma wpi_PollOnce w : wpi e (poll_inv (tr w)) (PollOnce c) (poll_post (tr w)) w.
Proof.
  pose proof (poll_inv_refl (tr w)) as Hi0. unfold PollOnce. destruct (guardPollIdentity c); [by wret|].
  apply wpi_bind. unfold pollEnvelopes. cbv zeta. apply wpi_bind.
  eapply wpi_mono; [eapply wpi_requestJSON; [exact Hnet|by left|done]|].
  intros x w1 Ht1. rewrite <-Ht1 in *.
  destruct x as [raws|]; [|by do 2 wret]. case_match; [by do 2 wret|]. wret.
  destruct (checked_envelopes raws) as [envs|]; [|by wret]. destruct envs as [|env envs]; [by wret|].
  apply wpi_bind. eapply wpi_mono; [by apply wpi_openDeliveryRoot|].
  intros [r [x|]] w2 [Ht2 Hr]; rewrite <-Ht2 in *; [by wret|]. destruct r as [r|]; [|by wret].
  apply wpi_poll_envelopes; [by apply Hr|done|done].
Qed.

End poll.

(** C10: Polling never lets in what is not authentic, and acknowledges only what is committed:
    as long as the rendezvous leaves the tree alone when it is asked for envelopes, or sent the
    acknowledgement of an authentic envelope whose whole payload is in the inbox and whose
    receipt is on disk, a poll stopped after any call, under any I/O failures, has changed
    nothing but dot files, receipts and the inbox of the receiver, and every new file there is
    the payload of an authentic envelope.  Other requests need not be answered well: there
    are none. *)
Theorem poll_only_authentic `{Crypto} `{Net} e c w :
  receiptRelDir c = receipts_dir -> network_ok e (may_poll c) ->
  Forall (fun w' => poll_inv c (tr w) (tr w')) (trace e (PollOnce c) w) /\
  poll_post c (tr w) (run e (PollOnce c) w).1 (run e (PollOnce c) w).2.
Proof.
  intros Hdir Hnet. pose proof (wpi_PollOnce e c Hnet Hdir w) as Hw.
  split; [by eapply wpi_trace|by apply wpi_run in Hw].
Qed.

(** ** A rendezvous that hands out one envelope and accepts what it is sent *)

Definition wire_reply (stage : string) (env : Envelope) : string :=
  Marshal (ackRequest (MkWire stage (TransferID env) (PayloadSHA256 env))).

Definition toy_net (env : Envelope) (post_reply : string) : Net := {|
  url_Parse _ := inl (MkURL "https" "rendezvous" "rendezvous" false "" "" "" "");
  url_Query _ := ∅;
  url_Encode _ := "";
  url_String u := Path u;
  PathEscape s := s;
  LoopbackIP _ := false;
  Do q := Ret (inl (MkResponse 200
    (if bool_decide (Method q = "GET") then Marshal (JObj [("envelopes", JArr [envelope_json env])]) else post_reply) None));
|}.

Lemma toy_net_ok env s e may : @network_ok (toy_net env s) e may.
Proof. intros q w _. by apply wpi_ret. Qed.

Definition sample_config : Config :=
  MkConfig "/queue" "https://rendezvous" "blue" "bob" "red/alice" "blue/bob" "" ["red/alice"; "blue/bob"] ["red"] "" "" "1" 20.

Definition sample_courier : Courier :=
  MkCourier sample_config ["queue"] ["bridge"; "outbox"; "bob"; "new"] {["red/alice"; "blue/bob"]} {["red"]} "blue/bob"
    "blue" "bob" "blue" (Some (@MkHostKey toy_crypto "1" tt)) ["bridge"; "receipts"].

(** The sample queue of host blue, which trusts host red, with the given files. *)
Definition bridge_world (files : list (path * string)) : world :=
  let t := foldl (fun t p => add_dir t p 448) (tr (complete_world []))
    [["bridge"]; ["bridge"; "trusted"]; ["bridge"; "outbox"]; ["bridge"; "outbox"; "bob"]; ["bridge"; "outbox"; "bob"; "new"]] in
  World (foldl (fun t '(p, s) => t_write (add_file t p) (fresh_ino t) s) t
           ((["bridge"; "trusted"; "red"], key_text "1" "public" (zeros 32)) :: files)) 0 ∅ 0 ∅.

Definition sample_poll : (list Receipt * option gerr) * world :=
  run quiet_env (@PollOnce toy_crypto (toy_net blue_bob (wire_reply ReceiptDestinationMaildirCommit blue_bob)) sample_courier)
    (bridge_world []).

Example poll_only_authentic_witness :
  (sample_poll.1.2 = None /\ rc_TransferID <$> sample_poll.1.1 = ["t1"] /\
   content (tr sample_poll.2) ["agents"; "bob"; "inbox"; "new"; "xfer-red-t1.md"] = Some "hello") /\
  poll_post sample_courier (tr (bridge_world [])) sample_poll.1 sample_poll.2.
Proof.
  split; [repeat split; vm_compute; reflexivity|].
  apply (@poll_only_authentic toy_crypto (toy_net blue_bob (wire_reply ReceiptDestinationMaildirCommit blue_bob))
    quiet_env sample_courier (bridge_world [])); [reflexivity|apply toy_net_ok].
Defined.

(** Without the key of the sender nothing is applied. *)
Example poll_untrusted :
  let w := complete_world [] in
  let x := run quiet_env (@PollOnce toy_crypto (toy_net blue_bob "") sample_courier) w in
  is_err x = true /\ content (tr x.2) ["agents"; "bob"; "inbox"; "new"; "xfer-red-t1.md"] = None.
Proof. split; vm_compute; reflexivity. Qed.
