(* ===== verification/CourierPush.v ===== *)
(** Pushing: PushOnce of cmd/amq-bridge/courier.go.  A message of the spool leaves it only when
    the rendezvous has accepted it, and is then in the archive of sent messages. *)
From S2P Require Import Prelude GoStr GoTrim GoTime GoPath GoErr Fs Wp FsFacts Names Json JsonFacts JsonStruct Encode DeliveryRoot DeliveryRootFacts AmbientFacts Sample Draining Maildir Delivery Repair ExistingInbox Bridge BridgeFacts BridgeApply Courier CourierFacts CourierPoll.
From S2P Require Ambient Format Enqueue.

(** ** The places *)

Definition spool_dir (h : string) : path := ["bridge"; "outbox"; h; "new"].
Definition sent_dir (h : string) : path := ["bridge"; "outbox"; h; "sent"].
Definition src (h n : string) : path := spool_dir h ++ [n].
Definition dst (h n : string) : path := sent_dir h ++ [n].
Definition side (h n : string) : path := spool_dir h ++ [TrimSuffix n ".md" +:+ ".dest"].

Lemma side_not_src h n n' : HasSuffix n' ".md" = true -> side h n <> src h n'.
Proof.
  intros [x ->]%HasSuffix_spec. unfold side, src. intros E%app_inv_head. injection E as E.
  revert E. generalize (TrimSuffix n ".md"). intros y E.
  change ".dest" with (".des" +:+ "t") in E. change ".md" with (".m" +:+ "d") in E.
  rewrite <-!string_app_assoc in E. by apply app_inj_r in E as [_ E].
Qed.

(** ** Archiving *)

(** Between [t] and [t'], while the message [n] with data [d] is archived. *)
Record moved (h n d : string) (t t' : tree) : Prop := Moved {
  mv_evo : evo (fun p => p = src h n \/ p = side h n \/ p = dst h n) t t';
  mv_keep : content t' (src h n) = Some d \/ content t' (dst h n) = Some d;
  mv_rest : forall q x, q <> src h n -> q <> side h n -> content t q = Some x -> content t' q = Some x;
  mv_spool : forall x, dents t' !! src h x = dents t !! src h x \/ dents t' !! src h x = None;
}.

Lemma moved_trans h n d t1 t2 t3 : moved h n d t1 t2 -> moved h n d t2 t3 -> moved h n d t1 t3.
Proof.
  intros [E1 _ R1 S1] [E2 K2 R2 S2]. split; [by eapply evo_trans|done|by auto|].
  intros x. destruct (S2 x) as [->| ->]; auto.
Qed.

Lemma moved_nothing h n d t t' : evo (fun _ => False) t t' -> content t (src h n) = Some d -> moved h n d t t'.
Proof.
  intros Hev Hc. split.
  - by eapply evo_mono, Hev.
  - left. eapply evo_content; [exact Hev|by intros []|done].
  - intros q x _ _ Hx. eapply evo_content; [exact Hev|by intros []|done].
  - intros x. left. apply (evo_deep _ _ _ _ Hev); [by intros []|cbn; unfold layout_depth; lia].
Qed.

Lemma moved_link h n d t i :
  dents t !! src h n = Some (NFile i) -> data t !! i = Some d -> dents t !! dst h n = None ->
  moved h n d t (set_dents (insert (dst h n) (NFile i)) t).
Proof.
  intros Hs Hd Hn. assert (forall q, q <> dst h n -> dents (set_dents (insert (dst h n) (NFile i)) t) !! q = dents t !! q) as Hq.
  { intros q Hne. cbn. by rewrite lookup_insert_ne. }
  assert (forall x, src h x <> dst h n) as Hne by done.
  split.
  - split; [done| |]; intros p.
    + intros j m Hp. rewrite Hq; [done|]. intros ->. congruence.
    + intros Hp. left. apply Hq. intros ->. apply Hp. auto.
  - left. unfold content. rewrite Hq, Hs by done. done.
  - intros q x _ _ Hx. unfold content. destruct (decide (q = dst h n)) as [->|E]; [by unfold content in Hx; rewrite Hn in Hx|].
    rewrite Hq by done. exact Hx.
  - intros x. left. by apply Hq.
Qed.

(** A spool entry that is no directory goes, once the message is archived. *)
Lemma moved_delete h n d t p :
  p = src h n \/ p = side h n -> (forall i m, dents t !! p <> Some (NDir i m)) ->
  content t (dst h n) = Some d -> moved h n d t (set_dents (delete p) t).
Proof.
  intros Hp Hnd Hc. assert (p <> dst h n) as Hpd by (by destruct Hp as [->| ->]).
  assert (forall q, q <> p -> dents (set_dents (delete p) t) !! q = dents t !! q) as Hq.
  { intros q Hne. cbn. by rewrite lookup_delete_ne. }
  split.
  - eapply evo_mono; [|by apply evo_delete]. intros q <-. destruct Hp as [->| ->]; auto.
  - right. unfold content. by rewrite Hq.
  - intros q x H1 H2 Hx. unfold content. rewrite Hq; [exact Hx|]. by destruct Hp as [->| ->].
  - intros x. destruct (decide (src h x = p)) as [E|E]; [right|left; by apply Hq].
    rewrite E. cbn. by rewrite lookup_delete_eq.
Qed.

Lemma moved_dst h n d t t' : moved h n d t t' -> content t (dst h n) = Some d -> content t' (dst h n) = Some d.
Proof. intros M. by apply (mv_rest _ _ _ _ _ M). Qed.

Section archive.
Context (e : env) (h : string) (Hh : plain h = true).

Lemma wpi_call_remove I p w :
  (forall i m, dents (tr w) !! p <> Some (NDir i m)) -> I (tr w) -> I (set_dents (delete p) (tr w)) ->
  wpi e I (call (SRemove p)) (fun _ w' => tr w' = tr w \/ tr w' = set_dents (delete p) (tr w)) w.
Proof.
  intros Hnd HI HI'. apply wpi_sys.
  - by destruct (exec_remove_cases e w p Hnd) as [[-> _]|[-> _]].
  - wret. destruct (exec_remove_cases e w p Hnd) as [[-> _]|[-> _]]; auto.
Qed.

Lemma t_link_file t n i t' :
  dents t !! src h n = Some (NFile i) -> t_link t (src h n) (dst h n) = Ok t' ->
  dents t !! dst h n = None /\ t' = set_dents (insert (dst h n) (NFile i)) t.
Proof.
  intros Hs. unfold t_link. destruct (t_node t (src h n)) as [k|] eqn:En; [|done].
  apply t_node_Ok_inv in En as [_ En]; [|done]. rewrite Hs in En. injection En as <-.
  destruct (t_node t (dst h n)) as [k|y] eqn:Ed; [done|]. destruct y; try done.
  destruct (t_parent t (dst h n)) eqn:Hp; [done|]. intros [= <-]. split; [|done].
  apply t_node_Er in Ed as [_ [?|(_ & ? & _)]]; [congruence|done].
Qed.

Lemma wpi_link I n d w :
  content (tr w) (src h n) = Some d -> (forall t, moved h n d (tr w) t -> I t) ->
  wpi e I (call (SLink (src h n) (dst h n))) (fun o w' =>
    moved h n d (tr w) (tr w') /\ (o = None -> content (tr w') (dst h n) = Some d) /\
    (o <> None -> tr w' = tr w)) w.
Proof.
  intros Hc HI. pose proof Hc as (i & Hs & Hd)%content_file.
  assert (moved h n d (tr w) (tr w)) as H0 by (apply moved_nothing; [apply evo_refl|done]).
  assert (forall t', t_link (tr w) (src h n) (dst h n) = Ok t' -> moved h n d (tr w) t' /\ content t' (dst h n) = Some d) as Hl.
  { intros t' [Hn ->]%(t_link_file _ _ i); [|done]. split; [by apply moved_link|].
    unfold content. cbn. by rewrite lookup_insert_eq. }
  apply wpi_sys; [|wret]; cbn; unfold upd_unit, upd; destruct (e_fault e (tick w)); cbn; try (by auto);
    destruct (t_link _ _ _) as [t'|]; cbn; try (by auto); destruct (Hl _ eq_refl); auto; by split_and!.
Qed.

Context `{Crypto} (c : Courier) (Hspool : c_spool c = spool_dir h).

Lemma spool_plain : Forall (fun x => plain x = true) (spool_dir h).
Proof. by repeat constructor. Qed.

Lemma wpi_moveToSent n d w :
  plain n = true -> content (tr w) (src h n) = Some d -> (forall i m, dents (tr w) !! side h n <> Some (NDir i m)) ->
  wpi e (moved h n d (tr w)) (moveToSent c n d) (fun o w' => moved h n d (tr w) (tr w') /\
    (o = None -> content (tr w') (dst h n) = Some d)) w.
Proof.
  intros Hn Hc Hside. unfold moveToSent. rewrite Hspool.
  assert (Join_under (Dir (spool_dir h)) ["sent"] = sent_dir h) as -> by (apply Join_under_plain; by repeat constructor).
  rewrite (Join_under_plain (spool_dir h) [n]), (Join_under_plain (sent_dir h) [n]) by (by repeat constructor).
  change (spool_dir h ++ [n]) with (src h n). change (sent_dir h ++ [n]) with (dst h n). cbv zeta.
  assert (Enqueue.DestSidecarPath (src h n) = side h n) as -> by done.
  set (M := moved h n d (tr w)). apply wpi_bind. eapply wpi_mono; [apply wpi_mkdirall; [cbn; unfold layout_depth; lia|]|].
  { intros t Ht. by apply moved_nothing. }
  intros o w1 (Hev1 & _). assert (M (tr w1)) as M1 by (by apply moved_nothing).
  destruct o as [x|]; [by wret|].
  assert (content (tr w1) (src h n) = Some d) as Hc1 by (eapply evo_content; [exact Hev1|by intros []|done]).
  apply wpi_bind. eapply wpi_mono; [apply wpi_link; [done|]|].
  { intros t Ht. by eapply moved_trans. }
  intros o w2 (M2' & Hlink & Herr). assert (M (tr w2)) as M2 by (by eapply moved_trans).
  apply wpi_bind. eapply (wpi_mono e _ _ (fun o w' => tr w' = tr w2 /\ (o = None -> content (tr w2) (dst h n) = Some d))).
  { destruct o as [x|]; [|wret; auto]. destruct (errors_Is_Exist x); [|by wret]. cbn [negb].
    apply wpi_bind. eapply wpi_mono; [apply wpi_sees; [done|by apply sees_ReadRegular]|].
    intros [s [y|]] w3 (Hs & Ht3 & _); [by wret|]. case_bool_decide as Es; [|by wret]. wret. split; [done|].
    intros _. rewrite Hs by done. by rewrite <-Es. }
  intros o' w3 [Ht3 Harch]. rewrite <-Ht3 in *. clear Ht3 Herr Hlink. destruct o' as [x|]; [by wret|].
  specialize (Harch eq_refl).
  apply wpi_ro_bind; [auto with amq|done|]. intros [x|] w4 Ht4 _; rewrite <-Ht4 in *; [by wret|].
  assert (forall t, M t -> forall i m, dents t !! src h n <> Some (NDir i m)) as Hnd1.
  { intros t Mt i m E. pose proof Hc as (j & Hj & _)%content_file.
    destruct (mv_spool _ _ _ _ _ Mt n) as [Hx|Hx]; congruence. }
  assert (forall t, M t -> forall i m, dents t !! side h n <> Some (NDir i m)) as Hnd2.
  { intros t Mt i m E. destruct (mv_spool _ _ _ _ _ Mt (TrimSuffix n ".md" +:+ ".dest")) as [Hx|Hx];
      unfold src in Hx; fold (side h n) in Hx; [|congruence]. by eapply Hside; rewrite <-Hx. }
  assert (forall p, p = src h n \/ p = side h n -> forall w', M (tr w') -> content (tr w') (dst h n) = Some d ->
    wpi e M (remove_if_there p) (fun _ w'' => M (tr w'') /\ content (tr w'') (dst h n) = Some d) w') as Hrm.
  { intros p Hp w' Mw Hcw. assert (forall i m, dents (tr w') !! p <> Some (NDir i m)) as Hnd by (destruct Hp as [->| ->]; auto).
    pose proof (moved_delete h n d (tr w') p Hp Hnd Hcw) as Md.
    apply wpi_bind. eapply wpi_mono; [apply wpi_call_remove; [done|done|by eapply moved_trans]|].
    intros o' w'' Ht. assert (M (tr w'') /\ content (tr w'') (dst h n) = Some d) as [HM HC].
    { destruct Ht as [->| ->]; [done|]. split; [by eapply moved_trans|by eapply moved_dst]. }
    destruct o'; by wret. }
  apply wpi_bind. eapply wpi_mono; [apply Hrm; auto|]. intros o5 w5 [M5 C5]. destruct o5 as [x|]; [by wret|].
  apply wpi_bind. eapply wpi_mono; [apply Hrm; auto|]. intros o6 w6 [M6 C6]. destruct o6 as [x|]; [by wret|].
  apply wpi_ro_bind; [auto with amq|done|]. intros [x|] w7 Ht7 _; rewrite <-Ht7 in *; by wret.
Qed.

End archive.

(** ** Reading the spool *)

Lemma limit_fits n s : Z.ltb n (Z.of_nat (String.length (Format.limit (n + 1) s))) = false -> Format.limit (n + 1) s = s.
Proof.
  unfold Format.limit. destruct (Z.leb_spec (Z.of_nat (String.length s)) (n + 1)) as [Hl|Hl]; [done|].
  intros Hlt%Z.ltb_ge. destruct (Z.le_gt_cases 0 (n + 1)) as [Hp|Hp].
  - rewrite str_take_length in Hlt; lia.
  - lia.
Qed.

(** Pairs of results taken apart together. *)
Ltac ro_more := ro_tac; repeat (case_match; ro_tac).

Lemma ro_readSpoolFile p : ro (readSpoolFile p).
Proof. unfold readSpoolFile. ro_more. Qed.
Lemma ro_destAliasForSpool `{Crypto} c p : ro (destAliasForSpool c p).
Proof. unfold destAliasForSpool. ro_more. Qed.
#[export] Hint Resolve ro_readSpoolFile ro_destAliasForSpool : amq.
Lemma ro_readSpoolItem `{Crypto} c n : ro (readSpoolItem c n).
Proof. unfold readSpoolItem. ro_more. Qed.
#[export] Hint Resolve ro_readSpoolItem : amq.
Lemma ro_readSpoolEntries `{Crypto} c l : ro (readSpoolEntries c l).
Proof.
  induction l as [|[n k] l IH]; [done|]. cbn [readSpoolEntries]. repeat (case_match; try done). ro_more.
Qed.
#[export] Hint Resolve ro_readSpoolEntries : amq.

Section spool.
Context `{CryptoLaws} (e : env) (h : string) (Hh : plain h = true) (c : Courier) (Hspool : c_spool c = spool_dir h).

(** An envelope of this host, signed with its key, for a destination that is allowed. *)
Definition signed (env : Envelope) : Prop :=
  (exists key, identity c = Some key /\ VerifyEnvelope env (Public (Private key)) (Generation key) = None) /\
  SourceHost env = cf_SourceHost (cfg c) /\ (DestAlias env = cf_DestAlias (cfg c) \/ DestAlias env ∈ allowedDest c).

Record item_ok (t : tree) (it : spoolItem) : Prop := {
  io_name : ValidateMessageFilename (it_name it) = None;
  io_data : content t (src h (it_name it)) = Some (it_data it);
  io_side : forall i m, dents t !! side h (it_name it) <> Some (NDir i m);
  io_payload : Payload (it_env it) = it_data it;
  io_signed : signed (it_env it);
}.

Lemma sees_readSpoolFile t p : p <> [] ->
  sees e t (readSpoolFile p) (fun x => x.2 = None -> content t p = Some x.1 /\ t_parent t p = None).
Proof.
  intros Hp. unfold readSpoolFile.
  eapply sees_bind; [apply sees_any; ro_more| |intros ?; ro_more]. intros [i|x] _; [|by apply sees_ret].
  destruct (regular i); [|by apply sees_ret]. cbn [negb].
  eapply sees_bind; [by apply sees_OpenRegular| |intros [[[? ?]|] [?|]]; ro_more].
  intros [[[f fi]|] [x|]] Hx; try (by apply sees_ret). destruct Hx as [Hx Hpar].
  case_match.
  { eapply sees_bind; [apply sees_any; ro_more| |intros ?; ro_more]. intros ? _. by apply sees_ret. }
  eapply sees_bind; [apply sees_read_all| |intros ?; ro_more]. intros y Hy.
  eapply sees_bind; [apply sees_any; ro_more| |intros ?; ro_more]. intros z _.
  destruct y as [s|x]; [|by apply sees_ret]. destruct z as [?|x]; [|by apply sees_ret].
  destruct (Z.ltb _ (Z.of_nat (String.length (Format.limit _ s)))) eqn:Hl; [by apply sees_ret|].
  apply limit_fits in Hl. apply sees_ret. intros _. split; [|done]. cbn [fst]. rewrite Hl. unfold content. rewrite Hx.
  destruct Hy as [(? & [=] & _)|Hy]. destruct (data t !! h_ino f); [by injection Hy as ->|done].
Qed.

Lemma sees_destAlias t n : t_parent t (src h n) = None ->
  sees e t (destAliasForSpool c (src h n)) (fun x => x.2 = None ->
    (x.1 = cf_DestAlias (cfg c) \/ x.1 ∈ allowedDest c) /\ forall i m, dents t !! side h n <> Some (NDir i m)).
Proof.
  intros Hpar. unfold destAliasForSpool. change (Enqueue.DestSidecarPath (src h n)) with (side h n). cbv zeta.
  change (t_parent t (src h n)) with (t_parent t (side h n)) in Hpar.
  eapply sees_bind; [apply sees_lstat| |].
  2:{ intros [i|x]; [|case_match; exact I]. ro_tac. }
  intros [i|x] Hx.
  - destruct Hx as [(? & [=] & _)|Hx]. unfold t_lstat in Hx. destruct (t_node t (side h n)) as [k|] eqn:En; [|done].
    apply t_node_Ok_inv in En as [_ En]; [|done]. injection Hx as ->.
    destruct (regular (node_info t k)) eqn:Hr; [|by apply sees_ret]. cbn [negb].
    assert (forall i m, dents t !! side h n <> Some (NDir i m)) as Hnd.
    { intros i m E. rewrite E in En. by injection En as <-. }
    eapply sees_bind; [by apply sees_any; auto with amq| |intros [? [?|]]; ro_tac].
    intros [d [y|]] _; [by apply sees_ret|]. destruct (ParseAlias (TrimSpace d)) as [[? ?]|]; [|by apply sees_ret].
    case_bool_decide; [|by apply sees_ret]. apply sees_ret. intros _. split; [by right|done].
  - destruct (errno_is_notexist x) eqn:Ex; [|by apply sees_ret]. apply sees_ret. intros _. split; [by left|].
    destruct Hx as [(y & [= ->] & _)|Hx]; [done|]. unfold t_lstat in Hx. intros i m E.
    rewrite (t_node_lookup t (side h n) _ ltac:(done) Hpar E) in Hx. done.
Qed.

Lemma sees_readSpoolItem t n : ValidateMessageFilename n = None ->
  sees e t (readSpoolItem c n) (fun x => match x with inl it => item_ok t it /\ it_name it = n | inr _ => True end).
Proof.
  intros Hn. unfold readSpoolItem. rewrite Hspool. cbv zeta.
  rewrite (Join_under_plain (spool_dir h) [n]) by (repeat constructor; try done; by apply filename_plain).
  change (spool_dir h ++ [n]) with (src h n).
  eapply sees_bind; [by apply sees_readSpoolFile| |intros [? [?|]]; ro_more].
  intros [d [x|]] Hd; [by apply sees_ret|]. destruct (Hd eq_refl) as [Hc Hpar]. cbn [fst] in Hc.
  destruct (Format.ParseMessage d) as [msg|]; [|by apply sees_ret]. case_match; [by apply sees_ret|].
  case_match; [by apply sees_ret|]. case_match; [by apply sees_ret|].
  eapply sees_bind; [by apply sees_destAlias| |intros [? [?|]]; ro_more].
  intros [al [x|]] Hal; [by apply sees_ret|]. destruct (Hal eq_refl) as [Hdest Hside].
  destruct (identity c) as [key|] eqn:Hid; [|by apply sees_ret].
  destruct (SignEnvelope _ key) as [env' [x|]] eqn:Hsig; [by apply sees_ret|]. apply sees_ret.
  apply Sign_Verify in Hsig as [Hv He]. split; [|done]. split; cbn; try done; rewrite He; try done.
  split; [exists key; split; [done|by rewrite <-He]|]. split; [done|]. cbn. done.
Qed.

Lemma sees_readSpoolEntries t l : NoDup l.*1 ->
  sees e t (readSpoolEntries c l) (fun x => match x with
    | inl items => Forall (item_ok t) items /\ NoDup (it_name <$> items) /\ it_name <$> items ⊆ l.*1
    | inr _ => True
    end).
Proof.
  induction l as [|[n k] l IH]; intros Hnd; [apply sees_ret; split_and!; [done|constructor|done]|].
  cbn [readSpoolEntries]. apply NoDup_cons in Hnd as [Hn Hnd]. specialize (IH Hnd).
  case_match.
  { eapply sees_mono; [exact IH|]. intros [items|]; [|done]. cbn. intros (? & ? & ?). split_and!; try done. set_solver. }
  destruct (ValidateMessageFilename n) eqn:Hv; [by apply sees_ret|].
  eapply sees_bind; [by apply sees_readSpoolItem| |intros ?; ro_more]. intros [it|x] Hit; [|by apply sees_ret].
  destruct Hit as [Hok Hname]. eapply sees_bind; [exact IH| |intros ?; ro_more].
  intros [items|x] Hx; [|by apply sees_ret]. destruct Hx as (Hall & Hnd' & Hsub). apply sees_ret.
  cbn. rewrite Hname. split_and!; [by constructor| |clear -Hsub; set_solver].
  apply NoDup_cons. split; [|done]. intros Hin. apply Hn. by apply Hsub.
Qed.

Lemma sees_os_ReadDir t p :
  sees e t (Ambient.os_ReadDir p) (fun x => x.2 = None -> NoDup x.1.*1).
Proof.
  unfold Ambient.os_ReadDir. eapply sees_bind; [apply sees_any; ro_tac| |intros ?; ro_more].
  intros [f|x] _; [|by apply sees_ret]. case_match; [by apply sees_ret|].
  eapply (sees_bind _ _ _ _ (fun x => forall l, x = Ok l -> l ≡ₚ children t (h_path f))); [| |intros ?; ro_more].
  - split; [ro_tac|]. intros w Hw. rewrite run_sys. cbn. unfold obs.
    destruct (e_fault e (tick w)); cbn; [done|]. intros l [= <-]. rewrite <-Hw. apply e_order_perm.
  - intros [l|x] Hx; apply sees_ret; [|done]. intros _. cbn [fst]. rewrite sort_entries_perm, (Hx l) by done.
    apply children_nodup.
Qed.

Definition spool_read (t : tree) (x : list spoolItem + gerr) : Prop :=
  match x with inl items => Forall (item_ok t) items /\ NoDup (it_name <$> items) | inr _ => True end.

Lemma wpi_readSpool w :
  wpi e (evo (fun _ => False) (tr w)) (readSpool c)
    (fun x w' => evo (fun _ => False) (tr w) (tr w') /\ spool_read (tr w') x) w.
Proof.
  unfold readSpool. rewrite Hspool. apply wpi_bind.
  eapply wpi_mono; [apply wpi_mkdirall; [cbn; unfold layout_depth; lia|done]|].
  intros o w1 (Hev1 & _). destruct o as [x|]; [by wret|].
  apply wpi_bind. eapply wpi_mono; [apply wpi_sees; [done|apply sees_os_ReadDir]|].
  intros [l [x|]] w2 (Hnd & Ht2 & _); rewrite <-Ht2 in *; [by wret|].
  eapply wpi_mono; [apply wpi_sees; [done|apply sees_readSpoolEntries]|].
  - rewrite sort_entries_perm. by apply Hnd.
  - intros [items|x] w3 (Hx & -> & _); [|done]. split; [done|]. by destruct Hx as (? & ? & _).
Qed.

End spool.

(** ** Pushing *)

Lemma recorded_fold t p stage id d1 d2 :
  EqualFold d1 d2 = true -> recorded t p stage id d1 -> recorded t p stage id d2.
Proof.
  unfold EqualFold. intros E%bool_decide_eq_true (d & r & Hc & Hp & Hs). exists d, r. split_and!; try done.
  revert Hs. unfold same_transfer, EqualFold. by rewrite E.
Qed.

Section push.
Context `{CryptoLaws} `{Net} (e : env) (h : string) (Hh : plain h = true) (c : Courier).
Context (Hspool : c_spool c = spool_dir h) (Hdir : receiptRelDir c = receipts_dir).

Definition accept_file (env : Envelope) : path :=
  receipts_dir ++ [receiptFilename (TransferID env) ReceiptTransportAccepted].

(** The receipt of the rendezvous for the envelope is on disk. *)
Definition accepted_on_disk (t : tree) (env : Envelope) : Prop :=
  recorded t (accept_file env) ReceiptTransportAccepted (TransferID env) (PayloadSHA256 env).

(** What the rendezvous may rely on when the courier pushes. *)
Definition may_push (t : tree) (q : Request) : Prop :=
  Method q = "POST" /\ exists n env body, ReqBody q = Some body /\ MarshalEnvelope env = inl body /\
    signed c env /\ content t (src h n) = Some (Payload env).

Context (Hnet : network_ok e may_push).

Lemma signed_accepted env : signed c env -> accepted env.
Proof. intros [(k & _ & Hv) _]. by apply VerifyEnvelope_None in Hv as [? _]. Qed.

Lemma accept_file_plain env : accepted env ->
  Join_under receipts_dir [receiptFilename (TransferID env) ReceiptTransportAccepted] = accept_file env.
Proof.
  intros A. apply Join_under_plain; [by repeat constructor|]. apply Forall_singleton.
  apply receipt_file_plain; [by apply acc_transfer|done].
Qed.

Lemma wpi_existingReceipt I r env w :
  dr_at r = [] -> accepted env -> I (tr w) ->
  wpi e I (existingReceipt c r env ReceiptTransportAccepted) (fun x w' => tr w' = tr w /\
    match x with inl _ => accepted_on_disk (tr w) env | inr _ => True end) w.
Proof.
  intros Hat A HI. unfold existingReceipt. rewrite Hdir, accept_file_plain by done. cbv zeta.
  apply wpi_bind. eapply wpi_mono; [by apply wpi_ReadRegularNoFollow|].
  intros [d [x|]] w1 (Ht1 & _ & Hd); [by wret|].
  destruct (parse_receipt d) as [rec|] eqn:Hp; [|by wret].
  destruct (same_transfer rec _ _ _) eqn:Hsame; [|by wret]. cbn [negb]. wret. split; [done|].
  exists d, rec. split; [by apply Hd|]. split; [by left|done].
Qed.

Lemma wpi_postEnvelope I n env w :
  signed c env -> content (tr w) (src h n) = Some (Payload env) -> I (tr w) ->
  wpi e I (postEnvelope c env) (fun x w' => tr w' = tr w /\ forall remote, x = inl remote ->
    w_TransferID remote = TransferID env /\ EqualFold (w_PayloadSHA256 remote) (PayloadSHA256 env) = true) w.
Proof.
  intros Hs Hc HI. unfold postEnvelope. destruct (MarshalEnvelope env) as [body|] eqn:Hm; [|by wret].
  apply wpi_bind. eapply wpi_mono; [eapply wpi_requestJSON; [exact Hnet| |done]|].
  { intros ep. split; [done|]. by exists n, env, body. }
  intros y w2 Ht2. wret. split; [done|]. unfold checked_receipt. destruct y as [remote|]; [|done].
  unfold validateWireReceipt. case_bool_decide; [|done]. case_bool_decide; [|done].
  destruct (EqualFold (w_PayloadSHA256 remote) _) eqn:Hfold; [|done]. by intros ? [= <-].
Qed.

Lemma wpi_transport_receipt I r it w :
  dr_at r = [] -> item_ok h c (tr w) it -> (forall t, adds (accept_file (it_env it)) (tr w) t -> I t) ->
  wpi e I (transport_receipt c r it) (fun x w' => adds (accept_file (it_env it)) (tr w) (tr w') /\
    match x with inl _ => accepted_on_disk (tr w') (it_env it) | inr _ => True end) w.
Proof.
  intros Hat [_ Hd _ Hp Hsg] HI. rewrite <-Hp in Hd. set (env := it_env it) in *.
  pose proof (signed_accepted _ Hsg) as A.
  pose proof (adds_refl (accept_file env) (tr w)) as Ha0. pose proof (HI _ Ha0) as HI0.
  unfold transport_receipt. fold env. apply wpi_bind. eapply wpi_mono; [by apply wpi_existingReceipt|].
  intros x w1 [Ht1 Hx]; rewrite <-Ht1 in *. destruct x as [rec|x]; [by wret|].
  destruct (errors_Is_NotExist x); [|by wret]. cbn [negb].
  apply wpi_bind. eapply wpi_mono; [by eapply wpi_postEnvelope|].
  intros y w2 [Ht2 Hy]. rewrite <-Ht2 in *. destruct y as [remote|]; [|by wret].
  destruct (Hy remote eq_refl) as [Hid Hfold].
  apply wpi_ro_bind; [ro_tac|done|]. intros now w3 Ht3 _. rewrite <-Ht3 in *. unfold writeReceipt. rewrite Hdir, Hid.
  set (rec := MkReceipt _ _ _ _ _ _ _). apply wpi_bind.
  eapply wpi_mono; [apply (wpi_writeBridgeReceipt e r Hat I receipts_dir rec w3);
    [cbn; unfold layout_depth; lia|apply Format_not_empty|by apply accept_file_plain|exact HI]|].
  intros o w4 [Hadds Hrec]. destruct o as [z|]; wret; [by split|]. split; [done|].
  eapply recorded_fold; [exact Hfold|]. by apply Hrec.
Qed.

(** ** The invariant *)

Definition push_places (p : path) : Prop := Dir p = spool_dir h \/ Dir p = sent_dir h \/ Dir p = receipts_dir.

(** The message is in the spool, or archived and accepted. *)
Definition safe_message (t : tree) (n d : string) : Prop :=
  content t (src h n) = Some d \/
  (content t (dst h n) = Some d /\ exists env, Payload env = d /\ signed c env /\ accepted_on_disk t env).

Record push_inv (t0 t : tree) : Prop := {
  pi_evo : evo push_places t0 t;
  pi_safe : forall n d, HasSuffix n ".md" = true -> content t0 (src h n) = Some d -> safe_message t n d;
  pi_sent : forall n d, content t0 (dst h n) = Some d -> content t (dst h n) = Some d;
}.

Lemma push_inv_refl t : push_inv t t.
Proof. split; [apply evo_refl| |done]. intros n d _ Hc. by left. Qed.

(** Nothing that was there is different. *)
Lemma push_inv_grow t0 t t' :
  push_inv t0 t -> evo push_places t t' -> (forall q d, content t q = Some d -> content t' q = Some d) -> push_inv t0 t'.
Proof.
  intros [He Hs Ha] Hev Hc. split; [by eapply evo_trans| |by auto].
  intros n d Hn Hd. destruct (Hs n d Hn Hd) as [?|(? & env & ? & ? & Hr)]; [left; auto|right].
  split; [auto|]. exists env. split_and!; try done. destruct Hr as (x & r & ? & ?). exists x, r. auto.
Qed.

Lemma push_inv_moved t0 t t' n d env :
  HasSuffix n ".md" = true -> content t (src h n) = Some d -> Payload env = d -> signed c env -> accepted_on_disk t env ->
  push_inv t0 t -> moved h n d t t' -> push_inv t0 t'.
Proof.
  intros Hn Hc Hp Hsg Hacc [He Hs Ha] [Me Mk Mr _].
  assert (forall env, accepted_on_disk t env -> accepted_on_disk t' env) as Hdisk.
  { intros env' (x & r & ? & ?). exists x, r. split; [|done]. by apply Mr. }
  split.
  - eapply evo_trans; [exact He|]. eapply evo_mono; [|exact Me]. unfold push_places.
    intros p [->|[->| ->]]; unfold src, side, dst; rewrite Dir_snoc; auto.
  - intros n' d' Hn' Hd'. destruct (decide (n' = n)) as [->|Hne].
    + destruct (Hs n d' Hn Hd') as [Hx|(Hx & env' & ? & ? & ?)].
      * assert (d' = d) as -> by congruence. destruct Mk as [?|?]; [by left|right]. split; [done|]. exists env. auto.
      * right. split; [by apply Mr|]. exists env'. auto.
    + assert (src h n' <> src h n) as Hsrc by (intros [= E]; done).
      destruct (Hs n' d' Hn' Hd') as [Hx|(Hx & env' & ? & ? & ?)]; [left|right].
      * apply Mr; [done| |done]. intros E. symmetry in E. by apply side_not_src in E.
      * split; [by apply Mr|]. exists env'. auto.
  - intros n' d' Hd'. apply Mr; [done|done|]. by apply Ha.
Qed.

Lemma item_ok_adds t t' env it : adds (accept_file env) t t' -> item_ok h c t it -> item_ok h c t' it.
Proof.
  intros Ha [? ? Hs ? ?]. split; try done; [by eapply adds_content|]. intros i m.
  rewrite (evo_deep _ _ _ _ (proj1 Ha)); [apply Hs|done|cbn; unfold layout_depth; lia].
Qed.

Lemma item_ok_moved t t' n d it :
  moved h n d t t' -> it_name it <> n -> item_ok h c t it -> item_ok h c t' it.
Proof.
  intros [_ _ Mr Ms] Hne [Hv Hd Hs ? ?]. split; try done.
  - apply Mr; [by intros [= ?]| |done]. intros E. symmetry in E. apply side_not_src in E; [done|].
    by apply ValidateMessageFilename_None in Hv as (_ & _ & ?).
  - intros i m E. destruct (Ms (TrimSuffix (it_name it) ".md" +:+ ".dest")) as [Hx|Hx]; unfold src in Hx; fold (side h (it_name it)) in Hx; [|congruence].
    apply (Hs i m). by rewrite <-Hx.
Qed.

Lemma push_inv_receipt t0 t t' env : push_inv t0 t -> adds (accept_file env) t t' -> push_inv t0 t'.
Proof.
  intros Hi Ha. eapply push_inv_grow; [done| |intros; by eapply adds_content].
  eapply evo_mono; [|apply Ha]. intros p <-. right. by right.
Qed.

Lemma wpi_push_items r items acc t0 w :
  dr_at r = [] -> push_inv t0 (tr w) -> Forall (item_ok h c (tr w)) items -> NoDup (it_name <$> items) ->
  wpi e (push_inv t0) (push_items c r items acc) (fun _ w' => push_inv t0 (tr w')) w.
Proof.
  intros Hat. revert acc w; induction items as [|it items IH]; intros acc w Hinv Hall Hnd; [by wret|].
  cbn [push_items]. apply Forall_cons in Hall as [Hok Hall]. apply NoDup_cons in Hnd as [Hn Hnd].
  apply wpi_bind. eapply wpi_mono; [apply wpi_transport_receipt; [done|done|]|].
  { intros t. by apply push_inv_receipt. }
  intros x w1 [Hadds Hx]. pose proof (push_inv_receipt _ _ _ _ Hinv Hadds) as Hinv1.
  assert (Forall (item_ok h c (tr w1)) items) as Hall1.
  { eapply Forall_impl; [exact Hall|]. intros it'. by apply (item_ok_adds _ _ (it_env it)). }
  pose proof (item_ok_adds _ _ _ _ Hadds Hok) as [Hv Hd Hs Hp Hsg].
  destruct x as [rec|]; [|by wret]. case_match; [by wret|].
  pose proof Hv as (_ & _ & Hmd)%ValidateMessageFilename_None.
  assert (forall t, moved h (it_name it) (it_data it) (tr w1) t -> push_inv t0 t) as Hmv.
  { intros t. by apply (push_inv_moved _ _ _ _ _ (it_env it)). }
  apply wpi_bind. eapply wpi_mono; [eapply wpi_inv_mono; [exact Hmv|]; apply (wpi_moveToSent e h Hh c Hspool)|];
    [by apply filename_plain|done|done|].
  intros o w2 [Hm _]. pose proof (Hmv _ Hm) as Hinv2. destruct o as [z|]; [by wret|].
  apply IH; [done| |done]. rewrite Forall_forall in *. intros it' Hit'.
  eapply item_ok_moved; [exact Hm| |by apply Hall1]. intros E. apply Hn. rewrite <-E. by apply list_elem_of_fmap_2.
Qed.

Lemma push_inv_dirs t0 t : evo (fun _ => False) t0 t -> push_inv t0 t.
Proof.
  intros Hev. eapply push_inv_grow; [apply push_inv_refl|by eapply evo_mono, Hev|].
  intros q d Hq. eapply evo_content; [exact Hev|by intros []|done].
Qed.

Lemma wpi_PushOnce w : wpi e (push_inv (tr w)) (PushOnce c) (fun _ w' => push_inv (tr w) (tr w')) w.
Proof.
  pose proof (push_inv_refl (tr w)) as Hi0. unfold PushOnce. destruct (requirePushConfig c); [by wret|].
  apply wpi_bind. eapply wpi_mono; [eapply wpi_inv_mono; [|by apply (wpi_readSpool e h Hh c Hspool)]; apply push_inv_dirs|].
  intros x w1 [Hev Hx]. pose proof (push_inv_dirs _ _ Hev) as Hi1. destruct x as [items|]; [|by wret].
  destruct Hx as [Hall Hnd]. set (n := Z.to_nat _).
  assert (Forall (item_ok h c (tr w1)) (take n items)) as Hall' by (by apply Forall_take).
  assert (NoDup (it_name <$> take n items)) as Hnd'.
  { rewrite fmap_take. by eapply sublist_NoDup; [|apply sublist_take]. }
  destruct (take n items) as [|it its]; [by wret|].
  apply wpi_bind. eapply wpi_mono; [by apply wpi_openDeliveryRoot|].
  intros [r [x|]] w2 [Ht2 Hr]; rewrite <-Ht2 in *; [by wret|]. destruct r as [r|]; [|by wret].
  apply wpi_push_items; [by apply Hr|done|done|done].
Qed.

End push.

(** C11: Pushing loses nothing, for a courier whose spool is the spool directory of a host and whose
    receipts are in their default directory (a spool that is itself named sent loses messages,
    see spool_named_sent): as long as the rendezvous leaves the tree alone when it is sent a
    complete message of the spool in a signed envelope (there are no other requests), a push
    stopped after any call, under any I/O failures, has every message that was in the spool
    still there, or in the archive of sent messages with the acceptance of its envelope by the
    rendezvous on disk; nothing in the archive is replaced, and nothing outside of the spool,
    the archive and the receipts is different. *)
Theorem push_loses_nothing `{CryptoLaws} `{Net} e h c w :
  plain h = true -> c_spool c = spool_dir h -> receiptRelDir c = receipts_dir ->
  network_ok e (may_push h c) ->
  Forall (fun w' => push_inv h c (tr w) (tr w')) (trace e (PushOnce c) w) /\
  push_inv h c (tr w) (tr (run e (PushOnce c) w).2).
Proof.
  intros Hh Hspool Hdir Hnet. pose proof (wpi_PushOnce e h Hh c Hspool Hdir Hnet w) as Hw.
  split; [by eapply wpi_trace|by apply wpi_run in Hw].
Qed.

(** ** A message of bob for alice *)

Definition spool_message : string :=
  let q s := DQ +:+ s +:+ DQ in
  "---json" +:+ LF +:+ "{" +:+ q "schema" +:+ ":1," +:+ q "id" +:+ ":" +:+ q "m1" +:+ "," +:+ q "from" +:+ ":" +:+ q "bob" +:+
  "," +:+ q "to" +:+ ":[" +:+ q "alice" +:+ "]," +:+ q "thread" +:+ ":" +:+ q "th" +:+ "," +:+ q "created" +:+ ":" +:+
  q "2026-07-01T00:00:00Z" +:+ "}" +:+ LF +:+ "---" +:+ LF +:+ "hello".

Definition spool_envelope : Envelope := envelopeForMessage sample_config "red/alice" "m1" "th" spool_message.

Definition accepting : Net := toy_net spool_envelope (wire_reply ReceiptTransportAccepted spool_envelope).

(** A courier whose spool is the given directory. *)
Definition courier_of (spool : path) : Courier :=
  MkCourier sample_config ["queue"] spool {["red/alice"; "blue/bob"]} {["red"]} "blue/bob" "blue" "bob" "blue"
    (Some (@MkHostKey toy_crypto "1" tt)) ["bridge"; "receipts"].

Definition spool_world : world := bridge_world [(src "bob" "m1.md", spool_message)].
Definition sample_push : (list Receipt * option gerr) * world :=
  run quiet_env (@PushOnce toy_crypto accepting (courier_of (spool_dir "bob"))) spool_world.

Example push_loses_nothing_witness :
  (sample_push.1.2 = None /\ length sample_push.1.1 = 1%nat /\
   content (tr sample_push.2) (src "bob" "m1.md") = None /\
   content (tr sample_push.2) (dst "bob" "m1.md") = Some spool_message) /\
  push_inv "bob" (courier_of (spool_dir "bob")) (tr spool_world) (tr sample_push.2).
Proof.
  split; [repeat split; vm_compute; reflexivity|].
  apply (@push_loses_nothing toy_crypto toy_laws accepting quiet_env "bob" (courier_of (spool_dir "bob")) spool_world);
    [reflexivity|reflexivity|reflexivity|apply toy_net_ok].
Defined.

(** A spool directory that is itself called sent is its own archive: the push takes the message
    for archived and removes it. *)
Example spool_named_sent :
  let dir := sent_dir "bob" in
  let t := add_dir (tr (bridge_world [])) dir 448 in
  let w := World (t_write (add_file t (dir ++ ["m1.md"])) (fresh_ino t) spool_message) 0 ∅ 0 ∅ in
  let x := run quiet_env (@PushOnce toy_crypto accepting (courier_of dir)) w in
  x.1.2 = None /\ content (tr w) (dir ++ ["m1.md"]) = Some spool_message /\
  content (tr x.2) (dir ++ ["m1.md"]) = None.
Proof. repeat split; vm_compute; reflexivity. Qed.
