(* ===== verification/EnqueueFacts.v ===== *)
(** What Enqueue leaves in the spool, and what a courier that looks in between sees. *)
From S2P Require Import Prelude GoStr GoTrim GoTime GoPath GoErr Fs Wp FsFacts Names Json JsonFacts JsonStruct Encode DeliveryRoot DeliveryRootFacts AmbientFacts Sample Maildir Delivery Repair Bridge BridgeFacts BridgeApply Enqueue Courier CourierFacts CourierPoll CourierPush.

(** ** The spool after an Enqueue *)

(** Two files may have been added, and nothing that was there is different. *)
Definition enqueueing (p q : path) (t t' : tree) : Prop :=
  evo (fun x => x = p \/ x = q) t t' /\
  forall x, x = p \/ x = q -> is_Some (dents t !! x) -> dents t' !! x = dents t !! x.

Lemma enqueueing_refl p q t : enqueueing p q t t.
Proof. split; [apply evo_refl|done]. Qed.

Lemma enqueueing_adds p q x t1 t2 t3 :
  x = p \/ x = q -> enqueueing p q t1 t2 -> adds x t2 t3 -> enqueueing p q t1 t3.
Proof.
  intros Hx [E1 S1] [E2 S2]. split.
  - eapply evo_trans; [exact E1|]. eapply evo_mono; [|exact E2]. by intros y <-.
  - intros y Hy Hs. rewrite <-(S1 y Hy Hs). destruct (decide (x = y)) as [->|Hne].
    + apply S2. by rewrite S1.
    + destruct Hs as [k Hk]. rewrite <-(S1 y Hy) in Hk by done. rewrite Hk. eapply evo_entry; [exact E2|done|done].
Qed.

Section enqueue.
Context (e : env) (Abs : string -> path + gerr) (cf : EnqueueConfig) (alias msg : string).
Context (Hroot : Abs (Enqueue.Root cf) = inl []) (Hh : ValidateHandle (Enqueue.SourceHandle cf) = None).

Lemma spool_name_valid n : spool_name cf (TrimSpace alias) msg = inl n -> ValidateMessageFilename n = None.
Proof. unfold spool_name. repeat (case_match; try done). by intros [= <-]. Qed.

Definition enqueue_post (n : string) (t0 : tree) (x : EnqueueResult * option gerr) (w' : world) : Prop :=
  let h := Enqueue.SourceHandle cf in
  enqueueing (src h n) (side h n) t0 (tr w') /\
  (x.2 = None -> x.1 = MkEnqueued (src h n) n /\ dents t0 !! src h n = None /\ dents t0 !! side h n = None /\
     content (tr w') (src h n) = Some msg /\ content (tr w') (side h n) = Some (TrimSpace alias +:+ LF)).

Lemma wpi_Enqueue n w :
  spool_name cf (TrimSpace alias) msg = inl n ->
  wpi e (enqueueing (src (Enqueue.SourceHandle cf) n) (side (Enqueue.SourceHandle cf) n) (tr w)) (Enqueue Abs cf alias msg)
    (enqueue_post n (tr w)) w.
Proof.
  intros Hn. pose proof (spool_name_valid n Hn) as Hv. unfold Enqueue. cbv zeta. rewrite Hn, Hroot. set (h := Enqueue.SourceHandle cf) in *.
  assert (Join_under [] ["bridge"; "outbox"; h; "new"] = spool_dir h) as ->.
  { apply Join_under_plain; [constructor|]. repeat constructor; try done. by apply handle_plain. }
  rewrite (Join_under_plain (spool_dir h) [n]).
  2:{ repeat constructor; try done. by apply handle_plain. }
  2:{ repeat constructor. by apply filename_plain. }
  change (spool_dir h ++ [n]) with (src h n). unfold writeDestSidecar.
  change (DestSidecarPath (src h n)) with (side h n).
  assert (side h n <> src h n) as Hne.
  { apply side_not_src. by apply ValidateMessageFilename_None in Hv as (_ & _ & ?). }
  set (J := enqueueing (src h n) (side h n) (tr w)).
  apply wpi_bind. eapply wpi_mono; [apply wpi_mkdirall; [cbn; unfold layout_depth; lia|]|].
  { intros t Ht. eapply (enqueueing_adds _ _ (src h n)); [by left|apply enqueueing_refl|by apply adds_dirs]. }
  intros o w1 (Hev1 & _).
  assert (J (tr w1)) as J1 by (eapply (enqueueing_adds _ _ (src h n)); [by left|apply enqueueing_refl|by apply adds_dirs]).
  assert (forall q, (layout_depth < length q)%nat -> dents (tr w1) !! q = dents (tr w) !! q) as Hdeep.
  { intros q Hq. apply (evo_deep _ _ _ _ Hev1); [by intros []|done]. }
  destruct o as [x|]; [by wret|].
  apply wpi_bind. eapply wpi_mono; [apply wpi_write_new_adds|].
  { intros t Ht. by eapply (enqueueing_adds _ _ (src h n)); [left| |]. }
  intros o w2 [Ha2 Hc2]. assert (J (tr w2)) as J2 by (by eapply (enqueueing_adds _ _ (src h n)); [left| |]).
  destruct o as [x|]; [by wret|]. destruct (Hc2 eq_refl) as [Hn1 Hc]. rewrite Hdeep in Hn1 by (cbn; unfold layout_depth; lia).
  apply wpi_bind. eapply wpi_mono; [apply wpi_write_new_adds|].
  { intros t Ht. by eapply (enqueueing_adds _ _ (side h n)); [right| |]. }
  intros o w3 [Ha3 Hc3]. assert (J (tr w3)) as J3 by (by eapply (enqueueing_adds _ _ (side h n)); [right| |]).
  pose proof (adds_content _ _ _ _ _ Ha3 Hc) as Hc'. destruct o as [x|].
  - assert (forall i m, dents (tr w3) !! src h n <> Some (NDir i m)) as Hnd.
    { apply content_file in Hc' as (i & Hi & _). congruence. }
    assert (J (set_dents (delete (src h n)) (tr w3))) as Jd.
    { destruct J3 as [E3 S3]. split.
      - eapply evo_trans; [exact E3|]. eapply evo_mono; [|by apply evo_delete]. intros q <-. by left.
      - intros q Hq Hs. destruct (decide (q = src h n)) as [->|Hqn]; [by rewrite Hn1 in Hs; destruct Hs|].
        cbn. rewrite lookup_delete_ne by done. by apply S3. }
    apply wpi_bind. eapply wpi_mono; [by apply wpi_remove_file|].
    intros y w4 (_ & _ & Hy). wret. split; [|done]. by destruct Hy as [[-> _]|[_ ->]].
  - destruct (Hc3 eq_refl) as [Hn3 Hs3].
    assert (dents (tr w) !! side h n = None) as Hns.
    { rewrite <-Hdeep by (cbn; unfold layout_depth; lia). destruct (dents (tr w1) !! side h n) eqn:E; [|done].
      by rewrite (evo_entry _ _ _ _ _ (proj1 Ha2) (fun E => Hne (eq_sym E)) E) in Hn3. }
    apply wpi_ro_bind; [auto with amq|done|]. intros [x|] w4 Ht4 _; wret; (split; [by rewrite Ht4|]); [done|].
    intros _. rewrite Ht4. by split_and!.
Qed.

End enqueue.

(** Enqueue keeps what is in the spool: stopped after any call, under any I/O failures, at
    most the message file and its destination file have been added, and nothing that was there
    is different; after a success both are new and complete, the message byte for byte and the
    destination as given, and the name is that of the id of the message. *)
Theorem enqueue_complete e Abs cf alias msg n w :
  Abs (Enqueue.Root cf) = inl [] -> ValidateHandle (Enqueue.SourceHandle cf) = None ->
  spool_name cf (TrimSpace alias) msg = inl n ->
  Forall (fun w' => enqueueing (src (Enqueue.SourceHandle cf) n) (side (Enqueue.SourceHandle cf) n) (tr w) (tr w'))
    (trace e (Enqueue Abs cf alias msg) w) /\
  enqueue_post cf alias msg n (tr w) (run e (Enqueue Abs cf alias msg) w).1 (run e (Enqueue Abs cf alias msg) w).2.
Proof.
  intros Hr Hh Hn. pose proof (wpi_Enqueue e Abs cf alias msg Hr Hh n w Hn) as Hw.
  split; [by eapply wpi_trace|by apply wpi_run in Hw].
Qed.

(** ** Bob sends to green/carol; the courier's default is red/alice *)

Definition sample_enqueue : EnqueueConfig := MkEnqueueConfig "/queue" "blue" "bob" (Some ["red/alice"; "green/carol"]).
Definition at_root (s : string) : path + gerr := inl [].
Definition enqueued : (EnqueueResult * option gerr) * world :=
  run quiet_env (Enqueue at_root sample_enqueue "green/carol" spool_message) (bridge_world []).

Example enqueue_complete_witness :
  (enqueued.1.2 = None /\ er_Filename enqueued.1.1 = "m1.md") /\
  enqueue_post sample_enqueue "green/carol" spool_message "m1.md" (tr (bridge_world [])) enqueued.1 enqueued.2.
Proof.
  split; [split; vm_compute; reflexivity|].
  apply (enqueue_complete quiet_env at_root sample_enqueue "green/carol" spool_message "m1.md" (bridge_world []));
    [reflexivity|vm_compute; reflexivity|vm_compute; reflexivity].
Defined.

(** The destinations a courier would send to, looking at the spool of this world. *)
Definition spool_dests (w : world) : list string :=
  match (run quiet_env (@readSpool toy_crypto (MkCourier sample_config ["queue"] (spool_dir "bob")
    {["red/alice"; "blue/bob"; "green/carol"]} {["red"]} "blue/bob" "blue" "bob" "blue"
    (Some (@MkHostKey toy_crypto "1" tt)) ["bridge"; "receipts"])) w).1 with
  | inl items => DestAlias ∘ it_env <$> items
  | inr _ => []
  end.

(** Between the message and its destination file, a courier sends the message to its default
    destination, which is not the one that was asked for. *)
Example enqueue_race :
  spool_dests enqueued.2 = ["green/carol"] /\
  existsb (fun w => bool_decide (spool_dests w = ["red/alice"]))
    (trace quiet_env (Enqueue at_root sample_enqueue "green/carol" spool_message) (bridge_world [])) = true.
Proof. split; vm_compute; reflexivity. Qed.
