(* ===== verification/Swarm.v ===== *)
(** Agent Teams tasks and members: internal/swarm (paths.go, tasks.go, team.go) and
    internal/lock (lock_unix.go).

    [home] is the home directory as a path of the tree.  strings.EqualFold compares runes under
    Unicode case folding; here it is a parameter, as is the text encoding/json prints for the
    float64 a number of a file was read as.  A panic (assigning to a nil map) is an error that
    no caller handles. *)
From S2P Require Import Prelude GoStr GoSort GoTime GoPath GoErr Fs Wp Json JsonFacts JsonStruct Encode.
From S2P Require Ambient Format DeliveryRoot.

(** ** paths.go *)

Definition claudeHome (home : path) : path := Join_under home [".claude"].
Definition ClaudeTeamsDir (home : path) : path := Join_under (claudeHome home) ["teams"].
Definition ClaudeTasksDir (home : path) : path := Join_under (claudeHome home) ["tasks"].
Definition TeamConfigPath (home : path) (team : string) : path := Join_under (ClaudeTeamsDir home) [team; "config.json"].
Definition TeamTasksDir (home : path) (team : string) : path := Join_under (ClaudeTasksDir home) [team].

(** ** lock_unix.go *)

Definition WithExclusiveFileLock {A} (lockPath : path) (dflt : gerr -> A) (fn : prog A) : prog A :=
  let_ok f := sys (SOpenCreate lockPath) orelse x => Ret (dflt (Errorf "open lock file" (EErrno x))) in
  locked ← call (SFlock f);
  match locked with
  | Some e => _ ← sys (SClose f); Ret (dflt (Errorf "acquire lock" e))
  | None =>
    x ← fn;
    _ ← sys (SFunlock f);
    _ ← sys (SClose f);
    Ret x
  end.

(** ** tasks.go *)

Definition TaskStatusPending : string := "pending".
Definition TaskStatusInProgress : string := "in_progress".
Definition TaskStatusCompleted : string := "completed".
Definition TaskStatusFailed : string := "failed".
Definition TaskStatusBlocked : string := "blocked".

Record Task := MkTask {
  ID : string;
  Title : string;
  Description : string;
  Status : string;
  AssignedTo : string;
  DependsOn : option (list string);
  CreatedAt : string;
  UpdatedAt : string;
  Evidence : option (list (string * json));
  FailureReason : string;
  BlockReason : string;
}.
Definition zero_task : Task := MkTask "" "" "" "" "" None "" "" None "" "".

Definition task_fields : list string :=
  ["id"; "title"; "description"; "status"; "assigned_to"; "depends_on"; "created_at"; "updated_at"; "evidence";
   "failure_reason"; "block_reason"].

(** A value read into a Task that is there. *)
Definition task_from (old : Task) (j : json) : option Task :=
  match j with
  | JNull => Some old
  | JObj l =>
    let get {A} `{JsonField A} := @get A _ task_fields l in
    a1 ← get "id" (ID old); a2 ← get "title" (Title old); a3 ← get "description" (Description old);
    a4 ← get "status" (Status old); a5 ← get "assigned_to" (AssignedTo old); a6 ← get "depends_on" (DependsOn old);
    a7 ← get "created_at" (CreatedAt old); a8 ← get "updated_at" (UpdatedAt old); a9 ← get "evidence" (Evidence old);
    a10 ← get "failure_reason" (FailureReason old); a11 ← get "block_reason" (BlockReason old);
    Some (MkTask a1 a2 a3 a4 a5 a6 a7 a8 a9 a10 a11)
  | _ => None
  end.

(** The elements of an array are read over those of the slice. *)
Fixpoint tasks_from (old : list Task) (l : list json) : option (list Task) :=
  match l with
  | [] => Some []
  | j :: l' => t ← task_from (hd zero_task old) j; ts ← tasks_from (tl old) l'; Some (t :: ts)
  end.

#[global] Instance json_tasks : JsonField (list Task) := {|
  to_json _ := JNull;
  from_json old j := match j with JNull => Some [] | JArr l => tasks_from old l | _ => None end;
|}.

Definition parseTasksFromList (data : string) : list Task + gerr :=
  match j ← Unmarshal data; match j with
        | JNull => Some []
        | JObj l => get ["tasks"] l "tasks" []
        | _ => None
        end with
  | Some ts => inl ts
  | None => inr (EMsg "parse task list")
  end.

(** map[string]any: what is read from a text; [None] is the nil map. *)
Definition raw := list (string * json).
Definition read_raw (data : string) : option (option raw) :=
  j ← Unmarshal data; from_json (@None raw) j.

Definition member (l : raw) (k : string) : option json :=
  snd <$> List.find (fun kv => bool_decide (kv.1 = k)) l.
Definition text_of (l : raw) (k : string) : string :=
  match member l k with Some (JStr s) => s | _ => "" end.
Definition set (k : string) (v : json) (l : raw) : raw := key_insert k v l.
Definition unset (k : string) (l : raw) : raw := List.filter (fun kv => negb (bool_decide (kv.1 = k))) l.

Definition setOptionalObject (l : raw) (k : string) (value : option raw) : raw :=
  match value with None => unset k l | Some v => set k (JObj v) l end.

Definition setOptionalString (l : raw) (k value : string) : raw :=
  let value := TrimSpace value in
  if bool_decide (value = "") then unset k l else set k (JStr value) l.

Class Floats := float_text : string -> string.

Section swarm.
Context (home : path) (EqualFold : string -> string -> bool) `{Floats}.

(** encoding/json prints the number that was read. *)
Fixpoint print_any (j : json) : json :=
  match j with
  | JNum l => JNum (float_text l)
  | JArr l => JArr (List.map print_any l)
  | JObj l => JObj (List.map (fun kv => (kv.1, print_any kv.2)) l)
  | _ => j
  end.

(** The name of the temporary next to a file. *)
Definition tmp_path (p : path) (now : Z) : path := Dir p ++ [Base p +:+ ".tmp." +:+ itoa now].

Definition atomicWriteJSON (p : path) (v : json) : prog (option gerr) :=
  let data := MarshalIndent (print_any v) +:+ LF in
  now ← sys SNow;
  let tmpPath := tmp_path p now in
  if_err e := Ambient.write_new "temp file" tmpPath data then Ret (Some e) else
  if_err e := call (SRename tmpPath p) then
    _ ← sys (SRemove tmpPath); Ret (Some (Errorf "atomic rename" e)) else
  Ret None.

(** Tasks of the files of the directory; what cannot be read is left out. *)
Definition tasks_of_file (data : string) : list Task :=
  match j ← Unmarshal data; task_from zero_task j with
  | Some t => if negb (bool_decide (ID t = "")) then [t]
              else match parseTasksFromList data with inl l => l | inr _ => [] end
  | None => match parseTasksFromList data with inl l => l | inr _ => [] end
  end.

Fixpoint list_entries (dir : path) (entries : list (string * kind)) : prog (list Task) :=
  match entries with
  | [] => Ret []
  | (name, k) :: rest =>
    if bool_decide (k = KDir) || negb (HasSuffix name ".json") || HasPrefix name "." then list_entries dir rest else
    x ← Ambient.os_ReadFile (Join_under dir [name]);
    match x with
    | (_, Some _) => list_entries dir rest
    | (data, None) => ts ← list_entries dir rest; Ret (tasks_of_file data ++ ts)
    end
  end.

Definition ListTasks (team : string) : prog (list Task * option gerr) :=
  let tasksDir := TeamTasksDir home team in
  x ← Ambient.os_ReadFile (Join_under tasksDir ["tasks.json"]);
  match x with
  | (data, None) => Ret (match parseTasksFromList data with inl l => (l, None) | inr e => ([], Some e) end)
  | (_, Some err) =>
    if negb (os_IsNotExist err) then Ret ([], Some (Errorf "read tasks.json" err)) else
    y ← Ambient.os_ReadDir tasksDir;
    match y with
    | (_, Some err) => if os_IsNotExist err then Ret ([], None) else Ret ([], Some (Errorf "read tasks directory" err))
    | (entries, None) => ts ← list_entries tasksDir entries; Ret (ts, None)
    end
  end.

Definition withTasksLock (team : string) (fn : prog (option gerr)) : prog (option gerr) :=
  let dir := ClaudeTasksDir home in
  let lockPath := Join_under dir ["." +:+ team +:+ ".amq.lock"] in
  if_err e := call (SMkdirAll (Dir lockPath) 448) then Ret (Some (Errorf "ensure tasks root dir" e)) else
  WithExclusiveFileLock lockPath Some fn.

(** The first task with the id in a list, changed in place; [None] when there is none. *)
Fixpoint update_first (taskID : string) (mutate : raw -> prog (raw + gerr)) (items : list json)
  : prog (option (list json + gerr)) :=
  match items with
  | [] => Ret None
  | JObj task :: rest =>
    if bool_decide (text_of task "id" = taskID) then
      x ← mutate task;
      Ret (Some (match x with inl task' => inl (JObj task' :: rest) | inr e => inr e end))
    else x ← update_first taskID mutate rest;
         Ret (match x with Some (inl rest') => Some (inl (JObj task :: rest')) | y => y end)
  | item :: rest =>
    x ← update_first taskID mutate rest;
    Ret (match x with Some (inl rest') => Some (inl (item :: rest')) | y => y end)
  end.

Definition not_found : option gerr := Some (EMsg "task not found in team").

Definition updateTaskInList (p : path) (data taskID : string) (mutate : raw -> prog (raw + gerr)) : prog (option gerr) :=
  match read_raw data with
  | None => Ret (Some (EMsg "parse tasks.json"))
  | Some w =>
    let wrapper := default [] w in
    match member wrapper "tasks" with
    | Some (JArr items) =>
      x ← update_first taskID mutate items;
      match x with
      | None => Ret not_found
      | Some (inr e) => Ret (Some e)
      | Some (inl items') => atomicWriteJSON p (JObj (set "tasks" (JArr items') wrapper))
      end
    | _ => Ret (Some (EMsg "tasks.json missing tasks array"))
    end
  end.

Fixpoint update_entries (dir : path) (taskID : string) (mutate : raw -> prog (raw + gerr)) (entries : list (string * kind))
  : prog (option gerr) :=
  match entries with
  | [] => Ret not_found
  | (name, k) :: rest =>
    if bool_decide (k = KDir) || negb (HasSuffix name ".json") then update_entries dir taskID mutate rest else
    let p := Join_under dir [name] in
    x ← Ambient.os_ReadFile p;
    match x with
    | (_, Some _) => update_entries dir taskID mutate rest
    | (data, None) =>
      match read_raw data with
      | None => update_entries dir taskID mutate rest
      | Some r =>
        let l := default [] r in
        if bool_decide (text_of l "id" = taskID) then
          y ← mutate l;
          match y with
          | inr e => Ret (Some e)
          | inl l' => match r with
                      | None => Ret (Some (EMsg "panic: assignment to entry in nil map"))
                      | Some _ => atomicWriteJSON p (JObj l')
                      end
          end
        else match member l "tasks" with
             | Some (JArr items) =>
               y ← update_first taskID mutate items;
               match y with
               | None => update_entries dir taskID mutate rest
               | Some (inr e) => Ret (Some e)
               | Some (inl items') => atomicWriteJSON p (JObj (set "tasks" (JArr items') l))
               end
             | _ => update_entries dir taskID mutate rest
             end
      end
    end
  end.

Definition updateTaskRaw (team taskID : string) (mutate : raw -> prog (raw + gerr)) : prog (option gerr) :=
  let tasksDir := TeamTasksDir home team in
  let singleFile := Join_under tasksDir ["tasks.json"] in
  x ← Ambient.os_ReadFile singleFile;
  match x with
  | (data, None) => updateTaskInList singleFile data taskID mutate
  | (_, Some err) =>
    if negb (os_IsNotExist err) then Ret (Some (Errorf "read tasks.json" err)) else
    y ← Ambient.os_ReadDir tasksDir;
    match y with
    | (_, Some err) => if os_IsNotExist err then Ret not_found else Ret (Some (Errorf "read tasks directory" err))
    | (entries, None) => update_entries tasksDir taskID mutate entries
    end
  end.

(** The statuses by id; of tasks with the same id the last counts. *)
Definition statusMap (tasks : list Task) : gmap string string :=
  foldl (fun m t => <[ID t := Status t]> m) ∅ tasks.

Definition completed_in (m : gmap string string) (dep : string) : bool :=
  bool_decide (default "" (m !! dep) = TaskStatusCompleted).

Definition allDepsCompleted (deps : list string) (m : gmap string string) : bool := forallb (completed_in m) deps.

Definition stamp_now (l : raw) : prog (raw + gerr) :=
  now ← sys SNow; Ret (inl (set "updated_at" (JStr (Format_RFC3339 now)) l)).

Definition claim_mutate (agentID : string) (l : raw) : prog (raw + gerr) :=
  if bool_decide (text_of l "status" = TaskStatusCompleted) then Ret (inr (EMsg "task is already completed")) else
  let assigned := text_of l "assigned_to" in
  if negb (bool_decide (assigned = "")) && negb (EqualFold assigned agentID)
  then Ret (inr (EMsg "task is already assigned")) else
  stamp_now (unset "evidence" (unset "block_reason" (unset "failure_reason"
    (set "assigned_to" (JStr agentID) (set "status" (JStr TaskStatusInProgress) l))))).

Definition ClaimTask (team taskID agentID : string) : prog (option gerr) :=
  withTasksLock team (
    let_val tasks := ListTasks team orelse e => Ret (Some (Errorf "check dependencies" e)) in
    let m := statusMap tasks in
    let deps := match last (filter (fun t => ID t = taskID) tasks) with Some t => default [] (DependsOn t) | None => [] end in
    if negb (allDepsCompleted deps m) then Ret (Some (EMsg "task is blocked by incomplete dependencies")) else
    updateTaskRaw team taskID (claim_mutate agentID)).

Definition requireInProgress (status target : string) : option gerr :=
  if bool_decide (status = target) then Some (EMsg "task is already there")
  else if bool_decide (status = TaskStatusInProgress) then None
  else if bool_decide (status ∈ [TaskStatusPending; TaskStatusCompleted; TaskStatusFailed; TaskStatusBlocked])
  then Some (EMsg "task is not in progress")
  else Some (EMsg "task has invalid status").

Definition isAssignedToMe (assignedTo handle agentID : string) : bool :=
  EqualFold assignedTo handle || EqualFold assignedTo agentID.

Definition requireTaskAssignee (l : raw) (handle agentID : string) : option gerr :=
  let assigned := text_of l "assigned_to" in
  if bool_decide (assigned = "") || isAssignedToMe assigned handle agentID then None
  else Some (EMsg "task is assigned to another").

(** The common part of completing, failing and blocking: the checks, then the given changes. *)
Definition finish_mutate (target handle agentID : string) (change : raw -> raw) (l : raw) : prog (raw + gerr) :=
  match requireInProgress (text_of l "status") target with
  | Some e => Ret (inr e)
  | None =>
    match requireTaskAssignee l handle agentID with
    | Some e => Ret (inr e)
    | None => stamp_now (change (set "status" (JStr target) l))
    end
  end.

Definition CompleteTask (team taskID handle agentID : string) (evidence : option raw) : prog (option gerr) :=
  withTasksLock team (updateTaskRaw team taskID (finish_mutate TaskStatusCompleted handle agentID (fun l =>
    setOptionalObject (unset "block_reason" (unset "failure_reason" l)) "evidence" evidence))).

Definition FailTask (team taskID handle agentID reason : string) : prog (option gerr) :=
  withTasksLock team (updateTaskRaw team taskID (finish_mutate TaskStatusFailed handle agentID (fun l =>
    setOptionalString (unset "block_reason" l) "failure_reason" reason))).

Definition BlockTask (team taskID handle agentID reason : string) : prog (option gerr) :=
  withTasksLock team (updateTaskRaw team taskID (finish_mutate TaskStatusBlocked handle agentID (fun l =>
    setOptionalString (unset "failure_reason" l) "block_reason" reason))).

(** ** team.go *)

Record Member := MkMember { m_Name : string; m_AgentID : string; m_AgentType : string }.

Definition readTeamConfigRaw (team : string) : prog (option raw + gerr) :=
  let_val data := Ambient.os_ReadFile (TeamConfigPath home team) orelse e => Ret (inr (Errorf "read team config" e)) in
  match read_raw data with
  | None => Ret (inr (EMsg "parse team config"))
  | Some r => Ret (inl r)
  end.

Definition raw_members (l : raw) : list json := match member l "members" with Some (JArr ms) => ms | _ => [] end.

(** The agent ids among the members. *)
Definition has_agent (agentID : string) (j : json) : bool :=
  match j with JObj m => bool_decide (text_of m "agent_id" = agentID) | _ => false end.

Definition config_lock (team : string) : path :=
  let p := TeamConfigPath home team in Dir p ++ [Base p +:+ ".lock"].

(** The members after one was added; a nil map cannot be assigned to. *)
Definition with_members (r : option raw) (ms : list json) : raw + gerr :=
  match r with
  | None => inr (EMsg "panic: assignment to entry in nil map")
  | Some l => inl (set "members" (JArr ms) l)
  end.

Definition RegisterMember (team : string) (m : Member) : prog (option gerr) :=
  WithExclusiveFileLock (config_lock team) Some (
    x ← readTeamConfigRaw team;
    match x with
    | inr e => Ret (Some e)
    | inl r =>
      let members := raw_members (default [] r) in
      if existsb (has_agent (m_AgentID m)) members then Ret (Some (EMsg "member already registered")) else
      let new := JObj [("agent_id", JStr (m_AgentID m)); ("agent_type", JStr (m_AgentType m)); ("name", JStr (m_Name m))] in
      match with_members r (members ++ [new]) with
      | inr e => Ret (Some e)
      | inl l => atomicWriteJSON (TeamConfigPath home team) (JObj l)
      end
    end).

Definition UnregisterMember (team agentID : string) : prog (option gerr) :=
  WithExclusiveFileLock (config_lock team) Some (
    x ← readTeamConfigRaw team;
    match x with
    | inr e => Ret (Some e)
    | inl r =>
      let members := raw_members (default [] r) in
      if negb (existsb (has_agent agentID) members) then Ret (Some (EMsg "member not found")) else
      match with_members r (List.filter (fun j => negb (has_agent agentID j)) members) with
      | inr e => Ret (Some e)
      | inl l => atomicWriteJSON (TeamConfigPath home team) (JObj l)
      end
    end).

Definition member_fields : list string := ["name"; "agent_id"; "agent_type"].
Definition member_from (old : Member) (j : json) : option Member :=
  match j with
  | JNull => Some old
  | JObj l =>
    let get {A} `{JsonField A} := @get A _ member_fields l in
    a1 ← get "name" (m_Name old); a2 ← get "agent_id" (m_AgentID old); a3 ← get "agent_type" (m_AgentType old);
    Some (MkMember a1 a2 a3)
  | _ => None
  end.
Fixpoint members_from (old : list Member) (l : list json) : option (list Member) :=
  match l with
  | [] => Some []
  | j :: l' => t ← member_from (hd (MkMember "" "" "") old) j; ts ← members_from (tl old) l'; Some (t :: ts)
  end.

#[local] Instance json_members : JsonField (list Member) := {|
  to_json _ := JNull;
  from_json old j := match j with JNull => Some [] | JArr l => members_from old l | _ => None end;
|}.

Record TeamConfig := MkTeam { tc_Name : string; tc_Lead : string; tc_Members : list Member }.

Definition team_of_json (j : json) : option TeamConfig :=
  match j with
  | JNull => Some (MkTeam "" "" [])
  | JObj l =>
    let get {A} `{JsonField A} := @get A _ ["name"; "lead"; "members"] l in
    a1 ← get "name" ""; a2 ← get "lead" ""; a3 ← get "members" [];
    Some (MkTeam a1 a2 a3)
  | _ => None
  end.

Definition LoadTeam (name : string) : prog (option TeamConfig * option gerr) :=
  let_val data := Ambient.os_ReadFile (TeamConfigPath home name) orelse e => Ret (None, Some (Errorf "read team config" e)) in
  match j ← Unmarshal data; team_of_json j with
  | None => Ret (None, Some (EMsg "parse team config"))
  | Some cfg => Ret (Some (if bool_decide (tc_Name cfg = "") then MkTeam name (tc_Lead cfg) (tc_Members cfg) else cfg), None)
  end.

Definition FindMember (tc : TeamConfig) (agentID : string) : option Member :=
  List.find (fun m => bool_decide (m_AgentID m = agentID)) (tc_Members tc).
Definition FindMemberByName (tc : TeamConfig) (name : string) : option Member :=
  List.find (fun m => bool_decide (m_Name m = name)) (tc_Members tc).

Record TeamSummary := MkSummary { ts_Name : string; ts_MemberCount : nat; ts_ConfigPath : path }.

Fixpoint summaries (entries : list (string * kind)) : prog (list TeamSummary) :=
  match entries with
  | [] => Ret []
  | (name, k) :: rest =>
    if negb (bool_decide (k = KDir)) || HasPrefix name "." then summaries rest else
    x ← LoadTeam name;
    let count := match x with (Some cfg, None) => length (tc_Members cfg) | _ => 0%nat end in
    r ← summaries rest;
    Ret (MkSummary name count (TeamConfigPath home name) :: r)
  end.

Definition DiscoverTeams : prog (list TeamSummary * option gerr) :=
  x ← Ambient.os_ReadDir (ClaudeTeamsDir home);
  match x with
  | (_, Some err) => if os_IsNotExist err then Ret ([], None) else Ret ([], Some (Errorf "read teams directory" err))
  | (entries, None) => l ← summaries entries; Ret (l, None)
  end.

End swarm.
