(* ===== verification/SwarmBoard.v ===== *)
(** The tasks of a file of a team as JSON: the two ways the code reads them (as structs and as
    maps) agree, and what is written is read back. *)
From S2P Require Import Prelude GoStr GoSort GoTime GoPath Json JsonFacts JsonStruct Encode GoErr Fs Wp JsonUtf8 Swarm.
From S2P Require Format MessageFormat ReceiptFacts.

(** ** Members *)

Definition keys (l : raw) : list string := l.*1.

Lemma member_cons k v l n : member ((k, v) :: l) n = if bool_decide (k = n) then Some v else member l n.
Proof. unfold member. cbn. by case_bool_decide. Qed.

Lemma member_None l n : n ∉ keys l -> member l n = None.
Proof.
  induction l as [|[k v] l IH]; [done|]. intros Hn. rewrite member_cons.
  rewrite bool_decide_eq_false_2 by (intros ->; apply Hn; by left). apply IH. intros ?. apply Hn. by right.
Qed.

Lemma member_key l n v : member l n = Some v -> n ∈ keys l.
Proof.
  intros H. destruct (decide (n ∈ keys l)) as [|Hn]; [done|]. by rewrite member_None in H.
Qed.

Lemma member_elem l n v : member l n = Some v -> (n, v) ∈ l.
Proof.
  induction l as [|[k x] l IH]; [done|]. rewrite member_cons. case_bool_decide; [|by right; auto].
  intros [= <-]. subst. by left.
Qed.

Lemma member_set k v l n : member (set k v l) n = if bool_decide (k = n) then Some v else member l n.
Proof.
  unfold set. induction l as [|[k' v'] l IH]; [apply member_cons|]. cbn [key_insert].
  destruct (str_ltb k k'); [apply member_cons|]. destruct (decide (k = k')) as [<-|E].
  - rewrite bool_decide_eq_true_2 by done. rewrite !member_cons. by case_bool_decide.
  - rewrite (bool_decide_eq_false_2 (k = k')) by done. rewrite !member_cons, IH. repeat case_bool_decide; congruence.
Qed.

Lemma member_unset k l n : member (unset k l) n = if bool_decide (k = n) then None else member l n.
Proof.
  unfold unset. induction l as [|[k' v'] l IH]; [by case_bool_decide|]. cbn [List.filter fst].
  destruct (decide (k' = k)) as [->|E].
  - rewrite bool_decide_eq_true_2 by done. cbn [negb]. rewrite IH, member_cons. by case_bool_decide.
  - rewrite (bool_decide_eq_false_2 (k' = k)) by done. cbn [negb]. rewrite !member_cons, IH. repeat case_bool_decide; congruence.
Qed.

Lemma member_map (f : json -> json) l n : member (List.map (fun kv => (kv.1, f kv.2)) l) n = f <$> member l n.
Proof.
  induction l as [|[k v] l IH]; [done|]. cbn [List.map fst snd]. rewrite !member_cons, IH. by case_bool_decide.
Qed.

Lemma keys_map (f : json -> json) l : keys (List.map (fun kv => (kv.1, f kv.2)) l) = keys l.
Proof. unfold keys. induction l as [|[k v] l IH]; [done|]. cbn. by f_equal. Qed.

Lemma keys_set k v l n : n ∈ keys (set k v l) -> n = k \/ n ∈ keys l.
Proof.
  unfold set, keys. induction l as [|[k' v'] l IH]; cbn; [set_solver|].
  destruct (str_ltb k k'); [set_solver|]. case_bool_decide; cbn; [set_solver|].
  intros [->|Hn]%elem_of_cons; [right; by left|]. destruct (IH Hn); [by left|right; by right].
Qed.

Lemma keys_unset k l n : n ∈ keys (unset k l) -> n ∈ keys l.
Proof.
  unfold unset, keys. induction l as [|[k' v'] l IH]; [done|]. cbn. case_bool_decide; cbn; [by right; auto|].
  intros [->|Hn]%elem_of_cons; [by left|right; auto].
Qed.

(** Sorted keys are different. *)
Lemma sorted_nodup (l : raw) : keys_sorted l -> NoDup (keys l).
Proof.
  induction l as [|[k v] l IH]; [constructor|]. intros [Hs Hall]%StronglySorted_inv. apply NoDup_cons. split; [|by apply IH].
  intros Hin. apply list_elem_of_fmap in Hin as ([k' v'] & E & Hin). rewrite Forall_forall in Hall.
  apply Hall in Hin. cbn in *. subst. by rewrite str_ltb_irrefl in Hin.
Qed.

Lemma unset_sorted k (l : raw) : keys_sorted l -> keys_sorted (unset k l).
Proof.
  unfold unset, keys_sorted. induction 1 as [|[k' v'] l Hs IH Hall]; [constructor|]. cbn.
  case_bool_decide; cbn; [done|]. constructor; [done|]. rewrite Forall_forall in *. intros x Hx. apply Hall.
  apply list_elem_of_In, filter_In in Hx as [Hx _]. by apply list_elem_of_In.
Qed.

Lemma set_sorted k v (l : raw) : keys_sorted l -> keys_sorted (set k v l).
Proof. intros H. by apply key_insert_sorted. Qed.

(** The map a list of members makes. *)
Definition as_map (l : raw) : raw := foldl (fun m kv => key_insert kv.1 kv.2 m) [] (List.map (fun kv => (kv.1, Format.to_any kv.2)) l).

Lemma as_map_sorted l : keys_sorted (as_map l).
Proof. apply key_inserts_sorted. constructor. Qed.

Lemma member_inserts acc l n : NoDup (keys l) ->
  member (foldl (fun m kv => key_insert kv.1 kv.2 m) acc l) n =
  match member l n with Some v => Some v | None => member acc n end.
Proof.
  revert acc; induction l as [|[k v] l IH]; intros acc; [done|]. intros [Hk Hnd]%NoDup_cons. cbn [foldl fst snd].
  rewrite IH by done. rewrite member_cons. change (key_insert k v acc) with (set k v acc). rewrite member_set.
  case_bool_decide as E; [|done]. subst. by rewrite (member_None l) by done.
Qed.

Lemma member_as_map l n : NoDup (keys l) -> member (as_map l) n = Format.to_any <$> member l n.
Proof.
  intros Hnd. unfold as_map. rewrite member_inserts by (by rewrite keys_map). rewrite member_map.
  by destruct (member l n).
Qed.

Lemma keys_as_map l n : n ∈ keys (as_map l) -> n ∈ keys l.
Proof.
  unfold as_map. rewrite <-(keys_map Format.to_any l). generalize (List.map (fun kv => (kv.1, Format.to_any kv.2)) l) as m.
  assert (forall m acc, n ∈ keys (foldl (fun m kv => key_insert kv.1 kv.2 m) acc m) -> n ∈ keys acc \/ n ∈ keys m) as H.
  { induction m as [|[k v] m IH]; intros acc; [by left|]. cbn [foldl fst snd]. intros [Hn|Hn]%IH.
    - change (key_insert k v acc) with (set k v acc) in Hn. apply keys_set in Hn as [->|Hn]; [right; by left|by left].
    - right. by right. }
  intros m [Hn|Hn]%H; [by apply elem_of_nil in Hn|done].
Qed.

(** ** Members with the exact names of the fields *)

(** No member is for a field because its name is equal up to case only. *)
Definition exact (names : list string) (l : raw) : Prop :=
  NoDup (keys l) /\ forall k n, k ∈ keys l -> field_of names k = Some n -> n = k.

Lemma exact_sub names l l' : exact names l -> NoDup (keys l') ->
  (forall k, k ∈ keys l' -> k ∈ keys l \/ bool_decide (k ∈ names) = true) -> exact names l'.
Proof.
  intros [_ He] Hnd Hk. split; [done|]. intros k n Hin Hf. destruct (Hk k Hin) as [?|Hk']; [by apply He|].
  rewrite field_of_name in Hf by done. congruence.
Qed.

Section get_exact.
Context {A : Type} `{JsonField A} (names : list string).

Lemma get_none l n (a : A) : (forall k, k ∈ keys l -> field_of names k <> Some n) -> get names l n a = Some a.
Proof.
  induction l as [|[k v] l IH]; intros Hl; [done|]. cbn. rewrite bool_decide_eq_false_2 by (apply Hl; by left).
  apply IH. intros k' ?. apply Hl. by right.
Qed.

Definition fld (l : raw) (n : string) (a : A) : option A :=
  match member l n with Some v => from_json a v | None => Some a end.

Lemma get_exact l n (a : A) : exact names l -> bool_decide (n ∈ names) = true -> get names l n a = fld l n a.
Proof.
  unfold fld. induction l as [|[k v] l IH]; intros [Hnd He] Hn; [done|]. apply NoDup_cons in Hnd as [Hk Hnd].
  cbn [get]. rewrite member_cons. destruct (decide (field_of names k = Some n)) as [Ef|Ef].
  - rewrite (bool_decide_eq_true_2 _ Ef). assert (n = k) as -> by (apply He; [by left|done]). rewrite bool_decide_eq_true_2 by done.
    destruct (from_json a v) as [a'|]; [|done]. cbn. apply get_none. intros k' Hk' Hf.
    apply Hk. by rewrite (He k' k) by (done || by right).
  - rewrite (bool_decide_eq_false_2 _ Ef).
    rewrite bool_decide_eq_false_2 by (intros ->; by rewrite field_of_name in Ef).
    apply IH; [|done]. split; [done|]. intros k' n' ?. apply He. by right.
Qed.
End get_exact.

(** ** What is read can be written *)

(** The strings and the keys are valid UTF-8, at every level. *)
Fixpoint utf8_json (j : json) : bool :=
  match j with
  | JStr s => utf8_valid s
  | JArr l => forallb utf8_json l
  | JObj l => forallb (fun kv => utf8_valid kv.1 && utf8_json kv.2) l
  | _ => true
  end.

Definition utf8_members (l : raw) : bool := forallb (fun kv => utf8_valid kv.1 && utf8_json kv.2) l.

Lemma value_utf8 n :
  (forall s j r, value n s = Some (j, r) -> utf8_json j = true) /\
  (forall s l r, members n s = Some (l, r) -> utf8_members l = true) /\
  (forall s l r, elems n s = Some (l, r) -> forallb utf8_json l = true).
Proof.
  induction n as [|n (IHv & IHm & IHe)]; [done|]. split_and!; intros s j r; cbn [value members elems].
  - destruct (skip_ws s) as [|c s']; [done|]. destruct (Ascii.eqb c (chr 34)).
    { destruct (unquote s') as [[x r']|] eqn:Eu; [|done]. intros [= <- <-]. by eapply unquote_valid. }
    destruct (Ascii.eqb c (chr 123)).
    { destruct (HasPrefix _ _); [by intros [= <- <-]|]. destruct (members n s') as [[l r']|] eqn:Em; [|done].
      intros [= <- <-]. by eapply IHm. }
    destruct (Ascii.eqb c (chr 91)).
    { destruct (HasPrefix _ _); [by intros [= <- <-]|]. destruct (elems n s') as [[l r']|] eqn:Ee; [|done].
      intros [= <- <-]. by eapply IHe. }
    do 3 (destruct (HasPrefix (String c s') _); [by intros [= <- <-]|]). destruct (scan_number _) as [[l r']|]; [|done]. by intros [= <- <-].
  - destruct (skip_ws s) as [|q s']; [done|]. destruct (negb _); [done|].
    destruct (unquote s') as [[k r']|] eqn:Eu; [|done]. cbn [mbind option_bind]. destruct (skip_ws r') as [|c s2]; [done|].
    destruct (negb _); [done|]. destruct (value n s2) as [[v r2]|] eqn:Ev; [|done]. cbn [mbind option_bind].
    apply IHv in Ev. apply unquote_valid in Eu. destruct (skip_ws r2) as [|c2 s3]; [done|]. destruct (Ascii.eqb c2 (chr 44)).
    + destruct (members n s3) as [[l r3]|] eqn:Em; [|done]. intros [= <- <-]. apply IHm in Em.
      unfold utf8_members in *. cbn [forallb fst snd]. by rewrite Eu, Ev.
    + destruct (Ascii.eqb c2 (chr 125)); [|done]. intros [= <- <-]. unfold utf8_members. cbn [forallb fst snd]. by rewrite Eu, Ev.
  - destruct (value n s) as [[v r2]|] eqn:Ev; [|done]. cbn [mbind option_bind]. apply IHv in Ev.
    destruct (skip_ws r2) as [|c2 s3]; [done|]. destruct (Ascii.eqb c2 (chr 44)).
    + destruct (elems n s3) as [[l r3]|] eqn:Em; [|done]. intros [= <- <-]. apply IHe in Em. cbn. by rewrite Ev.
    + destruct (Ascii.eqb c2 (chr 93)); [|done]. intros [= <- <-]. cbn. by rewrite Ev.
Qed.

Lemma Unmarshal_utf8 s j : Unmarshal s = Some j -> utf8_json j = true.
Proof.
  unfold Unmarshal. destruct (Decode s) as [[j' r]|] eqn:Ed; [|done]. cbn. case_match; [|done]. intros [= <-].
  by eapply value_utf8.
Qed.

Lemma key_insert_in k v (l : raw) x : x ∈ key_insert k v l -> x = (k, v) \/ x ∈ l.
Proof.
  induction l as [|[k' v'] l IH]; cbn [key_insert]; [by intros ?%list_elem_of_singleton; left|].
  destruct (str_ltb k k'); [by intros [->|?]%elem_of_cons; [left|right]|].
  case_bool_decide; intros [->|Hx]%elem_of_cons; [by left|right; by right|right; by left|].
  destruct (IH Hx); [by left|right; by right].
Qed.

(** The members of the map a list of members makes. *)
Lemma as_map_elem l k v : (k, v) ∈ as_map l -> exists v0, (k, v0) ∈ l /\ v = Format.to_any v0.
Proof.
  unfold as_map. assert (forall m acc, (k, v) ∈ foldl (fun m kv => key_insert kv.1 kv.2 m) acc m -> (k, v) ∈ acc \/ (k, v) ∈ m) as H.
  { induction m as [|[k' v'] m IH]; intros acc; [by left|]. cbn [foldl fst snd]. intros [Hn|Hn]%IH; [|right; by right].
    apply key_insert_in in Hn as [[= -> ->]|Hn]; [right; by left|by left]. }
  intros [Hn|Hn]%H; [by apply elem_of_nil in Hn|]. apply list_elem_of_In, in_map_iff in Hn as ([k0 v0] & [= <- <-] & Hin).
  exists v0. split; [by apply list_elem_of_In|done].
Qed.

Lemma forallb_elem {A} (f : A -> bool) l : forallb f l = true <-> forall x, x ∈ l -> f x = true.
Proof. rewrite forallb_forall. by setoid_rewrite list_elem_of_In. Qed.

Lemma forallb_map_true {A B} (f : A -> B) (P : A -> bool) (R : B -> bool) l :
  Forall (fun x => P x = true -> R (f x) = true) l -> forallb P l = true -> forallb R (List.map f l) = true.
Proof.
  induction 1 as [|x l Hx _ IH]; [done|]. cbn. rewrite !andb_true_iff. intros [? ?]. auto.
Qed.

Lemma to_any_utf8 j : utf8_json j = true -> utf8_json (Format.to_any j) = true.
Proof.
  induction j as [| | | |l IH|l IH] using json_rec'; try done.
  - cbn. by apply forallb_map_true.
  - rewrite Forall_forall in IH. cbn [Format.to_any utf8_json]. fold (as_map l). rewrite !forallb_elem. intros Hl [k v] Hkv.
    apply as_map_elem in Hkv as (v0 & Hin & ->). pose proof (Hl _ Hin) as [Hk Hv]%andb_true_iff. cbn [fst snd] in *.
    rewrite Hk. by apply (IH (k, v0)).
Qed.

Lemma to_any_any_ok j : Format.any_ok j = true -> Format.any_ok (Format.to_any j) = true.
Proof.
  induction j as [| | | |l IH|l IH] using json_rec'; try done.
  - cbn. by apply forallb_map_true.
  - rewrite Forall_forall in IH. cbn [Format.to_any Format.any_ok]. fold (as_map l). rewrite !forallb_elem. intros Hl [k v] Hkv.
    apply as_map_elem in Hkv as (v0 & Hin & ->). apply (IH (k, v0)); [done|]. by apply (Hl (k, v0)).
Qed.

(** What encoding/json prints for a float64 is a number that is read as a float64. *)
Class FloatsLaw `{Floats} : Prop :=
  float_text_ok : forall l, Format.float64_ok l = true -> is_number (float_text l) = true /\ Format.float64_ok (float_text l) = true.

Section print.
Context `{FloatsLaw}.

Lemma print_any_num j : Format.any_ok j = true -> Format.any_ok (print_any j) = true.
Proof.
  induction j as [| |n| |l IH|l IH] using json_rec'; try done.
  - cbn. intros Hn. by destruct (float_text_ok n Hn).
  - cbn. by apply forallb_map_true.
  - cbn. by apply forallb_map_true.
Qed.

Lemma print_any_utf8 j : utf8_json j = true -> utf8_json (print_any j) = true.
Proof.
  induction j as [| | | |l IH|l IH] using json_rec'; try done; cbn; apply forallb_map_true; [done|].
  eapply Forall_impl; [exact IH|]. intros [k v] Hv. cbn in *. by intros [-> ?%Hv]%andb_true_iff.
Qed.

Lemma print_any_wf j : utf8_json j = true -> Format.any_ok j = true -> wf_json (print_any j) = true.
Proof.
  induction j as [| |n| |l IH|l IH] using json_rec'; try done.
  - cbn. intros _ Hn. by destruct (float_text_ok n Hn).
  - rewrite Forall_forall in IH. cbn. rewrite !forallb_elem. intros Hu Ha x Hx.
    apply list_elem_of_In, in_map_iff in Hx as (y & <- & Hy%list_elem_of_In). by apply IH; auto.
  - rewrite Forall_forall in IH. cbn. rewrite !forallb_elem. intros Hu Ha x Hx.
    apply list_elem_of_In, in_map_iff in Hx as ([k y] & <- & Hy%list_elem_of_In). cbn [fst snd].
    pose proof (Hu _ Hy) as [Hk Hv]%andb_true_iff. cbn [fst snd] in *. rewrite Hk. exact (IH _ Hy Hv (Ha _ Hy)).
Qed.
End print.

(** The tasks of a team as a board: the abstract machine of claiming and finishing tasks, and
    how the JSON of a tasks file stands for a board. *)

(** ** The abstract machine *)

Record atask := MkA {
  a_id : string;
  a_status : string;
  a_who : string;
  a_deps : list string;
  a_failure : string;
  a_block : string;
}.
Definition board := list atask.

Inductive act :=
| Claim (agent : string)
| Complete (handle agent : string) (evidence : option raw)
| FailWith (handle agent reason : string)
| BlockWith (handle agent reason : string).

(** A task of the board is completed. *)
Definition done_in (b : board) (id : string) : Prop := exists t, t ∈ b /\ a_id t = id /\ a_status t = TaskStatusCompleted.

Section machine.
Context (EqualFold : string -> string -> bool).

Definition mine (t : atask) (handle agent : string) : Prop :=
  a_who t = "" \/ isAssignedToMe EqualFold (a_who t) handle agent = true.

(** What an act makes of a task of the board. *)
Inductive moves (b : board) : act -> atask -> atask -> Prop :=
| mv_claim t agent :
    Forall (done_in b) (a_deps t) -> a_status t <> TaskStatusCompleted ->
    a_who t = "" \/ EqualFold (a_who t) agent = true ->
    moves b (Claim agent) t (MkA (a_id t) TaskStatusInProgress agent (a_deps t) "" "")
| mv_complete t handle agent evidence :
    a_status t = TaskStatusInProgress -> mine t handle agent ->
    moves b (Complete handle agent evidence) t (MkA (a_id t) TaskStatusCompleted (a_who t) (a_deps t) "" "")
| mv_fail t handle agent reason :
    a_status t = TaskStatusInProgress -> mine t handle agent ->
    moves b (FailWith handle agent reason) t (MkA (a_id t) TaskStatusFailed (a_who t) (a_deps t) (TrimSpace reason) "")
| mv_block t handle agent reason :
    a_status t = TaskStatusInProgress -> mine t handle agent ->
    moves b (BlockWith handle agent reason) t (MkA (a_id t) TaskStatusBlocked (a_who t) (a_deps t) "" (TrimSpace reason)).

(** A step changes the first task with the id. *)
Inductive step : board -> string * act -> board -> Prop :=
| step_at b1 t b2 a t' :
    (forall x, x ∈ b1 -> a_id x <> a_id t) -> moves (b1 ++ t :: b2) a t t' ->
    step (b1 ++ t :: b2) (a_id t, a) (b1 ++ t' :: b2).

Definition reaches : relation board := rtc (fun b b' => exists l, step b l b').

Lemma moves_id b a t t' : moves b a t t' -> a_id t' = a_id t /\ a_deps t' = a_deps t.
Proof. by destruct 1. Qed.

(** The tasks are the same ones, with the same dependencies, in the same order. *)
Lemma step_ids b l b' : step b l b' -> a_id <$> b' = a_id <$> b.
Proof.
  intros [b1 t b2 a t' _ Hm]. apply moves_id in Hm as [E _]. rewrite !fmap_app, !fmap_cons. by rewrite E.
Qed.

Lemma reaches_ids b b' : reaches b b' -> a_id <$> b' = a_id <$> b.
Proof. induction 1 as [|b b1 b2 [l Hs] _ IH]; [done|]. rewrite IH. by eapply step_ids. Qed.

(** What is completed stays completed. *)
Lemma step_done b l b' id : NoDup (a_id <$> b) -> step b l b' -> done_in b id -> done_in b' id.
Proof.
  intros Hnd [b1 t b2 a t' Hfirst Hm] (x & Hx & Hid & Hst).
  apply elem_of_app in Hx as [Hx|[->|Hx]%elem_of_cons].
  - exists x. split_and!; [apply elem_of_app; by left|done..].
  - inversion Hm; subst; unfold TaskStatusCompleted, TaskStatusInProgress in *; congruence.
  - exists x. split_and!; [apply elem_of_app; right; by right|done..].
Qed.

(** ** Dependencies are respected *)

(** Whatever has been started has its dependencies completed. *)
Definition gated (b : board) : Prop :=
  Forall (fun t => a_status t <> TaskStatusPending -> Forall (done_in b) (a_deps t)) b.

Lemma step_gated b l b' : NoDup (a_id <$> b) -> gated b -> step b l b' -> gated b'.
Proof.
  intros Hnd Hg Hs. assert (forall l, Forall (done_in b) l -> Forall (done_in b') l) as Hup.
  { intros ds Hd. eapply Forall_impl; [exact Hd|]. intros x. by eapply step_done. }
  destruct Hs as [b1 t b2 a t' Hfirst Hm]. unfold gated in *. rewrite Forall_app, Forall_cons in *.
  destruct Hg as (G1 & Gt & G2).
  assert (forall bs, Forall (fun x => a_status x <> TaskStatusPending -> Forall (done_in (b1 ++ t :: b2)) (a_deps x)) bs ->
    Forall (fun x => a_status x <> TaskStatusPending -> Forall (done_in (b1 ++ t' :: b2)) (a_deps x)) bs) as Hall.
  { intros bs Hbs. eapply Forall_impl; [exact Hbs|]. intros x Hx Hp. by apply Hup, Hx. }
  split_and!; [by apply Hall| |by apply Hall]. intros _. rewrite (proj2 (moves_id _ _ _ _ Hm)). apply Hup.
  inversion Hm; subst; try done; apply Gt; unfold TaskStatusPending, TaskStatusInProgress in *; congruence.
Qed.

Lemma reaches_gated b b' : NoDup (a_id <$> b) -> gated b -> reaches b b' ->
  gated b' /\ forall id, done_in b id -> done_in b' id.
Proof.
  intros Hnd Hg Hr. induction Hr as [|b b1 b2 [l Hs] _ IH]; [done|].
  destruct IH as [G D]; [by rewrite (step_ids _ _ _ Hs)|by eapply step_gated|].
  split; [done|]. intros id Hd. by eapply D, step_done.
Qed.
End machine.

(** ** Tasks as maps *)

Definition abs (t : Task) : atask :=
  MkA (ID t) (Status t) (AssignedTo t) (default [] (DependsOn t)) (FailureReason t) (BlockReason t).

(** A map read as a task. *)
Definition task_of (m : raw) : option Task :=
  a1 ← fld m "id" ""; a2 ← fld m "title" ""; a3 ← fld m "description" ""; a4 ← fld m "status" "";
  a5 ← fld m "assigned_to" ""; a6 ← fld m "depends_on" None; a7 ← fld m "created_at" ""; a8 ← fld m "updated_at" "";
  a9 ← fld m "evidence" None; a10 ← fld m "failure_reason" ""; a11 ← fld m "block_reason" "";
  Some (MkTask a1 a2 a3 a4 a5 a6 a7 a8 a9 a10 a11).

Lemma task_from_exact o : exact task_fields o -> task_from zero_task (JObj o) = task_of o.
Proof. intros He. unfold task_from, task_of. cbn [ID Title Description Status AssignedTo DependsOn CreatedAt UpdatedAt Evidence FailureReason BlockReason zero_task]. by rewrite !get_exact. Qed.

(** The fields of a map that is a task. *)
Record task_fields_of (m : raw) (t : Task) : Prop := {
  tf1 : fld m "id" "" = Some (ID t);
  tf2 : fld m "title" "" = Some (Title t);
  tf3 : fld m "description" "" = Some (Description t);
  tf4 : fld m "status" "" = Some (Status t);
  tf5 : fld m "assigned_to" "" = Some (AssignedTo t);
  tf6 : fld m "depends_on" None = Some (DependsOn t);
  tf7 : fld m "created_at" "" = Some (CreatedAt t);
  tf8 : fld m "updated_at" "" = Some (UpdatedAt t);
  tf9 : fld m "evidence" None = Some (Evidence t);
  tf10 : fld m "failure_reason" "" = Some (FailureReason t);
  tf11 : fld m "block_reason" "" = Some (BlockReason t);
}.

Lemma task_of_Some m t : task_of m = Some t <-> task_fields_of m t.
Proof.
  split.
  - unfold task_of. intros Ht. repeat match type of Ht with mbind _ ?x = _ => destruct x eqn:?; [cbn in Ht|done] end.
    injection Ht as <-. by constructor.
  - intros [E1 E2 E3 E4 E5 E6 E7 E8 E9 E10 E11]. unfold task_of. rewrite E1, E2, E3, E4, E5, E6, E7, E8, E9, E10, E11. by destruct t.
Qed.

(** A change of values that reading into the fields of a task does not see. *)
Record unseen (f : json -> json) : Prop := {
  un_text : forall v, from_json "" (f v) = from_json "" v;
  un_slice : forall v, from_json (@None (list string)) (f v) = from_json None v;
  un_map : forall v, is_Some (from_json (@None raw) v) -> is_Some (from_json (@None raw) (f v));
}.

Lemma strings_from_unseen (f : json -> json) l : (forall s, f (JStr s) = JStr s) -> f JNull = JNull ->
  (forall j, match j with JStr _ | JNull => True | _ => match f j with JStr _ | JNull => False | _ => True end end) ->
  strings_from (List.map f l) = strings_from l.
Proof.
  intros Hs Hn Ho. induction l as [|j l IH]; [done|]. cbn [List.map]. specialize (Ho j).
  destruct j as [|x|x|x|x|x]; [rewrite Hn| | |rewrite Hs| |]; cbn [strings_from]; rewrite ?IH; try done;
    match type of Ho with context [f ?y] => by destruct (f y) end.
Qed.

Lemma to_any_unseen : unseen Format.to_any.
Proof.
  split.
  - by intros [].
  - intros []; try done. cbn. rewrite strings_from_unseen; try done. by intros [].
  - intros [| | | | |l]; try done. cbn -[forallb]. intros Hs.
    assert (forallb (fun kv : string * json => Format.any_ok kv.2) l = true) as Ha by (case_match; [done|by destruct Hs]).
    pose proof (to_any_any_ok (JObj l) Ha) as Ho. cbn -[forallb] in Ho. by rewrite Ho.
Qed.

Lemma print_any_unseen `{FloatsLaw} : unseen print_any.
Proof.
  split.
  - by intros [].
  - intros []; try done. cbn. rewrite strings_from_unseen; try done. by intros [].
  - intros [| | | | |l]; try done. cbn -[forallb]. intros Hs.
    assert (forallb (fun kv : string * json => Format.any_ok kv.2) l = true) as Ha by (case_match; [done|by destruct Hs]).
    pose proof (print_any_num (JObj l) Ha) as Ho. cbn -[forallb] in Ho. by rewrite Ho.
Qed.

Lemma task_of_unseen f o o' t : unseen f -> (forall n, member o' n = f <$> member o n) -> task_of o = Some t ->
  exists t', task_of o' = Some t' /\ abs t' = abs t.
Proof.
  intros [Ht Hs Hm] Ho Hto%task_of_Some.
  assert (forall n, fld o' n "" = fld o n "") as Et.
  { intros n. unfold fld. rewrite Ho. destruct (member o n); [apply Ht|done]. }
  assert (fld o' "depends_on" (@None (list string)) = fld o "depends_on" None) as Es.
  { unfold fld. rewrite Ho. destruct (member o "depends_on"); [apply Hs|done]. }
  assert (is_Some (fld o' "evidence" (@None raw))) as [ev Em].
  { pose proof (tf9 _ _ Hto) as H9. unfold fld in *. rewrite Ho. destruct (member o "evidence"); [|by eexists].
    apply Hm. by eexists. }
  exists (MkTask (ID t) (Title t) (Description t) (Status t) (AssignedTo t) (DependsOn t) (CreatedAt t) (UpdatedAt t) ev
    (FailureReason t) (BlockReason t)). split; [|done].
  apply task_of_Some. split; rewrite ?Et, ?Es; cbn; try done; apply Hto.
Qed.

Lemma text_of_fld m n s : fld m n "" = Some s -> text_of m n = s.
Proof. unfold fld, text_of. destruct (member m n) as [[]|]; cbn; congruence. Qed.

(** A map with the exact names of the fields that can be printed. *)
Record neat (names : list string) (m : raw) : Prop := {
  nt_sorted : keys_sorted m;
  nt_exact : exact names m;
  nt_utf8 : utf8_members m = true;
  nt_num : forallb (fun kv => Format.any_ok kv.2) m = true;
}.

Lemma fld_set {A} `{JsonField A} k v m n (a : A) :
  fld (set k v m) n a = if bool_decide (k = n) then from_json a v else fld m n a.
Proof. unfold fld. rewrite member_set. by case_bool_decide. Qed.

Lemma fld_unset {A} `{JsonField A} k m n (a : A) :
  fld (unset k m) n a = if bool_decide (k = n) then Some a else fld m n a.
Proof. unfold fld. rewrite member_unset. by case_bool_decide. Qed.

Lemma neat_set names k v m : neat names m -> bool_decide (k ∈ names) = true -> utf8_valid k = true -> utf8_json v = true ->
  Format.any_ok v = true -> neat names (set k v m).
Proof.
  intros [Hs He Hu Hn] Hk Hk8 Hv Ha. split.
  - by apply set_sorted.
  - eapply exact_sub; [exact He|by apply sorted_nodup, set_sorted|]. intros n [->|?]%keys_set; [by right|by left].
  - apply forallb_elem. intros x [->|Hx]%key_insert_in; cbn; [by rewrite Hk8, Hv|].
    by apply (proj1 (forallb_elem _ _) Hu).
  - apply forallb_elem. intros x [->|Hx]%key_insert_in; [done|]. by apply (proj1 (forallb_elem _ _) Hn).
Qed.

Lemma neat_unset names k m : neat names m -> neat names (unset k m).
Proof.
  intros [Hs He Hu Hn]. assert (forall x, x ∈ unset k m -> x ∈ m) as Hin.
  { intros x Hx. apply list_elem_of_In, filter_In in Hx as [Hx _]. by apply list_elem_of_In. }
  split.
  - by apply unset_sorted.
  - eapply exact_sub; [exact He|by apply sorted_nodup, unset_sorted|]. intros n ?%keys_unset. by left.
  - apply forallb_elem. intros x Hx%Hin. by apply (proj1 (forallb_elem _ _) Hu).
  - apply forallb_elem. intros x Hx%Hin. by apply (proj1 (forallb_elem _ _) Hn).
Qed.

Lemma neat_as_map names o : exact names o -> utf8_members o = true -> forallb (fun kv => Format.any_ok kv.2) o = true ->
  neat names (as_map o).
Proof.
  intros He Hu Hn. split.
  - apply as_map_sorted.
  - eapply exact_sub; [exact He|apply sorted_nodup, as_map_sorted|]. intros n ?%keys_as_map. by left.
  - apply (to_any_utf8 (JObj o) Hu).
  - apply (to_any_any_ok (JObj o) Hn).
Qed.

(** ** What the acts make of a map *)

(** Reads the fields of a map after members were set and removed, when [H] has them before. *)
Ltac fields H :=
  apply task_of_Some; split; unfold setOptionalObject, setOptionalString;
  repeat case_match; repeat (rewrite fld_set || rewrite fld_unset);
  repeat (rewrite bool_decide_eq_false_2 by done); repeat (rewrite bool_decide_eq_true_2 by done);
  cbn [from_json json_string ID Title Description Status AssignedTo DependsOn CreatedAt UpdatedAt Evidence FailureReason BlockReason];
  try apply H; try done.

Ltac neatly := repeat first [apply neat_set; [|done|done|done|done] | apply neat_unset].

Lemma neat_stamp now m : neat task_fields m -> neat task_fields (set "updated_at" (JStr (Format_RFC3339 now)) m).
Proof. intros Hm. apply neat_set; try done. apply stamp_utf8, Format_RFC3339_stamp. Qed.

(** The map is a task with this view. *)
Definition viewed (m : raw) (a : atask) : Prop := neat task_fields m /\ exists t, task_of m = Some t /\ abs t = a.

Lemma viewed_text m a : viewed m a ->
  text_of m "id" = a_id a /\ text_of m "status" = a_status a /\ text_of m "assigned_to" = a_who a.
Proof. intros (_ & t & H%task_of_Some & <-). split_and!; apply text_of_fld; apply H. Qed.

Lemma claim_viewed agent now m a : utf8_valid agent = true -> viewed m a ->
  viewed (set "updated_at" (JStr (Format_RFC3339 now)) (unset "evidence" (unset "block_reason" (unset "failure_reason"
    (set "assigned_to" (JStr agent) (set "status" (JStr TaskStatusInProgress) m))))))
    (MkA (a_id a) TaskStatusInProgress agent (a_deps a) "" "").
Proof.
  intros Hu (Hn & t & H%task_of_Some & <-). split; [apply neat_stamp; by neatly|].
  exists (MkTask (ID t) (Title t) (Description t) TaskStatusInProgress agent (DependsOn t) (CreatedAt t) (Format_RFC3339 now) None "" "").
  split; [|done]. fields H.
Qed.

Lemma complete_viewed ev now m a : utf8_json (JObj (default [] ev)) = true -> Format.any_ok (JObj (default [] ev)) = true ->
  viewed m a ->
  viewed (set "updated_at" (JStr (Format_RFC3339 now)) (setOptionalObject (unset "block_reason" (unset "failure_reason"
    (set "status" (JStr TaskStatusCompleted) m))) "evidence" ev))
    (MkA (a_id a) TaskStatusCompleted (a_who a) (a_deps a) "" "").
Proof.
  intros Hu Ha (Hn & t & H%task_of_Some & <-). split; [apply neat_stamp; unfold setOptionalObject; destruct ev; by neatly|].
  assert (exists o, from_json (@None raw) (match ev with Some v => JObj v | None => JNull end) = Some o) as [o Ho].
  { destruct ev; [|by eexists]. cbn -[forallb] in *. rewrite Ha. by eexists. }
  exists (MkTask (ID t) (Title t) (Description t) TaskStatusCompleted (AssignedTo t) (DependsOn t) (CreatedAt t) (Format_RFC3339 now)
    (match ev with Some _ => o | None => None end) "" "").
  split; [|done]. destruct ev; fields H.
Qed.

Lemma fail_viewed reason now m a : utf8_valid (TrimSpace reason) = true -> viewed m a ->
  viewed (set "updated_at" (JStr (Format_RFC3339 now)) (setOptionalString (unset "block_reason"
    (set "status" (JStr TaskStatusFailed) m)) "failure_reason" reason))
    (MkA (a_id a) TaskStatusFailed (a_who a) (a_deps a) (TrimSpace reason) "").
Proof.
  intros Hu (Hn & t & H%task_of_Some & <-). split.
  { apply neat_stamp. unfold setOptionalString. case_match; by neatly. }
  exists (MkTask (ID t) (Title t) (Description t) TaskStatusFailed (AssignedTo t) (DependsOn t) (CreatedAt t) (Format_RFC3339 now)
    (Evidence t) (TrimSpace reason) "").
  split; [|done]. unfold setOptionalString. case_bool_decide as E; [rewrite E|]; fields H.
Qed.

Lemma block_viewed reason now m a : utf8_valid (TrimSpace reason) = true -> viewed m a ->
  viewed (set "updated_at" (JStr (Format_RFC3339 now)) (setOptionalString (unset "failure_reason"
    (set "status" (JStr TaskStatusBlocked) m)) "block_reason" reason))
    (MkA (a_id a) TaskStatusBlocked (a_who a) (a_deps a) "" (TrimSpace reason)).
Proof.
  intros Hu (Hn & t & H%task_of_Some & <-). split.
  { apply neat_stamp. unfold setOptionalString. case_match; by neatly. }
  exists (MkTask (ID t) (Title t) (Description t) TaskStatusBlocked (AssignedTo t) (DependsOn t) (CreatedAt t) (Format_RFC3339 now)
    (Evidence t) "" (TrimSpace reason)).
  split; [|done]. unfold setOptionalString. case_bool_decide as E; [rewrite E|]; fields H.
Qed.

(** ** Files *)

(** A tasks file: the members have the exact names of the fields and appear once, and the tasks
    are those of the board. *)
Definition tidy (d : string) (b : board) : Prop :=
  exists l os, Unmarshal d = Some (JObj l) /\ exact ["tasks"] l /\ member l "tasks" = Some (JArr (JObj <$> os)) /\
    Format.any_ok (JObj l) = true /\
    Forall2 (fun o a => exact task_fields o /\ exists t, task_of o = Some t /\ abs t = a) os b.

Lemma tasks_from_exact os b :
  Forall2 (fun o a => exact task_fields o /\ exists t, task_of o = Some t /\ abs t = a) os b ->
  exists ts, tasks_from [] (JObj <$> os) = Some ts /\ abs <$> ts = b.
Proof.
  induction 1 as [|o a os b (He & t & Ht & <-) _ (ts & Hts & <-)]; [by exists []|].
  exists (t :: ts). split; [|done]. cbn [fmap list_fmap tasks_from hd tl]. rewrite task_from_exact, Ht by done.
  cbn. by rewrite Hts.
Qed.

(** Listing the tasks of the file gives the board. *)
Lemma tidy_list d b : tidy d b -> exists ts, parseTasksFromList d = inl ts /\ abs <$> ts = b.
Proof.
  intros (l & os & Hd & He & Hm & _ & Ho). destruct (tasks_from_exact _ _ Ho) as (ts & Hts & Hb).
  exists ts. split; [|done]. unfold parseTasksFromList. rewrite Hd. cbn [mbind option_bind].
  rewrite get_exact by done. unfold fld. rewrite Hm. cbn [from_json json_tasks]. by rewrite Hts.
Qed.

(** Reading it as a map does too. *)
Lemma tidy_raw d b : tidy d b ->
  exists w ms, read_raw d = Some (Some w) /\ neat ["tasks"] w /\ member w "tasks" = Some (JArr (JObj <$> ms)) /\
    Forall2 viewed ms b.
Proof.
  intros (l & os & Hd & He & Hm & Ha & Ho). pose proof (Unmarshal_utf8 _ _ Hd) as Hu.
  exists (as_map l), (as_map <$> os). split_and!.
  - unfold read_raw. rewrite Hd. cbn [mbind option_bind from_json Format.json_map]. cbn [Format.any_ok] in Ha. by rewrite Ha.
  - by apply neat_as_map.
  - rewrite member_as_map, Hm by apply He. cbn. do 2 f_equal.
    clear. induction os as [|o os IH]; [done|]. cbn. by rewrite IH.
  - apply member_elem in Hm. pose proof (proj1 (forallb_elem _ _) Hu _ Hm) as [_ Hu']%andb_true_iff.
    pose proof (proj1 (forallb_elem _ _) Ha _ Hm) as Ha'. cbn in Hu', Ha'. clear -Ho Hu' Ha'.
    induction Ho as [|o a os b (He & t & Ht & Hab) _ IH]; [constructor|].
    cbn in *. apply andb_true_iff in Hu' as [Hu1 Hu2]. apply andb_true_iff in Ha' as [Ha1 Ha2].
    constructor; [|by apply IH]. split; [by apply neat_as_map|]. subst a.
    eapply task_of_unseen; [apply to_any_unseen| |exact Ht]. intros n. apply member_as_map, He.
Qed.

Section file.
Context `{FloatsLaw}.

Definition file_text (w : raw) (ms : list raw) : string :=
  MarshalIndent (print_any (JObj (set "tasks" (JArr (JObj <$> ms)) w))) +:+ LF.

(** A file that is written is tidy. *)
Lemma tidy_written w ms b : neat ["tasks"] w -> Forall2 viewed ms b -> tidy (file_text w ms) b.
Proof.
  intros Hw Hv. assert (utf8_json (JArr (JObj <$> ms)) = true /\ Format.any_ok (JArr (JObj <$> ms)) = true) as [Hu Ha].
  { cbn. induction Hv as [|m a ms b ([_ _ Hu Hn] & _) _ [IH1 IH2]]; [done|].
    unfold utf8_members in Hu. cbn. by rewrite Hu, Hn. }
  assert (neat ["tasks"] (set "tasks" (JArr (JObj <$> ms)) w)) as [Hs He Hu' Hn'] by (by apply neat_set).
  set (f := fun m => List.map (fun kv : string * json => (kv.1, print_any kv.2)) m).
  exists (f (set "tasks" (JArr (JObj <$> ms)) w)), (f <$> ms). split_and!.
  - unfold file_text. rewrite ReceiptFacts.Unmarshal_line; [done|]. by apply print_any_wf.
  - destruct He as [Hnd Hex]. unfold f. split; [by rewrite keys_map|]. rewrite keys_map. done.
  - unfold f. rewrite member_map, member_set, bool_decide_eq_true_2 by done. cbn. do 2 f_equal.
    clear. induction ms as [|m ms IH]; [done|]. cbn. by rewrite IH.
  - apply (print_any_num (JObj (set "tasks" (JArr (JObj <$> ms)) w)) Hn').
  - clear -Hv H0. induction Hv as [|m a ms b ([_ [Hnd Hex] _ _] & t & Ht & <-) _ IH]; [constructor|].
    constructor; [|done]. unfold f. split; [split; rewrite keys_map; done|].
    eapply task_of_unseen; [apply print_any_unseen| |exact Ht]. intros n. apply member_map.
Qed.
End file.
