(* ===== verification/SwarmTasks.v ===== *)
(** Claiming and finishing tasks of a team implement the abstract machine of the board. *)
From S2P Require Import Prelude GoStr GoSort GoTime GoPath Json JsonFacts JsonStruct Encode GoErr Fs Wp FsFacts Names DeliveryRoot DeliveryRootFacts Sample AmbientFacts Delivery AtomicFacts Swarm SwarmBoard.
From S2P Require Ambient Format Retry.

(** ** Reading and replacing a file *)

Section files.
Context (e : env).

Lemma wpi_os_ReadFile I p d w : p <> [] -> t_parent (tr w) p = None -> content (tr w) p = Some d -> I (tr w) ->
  wpi e I (Ambient.os_ReadFile p) (fun x w' => tr w' = tr w /\
    (x = (d, None) \/ exists y, x = ("", Some y) /\ os_IsNotExist y = false)) w.
Proof.
  intros Hp Hpar Hc HI. destruct (content_file _ _ _ Hc) as (i & Hi & Hd). unfold Ambient.os_ReadFile.
  wbind. apply wpi_sys; [wexec; by case_match|]. wret. wexec. unfold t_open. cbn [t_follow].
  destruct (e_fault e (tick w)); cbn; [wret; split; [done|]; right; by eexists|].
  rewrite (t_node_lookup _ _ _ Hp Hpar Hi). cbn. wbind.
  apply wpi_sys; [wexec; by case_match|]. wret. wexec.
  destruct (e_fault e (S (tick w))); cbn; [wret; split; [done|]; right; by eexists|].
  rewrite Hd. wret. split; [done|]. by left.
Qed.

(** A file may have been created, at most. *)
Lemma wpi_SOpenCreate {A} I q (k : ior handle -> prog A) Q w :
  q <> [] -> (forall t, evo (eq q) (tr w) t -> I t) ->
  (forall x w', evo (eq q) (tr w) (tr w') -> wpi e I (k x) Q w') ->
  wpi e I (prog_bind (sys (SOpenCreate q)) k) Q w.
Proof.
  intros Hq HI Hk. assert (evo (eq q) (tr w) (tr (exec e (SOpenCreate q) w).2)) as Hev.
  { cbn. unfold upd. destruct (e_fault e (tick w)) as [ft|]; cbn; [done|].
    destruct (t_open_create (tr w) q) as [[h t]|x] eqn:Eo; cbn; [|done].
    unfold t_open_create in Eo. destruct (t_open (tr w) q) as [h'|x].
    { destruct (h_kind h'); by simplify_eq. }
    destruct x; try done. unfold t_open_excl in Eo. destruct q as [|c q]; [done|].
    destruct (t_parent (tr w) (c :: q)); [done|].
    destruct (dents (tr w) !! (c :: q)) eqn:Hn; [done|]. simplify_eq. by apply evo_add_file. }
  wbind. apply wpi_sys; [by apply HI|]. wret. by apply Hk.
Qed.

Lemma tmp_path_ne p now : p <> [] -> tmp_path p now <> p.
Proof.
  intros Hp E. unfold tmp_path in E. destruct (exists_last Hp) as (l & x & ->). unfold Dir, Base in E.
  rewrite last_snoc in E. cbn [default from_option id] in E.
  apply (f_equal last) in E. rewrite !last_snoc in E. injection E as E.
  apply (f_equal String.length) in E. rewrite !length_app_str in E. cbn in E. lia.
Qed.

Context `{Floats}.

(** The tree of a file that is replaced through a temporary: as it was, or with the new text. *)
Definition swapping (p : path) (d : string) (t t' : tree) : Prop :=
  (forall q, t_parent t q = None -> t_parent t' q = None) /\
  (content t' p = content t p \/ content t' p = Some d).

Lemma wpi_atomicWriteJSON I p v d0 w :
  p <> [] -> content (tr w) p = Some d0 ->
  let d := MarshalIndent (print_any v) +:+ LF in
  (forall t, swapping p d (tr w) t -> I t) ->
  wpi e I (atomicWriteJSON p v) (fun o w' => swapping p d (tr w) (tr w') /\
    content (tr w') p = match o with None => Some d | Some _ => Some d0 end) w.
Proof.
  intros Hp Hc0 d HI. unfold atomicWriteJSON. fold d.
  assert (forall t, evo (fun q => q <> p) (tr w) t -> swapping p d (tr w) t /\ content t p = Some d0) as Hevo.
  { intros t Ht. assert (content t p = Some d0) as Hc by (eapply evo_content; [exact Ht|by intros []|done]).
    split; [|done]. split; [intros q; by apply (evo_parent _ _ _ _ Ht)|]. left. by rewrite Hc. }
  apply wpi_ro_bind; [ro_tac|by apply HI, Hevo|]. intros now w1 Ht1 _. cbv zeta.
  set (tmp := tmp_path p now). pose proof (tmp_path_ne p now Hp : tmp <> p) as Hne.
  assert (tmp <> []) as Htn by (unfold tmp, tmp_path; by destruct (Dir p)).
  assert (forall t, evo (eq tmp) (tr w) t -> evo (fun q => q <> p) (tr w) t) as Hup.
  { intros t Ht. eapply evo_mono; [|exact Ht]. by intros q <-. }
  wbind. eapply wpi_mono; [apply wpi_write_new; rewrite Ht1; intros t Ht; by apply HI, Hevo, Hup|].
  intros o w2 (Hev2 & _ & Hw & _). rewrite Ht1 in *.
  destruct (Hevo _ (Hup _ Hev2)) as [Hs2 Hc2].
  destruct o as [x|]; [wret; done|]. destruct (Hw eq_refl) as (_ & _ & _ & Hcont).
  destruct (content_file _ _ _ Hcont) as (i & Hi & Hd).
  set (t' := set_dents (fun m => <[p := NFile i]> (delete tmp m)) (tr w2)).
  assert (swapping p d (tr w) t' /\ content t' p = Some d) as [Hs' Hc'].
  { assert (content t' p = Some d) as Hc' by (unfold content, t'; cbn; by rewrite lookup_insert_eq).
    split; [|done]. split; [|by right]. intros q Hq. apply Hs2 in Hq. eapply evo_parent; [|exact Hq].
    apply (evo_replace (fun _ => True)); try done. apply content_file in Hc2 as (j & Hj & _). congruence. }
  wbind. eapply wpi_mono; [apply (wpi_rename_file e I tmp p i); [done|done|done|by apply HI|intros _; by apply HI]|].
  intros o w3 (_ & [(-> & _ & Ht3)|(x & -> & Ht3)]); [wret; by rewrite Ht3|].
  assert (evo (fun q => q <> p) (tr w) (set_dents (delete tmp) (tr w2))) as Hdel.
  { etrans; [by apply Hup|]. eapply evo_mono; [|apply (evo_delete _ tmp)]; [by intros q <-|congruence]. }
  wbind. eapply wpi_mono; [apply wpi_remove_file; rewrite Ht3; [congruence|by apply HI|by apply HI, Hevo]|].
  intros y w4 (_ & _ & Hy). wret. rewrite Ht3 in Hy. destruct Hy as [[-> _]|[_ ->]]; [done|by apply Hevo].
Qed.
End files.

(** ** Changing the first task with an id *)

Section update.
Context (e : env) (EqualFold : string -> string -> bool).

(** A change of a map that the machine allows on a task of the board. *)
Definition allowed (b : board) (id : string) (a : act) (mutate : raw -> prog (raw + gerr)) : Prop :=
  forall m t I w, t ∈ b -> a_id t = id -> viewed m t -> I (tr w) ->
    wpi e I (mutate m) (fun x w' => tr w' = tr w /\
      forall m', x = inl m' -> exists t', moves EqualFold b a t t' /\ viewed m' t') w.

Lemma wpi_update_first b a id mutate I :
  allowed b id a mutate ->
  forall ms b2 b1 w, b = b1 ++ b2 -> Forall2 viewed ms b2 -> (forall x, x ∈ b1 -> a_id x <> id) -> I (tr w) ->
  wpi e I (update_first id mutate (JObj <$> ms)) (fun x w' => tr w' = tr w /\
    forall items, x = Some (inl items) -> exists ms' b', items = JObj <$> ms' /\ step EqualFold b (id, a) (b1 ++ b') /\ Forall2 viewed ms' b') w.
Proof.
  intros Hal ms. induction ms as [|m ms IH]; intros b2 b1 w Hb Hv Hfirst HI; cbn [fmap list_fmap update_first].
  { wret. done. }
  apply Forall2_cons_inv_l in Hv as (t & b3 & Hm & Hms & ->). destruct (viewed_text _ _ Hm) as (Hid & _ & _). rewrite Hid.
  case_bool_decide as Eid.
  - wbind. eapply wpi_mono; [apply Hal; try done; rewrite Hb; apply elem_of_app; right; by left|]. intros x w' [Ht Hx]. wret. split; [done|].
    intros items [= Hit]. destruct x as [m'|]; [|done]. injection Hit as <-. destruct (Hx m' eq_refl) as (t' & Hmv & Hv').
    exists (m' :: ms), (t' :: b3). split_and!; [done| |by constructor]. rewrite Hb, <-Eid. constructor; [by rewrite Eid|by rewrite <-Hb].
  - wbind. eapply wpi_mono; [apply (IH b3 (b1 ++ [t])); [by rewrite <-app_assoc|done| |done]|].
    { intros x [Hx|Hx]%elem_of_app; [by apply Hfirst|]. by apply list_elem_of_singleton in Hx as ->. }
    intros x w' [Ht Hx]. wret. split; [done|]. destruct x as [[rest|]|]; try done. intros items [= <-].
    destruct (Hx rest eq_refl) as (ms' & b' & -> & Hs & Hv'). exists (m :: ms'), (t :: b'). split_and!; [done| |by constructor].
    by rewrite <-app_assoc in Hs.
Qed.

(** ** The mutations *)

Lemma wpi_stamp I m (Q : raw + gerr -> world -> Prop) w : I (tr w) ->
  (forall now w', tr w' = tr w -> Q (inl (set "updated_at" (JStr (Format_RFC3339 now)) m)) w') ->
  wpi e I (stamp_now m) Q w.
Proof. intros HI HQ. unfold stamp_now. apply wpi_ro_bind; [ro_tac|done|]. intros now w' Ht _. wret. by apply HQ. Qed.

Lemma claim_allowed b id agent : utf8_valid agent = true ->
  (forall t, t ∈ b -> a_id t = id -> Forall (done_in b) (a_deps t)) ->
  allowed b id (Claim agent) (claim_mutate EqualFold agent).
Proof.
  intros Hu Hdeps m t I w Hin Hid Hv HI. destruct (viewed_text _ _ Hv) as (_ & Es & Ew). unfold claim_mutate. rewrite Es, Ew.
  case_bool_decide as E1; [by wret|]. destruct (negb _ && negb _) eqn:E2; [by wret|].
  apply wpi_stamp; [done|]. intros now w' Ht. split; [done|]. intros m' [= <-].
  eexists. split; [|by apply claim_viewed]. constructor; [by apply Hdeps|done|].
  apply andb_false_iff in E2 as [E2|E2]; apply negb_false_iff in E2; [left; by apply bool_decide_eq_true in E2|by right].
Qed.

Lemma finish_allowed b id a target handle agent change :
  (forall t, a_status t = TaskStatusInProgress -> mine EqualFold t handle agent -> forall m now, viewed m t ->
    exists t', moves EqualFold b a t t' /\ viewed (set "updated_at" (JStr (Format_RFC3339 now)) (change (set "status" (JStr target) m))) t') ->
  allowed b id a (finish_mutate EqualFold target handle agent change).
Proof.
  intros Hch m t I w Hin Hid Hv HI. destruct (viewed_text _ _ Hv) as (_ & Es & Ew).
  unfold finish_mutate, requireInProgress, requireTaskAssignee. rewrite Es, Ew.
  case_bool_decide as E1; [by wret|]. case_bool_decide as E2; [|case_bool_decide; by wret].
  destruct (_ || _) eqn:E3; [|by wret]. apply wpi_stamp; [done|]. intros now w' Ht. split; [done|]. intros m' [= <-].
  apply Hch; try done. apply orb_true_iff in E3 as [E3|E3]; [left; by apply bool_decide_eq_true in E3|by right].
Qed.
End update.

(** ** The operations *)

Section team.
Context (e : env) (EqualFold : string -> string -> bool) `{FloatsLaw} (team : string) (Hteam : plain team = true).

Definition tasks_path : path := [".claude"; "tasks"; team; "tasks.json"].
Definition lock_name : string := "." +:+ team +:+ ".amq.lock".

Lemma team_paths : TeamTasksDir [] team = [".claude"; "tasks"; team] /\
  Join_under (TeamTasksDir [] team) ["tasks.json"] = tasks_path /\
  Join_under (ClaudeTasksDir []) [lock_name] = [".claude"; "tasks"; lock_name] /\ plain lock_name = true.
Proof using Hteam.
  clear EqualFold.
  assert (ClaudeTasksDir [] = [".claude"; "tasks"]) as E by reflexivity.
  assert (plain lock_name = true) as Hl.
  { apply plain_spec. apply plain_spec in Hteam as (_ & _ & _ & Hs). unfold lock_name. split_and!; try done.
    - intros E1. apply (f_equal String.length) in E1. rewrite !length_app_str in E1. cbn in E1. lia.
    - intros E1. apply (f_equal String.length) in E1. rewrite !length_app_str in E1. cbn in E1. lia.
    - rewrite !str_mem_app, Hs. reflexivity. }
  assert (TeamTasksDir [] team = [".claude"; "tasks"; team]) as E2.
  { unfold TeamTasksDir. rewrite E, Join_under_plain by (by repeat constructor). done. }
  rewrite E2, E. rewrite !Join_under_plain by (by repeat constructor). done.
Qed.

(** The file of the team shows this board. *)
Definition shows (t : tree) (b : board) : Prop :=
  t_parent t tasks_path = None /\ exists d, content t tasks_path = Some d /\ tidy d b.

Lemma shows_evo X t t' b : evo X t t' -> ~ X tasks_path -> shows t b -> shows t' b.
Proof.
  intros Hev HX (Hp & d & Hc & Hd). split; [by eapply evo_parent|]. exists d. split; [|done]. by eapply evo_content.
Qed.

(** The board before or after a step. *)
Definition at_step (b : board) (l : string * act) (t : tree) : Prop :=
  shows t b \/ exists b', step EqualFold b l b' /\ shows t b'.

Definition stepped (b : board) (l : string * act) (o : option gerr) (t : tree) : Prop :=
  match o with None => exists b', step EqualFold b l b' /\ shows t b' | Some _ => shows t b end.

Lemma wpi_locked b l fn w : shows (tr w) b ->
  (forall w', shows (tr w') b -> wpi e (at_step b l) fn (fun o w' => stepped b l o (tr w')) w') ->
  wpi e (at_step b l) (withTasksLock [] team fn) (fun o w' => stepped b l o (tr w')) w.
Proof.
  intros Hb Hfn. destruct team_paths as (_ & _ & El & _). unfold withTasksLock. unfold lock_name in El. rewrite El. fold lock_name. cbn [Dir removelast].
  wbind. eapply wpi_mono; [apply wpi_mkdirall; [cbn; unfold layout_depth; lia|]|].
  { intros t Ht. left. eapply shows_evo; [exact Ht|by intros []|done]. }
  intros o w1 (Hev1 & _). assert (shows (tr w1) b) as Hb1 by (eapply shows_evo; [exact Hev1|by intros []|done]).
  destruct o as [x|]; [by wret|].
  assert ([".claude"; "tasks"; lock_name] <> tasks_path) as Hne by done.
  unfold WithExclusiveFileLock. apply wpi_SOpenCreate; [done| |].
  { intros t Ht. left. eapply shows_evo; [exact Ht|done|done]. }
  intros h w2 Hev2. assert (shows (tr w2) b) as Hb2 by (eapply shows_evo; [exact Hev2|done|done]).
  destruct h as [h|x]; [|by wret]. apply wpi_bind. unfold call. apply Retry.wpi_plain_sys.
  { intros w'. cbn. by case_match. }
  { by left. }
  intros x w3 Ht3. wret. destruct x as [[]|x].
  2: { apply wpi_ro_bind; [ro_tac|left; by rewrite Ht3|]. intros y w4 Ht4 _. wret. cbn. by rewrite Ht4, Ht3. }
  wbind. eapply wpi_mono; [apply Hfn; by rewrite Ht3|]. intros o w4 Ho.
  assert (at_step b l (tr w4)) as Ha by (destruct o; [by left|by right]).
  apply Retry.wpi_plain_sys; [done|done|]. intros y w5 Ht5. apply wpi_ro_bind; [ro_tac|by rewrite Ht5|]. intros z w6 Ht6 _.
  wret. by rewrite Ht6, Ht5.
Qed.

Lemma wpi_updateTaskRaw b id a mutate w : shows (tr w) b -> allowed e EqualFold b id a mutate ->
  wpi e (at_step b (id, a)) (updateTaskRaw [] team id mutate) (fun o w' => stepped b (id, a) o (tr w')) w.
Proof.
  intros Hb Hal. destruct Hb as (Hp & d & Hc & Hd). pose proof (conj Hp (ex_intro _ d (conj Hc Hd)) : shows (tr w) b) as Hb.
  destruct team_paths as (_ & Ep & _). unfold updateTaskRaw. rewrite Ep. cbv zeta.
  wbind. eapply wpi_mono; [apply wpi_os_ReadFile; [done|done|exact Hc|by left]|].
  intros x w1 [Ht1 Hx]. destruct Hx as [->|(y & -> & Hy)]; [|rewrite Hy; cbn [negb]; wret; cbn; by rewrite Ht1].
  unfold updateTaskInList. destruct (tidy_raw _ _ Hd) as (wr & ms & Hr & Hn & Hm & Hv). rewrite Hr. change (default [] (Some wr)) with wr.
  rewrite Hm. wbind. eapply wpi_mono; [eapply (wpi_update_first e EqualFold b a id mutate _ Hal ms b []); [done|done|set_solver|by left; rewrite Ht1]|].
  intros x w2 [Ht2 Hx]. rewrite Ht1 in Ht2.
  destruct x as [[items|err]|]; [|wret; cbn; by rewrite Ht2|wret; cbn; by rewrite Ht2].
  destruct (Hx items eq_refl) as (ms' & b' & -> & Hs & Hv'). cbn [app] in Hs.
  pose proof (tidy_written wr ms' b' Hn Hv') as Htd.
  assert (forall t, swapping tasks_path (file_text wr ms') (tr w) t -> at_step b (id, a) t) as HI.
  { intros t [Hpar [Hct|Hct]]; [left|right; exists b'; split; [done|]]; (split; [by apply Hpar|]).
    - exists d. by rewrite Hct.
    - by eexists. }
  eapply wpi_mono; [apply (wpi_atomicWriteJSON e _ tasks_path _ d); [done|by rewrite Ht2|rewrite Ht2; exact HI]|].
  rewrite Ht2. intros o w3 [[Hpar _] Hc3]. destruct o as [x|]; cbn.
  - split; [by apply Hpar|]. by exists d.
  - exists b'. split; [done|]. split; [by apply Hpar|]. by eexists.
Qed.

(** ** Dependencies *)

Lemma statusMap_elem ts k s : statusMap ts !! k = Some s -> exists t, t ∈ ts /\ Swarm.ID t = k /\ Swarm.Status t = s.
Proof.
  unfold statusMap. assert (forall m : gmap string string, foldl (fun m t => <[Swarm.ID t := Swarm.Status t]> m) m ts !! k = Some s ->
    m !! k = Some s \/ exists t, t ∈ ts /\ Swarm.ID t = k /\ Swarm.Status t = s) as Hg.
  { induction ts as [|t ts IH]; intros m; [by left|]. cbn. intros [Hm|(t' & Hin & Ht)]%IH.
    - apply lookup_insert_Some in Hm as [[<- <-]|[_ Hm]]; [|by left]. right. exists t. split; [by left|done].
    - right. exists t'. split; [by right|done]. }
  intros [Hm|?]%Hg; [by rewrite lookup_empty in Hm|done].
Qed.

Lemma completed_done ts dep : completed_in (statusMap ts) dep = true -> done_in (abs <$> ts) dep.
Proof.
  unfold completed_in. intros Hc%bool_decide_eq_true. destruct (statusMap ts !! dep) as [s|] eqn:Es; [|done].
  cbn in Hc. subst s. apply statusMap_elem in Es as (t & Hin & Hid & Hst). exists (abs t).
  split; [by apply list_elem_of_fmap_2|done].
Qed.

Lemma NoDup_ids_eq b x y : NoDup (a_id <$> b) -> x ∈ b -> y ∈ b -> a_id x = a_id y -> x = y.
Proof.
  induction b as [|z b IH]; [by intros _ ?%elem_of_nil|]. intros [Hz Hnd]%NoDup_cons [->|Hx]%elem_of_cons [->|Hy]%elem_of_cons E; [done| | |by apply IH].
  - destruct Hz. rewrite E. by apply list_elem_of_fmap_2.
  - destruct Hz. rewrite <-E. by apply list_elem_of_fmap_2.
Qed.

(** The dependencies of the last task with the id. *)
Definition deps_of (ts : list Task) (id : string) : list string :=
  match last (filter (fun t => Swarm.ID t = id) ts) with Some t => default [] (DependsOn t) | None => [] end.

Lemma deps_of_task ts id t : NoDup (a_id <$> (abs <$> ts)) -> t ∈ abs <$> ts -> a_id t = id -> deps_of ts id = a_deps t.
Proof.
  intros Hnd Hin Hid. pose proof Hin as (x & -> & Hx)%list_elem_of_fmap. unfold deps_of.
  assert (x ∈ filter (fun t => Swarm.ID t = id) ts) as Hf by (by apply list_elem_of_filter).
  destruct (last (filter (fun t => Swarm.ID t = id) ts)) as [y|] eqn:El.
  - apply last_Some_elem_of, list_elem_of_filter in El as [Hy Hy'].
    assert (abs y = abs x) as E by (apply (NoDup_ids_eq _ _ _ Hnd); [by apply list_elem_of_fmap_2|done|]; cbn in *; congruence).
    by rewrite <-E.
  - apply last_None in El. rewrite El in Hf. by apply elem_of_nil in Hf.
Qed.

(** ** Each operation is a step *)

Definition perform (id : string) (a : act) : prog (option gerr) :=
  match a with
  | Claim agent => ClaimTask [] EqualFold team id agent
  | Complete handle agent evidence => CompleteTask [] EqualFold team id handle agent evidence
  | FailWith handle agent reason => FailTask [] EqualFold team id handle agent reason
  | BlockWith handle agent reason => BlockTask [] EqualFold team id handle agent reason
  end.

(** The texts of an act are UTF-8 and its evidence is JSON. *)
Definition sound (a : act) : bool :=
  match a with
  | Claim agent => utf8_valid agent
  | Complete _ _ ev => utf8_json (JObj (default [] ev)) && Format.any_ok (JObj (default [] ev))
  | FailWith _ _ reason | BlockWith _ _ reason => utf8_valid (TrimSpace reason)
  end.

Lemma wpi_ListTasks I b w : shows (tr w) b -> I (tr w) ->
  wpi e I (ListTasks [] team) (fun x w' => tr w' = tr w /\ (x.2 = None -> abs <$> x.1 = b)) w.
Proof.
  intros (Hp & d & Hc & Hd) HI. destruct team_paths as (_ & Ep & _). unfold ListTasks. rewrite Ep. cbv zeta. wbind.
  eapply wpi_mono; [apply wpi_os_ReadFile; [done|done|exact Hc|done]|].
  intros x w1 [Ht1 [->|(y & -> & Hy)]]; [|rewrite Hy; by wret]. destruct (tidy_list _ _ Hd) as (ts & -> & Hts). by wret.
Qed.

Lemma wpi_perform b id a w : NoDup (a_id <$> b) -> sound a = true -> shows (tr w) b ->
  wpi e (at_step b (id, a)) (perform id a) (fun o w' => stepped b (id, a) o (tr w')) w.
Proof.
  intros Hnd Ha Hb. destruct a as [agent|handle agent ev|handle agent reason|handle agent reason]; cbn [perform sound] in *.
  - unfold ClaimTask. apply wpi_locked; [done|]. intros w1 Hb1. wbind.
    eapply wpi_mono; [apply (wpi_ListTasks _ b); [done|by left]|]. intros [ts [x|]] w2 [Ht2 Hts]; [wret; cbn; by rewrite Ht2|].
    cbn in Hts. specialize (Hts eq_refl). fold (deps_of ts id). cbv zeta.
    destruct (allDepsCompleted _ _) eqn:Ed; cbn [negb]; [|wret; cbn; by rewrite Ht2].
    apply wpi_updateTaskRaw; [by rewrite Ht2|]. apply claim_allowed; [done|]. intros t Hin Hid. rewrite <-Hts in *.
    rewrite <-(deps_of_task ts id t) by done. apply Forall_forall. intros dep Hdep. apply completed_done.
    unfold allDepsCompleted in Ed. by apply (proj1 (forallb_elem _ _) Ed).
  - apply andb_true_iff in Ha as [Hu Hn]. apply wpi_locked; [done|]. intros w1 Hb1. apply wpi_updateTaskRaw; [done|].
    apply finish_allowed. intros t Hst Hm m now Hv. eexists. split; [by constructor|by apply complete_viewed].
  - apply wpi_locked; [done|]. intros w1 Hb1. apply wpi_updateTaskRaw; [done|].
    apply finish_allowed. intros t Hst Hm m now Hv. eexists. split; [by constructor|by apply fail_viewed].
  - apply wpi_locked; [done|]. intros w1 Hb1. apply wpi_updateTaskRaw; [done|].
    apply finish_allowed. intros t Hst Hm m now Hv. eexists. split; [by constructor|by apply block_viewed].
Qed.

End team.

(** Without I/O failures, an operation on a task succeeds exactly when the machine of the board
    has the step; and the board over many operations. *)

(** Runs the first part of a program. *)
Ltac rbind := first [rewrite run_bind | rewrite run_mbind].

Section live.
Context (e : env) (Hnf : healthy e) (EqualFold : string -> string -> bool) `{FloatsLaw}.

Lemma live_os_ReadFile p d w : p <> [] -> t_parent (tr w) p = None -> content (tr w) p = Some d ->
  exists w', run e (Ambient.os_ReadFile p) w = ((d, None), w') /\ tr w' = tr w.
Proof.
  intros Hp Hpar Hc. destruct (content_file _ _ _ Hc) as (i & Hi & Hd). unfold Ambient.os_ReadFile. live.
  unfold t_open, t_follow. rewrite (t_node_lookup _ _ _ Hp Hpar Hi). live. rewrite Hd. by eexists.
Qed.

Lemma live_write_new noun p d w : p <> [] -> t_parent (tr w) p = None -> dents (tr w) !! p = None ->
  exists w', run e (Ambient.write_new noun p d) w = (None, w') /\ tr w' = t_write (add_file (tr w) p) (fresh_ino (tr w)) d.
Proof.
  intros Hp Hpar Hn. unfold Ambient.write_new. live. unfold t_open_excl. destruct p as [|c p]; [done|].
  rewrite Hpar, Hn. live. by eexists.
Qed.

Lemma live_rename p q i w : p <> [] -> q <> [] -> t_parent (tr w) p = None -> dents (tr w) !! p = Some (NFile i) ->
  t_parent (tr w) q = None -> (forall j m, dents (tr w) !! q <> Some (NDir j m)) ->
  (run e (call (SRename p q)) w).1 = None.
Proof.
  intros Hp Hq Hpp Hip Hpq Hiq. live. unfold t_rename. rewrite (t_node_lookup _ _ _ Hp Hpp Hip).
  destruct (dents (tr w) !! q) as [n|] eqn:En.
  - rewrite (t_node_lookup _ _ _ Hq Hpq En). destruct n as [|j m| |]; [done|by destruct (Hiq j m)|done..].
  - rewrite (t_node_absent _ _ Hq Hpq En), Hpq. done.
Qed.

Lemma live_atomicWriteJSON p v d0 w : p <> [] -> t_parent (tr w) p = None -> content (tr w) p = Some d0 ->
  (forall now, t_parent (tr w) (tmp_path p now) = None /\ dents (tr w) !! tmp_path p now = None) ->
  (run e (atomicWriteJSON p v) w).1 = None.
Proof.
  intros Hp Hpar Hc Htmp. unfold atomicWriteJSON. rbind; rewrite run_sys. cbn [exec fst snd]. cbv zeta.
  set (now := e_clock e (tick w)). destruct (Htmp now) as [Hpt Hnt].
  assert (tmp_path p now <> []) as Htn by (unfold tmp_path; by destruct (Dir p)).
  set (d := MarshalIndent (print_any v) +:+ LF).
  destruct (live_write_new "temp file" (tmp_path p now) d (bump w) Htn Hpt Hnt) as (w1 & Hr & Ht1).
  rbind; rewrite Hr. cbn [fst snd].
  pose proof (t_write_fresh_evo (tr w) (tmp_path p now) d Hnt) as Hev. change (tr (bump w)) with (tr w) in Ht1. rewrite <-Ht1 in Hev.
  assert (content (tr w1) (tmp_path p now) = Some d) as Hct by (rewrite Ht1; apply t_write_fresh_content).
  destruct (content_file _ _ _ Hct) as (i & Hi & _).
  assert (content (tr w1) p = Some d0) as Hc1 by (eapply evo_content; [exact Hev|by apply tmp_path_ne|done]).
  assert ((run e (call (SRename (tmp_path p now) p)) w1).1 = None) as Hren.
  { eapply live_rename; [done|done|by eapply evo_parent|exact Hi|by eapply evo_parent|].
    apply content_file in Hc1 as (j & Hj & _). congruence. }
  rbind; rewrite Hren. done.
Qed.

(** ** The task with the id is changed *)

Lemma live_update_first id mutate ms1 m ms2 w :
  (forall x, x ∈ ms1 -> text_of x "id" <> id) -> text_of m "id" = id ->
  (forall w, exists m' w', run e (mutate m) w = (inl m', w') /\ tr w' = tr w) ->
  exists m' w', run e (update_first id mutate (JObj <$> (ms1 ++ m :: ms2))) w = (Some (inl (JObj <$> (ms1 ++ m' :: ms2))), w') /\ tr w' = tr w.
Proof.
  intros Hfirst Hid Hm. induction ms1 as [|x ms1 IH]; cbn [app fmap list_fmap update_first].
  - rewrite bool_decide_eq_true_2 by done. destruct (Hm w) as (m' & w' & Hr & Ht). exists m', w'.
    rbind; unfold raw in *; by rewrite Hr.
  - rewrite bool_decide_eq_false_2 by (apply Hfirst; by left).
    destruct IH as (m' & w' & Hr & Ht); [intros y ?; apply Hfirst; by right|]. exists m', w'. rbind; by rewrite Hr.
Qed.

Lemma live_claim_mutate agent m t w : viewed m t -> a_status t <> TaskStatusCompleted ->
  a_who t = "" \/ EqualFold (a_who t) agent = true ->
  exists m' w', run e (claim_mutate EqualFold agent m) w = (inl m', w') /\ tr w' = tr w.
Proof.
  intros Hv Hs Hw. destruct (viewed_text _ _ Hv) as (_ & Es & Ew). unfold claim_mutate. rewrite Es, Ew.
  rewrite bool_decide_eq_false_2 by done. assert (negb (bool_decide (a_who t = "")) && negb (EqualFold (a_who t) agent) = false) as ->.
  { destruct Hw as [->|Hw]; [done|]. rewrite Hw. apply andb_false_r. }
  unfold stamp_now. live. by eexists _, _.
Qed.

Lemma live_finish_mutate target handle agent change m t w : viewed m t -> target <> TaskStatusInProgress ->
  a_status t = TaskStatusInProgress -> mine EqualFold t handle agent ->
  exists m' w', run e (finish_mutate EqualFold target handle agent change m) w = (inl m', w') /\ tr w' = tr w.
Proof.
  intros Hv Ht Hs Hm. destruct (viewed_text _ _ Hv) as (_ & Es & Ew). unfold finish_mutate, requireInProgress, requireTaskAssignee.
  rewrite Es, Ew, Hs. rewrite bool_decide_eq_false_2, bool_decide_eq_true_2 by done.
  assert (bool_decide (a_who t = "") || isAssignedToMe EqualFold (a_who t) handle agent = true) as ->.
  { destruct Hm as [->|Hm]; [done|]. rewrite Hm. apply orb_true_r. }
  unfold stamp_now. live. by eexists _, _.
Qed.

(** ** The operations *)

Context (team : string) (Hteam : plain team = true).
Local Abbreviation tasks := (tasks_path team).
Local Abbreviation lock := [".claude"; "tasks"; lock_name team].

(** The directories are there, the lock file is a file or absent, and no temporary is left. *)
Definition ready (t : tree) : Prop :=
  dirs_upto t [".claude"; "tasks"; team] /\
  (dents t !! lock = None \/ exists i, dents t !! lock = Some (NFile i)) /\
  forall now, dents t !! tmp_path tasks now = None.

Lemma tmp_tasks now : tmp_path tasks now = [".claude"; "tasks"; team] ++ ["tasks.json.tmp." +:+ itoa now].
Proof. reflexivity. Qed.

Lemma tmp_plain now : plain ("tasks.json.tmp." +:+ itoa now) = true.
Proof. apply plain_spec. split_and!; try done. rewrite str_mem_app. by rewrite (numeral_no_char slash (itoa now)) by (done || apply itoa_numeral). Qed.

Lemma live_lock fn w : ready (tr w) ->
  exists w', (run e (withTasksLock [] team fn) w).1 = (run e fn w').1 /\
    (tr w' = tr w \/ dents (tr w) !! lock = None /\ tr w' = add_file (tr w) lock).
Proof.
  intros (Hd & Hl & _). destruct (team_paths team Hteam) as (_ & _ & El & Hpl).
  assert (dirs_upto (tr w) [".claude"; "tasks"]) as Hd2.
  { intros q Hq Hpre. apply Hd; [done|]. etrans; [exact Hpre|]. by exists [team]. }
  assert (lock <> []) as Hln by done. assert (t_parent (tr w) lock = None) as Hpar.
  { apply (dirs_upto_parent (tr w) [".claude"; "tasks"] (lock_name team) Hd2). by apply plain_escapes; repeat constructor. }
  unfold withTasksLock. unfold lock_name in El. rewrite El. fold (lock_name team). cbn [Dir removelast].
  rbind; rewrite live_mkdirall by done. cbn [fst snd].
  unfold WithExclusiveFileLock. rbind; rewrite run_sys. cbn [exec]. unfold upd. rewrite Hnf. unfold t_open_create.
  change (tr (bump w)) with (tr w). unfold t_open, t_follow.
  destruct Hl as [Hl|[i Hl]].
  - rewrite (t_node_absent _ _ Hln Hpar Hl). cbn [ior_map]. unfold t_open_excl. rewrite Hpar, Hl. cbn [fst snd].
    live. eexists. split; [reflexivity|]. by right.
  - rewrite (t_node_lookup _ _ _ Hln Hpar Hl). cbn. live. eexists. split; [reflexivity|]. by left.
Qed.

(** What is needed to change the file. *)
Definition writable (t : tree) : Prop := dirs_upto t [".claude"; "tasks"; team] /\ forall now, dents t !! tmp_path tasks now = None.

Lemma locked_writable t t' b : ready t -> shows team t b -> t' = t \/ dents t !! lock = None /\ t' = add_file t lock ->
  writable t' /\ shows team t' b.
Proof.
  intros (Hd & _ & Htmp) Hb [->|[Hn ->]]; [by split|]. pose proof (evo_add_file t lock Hn) as Hev. split; [split|].
  - by eapply dirs_upto_evo.
  - intros now. cbn. rewrite lookup_insert_ne by done. apply Htmp.
  - by eapply shows_evo.
Qed.

Lemma live_updateTaskRaw b1 t b2 mutate w : writable (tr w) -> shows team (tr w) (b1 ++ t :: b2) ->
  (forall x, x ∈ b1 -> a_id x <> a_id t) ->
  (forall m w, viewed m t -> exists m' w', run e (mutate m) w = (inl m', w') /\ tr w' = tr w) ->
  (run e (updateTaskRaw [] team (a_id t) mutate) w).1 = None.
Proof.
  intros [Hdirs Htmp] (Hp & d & Hc & Hd) Hfirst Hm. destruct (team_paths team Hteam) as (_ & Ep & _).
  unfold updateTaskRaw. rewrite Ep. cbv zeta. destruct (live_os_ReadFile tasks d w) as (w1 & Hr1 & Ht1); try done.
  rbind; rewrite Hr1. cbn [fst snd]. destruct (tidy_raw _ _ Hd) as (wr & ms & Hr & Hn & Hmem & Hv).
  apply Forall2_app_inv_r in Hv as (ms1 & ms' & Hv1 & Hv' & ->).
  apply Forall2_cons_inv_r in Hv' as (m & ms2 & Hvm & Hv2 & ->).
  destruct (live_update_first (a_id t) mutate ms1 m ms2 w1) as (m' & w2 & Hr2 & Ht2).
  { intros x Hx. apply list_elem_of_lookup in Hx as [i Hi]. destruct (Forall2_lookup_l _ _ _ _ _ Hv1 Hi) as (y & Hy & Hxy).
    rewrite (proj1 (viewed_text _ _ Hxy)). apply Hfirst. by eapply list_elem_of_lookup_2. }
  { by apply viewed_text. }
  { intros w0. by apply Hm. }
  unfold updateTaskInList. rewrite Hr. change (default [] (Some wr)) with wr. rewrite Hmem. rbind; rewrite Hr2. cbn [fst snd].
  rewrite Ht1 in Ht2. apply (live_atomicWriteJSON tasks _ d); rewrite ?Ht2; [done|done|done|].
  intros now. split; [|apply Htmp]. rewrite tmp_tasks. apply dirs_upto_parent; [done|]. apply plain_escapes.
  repeat constructor; try done. apply tmp_plain.
Qed.

(** ** The dependencies are seen *)

Lemma statusMap_lookup ts t : NoDup (a_id <$> (abs <$> ts)) -> t ∈ ts -> statusMap ts !! Swarm.ID t = Some (Swarm.Status t).
Proof.
  unfold statusMap. generalize (∅ : gmap string string) as m. induction ts as [|x ts IH]; intros m; [by intros _ ?%elem_of_nil|].
  cbn [fmap list_fmap foldl]. intros [Hx Hnd]%NoDup_cons [->|Hin]%elem_of_cons; [|by apply IH].
  assert (forall m : gmap string string, m !! Swarm.ID x = Some (Swarm.Status x) ->
    foldl (fun m t => <[Swarm.ID t := Swarm.Status t]> m) m ts !! Swarm.ID x = Some (Swarm.Status x)) as Hg.
  { clear -Hx. induction ts as [|y ts IH]; intros m Hm; [done|]. cbn in *. apply not_elem_of_cons in Hx as [Hxy Hx].
    apply IH; [done|]. by rewrite lookup_insert_ne by done. }
  apply Hg. by rewrite lookup_insert_eq.
Qed.

Lemma done_completed ts dep : NoDup (a_id <$> (abs <$> ts)) -> done_in (abs <$> ts) dep -> completed_in (statusMap ts) dep = true.
Proof.
  intros Hnd (x & Hx & <- & Hst). apply list_elem_of_fmap in Hx as (t & -> & Ht). unfold completed_in. cbn in *.
  rewrite (statusMap_lookup ts t Hnd Ht). by apply bool_decide_eq_true.
Qed.

(** ** Success is a step *)

Lemma live_perform b id a b' w : NoDup (a_id <$> b) -> ready (tr w) -> shows team (tr w) b -> step EqualFold b (id, a) b' ->
  (run e (perform EqualFold team id a) w).1 = None.
Proof.
  intros Hnd Hr Hb Hs. inversion Hs as [b1 t b2 a0 t' Hfirst Hmv Eb El Eb']. subst.
  destruct a as [agent|handle agent ev|handle agent reason|handle agent reason]; cbn [perform];
    [unfold ClaimTask|unfold CompleteTask|unfold FailTask|unfold BlockTask];
    match goal with |- (run e (withTasksLock [] team ?fn) w).1 = None =>
      destruct (live_lock fn w Hr) as (w1 & -> & Ht1); destruct (locked_writable _ _ _ Hr Hb Ht1) as [Hw1 Hb1] end;
    inversion Hmv; subst.
  - pose proof Hb1 as (Hp & d & Hc & Hd). destruct (team_paths team Hteam) as (_ & Ep & _).
    destruct (live_os_ReadFile tasks d w1) as (w2 & Hr2 & Ht2); try done. destruct (tidy_list _ _ Hd) as (ts & Hts & Ets).
    rbind. unfold ListTasks. rewrite Ep. cbv zeta. rbind; rewrite Hr2. cbn [fst snd]. rewrite Hts. cbn [run fst snd].
    fold (deps_of ts (a_id t)). rewrite (deps_of_task ts _ t); [|by rewrite Ets|rewrite Ets; apply elem_of_app; right; by left|done].
    assert (allDepsCompleted (a_deps t) (statusMap ts) = true) as ->.
    { apply forallb_elem. intros dep Hdep. apply done_completed; rewrite Ets; [done|]. by eapply Forall_forall. }
    cbn [negb]. eapply live_updateTaskRaw; [by rewrite Ht2|rewrite Ht2; exact Hb1|done|]. intros m w3 Hv. by eapply live_claim_mutate.
  - eapply live_updateTaskRaw; [done|exact Hb1|done|]. intros m w3 Hv. by eapply live_finish_mutate.
  - eapply live_updateTaskRaw; [done|exact Hb1|done|]. intros m w3 Hv. by eapply live_finish_mutate.
  - eapply live_updateTaskRaw; [done|exact Hb1|done|]. intros m w3 Hv. by eapply live_finish_mutate.
Qed.

End live.

(** What claiming, completing, failing and blocking tasks of a team guarantee. *)

(** C8: The operations on tasks implement the machine of the board.  Over a tasks file that shows
    a board: stopped after any call, under any I/O failures, the file shows the board before or
    after the one step of the operation; a success has taken the step, and an error has left
    the board as it was. *)
Theorem tasks_refine_board e EqualFold `{FloatsLaw} team b id a w :
  plain team = true -> NoDup (a_id <$> b) -> sound a = true -> shows team (tr w) b ->
  Forall (fun w' => at_step EqualFold team b (id, a) (tr w')) (trace e (perform EqualFold team id a) w) /\
  stepped EqualFold team b (id, a) (run e (perform EqualFold team id a) w).1 (tr (run e (perform EqualFold team id a) w).2).
Proof.
  intros Ht Hnd Ha Hb. pose proof (wpi_perform e EqualFold team Ht b id a w Hnd Ha Hb) as Hw.
  split; [by eapply wpi_trace|by apply wpi_run in Hw].
Qed.

(** C38: Without I/O failures, with the directories of the team in place, an operation on a task
    succeeds exactly when the machine of the board has the step. *)
Theorem task_step_iff e EqualFold `{FloatsLaw} team b id a w :
  healthy e -> plain team = true -> NoDup (a_id <$> b) -> sound a = true -> ready team (tr w) -> shows team (tr w) b ->
  (run e (perform EqualFold team id a) w).1 = None <-> exists b', step EqualFold b (id, a) b'.
Proof.
  intros Hh Ht Hnd Ha Hr Hb. split.
  - intros Hn. pose proof (wpi_run _ _ _ _ _ (wpi_perform e EqualFold team Ht b id a w Hnd Ha Hb)) as Hs. cbn in Hs.
    rewrite Hn in Hs. destruct Hs as (b' & Hs & _). by exists b'.
  - intros [b' Hs]. by eapply live_perform.
Qed.

(** ** Many operations *)

(** An operation is run, to its end or until it is stopped; what is left is its tree. *)
Definition happens (EqualFold : string -> string -> bool) `{Floats} (team : string) (w w'' : world) : Prop :=
  exists e id a w', sound a = true /\
    (w' ∈ trace e (perform EqualFold team id a) w \/ w' = (run e (perform EqualFold team id a) w).2) /\ tr w'' = tr w'.

(** What any number of operations leaves is a board the machine reaches. *)
Lemma history_reaches EqualFold `{FloatsLaw} team w w' : plain team = true -> rtc (happens EqualFold team) w w' ->
  forall b, NoDup (a_id <$> b) -> shows team (tr w) b -> exists b', shows team (tr w') b' /\ reaches EqualFold b b'.
Proof.
  intros Ht Hr. induction Hr as [w|w w1 w2 (e & id & a & v & Ha & Hv & Ht1) _ IH]; intros b Hnd Hb; [by exists b|].
  pose proof (wpi_perform e EqualFold team Ht b id a w Hnd Ha Hb) as Hw.
  assert (at_step EqualFold team b (id, a) (tr v)) as [Hs|(b1 & Hst & Hs)].
  { destruct Hv as [Hv| ->].
    - apply wpi_trace in Hw. rewrite Forall_forall in Hw. by apply Hw.
    - apply wpi_run in Hw. destruct (run e (perform EqualFold team id a) w).1; [by left|by right]. }
  - apply IH; [done|by rewrite Ht1].
  - destruct (IH b1) as (b' & Hs' & Hr'); [by rewrite (step_ids _ _ _ _ Hst)|by rewrite Ht1|].
    exists b'. split; [done|]. eapply rtc_l; [by eexists|done].
Qed.


(** A task has one of the five statuses. *)
Definition task_typed (t : atask) : Prop :=
  a_status t ∈ [TaskStatusPending; TaskStatusInProgress; TaskStatusCompleted; TaskStatusFailed; TaskStatusBlocked].

Lemma reaches_typed EqualFold b b' : Forall task_typed b -> reaches EqualFold b b' -> Forall task_typed b'.
Proof.
  intros Hb Hr. induction Hr as [|b b1 b2 [l Hs] _ IH]; [done|]. apply IH. destruct Hs as [x1 t x2 a t' _ Hm].
  apply Forall_app in Hb as [H1 [_ H2]%Forall_cons]. apply Forall_app. split; [done|]. constructor; [|done].
  destruct Hm; unfold task_typed; cbn; set_solver.
Qed.

(** C39: The file of the tasks stays well formed: after any number of operations, each to its end
    or stopped anywhere, under any I/O failures, listing the tasks without further failures
    succeeds and gives tasks with the same ids in the same order, each with one of the five
    statuses. *)
Theorem tasks_well_formed e EqualFold `{FloatsLaw} team b w w' :
  healthy e -> plain team = true -> NoDup (a_id <$> b) -> Forall task_typed b -> shows team (tr w) b ->
  rtc (happens EqualFold team) w w' ->
  exists ts, (run e (ListTasks [] team) w').1 = (ts, None) /\ Swarm.ID <$> ts = a_id <$> b /\ Forall (task_typed ∘ abs) ts.
Proof.
  intros Hh Ht Hnd Hty Hb Hr. destruct (history_reaches _ _ _ _ Ht Hr b Hnd Hb) as (b' & (Hp & d & Hc & Hd) & Hr').
  destruct (tidy_list _ _ Hd) as (ts & Hts & Ets). exists ts. destruct (team_paths team Ht) as (_ & Ep & _).
  destruct (live_os_ReadFile e Hh (tasks_path team) d w') as (w1 & Hr1 & _); try done. split_and!.
  - unfold ListTasks. rewrite Ep. cbv zeta. rbind; rewrite Hr1. cbn [fst snd]. by rewrite Hts.
  - rewrite <-(reaches_ids _ _ _ Hr'), <-Ets, <-list_fmap_compose. done.
  - pose proof (reaches_typed _ _ _ Hty Hr') as Ht'. rewrite <-Ets in Ht'. by rewrite Forall_fmap in Ht'.
Qed.

(** ** Two tasks of team red: the second depends on the first *)

Instance plain_floats : Floats := fun l => if is_number l then l else "0".
Instance plain_floats_law : FloatsLaw.
Proof. intros l Hl. unfold float_text, plain_floats. destruct (is_number l) eqn:E; [done|by split]. Qed.

Definition same_fold (s t : string) : bool := bool_decide (ToLower s = ToLower t).

Definition sample_tasks : string := MarshalIndent (JObj [
  ("tasks", JArr [
     JObj [("id", JStr "1"); ("title", JStr "design"); ("status", JStr "in_progress"); ("assigned_to", JStr "bob"); ("points", JNum "5")];
     JObj [("id", JStr "2"); ("title", JStr "build"); ("status", JStr "pending"); ("depends_on", JArr [JStr "1"])]]);
  ("version", JNum "3")]).
Definition sample_board : board := [MkA "1" "in_progress" "bob" [] "" ""; MkA "2" "pending" "" ["1"] "" ""].

Definition red_world : world :=
  World (t_write (add_file (foldl (fun t p => add_dir t p 448) (tr (sample_world [])) [[".claude"]; [".claude"; "tasks"]; [".claude"; "tasks"; "red"]])
    [".claude"; "tasks"; "red"; "tasks.json"]) (fresh_ino (foldl (fun t p => add_dir t p 448) (tr (sample_world [])) [[".claude"]; [".claude"; "tasks"]; [".claude"; "tasks"; "red"]])) sample_tasks) 0 ∅ 0 ∅.

Definition exactb (names : list string) (l : raw) : bool :=
  bool_decide (NoDup (keys l)) && forallb (fun k => match field_of names k with Some n => bool_decide (n = k) | None => true end) (keys l).

Lemma exactb_spec names l : exactb names l = true -> exact names l.
Proof.
  intros [Hnd He]%andb_true_iff. split; [by apply bool_decide_eq_true in Hnd|]. intros k n Hk Hf.
  pose proof (proj1 (forallb_elem _ _) He k Hk) as Hb. cbn beta in Hb. rewrite Hf in Hb. by apply bool_decide_eq_true in Hb.
Qed.

Lemma sample_tidy : tidy sample_tasks sample_board.
Proof.
  eexists _, [_; _]. split_and!; [vm_compute; reflexivity|apply exactb_spec; vm_compute; reflexivity|vm_compute; reflexivity|vm_compute; reflexivity|].
  do 2 (apply Forall2_cons; split; [split; [apply exactb_spec; vm_compute; reflexivity|eexists; split; [vm_compute; reflexivity|reflexivity]]|]).
  constructor.
Qed.

Lemma red_shows : shows "red" (tr red_world) sample_board.
Proof. split; [vm_compute; reflexivity|]. exists sample_tasks. split; [vm_compute; reflexivity|apply sample_tidy]. Qed.

Definition no_tmpb (t : tree) : bool :=
  forallb (fun kn => negb (HasPrefix (Base kn.1) "tasks.json.tmp.")) (map_to_list (dents t)).

Lemma no_tmpb_spec team t now : no_tmpb t = true -> dents t !! tmp_path (tasks_path team) now = None.
Proof.
  intros Ht. destruct (dents t !! tmp_path (tasks_path team) now) as [n|] eqn:E; [|done].
  apply elem_of_map_to_list in E. apply (proj1 (forallb_elem _ _) Ht) in E. cbn in E. done.
Qed.

Lemma red_ready : ready "red" (tr red_world).
Proof.
  split; [apply dirs_uptob_spec; vm_compute; reflexivity|]. split; [left; vm_compute; reflexivity|].
  intros now. apply no_tmpb_spec. vm_compute. reflexivity.
Qed.

Lemma sample_ids : NoDup (a_id <$> sample_board).
Proof. apply (bool_decide_eq_true_1 (NoDup (a_id <$> sample_board))). vm_compute. reflexivity. Qed.

Local Abbreviation complete_1 := (run quiet_env (perform same_fold "red" "1" (Complete "bob" "bob" None)) red_world).
Local Abbreviation claim_2 := (run quiet_env (perform same_fold "red" "2" (Claim "alice")) complete_1.2).

Lemma stepped_None EqualFold team b l o t : o = None -> stepped EqualFold team b l o t ->
  exists b', step EqualFold b l b' /\ shows team t b'.
Proof. by intros ->. Qed.

Lemma tasks_refine_board_witness :
  complete_1.1 = None /\ exists b', step same_fold sample_board ("1", Complete "bob" "bob" None) b' /\ shows "red" (tr complete_1.2) b'.
Proof.
  split; [vm_compute; reflexivity|].
  apply (stepped_None same_fold "red" sample_board ("1", Complete "bob" "bob" None) complete_1.1); [vm_compute; reflexivity|].
  apply (tasks_refine_board quiet_env same_fold "red" sample_board "1" (Complete "bob" "bob" None) red_world);
    [reflexivity|exact sample_ids|reflexivity|exact red_shows].
Defined.

(** The second task cannot be claimed before the first is completed. *)
Lemma task_step_iff_witness :
  (exists b', step same_fold sample_board ("1", Complete "bob" "bob" None) b') /\
  ~ exists b', step same_fold sample_board ("2", Claim "alice") b'.
Proof.
  assert (healthy quiet_env) as Hh by (intros n; reflexivity). split.
  - apply (proj1 (task_step_iff quiet_env same_fold "red" sample_board "1" (Complete "bob" "bob" None) red_world
      Hh eq_refl sample_ids eq_refl red_ready red_shows)). vm_compute. reflexivity.
  - intros Hs. apply (proj2 (task_step_iff quiet_env same_fold "red" sample_board "2" (Claim "alice") red_world
      Hh eq_refl sample_ids eq_refl red_ready red_shows)) in Hs. vm_compute in Hs. discriminate.
Defined.

Lemma red_history : rtc (happens same_fold "red") red_world claim_2.2.
Proof.
  eapply rtc_l; [|eapply rtc_l; [|apply rtc_refl]].
  - exists quiet_env, "1", (Complete "bob" "bob" None), complete_1.2. split; [reflexivity|]. split; [by right|reflexivity].
  - exists quiet_env, "2", (Claim "alice"), claim_2.2. split; [reflexivity|]. split; [by right|reflexivity].
Qed.


Lemma tasks_well_formed_witness :
  exists ts, (run quiet_env (ListTasks [] "red") claim_2.2).1 = (ts, None) /\ Swarm.ID <$> ts = ["1"; "2"] /\
    Forall (task_typed ∘ abs) ts.
Proof.
  apply (tasks_well_formed quiet_env same_fold "red" sample_board red_world claim_2.2);
    [intros n; reflexivity|reflexivity|exact sample_ids| |exact red_shows|exact red_history].
  apply Forall_cons; split; [|apply Forall_cons; split; [|constructor]]; unfold task_typed; cbn; set_solver.
Defined.
