(* ===== verification/SwarmBridge.v ===== *)
(** The bridge from the tasks of a team to an agent's inbox: internal/swarm/bridge.go (the scan,
    the poll and the delivery of events; not the file notifications), and what the polls of a
    running bridge report. *)
From S2P Require Import Prelude GoStr GoTime GoPath GoErr Fs Wp FsFacts Names Json JsonStruct DeliveryRoot Maildir Swarm SwarmBoard.
From S2P Require Ambient Format.

Record BridgeConfig := MkBridgeConfig {
  TeamName : string;
  AgentHandle : string;
  AgentID : string;
  AMQRoot : path;
}.

Record BridgeEvent := MkEvent {
  ev_Type : string;
  ev_TaskID : string;
  ev_Title : string;
  ev_Status : string;
  ev_Details : string;
  ev_Reason : string;
  ev_Evidence : option raw;
}.

(** The maps the bridge keeps between polls. *)
Record seen := MkSeen { lastStates : gmap string string; lastDepsSatisfied : gmap string bool }.

Definition state_of (t : Task) : string := Status t +:+ ":" +:+ AssignedTo t.
Definition task_deps (t : Task) : list string := default [] (DependsOn t).

(** fmt prints a slice of strings in brackets, the elements separated by spaces. *)
Definition print_slice (l : list string) : string := "[" +:+ Join_with " " l +:+ "]".

Section bridge.
Context (home : path) (EqualFold : string -> string -> bool) `{Floats}.

Definition isRelevantToAgent (t : Task) (handle agentID : string) : bool :=
  bool_decide (AssignedTo t = "") || isAssignedToMe EqualFold (AssignedTo t) handle agentID.

Definition scan_states (tasks : list Task) : gmap string string :=
  foldl (fun m t => <[ID t := state_of t]> m) ∅ tasks.
Definition scan_deps (tasks : list Task) : gmap string bool :=
  foldl (fun m t => <[ID t := allDepsCompleted (task_deps t) (statusMap tasks)]> m) ∅ tasks.

Definition initialScan (cfg : BridgeConfig) : prog (seen * option gerr) :=
  let_val tasks := ListTasks home (TeamName cfg) orelse e => Ret (MkSeen ∅ ∅, Some (Errorf "initial task scan" e)) in
  Ret (MkSeen (scan_states tasks) (scan_deps tasks), None).

(** The type of the event of a task whose state changed, its reason and its evidence. *)
Definition event_kind (cfg : BridgeConfig) (t : Task) : string * string * option raw :=
  if bool_decide (Status t = TaskStatusInProgress) && isAssignedToMe EqualFold (AssignedTo t) (AgentHandle cfg) (AgentID cfg)
  then ("task_assigned", "", None)
  else if bool_decide (Status t = TaskStatusCompleted) then ("task_completed", "", Evidence t)
  else if bool_decide (Status t = TaskStatusFailed) then ("task_failed", FailureReason t, None)
  else if bool_decide (Status t = TaskStatusBlocked) then ("task_blocked", BlockReason t, None)
  else ("task_updated", "", None).

(** The event of a task that is new, or whose state changed. *)
Definition change_event (cfg : BridgeConfig) (prev : option string) (t : Task) : list BridgeEvent :=
  match prev with
  | None =>
    if isRelevantToAgent t (AgentHandle cfg) (AgentID cfg)
    then [MkEvent "task_added" (ID t) (Title t) (Status t) "" "" None] else []
  | Some prev =>
    if bool_decide (state_of t = prev) || negb (isRelevantToAgent t (AgentHandle cfg) (AgentID cfg)) then [] else
    let '(ty, reason, evidence) := event_kind cfg t in
    [MkEvent ty (ID t) (Title t) (Status t) ("assigned_to=" +:+ AssignedTo t) reason evidence]
  end.

Definition waiting (t : Task) : bool := negb (bool_decide (task_deps t = [])) && bool_decide (Status t = TaskStatusPending).

Definition unblock_event (cfg : BridgeConfig) (t : Task) (known was now : bool) : list BridgeEvent :=
  if known && waiting t && now && negb was && isRelevantToAgent t (AgentHandle cfg) (AgentID cfg)
  then [MkEvent "task_unblocked" (ID t) (Title t) (Status t) ("dependencies satisfied: " +:+ print_slice (task_deps t)) "" None]
  else [].

Definition poll_task (cfg : BridgeConfig) (m : gmap string string) (st : seen) (t : Task) : seen * list BridgeEvent :=
  let prev := lastStates st !! ID t in
  let satisfied := allDepsCompleted (task_deps t) m in
  let was := default false (lastDepsSatisfied st !! ID t) in
  (MkSeen (<[ID t := state_of t]> (lastStates st))
          (<[ID t := if waiting t then satisfied else true]> (lastDepsSatisfied st)),
   change_event cfg prev t ++ unblock_event cfg t (bool_decide (is_Some prev)) was satisfied).

Fixpoint poll_tasks (cfg : BridgeConfig) (m : gmap string string) (st : seen) (tasks : list Task) : seen * list BridgeEvent :=
  match tasks with
  | [] => (st, [])
  | t :: rest =>
    let '(st, evs) := poll_task cfg m st t in
    let '(st, evs') := poll_tasks cfg m st rest in
    (st, evs ++ evs')
  end.

(** Tasks that are gone are forgotten. *)
Definition forget (tasks : list Task) (st : seen) : seen :=
  MkSeen (filter (fun kv => kv.1 ∈ ID <$> tasks) (lastStates st)) 
         (filter (fun kv => kv.1 ∈ ID <$> tasks \/ kv.1 ∉ dom (lastStates st)) (lastDepsSatisfied st)).

Definition poll_changes (cfg : BridgeConfig) (st : seen) (tasks : list Task) : seen * list BridgeEvent :=
  let '(st, evs) := poll_tasks cfg (statusMap tasks) st tasks in
  (forget tasks st, evs).

Definition pollForChanges (cfg : BridgeConfig) (st : seen) : prog (seen * (list BridgeEvent + gerr)) :=
  let_val tasks := ListTasks home (TeamName cfg) orelse e => Ret (st, inr e) in
  let '(st, evs) := poll_changes cfg st tasks in
  Ret (st, inl evs).

Definition event_body (ev : BridgeEvent) : string :=
  "Task: " +:+ ev_TaskID ev +:+ LF +:+ "Status: " +:+ ev_Status ev +:+ LF +:+ "Type: " +:+ ev_Type ev +:+ LF +:+
  (if bool_decide (ev_Details ev = "") then "" else "Details: " +:+ ev_Details ev +:+ LF) +:+
  (if bool_decide (ev_Reason ev = "") then "" else "Reason: " +:+ ev_Reason ev +:+ LF) +:+
  match ev_Evidence ev with
  | None => ""
  | Some l => "Evidence:" +:+ LF +:+ MarshalIndent (print_any (JObj l)) +:+ LF
  end.

Definition event_context (cfg : BridgeConfig) (ev : BridgeEvent) : raw :=
  let c := [("event", JStr (ev_Type ev)); ("source", JStr "swarm-bridge"); ("task_id", JStr (ev_TaskID ev)); ("team", JStr (TeamName cfg))] in
  let c := if bool_decide (ev_Reason ev = "") then c else set "reason" (JStr (ev_Reason ev)) c in
  match ev_Evidence ev with None => c | Some l => set "evidence" (print_any (JObj l)) c end.

Definition event_message (cfg : BridgeConfig) (ev : BridgeEvent) (id created : string) : Format.Message :=
  Format.MkMessage
    (Format.MkHeader Format.CurrentSchema id (AgentHandle cfg) (Some [AgentHandle cfg]) ("swarm/" +:+ TeamName cfg)
       ("[swarm] " +:+ ev_Type ev +:+ ": " +:+ ev_Title ev) created None "normal" "status"
       (Some ["swarm"; ev_Type ev]) (Some (event_context cfg ev)) "" "" "")
    (event_body ev).

Definition deliverBridgeEvent (cfg : BridgeConfig) (ev : BridgeEvent) : prog (option gerr) :=
  now ← sys SNow;
  let_val id := Format.NewMessageID now orelse e => Ret (Some e) in
  let_val data := Format.Message_Marshal (event_message cfg ev id (Format_RFC3339Nano now)) orelse e => Ret (Some e) in
  let_val identity := SnapshotDeliveryRoot (AMQRoot cfg) orelse e => Ret (Some e) in
  x ← OpenDeliveryRoot (AMQRoot cfg) identity;
  match x with
  | (_, Some e) => Ret (Some e)
  | (None, None) => Ret None
  | (Some root, None) => y ← DeliverToInboxes root [AgentHandle cfg] (id +:+ ".md") data; Ret y.2
  end.

Fixpoint deliver_events (cfg : BridgeConfig) (evs : list BridgeEvent) : prog unit :=
  match evs with
  | [] => Ret tt
  | ev :: rest => _ ← deliverBridgeEvent cfg ev; deliver_events cfg rest
  end.

Definition processPollEvents (cfg : BridgeConfig) (st : seen) : prog seen :=
  x ← pollForChanges cfg st;
  match x with
  | (st, inr _) => Ret st
  | (st, inl evs) => _ ← deliver_events cfg evs; Ret st
  end.

(** The ticks of the polling loop. *)
Fixpoint bridgeWithPolling (cfg : BridgeConfig) (ticks : nat) (st : seen) : prog seen :=
  match ticks with
  | O => Ret st
  | S n => st ← processPollEvents cfg st; bridgeWithPolling cfg n st
  end.

End bridge.
