(* ===== verification/SwarmNews.v ===== *)
(** What a poll of the swarm bridge reports: exactly the news since the poll before. *)
From S2P Require Import Prelude GoStr GoTime GoPath GoErr Fs Wp FsFacts Names Json JsonStruct Encode DeliveryRoot Maildir Sample Swarm SwarmBoard SwarmTasks SwarmBridge.
From S2P Require Format.

Section news.
Context (EqualFold : string -> string -> bool) (cfg : BridgeConfig).

Definition relevant (t : Task) : Prop := AssignedTo t = "" \/ isAssignedToMe EqualFold (AssignedTo t) (AgentHandle cfg) (AgentID cfg) = true.

(** The kind of event for a task that changed, and what goes with it. *)
Inductive tells (t : Task) : string -> string -> option raw -> Prop :=
| tells_assigned : Status t = TaskStatusInProgress -> isAssignedToMe EqualFold (AssignedTo t) (AgentHandle cfg) (AgentID cfg) = true ->
    tells t "task_assigned" "" None
| tells_completed : Status t = TaskStatusCompleted -> tells t "task_completed" "" (Evidence t)
| tells_failed : Status t = TaskStatusFailed -> tells t "task_failed" (FailureReason t) None
| tells_blocked : Status t = TaskStatusBlocked -> tells t "task_blocked" (BlockReason t) None
| tells_updated :
    Status t ∉ [TaskStatusCompleted; TaskStatusFailed; TaskStatusBlocked] ->
    (Status t = TaskStatusInProgress -> isAssignedToMe EqualFold (AssignedTo t) (AgentHandle cfg) (AgentID cfg) = false) ->
    tells t "task_updated" "" None.

(** The task waits for its dependencies, of which these are completed. *)
Definition waits (t : Task) : Prop := task_deps t <> [] /\ Status t = TaskStatusPending.
Definition deps_done (ts : list Task) (t : Task) : Prop := Forall (done_in (abs <$> ts)) (task_deps t).

(** What is new in [ts1] after [ts0]. *)
Inductive news (ts0 ts1 : list Task) : BridgeEvent -> Prop :=
| news_added t : t ∈ ts1 -> ID t ∉ ID <$> ts0 -> relevant t ->
    news ts0 ts1 (MkEvent "task_added" (ID t) (Title t) (Status t) "" "" None)
| news_changed t0 t ty reason evidence : t0 ∈ ts0 -> t ∈ ts1 -> ID t = ID t0 -> relevant t ->
    Status t <> Status t0 \/ AssignedTo t <> AssignedTo t0 -> tells t ty reason evidence ->
    news ts0 ts1 (MkEvent ty (ID t) (Title t) (Status t) ("assigned_to=" +:+ AssignedTo t) reason evidence)
| news_unblocked t0 t : t0 ∈ ts0 -> t ∈ ts1 -> ID t = ID t0 -> relevant t ->
    waits t -> deps_done ts1 t -> waits t0 -> ~ deps_done ts0 t0 ->
    news ts0 ts1 (MkEvent "task_unblocked" (ID t) (Title t) (Status t) ("dependencies satisfied: " +:+ print_slice (task_deps t)) "" None).

(** Nothing is new in the same tasks. *)
Lemma news_same ts e : NoDup (ID <$> ts) -> ~ news ts ts e.
Proof.
  intros Hnd. assert (forall x y, x ∈ ts -> y ∈ ts -> ID x = ID y -> x = y) as Hinj.
  { intros x y Hx Hy E. clear -Hnd Hx Hy E. induction ts as [|z ts IH]; [by apply elem_of_nil in Hx|].
    apply NoDup_cons in Hnd as [Hz Hnd]. apply elem_of_cons in Hx as [->|Hx], Hy as [->|Hy]; [done| | |by apply IH].
    - destruct Hz. rewrite E. by apply list_elem_of_fmap_2.
    - destruct Hz. rewrite <-E. by apply list_elem_of_fmap_2. }
  destruct 1 as [t Ht Hn _|t0 t ? ? ? H0 Ht E _ Hc _|t0 t H0 Ht E _ _ Hd _ Hn].
  - apply Hn. by apply list_elem_of_fmap_2.
  - rewrite (Hinj t t0) in Hc by done. by destruct Hc.
  - by rewrite (Hinj t t0) in Hd.
Qed.

(** ** What is kept between polls *)

Lemma relevant_spec t : isRelevantToAgent EqualFold t (AgentHandle cfg) (AgentID cfg) = true <-> relevant t.
Proof. unfold isRelevantToAgent, relevant. rewrite orb_true_iff. by rewrite bool_decide_eq_true. Qed.

Lemma waiting_spec t : waiting t = true <-> waits t.
Proof. unfold waiting, waits. rewrite andb_true_iff, negb_true_iff, bool_decide_eq_false, bool_decide_eq_true. done. Qed.

(** The maps after a poll hold the tasks of the poll, each with what it had. *)
Definition knows (st : seen) (ts : list Task) : Prop :=
  (forall id, lastStates st !! id <> None -> id ∈ ID <$> ts) /\
  forall t, t ∈ ts -> lastStates st !! ID t = Some (state_of t) /\
    lastDepsSatisfied st !! ID t = Some (if waiting t then allDepsCompleted (task_deps t) (statusMap ts) else true).

Lemma poll_tasks_other m st ts id : id ∉ ID <$> ts ->
  lastStates (poll_tasks EqualFold cfg m st ts).1 !! id = lastStates st !! id /\
  lastDepsSatisfied (poll_tasks EqualFold cfg m st ts).1 !! id = lastDepsSatisfied st !! id.
Proof.
  revert st; induction ts as [|t ts IH]; intros st Hid; [done|]. cbn [fmap list_fmap] in Hid. apply not_elem_of_cons in Hid as [Hne Hid].
  cbn. destruct (poll_tasks EqualFold cfg m _ ts) as [st' evs] eqn:E. cbn.
  specialize (IH (MkSeen (<[ID t := state_of t]> (lastStates st)) (<[ID t := if waiting t then allDepsCompleted (task_deps t) m else true]> (lastDepsSatisfied st))) Hid).
  rewrite E in IH. cbn in IH. by rewrite !lookup_insert_ne in IH by done.
Qed.

Lemma poll_tasks_known m st ts t : NoDup (ID <$> ts) -> t ∈ ts ->
  lastStates (poll_tasks EqualFold cfg m st ts).1 !! ID t = Some (state_of t) /\
  lastDepsSatisfied (poll_tasks EqualFold cfg m st ts).1 !! ID t = Some (if waiting t then allDepsCompleted (task_deps t) m else true).
Proof.
  revert st; induction ts as [|x ts IH]; intros st; [by intros _ ?%elem_of_nil|].
  cbn [fmap list_fmap]. intros [Hx Hnd]%NoDup_cons Hin. cbn.
  set (st1 := MkSeen _ _). destruct (poll_tasks EqualFold cfg m st1 ts) as [st' evs] eqn:E. cbn.
  apply elem_of_cons in Hin as [->|Hin].
  - destruct (poll_tasks_other m st1 ts (ID x) Hx) as [E1 E2]. rewrite E in E1, E2. cbn [fst] in E1, E2.
    rewrite E1, E2. cbn. by rewrite !lookup_insert_eq.
  - specialize (IH st1 Hnd Hin). by rewrite E in IH.
Qed.

Lemma poll_knows st ts : NoDup (ID <$> ts) -> knows (poll_changes EqualFold cfg st ts).1 ts.
Proof.
  intros Hnd. unfold poll_changes. destruct (poll_tasks EqualFold cfg (statusMap ts) st ts) as [st' evs] eqn:E. cbn. split.
  - intros id Hid. cbn in Hid. destruct (filter _ (lastStates st') !! id) as [s|] eqn:Ef; [|done].
    by apply map_lookup_filter_Some in Ef as [_ Hin].
  - intros t Ht. destruct (poll_tasks_known (statusMap ts) st ts t Hnd Ht) as [E1 E2]. rewrite E in E1, E2. cbn [fst] in E1, E2.
    assert (ID t ∈ ID <$> ts) as Hid by (by apply list_elem_of_fmap_2). cbn. split; apply map_lookup_filter_Some; split; try done. by left.
Qed.

(** ** The events *)

Definition task_news (m : gmap string string) (st : seen) (t : Task) : list BridgeEvent :=
  change_event EqualFold cfg (lastStates st !! ID t) t ++
  unblock_event EqualFold cfg t (bool_decide (is_Some (lastStates st !! ID t))) (default false (lastDepsSatisfied st !! ID t)) (allDepsCompleted (task_deps t) m).

Lemma poll_tasks_events m st ts e : NoDup (ID <$> ts) ->
  e ∈ (poll_tasks EqualFold cfg m st ts).2 <-> exists t, t ∈ ts /\ e ∈ task_news m st t.
Proof.
  revert st; induction ts as [|x ts IH]; intros st; cbn [fmap list_fmap].
  { intros _. cbn. split; [by intros ?%elem_of_nil|]. by intros (t & ?%elem_of_nil & _). }
  intros [Hx Hnd]%NoDup_cons. cbn. set (st1 := MkSeen _ _).
  destruct (poll_tasks EqualFold cfg m st1 ts) as [st' evs] eqn:E. cbn. fold (task_news m st x).
  specialize (IH st1 Hnd). rewrite E in IH. cbn [snd] in IH. rewrite elem_of_app, IH.
  assert (forall t, t ∈ ts -> task_news m st1 t = task_news m st t) as Hsame.
  { intros t Ht. assert (ID x <> ID t) by (intros E'; apply Hx; rewrite E'; by apply list_elem_of_fmap_2).
    unfold task_news, st1. cbn. by rewrite !lookup_insert_ne by done. }
  split.
  - intros [He|(t & Ht & He)]; [exists x; split; [by left|done]|]. exists t. rewrite <-Hsame by done. split; [by right|done].
  - intros (t & [->|Ht]%elem_of_cons & He); [by left|]. right. exists t. by rewrite Hsame.
Qed.

(** Statuses have no colon, so the text kept for a task tells its status and assignee. *)
Definition no_colon (ts : list Task) : Prop := Forall (fun t => str_mem (chr 58) (Status t) = false) ts.

Lemma colon_inj a b a' b' : str_mem (chr 58) a = false -> str_mem (chr 58) a' = false ->
  a +:+ ":" +:+ b = a' +:+ ":" +:+ b' -> a = a' /\ b = b'.
Proof. apply sep_inj. Qed.

Lemma tells_kind t ty reason evidence : tells t ty reason evidence <-> event_kind EqualFold cfg t = (ty, reason, evidence).
Proof.
  unfold event_kind. destruct (bool_decide (Status t = TaskStatusInProgress) && _) eqn:Ea.
  - apply andb_true_iff in Ea as [Es%bool_decide_eq_true Em]. split; [|intros [= <- <- <-]; by constructor].
    destruct 1 as [| | | |Hn Hi]; try done; unfold TaskStatusInProgress, TaskStatusCompleted, TaskStatusFailed, TaskStatusBlocked in *; try congruence.
    by rewrite (Hi Es) in Em.
  - assert (Status t = TaskStatusInProgress -> isAssignedToMe EqualFold (AssignedTo t) (AgentHandle cfg) (AgentID cfg) = false) as Hip.
    { intros Es. by rewrite bool_decide_eq_true_2 in Ea. }
    clear Ea. split.
    + destruct 1 as [Es Em|Es|Es|Es|Hn Hi]; [by rewrite (Hip Es) in Em|rewrite Es; reflexivity..|].
      rewrite !bool_decide_eq_false_2 by set_solver. done.
    + case_bool_decide; [intros [= <- <- <-]; by constructor|]. case_bool_decide; [intros [= <- <- <-]; by constructor|].
      case_bool_decide; [intros [= <- <- <-]; by constructor|]. intros [= <- <- <-]. constructor; [set_solver|done].
Qed.

Lemma change_news t0 t e : str_mem (chr 58) (Status t) = false -> str_mem (chr 58) (Status t0) = false ->
  e ∈ change_event EqualFold cfg (Some (state_of t0)) t <->
  relevant t /\ (Status t <> Status t0 \/ AssignedTo t <> AssignedTo t0) /\
  exists ty reason evidence, tells t ty reason evidence /\
    e = MkEvent ty (ID t) (Title t) (Status t) ("assigned_to=" +:+ AssignedTo t) reason evidence.
Proof.
  intros Hc Hc0. unfold change_event. destruct (bool_decide (state_of t = state_of t0) || _) eqn:E.
  - split; [by intros ?%elem_of_nil|]. intros (Hr & Hd & _). apply relevant_spec in Hr. rewrite Hr in E. cbn [negb] in E. rewrite orb_false_r in E.
    apply bool_decide_eq_true, colon_inj in E as [E1 E2]; try done. by destruct Hd.
  - apply orb_false_iff in E as [E1 E2]. apply bool_decide_eq_false in E1. apply negb_false_iff, relevant_spec in E2.
    assert (Status t <> Status t0 \/ AssignedTo t <> AssignedTo t0) as Hd.
    { destruct (decide (Status t = Status t0)) as [Es|]; [|by left]. right. intros Ea. apply E1. unfold state_of. by rewrite Es, Ea. }
    destruct (event_kind EqualFold cfg t) as [[ty reason] evidence] eqn:Ek. rewrite list_elem_of_singleton. split.
    + intros ->. split_and!; [done|done|]. exists ty, reason, evidence. by rewrite tells_kind.
    + intros (_ & _ & ty' & r' & ev' & Ht & ->). apply tells_kind in Ht. rewrite Ek in Ht. by injection Ht as <- <- <-.
Qed.

Lemma deps_done_spec ts t : NoDup (ID <$> ts) -> allDepsCompleted (task_deps t) (statusMap ts) = true <-> deps_done ts t.
Proof.
  intros Hnd. assert (NoDup (a_id <$> (abs <$> ts))) as Hnd' by (by rewrite <-list_fmap_compose).
  unfold allDepsCompleted, deps_done. rewrite forallb_elem, Forall_forall.
  split; intros Hd x Hx; [by apply completed_done, Hd|by apply done_completed, Hd].
Qed.

Lemma unblock_news ts0 ts1 t0 t e : NoDup (ID <$> ts0) -> NoDup (ID <$> ts1) ->
  e ∈ unblock_event EqualFold cfg t true (if waiting t0 then allDepsCompleted (task_deps t0) (statusMap ts0) else true)
        (allDepsCompleted (task_deps t) (statusMap ts1)) <->
  (relevant t /\ waits t /\ deps_done ts1 t /\ waits t0 /\ ~ deps_done ts0 t0) /\
  e = MkEvent "task_unblocked" (ID t) (Title t) (Status t) ("dependencies satisfied: " +:+ print_slice (task_deps t)) "" None.
Proof.
  intros Hn0 Hn1. unfold unblock_event. rewrite <-relevant_spec, <-!waiting_spec, <-(deps_done_spec ts1 t Hn1), <-(deps_done_spec ts0 t0 Hn0).
  destruct (waiting t), (allDepsCompleted (task_deps t) (statusMap ts1)), (waiting t0), (allDepsCompleted (task_deps t0) (statusMap ts0)),
    (isRelevantToAgent EqualFold t (AgentHandle cfg) (AgentID cfg)); cbn; rewrite ?list_elem_of_singleton; split; try done;
    try (by intros ?%elem_of_nil); try (by intros [(? & ? & ? & ? & Hn) _]; destruct Hn); by intros [_ ->].
Qed.

Lemma task_news_once m st t : NoDup (task_news m st t) /\ forall e, e ∈ task_news m st t -> ev_TaskID e = ID t.
Proof.
  unfold task_news. set (c := change_event _ _ _ _). set (u := unblock_event _ _ _ _ _ _).
  assert (NoDup c /\ forall e, e ∈ c -> ev_TaskID e = ID t /\ ev_Type e <> "task_unblocked") as [Hc Hc'].
  { unfold c, change_event. destruct (lastStates st !! ID t); [|case_match; (split; [by repeat constructor; set_solver|]);
      [by intros e ->%list_elem_of_singleton|by intros e ?%elem_of_nil]].
    destruct (_ || _); [split; [constructor|by intros e ?%elem_of_nil]|].
    destruct (event_kind EqualFold cfg t) as [[ty r] ev] eqn:Ek. split; [repeat constructor; set_solver|].
    intros e ->%list_elem_of_singleton. split; [done|]. apply tells_kind in Ek. by destruct Ek. }
  assert (NoDup u /\ forall e, e ∈ u -> ev_TaskID e = ID t /\ ev_Type e = "task_unblocked") as [Hu Hu'].
  { unfold u, unblock_event. case_match; (split; [repeat constructor; set_solver|]); [by intros e ->%list_elem_of_singleton|by intros e ?%elem_of_nil]. }
  split.
  - apply NoDup_app. split_and!; [done| |done]. intros e He%Hc' He'%Hu'. destruct He, He'. congruence.
  - intros e [He%Hc'|He%Hu']%elem_of_app; by destruct He.
Qed.

Lemma poll_tasks_once m st ts : NoDup (ID <$> ts) -> NoDup (poll_tasks EqualFold cfg m st ts).2.
Proof.
  revert st; induction ts as [|x ts IH]; intros st; [constructor|]. cbn [fmap list_fmap]. intros [Hx Hnd]%NoDup_cons.
  cbn. set (st1 := MkSeen _ _). specialize (IH st1 Hnd). pose proof (fun e => poll_tasks_events m st1 ts e Hnd) as Hev.
  destruct (poll_tasks EqualFold cfg m st1 ts) as [st' evs] eqn:E. cbn in *. fold (task_news m st x).
  destruct (task_news_once m st x) as [Ho Hid]. apply NoDup_app. split_and!; [done| |done].
  intros e He%Hid He'. apply Hev in He' as (t & Ht & He'). apply (proj2 (task_news_once m st1 t)) in He'.
  apply Hx. rewrite <-He, He'. by apply list_elem_of_fmap_2.
Qed.

Lemma poll_news st ts0 ts1 e : NoDup (ID <$> ts0) -> NoDup (ID <$> ts1) -> no_colon ts0 -> no_colon ts1 -> knows st ts0 ->
  e ∈ (poll_changes EqualFold cfg st ts1).2 <-> news ts0 ts1 e.
Proof.
  intros Hn0 Hn1 Hc0 Hc1 [Hk1 Hk2]. unfold poll_changes. destruct (poll_tasks EqualFold cfg (statusMap ts1) st ts1) as [st' evs] eqn:E. cbn.
  change evs with (st', evs).2. rewrite <-E, poll_tasks_events by done. unfold no_colon in *. rewrite Forall_forall in Hc0, Hc1.
  assert (forall t t0, t0 ∈ ts0 -> t ∈ ts1 -> ID t = ID t0 -> e ∈ task_news (statusMap ts1) st t <->
    (relevant t /\ (Status t <> Status t0 \/ AssignedTo t <> AssignedTo t0) /\
       exists ty reason evidence, tells t ty reason evidence /\
         e = MkEvent ty (ID t) (Title t) (Status t) ("assigned_to=" +:+ AssignedTo t) reason evidence) \/
    (relevant t /\ waits t /\ deps_done ts1 t /\ waits t0 /\ ~ deps_done ts0 t0) /\
      e = MkEvent "task_unblocked" (ID t) (Title t) (Status t) ("dependencies satisfied: " +:+ print_slice (task_deps t)) "" None) as Hold.
  { intros t t0 H0 H1 Eid. destruct (Hk2 t0 H0) as [Es Ed]. unfold task_news. rewrite Eid, Es, Ed, elem_of_app.
    rewrite bool_decide_eq_true_2 by done. cbn [default from_option id]. rewrite <-Eid. rewrite change_news, unblock_news by auto. done. }
  assert (forall t, t ∈ ts1 -> ID t ∉ ID <$> ts0 -> e ∈ task_news (statusMap ts1) st t <->
    relevant t /\ e = MkEvent "task_added" (ID t) (Title t) (Status t) "" "" None) as Hnew.
  { intros t H1 Hid. assert (lastStates st !! ID t = None) as El.
    { destruct (lastStates st !! ID t) eqn:El; [|done]. destruct Hid. apply Hk1. by rewrite El. }
    unfold task_news. rewrite El. unfold change_event, unblock_event. rewrite bool_decide_eq_false_2 by (by intros []). cbn [andb]. rewrite app_nil_r.
    rewrite <-relevant_spec. destruct (isRelevantToAgent _ _ _ _); [rewrite list_elem_of_singleton; naive_solver|].
    split; [by intros ?%elem_of_nil|by intros []]. }
  split.
  - intros (t & Ht & He). destruct (decide (ID t ∈ ID <$> ts0)) as [Hid|Hid].
    + pose proof Hid as (t0 & Eid & Ht0)%list_elem_of_fmap. apply (Hold t t0) in He; [|done..].
      destruct He as [(Hr & Hd & ty & r & ev & Hte & ->)|[(Hr & Hw & Hd & Hw0 & Hd0) ->]]; [by eapply news_changed|by eapply news_unblocked].
    + apply Hnew in He as [Hr ->]; [|done..]. by constructor.
  - destruct 1 as [t Ht Hid Hr|t0 t ty r ev H0 Ht Eid Hr Hd Hte|t0 t H0 Ht Eid Hr Hw Hd Hw0 Hd0]; exists t; (split; [done|]).
    + by apply Hnew.
    + apply (Hold t t0); [done..|]. left. split_and!; [done|done|by eexists _, _, _].
    + apply (Hold t t0); [done..|]. by right.
Qed.

End news.

(** C40: A poll of the bridge after a poll of it reports exactly the news since then, each item
    once: tasks that were added, tasks whose status or assignee changed, with the type and the
    details of their new status, and tasks all of whose dependencies are now completed; and
    only tasks of the agent or of nobody.  So nothing is reported while nothing changes. *)
Theorem bridge_reports_news home EqualFold cfg st e0 e1 w0 w1 ts0 ts1 :
  (run e0 (ListTasks home (TeamName cfg)) w0).1 = (ts0, None) -> (run e1 (ListTasks home (TeamName cfg)) w1).1 = (ts1, None) ->
  NoDup (ID <$> ts0) -> NoDup (ID <$> ts1) -> no_colon ts0 -> no_colon ts1 ->
  exists evs, (run e1 (pollForChanges home EqualFold cfg (run e0 (pollForChanges home EqualFold cfg st) w0).1.1) w1).1.2 = inl evs /\
    NoDup evs /\ (forall e, e ∈ evs <-> news EqualFold cfg ts0 ts1 e) /\ (ts0 = ts1 -> evs = []).
Proof.
  intros L0 L1 Hn0 Hn1 Hc0 Hc1.
  assert (forall e w st ts, (run e (ListTasks home (TeamName cfg)) w).1 = (ts, None) ->
    (run e (pollForChanges home EqualFold cfg st) w).1 =
      ((poll_changes EqualFold cfg st ts).1, inl (poll_changes EqualFold cfg st ts).2)) as Hpoll.
  { intros e w s ts Hl. unfold pollForChanges. rbind. rewrite Hl. cbn. by destruct (poll_changes EqualFold cfg s ts). }
  rewrite (Hpoll e0 w0 st ts0 L0). cbn [fst]. rewrite (Hpoll e1 w1 _ ts1 L1). cbn [fst snd].
  set (evs := (poll_changes EqualFold cfg (poll_changes EqualFold cfg st ts0).1 ts1).2).
  assert (forall e, e ∈ evs <-> news EqualFold cfg ts0 ts1 e) as Hev.
  { intros e. by apply poll_news, poll_knows. }
  exists evs. split_and!; [done| |done|].
  - unfold evs, poll_changes. pose proof (poll_tasks_once EqualFold cfg (statusMap ts1) (poll_changes EqualFold cfg st ts0).1 ts1 Hn1) as Ho.
    unfold poll_changes in Ho. by destruct (poll_tasks EqualFold cfg (statusMap ts1) _ ts1).
  - intros <-. destruct evs as [|e evs']; [done|]. exfalso. apply (news_same EqualFold cfg ts0 e Hn0), Hev. by left.
Qed.

(** ** Alice's bridge sees bob complete the task that the second one waits for *)

Definition alice_bridge : BridgeConfig := MkBridgeConfig "red" "alice" "ext_alice" ["queue"].
Local Abbreviation completed := (run quiet_env (perform same_fold "red" "1" (Complete "bob" "bob" None)) red_world).
Local Abbreviation listed w := ((run quiet_env (ListTasks [] "red") w).1.1).
Local Abbreviation second_poll := ((run quiet_env (pollForChanges [] same_fold alice_bridge
  (run quiet_env (pollForChanges [] same_fold alice_bridge (MkSeen ∅ ∅)) red_world).1.1) completed.2).1.2).

Lemma bridge_reports_news_witness :
  (match second_poll with inl evs => (fun e => (ev_Type e, ev_TaskID e)) <$> evs | inr _ => [] end) = [("task_unblocked", "2")] /\
  exists evs, second_poll = inl evs /\ NoDup evs /\
    (forall e, e ∈ evs <-> news same_fold alice_bridge (listed red_world) (listed completed.2) e) /\
    (listed red_world = listed completed.2 -> evs = []).
Proof.
  split; [vm_compute; reflexivity|].
  apply (bridge_reports_news [] same_fold alice_bridge (MkSeen ∅ ∅) quiet_env quiet_env red_world completed.2);
    [vm_compute; reflexivity|vm_compute; reflexivity| | | |].
  - apply (bool_decide_eq_true_1 (NoDup (ID <$> listed red_world))). vm_compute. reflexivity.
  - apply (bool_decide_eq_true_1 (NoDup (ID <$> listed completed.2))). vm_compute. reflexivity.
  - apply (bool_decide_eq_true_1 (Forall (fun t => str_mem (chr 58) (Status t) = false) (listed red_world))). vm_compute. reflexivity.
  - apply (bool_decide_eq_true_1 (Forall (fun t => str_mem (chr 58) (Status t) = false) (listed completed.2))). vm_compute. reflexivity.
Defined.

