(* ===== verification/Registry.v ===== *)
(** The registry of the keepalive: internal/keepalive/registry (store.go, store_unix.go,
    canonical_unix.go, flock_unix.go).

    The registry is a JSON file that is read and replaced as a whole under a file lock.  Its
    path is a path of the tree ([[]] stands for the empty string); the roots and targets of its
    entries are names of files anywhere on the machine (class [Machine]).  A time is an instant:
    the zone of a time that another program put into the file is not kept.  The mutexes between
    the goroutines of one process have no counterpart, and the owner of a file is always the
    user. *)
From S2P Require Import Prelude GoStr GoSort GoTime TimeParse GoPath GoErr GoFile Fs Wp Json JsonFacts JsonStruct Encode.
From S2P Require Export Supervisor.
From S2P Require Ambient Bridge.

(** ** JSON *)

(** time.Time in JSON: RFC 3339 with nanoseconds, for the years 0 to 9999. *)
Record instant := At { nanos : Z }.

Definition year_ok (t : Z) : bool := Z.leb 0 (c_year (civil_of t)) && Z.leb (c_year (civil_of t)) 9999.

#[global] Instance json_instant : JsonField instant := {|
  to_json t := JStr (Format_RFC3339Nano (nanos t));
  from_json old j := match j with
    | JStr s => At <$> Parse_RFC3339Nano s
    | JNull => Some old
    | _ => None
    end;
|}.

#[global] Instance Entry_eq_dec : EqDecision Entry.
Proof. solve_decision. Defined.

Definition zero_entry : Entry := MkEntry "" "" "" "" "" "" "" "" "" zero_time zero_time 0 zero_time zero_time zero_time "" "".

Definition entry_fields : list string :=
  ["id"; "root"; "base_root"; "session_name"; "agent"; "adapter"; "target"; "ownership_key"; "state"; "last_attach";
   "last_seen_by_supervisor"; "failure_count"; "backoff_until"; "next_health_check"; "detached_since"; "last_error";
   "last_supervisor_decision"].

(** omitempty never omits a time.Time, which is a struct. *)
Definition entry_members (e : Entry) : list (string * json) :=
  ("id", to_json (ID e)) :: ("root", to_json (Root e)) ::
  opt_member "base_root" (to_json (BaseRoot e)) (bool_decide (BaseRoot e = "")) ++
  opt_member "session_name" (to_json (SessionName e)) (bool_decide (SessionName e = "")) ++
  ("agent", to_json (Agent e)) :: ("adapter", to_json (Adapter e)) :: ("target", to_json (Target e)) ::
  opt_member "ownership_key" (to_json (OwnershipKey e)) (bool_decide (OwnershipKey e = "")) ++
  ("state", to_json (State e)) :: ("last_attach", to_json (At (LastAttach e))) ::
  ("last_seen_by_supervisor", to_json (At (LastSeenBySupervisor e))) ::
  opt_member "failure_count" (to_json (FailureCount e)) (bool_decide (FailureCount e = 0%Z)) ++
  ("backoff_until", to_json (At (BackoffUntil e))) :: ("next_health_check", to_json (At (NextHealthCheck e))) ::
  ("detached_since", to_json (At (DetachedSince e))) ::
  opt_member "last_error" (to_json (LastError e)) (bool_decide (LastError e = "")) ++
  opt_member "last_supervisor_decision" (to_json (LastSupervisorDecision e)) (bool_decide (LastSupervisorDecision e = "")) ++
  [].

(** A value read into an entry that is there. *)
Definition entry_from (old : Entry) (j : json) : option Entry :=
  match j with
  | JNull => Some old
  | JObj l =>
    let get {A} `{JsonField A} := @get A _ entry_fields l in
    a1 ← get "id" (ID old); a2 ← get "root" (Root old); a3 ← get "base_root" (BaseRoot old);
    a4 ← get "session_name" (SessionName old); a5 ← get "agent" (Agent old); a6 ← get "adapter" (Adapter old);
    a7 ← get "target" (Target old); a8 ← get "ownership_key" (OwnershipKey old); a9 ← get "state" (State old);
    a10 ← get "last_attach" (At (LastAttach old)); a11 ← get "last_seen_by_supervisor" (At (LastSeenBySupervisor old));
    a12 ← get "failure_count" (FailureCount old); a13 ← get "backoff_until" (At (BackoffUntil old));
    a14 ← get "next_health_check" (At (NextHealthCheck old)); a15 ← get "detached_since" (At (DetachedSince old));
    a16 ← get "last_error" (LastError old); a17 ← get "last_supervisor_decision" (LastSupervisorDecision old);
    Some (MkEntry a1 a2 a3 a4 a5 a6 a7 a8 a9 (nanos a10) (nanos a11) a12 (nanos a13) (nanos a14) (nanos a15) a16 a17)
  | _ => None
  end.

(** The elements of an array are read over those of the slice. *)
Fixpoint entries_from (old : list Entry) (l : list json) : option (list Entry) :=
  match l with
  | [] => Some []
  | j :: l' => e ← entry_from (hd zero_entry old) j; es ← entries_from (tl old) l'; Some (e :: es)
  end.

(** A slice of entries; [None] is nil. *)
#[global] Instance json_entries : JsonField (option (list Entry)) := {|
  to_json o := match o with None => JNull | Some l => JArr ((fun e => JObj (entry_members e)) <$> l) end;
  from_json old j := match j with JNull => Some None | JArr l => Some <$> entries_from (default [] old) l | _ => None end;
|}.

Record File := MkFile { SchemaVersion : Z; Entries : option (list Entry) }.
Definition CurrentSchema : Z := 1.
Definition zero_file : File := MkFile 0 None.

Definition entries (f : File) : list Entry := default [] (Entries f).

Definition file_fields : list string := ["schema_version"; "entries"].
Definition file_json (f : File) : json :=
  JObj [("schema_version", to_json (SchemaVersion f)); ("entries", to_json (Entries f))].
Definition file_from (j : json) : option File :=
  match j with
  | JNull => Some zero_file
  | JObj l => a1 ← get file_fields l "schema_version" 0%Z; a2 ← get file_fields l "entries" None; Some (MkFile a1 a2)
  | _ => None
  end.

(** json.Marshal refuses a time whose year does not have four digits. *)
Definition times_ok (e : Entry) : bool :=
  forallb year_ok [LastAttach e; LastSeenBySupervisor e; BackoffUntil e; NextHealthCheck e; DetachedSince e].

(** ** Errors *)

Definition invalid_identity (why : string) : gerr := EWrap why [ESent ErrInvalidIdentity].
Definition targetOwnedError (candidate owner : Entry) : gerr := EWrap (ID owner) [ESent ErrTargetOwned].
Definition registrationOwnedError (candidate owner : Entry) : gerr := EWrap (ID owner) [ESent ErrRegistrationOwned].

(** CommittedDurabilityError of this package. *)
Definition CommittedDurabilityError (p : path) (cause : gerr) : gerr := ECommitted p "" cause.

(** ** Names *)

(** The text of an error filepath.EvalSymlinks makes itself. *)
Definition message (e : gerr) : string := match e with EMsg m => m | _ => "" end.

Definition uncertainSymlinkResolution (e : gerr) : bool :=
  errors_Is_errno (IOErr EACCES) e || errors_Is_errno ELOOP e || Contains (ToLower (message e)) "too many links".

Section store.
Context `{Machine} `{Bridge.Crypto} `{SortSlice}.

Definition CanonicalRoot (root : string) : string + gerr :=
  if bool_decide (TrimSpace root = "") then inr (EMsg "entry root is required") else
  match AbsName (CleanName root) with
  | inr e => inr e
  | inl abs =>
    match EvalSymlinks abs with
    | inl real => inl real
    | inr x => let e := name_error x in
               if uncertainSymlinkResolution e then inr (Errorf "canonicalize root" e) else inl abs
    end
  end.

Definition canonicalRoot (root : string) : string :=
  match CanonicalRoot root with inl c => c | inr _ => CleanName root end.

Definition NUL : string := String (chr 0) "".

Definition EntryID (root agent adapterName target : string) : string :=
  EncodeToString (Bridge.Sum256 (canonicalRoot root +:+ NUL +:+ agent +:+ NUL +:+ adapterName +:+ NUL +:+ target)).

Definition canonicalStoredFileTarget (target : string) : string :=
  match AbsName (CleanName target) with
  | inr _ => CleanName target
  | inl abs =>
    match EvalSymlinks abs with
    | inl resolved => CleanName resolved
    | inr _ =>
      match EvalSymlinks (DirName abs) with
      | inl parent => JoinName (CleanName parent) (BaseName abs)
      | inr _ => abs
      end
    end
  end.

Definition canonicalStoredTarget (adapterName target : string) : string :=
  let target := TrimSpace target in
  if bool_decide (adapterName ∈ ["cmux"; "ghostty"]) then ToLower target
  else if bool_decide (adapterName = "file") then canonicalStoredFileTarget target
  else target.

Definition sameRootAgent (left right : Entry) : bool :=
  if negb (bool_decide (Agent left = Agent right)) then false else
  match CanonicalRoot (Root left), CanonicalRoot (Root right) with
  | inl leftRoot, inl rightRoot => bool_decide (leftRoot = rightRoot)
  | _, _ => false
  end.

(** The same terminal of the same adapter. *)
Definition sameTarget (left right : Entry) : bool :=
  bool_decide (Adapter left = Adapter right) &&
  bool_decide (canonicalStoredTarget (Adapter left) (Target left) = canonicalStoredTarget (Adapter right) (Target right)).

Definition sameRegistration (left right : Entry) : bool := sameRootAgent left right && sameTarget left right.

Definition sameEntryIdentity (left right : Entry) : bool :=
  bool_decide (ID left = ID right) && bool_decide (Root left = Root right) && bool_decide (Agent left = Agent right) &&
  bool_decide (Adapter left = Adapter right) && bool_decide (Target left = Target right).

Definition conflictingTargetOwner (l : list Entry) (candidate : Entry) (ignoreSameRootAgent : bool) : option Entry :=
  List.find (fun existing =>
    negb (bool_decide (ID existing = ID candidate)) &&
    negb (ignoreSameRootAgent && sameRootAgent existing candidate) && sameTarget existing candidate) l.

Definition conflictingRegistrationOwner (l : list Entry) (candidate : Entry) : option Entry :=
  List.find (fun existing => negb (bool_decide (ID existing = ID candidate)) && sameRootAgent existing candidate) l.

(** ** Identities *)

Definition validateEntryIdentity (e : Entry) : option gerr :=
  if bool_decide (Agent e = "") || bool_decide (Adapter e = "") || bool_decide (Target e = "")
  then Some (invalid_identity "missing identity fields") else
  match CanonicalRoot (Root e) with
  | inr err => Some (EWrap "canonicalize entry root" [ESent ErrInvalidIdentity; err])
  | inl root =>
    if bool_decide (ID e = EntryID root (Agent e) (Adapter e) (Target e)) then None
    else Some (invalid_identity "entry id does not match identity")
  end.

Fixpoint validate_entries (seen : list string) (l : list Entry) : option gerr :=
  match l with
  | [] => None
  | e :: l' =>
    match validateEntryIdentity e with
    | Some err => Some err
    | None => if bool_decide (ID e ∈ seen) then Some (invalid_identity "duplicate entry id")
              else validate_entries (ID e :: seen) l'
    end
  end.

Definition validateFileIdentities (f : File) : option gerr := validate_entries [] (entries f).

Definition sortEntries (l : list Entry) : list Entry := sort_slice (fun a b => str_ltb (ID a) (ID b)) l.

(** ** Reading and writing the file *)

Definition parse_file (data : string) : File + gerr :=
  match j ← Unmarshal data; file_from j with
  | None => inr (EWrap "unmarshal" [ESent ErrCorrupt])
  | Some f =>
    let f := if Z.eqb (SchemaVersion f) 0 then MkFile CurrentSchema (Entries f) else f in
    if negb (Z.eqb (SchemaVersion f) CurrentSchema) then inr (EMsg "unsupported registry schema version") else
    match validateFileIdentities f with
    | Some e => inr (EWrap "identities" [ESent ErrCorrupt; e])
    | None => inl (MkFile (SchemaVersion f) (sortEntries <$> Entries f))
    end
  end.

Definition loadUnlocked (p : path) : prog (File + gerr) :=
  x ← Ambient.os_ReadFile p;
  match x with
  | (_, Some e) => if errors_Is_NotExist e then Ret (inl (MkFile CurrentSchema None)) else Ret (inr e)
  | (data, None) => Ret (parse_file data)
  end.

Definition syncDir (dir : path) : prog (option gerr) :=
  let_ok file := sys (SOpen dir) orelse x => Ret (Some (EErrno x)) in
  o ← call (SFsync file);
  _ ← sys (SClose file);
  Ret o.

Definition finishCommittedRegistryFile (p dir : path) : prog (option gerr) :=
  if_err e := call (SChmod p 384) then Ret (Some (CommittedDurabilityError p e)) else
  if_err e := syncDir dir then Ret (Some (CommittedDurabilityError p e)) else
  Ret None.

(** os.CreateTemp(dir, ".registry-*.tmp"): other names are tried as long as the name is taken. *)
Fixpoint CreateTemp (tries : nat) (dir : path) : prog (option handle * option gerr) :=
  r ← sys SRand;
  let name := Join_under dir [".registry-" +:+ itoa r +:+ ".tmp"] in
  x ← sys (SOpenExcl name);
  match x with
  | Ok f => Ret (Some f, None)
  | Er n =>
    if os_IsExist (EErrno n) then
      match tries with S tries' => CreateTemp tries' dir | O => Ret (None, Some (EErrno EEXIST)) end
    else Ret (None, Some (EErrno n))
  end.

(** The file as enc.Encode writes it. *)
Definition file_text (f : File) : string := MarshalIndent (file_json f) +:+ LF.

(** What saveUnlocked does with the temporary, before it removes what is left of it. *)
Definition write_temp (tmp : handle) (p dir : path) (f : File) : prog (option gerr) :=
  if_err e := call (SFchmod tmp 384) then _ ← sys (SClose tmp); Ret (Some e) else
  if negb (forallb times_ok (entries f)) then _ ← sys (SClose tmp); Ret (Some (EMsg "year outside of range [0,9999]")) else
  w ← sys (SWrite tmp (file_text f));
  match w with
  | (_, Some x) => _ ← sys (SClose tmp); Ret (Some (EErrno x))
  | (_, None) =>
    if_err e := call (SFsync tmp) then _ ← sys (SClose tmp); Ret (Some e) else
    if_err e := call (SClose tmp) then Ret (Some e) else
    if_err e := call (SRename (h_path tmp) p) then Ret (Some e) else
    finishCommittedRegistryFile p dir
  end.

Definition saveUnlocked (p : path) (f : File) : prog (option gerr) :=
  let f := MkFile CurrentSchema (Entries f) in
  match validateFileIdentities f with
  | Some e => Ret (Some e)
  | None =>
    let f := MkFile CurrentSchema (sortEntries <$> Entries f) in
    let dir := Dir p in
    x ← CreateTemp (Z.to_nat 9999) dir;
    match x with
    | (Some tmp, None) =>
      o ← write_temp tmp p dir f;
      _ ← sys (SRemove (h_path tmp));
      Ret o
    | (_, Some e) => Ret (Some e)
    | (None, None) => Ret None
    end
  end.

(** ** The lock *)

Definition validateRegistryDir (i : info) : option gerr :=
  if bool_decide (i_kind i = KSym) then Some (EMsg "registry directory must not be a symlink")
  else if negb (bool_decide (i_kind i = KDir)) then Some (EMsg "registry directory must be a directory")
  else if negb (Z.eqb (i_perm i) 448) then Some (EMsg "registry directory must be mode 0700")
  else None.

Definition ensureRegistryDir (dir : path) : prog (option gerr) :=
  x ← sys (SLstat dir);
  match x with
  | Ok i => Ret (validateRegistryDir i)
  | Er n =>
    if negb (errors_Is_NotExist (EErrno n)) then Ret (Some (EErrno n)) else
    if_err e := call (SMkdirAll dir 448) then Ret (Some e) else
    if_err e := call (SChmod dir 448) then Ret (Some e) else
    let_ok i := sys (SLstat dir) orelse n => Ret (Some (EErrno n)) in
    Ret (validateRegistryDir i)
  end.

Definition openPinnedLock (p : path) : prog (option handle * option gerr) :=
  let_ok lock := sys (SOpenCreateNoFollow p) orelse x => Ret (None, Some (EErrno x)) in
  if_err e := call (SFchmod lock 384) then _ ← sys (SClose lock); Ret (None, Some e) else
  Ret (Some lock, None).

Definition recheckLockIdentity (lock : handle) (p : path) : prog (option gerr) :=
  let_ok fdStat := sys (SFstat lock) orelse x => Ret (Some (EErrno x)) in
  let_ok pathStat := sys (SLstat p) orelse x => Ret (Some (EErrno x)) in
  if negb (SameFile fdStat pathStat) then Ret (Some (EMsg "registry lock was replaced"))
  else if negb (bool_decide (i_kind fdStat = KFile)) then Ret (Some (EMsg "registry lock is not a regular file"))
  else if negb (Z.eqb (i_perm fdStat) 384) then Ret (Some (EMsg "registry lock must be mode 0600"))
  else Ret None.

(** [path + suffix]. *)
Definition suffixed (p : path) (suffix : string) : path := Dir p ++ [Base p +:+ suffix].

Definition withLock {A} (p : path) (fail : gerr -> A) (fn : prog A) : prog A :=
  if bool_decide (p = []) then Ret (fail (EMsg "registry path is required")) else
  if_err e := ensureRegistryDir (Dir p) then Ret (fail e) else
  let lockPath := suffixed p ".lock" in
  x ← openPinnedLock lockPath;
  match x with
  | (Some lock, None) =>
    if_err e := call (SFlock lock) then _ ← sys (SClose lock); Ret (fail e) else
    r ← (if_err e := recheckLockIdentity lock lockPath then Ret (fail e) else fn);
    _ ← sys (SFunlock lock);
    _ ← sys (SClose lock);
    Ret r
  | (_, Some e) => Ret (fail e)
  | (None, None) => fn
  end.

(** The lock, and what the file holds. *)
Definition with_file {A} (p : path) (fail : gerr -> A) (body : File -> prog A) : prog A :=
  withLock p fail (
    x ← loadUnlocked p;
    match x with inr e => Ret (fail e) | inl f => body f end).

Definition Load (p : path) : prog (File * option gerr) :=
  if bool_decide (p = []) then Ret (zero_file, Some (EMsg "registry path is required")) else
  with_file p (fun e => (zero_file, Some e)) (fun f => Ret (f, None)).

Definition Save (p : path) (f : File) : prog (option gerr) :=
  if bool_decide (p = []) then Ret (Some (EMsg "registry path is required")) else withLock p Some (saveUnlocked p f).

(** ** Registering *)

Definition set_identity (e : Entry) (root id state : string) (attach : Z) : Entry :=
  MkEntry id root (BaseRoot e) (SessionName e) (Agent e) (Adapter e) (Target e) (OwnershipKey e) state attach
    (LastSeenBySupervisor e) (FailureCount e) (BackoffUntil e) (NextHealthCheck e) (DetachedSince e) (LastError e)
    (LastSupervisorDecision e).

Definition prepare_at (now : Z) (e : Entry) : Entry + gerr :=
  match CanonicalRoot (Root e) with
  | inr err => inr err
  | inl root =>
    if bool_decide (Agent e = "") then inr (EMsg "entry agent is required")
    else if bool_decide (Adapter e = "") then inr (EMsg "entry adapter is required")
    else if bool_decide (Target e = "") then inr (EMsg "entry target is required")
    else
      let wantID := EntryID root (Agent e) (Adapter e) (Target e) in
      if negb (bool_decide (ID e = "")) && negb (bool_decide (ID e = wantID))
      then inr (invalid_identity "id does not match identity")
      else inl (set_identity e root wantID (if bool_decide (State e = "") then StateAttached else State e)
                  (if IsZero (LastAttach e) then now else LastAttach e))
  end.

Definition prepareEntry (e : Entry) : prog (Entry + gerr) := now ← sys SNow; Ret (prepare_at now e).

(** The first entry with an id is replaced; [None] when there is none. *)
Fixpoint put_first (id : string) (e : Entry) (l : list Entry) : option (list Entry) :=
  match l with
  | [] => None
  | x :: l' => if bool_decide (ID x = id) then Some (e :: l') else (cons x) <$> put_first id e l'
  end.

Definition upsert (l : list Entry) (prepared : Entry) : list Entry + gerr :=
  match conflictingRegistrationOwner l prepared with
  | Some owner =>
    match (if sameRegistration owner prepared then put_first (ID owner) prepared l else None) with
    | Some l' => inl l'
    | None => inr (registrationOwnedError prepared owner)
    end
  | None =>
    match conflictingTargetOwner l prepared false with
    | Some owner => inr (targetOwnedError prepared owner)
    | None => inl (match put_first (ID prepared) prepared l with Some l' => l' | None => l ++ [prepared] end)
    end
  end.

Definition Upsert (p : path) (e : Entry) : prog (Entry * option gerr) :=
  x ← prepareEntry e;
  match x with
  | inr err => Ret (zero_entry, Some err)
  | inl prepared =>
    o ← with_file p Some (fun f =>
      match upsert (entries f) prepared with
      | inr err => Ret (Some err)
      | inl l => saveUnlocked p (MkFile (SchemaVersion f) (Some l))
      end);
    Ret (prepared, o)
  end.

Definition ReplaceSessionAdapter (p : path) (e : Entry) : prog (Entry * list Entry * option gerr) :=
  x ← prepareEntry e;
  match x with
  | inr err => Ret (zero_entry, [], Some err)
  | inl prepared =>
    '(removed, o) ← with_file p (fun err => ([], Some err)) (fun f =>
      match conflictingTargetOwner (entries f) prepared true with
      | Some owner => Ret ([], Some (targetOwnedError prepared owner))
      | None =>
        let removed := List.filter (fun x => sameRootAgent x prepared) (entries f) in
        let next := List.filter (fun x => negb (sameRootAgent x prepared)) (entries f) in
        o ← saveUnlocked p (MkFile (SchemaVersion f) (Some (next ++ [prepared])));
        Ret (removed, o)
      end);
    Ret (prepared, removed, o)
  end.

(** The other entries when the expected one is there unchanged and alone for its agent. *)
Fixpoint unchanged_index (expected : Entry) (i : nat) (l : list Entry) (index : option nat) : option nat :=
  match l with
  | [] => index
  | x :: l' =>
    if sameRootAgent x expected && negb (bool_decide (ID x = ID expected)) then None else
    if bool_decide (ID x = ID expected) then
      if negb (bool_decide (x = expected)) then None else unchanged_index expected (S i) l' (Some i)
    else unchanged_index expected (S i) l' index
  end.

Definition RestoreSessionAdapterIfUnchanged (p : path) (expected : Entry) (previous : list Entry) : prog (bool * option gerr) :=
  if bool_decide (ID expected = "") then Ret (false, Some (EMsg "expected reservation id is required")) else
  with_file p (fun err => (false, Some err)) (fun f =>
    match unchanged_index expected 0 (entries f) None with
    | None => Ret (false, None)
    | Some i =>
      let next := take i (entries f) ++ drop (S i) (entries f) ++ previous in
      if_err err := saveUnlocked p (MkFile (SchemaVersion f) (Some next)) then Ret (false, Some err) else
      Ret (true, None)
    end).

Definition CheckTargetAvailable (p : path) (e : Entry) (ignoreSameRootAgent : bool) : prog (option gerr) :=
  x ← prepareEntry e;
  match x with
  | inr err => Ret (Some err)
  | inl prepared =>
    with_file p Some (fun f =>
      match conflictingTargetOwner (entries f) prepared ignoreSameRootAgent with
      | Some owner => Ret (Some (targetOwnedError prepared owner))
      | None => Ret None
      end)
  end.

(** ** Updating *)

Definition UpdateEntry (p : path) (e : Entry) : prog (option gerr) :=
  with_file p Some (fun f =>
    match List.find (fun x => bool_decide (ID x = ID e)) (entries f) with
    | None => Ret (Some (EMsg "registry entry not found"))
    | Some old =>
      match validateEntryIdentity e with
      | Some err => Ret (Some err)
      | None =>
        if negb (sameEntryIdentity old e) then Ret (Some (invalid_identity "identity fields are immutable")) else
        match put_first (ID e) e (entries f) with
        | Some l => saveUnlocked p (MkFile (SchemaVersion f) (Some l))
        | None => Ret None
        end
      end
    end).

Record EntryUpdate := MkUpdate { Before : Entry; After : Entry }.
Record UpdateResult := MkCounts { Updated : nat; Skipped : nat }.

Fixpoint check_updates (seen : list string) (us : list EntryUpdate) : option gerr :=
  match us with
  | [] => None
  | u :: us' =>
    if bool_decide (ID (Before u) = "") || bool_decide (ID (After u) = "")
    then Some (EMsg "batch update entry id is required")
    else if negb (bool_decide (ID (Before u) = ID (After u))) then Some (EMsg "batch update changes entry id")
    else if negb (sameEntryIdentity (Before u) (After u)) then Some (invalid_identity "identity fields are immutable")
    else if bool_decide (ID (Before u) ∈ seen) then Some (EMsg "batch update contains duplicate entry")
    else check_updates (ID (Before u) :: seen) us'
  end.

(** byID: the index of the last entry with an id. *)
Definition byID (l : list Entry) (id : string) : option nat :=
  last (fst <$> List.filter (fun iv => bool_decide (ID iv.2 = id)) (zip (seq 0 (length l)) l)).

Fixpoint apply_updates (us : list EntryUpdate) (index : string -> option nat) (l : list Entry) (r : UpdateResult)
  : list Entry * UpdateResult * option gerr :=
  match us with
  | [] => (l, r, None)
  | u :: us' =>
    match i ← index (ID (Before u)); x ← l !! i; Some (i, x) with
    | Some (i, x) =>
      if negb (bool_decide (x = Before u)) then apply_updates us' index l (MkCounts (Updated r) (S (Skipped r)))
      else if bool_decide (Before u = After u) then apply_updates us' index l r
      else if negb (sameEntryIdentity x (After u)) then (l, r, Some (invalid_identity "identity fields are immutable"))
      else apply_updates us' index (<[i := After u]> l) (MkCounts (S (Updated r)) (Skipped r))
    | None => apply_updates us' index l (MkCounts (Updated r) (S (Skipped r)))
    end
  end.

Definition UpdateEntries (p : path) (us : list EntryUpdate) : prog (UpdateResult * option gerr) :=
  match check_updates [] us with
  | Some err => Ret (MkCounts 0 0, Some err)
  | None =>
    if bool_decide (length us = 0) then Ret (MkCounts 0 0, None) else
    with_file p (fun err => (MkCounts 0 0, Some err)) (fun f =>
      match apply_updates us (byID (entries f)) (entries f) (MkCounts 0 0) with
      | (_, r, Some err) => Ret (r, Some err)
      | (l, r, None) =>
        if bool_decide (Updated r = 0) then Ret (r, None) else
        o ← saveUnlocked p (MkFile (SchemaVersion f) (Some l));
        Ret (r, o)
      end)
  end.

(** ** Forgetting *)

Definition ForgetIfUnchanged (p : path) (expected : Entry) : prog (bool * option gerr) :=
  if bool_decide (ID expected = "") then Ret (false, Some (EMsg "expected entry id is required")) else
  with_file p (fun err => (false, Some err)) (fun f =>
    match list_find (fun x => ID x = ID expected) (entries f) with
    | None => Ret (false, None)
    | Some (i, x) =>
      if negb (bool_decide (x = expected)) then Ret (false, None) else
      o ← saveUnlocked p (MkFile (SchemaVersion f) (Some (delete i (entries f))));
      Ret (true, o)
    end).

Definition ForgetMany (p : path) (ids : list string) : prog (nat * option gerr) :=
  let wanted : gset string := list_to_set (filter (fun id => id <> "") ids) in
  with_file p (fun err => (0, Some err)) (fun f =>
    let found := length (filter (fun x => ID x ∈ wanted) (entries f)) in
    if negb (bool_decide (found = size wanted)) then Ret (0, Some (EMsg "registry entries requested for removal not found")) else
    o ← saveUnlocked p (MkFile (SchemaVersion f) (filter (fun x => ID x ∉ wanted) <$> Entries f));
    Ret (found, o)).

Definition Forget (p : path) (id : string) : prog (bool * option gerr) :=
  '(removed, err) ← ForgetMany p [id];
  Ret (bool_decide (removed = 1), err).

(** ** The registration lock *)

(** The tries to lock; [chosen] says what a select or a check of the context takes: the error of a
    cancelled context, or the other branch. *)
Fixpoint try_lock (rounds : nat) (lock : handle) (p : path) (chosen : nat -> option gerr) : prog (option (option gerr)) :=
  match rounds with
  | O => Ret None
  | S rounds' =>
    x ← sys (STryFlock lock);
    match x with
    | Er n => Ret (Some (Some (EErrno n)))
    | Ok true =>
      if_err e := recheckLockIdentity lock p then _ ← sys (SFunlock lock); Ret (Some (Some e)) else
      Ret (Some None)
    | Ok false =>
      match chosen rounds' with
      | Some e => Ret (Some (Some e))
      | None => try_lock rounds' lock p chosen
      end
    end
  end.

(** [None] when the rounds were not enough. *)
Definition WithRegistrationLockContext {A} (rounds : nat) (p : path) (chosen : nat -> option gerr) (fail : gerr -> A)
    (fn : prog A) : prog (option A) :=
  if bool_decide (p = []) then Ret (Some (fail (EMsg "registry path is required"))) else
  let lockPath := suffixed p ".registration.lock" in
  match chosen (S rounds) with
  | Some e => Ret (Some (fail e))
  | None =>
    if_err e := ensureRegistryDir (Dir lockPath) then Ret (Some (fail e)) else
    x ← openPinnedLock lockPath;
    match x with
    | (_, Some e) => Ret (Some (fail e))
    | (None, None) => Ret None
    | (Some lock, None) =>
      y ← try_lock rounds lock lockPath chosen;
      match y with
      | None => Ret None
      | Some (Some e) => _ ← sys (SClose lock); Ret (Some (fail e))
      | Some None =>
        r ← match chosen rounds with Some e => Ret (fail e) | None => fn end;
        _ ← sys (SFunlock lock);
        _ ← sys (SClose lock);
        Ret (Some r)
      end
    end
  end.

End store.
