(* ===== verification/RegistryJson.v ===== *)
(** The text of the registry file: what is written is read back, and what was read can be
    written again. *)
From S2P Require Import Prelude GoStr GoSort GoTime TimeParse GoPath GoErr GoFile Json JsonFacts JsonStruct JsonUtf8 Registry.
From S2P Require ReceiptFacts DrainLoop Presence.

(** ** Texts at every depth *)

Fixpoint all_texts (j : json) : bool :=
  match j with
  | JStr s => utf8_valid s
  | JArr l => forallb all_texts l
  | JObj l => forallb (fun kv => all_texts kv.2) l
  | _ => true
  end.

Lemma value_all_texts n :
  (forall s j r, value n s = Some (j, r) -> all_texts j = true) /\
  (forall s l r, members n s = Some (l, r) -> forallb (fun kv : string * json => all_texts kv.2) l = true) /\
  (forall s l r, elems n s = Some (l, r) -> forallb all_texts l = true).
Proof.
  induction n as [|n (IHv & IHm & IHe)]; [done|]. split_and!; intros s j r; cbn [value members elems].
  - destruct (skip_ws s) as [|c s']; [done|]. destruct (Ascii.eqb c (chr 34)).
    { destruct (unquote s') as [[x r']|] eqn:Eu; [|done]. intros [= <- <-]. by eapply unquote_valid. }
    destruct (Ascii.eqb c (chr 123)).
    { destruct (HasPrefix _ _); [by intros [= <- <-]|]. destruct (members n s') as [[l r']|] eqn:Em; [|done].
      intros [= <- <-]. by eapply IHm. }
    destruct (Ascii.eqb c (chr 91)).
    { destruct (HasPrefix _ _); [by intros [= <- <-]|]. destruct (elems n s') as [[l r']|] eqn:Ee; [|done].
      intros [= <- <-]. by eapply IHe. }
    do 3 (destruct (HasPrefix (String c s') _); [by intros [= <- <-]|]). destruct (scan_number _) as [[l r']|]; [|done]. by intros [= <- <-].
  - destruct (skip_ws s) as [|q s']; [done|]. destruct (negb _); [done|].
    destruct (unquote s') as [[k r']|]; [|done]. cbn [mbind option_bind]. destruct (skip_ws r') as [|c s2]; [done|].
    destruct (negb _); [done|]. destruct (value n s2) as [[v r2]|] eqn:Ev; [|done]. cbn [mbind option_bind].
    apply IHv in Ev. destruct (skip_ws r2) as [|c2 s3]; [done|]. destruct (Ascii.eqb c2 (chr 44)).
    + destruct (members n s3) as [[l r3]|] eqn:Em; [|done]. intros [= <- <-]. cbn. rewrite Ev. by eapply IHm.
    + destruct (Ascii.eqb c2 (chr 125)); [|done]. intros [= <- <-]. cbn. by rewrite Ev.
  - destruct (value n s) as [[v r2]|] eqn:Ev; [|done]. cbn [mbind option_bind]. apply IHv in Ev.
    destruct (skip_ws r2) as [|c2 s3]; [done|]. destruct (Ascii.eqb c2 (chr 44)).
    + destruct (elems n s3) as [[l r3]|] eqn:Em; [|done]. intros [= <- <-]. cbn. rewrite Ev. by eapply IHe.
    + destruct (Ascii.eqb c2 (chr 93)); [|done]. intros [= <- <-]. cbn. by rewrite Ev.
Qed.

Lemma Unmarshal_all_texts s j : Unmarshal s = Some j -> all_texts j = true.
Proof.
  unfold Unmarshal, Decode. destruct (value _ s) as [[j' r]|] eqn:Ed; [|done]. cbn. case_match; [|done]. intros [= <-].
  by eapply value_all_texts.
Qed.

(** ** Instants *)

#[global] Program Instance json_instant_law : JsonFieldLaw instant := {| good t := year_ok (nanos t) |}.
Next Obligation. intros [t] _. cbn. apply stamp_utf8, Format_RFC3339Nano_stamp. Qed.
Next Obligation.
  intros [t] old Ht. cbn in *. unfold year_ok in Ht. apply andb_true_iff in Ht as [H1%Z.leb_le H2%Z.leb_le].
  by rewrite Parse_Format.
Qed.

(** ** Entries *)

Record entry_text (e : Entry) : Prop := {
  et_id : utf8_valid (ID e) = true; et_root : utf8_valid (Root e) = true; et_base : utf8_valid (BaseRoot e) = true;
  et_session : utf8_valid (SessionName e) = true; et_agent : utf8_valid (Agent e) = true;
  et_adapter : utf8_valid (Adapter e) = true; et_target : utf8_valid (Target e) = true;
  et_key : utf8_valid (OwnershipKey e) = true; et_state : utf8_valid (State e) = true;
  et_error : utf8_valid (LastError e) = true; et_decision : utf8_valid (LastSupervisorDecision e) = true;
  et_count : int64_range (FailureCount e) = true;
}.

Lemma times_good e : times_ok e = true ->
  good (At (LastAttach e)) = true /\ good (At (LastSeenBySupervisor e)) = true /\ good (At (BackoffUntil e)) = true /\
  good (At (NextHealthCheck e)) = true /\ good (At (DetachedSince e)) = true.
Proof. unfold times_ok. cbn [forallb]. rewrite !andb_true_iff. intros (?&?&?&?&?&_). done. Qed.

Lemma entry_back e : entry_text e -> times_ok e = true -> entry_from zero_entry (JObj (entry_members e)) = Some e.
Proof.
  intros [] (Ht1&Ht2&Ht3&Ht4&Ht5)%times_good.
  assert (let get {A} `{JsonField A} := @get A _ entry_fields (entry_members e) in
    get "id" "" = Some (ID e) /\ get "root" "" = Some (Root e) /\ get "base_root" "" = Some (BaseRoot e) /\
    get "session_name" "" = Some (SessionName e) /\ get "agent" "" = Some (Agent e) /\ get "adapter" "" = Some (Adapter e) /\
    get "target" "" = Some (Target e) /\ get "ownership_key" "" = Some (OwnershipKey e) /\ get "state" "" = Some (State e) /\
    get "last_attach" (At zero_time) = Some (At (LastAttach e)) /\
    get "last_seen_by_supervisor" (At zero_time) = Some (At (LastSeenBySupervisor e)) /\
    get "failure_count" 0%Z = Some (FailureCount e) /\ get "backoff_until" (At zero_time) = Some (At (BackoffUntil e)) /\
    get "next_health_check" (At zero_time) = Some (At (NextHealthCheck e)) /\
    get "detached_since" (At zero_time) = Some (At (DetachedSince e)) /\ get "last_error" "" = Some (LastError e) /\
    get "last_supervisor_decision" "" = Some (LastSupervisorDecision e)) as Hg.
  { unfold entry_members. cbv zeta. split_and!; get_field; try done; by intros E%bool_decide_eq_true. }
  cbv zeta in Hg. unfold entry_from. cbv zeta. cbn [zero_entry ID Root BaseRoot SessionName Agent Adapter Target OwnershipKey State
    LastAttach LastSeenBySupervisor FailureCount BackoffUntil NextHealthCheck DetachedSince LastError LastSupervisorDecision].
  destruct Hg as (-> & -> & -> & -> & -> & -> & -> & -> & -> & -> & -> & -> & -> & -> & -> & -> & ->). by destruct e.
Qed.

Lemma entry_wf e : entry_text e -> times_ok e = true -> wf_json (JObj (entry_members e)) = true.
Proof.
  intros [] (Ht1&Ht2&Ht3&Ht4&Ht5)%times_good. change (wf_members (entry_members e) = true). unfold entry_members. wf_fields. done.
Qed.

Lemma entries_back l : Forall entry_text l -> forallb times_ok l = true ->
  entries_from [] ((fun e => JObj (entry_members e)) <$> l) = Some l.
Proof.
  induction l as [|e l IH]; [done|]. intros Hl [He Hts]%andb_true_iff. inv Hl. cbn [fmap list_fmap entries_from hd tl].
  rewrite entry_back by done. cbn [mbind option_bind]. change (list_fmap Entry json) with (@fmap list _ Entry json).
  by rewrite IH.
Qed.

Lemma entries_wf l : Forall entry_text l -> forallb times_ok l = true ->
  forallb wf_json ((fun e => JObj (entry_members e)) <$> l) = true.
Proof.
  induction l as [|e l IH]; [done|]. intros Hl [He Hts]%andb_true_iff. inv Hl. cbn [fmap list_fmap forallb].
  rewrite entry_wf by done. by apply IH.
Qed.

Lemma get_single {A} `{JsonField A} names n x (a : A) :
  bool_decide (n ∈ names) = true -> get names [(n, x)] n a = from_json a x.
Proof.
  intros Hn. cbn [get]. rewrite field_of_name by done. rewrite bool_decide_eq_true_2 by done. by destruct (from_json a x).
Qed.

Lemma slice_back o : Forall entry_text (default [] o) -> forallb times_ok (default [] o) = true ->
  from_json (@None (list Entry)) (to_json o) = Some o.
Proof. destruct o as [l|]; [|done]. intros Hl Ht. cbn [default from_option id] in *. cbn -[entries_from]. by rewrite entries_back. Qed.

Lemma slice_wf o : Forall entry_text (default [] o) -> forallb times_ok (default [] o) = true -> wf_json (to_json o) = true.
Proof. destruct o as [l|]; [|done]. apply entries_wf. Qed.

Lemma file_json_wf f : Forall entry_text (entries f) -> forallb times_ok (entries f) = true -> int64_range (SchemaVersion f) = true ->
  wf_json (file_json f) = true.
Proof.
  intros Hl Hts Hv. change (wf_members [("schema_version", to_json (SchemaVersion f)); ("entries", to_json (Entries f))] = true).
  apply wf_members_cons; [done|done|]. unfold wf_members. cbn [forallb fst snd]. by rewrite slice_wf.
Qed.

Lemma file_json_back f : Forall entry_text (entries f) -> forallb times_ok (entries f) = true -> int64_range (SchemaVersion f) = true ->
  file_from (file_json f) = Some f.
Proof.
  intros Hl Hts Hv. pose proof (slice_back (Entries f) Hl Hts) as Hb. destruct f as [v o]. cbn [SchemaVersion Entries] in *.
  unfold file_from, file_json. cbn [SchemaVersion Entries]. revert Hb. generalize (to_json o). intros x Hb.
  rewrite get_here by done. rewrite get_other by done. by rewrite get_single, Hb.
Qed.

Lemma file_back f : Forall entry_text (entries f) -> forallb times_ok (entries f) = true -> int64_range (SchemaVersion f) = true ->
  Unmarshal (file_text f) = Some (file_json f) /\ file_from (file_json f) = Some f.
Proof. intros Hl Hts Hv. split; [by apply ReceiptFacts.Unmarshal_line, file_json_wf|by apply file_json_back]. Qed.

(** ** What was read *)

Lemma get_all_text names l n a s : forallb (fun kv => all_texts kv.2) l = true -> utf8_valid a = true ->
  get names l n a = Some s -> utf8_valid s = true.
Proof.
  revert a. induction l as [|[k v] l IH]; intros a; cbn; [by intros _ ? [= <-]|]. intros [Hv Hl]%andb_true_iff Ha.
  case_bool_decide; [|by apply IH]. destruct v; try done; cbn; by apply IH.
Qed.

Lemma get_int64 names l n a z : int64_range a = true -> get names l n a = Some z -> int64_range z = true.
Proof.
  apply (Presence.get_in_range (fun z => int64_range z = true)). intros old [| |x| | |] y Ho; cbn; try done.
  - by intros [= <-].
  - unfold ParseInt. destruct (match x with "" => None | _ => _ end) as [u|]; [|done]. cbn.
    destruct (int64_range u) eqn:E; [|done]. by intros [= <-].
Qed.

Lemma entry_from_text old j e : all_texts j = true -> entry_text old -> entry_from old j = Some e -> entry_text e.
Proof.
  intros Hj Ho. destruct j as [| | | | |l]; try done; [by intros [= <-]|]. cbn in Hj. destruct Ho. unfold entry_from. cbv zeta.
  repeat match goal with |- context [get entry_fields l ?n ?a] =>
    let E := fresh "E" in destruct (get entry_fields l n a) eqn:E; [|done]; cbn [mbind option_bind] end.
  intros [= <-]. split; cbn; first [eapply get_all_text; [exact Hj| |eassumption]; eassumption|eapply get_int64; [|eassumption]; eassumption].
Qed.

Lemma zero_entry_text : entry_text zero_entry.
Proof. by split. Qed.

Lemma entries_from_text l : forall old es, forallb all_texts l = true -> Forall entry_text old ->
  entries_from old l = Some es -> Forall entry_text es.
Proof.
  induction l as [|j l IH]; intros old es Hl Ho; cbn; [by intros [= <-]|]. apply andb_true_iff in Hl as [Hj Hl].
  destruct (entry_from _ j) as [e|] eqn:Ee; [|done]. cbn. destruct (entries_from (tl old) l) as [es'|] eqn:Es; [|done].
  intros [= <-]. constructor.
  - eapply entry_from_text; [exact Hj| |exact Ee]. destruct Ho; [apply zero_entry_text|done].
  - eapply IH; [done| |done]. by destruct Ho.
Qed.

Lemma file_from_text j f : all_texts j = true -> file_from j = Some f -> Forall entry_text (entries f).
Proof.
  intros Hj. destruct j as [| | | | |l]; try done; [by intros [= <-]|]. cbn in Hj. unfold file_from.
  destruct (get _ l "schema_version" _) as [v|]; [|done]. cbn [mbind option_bind].
  destruct (get file_fields l "entries" None) as [o|] eqn:Eo; [|done]. cbn. intros [= <-]. unfold entries. cbn.
  assert (forall a : option (list Entry), Forall entry_text (default [] a) -> get file_fields l "entries" a = Some o ->
    Forall entry_text (default [] o)) as Hg; [|by eapply Hg; [|exact Eo]].
  clear Eo. induction l as [|[k x] l IH]; intros a Ha; cbn [get]; [by intros [= <-]|]. cbn in Hj. apply andb_true_iff in Hj as [Hx Hl].
  case_bool_decide; [|by apply IH]. destruct (from_json a x) as [b|] eqn:Eb; [|done]. cbn [mbind option_bind]. apply IH; [done|].
  destruct x as [| | | |xs|]; try done; cbn in Eb; [by simplify_eq|].
  destruct (entries_from (default [] a) xs) as [es|] eqn:Es; [|done]. cbn in Eb. simplify_eq. by eapply entries_from_text.
Qed.
