(* ===== verification/RegistryMachine.v ===== *)
(** The registry of the keepalive as an abstract machine: a map from ids to entries, the steps
    of registering, reattaching, rolling back, updating and forgetting, and the invariants of
    every history of them. *)
From S2P Require Import Prelude GoStr GoSort GoTime GoPath GoErr GoFile Registry.
From S2P Require Bridge.

Abbreviation registry := (gmap string Entry).

Definition by_id (l : list Entry) : registry := list_to_map ((fun e => (ID e, e)) <$> l).

Inductive op :=
| Register (e : Entry)
| Reattach (e : Entry)
| Rollback (reservation : Entry) (previous : list Entry)
| Revise (e : Entry)
| ReviseAll (us : list EntryUpdate)
| Drop (ids : list string)
| DropIf (e : Entry).

(** A registration that may still be rolled back: its reservation, and what it displaced. *)
Definition pending := option (Entry * list Entry).

Section machine.
Context `{Machine} `{Bridge.Crypto}.

(** Two registrations that do not get into each other's way: not of the same agent at the same
    root, and not at the same terminal. *)
Definition apart (x y : Entry) : Prop := sameRootAgent x y = false /\ sameTarget x y = false.

(** What one update of a pass makes of an entry: it is taken when the entry is as it was seen. *)
Definition revised (us : list EntryUpdate) (x x' : Entry) : Prop :=
  (exists u, u ∈ us /\ Before u = x /\ After u = x') \/ ((forall u, u ∈ us -> Before u <> x) /\ x' = x).

Inductive rstep (m : registry) : op -> registry -> Prop :=
| r_register e now x :
    prepare_at now e = inl x -> (forall i y, m !! i = Some y -> i <> ID x -> apart y x) ->
    rstep m (Register e) (<[ID x := x]> m)
| r_rename e now x old :
    (* the same registration under another spelling of its root or target *)
    prepare_at now e = inl x -> m !! ID old = Some old -> m !! ID x = None -> sameRegistration old x = true ->
    rstep m (Register e) (<[ID x := x]> (delete (ID old) m))
| r_reattach e now x :
    prepare_at now e = inl x -> (forall i y, m !! i = Some y -> i <> ID x -> sameRootAgent y x = false -> sameTarget y x = false) ->
    (forall y, m !! ID x = Some y -> sameRootAgent y x = true) ->
    rstep m (Reattach e) (<[ID x := x]> (filter (fun iy => sameRootAgent iy.2 x = false) m))
| r_rollback r previous :
    m !! ID r = Some r -> (forall i y, m !! i = Some y -> i <> ID r -> sameRootAgent y r = false) ->
    NoDup (ID <$> previous) -> (forall x, x ∈ previous -> delete (ID r) m !! ID x = None) ->
    rstep m (Rollback r previous) (by_id previous ∪ delete (ID r) m)
| r_revise e old :
    m !! ID e = Some old -> sameEntryIdentity old e = true -> rstep m (Revise e) (<[ID e := e]> m)
| r_revise_all us m' :
    (forall u, u ∈ us -> sameEntryIdentity (Before u) (After u) = true) ->
    (forall i, option_Forall2 (revised us) (m !! i) (m' !! i)) -> rstep m (ReviseAll us) m'
| r_drop ids :
    (forall id, id ∈ ids -> id <> "" -> is_Some (m !! id)) ->
    rstep m (Drop ids) (filter (fun iy => iy.1 ∉ ids \/ iy.1 = "") m)
| r_drop_if e :
    m !! ID e = Some e -> rstep m (DropIf e) (delete (ID e) m).

(** A registration displaces what the agent had; whoever registers next ends the transaction, which
    ran under the registration lock; only its own entries can be rolled back. *)
Inductive hstep : registry * pending -> registry * pending -> Prop :=
| h_register m t e m' : rstep m (Register e) m' -> hstep (m, t) (m', None)
| h_reattach m t e m' now x removed :
    rstep m (Reattach e) m' -> prepare_at now e = inl x -> m' !! ID x = Some x ->
    (forall y, y ∈ removed -> m !! ID y = Some y /\ sameRootAgent y x = true) -> NoDup (ID <$> removed) ->
    hstep (m, t) (m', Some (x, removed))
| h_rollback m r previous m' : rstep m (Rollback r previous) m' -> hstep (m, Some (r, previous)) (m', None)
| h_other m t o m' :
    rstep m o m' -> match o with Revise _ | ReviseAll _ | Drop _ | DropIf _ => True | _ => False end -> hstep (m, t) (m', t)
| h_over m t : hstep (m, t) (m, None).

(** ** The invariant *)

(** At most one entry for an agent at a root, and at most one for a terminal. *)
Definition exclusive (m : registry) : Prop :=
  forall i j x y, m !! i = Some x -> m !! j = Some y -> i <> j -> apart x y.

Definition keyed (m : registry) : Prop := forall i x, m !! i = Some x -> ID x = i.

(** What was displaced still fits once the reservation is gone. *)
Definition restorable (m : registry) (t : pending) : Prop :=
  match t with
  | None => True
  | Some (r, previous) =>
    (forall i y x, m !! i = Some y -> i <> ID r -> x ∈ previous -> apart x y) /\
    (forall x y, x ∈ previous -> y ∈ previous -> ID x <> ID y -> apart x y) /\ NoDup (ID <$> previous)
  end.

Definition sound (s : registry * pending) : Prop := exclusive s.1 /\ keyed s.1 /\ restorable s.1 s.2.

(** ** The relations between entries *)

Lemma sameRootAgent_sym x y : sameRootAgent x y = sameRootAgent y x.
Proof.
  unfold sameRootAgent. rewrite (bool_decide_ext (Agent x = Agent y) (Agent y = Agent x)) by (split; congruence).
  destruct (negb _); [done|]. destruct (CanonicalRoot (Root x)), (CanonicalRoot (Root y)); try done.
  apply bool_decide_ext. split; congruence.
Qed.

Lemma sameTarget_sym x y : sameTarget x y = sameTarget y x.
Proof. unfold sameTarget. f_equal; apply bool_decide_ext; split; congruence. Qed.

Lemma sameRootAgent_trans x y z : sameRootAgent x y = true -> sameRootAgent x z = sameRootAgent y z.
Proof.
  unfold sameRootAgent. case_bool_decide as Ea; [|done]. cbn [negb]. rewrite Ea.
  destruct (CanonicalRoot (Root x)) as [a|]; [|done]. destruct (CanonicalRoot (Root y)) as [b|]; [|done].
  by intros ->%bool_decide_eq_true.
Qed.

Lemma sameTarget_trans x y z : sameTarget x y = true -> sameTarget x z = sameTarget y z.
Proof.
  unfold sameTarget. intros [E1%bool_decide_eq_true E2%bool_decide_eq_true]%andb_true_iff. by rewrite E2, E1.
Qed.

Lemma apart_sym x y : apart x y -> apart y x.
Proof. unfold apart. by rewrite sameRootAgent_sym, sameTarget_sym. Qed.

(** Registrations in each other's place. *)
Lemma apart_same x y z : sameRegistration x y = true -> apart x z -> apart y z.
Proof.
  unfold sameRegistration, apart. intros [E1 E2]%andb_true_iff. by rewrite (sameRootAgent_trans x y z), (sameTarget_trans x y z).
Qed.

Lemma identity_fields x y : sameEntryIdentity x y = true ->
  ID x = ID y /\ Root x = Root y /\ Agent x = Agent y /\ Adapter x = Adapter y /\ Target x = Target y.
Proof. unfold sameEntryIdentity. rewrite !andb_true_iff, !bool_decide_eq_true. tauto. Qed.

Lemma identity_apart x y z : sameEntryIdentity x y = true -> apart x z -> apart y z.
Proof.
  intros (_ & Er & Ea & Ed & Et)%identity_fields. unfold apart, sameRootAgent, sameTarget. by rewrite Er, Ea, Ed, Et.
Qed.

(** ** Each step keeps the invariant *)

Lemma exclusive_sub m m' : exclusive m -> m' ⊆ m -> exclusive m'.
Proof. intros He Hs i j x y Hx Hy. eapply He; by eapply lookup_weaken. Qed.

Lemma keyed_sub m m' : keyed m -> m' ⊆ m -> keyed m'.
Proof. intros Hk Hs i x Hx. eapply Hk. by eapply lookup_weaken. Qed.

Lemma keyed_insert m x : keyed m -> keyed (<[ID x := x]> m).
Proof. intros Hk i y [[<- <-]|[_ Hy]]%lookup_insert_Some; [done|by apply Hk]. Qed.

Lemma exclusive_insert m x : exclusive m -> (forall i y, m !! i = Some y -> i <> ID x -> apart y x) -> exclusive (<[ID x := x]> m).
Proof.
  intros He Hx i j a b Ha Hb Hij. apply lookup_insert_Some in Ha as [[<- <-]|[Hi Ha]], Hb as [[<- <-]|[Hj Hb]]; try done.
  - by apply apart_sym, (Hx j).
  - by apply (Hx i).
  - by eapply He.
Qed.

(** Entries that changed without their identities keep apart. *)
Lemma exclusive_identity m m' : exclusive m ->
  (forall i, option_Forall2 (fun x y => sameEntryIdentity x y = true) (m !! i) (m' !! i)) -> exclusive m'.
Proof.
  intros He Hi i j x y Hx Hy Hij. pose proof (Hi i) as Ei. pose proof (Hi j) as Ej. rewrite Hx in Ei. rewrite Hy in Ej.
  inv Ei as [x0 ? Sx Ex|]. inv Ej as [y0 ? Sy Ey|]. eapply identity_apart; [exact Sx|]. apply apart_sym.
  eapply identity_apart; [exact Sy|]. apply apart_sym. by eapply He.
Qed.

Lemma keyed_identity m m' : keyed m ->
  (forall i, option_Forall2 (fun x y => sameEntryIdentity x y = true) (m !! i) (m' !! i)) -> keyed m'.
Proof.
  intros Hk Hi i y Hy. pose proof (Hi i) as Ei. rewrite Hy in Ei. inv Ei as [x ? Sx Ex|]. apply identity_fields in Sx as [<- _]. by apply Hk.
Qed.

Lemma identity_refl x : sameEntryIdentity x x = true.
Proof. unfold sameEntryIdentity. by rewrite !bool_decide_eq_true_2. Qed.

(** Updates do not change identities. *)
Lemma revise_identity m o m' : rstep m o m' -> match o with Revise _ | ReviseAll _ => True | _ => False end ->
  forall i, option_Forall2 (fun x y => sameEntryIdentity x y = true) (m !! i) (m' !! i).
Proof.
  destruct 1 as [| | | |e old Ho Hid|us m' Hus Hm| |]; try done; intros _ i.
  - destruct (decide (i = ID e)) as [->|Hne]; [rewrite Ho, lookup_insert_eq; by constructor|].
    rewrite lookup_insert_ne by done. destruct (m !! i); constructor. apply identity_refl.
  - destruct (Hm i) as [x y [(u & Hu & <- & <-)|[_ ->]]|]; constructor; [by apply Hus|apply identity_refl].
Qed.

Lemma drop_sub m o m' : rstep m o m' -> match o with Drop _ | DropIf _ => True | _ => False end -> m' ⊆ m.
Proof. destruct 1; try done; intros _; [apply map_filter_subseteq|apply delete_subseteq]. Qed.

Lemma by_id_elem l i x : by_id l !! i = Some x -> x ∈ l /\ ID x = i.
Proof.
  intros E%elem_of_list_to_map_2. apply list_elem_of_fmap in E as (y & [= -> <-] & Hy). done.
Qed.

Lemma restorable_identity m m' t : restorable m t ->
  (forall i, option_Forall2 (fun x y => sameEntryIdentity x y = true) (m !! i) (m' !! i)) -> restorable m' t.
Proof.
  destruct t as [[r prev]|]; [|done]. intros (H1 & H2 & H3) Hi. split; [|done]. intros i y x Hy Hne Hx.
  pose proof (Hi i) as Ei. rewrite Hy in Ei. inv Ei as [y0 ? Sy Ey|]. apply apart_sym. eapply identity_apart; [exact Sy|].
  apply apart_sym. by eapply H1.
Qed.

Lemma restorable_sub m m' t : restorable m t -> m' ⊆ m -> restorable m' t.
Proof.
  destruct t as [[r prev]|]; [|done]. intros (H1 & H2 & H3) Hs. split; [|done]. intros i y x Hy. apply H1. by eapply lookup_weaken.
Qed.

Lemma exclusive_register m e m' : exclusive m -> keyed m -> rstep m (Register e) m' -> exclusive m' /\ keyed m'.
Proof.
  intros He Hk Hs. inv Hs as [? now x Hp Hx|? now x old Hp Ho Hn Hr| | | | | |].
  - split; [by apply exclusive_insert|by apply keyed_insert].
  - split; [|apply keyed_insert, (keyed_sub m); [done|apply delete_subseteq]].
    apply exclusive_insert; [eapply exclusive_sub; [exact He|apply delete_subseteq]|].
    intros i y [Hne Hy]%lookup_delete_Some _. apply apart_sym. eapply apart_same; [exact Hr|]. eapply He; [exact Ho|exact Hy|done].
Qed.

Lemma exclusive_reattach m e m' : exclusive m -> keyed m -> rstep m (Reattach e) m' -> exclusive m' /\ keyed m'.
Proof.
  intros He Hk Hs. inv Hs as [| |? now x Hp Ht Hx| | | | |]. split.
  - apply exclusive_insert; [eapply exclusive_sub; [exact He|apply map_filter_subseteq]|].
    intros i y [Hy Hf]%map_lookup_filter_Some Hne. split; [done|]. by eapply Ht.
  - apply keyed_insert, (keyed_sub m); [done|apply map_filter_subseteq].
Qed.

Lemma exclusive_rollback m r previous m' : exclusive m -> keyed m -> restorable m (Some (r, previous)) ->
  rstep m (Rollback r previous) m' -> exclusive m' /\ keyed m'.
Proof.
  intros He Hk (H1 & H2 & H3) Hs. inv Hs as [| | |? ? Hr _ _ _| | | |]. split.
  - intros i j x y Hx Hy Hij.
    apply lookup_union_Some_raw in Hx as [Hx|[_ Hx]], Hy as [Hy|[_ Hy]].
    + apply by_id_elem in Hx as [Hx <-], Hy as [Hy <-]. by apply H2.
    + apply by_id_elem in Hx as [Hx <-]. apply lookup_delete_Some in Hy as [Hne Hy]. by eapply H1.
    + apply by_id_elem in Hy as [Hy <-]. apply lookup_delete_Some in Hx as [Hne Hx]. apply apart_sym. by eapply H1.
    + apply lookup_delete_Some in Hx as [_ Hx], Hy as [_ Hy]. by eapply He.
  - intros i x [Hx|[_ Hx]]%lookup_union_Some_raw; [by apply by_id_elem in Hx as [_ ?]|].
    apply lookup_delete_Some in Hx as [_ Hx]. by apply Hk.
Qed.

(** An entry is prepared in the same way at any time, but for the time of its attachment. *)
Lemma prepare_same a b e x y : prepare_at a e = inl x -> prepare_at b e = inl y -> sameEntryIdentity x y = true.
Proof.
  unfold prepare_at. destruct (CanonicalRoot (Root e)) as [root|]; [|done]. do 3 (case_bool_decide; [done|]).
  destruct (negb _ && negb _); [done|]. intros [= <-] [= <-]. unfold sameEntryIdentity. cbn. by rewrite !bool_decide_eq_true_2.
Qed.

Lemma prepare_canonical now e x : prepare_at now e = inl x -> exists root, CanonicalRoot (Root e) = inl root /\ Root x = root.
Proof.
  unfold prepare_at. destruct (CanonicalRoot (Root e)) as [root|]; [|done]. do 3 (case_bool_decide; [done|]).
  destruct (negb _ && negb _); [done|]. intros [= <-]. by eexists.
Qed.

Lemma same_identity_root x x' z : sameEntryIdentity x x' = true -> sameRootAgent z x = sameRootAgent z x'.
Proof. intros (_ & Er & Ea & _)%identity_fields. unfold sameRootAgent. by rewrite Er, Ea. Qed.

Lemma restorable_reattach m e m' now x removed : exclusive m -> rstep m (Reattach e) m' -> prepare_at now e = inl x ->
  (forall y, y ∈ removed -> m !! ID y = Some y /\ sameRootAgent y x = true) -> NoDup (ID <$> removed) ->
  restorable m' (Some (x, removed)).
Proof.
  intros He Hs Hp Hrem Hnd. inv Hs as [| |? now' x' Hp' Ht Hx| | | | |]. pose proof (prepare_same _ _ _ _ _ Hp' Hp) as Hid.
  destruct (identity_fields _ _ Hid) as [Eid _]. split_and!; [| |done].
  - intros i y z Hy Hne Hz. rewrite Eid, lookup_insert_ne in Hy by done. apply map_lookup_filter_Some in Hy as [Hy Hf]. cbn in Hf.
    destruct (Hrem z Hz) as [Hm Hzx]. eapply He; [exact Hm|exact Hy|]. intros Ei. rewrite Ei in Hm.
    assert (y = z) as -> by congruence. rewrite (same_identity_root _ _ z Hid) in Hf. congruence.
  - intros a b Ha Hb Hne. destruct (Hrem a Ha) as [Hma _], (Hrem b Hb) as [Hmb _]. by eapply He.
Qed.

Lemma hstep_sound s s' : sound s -> hstep s s' -> sound s'.
Proof.
  intros (He & Hk & Hr) Hs. destruct Hs as [m t e m' Hs|m t e m' now x removed Hs Hp Hx Hrem Hnd|m r previous m' Hs|m t o m' Hs Ho|m t];
    cbn in *; unfold sound; cbn.
  - by destruct (exclusive_register _ _ _ He Hk Hs).
  - destruct (exclusive_reattach _ _ _ He Hk Hs). split; [done|]. split; [done|]. eapply (restorable_reattach m e m' now); done.
  - by destruct (exclusive_rollback _ _ _ _ He Hk Hr Hs).
  - destruct o; try done.
    1, 2: pose proof (revise_identity _ _ _ Hs I) as Hi;
      refine (conj _ (conj _ _)); [by eapply exclusive_identity|by eapply keyed_identity|by eapply restorable_identity].
    all: pose proof (drop_sub _ _ _ Hs I) as Hi;
      refine (conj _ (conj _ _)); [by eapply exclusive_sub|by eapply keyed_sub|by eapply restorable_sub].
  - done.
Qed.

Lemma reaches_sound s s' : sound s -> rtc hstep s s' -> sound s'.
Proof. intros Hs. induction 1; [done|]. eauto using hstep_sound. Qed.

Lemma sound_empty : sound (∅, None).
Proof. refine (conj _ (conj _ _)); cbn; [intros i j x y Hx|intros i x Hx|done]; by rewrite lookup_empty in Hx. Qed.

End machine.
