(* ===== verification/RegistryFacts.v ===== *)
(** The file of the registry and its replacement, call by call. *)
From S2P Require Import Prelude GoStr GoSort GoTime GoPath GoErr GoFile Fs Wp FsFacts DeliveryRootFacts AtomicFacts Delivery Json JsonFacts JsonStruct Registry RegistryJson RegistryMachine.
From S2P Require Ambient Bridge Retry SwarmTasks.

(** ** Trees that differ at a few files *)

(** Nothing but files at [X] came, went or changed. *)
Record frame (X : path -> Prop) (t t' : tree) : Prop := Frame {
  frame_data : data t ⊆ data t';
  frame_dirs : forall q i m, dents t !! q = Some (NDir i m) -> dents t' !! q = Some (NDir i m);
  frame_dents : forall q, ~ X q -> dents t' !! q = dents t !! q;
}.

Lemma frame_refl X t : frame X t t.
Proof. by split. Qed.

Lemma frame_trans X t1 t2 t3 : frame X t1 t2 -> frame X t2 t3 -> frame X t1 t3.
Proof.
  intros [A1 A2 A3] [B1 B2 B3]. split; [by etrans|by eauto|]. intros q Hq. by rewrite B3, A3.
Qed.

Lemma frame_mono (X Y : path -> Prop) t t' : (forall q, X q -> Y q) -> frame X t t' -> frame Y t t'.
Proof. intros HXY [A1 A2 A3]. split; [done|done|]. intros q Hq. apply A3. eauto. Qed.

Lemma frame_evo X t t' : frame X t t' -> evo X t t'.
Proof. intros [A1 A2 A3]. split; [done|done|]. intros q Hq. left. by apply A3. Qed.

Lemma frame_content X t t' q : frame X t t' -> ~ X q -> is_Some (content t q) -> content t' q = content t q.
Proof. intros Hf Hq [d Hd]. rewrite Hd. eapply evo_content; [by apply frame_evo|done|done]. Qed.

Lemma frame_parent X t t' q : frame X t t' -> t_parent t q = None -> t_parent t' q = None.
Proof. intros Hf. eapply evo_parent, frame_evo, Hf. Qed.

Lemma frame_dir_node X t t' q i m : frame X t t' -> t_node t q = Ok (NDir i m) -> t_node t' q = Ok (NDir i m).
Proof.
  intros Hf Hn. destruct q as [|c q]; [done|]. apply t_node_Ok_inv in Hn as [Hp Hn]; [|done].
  apply t_node_lookup; [done|by eapply frame_parent|by eapply frame_dirs].
Qed.

(** Adding a file, writing it, and taking it away again. *)
Lemma frame_add_file (X : path -> Prop) t q : X q -> dents t !! q = None -> frame X t (add_file t q).
Proof.
  intros Hq Hn. destruct (evo_add_file t q Hn) as [A1 A2 A3]. split; [done|done|]. intros q' Hq'. cbn. apply lookup_insert_ne. by intros ->.
Qed.

Lemma frame_write_fresh (X : path -> Prop) t q s : X q -> dents t !! q = None -> frame X t (t_write (add_file t q) (fresh_ino t) s).
Proof.
  intros Hq Hn. destruct (t_write_fresh_evo t q s Hn) as [A1 A2 A3]. destruct (frame_add_file X t q Hq Hn) as [_ _ B3]. split; [done|done|].
  intros q' Hq'. rewrite <-(B3 q' Hq'). unfold t_write. by case_match.
Qed.

Lemma frame_delete (X : path -> Prop) t t' q : X q -> dents t !! q = None -> frame X t t' -> frame X t (set_dents (delete q) t').
Proof.
  intros Hq Hn [A1 A2 A3]. split; [done| |].
  - intros q' i m Hd. cbn. rewrite lookup_delete_ne by (intros ->; congruence). by apply A2.
  - intros q' Hq'. cbn. rewrite lookup_delete_ne by (by intros ->). by apply A3.
Qed.

Lemma frame_rename (X : path -> Prop) t t' q p i : X q -> X p -> dents t !! q = None ->
  (forall j m, dents t !! p <> Some (NDir j m)) -> frame X t t' ->
  frame X t (set_dents (fun m => <[p := NFile i]> (delete q m)) t').
Proof.
  intros Hq Hp Hn Hnd [A1 A2 A3]. split; [done| |].
  - intros q' j m Hd. cbn. rewrite lookup_insert_ne by (intros ->; by eapply Hnd). rewrite lookup_delete_ne by (intros ->; congruence). by apply A2.
  - intros q' Hq'. cbn. rewrite lookup_insert_ne by (by intros ->). rewrite lookup_delete_ne by (by intros ->). by apply A3.
Qed.

Section files.
Context (e : env) `{Machine} `{Bridge.Crypto} `{SortSlice}.
Context (dir : path) (f : string).
Hypothesis dir_plain : Forall (fun c => plain c = true) dir.
Hypothesis not_temp : HasPrefix f ".registry-" = false.

Definition reg_path : path := dir ++ [f].

(** Another name of the directory. *)
Definition sib (q : path) : Prop := exists n, q = dir ++ [n] /\ n <> f.
Definition near (q : path) : Prop := sib q \/ q = reg_path.

Lemma not_sib : ~ sib reg_path.
Proof. intros (n & E & Hn). apply app_inj_tail in E as [_ ->]. done. Qed.

Definition temp_name (r : Z) : string := ".registry-" +:+ itoa r +:+ ".tmp".

Lemma temp_path r : Join_under dir [temp_name r] = dir ++ [temp_name r] /\ sib (dir ++ [temp_name r]).
Proof.
  split.
  - apply Join_under_plain; [done|]. repeat constructor. unfold temp_name. apply plain_spec. split_and!; try done.
    rewrite !str_mem_app. by rewrite (numeral_no_char slash (itoa r)) by (done || apply itoa_numeral).
  - exists (temp_name r). split; [done|]. intros E. rewrite <-E in not_temp. unfold temp_name in not_temp.
    by rewrite HasPrefix_app in not_temp.
Qed.

(** A call that changes nothing and may fail. *)
Lemma wpi_obs_call {A X} I (c : sysop (ior X)) (k : option gerr -> prog A) Q w : obs_op c -> I (tr w) ->
  (forall o w', tr w' = tr w -> o = None \/ (exists n, o = Some (EErrno n)) -> wpi e I (k o) Q w') ->
  wpi e I (prog_bind (call c) k) Q w.
Proof.
  intros Hc HI Hk. destruct (obs_op_spec c e w Hc) as [Ht _]. wbind. apply wpi_sys; [by rewrite Ht|]. wret.
  apply Hk; [done|]. case_match; [by left|right; by eexists].
Qed.

(** A new temporary: an empty file where nothing was. *)
Definition created (t : tree) (x : option handle * option gerr) (t' : tree) : Prop :=
  match x with
  | (Some h, None) => exists q, sib q /\ dents t !! q = None /\ h = Handle KFile (fresh_ino t) q /\ t' = add_file t q
  | (None, Some (EErrno _)) => t' = t
  | _ => False
  end.

Lemma wpi_CreateTemp I tries w : I (tr w) -> (forall q, sib q -> dents (tr w) !! q = None -> I (add_file (tr w) q)) ->
  wpi e I (CreateTemp tries dir) (fun x w' => created (tr w) x (tr w')) w.
Proof.
  intros HI HI'. revert w HI HI'. induction tries as [|tries IH]; intros w HI HI'; cbn [CreateTemp];
    (apply wpi_ro_bind; [ro_tac|done|]); intros r w1 Ht1 _; destruct (temp_path r) as [Et Hs]; unfold temp_name in Et, Hs; rewrite Et;
    set (q := dir ++ _) in *; clearbody q; wbind; rewrite <-Ht1 in *.
  all: apply wpi_sys; [cbn; unfold upd, t_open_excl; repeat case_match; simplify_eq; cbn; auto|]; wret; cbn [exec]; unfold upd.
  all: destruct (e_fault e (tick w1)) as [ft|]; cbn [fst snd]; [by wret|].
  all: destruct (t_open_excl (tr w1) q) as [[h t]|x] eqn:Eo; cbn [fst snd].
  1, 3: wret; cbn; unfold t_open_excl in Eo; destruct q as [|c q]; [done|]; destruct (t_parent _ _); [done|];
    destruct (dents (tr w1) !! (c :: q)) eqn:En; [done|]; simplify_eq; by eexists.
  - destruct (os_IsExist _); by wret.
  - destruct (os_IsExist _); [|by wret]. cbn. eapply wpi_mono; [by apply IH|]. done.
Qed.

(** The registry file as it was, or with the text [d]. *)
Definition kept : tree -> tree -> Prop := frame sib.
Definition saved (d : string) (t t' : tree) : Prop := frame near t t' /\ content t' reg_path = Some d.

Definition save_post (d : string) (t : tree) (o : option gerr) (t' : tree) : Prop :=
  match o with
  | None => saved d t t'
  | Some err => if is_committed err then saved d t t' else kept t t'
  end.

Lemma kept_near t t' : kept t t' -> frame near t t'.
Proof. apply frame_mono. by left. Qed.

(** Removing what is left of the temporary. *)
Lemma wpi_remove_temp I (o : option gerr) q d t0 w : sib q -> dents t0 !! q = None ->
  (forall i m, dents (tr w) !! q <> Some (NDir i m)) ->
  (forall t, save_post d t0 o t -> I t) -> save_post d t0 o (tr w) ->
  wpi e I (_ ← sys (SRemove q); Ret o) (fun o' w' => o' = o /\ save_post d t0 o (tr w')) w.
Proof.
  intros Hq Hn Hnd HI Ho.
  assert (save_post d t0 o (set_dents (delete q) (tr w))) as Ho'.
  { assert (forall t, kept t0 t -> kept t0 (set_dents (delete q) t)) as Hk by (intros t; by apply frame_delete).
    assert (forall t, saved d t0 t -> saved d t0 (set_dents (delete q) t)) as Hs.
    { intros t [Hf Hc]. split; [apply frame_delete; [by left|done|done]|].
      unfold content. cbn. rewrite lookup_delete_ne by (intros ->; by apply not_sib). done. }
    unfold save_post in *. destruct o as [err|]; [destruct (is_committed err)|]; auto. }
  wbind. eapply wpi_mono; [apply wpi_remove_file; auto|]. intros x w' (_ & _ & Hy). wret. by destruct Hy as [[-> _]|[_ ->]].
Qed.

Lemma wpi_finish I d t0 w : (forall t, saved d t0 t -> I t) -> saved d t0 (tr w) ->
  wpi e I (finishCommittedRegistryFile reg_path dir) (fun o w' => tr w' = tr w /\
    match o with None => True | Some err => is_committed err = true end) w.
Proof.
  intros HI Hs. unfold finishCommittedRegistryFile.
  assert (set_dents (alter (chmod_node 384) reg_path) (tr w) = tr w) as Hch.
  { destruct Hs as [_ Hc]. apply content_file in Hc as (i & Hi & _). unfold set_dents. destruct (tr w) as [m dt nd]. cbn in *. f_equal.
    apply map_eq. intros q. destruct (decide (q = reg_path)) as [->|Hne]; [by rewrite lookup_alter_eq, Hi|by rewrite lookup_alter_ne]. }
  assert (tr (exec e (SChmod reg_path 384) w).2 = tr w) as Ht.
  { wexec. destruct (e_fault e (tick w)); [done|]. cbn. exact Hch. }
  wbind. apply wpi_sys; [rewrite Ht; auto|]. wret. destruct (exec e (SChmod reg_path 384) w) as [[[]|x] w1]; cbn in Ht |- *; [|by wret].
  apply wpi_ro_bind; [unfold syncDir; ro_tac; repeat (case_match; ro_tac)|rewrite Ht; auto|]. intros [err|] w2 Ht2 _; wret; by rewrite Ht2.
Qed.

Lemma wpi_write_temp I h q file d t0 w : sib q -> dents t0 !! q = None -> h = Handle KFile (fresh_ino t0) q -> tr w = add_file t0 q ->
  d = file_text file -> (forall j m, dents t0 !! reg_path <> Some (NDir j m)) ->
  (forall t, kept t0 t \/ (forallb times_ok (entries file) = true /\ saved d t0 t) -> I t) ->
  wpi e I (write_temp h reg_path dir file) (fun o w' =>
    (forall j m, dents (tr w') !! q <> Some (NDir j m)) /\
    match o with
    | None => forallb times_ok (entries file) = true /\ saved d t0 (tr w')
    | Some err => if is_committed err then forallb times_ok (entries file) = true /\ saved d t0 (tr w') else kept t0 (tr w')
    end) w.
Proof.
  intros Hq Hn -> Ht -> Hnd HI. set (d := file_text file).
  assert (q <> reg_path) as Hne by (intros ->; by apply not_sib).
  assert (q <> []) as Hqn by (destruct Hq as (n & -> & _); by destruct dir).
  assert (kept t0 (add_file t0 q)) as Hk0 by (by apply frame_add_file).
  assert (kept t0 (t_write (add_file t0 q) (fresh_ino t0) d)) as Hk1 by (by apply frame_write_fresh).
  assert (forall s j m, dents (t_write (add_file t0 q) (fresh_ino t0) s) !! q <> Some (NDir j m)) as Hd1.
  { intros s j m. unfold t_write. cbn. rewrite lookup_insert_eq. cbn. by rewrite lookup_insert_eq. }
  assert (forall j m, dents (add_file t0 q) !! q <> Some (NDir j m)) as Hd0 by (intros; cbn; by rewrite lookup_insert_eq).
  assert (forall s, kept t0 (t_write (add_file t0 q) (fresh_ino t0) s)) as Hks by (intros; by apply frame_write_fresh).
  assert (forall x w1, tr w1 = add_file t0 q \/ (exists s, tr w1 = t_write (add_file t0 q) (fresh_ino t0) s) -> is_committed x = false ->
    wpi e I (_ ← sys (SClose (Handle KFile (fresh_ino t0) q)); Ret (Some x)) (fun o w' =>
      (forall j m, dents (tr w') !! q <> Some (NDir j m)) /\
      match o with
      | None => forallb times_ok (entries file) = true /\ saved d t0 (tr w')
      | Some err => if is_committed err then forallb times_ok (entries file) = true /\ saved d t0 (tr w') else kept t0 (tr w')
      end) w1) as Hclose.
  { intros x w1 Hw1 Hx. apply wpi_ro_bind; [ro_tac|destruct Hw1 as [->|[s ->]]; auto|]. intros y w2 Ht2 _. wret. rewrite Ht2, Hx.
    destruct Hw1 as [->|[s ->]]; auto. }
  unfold write_temp. apply wpi_obs_call; [done|rewrite Ht; auto|]. intros o w1 Ht1 Ho. rewrite Ht in Ht1.
  destruct Ho as [->|[n ->]]; [|apply Hclose; auto]. destruct (forallb times_ok (entries file)) eqn:Etimes; cbn [negb]; [|apply Hclose; auto].
  fold d. wbind. apply wpi_sys; [cbn; rewrite Ht1; destruct (e_fault e (tick w1)); cbn; auto|]. wret. cbn [exec].
  destruct (e_fault e (tick w1)) as [ft|]; cbn [fst snd]; [apply Hclose; [right; eexists; cbn; by rewrite Ht1|done]|].
  set (w2 := set_tree _ _). assert (tr w2 = t_write (add_file t0 q) (fresh_ino t0) d) as Ht2 by (cbn; by rewrite Ht1).
  clearbody w2. apply wpi_obs_call; [done|rewrite Ht2; auto|]. intros o w3 Ht3 Ho. rewrite Ht2 in Ht3.
  destruct Ho as [->|[n ->]]; [|apply Hclose; [right; by eexists|done]].
  apply wpi_obs_call; [done|rewrite Ht3; auto|]. intros o w4 Ht4 Ho. rewrite Ht3 in Ht4.
  destruct Ho as [->|[n ->]]; [|wret; rewrite Ht4; auto].
  assert (dents (tr w4) !! q = Some (NFile (fresh_ino t0)) /\ data (tr w4) !! fresh_ino t0 = Some d) as [Hqf Hqd].
  { rewrite Ht4. unfold t_write. cbn. rewrite lookup_insert_eq. cbn. by rewrite !lookup_insert_eq. }
  set (t5 := set_dents (fun m => <[reg_path := NFile (fresh_ino t0)]> (delete q m)) (tr w4)).
  assert (saved d t0 t5) as Hs5.
  { split; [apply frame_rename; [by left|by right|done|done|rewrite Ht4; by apply kept_near]|].
    unfold content, t5. cbn. by rewrite lookup_insert_eq. }
  wbind. eapply wpi_mono; [apply (wpi_rename_file e I q reg_path (fresh_ino t0)); [done|done|done|rewrite Ht4; auto|auto]|].
  intros o w5 (_ & [(-> & _ & Ht5)|(x & -> & Ht5)]); [|wret; rewrite Ht5, Ht4; auto]. fold t5 in Ht5.
  eapply wpi_mono; [apply (wpi_finish I d t0); [auto|by rewrite Ht5]|]. intros o w6 [Ht6 Ho]. rewrite Ht6, Ht5. split.
  - intros j m. unfold t5. cbn. rewrite lookup_insert_ne, lookup_delete_eq by done. done.
  - destruct o as [err|]; [rewrite Ho|]; done.
Qed.

(** ** The registry a tree holds *)

(** The directory is there, for the user only. *)
Definition ready (t : tree) : Prop := t_parent t reg_path = None /\ exists i, t_node t dir = Ok (NDir i 448).

Definition registry_at (t : tree) (m : registry) : Prop :=
  ready t /\
  ((dents t !! reg_path = None /\ m = ∅) \/
   exists d file, content t reg_path = Some d /\ parse_file d = inl file /\ m = by_id (entries file)).

Lemma ready_frame X t t' : frame X t t' -> ready t -> ready t'.
Proof. intros Hf [Hp [i Hi]]. split; [by eapply frame_parent|]. exists i. by eapply frame_dir_node. Qed.

Lemma kept_registry t t' m : kept t t' -> registry_at t m -> registry_at t' m.
Proof.
  intros Hf [Hr Hm]. split; [by eapply ready_frame|]. destruct Hm as [[Hn ->]|(d & file & Hc & Hm)]; [left|right].
  - split; [|done]. rewrite (frame_dents _ _ _ Hf); [done|apply not_sib].
  - exists d, file. split; [|done]. rewrite (frame_content _ _ _ _ Hf); [done|apply not_sib|by rewrite Hc].
Qed.

Lemma saved_registry d file t t' : saved d t t' -> ready t -> parse_file d = inl file -> registry_at t' (by_id (entries file)).
Proof. intros [Hf Hc] Hr Hp. split; [by eapply ready_frame|]. right. by exists d, file. Qed.

Lemma registry_no_dir t m : registry_at t m -> forall j n, dents t !! reg_path <> Some (NDir j n).
Proof. intros [_ [[Hn _]|(d & file & Hc & _)]] j n; [congruence|]. apply content_file in Hc as (i & Hi & _). congruence. Qed.

(** ** Identities *)

Lemma validate_entries_None seen l : validate_entries seen l = None <->
  Forall (fun x => validateEntryIdentity x = None) l /\ NoDup (ID <$> l) /\ (forall x, x ∈ l -> ID x ∉ seen).
Proof.
  revert seen. induction l as [|x l IH]; intros seen; cbn [validate_entries].
  { split; [|done]. intros _. split_and!; [done|constructor|]. intros x Hx. by apply elem_of_nil in Hx. }
  rewrite Forall_cons, fmap_cons, NoDup_cons, list_elem_of_fmap. destruct (validateEntryIdentity x); [naive_solver|]. case_bool_decide as Es.
  { split; [done|]. intros (_ & _ & Hs). exfalso. by eapply (Hs x); [left|]. }
  rewrite IH. split; intros (H1' & H2' & H3').
  - split_and!; try done.
    + intros (y & E & Hy). specialize (H3' y Hy). rewrite <-E in H3'. apply not_elem_of_cons in H3' as [? _]. done.
    + intros y [->|Hy]%elem_of_cons; [done|]. specialize (H3' y Hy). by apply not_elem_of_cons in H3' as [_ ?].
  - destruct H1' as [_ H1'], H2' as [Hx H2']. split_and!; [done|done|]. intros y Hy. apply not_elem_of_cons. split.
    + intros E. apply Hx. by exists y.
    + apply H3'. by right.
Qed.

Lemma sortEntries_perm l : sortEntries l ≡ₚ l.
Proof. apply sort_slice_perm. Qed.

Lemma by_id_perm l l' : NoDup (ID <$> l) -> l ≡ₚ l' -> by_id l = by_id l'.
Proof.
  intros Hnd Hp. apply list_to_map_proper; [|by apply fmap_Permutation]. by rewrite <-list_fmap_compose.
Qed.

Lemma by_id_lookup l i x : NoDup (ID <$> l) -> by_id l !! i = Some x <-> x ∈ l /\ ID x = i.
Proof.
  intros Hnd. split; [apply by_id_elem|]. intros [Hx <-]. apply elem_of_list_to_map_1; [by rewrite <-list_fmap_compose|].
  by apply (list_elem_of_fmap_2 (fun e => (ID e, e))).
Qed.

(** The entries of a file that can be read. *)
Record readable (l : list Entry) : Prop := {
  rd_text : Forall entry_text l;
  rd_valid : Forall (fun x => validateEntryIdentity x = None) l;
  rd_nodup : NoDup (ID <$> l);
}.

Lemma readable_perm l l' : l ≡ₚ l' -> readable l -> readable l'.
Proof. intros Hp []. split; [by rewrite <-Hp|by rewrite <-Hp|]. by rewrite <-Hp. Qed.

Lemma parse_readable d file : parse_file d = inl file -> readable (entries file).
Proof.
  unfold parse_file. destruct (Unmarshal d) as [j|] eqn:Ej; [|done]. cbn [mbind option_bind].
  destruct (file_from j) as [f0|] eqn:Ef; [|done]. pose proof (file_from_text _ _ (Unmarshal_all_texts _ _ Ej) Ef) as Ht.
  set (f1 := if Z.eqb _ _ then _ else _). assert (Entries f1 = Entries f0) as E1 by (unfold f1; by destruct (Z.eqb _ _)).
  destruct (negb _); [done|]. destruct (validateFileIdentities f1) as [|] eqn:Ev; [done|]. intros [= <-].
  unfold validateFileIdentities in Ev. apply validate_entries_None in Ev as (Hv & Hnd & _). unfold entries in *. cbn. rewrite E1 in *.
  destruct (Entries f0) as [l|]; [|by split; try constructor]. cbn in *.
  apply (readable_perm l); [symmetry; apply sortEntries_perm|]. done.
Qed.

Lemma parse_saved o : let l := default [] o in readable l -> forallb times_ok l = true ->
  exists file, parse_file (file_text (MkFile CurrentSchema (sortEntries <$> o))) = inl file /\ by_id (entries file) = by_id l.
Proof.
  intros l Hl Htimes. set (f0 := MkFile CurrentSchema (sortEntries <$> o)). assert (entries f0 ≡ₚ l) as Hp.
  { unfold f0, entries, l. destruct o; cbn; [apply sortEntries_perm|done]. }
  pose proof (readable_perm _ _ (symmetry Hp) Hl) as [Ht Hv Hnd].
  destruct (file_back f0) as [Eu Ef]; [done| |done|].
  { rewrite forallb_forall in *. intros x Hx%list_elem_of_In. apply Htimes, list_elem_of_In. by rewrite <-Hp. }
  unfold parse_file. rewrite Eu. cbn [mbind option_bind]. rewrite Ef. cbn [SchemaVersion f0 CurrentSchema Z.eqb negb].
  assert (validateFileIdentities f0 = None) as ->.
  { apply validate_entries_None. split_and!; [done|done|]. intros x _ Hx. by apply elem_of_nil in Hx. }
  eexists. split; [done|]. rewrite <-(by_id_perm (entries f0) l) by done. symmetry. apply by_id_perm; [done|].
  unfold entries, f0. cbn. destruct o; cbn; [symmetry; apply sortEntries_perm|done].
Qed.

(** ** Errors that do not claim a commit *)

Lemma wrapped_not_committed c s err : is_committed err = false -> is_committed (EWrap c [ESent s; err]) = false.
Proof.
  unfold is_committed, errors_As_committed. cbn [chain List.flat_map app find_some as_committed1]. rewrite app_nil_r. done.
Qed.

Lemma AbsName_quiet s err : AbsName s = inr err -> is_committed err = false.
Proof. unfold AbsName. destruct (IsAbs s); [done|]. destruct Getwd; [done|]. by intros [= <-]. Qed.

Lemma CanonicalRoot_quiet r err : CanonicalRoot r = inr err -> is_committed err = false.
Proof.
  unfold CanonicalRoot. case_bool_decide; [by intros [= <-]|]. destruct (AbsName _) as [a|x] eqn:Ea; [|intros [= <-]; by eapply AbsName_quiet].
  destruct (EvalSymlinks a) as [|x]; [done|]. cbv zeta. destruct (uncertainSymlinkResolution (name_error x)); [|done].
  intros [= <-]. by destruct x.
Qed.

Lemma validateEntry_quiet x err : validateEntryIdentity x = Some err -> is_committed err = false.
Proof.
  unfold validateEntryIdentity. destruct (_ || _); [by intros [= <-]|]. destruct (CanonicalRoot (Root x)) eqn:Ec.
  - case_bool_decide; [done|]. by intros [= <-].
  - intros [= <-]. by eapply wrapped_not_committed, CanonicalRoot_quiet.
Qed.

Lemma validate_quiet l : forall seen err, validate_entries seen l = Some err -> is_committed err = false.
Proof.
  induction l as [|x l IH]; intros seen err; [done|]. cbn. destruct (validateEntryIdentity x) eqn:Ev; [intros [= <-]; by eapply validateEntry_quiet|].
  case_bool_decide; [by intros [= <-]|by apply IH].
Qed.

Lemma prepare_quiet now x err : prepare_at now x = inr err -> is_committed err = false.
Proof.
  unfold prepare_at. destruct (CanonicalRoot (Root x)) eqn:Ec; [|intros [= <-]; by eapply CanonicalRoot_quiet].
  do 3 (case_bool_decide; [by intros [= <-]|]). destruct (negb _ && negb _); [|done]. by intros [= <-].
Qed.

(** ** Saving, loading and locking *)

(** The registry after a save of [l]; a save that failed has left the registry [m]. *)
Definition written (m : registry) (l : list Entry) (r : option gerr) (t : tree) : Prop :=
  match r with
  | None => readable l /\ registry_at t (by_id l)
  | Some err => if is_committed err then readable l /\ registry_at t (by_id l) else registry_at t m
  end.

Lemma wpi_saveUnlocked I m v o w : let l := default [] o in
  registry_at (tr w) m -> Forall entry_text l -> (forall t, registry_at t m \/ (readable l /\ registry_at t (by_id l)) -> I t) ->
  wpi e I (saveUnlocked reg_path (MkFile v o)) (fun r w' => written m l r (tr w')) w.
Proof.
  intros l Hm Htext HI. unfold saveUnlocked. cbn [Entries]. destruct (validateFileIdentities (MkFile CurrentSchema o)) as [err|] eqn:Ev.
  { wret. unfold written. unfold validateFileIdentities in Ev. by rewrite (validate_quiet _ _ _ Ev). }
  unfold validateFileIdentities in Ev. apply validate_entries_None in Ev as (Hv & Hnd & _). cbn in Hv, Hnd.
  assert (readable l) as Hl by (by split). set (file := MkFile CurrentSchema (sortEntries <$> o)).
  assert (entries file ≡ₚ l) as Hperm by (unfold entries, file, l; destruct o; cbn; [apply sortEntries_perm|done]).
  assert (Dir reg_path = dir) as -> by apply removelast_last.
  assert (forall t, kept (tr w) t -> registry_at t m) as Hkept by (intros t Ht; by eapply kept_registry).
  assert (forall t, forallb times_ok (entries file) = true -> saved (file_text file) (tr w) t -> readable l /\ registry_at t (by_id l)) as Hsaved.
  { intros t Htm Hs. split; [done|]. destruct (parse_saved o Hl) as (f1 & Hp & Hb).
    - rewrite forallb_forall in *. intros x Hx%list_elem_of_In. apply Htm, list_elem_of_In. by rewrite Hperm.
    - fold file in Hp. fold l in Hb. rewrite <-Hb. eapply saved_registry; [exact Hs|apply Hm|exact Hp]. }
  wbind. eapply wpi_mono; [apply wpi_CreateTemp; [auto|]|].
  { intros q Hq Hn. apply HI. left. by apply Hkept, frame_add_file. }
  intros [[h|] [err|]] w1 Hc; try done; cbn in Hc.
  2: { destruct err; try done. wret. cbn. by rewrite Hc. }
  destruct Hc as (q & Hq & Hn & -> & Ht1). cbn [h_path].
  wbind. eapply wpi_mono; [apply (wpi_write_temp I (Handle KFile (fresh_ino (tr w)) q) q file (file_text file) (tr w)); [done|done|done|done|done|by eapply registry_no_dir|]|].
  { intros t [Hk|[Htm Hs]]; auto. }
  intros r w2 [Hnd2 Hr]. assert (save_post (file_text file) (tr w) r (tr w2)) as Hpost.
  { unfold save_post. destruct r as [err|]; [destruct (is_committed err)|]; by try apply Hr. }
  assert (forall t, save_post (file_text file) (tr w) r t -> written m l r t) as Hw.
  { intros t Ht. unfold save_post, written in *. destruct r as [err|]; [destruct (is_committed err)|]; [..|]; try (by apply Hkept);
      apply Hsaved; by try apply Hr. }
  eapply wpi_mono; [apply (wpi_remove_temp I r q (file_text file) (tr w)); try done|]; [|intros r' w3 [-> Hr']; by apply Hw].
  intros t Ht%Hw. apply HI. unfold written in Ht. destruct r as [err|]; [destruct (is_committed err)|]; auto.
Qed.

Lemma reg_path_ne : reg_path <> [].
Proof. unfold reg_path. by destruct dir. Qed.

Lemma wpi_read_file I p d w : p <> [] -> t_parent (tr w) p = None -> content (tr w) p = Some d -> I (tr w) ->
  wpi e I (Ambient.os_ReadFile p) (fun x w' => tr w' = tr w /\
    (x = (d, None) \/ exists y, x = ("", Some (EErrno (IOErr y))))) w.
Proof.
  intros Hp Hpar Hc HI. destruct (content_file _ _ _ Hc) as (i & Hi & Hd). unfold Ambient.os_ReadFile.
  wbind. apply wpi_sys; [wexec; by case_match|]. wret. wexec. unfold t_open. cbn [t_follow].
  destruct (e_fault e (tick w)); cbn; [wret; split; [done|]; right; by eexists|].
  rewrite (t_node_lookup _ _ _ Hp Hpar Hi). cbn. wbind. apply wpi_sys; [wexec; by case_match|]. wret. wexec.
  destruct (e_fault e (S (tick w))); cbn; [wret; split; [done|]; right; by eexists|]. rewrite Hd. wret. split; [done|]. by left.
Qed.

Lemma wpi_loadUnlocked I m w : registry_at (tr w) m -> I (tr w) ->
  wpi e I (loadUnlocked reg_path) (fun x w' => tr w' = tr w /\
    match x with
    | inl file => readable (entries file) /\ by_id (entries file) = m
    | inr err => is_committed err = false
    end) w.
Proof.
  intros Hm HI. destruct Hm as [[Hpar _] [[Hn ->]|(d & file & Hc & Hp & ->)]]; unfold loadUnlocked, Ambient.os_ReadFile.
  - wbind. wbind. apply wpi_sys; [wexec; by case_match|]. wret. wexec.
    destruct (e_fault e (tick w)); cbn; [by wret; wret|]. unfold t_open. cbn [t_follow]. rewrite t_node_absent; [|apply reg_path_ne|done|done].
    cbn. wret. wret. split; [done|]. split; [by split; try constructor|done].
  - wbind. eapply wpi_mono; [apply wpi_read_file; [apply reg_path_ne|done|exact Hc|done]|].
    intros x w1 [Ht [->|(y & ->)]].
    + wret. split; [done|]. rewrite Hp. split; [by eapply parse_readable|done].
    + by wret.
Qed.

Lemma ro_recheck h q : ro (recheckLockIdentity h q).
Proof. unfold recheckLockIdentity. ro_tac; repeat (case_match; ro_tac). Qed.

Lemma returns_recheck h q : returns (fun o => match o with Some err => is_committed err = false | None => True end) (recheckLockIdentity h q).
Proof.
  unfold recheckLockIdentity. cbn. intros [i|n]; [|done]. cbn. intros [j|n]; [|done]. lazy beta iota delta [prog_bind].
  destruct (negb _); [exact eq_refl|]. destruct (negb _); [exact eq_refl|]. destruct (negb _); [exact eq_refl|exact Logic.I].
Qed.

Lemma lock_path : suffixed reg_path ".lock" = dir ++ [f +:+ ".lock"].
Proof. unfold suffixed, reg_path, Dir, Base. by rewrite removelast_last, last_snoc. Qed.

Lemma longer_sib s : s <> "" -> sib (dir ++ [f +:+ s]).
Proof.
  intros Hs. exists (f +:+ s). split; [done|]. intros E. apply (f_equal String.length) in E. rewrite length_app_str in E.
  destruct s; [done|]. cbn in E. lia.
Qed.

(** The lock file may have been made, at most. *)
Lemma wpi_openPinnedLock {A} I q (k : _ -> prog A) Q w : q <> [] -> sib q -> (forall t, kept (tr w) t -> I t) ->
  (forall x w', kept (tr w) (tr w') -> match x with (None, Some err) => is_committed err = false | (Some _, None) => True | _ => False end ->
    wpi e I (k x) Q w') ->
  wpi e I (prog_bind (openPinnedLock q) k) Q w.
Proof.
  intros Hqn Hq HI Hk. unfold openPinnedLock. assert (kept (tr w) (tr (exec e (SOpenCreateNoFollow q) w).2)) as Hkept.
  { cbn. unfold upd. destruct (e_fault e (tick w)); cbn; [apply frame_refl|]. unfold t_open_create_nofollow.
    destruct (t_open_nofollow (tr w) q) as [h|x]; cbn; [destruct (h_kind h); apply frame_refl|].
    destruct x; cbn; try apply frame_refl. unfold t_open_excl. destruct q as [|c q]; [done|].
    destruct (t_parent (tr w) (c :: q)); cbn; [apply frame_refl|].
    destruct (dents (tr w) !! (c :: q)) eqn:En; cbn; [apply frame_refl|by apply frame_add_file]. }
  wbind. wbind. apply wpi_sys; [auto|]. wret. destruct (exec e (SOpenCreateNoFollow q) w) as [[h|x] w1]; cbn in Hkept |- *; [|wret; by apply Hk].
  apply wpi_obs_call; [done|auto|]. intros o w2 Ht2 [->|[n ->]]; [wret; apply Hk; [by rewrite Ht2|done]|].
  apply wpi_ro_bind; [ro_tac|rewrite Ht2; auto|]. intros y w3 Ht3 _. wret. apply Hk; [by rewrite Ht3, Ht2|done].
Qed.

Lemma wpi_ensureRegistryDir I m w : registry_at (tr w) m -> I (tr w) ->
  wpi e I (ensureRegistryDir dir) (fun o w' => tr w' = tr w /\ match o with Some err => is_committed err = false | None => True end) w.
Proof.
  intros [[_ [i Hi]] _] HI. unfold ensureRegistryDir. wbind. apply wpi_sys; [wexec; by case_match|]. wret. wexec.
  destruct (e_fault e (tick w)); cbn; [by wret|]. unfold t_lstat. rewrite Hi. cbn. by wret.
Qed.

Lemma wpi_registry_lock {A} I m (fail : gerr -> A) fn (Q : A -> tree -> Prop) w :
  registry_at (tr w) m -> (forall t, registry_at t m -> I t) ->
  (forall err t, is_committed err = false -> registry_at t m -> Q (fail err) t) ->
  (forall w', registry_at (tr w') m -> wpi e I fn (fun r w'' => I (tr w'') /\ Q r (tr w'')) w') ->
  wpi e I (withLock reg_path fail fn) (fun r w' => Q r (tr w')) w.
Proof.
  intros Hm HI Hfail Hfn. unfold withLock. rewrite bool_decide_eq_false_2 by apply reg_path_ne.
  assert (Dir reg_path = dir) as -> by apply removelast_last.
  wbind. eapply wpi_mono; [eapply wpi_ensureRegistryDir; [exact Hm|auto]|]. intros o w1 [Ht1 Ho]. rewrite <-Ht1 in Hm.
  destruct o as [err|]; [wret; auto|]. rewrite lock_path.
  apply wpi_openPinnedLock; [by destruct dir|by apply longer_sib|intros t Ht; apply HI; by eapply kept_registry|].
  intros x w2 Hk2 Hx. assert (registry_at (tr w2) m) as Hm2 by (by eapply kept_registry).
  destruct x as [[lock|] [err|]]; try done; [|wret; auto].
  wbind. unfold call. apply wpi_sys; [replace (tr _) with (tr w2) by (wexec; by case_match); auto|].
  assert (tr (exec e (SFlock lock) w2).2 = tr w2) as Ht3 by (wexec; by case_match).
  destruct (exec e (SFlock lock) w2) as [[[]|n] w3]; cbn in Ht3 |- *; wret.
  2: { apply wpi_ro_bind; [ro_tac|rewrite Ht3; auto|]. intros y w4 Ht4 _. wret. rewrite Ht4, Ht3. by apply Hfail. }
  rewrite <-Ht3 in Hm2. wbind. wbind. eapply wpi_mono; [apply wpi_returns; [apply returns_recheck|]; apply wpi_ro; [apply ro_recheck|auto]|].
  intros o w4 (Ho4 & Ht4 & _). rewrite <-Ht4 in Hm2.
  assert (forall r w5, I (tr w5) /\ Q r (tr w5) ->
    wpi e I (_ ← sys (SFunlock lock); _ ← sys (SClose lock); Ret r) (fun r w' => Q r (tr w')) w5) as Hend.
  { intros r w5 [HI5 HQ5]. apply Retry.wpi_plain_sys; [done|done|]. intros y w6 Ht6. apply wpi_ro_bind; [ro_tac|by rewrite Ht6|].
    intros z w7 Ht7 _. wret. by rewrite Ht7, Ht6. }
  destruct o as [err|]; [wret; apply Hend; split; [auto|by apply Hfail]|].
  eapply wpi_mono; [by apply Hfn|]. exact Hend.
Qed.

(** What a transaction does to the registry is what its body does. *)
Lemma wpi_with_file {A} I m (fail : gerr -> A) body (Q : A -> tree -> Prop) w :
  registry_at (tr w) m -> (forall t, registry_at t m -> I t) ->
  (forall err t, is_committed err = false -> registry_at t m -> Q (fail err) t) ->
  (forall file w', registry_at (tr w') m -> readable (entries file) -> by_id (entries file) = m ->
    wpi e I (body file) (fun r w'' => I (tr w'') /\ Q r (tr w'')) w') ->
  wpi e I (with_file reg_path fail body) (fun r w' => Q r (tr w')) w.
Proof.
  intros Hm HI Hfail Hbody. unfold with_file. eapply wpi_registry_lock; [exact Hm|done|done|]. intros w' Hm'.
  wbind. eapply wpi_mono; [eapply wpi_loadUnlocked; [exact Hm'|auto]|]. intros x w1 [Ht Hx]. rewrite <-Ht in Hm'.
  destruct x as [file|err]; [by apply Hbody; try apply Hx|]. wret. auto.
Qed.

(** ** The registration lock *)

Lemma wpi_try_lock I rounds lock q chosen w : (forall t, t = tr w -> I t) ->
  wpi e I (try_lock rounds lock q chosen) (fun _ w' => tr w' = tr w) w.
Proof.
  revert w. induction rounds as [|rounds IH]; intros w HI; cbn [try_lock]; [by wret|].
  apply Retry.wpi_plain_sys; [intros w0; cbn; by repeat case_match|by apply HI|]. intros [[]|n] w1 Ht1; [| |by wret].
  - wbind. eapply wpi_mono; [apply wpi_ro; [apply ro_recheck|by apply HI]|]. intros [err|] w2 [Ht2 _]; [|wret; congruence].
    apply Retry.wpi_plain_sys; [done|apply HI; congruence|]. intros y w3 Ht3. wret. congruence.
  - destruct (chosen rounds); [by wret|]. eapply wpi_mono; [apply IH; intros t ->; apply HI; congruence|]. intros y w2 Ht2. cbn in *. congruence.
Qed.

(** What a registration transaction does to the registry is what its body does. *)
Lemma wpi_registration {A} I m rounds chosen (fail : gerr -> A) fn (Q : A -> tree -> Prop) w :
  registry_at (tr w) m -> (forall t, registry_at t m -> I t) ->
  (forall err t, registry_at t m -> Q (fail err) t) ->
  (forall w', registry_at (tr w') m -> wpi e I fn (fun r w'' => I (tr w'') /\ Q r (tr w'')) w') ->
  wpi e I (WithRegistrationLockContext rounds reg_path chosen fail fn)
    (fun r w' => I (tr w') /\ match r with Some x => Q x (tr w') | None => registry_at (tr w') m end) w.
Proof.
  intros Hm HI Hfail Hfn. unfold WithRegistrationLockContext. rewrite bool_decide_eq_false_2 by apply reg_path_ne.
  assert (suffixed reg_path ".registration.lock" = dir ++ [f +:+ ".registration.lock"]) as ->
    by (unfold suffixed, reg_path, Dir, Base; by rewrite removelast_last, last_snoc).
  assert (Dir (dir ++ [f +:+ ".registration.lock"]) = dir) as -> by apply removelast_last. cbv zeta.
  destruct (chosen (S rounds)) as [err|]; [wret; auto|].
  wbind. eapply wpi_mono; [eapply wpi_ensureRegistryDir; [exact Hm|auto]|]. intros o w1 [Ht1 _]. rewrite <-Ht1 in Hm.
  destruct o as [err|]; [wret; auto|].
  apply wpi_openPinnedLock; [by destruct dir|by apply longer_sib|intros t Ht; apply HI; by eapply kept_registry|].
  intros x w2 Hk2 Hx. assert (registry_at (tr w2) m) as Hm2 by (by eapply kept_registry).
  destruct x as [[lock|] [err|]]; try done; [|wret; auto].
  wbind. eapply wpi_mono; [apply wpi_try_lock; intros t ->; auto|]. intros y w3 Ht3. cbn in Ht3. rewrite <-Ht3 in Hm2.
  destruct y as [[err|]|]; [| |wret; auto].
  - apply wpi_ro_bind; [ro_tac|auto|]. intros z w4 Ht4 _. wret. rewrite Ht4. auto.
  - assert (forall r w5, I (tr w5) /\ Q r (tr w5) ->
      wpi e I (_ ← sys (SFunlock lock); _ ← sys (SClose lock); Ret (Some r))
        (fun r w' => I (tr w') /\ match r with Some x => Q x (tr w') | None => registry_at (tr w') m end) w5) as Hend.
    { intros r w5 [HI5 HQ5]. apply Retry.wpi_plain_sys; [done|done|]. intros z w6 Ht6. apply wpi_ro_bind; [ro_tac|by rewrite Ht6|].
      intros u w7 Ht7 _. wret. by rewrite Ht7, Ht6. }
    wbind. destruct (chosen rounds) as [err|]; [wret; apply Hend; auto|]. eapply wpi_mono; [by apply Hfn|]. exact Hend.
Qed.

(** Loading. *)
Lemma wpi_Load I m w : registry_at (tr w) m -> (forall t, registry_at t m -> I t) ->
  wpi e I (Load reg_path) (fun r w' => registry_at (tr w') m /\
    match r with (file, None) => readable (entries file) /\ by_id (entries file) = m | (_, Some _) => True end) w.
Proof.
  intros Hm HI. unfold Load. rewrite bool_decide_eq_false_2 by apply reg_path_ne.
  eapply (wpi_with_file I m _ _ (fun r t => registry_at t m /\
    match r with (file, None) => readable (entries file) /\ by_id (entries file) = m | (_, Some _) => True end)); [done|done|done|].
  intros file w' Hm' Hr Hb. wret. split; [by apply HI|done].
Qed.

End files.
