(* ===== verification/RegistryStore.v ===== *)
(** What the operations of the registry do to the list of entries is a step of the machine. *)
From S2P Require Import Prelude GoStr GoSort GoTime GoPath Json JsonFacts JsonStruct GoErr GoFile Fs Wp FsFacts DeliveryRootFacts Registry RegistryJson RegistryMachine RegistryFacts.
From S2P Require Bridge.

(** ** Lists and maps *)

Lemma by_id_cons x l : by_id (x :: l) = <[ID x := x]> (by_id l).
Proof. done. Qed.

Lemma by_id_None l i : by_id l !! i = None <-> i ∉ ID <$> l.
Proof.
  unfold by_id. rewrite <-not_elem_of_list_to_map. by rewrite <-list_fmap_compose.
Qed.

Lemma ids_nodup_elem l x y : NoDup (ID <$> l) -> x ∈ l -> y ∈ l -> ID x = ID y -> x = y.
Proof.
  intros Hnd Hx Hy E. assert (by_id l !! ID x = Some x) as H1 by (by apply by_id_lookup).
  assert (by_id l !! ID x = Some y) as H2 by (by apply by_id_lookup). congruence.
Qed.

Lemma by_id_app_one l x : NoDup (ID <$> l ++ [x]) -> by_id (l ++ [x]) = <[ID x := x]> (by_id l).
Proof. intros Hnd. rewrite (by_id_perm _ (x :: l)); [done|done|]. symmetry. apply Permutation_cons_append. Qed.

Lemma by_id_filter (P : Entry -> bool) l : NoDup (ID <$> l) ->
  by_id (List.filter P l) = filter (fun iy => P iy.2 = true) (by_id l) /\ NoDup (ID <$> List.filter P l).
Proof.
  intros Hnd. assert (NoDup (ID <$> List.filter P l)) as Hnd'.
  { induction l as [|x l IH]; [constructor|]. rewrite fmap_cons in Hnd. apply NoDup_cons in Hnd as [Hx Hl]. cbn.
    destruct (P x); [|by apply IH]. rewrite fmap_cons. apply NoDup_cons. split; [|by apply IH].
    intros (y & E & Hy)%list_elem_of_fmap. apply Hx, list_elem_of_fmap. exists y. split; [done|].
    apply list_elem_of_In in Hy. apply filter_In in Hy as [Hy _]. by apply list_elem_of_In. }
  split; [|done]. apply map_eq. intros i. apply option_eq. intros x.
  rewrite (by_id_lookup _ _ _ Hnd'), map_lookup_filter_Some, (by_id_lookup _ _ _ Hnd), list_elem_of_In, filter_In, <-list_elem_of_In.
  cbn. tauto.
Qed.

Lemma filter_bool {A} (P : A -> Prop) `{forall x, Decision (P x)} (l : list A) : filter P l = List.filter (fun x => bool_decide (P x)) l.
Proof.
  induction l as [|x l IH]; [done|]. rewrite filter_cons. cbn. rewrite IH. destruct (decide (P x)); [by rewrite bool_decide_eq_true_2|by rewrite bool_decide_eq_false_2].
Qed.

Lemma put_first_split id x l l' : put_first id x l = Some l' ->
  exists l1 y l2, l = l1 ++ y :: l2 /\ ID y = id /\ l' = l1 ++ x :: l2.
Proof.
  revert l'. induction l as [|y l IH]; intros l'; [done|]. cbn. case_bool_decide as E.
  - intros [= <-]. by exists [], y, l.
  - destruct (put_first id x l) as [l0|]; [|done]. intros [= <-]. destruct (IH l0 eq_refl) as (l1 & z & l2 & -> & Hz & ->).
    by exists (y :: l1), z, l2.
Qed.

Lemma put_first_None id x l : put_first id x l = None -> id ∉ ID <$> l.
Proof.
  induction l as [|y l IH]; [by intros _ ?%elem_of_nil|]. cbn. case_bool_decide as E; [done|].
  destruct (put_first id x l); [done|]. intros _ [->|Hi]%elem_of_cons; [done|]. by apply IH.
Qed.

Lemma put_first_by_id id x l l' : NoDup (ID <$> l) -> NoDup (ID <$> l') -> put_first id x l = Some l' ->
  by_id l' = <[ID x := x]> (delete id (by_id l)) /\ is_Some (by_id l !! id) /\ (id <> ID x -> by_id l !! ID x = None).
Proof.
  intros Hnd Hnd' (l1 & y & l2 & -> & <- & ->)%put_first_split.
  rewrite (by_id_perm (l1 ++ y :: l2) (y :: l1 ++ l2)) by (done || (symmetry; apply Permutation_middle)).
  rewrite (by_id_perm (l1 ++ x :: l2) (x :: l1 ++ l2)) by (done || (symmetry; apply Permutation_middle)).
  rewrite <-Permutation_middle, fmap_cons in Hnd, Hnd'. apply NoDup_cons in Hnd as [Hy Hnd], Hnd' as [Hx _].
  rewrite !by_id_cons. rewrite delete_insert_id by (by apply by_id_None). split_and!; [done|by rewrite lookup_insert_eq|].
  intros Hne. rewrite lookup_insert_ne by done. by apply by_id_None.
Qed.

Section steps.
Context `{Machine} `{Bridge.Crypto} `{SortSlice}.

(** ** Registering *)

Lemma no_owner l x y : conflictingRegistrationOwner l x = None -> conflictingTargetOwner l x false = None -> y ∈ l -> ID y <> ID x -> apart y x.
Proof.
  intros H1' H2' Hy%list_elem_of_In Hne. pose proof (find_none _ _ H1' _ Hy) as E1. pose proof (find_none _ _ H2' _ Hy) as E2.
  cbn in E1, E2. rewrite bool_decide_eq_false_2 in E1, E2 by done. cbn in E1, E2. done.
Qed.

Lemma upsert_step l l' e now x : NoDup (ID <$> l) -> NoDup (ID <$> l') -> prepare_at now e = inl x -> upsert l x = inl l' ->
  rstep (by_id l) (Register e) (by_id l').
Proof.
  intros Hnd Hnd' Hp. unfold upsert. destruct (conflictingRegistrationOwner l x) as [owner|] eqn:Eo.
  - destruct (sameRegistration owner x) eqn:Es; [|done]. destruct (put_first (ID owner) x l) as [l0|] eqn:Ef; [|done]. intros [= <-].
    apply List.find_some in Eo as [Hin Ho]. apply andb_true_iff in Ho as [Hne%negb_true_iff%bool_decide_eq_false _].
    destruct (put_first_by_id _ _ _ _ Hnd Hnd' Ef) as (-> & _ & Hn).
    eapply r_rename; [done| |by apply Hn|done]. apply by_id_lookup; [done|]. split; [by apply list_elem_of_In|done].
  - destruct (conflictingTargetOwner l x false) eqn:Et; [done|]. intros [= <-].
    assert (forall i y, by_id l !! i = Some y -> i <> ID x -> apart y x) as Hap.
    { intros i y [Hy <-]%by_id_elem. by apply no_owner with l. }
    destruct (put_first (ID x) x l) as [l0|] eqn:Ef.
    + destruct (put_first_by_id _ _ _ _ Hnd Hnd' Ef) as (-> & _). rewrite insert_delete_eq. by eapply r_register.
    + rewrite by_id_app_one by done. by eapply r_register.
Qed.

Lemma reattach_step l e now x : let next := List.filter (fun y => negb (sameRootAgent y x)) l in
  NoDup (ID <$> l) -> NoDup (ID <$> next ++ [x]) -> prepare_at now e = inl x -> conflictingTargetOwner l x true = None ->
  rstep (by_id l) (Reattach e) (by_id (next ++ [x])).
Proof.
  intros next Hnd Hnd' Hp Ht. rewrite by_id_app_one by done. unfold next.
  destruct (by_id_filter (fun y => negb (sameRootAgent y x)) l Hnd) as [-> _].
  assert (filter (fun iy : string * Entry => negb (sameRootAgent iy.2 x) = true) (by_id l)
    = filter (fun iy => sameRootAgent iy.2 x = false) (by_id l)) as ->.
  { apply map_filter_ext. intros i y _. cbn. by rewrite negb_true_iff. }
  eapply r_reattach; [done| |].
  - intros i y [Hy <-]%by_id_elem Hne Hr. apply list_elem_of_In in Hy. pose proof (find_none _ _ Ht _ Hy) as E. cbn in E.
    rewrite bool_decide_eq_false_2, Hr in E by done. done.
  - intros y [Hy E]%by_id_elem. destruct (sameRootAgent y x) eqn:Es; [done|]. exfalso.
    rewrite fmap_app in Hnd'. apply NoDup_app in Hnd' as (_ & Hd & _). apply (Hd (ID x)); [|by left].
    apply list_elem_of_fmap. exists y. split; [done|]. apply list_elem_of_In, filter_In. split; [by apply list_elem_of_In|by rewrite Es].
Qed.

(** What a reattachment displaced. *)
Lemma removed_spec l x y : NoDup (ID <$> l) -> y ∈ List.filter (fun y => sameRootAgent y x) l -> by_id l !! ID y = Some y /\ sameRootAgent y x = true.
Proof.
  intros Hnd Hy%list_elem_of_In. apply filter_In in Hy as [Hy Hs]. split; [|done]. apply by_id_lookup; [done|]. split; [by apply list_elem_of_In|done].
Qed.

(** ** Rolling back *)

Lemma unchanged_index_spec r l : forall i0 idx i, unchanged_index r i0 l idx = Some i ->
  (forall y, y ∈ l -> ID y <> ID r -> sameRootAgent y r = false) /\
  (idx = Some i \/ exists k, i = (i0 + k)%nat /\ l !! k = Some r).
Proof.
  induction l as [|y l IH]; intros i0 idx i; cbn [unchanged_index].
  { intros ->. split; [by intros y ?%elem_of_nil|by left]. }
  destruct (sameRootAgent y r && _) eqn:E1; [done|].
  assert (ID y <> ID r -> sameRootAgent y r = false) as Hy.
  { intros Hne. rewrite bool_decide_eq_false_2 in E1 by done. by destruct (sameRootAgent y r). }
  assert (forall P Q : Prop, (forall z, z ∈ l -> ID z <> ID r -> sameRootAgent z r = false) /\ P -> (P -> Q) ->
    (forall z, z ∈ y :: l -> ID z <> ID r -> sameRootAgent z r = false) /\ Q) as Hcons.
  { intros P Q [Hl HP] HQ. split; [|auto]. intros z [->|Hz]%elem_of_cons; auto. }
  case_bool_decide as E2.
  - case_bool_decide as E3; cbn [negb]; [|done]. intros Hi%IH. eapply Hcons; [exact Hi|].
    intros [[= ->]|(k & -> & Hk)]; right.
    + exists 0%nat. split; [lia|]. by rewrite E3.
    + exists (S k). split; [lia|done].
  - intros Hi%IH. eapply Hcons; [exact Hi|]. intros [->|(k & -> & Hk)]; [by left|right; exists (S k)]. split; [lia|done].
Qed.

Lemma rollback_step l r previous i : let next := take i l ++ drop (S i) l ++ previous in
  NoDup (ID <$> l) -> NoDup (ID <$> next) -> unchanged_index r 0 l None = Some i ->
  rstep (by_id l) (Rollback r previous) (by_id next).
Proof.
  intros next Hnd Hnd' Hi. apply unchanged_index_spec in Hi as [Hoth [?|(k & -> & Hk)]]; [done|]. cbn [Nat.add] in *.
  pose proof (take_drop_middle l k r Hk) as El. set (rest := take k l ++ drop (S k) l).
  assert (l ≡ₚ r :: rest) as Hp by (rewrite <-El at 1; unfold rest; by rewrite Permutation_middle).
  assert (next ≡ₚ previous ++ rest) as Hp' by (unfold next, rest; rewrite app_assoc; apply Permutation_app_comm).
  rewrite Hp, fmap_cons in Hnd. apply NoDup_cons in Hnd as [Hr Hnd]. rewrite Hp', fmap_app in Hnd'. apply NoDup_app in Hnd' as (Hn1 & Hn2 & _).
  assert (by_id l = <[ID r := r]> (by_id rest)) as Eb by (rewrite (by_id_perm l (r :: rest)); [done|rewrite Hp, fmap_cons; by apply NoDup_cons|done]).
  assert (delete (ID r) (by_id l) = by_id rest) as Ed by (rewrite Eb; apply delete_insert_id; by apply by_id_None).
  assert (by_id next = by_id previous ∪ by_id rest) as ->.
  { rewrite (by_id_perm next (previous ++ rest)); [|rewrite Hp', fmap_app; apply NoDup_app; done|done].
    unfold by_id. by rewrite fmap_app, list_to_map_app. }
  rewrite <-Ed. apply r_rollback; [by rewrite Eb, lookup_insert_eq| |done|].
  - intros j y [Hy <-]%by_id_elem. by apply Hoth.
  - intros x Hx. rewrite Ed. apply by_id_None. apply Hn2. by apply list_elem_of_fmap_2.
Qed.

(** ** Updating *)

Lemma update_step l l' e old : NoDup (ID <$> l) -> NoDup (ID <$> l') -> List.find (fun x => bool_decide (ID x = ID e)) l = Some old ->
  sameEntryIdentity old e = true -> put_first (ID e) e l = Some l' -> rstep (by_id l) (Revise e) (by_id l').
Proof.
  intros Hnd Hnd' Hf Hid Hput. destruct (put_first_by_id _ _ _ _ Hnd Hnd' Hput) as (-> & _). rewrite insert_delete_eq.
  apply List.find_some in Hf as [Hin E%bool_decide_eq_true]. eapply r_revise; [|done]. apply by_id_lookup; [done|]. by split; [apply list_elem_of_In|].
Qed.

Lemma check_updates_spec us : forall seen, check_updates seen us = None ->
  NoDup ((fun u => ID (Before u)) <$> us) /\
    (forall u, u ∈ us -> (ID (Before u) ∉ seen) /\ sameEntryIdentity (Before u) (After u) = true).
Proof.
  induction us as [|u us IH]; intros seen; cbn [check_updates]; [split; [constructor|by intros u ?%elem_of_nil]|].
  destruct (_ || _); [done|]. destruct (negb _); [done|]. destruct (sameEntryIdentity (Before u) (After u)) eqn:Es; [|done]. cbn [negb].
  case_bool_decide as Eseen; [done|]. intros (Hnd & Hus)%IH. split.
  - rewrite fmap_cons. apply NoDup_cons. split; [|done]. intros (v & Ev & Hv)%list_elem_of_fmap.
    destruct (Hus v Hv) as [Hs _]. apply Hs. rewrite <-Ev. by left.
  - intros v [->|Hv]%elem_of_cons; [done|]. destruct (Hus v Hv) as [Hs ?]. split; [|done]. intros Hin. apply Hs. by right.
Qed.

(** An index by id, as long as the ids stay where they are. *)
Definition indexes (index : string -> option nat) (l : list Entry) : Prop :=
  forall k x, l !! k = Some x -> index (ID x) = Some k.

Lemma byID_indexes l : NoDup (ID <$> l) -> indexes (byID l) l.
Proof.
  intros Hnd k x (l1 & l2 & -> & ->)%list_elem_of_split_length. unfold byID.
  assert (forall n l', (forall y, y ∈ l' -> ID y <> ID x) ->
    List.filter (fun iv : nat * Entry => bool_decide (ID iv.2 = ID x)) (zip (seq n (length l')) l') = []) as Hno.
  { intros n l'. revert n. induction l' as [|y l' IH]; intros n Hl'; [done|]. cbn. rewrite bool_decide_eq_false_2 by (apply Hl'; by left).
    apply IH. intros z Hz. apply Hl'. by right. }
  rewrite fmap_app, fmap_cons in Hnd. apply NoDup_app in Hnd as (_ & Hd & [Hx _]%NoDup_cons).
  rewrite length_app, seq_app, zip_with_app by (by rewrite length_seq). rewrite List.filter_app, fmap_app.
  rewrite Hno by (intros y Hy E; apply (Hd (ID x)); [rewrite <-E; by apply list_elem_of_fmap_2|by left]).
  cbn [length seq zip_with List.filter snd]. rewrite bool_decide_eq_true_2 by done.
  rewrite Hno by (intros y Hy E; apply Hx; rewrite <-E; by apply list_elem_of_fmap_2). done.
Qed.

Lemma insert_ids (l : list Entry) i (x y : Entry) : l !! i = Some x -> ID x = ID y -> ID <$> <[i := y]> l = ID <$> l.
Proof. intros Hi E. rewrite list_fmap_insert, <-E. apply list_insert_id. by rewrite list_lookup_fmap, Hi. Qed.

Lemma revised_skip us u x x' : Before u <> x -> revised us x x' -> revised (u :: us) x x'.
Proof.
  intros Hne [(v & Hv & Hx)|[Hno ->]]; [left; exists v; split; [by right|done]|].
  right. split; [|done]. intros v [->|Hv]%elem_of_cons; auto.
Qed.

(** The update of one entry is the only one for its id. *)
Lemma revised_last us u x x' : NoDup ((fun u => ID (Before u)) <$> u :: us) -> ID x = ID (Before u) -> revised us x x' -> x' = x.
Proof.
  rewrite fmap_cons. intros [Hu _]%NoDup_cons E [(v & Hv & Hx & _)|[_ ->]]; [|done]. exfalso. apply Hu. rewrite <-E, <-Hx.
  by apply (list_elem_of_fmap_2 (fun u => ID (Before u))).
Qed.

Lemma apply_updates_spec us : forall index l r l' r', indexes index l -> NoDup (ID <$> l) ->
  NoDup ((fun u => ID (Before u)) <$> us) -> (forall u, u ∈ us -> sameEntryIdentity (Before u) (After u) = true) ->
  apply_updates us index l r = (l', r', None) -> Forall2 (revised us) l l'.
Proof.
  induction us as [|u us IH]; intros index l r l' r' Hix Hnd Hus Hid; cbn [apply_updates].
  { intros [= <- <-]. apply Forall2_lookup. intros k. destruct (l !! k); constructor. right. split; [by intros u ?%elem_of_nil|done]. }
  assert (NoDup ((fun u => ID (Before u)) <$> us)) as Hus' by (rewrite fmap_cons in Hus; by apply NoDup_cons in Hus as [_ ?]).
  assert (forall v, v ∈ us -> sameEntryIdentity (Before v) (After v) = true) as Hid' by (intros v Hv; apply Hid; by right).
  destruct (identity_fields _ _ (Hid u ltac:(by left))) as [Eid _].
  assert (forall r0, (forall x, x ∈ l -> Before u <> x) -> apply_updates us index l r0 = (l', r', None) -> Forall2 (revised (u :: us)) l l') as Hskip.
  { intros r0 Hno Ha. apply (IH index l r0 l' r') in Ha; try done. apply Forall2_lookup. intros k. pose proof (proj1 (Forall2_lookup _ _ _) Ha k) as Hk.
    inv Hk as [x x' Hx E1 E2|]; constructor. apply revised_skip; [|done]. apply Hno. by eapply list_elem_of_lookup_2. }
  destruct (i ← index (ID (Before u)); x ← l !! i; Some (i, x)) as [[i x]|] eqn:Ei.
  2: { apply Hskip. intros x [k Hk]%list_elem_of_lookup_1 <-. rewrite (Hix k _ Hk) in Ei. cbn in Ei. by rewrite Hk in Ei. }
  destruct (index (ID (Before u))) as [i0|] eqn:E0; [|done]. cbn in Ei. destruct (l !! i0) as [x0|] eqn:Ex; [|done]. cbn in Ei. injection Ei as -> ->.
  case_bool_decide as Exb; cbn [negb].
  2: { apply Hskip. intros y [k Hk]%list_elem_of_lookup_1 <-. rewrite (Hix k _ Hk) in E0. injection E0 as ->. congruence. }
  subst x. assert (forall k y, l !! k = Some y -> k <> i -> Before u <> y) as Hother.
  { intros k y Hk Hne <-. rewrite (Hix k _ Hk) in E0. congruence. }
  case_bool_decide as Esame.
  - intros Ha. apply (IH index l r l' r') in Ha; try done. apply Forall2_lookup. intros k. pose proof (proj1 (Forall2_lookup _ _ _) Ha k) as Hk.
    inv Hk as [x x' Hx E1 E2|]; constructor. destruct (decide (k = i)) as [->|Hne]; [|apply revised_skip; [|done]; by eapply Hother].
    left. exists u. assert (x = Before u) as -> by congruence. rewrite (revised_last _ _ _ _ Hus eq_refl Hx). split; [by left|done].
  - destruct (sameEntryIdentity (Before u) (After u)) eqn:Es; cbn [negb]; [|done]. intros Ha.
    apply (IH index _ _ l' r') in Ha; [|intros k y Hk|by rewrite (insert_ids _ _ _ _ Ex)|done|done].
    2: { destruct (decide (k = i)) as [->|Hne]; [|rewrite list_lookup_insert_ne in Hk by done; by apply Hix].
         rewrite list_lookup_insert_eq in Hk by (by eapply lookup_lt_Some). injection Hk as <-. by rewrite <-Eid. }
    apply Forall2_lookup. intros k. pose proof (proj1 (Forall2_lookup _ _ _) Ha k) as Hk. destruct (decide (k = i)) as [->|Hne].
    + rewrite list_lookup_insert_eq in Hk by (by eapply lookup_lt_Some). rewrite Ex. inv Hk as [x x' Hx E1 E2|]. constructor.
      left. exists u. rewrite (revised_last us u _ _ Hus (eq_sym Eid) Hx). split; [by left|done].
    + rewrite list_lookup_insert_ne in Hk by done. inv Hk as [x x' Hx E1 E2|]; constructor. apply revised_skip; [|done]. by eapply Hother.
Qed.

Lemma revised_ids us l l' : (forall u, u ∈ us -> sameEntryIdentity (Before u) (After u) = true) -> Forall2 (revised us) l l' -> ID <$> l' = ID <$> l.
Proof.
  intros Hus Hl. induction Hl as [|x x' l l' Hx Hl IH]; [done|]. rewrite !fmap_cons, IH. f_equal.
  destruct Hx as [(u & Hu & <- & <-)|[_ ->]]; [|done]. symmetry. by apply identity_fields, Hus.
Qed.

Lemma updates_step l l' us r : NoDup (ID <$> l) -> check_updates [] us = None ->
  apply_updates us (byID l) l (MkCounts 0 0) = (l', r, None) -> rstep (by_id l) (ReviseAll us) (by_id l').
Proof.
  intros Hnd (Hus & Hid)%check_updates_spec Ha. assert (forall u, u ∈ us -> sameEntryIdentity (Before u) (After u) = true) as Hid' by (intros; by apply Hid).
  apply apply_updates_spec in Ha; [|by apply byID_indexes|done|done|done]. pose proof (revised_ids _ _ _ Hid' Ha) as Eids.
  constructor; [done|]. clear Hus Hid Eids. induction Ha as [|x x' l l' Hx Ha IH]; intros i; [constructor|]. rewrite fmap_cons in Hnd.
  apply NoDup_cons in Hnd as [_ Hnd]. assert (ID x' = ID x) as Ex.
  { destruct Hx as [(u & Hu & <- & <-)|[_ ->]]; [|done]. symmetry. by apply identity_fields, Hid'. }
  rewrite !by_id_cons, Ex. destruct (decide (i = ID x)) as [->|Hne]; [rewrite !lookup_insert_eq; by constructor|].
  rewrite !lookup_insert_ne by done. by apply IH.
Qed.

(** ** Forgetting *)

Lemma drop_step l ids : let wanted : gset string := list_to_set (filter (fun id => id <> "") ids) in
  NoDup (ID <$> l) -> length (filter (fun x => ID x ∈ wanted) l) = size wanted ->
  rstep (by_id l) (Drop ids) (by_id (filter (fun x => ID x ∉ wanted) l)).
Proof.
  intros wanted Hnd Hlen. rewrite (filter_bool (fun x => ID x ∉ wanted)).
  destruct (by_id_filter (fun x => bool_decide (ID x ∉ wanted)) l Hnd) as [-> _].
  assert (filter (fun iy => bool_decide (ID iy.2 ∉ wanted) = true) (by_id l) = filter (fun iy : string * Entry => iy.1 ∉ ids \/ iy.1 = "") (by_id l)) as ->.
  { apply map_filter_ext. intros i y [Hy <-]%by_id_elem. cbn. rewrite bool_decide_eq_true. unfold wanted.
    rewrite elem_of_list_to_set, list_elem_of_filter. destruct (decide (ID y = "")); tauto. }
  constructor. intros id Hid Hne. set (S := list_to_set (ID <$> filter (fun x => ID x ∈ wanted) l) : gset string).
  assert (S ⊆ wanted) as Hsub.
  { intros i Hi. apply elem_of_list_to_set, list_elem_of_fmap in Hi as (y & -> & Hy). by apply list_elem_of_filter in Hy as [? _]. }
  assert (NoDup (ID <$> filter (fun x => ID x ∈ wanted) l)) as Hnd'.
  { rewrite (filter_bool (fun x => ID x ∈ wanted)). by apply by_id_filter. }
  assert (size S = size wanted) as Hsize by (unfold S; rewrite size_list_to_set, length_fmap by done; done).
  assert (id ∈ S) as HS.
  { rewrite (set_subseteq_size_eq S wanted) by (done || lia). apply elem_of_list_to_set, list_elem_of_filter. done. }
  apply elem_of_list_to_set, list_elem_of_fmap in HS as (y & -> & Hy). apply list_elem_of_filter in Hy as [_ Hy].
  exists y. by apply by_id_lookup.
Qed.

Lemma drop_if_step l i (x : Entry) : NoDup (ID <$> l) -> l !! i = Some x -> rstep (by_id l) (DropIf x) (by_id (delete i l)).
Proof.
  intros Hnd Hi. apply list_elem_of_split_length in Hi as (l1 & l2 & -> & ->).
  assert (delete (length l1) (l1 ++ x :: l2) = l1 ++ l2) as -> by (by rewrite delete_middle).
  rewrite <-Permutation_middle, fmap_cons in Hnd. apply NoDup_cons in Hnd as [Hx Hnd].
  assert (by_id (l1 ++ x :: l2) = <[ID x := x]> (by_id (l1 ++ l2))) as Eb.
  { rewrite (by_id_perm (l1 ++ x :: l2) (x :: l1 ++ l2)); [done| |symmetry; apply Permutation_middle].
    rewrite <-Permutation_middle, fmap_cons. by apply NoDup_cons. }
  assert (by_id (l1 ++ l2) = delete (ID x) (by_id (l1 ++ x :: l2))) as ->.
  { rewrite Eb. by rewrite delete_insert_id by (by apply by_id_None). }
  constructor. by rewrite Eb, lookup_insert_eq.
Qed.

End steps.

(** The operations of the registry implement the abstract machine, at every point of a run and
    under any I/O failures; and what follows for every history of them. *)

(** How an operation ended: the step was taken (with what may be rolled back later), the entry that
    was expected had changed, or an error. *)
Inductive outcome := Taken (t : pending) | Kept | Failed (err : gerr).

Definition of_error (o : option gerr) : outcome := match o with None => Taken None | Some err => Failed err end.
Definition of_flag (x : bool * option gerr) : outcome :=
  match x with (_, Some err) => Failed err | (true, None) => Taken None | (false, None) => Kept end.

Section store.
Context `{Machine} `{Bridge.Crypto} `{SortSlice}.

Definition run_op (p : path) (o : op) : prog outcome :=
  match o with
  | Register x => r ← Upsert p x; Ret (of_error r.2)
  | Reattach x =>
    r ← ReplaceSessionAdapter p x;
    Ret (match r with (_, _, Some err) => Failed err | (x, removed, None) => Taken (Some (x, removed)) end)
  | Rollback r previous => x ← RestoreSessionAdapterIfUnchanged p r previous; Ret (of_flag x)
  | Revise x => r ← UpdateEntry p x; Ret (of_error r)
  | ReviseAll us =>
    r ← UpdateEntries p us;
    Ret (match r with (_, Some err) => Failed err | (c, None) => if bool_decide (Updated c = 0) then Kept else Taken None end)
  | Drop ids => r ← ForgetMany p ids; Ret (of_error r.2)
  | DropIf x => r ← ForgetIfUnchanged p x; Ret (of_flag r)
  end.

(** The entries of an operation are texts that JSON can hold. *)
Definition op_text (o : op) : Prop :=
  match o with
  | Register x | Reattach x => forall now y, prepare_at now x = inl y -> entry_text y
  | Rollback _ previous => Forall entry_text previous
  | Revise x => entry_text x
  | ReviseAll us => Forall (fun u => entry_text (After u)) us
  | Drop _ | DropIf _ => True
  end.

(** What a reattachment displaced, which it may put back. *)
Definition displaced (m : registry) (o : op) (m' : registry) (t : pending) : Prop :=
  match t with
  | None => True
  | Some (x, removed) =>
    exists y now, o = Reattach y /\ prepare_at now y = inl x /\ m' !! ID x = Some x /\
      (forall y, y ∈ removed -> m !! ID y = Some y /\ sameRootAgent y x = true) /\ NoDup (ID <$> removed) /\ Forall entry_text removed /\
      (forall i y, m !! i = Some y -> sameRootAgent y x = true -> y ∈ removed) /\
      m' = <[ID x := x]> (filter (fun iy => sameRootAgent iy.2 x = false) m)
  end.

Context (e : env) (dir : path) (f : string).
Hypothesis dir_plain : Forall (fun c => plain c = true) dir.
Hypothesis not_temp : HasPrefix f ".registry-" = false.

#[local] Abbreviation registry_at := (registry_at dir f).
#[local] Abbreviation reg_path := (reg_path dir f).

(** The registry before or after the step. *)
Definition at_op (m : registry) (o : op) (t : tree) : Prop := registry_at t m \/ exists m', rstep m o m' /\ registry_at t m'.

Definition stepped (m : registry) (o : op) (r : option gerr) (t : tree) : Prop :=
  match r with
  | None => exists m', rstep m o m' /\ registry_at t m'
  | Some err => if is_committed err then exists m', rstep m o m' /\ registry_at t m' else registry_at t m
  end.

(** An error leaves the registry as it was, unless it says that the change was committed. *)
Definition ended (m : registry) (o : op) (out : outcome) (t : tree) : Prop :=
  match out with
  | Taken p => exists m', rstep m o m' /\ registry_at t m' /\ displaced m o m' p
  | Kept => registry_at t m
  | Failed err => stepped m o (Some err) t
  end.

Lemma stepped_at m o r t : stepped m o r t -> at_op m o t.
Proof. unfold stepped. destruct r as [err|]; [destruct (is_committed err)|]; [by right|by left|by right]. Qed.

Lemma ended_error m o r t : stepped m o r t -> ended m o (of_error r) t.
Proof. destruct r as [err|]; [done|]. intros (m' & Hs & Hm). by exists m'. Qed.

Lemma wpi_save_step m o v l w : registry_at (tr w) m -> Forall entry_text (default [] l) ->
  (readable (default [] l) -> rstep m o (by_id (default [] l))) ->
  wpi e (at_op m o) (saveUnlocked reg_path (MkFile v l)) (fun r w' => written dir f m (default [] l) r (tr w')) w.
Proof.
  intros Hm Ht Hstep. apply wpi_saveUnlocked; [done|done|done|done|].
  intros t [Hk|[Hr Hs]]; [by left|right]. eexists. split; [by apply Hstep|done].
Qed.

Lemma written_stepped m o l r t : (readable l -> rstep m o (by_id l)) -> written dir f m l r t -> stepped m o r t.
Proof.
  intros Hstep. unfold written, stepped. destruct r as [err|]; [destruct (is_committed err)|]; try done;
    intros [Hr Hm]; eexists; split; eauto.
Qed.

(** A transaction whose body returns an error, or saves. *)
Lemma wpi_transaction m o body w : registry_at (tr w) m ->
  (forall file w', registry_at (tr w') m -> readable (entries file) -> by_id (entries file) = m ->
    wpi e (at_op m o) (body file) (fun r w'' => stepped m o r (tr w'')) w') ->
  wpi e (at_op m o) (with_file reg_path Some body) (fun r w' => stepped m o r (tr w')) w.
Proof.
  intros Hm Hbody. eapply (wpi_with_file e dir f dir_plain not_temp (at_op m o) m Some body (stepped m o)); [done|by left| |].
  { intros err t Herr Ht. cbn. by rewrite Herr. }
  intros file w' Hm' Hr Hb. eapply wpi_mono; [by apply Hbody|]. intros r w'' Hs. split; [eapply stepped_at; exact Hs|done].
Qed.

Lemma readable_put id x l l' : put_first id x l = Some l' -> Forall entry_text l -> entry_text x -> Forall entry_text l'.
Proof.
  intros (l1 & y & l2 & -> & _ & ->)%put_first_split Hl Hx. apply Forall_app in Hl as [Hl1 Hl2]. apply Forall_app. split; [done|].
  inv Hl2. by constructor.
Qed.

Lemma upsert_text l l' x : upsert l x = inl l' -> Forall entry_text l -> entry_text x -> Forall entry_text l'.
Proof.
  unfold upsert. intros E Hl Hx. destruct (conflictingRegistrationOwner l x) as [owner|].
  - destruct (if sameRegistration owner x then _ else _) as [l0|] eqn:E0; [|done]. injection E as <-.
    destruct (sameRegistration owner x); [|done]. eapply readable_put; [exact E0|done|done].
  - destruct (conflictingTargetOwner l x false); [done|]. injection E as <-. destruct (put_first (ID x) x l) eqn:E0; [eapply readable_put; [exact E0|done|done]|].
    apply Forall_app. by split; [|constructor].
Qed.

Lemma upsert_in l l' x : upsert l x = inl l' -> x ∈ l'.
Proof.
  unfold upsert. intros E. destruct (conflictingRegistrationOwner l x) as [owner|].
  - destruct (sameRegistration owner x); [|done]. destruct (put_first (ID owner) x l) as [l0|] eqn:E0; [|done]. injection E as <-.
    apply put_first_split in E0 as (l1 & y & l2 & _ & _ & ->). set_solver.
  - destruct (conflictingTargetOwner l x false); [done|]. injection E as <-. destruct (put_first (ID x) x l) as [l0|] eqn:E0; [|set_solver].
    apply put_first_split in E0 as (l1 & y & l2 & _ & _ & ->). set_solver.
Qed.

(** The entry that was registered. *)
Definition upserted (m : registry) (x : Entry) (r : Entry * option gerr) (t : tree) : Prop :=
  match r with
  | (y, None) => exists now m', prepare_at now x = inl y /\ rstep m (Register x) m' /\ m' !! ID y = Some y /\ registry_at t m'
  | (_, Some err) => stepped m (Register x) (Some err) t
  end.

Lemma upserted_ended m x r t : upserted m x r t -> ended m (Register x) (of_error r.2) t.
Proof. destruct r as [y [err|]]; [done|]. intros (now & m' & _ & Hs & _ & Hm). by exists m'. Qed.

Lemma wpi_Upsert m x w : registry_at (tr w) m -> op_text (Register x) ->
  wpi e (at_op m (Register x)) (Upsert reg_path x) (fun r w' => upserted m x r (tr w')) w.
Proof.
  intros Hm Htext. unfold Upsert, prepareEntry. wbind. apply wpi_ro_bind; [ro_tac|by left|]. intros now w1 Ht1 _. wret.
  destruct (prepare_at now x) as [y|err] eqn:Ey.
  2: { wret. cbn. rewrite (prepare_quiet _ _ _ Ey). by rewrite Ht1. }
  rewrite <-Ht1 in Hm. wbind.
  eapply wpi_mono; [eapply (wpi_with_file e dir f dir_plain not_temp (at_op m (Register x)) m Some _ (fun r t => upserted m x (y, r) t));
    [exact Hm|by left| |]|intros r w2 Hr; wret; exact Hr].
  { intros err t Herr Ht. cbn. by rewrite Herr. }
  intros file w2 Hm2 Hr Hb. destruct (upsert (entries file) y) as [l|err] eqn:Eu.
  2: { wret. assert (is_committed err = false) as Herr.
       { unfold upsert in Eu. destruct (conflictingRegistrationOwner _ _).
         - destruct (if sameRegistration _ _ then _ else _); [done|]. by injection Eu as <-.
         - destruct (conflictingTargetOwner _ _ _); [by injection Eu as <-|done]. }
       split; [by left|]. cbn. by rewrite Herr. }
  assert (readable l -> rstep m (Register x) (by_id l)) as Hstep.
  { intros Hl. rewrite <-Hb. eapply upsert_step; [apply Hr|apply Hl|done|done]. }
  eapply wpi_mono; [apply wpi_save_step; [done| |exact Hstep]|].
  { cbn. eapply upsert_text; [exact Eu|apply Hr|by eapply Htext]. }
  intros r w3 Hw. pose proof (written_stepped _ _ _ _ _ Hstep Hw) as Hst. split; [by eapply stepped_at|]. destruct r as [err|]; [exact Hst|].
  destruct Hw as [Hl Hw]. exists now, (by_id l). split_and!; [done|auto| |done]. apply by_id_lookup; [apply Hl|]. split; [by eapply upsert_in|done].
Qed.

Lemma wpi_register m x w : registry_at (tr w) m -> op_text (Register x) ->
  wpi e (at_op m (Register x)) (run_op reg_path (Register x)) (fun out w' => ended m (Register x) out (tr w')) w.
Proof.
  intros Hm Htext. cbn [run_op]. wbind. eapply wpi_mono; [by apply wpi_Upsert|]. intros r w' Hr. wret. by apply upserted_ended.
Qed.

Lemma wpi_reattach m x w : registry_at (tr w) m -> op_text (Reattach x) ->
  wpi e (at_op m (Reattach x)) (run_op reg_path (Reattach x)) (fun out w' => ended m (Reattach x) out (tr w')) w.
Proof.
  intros Hm Htext. cbn [run_op]. unfold ReplaceSessionAdapter, prepareEntry. wbind. wbind. apply wpi_ro_bind; [ro_tac|by left|].
  intros now w1 Ht1 _. wret. destruct (prepare_at now x) as [y|err] eqn:Ey.
  2: { wret. wret. cbn. rewrite (prepare_quiet _ _ _ Ey). by rewrite Ht1. }
  rewrite <-Ht1 in Hm. wbind.
  eapply wpi_mono; [eapply (wpi_with_file e dir f dir_plain not_temp (at_op m (Reattach x)) m _ _ (fun r t => match r with
    | (_, Some err) => stepped m (Reattach x) (Some err) t
    | (removed, None) => exists m', rstep m (Reattach x) m' /\ registry_at t m' /\ displaced m (Reattach x) m' (Some (y, removed))
    end)); [exact Hm|by left| |]|].
  - intros err t Herr Ht. cbn. by rewrite Herr.
  - intros file w2 Hm2 Hr Hb. destruct (conflictingTargetOwner (entries file) y true) as [owner|] eqn:Et; [wret; split; [by left|done]|].
    set (next := List.filter _ _ ++ [y]).
    assert (readable next -> rstep m (Reattach x) (by_id next)) as Hstep.
    { intros Hl. rewrite <-Hb. eapply reattach_step; [apply Hr|apply Hl|done|done]. }
    wbind. eapply wpi_mono; [apply wpi_save_step; [done| |exact Hstep]|].
    { cbn. apply Forall_app. split; [|constructor; [by eapply Htext|done]]. apply Forall_forall. intros z Hz%list_elem_of_In.
      apply filter_In in Hz as [Hz _]. eapply Forall_forall; [apply Hr|by apply list_elem_of_In]. }
    intros r w3 Hw. wret. split; [eapply stepped_at, written_stepped; [exact Hstep|exact Hw]|].
    destruct r as [err|]; [eapply (written_stepped m (Reattach x) next (Some err)); [exact Hstep|exact Hw]|]. destruct Hw as [Hl Hw].
    exists (by_id next). split; [auto|]. split; [done|]. exists x, now.
    assert (by_id next = <[ID y := y]> (filter (fun iy => sameRootAgent iy.2 y = false) m)) as En.
    { unfold next. rewrite by_id_app_one by apply Hl. rewrite <-Hb. f_equal. destruct (by_id_filter (fun z => negb (sameRootAgent z y)) (entries file)) as [-> _]; [apply Hr|].
      apply map_filter_ext. intros i z _. cbn. by rewrite negb_true_iff. }
    split_and!; [done|done| | | | | |done].
    + by rewrite En, lookup_insert_eq.
    + intros z Hz. rewrite <-Hb. apply removed_spec; [apply Hr|done].
    + apply by_id_filter, Hr.
    + apply Forall_forall. intros z Hz%list_elem_of_In. apply filter_In in Hz as [Hz _]. eapply Forall_forall; [apply Hr|by apply list_elem_of_In].
    + intros i z Hz Hs. rewrite <-Hb in Hz. apply by_id_elem in Hz as [Hz _]. apply list_elem_of_In, filter_In. by split; [apply list_elem_of_In|].
  - intros [removed [err|]] w2 Hq; wret; wret; done.
Qed.

(** The transactions that report whether they took effect. *)
Definition flagged (m : registry) (o : op) (r : bool * option gerr) (t : tree) : Prop := ended m o (of_flag r) t.

Lemma flagged_at m o r t : flagged m o r t -> at_op m o t.
Proof.
  destruct r as [[] [err|]]; unfold flagged; cbn.
  - apply (stepped_at m o (Some err)).
  - intros (m' & Hs & Hm & _). right. by exists m'.
  - apply (stepped_at m o (Some err)).
  - by left.
Qed.

Lemma written_flagged m o l r t b : (readable l -> rstep m o (by_id l)) -> written dir f m l r t ->
  match r with Some err => flagged m o (b, Some err) t | None => flagged m o (true, None) t end.
Proof.
  intros Hstep Hw. pose proof (written_stepped _ _ _ _ _ Hstep Hw) as Hs. destruct r as [err|].
  - unfold flagged. by destruct b.
  - destruct Hs as (m' & Hs & Hm). by exists m'.
Qed.

Lemma wpi_flagged m o body w : registry_at (tr w) m ->
  (forall file w', registry_at (tr w') m -> readable (entries file) -> by_id (entries file) = m ->
    wpi e (at_op m o) (body file) (fun r w'' => flagged m o r (tr w'')) w') ->
  wpi e (at_op m o) (with_file reg_path (fun err => (false, Some err)) body) (fun r w' => flagged m o r (tr w')) w.
Proof.
  intros Hm Hbody. eapply (wpi_with_file e dir f dir_plain not_temp (at_op m o) m _ body (flagged m o)); [done|by left| |].
  { intros err t Herr Ht. unfold flagged. cbn. by rewrite Herr. }
  intros file w' Hm' Hr Hb. eapply wpi_mono; [by apply Hbody|]. intros r w'' Hs. split; [eapply flagged_at; exact Hs|done].
Qed.

Lemma wpi_rollback m r previous w : registry_at (tr w) m -> op_text (Rollback r previous) ->
  wpi e (at_op m (Rollback r previous)) (run_op reg_path (Rollback r previous)) (fun out w' => ended m (Rollback r previous) out (tr w')) w.
Proof.
  intros Hm Htext. cbn [run_op]. unfold RestoreSessionAdapterIfUnchanged. case_bool_decide; [by wret|].
  wbind. eapply wpi_mono; [apply (wpi_flagged m (Rollback r previous)); [exact Hm|]|intros x w2 Hx; wret; exact Hx].
  intros file w1 Hm1 Hr Hb. destruct (unchanged_index r 0 (entries file) None) as [i|] eqn:Ei; [|by wret].
  set (next := take i _ ++ _).
  assert (readable next -> rstep m (Rollback r previous) (by_id next)) as Hstep.
  { intros Hl. rewrite <-Hb. apply rollback_step; [apply Hr|apply Hl|done]. }
  wbind. eapply wpi_mono; [apply wpi_save_step; [done| |exact Hstep]|].
  { cbn. apply Forall_app. split; [apply Forall_take, Hr|]. apply Forall_app. split; [apply Forall_drop, Hr|done]. }
  intros o w2 Hw. pose proof (written_flagged _ _ _ _ _ false Hstep Hw) as Hfl. destruct o as [err|]; by wret.
Qed.

Lemma wpi_revise m x w : registry_at (tr w) m -> op_text (Revise x) ->
  wpi e (at_op m (Revise x)) (run_op reg_path (Revise x)) (fun out w' => ended m (Revise x) out (tr w')) w.
Proof.
  intros Hm Htext. cbn [run_op]. unfold UpdateEntry. wbind.
  eapply wpi_mono; [apply (wpi_transaction m (Revise x)); [exact Hm|]|intros r w2 Hr; wret; by apply ended_error].
  intros file w1 Hm1 Hr Hb. destruct (List.find _ (entries file)) as [old|] eqn:Ef; [|by wret].
  destruct (validateEntryIdentity x) as [err|] eqn:Ev; [wret; cbn; by rewrite (validateEntry_quiet _ _ Ev)|].
  destruct (sameEntryIdentity old x) eqn:Es; cbn [negb]; [|by wret]. destruct (put_first (ID x) x (entries file)) as [l|] eqn:Ep.
  2: { exfalso. apply put_first_None in Ep. apply List.find_some in Ef as [Hin E%bool_decide_eq_true]. apply Ep. rewrite <-E.
       apply list_elem_of_fmap_2. by apply list_elem_of_In. }
  assert (readable l -> rstep m (Revise x) (by_id l)) as Hstep.
  { intros Hl. rewrite <-Hb. eapply update_step; [apply Hr|apply Hl|done|done|done]. }
  eapply wpi_mono; [apply wpi_save_step; [done| |exact Hstep]|intros r w2 Hw; eapply written_stepped; [exact Hstep|exact Hw]].
  cbn. eapply readable_put; [exact Ep|apply Hr|done].
Qed.

Lemma revised_text us l l' : Forall (fun u => entry_text (After u)) us -> Forall2 (revised us) l l' -> Forall entry_text l -> Forall entry_text l'.
Proof.
  intros Hus Hl. induction Hl as [|x x' l l' Hx Hl IH]; [done|]. intros Ht. inv Ht. constructor; [|by apply IH].
  destruct Hx as [(u & Hu & _ & <-)|[_ ->]]; [|done]. by eapply (proj1 (Forall_forall _ _)) in Hus.
Qed.

Lemma wpi_revise_all m us w : registry_at (tr w) m -> op_text (ReviseAll us) ->
  wpi e (at_op m (ReviseAll us)) (run_op reg_path (ReviseAll us)) (fun out w' => ended m (ReviseAll us) out (tr w')) w.
Proof.
  intros Hm Htext. cbn [run_op]. unfold UpdateEntries. destruct (check_updates [] us) as [err|] eqn:Ec.
  { wret. assert (is_committed err = false) as Herr; [|cbn; by rewrite Herr].
    clear -Ec. revert Ec. generalize (@nil string). induction us as [|u us IH]; intros seen; [done|]. cbn.
    destruct (_ || _); [by intros [= <-]|]. destruct (negb _); [by intros [= <-]|]. destruct (negb _); [by intros [= <-]|].
    case_bool_decide; [by intros [= <-]|]. apply IH. }
  case_bool_decide; [by wret|].
  wbind. eapply wpi_mono; [eapply (wpi_with_file e dir f dir_plain not_temp (at_op m (ReviseAll us)) m _ _ (fun r t =>
    match r with (_, Some err) => stepped m (ReviseAll us) (Some err) t
    | (c, None) => if bool_decide (Updated c = 0%nat) then registry_at t m else stepped m (ReviseAll us) None t end)); [exact Hm|by left| |]|].
  - intros err t Herr Ht. cbn. by rewrite Herr.
  - intros file w1 Hm1 Hr Hb. destruct (apply_updates us _ (entries file) _) as [[l c] [err|]] eqn:Ea.
    { wret. split; [by left|]. assert (is_committed err = false) as Herr; [|cbn; by rewrite Herr].
      revert Ea. generalize (entries file) (MkCounts 0 0) (byID (entries file)). clear. induction us as [|u us IH]; intros l0 r0 ix; [done|]. cbn.
      destruct (i ← ix _; _) as [[i x]|]; [|apply IH]. destruct (negb _); [apply IH|]. case_bool_decide; [apply IH|].
      destruct (negb _); [by intros [= _ _ <-]|apply IH]. }
    case_bool_decide as Eu; [wret; split; [by left|]; by rewrite bool_decide_eq_true_2|].
    assert (rstep m (ReviseAll us) (by_id l)) as Hstep by (rewrite <-Hb; eapply updates_step; [apply Hr|done|exact Ea]).
    wbind. eapply wpi_mono; [apply wpi_save_step; [done| |done]|].
    { cbn. apply check_updates_spec in Ec as [Hnd Hid]. eapply revised_text; [exact Htext| |apply Hr].
      eapply apply_updates_spec; [apply byID_indexes, Hr|apply Hr|done|intros u Hu; by apply Hid|exact Ea]. }
    intros r w2 Hw. eapply (written_stepped m (ReviseAll us) l r) in Hw; [|done]. wret. split; [by eapply stepped_at|].
    destruct r as [err|]; [done|]. by rewrite bool_decide_eq_false_2.
  - intros [c [err|]] w2 Hq; wret; [done|]. case_bool_decide; [done|]. cbn in Hq. destruct Hq as (m' & Hs & Hm'). by exists m'.
Qed.

Lemma wpi_drop m ids w : registry_at (tr w) m ->
  wpi e (at_op m (Drop ids)) (run_op reg_path (Drop ids)) (fun out w' => ended m (Drop ids) out (tr w')) w.
Proof.
  intros Hm. cbn [run_op]. unfold ForgetMany. cbv zeta.
  wbind. eapply wpi_mono; [eapply (wpi_with_file e dir f dir_plain not_temp (at_op m (Drop ids)) m _ _ (fun r t => stepped m (Drop ids) r.2 t));
    [exact Hm|by left| |]|].
  - intros err t Herr Ht. cbn. by rewrite Herr.
  - intros file w1 Hm1 Hr Hb. set (wanted := list_to_set _ : gset string). case_bool_decide as El; cbn [negb]; [|wret; split; [by left|done]].
    assert (default [] (filter (fun x => ID x ∉ wanted) <$> Entries file) = filter (fun x => ID x ∉ wanted) (entries file)) as Ef.
    { unfold entries. by destruct (Entries file). }
    assert (rstep m (Drop ids) (by_id (default [] (filter (fun x => ID x ∉ wanted) <$> Entries file)))) as Hstep.
    { rewrite Ef, <-Hb. apply drop_step; [apply Hr|exact El]. }
    wbind. eapply wpi_mono; [apply wpi_save_step; [done| |done]|].
    { rewrite Ef. apply Forall_forall. intros z [_ Hz]%list_elem_of_filter. eapply Forall_forall; [apply Hr|done]. }
    intros r w2 Hw. eapply (written_stepped m (Drop ids)) in Hw; [|done]. wret. split; [eapply stepped_at; exact Hw|exact Hw].
  - intros r w2 Hr. wret. by apply ended_error.
Qed.

Lemma wpi_drop_if m x w : registry_at (tr w) m ->
  wpi e (at_op m (DropIf x)) (run_op reg_path (DropIf x)) (fun out w' => ended m (DropIf x) out (tr w')) w.
Proof.
  intros Hm. cbn [run_op]. unfold ForgetIfUnchanged. case_bool_decide; [by wret|].
  wbind. eapply wpi_mono; [apply (wpi_flagged m (DropIf x)); [exact Hm|]|intros y w2 Hx; wret; exact Hx].
  intros file w1 Hm1 Hr Hb. destruct (list_find _ (entries file)) as [[i y]|] eqn:Ei; [|by wret].
  case_bool_decide as Ey; cbn [negb]; [|by wret]. subst y. apply list_find_Some in Ei as (Hi & _ & _).
  assert (rstep m (DropIf x) (by_id (delete i (entries file)))) as Hstep by (rewrite <-Hb; apply drop_if_step; [apply Hr|done]).
  wbind. eapply wpi_mono; [apply wpi_save_step; [done| |done]|].
  { cbn. apply Forall_delete, Hr. }
  intros o w2 Hw. eapply (written_flagged m (DropIf x) _ _ _ true) in Hw; [|done]. destruct o as [err|]; by wret.
Qed.

Lemma ended_at m o out t : ended m o out t -> at_op m o t.
Proof.
  destruct out as [p| |err]; cbn; [|by left|apply (stepped_at m o (Some err))]. intros (m' & Hs & Hm & _). right. by exists m'.
Qed.

(** Every operation: the registry before or after its step at every point, and the outcome says which. *)
Lemma wpi_run_op m o w : registry_at (tr w) m -> op_text o ->
  wpi e (at_op m o) (run_op reg_path o) (fun out w' => ended m o out (tr w')) w.
Proof.
  intros Hm Ht. destruct o; auto using wpi_register, wpi_reattach, wpi_rollback, wpi_revise, wpi_revise_all, wpi_drop, wpi_drop_if.
Qed.

End store.
