(* ===== verification/RegistrySafe.v ===== *)
(** Without I/O failures the registry does what it is asked to. *)
From S2P Require Import Prelude GoStr GoSort GoTime GoPath Json JsonFacts JsonStruct TimeParse GoTrim GoErr GoFile Fs Wp FsFacts DeliveryRootFacts Sample Delivery AtomicFacts Registry RegistryJson RegistryMachine RegistryFacts RegistryStore.
From S2P Require Ambient Bridge BridgeFacts SwarmTasks.

(** ** Canonical roots *)

Lemma abs_not_blank s : IsAbs s = true -> TrimSpace s <> "".
Proof.
  intros Hs E. destruct (TrimSpace_spec s) as (l & r & El & Hl & Hr). rewrite E, string_app_nil_l in El.
  assert (str_forallb space_byte s = true) as Hsp by (rewrite El, str_forallb_app; by rewrite Hl, Hr).
  unfold IsAbs in Hs. destruct s as [|c s]; [done|]. cbn in Hs, Hsp. apply andb_true_iff in Hs as [<-%bool_decide_eq_true _]. done.
Qed.

Section canonical.
Context `{MachineLaws}.

(** A canonical root is its own canonical root. *)
Lemma CanonicalRoot_twice r c : CanonicalRoot r = inl c -> CanonicalRoot c = inl c.
Proof.
  unfold CanonicalRoot at 1. case_bool_decide; [done|]. destruct (AbsName (CleanName r)) as [a|] eqn:Ea; [|done].
  destruct (AbsName_abs _ _ Ea) as [Habs Hcl].
  assert (forall x, IsAbs x = true -> CleanName x = x -> bool_decide (TrimSpace x = "") = false /\ AbsName (CleanName x) = inl x) as Hx.
  { intros x Ha Hb. split; [apply bool_decide_eq_false_2; by apply abs_not_blank|]. unfold AbsName. by rewrite Hb, Ha, Hb. }
  destruct (EvalSymlinks a) as [real|x] eqn:Ee.
  - intros [= <-]. destruct (Eval_clean _ _ Habs Ee) as [Ha Hb]. destruct (Hx real Ha Hb) as [E1 E2].
    unfold CanonicalRoot. by rewrite E1, E2, (Eval_real _ _ Ee).
  - cbv zeta. destruct (uncertainSymlinkResolution (name_error x)) eqn:Eu; [done|]. intros [= <-].
    destruct (Hx a Habs Hcl) as [E1 E2]. unfold CanonicalRoot. rewrite E1, E2, Ee. cbv zeta. by rewrite Eu.
Qed.

Context `{Bridge.Crypto}.

(** An entry that was prepared is valid. *)
Lemma prepared_valid now x y : prepare_at now x = inl y -> validateEntryIdentity y = None.
Proof.
  unfold prepare_at. destruct (CanonicalRoot (Root x)) as [root|] eqn:Er; [|done]. do 3 (case_bool_decide; [done|]).
  destruct (negb _ && negb _); [done|]. intros [= <-]. unfold validateEntryIdentity. cbn.
  rewrite !bool_decide_eq_false_2 by done. cbn. rewrite (CanonicalRoot_twice _ _ Er). by rewrite bool_decide_eq_true_2.
Qed.
End canonical.

(** ** The calls *)

Section live.
Context (e : env) (Hnf : healthy e) `{Machine} `{Bridge.Crypto} `{SortSlice} (dir : path) (f : string).
Hypothesis dir_plain : Forall (fun c => plain c = true) dir.
Hypothesis not_temp : HasPrefix f ".registry-" = false.

#[local] Abbreviation registry_at := (registry_at dir f).
#[local] Abbreviation reg_path := (reg_path dir f).
#[local] Abbreviation lock := (dir ++ [f +:+ ".lock"]).

(** The directory is in place, the lock is a file or not made yet, and no temporary is in the way. *)
Definition ready_to_save (t : tree) : Prop :=
  dirs_upto t dir /\ (dents t !! lock = None \/ exists i, dents t !! lock = Some (NFile i)) /\
  forall n, dents t !! (dir ++ [temp_name (e_rand e n)]) = None.

Context (dir_ne : dir <> []).

Lemma dir_inside n : escapes (dir ++ [n]) = false /\ escapes dir = false.
Proof.
  destruct dir as [|c d]; [done|]. inv dir_plain as [|? ? Hc _]. apply plain_spec in Hc as (_&_&Hc&_). cbn.
  repeat case_match; simplify_eq; done.
Qed.

Lemma sib_parent t n : dirs_upto t dir -> t_parent t (dir ++ [n]) = None.
Proof. intros Hd. apply dirs_upto_parent; [done|]. apply dir_inside. Qed.

Lemma live_CreateTemp tries w : dirs_upto (tr w) dir -> dents (tr w) !! (dir ++ [temp_name (e_rand e (tick w))]) = None ->
  let q := dir ++ [temp_name (e_rand e (tick w))] in
  exists w', run e (CreateTemp tries dir) w = ((Some (Handle KFile (fresh_ino (tr w)) q), None), w') /\ tr w' = add_file (tr w) q.
Proof.
  intros Hd Hn q. assert (run e (CreateTemp tries dir) w =
    ((Some (Handle KFile (fresh_ino (tr w)) q), None), set_tree (add_file (tr w) q) (bump w))) as ->; [|by eexists].
  assert (Join_under dir [".registry-" +:+ itoa (e_rand e (tick w)) +:+ ".tmp"] = q) as Et by apply (temp_path dir f dir_plain not_temp).
  destruct tries; cbn [CreateTemp]; rewrite run_mbind, run_sys; cbn [exec fst snd]; cbv zeta; rewrite Et, run_mbind, run_sys; cbn [exec]; unfold upd;
    rewrite Hnf; unfold t_open_excl; cbn [tr bump set_tree]; unfold q in *; rewrite sib_parent by done; rewrite Hn;
    (destruct (dir ++ _) eqn:E; [by destruct dir|]); done.
Qed.

Lemma frame_dirs_upto X t t' q : frame X t t' -> dirs_upto t q -> dirs_upto t' q.
Proof. intros Hf. apply dirs_upto_evo with X. by apply frame_evo. Qed.

Lemma live_registry_sync w : dirs_upto (tr w) dir -> (run e (syncDir dir) w).1 = None.
Proof.
  intros Hd. destruct (dirs_upto_node (tr w) dir dir_ne) as (i & m & Hn); [apply (dir_inside "x")|done|].
  unfold syncDir. live. unfold t_open, t_follow. rewrite Hn. by live.
Qed.

Lemma live_finish w : dirs_upto (tr w) dir -> (forall j m, dents (tr w) !! reg_path <> Some (NDir j m)) ->
  (run e (finishCommittedRegistryFile reg_path dir) w).1 = None.
Proof.
  intros Hd Hnd. unfold finishCommittedRegistryFile. rewrite run_bind, run_call. cbn [exec]. unfold upd_unit, upd. rewrite Hnf. cbn [fst snd ior_map].
  set (w1 := set_tree _ w). assert (dirs_upto (tr w1) dir) as Hd1.
  { intros q Hq Hpre. destruct (Hd q Hq Hpre) as (i & m & Hi). exists i, m. cbn. rewrite lookup_alter_ne; [done|].
    intros <-. by destruct (Hnd i m). }
  rewrite run_bind, live_registry_sync by done. done.
Qed.

Lemma live_write_temp q file w t0 : sib dir f q -> dents t0 !! q = None -> tr w = add_file t0 q -> dirs_upto t0 dir ->
  (forall j m, dents t0 !! reg_path <> Some (NDir j m)) -> forallb times_ok (entries file) = true ->
  (run e (write_temp (Handle KFile (fresh_ino t0) q) reg_path dir file) w).1 = None.
Proof.
  intros Hs Hn Ht Hd Hnd Htm. destruct Hs as (n & -> & Hnf'). set (q := dir ++ [n]) in *.
  assert (q <> reg_path) as Hne by (intros E; apply app_inj_tail in E as [_ ->]; done).
  assert (q <> [] /\ reg_path <> []) as [Hq Hr] by (unfold q, RegistryFacts.reg_path; by destruct dir).
  unfold write_temp. rewrite run_bind, run_call. cbn [exec]. unfold obs. rewrite Hnf. cbn [fst snd]. rewrite Htm. cbn [negb].
  rewrite run_mbind, run_sys. cbn [exec]. rewrite Hnf. cbn [fst snd].
  set (w1 := set_tree _ (bump w)). set (t1 := t_write (add_file t0 q) (fresh_ino t0) (file_text file)).
  assert (tr w1 = t1) as Ht1 by (cbn; by rewrite Ht). clearbody w1.
  rewrite run_bind, run_call. cbn [exec]. unfold obs. rewrite Hnf. cbn [fst snd].
  rewrite run_bind, run_call. cbn [exec]. unfold obs. rewrite Hnf. cbn [fst snd h_path].
  set (w2 := bump (bump w1)). assert (tr w2 = t1) as Ht2 by done. clearbody w2.
  assert (frame (eq q) t0 t1) as Hf by (by apply frame_write_fresh).
  assert (dents t1 !! q = Some (NFile (fresh_ino t0))) as Hi1.
  { unfold t1, t_write. cbn. rewrite lookup_insert_eq. cbn. by rewrite lookup_insert_eq. }
  assert (dirs_upto t1 dir) as Hd1 by (by eapply frame_dirs_upto).
  assert ((run e (call (SRename q reg_path)) w2).1 = None) as Hren.
  { eapply SwarmTasks.live_rename; [done|done|done|rewrite Ht2; by apply sib_parent|by rewrite Ht2|rewrite Ht2; by apply sib_parent|].
    rewrite Ht2, (frame_dents _ _ _ Hf) by done. done. }
  rewrite run_bind, Hren. rewrite run_call in Hren |- *. cbn [exec fst snd] in Hren |- *. unfold upd_unit, upd in *. rewrite Hnf in *. cbn in Hren |- *.
  destruct (t_rename (tr w2) q reg_path) as [t3|x] eqn:E3; [|done]. cbn in *.
  apply rename_file with (i := fresh_ino t0) in E3 as [Hnd3 ->]; [|done|done|by rewrite Ht2].
  assert (frame (near dir f) t0 (set_dents (fun m => <[reg_path := NFile (fresh_ino t0)]> (delete q m)) (tr w2))) as Hf3.
  { rewrite Ht2. apply frame_rename; [left; by exists n|by right|done|done|]. eapply frame_mono; [|exact Hf]. intros ? <-. left. by exists n. }
  apply live_finish; cbn; [by eapply frame_dirs_upto|]. intros j m. by rewrite lookup_insert_eq.
Qed.

Lemma live_saveUnlocked v o w : let l := default [] o in ready_to_save (tr w) -> (forall j m, dents (tr w) !! reg_path <> Some (NDir j m)) ->
  Forall (fun x => validateEntryIdentity x = None) l -> NoDup (ID <$> l) -> forallb times_ok l = true ->
  (run e (saveUnlocked reg_path (MkFile v o)) w).1 = None.
Proof.
  intros l (Hd & _ & Hfresh) Hnd Hv Hnodup Htm. unfold saveUnlocked. cbn [Entries].
  assert (validateFileIdentities (MkFile CurrentSchema o) = None) as ->.
  { apply validate_entries_None. split_and!; [done|done|]. intros x _ Hx. by apply elem_of_nil in Hx. }
  assert (Dir reg_path = dir) as -> by apply removelast_last.
  destruct (live_CreateTemp (Z.to_nat 9999) w Hd (Hfresh _)) as (w1 & Hr & Ht1). rewrite run_mbind, Hr. cbn [fst snd].
  rewrite run_mbind. rewrite live_write_temp; [|by apply (temp_path dir f)|done|done|done|done|].
  - rewrite run_mbind, run_sys. done.
  - unfold entries. cbn. destruct o as [l0|]; [|done]. cbn. rewrite forallb_forall in *. intros x Hx%list_elem_of_In.
    apply Htm, list_elem_of_In. unfold l. cbn. by rewrite sortEntries_perm in Hx.
Qed.

Lemma lock_not_temp r : dir ++ [temp_name r] <> lock.
Proof.
  intros E. apply app_inj_tail in E as [_ E]. apply (f_equal str_rev) in E. unfold temp_name in E.
  rewrite !str_rev_string_app in E. change (str_rev ".tmp") with "pmt." in E. change (str_rev ".lock") with "kcol." in E. discriminate E.
Qed.

Lemma ready_kept t t' : frame (eq lock) t t' -> (exists i, dents t' !! lock = Some (NFile i)) -> ready_to_save t -> ready_to_save t'.
Proof.
  intros Hf Hl (Hd & _ & Hfresh). split; [by eapply frame_dirs_upto|]. split; [by right|]. intros n.
  rewrite (frame_dents _ _ _ Hf); [done|]. intros E. by apply (lock_not_temp (e_rand e n)).
Qed.

Lemma live_openPinnedLock w : ready_to_save (tr w) -> exists i w', run e (openPinnedLock lock) w = ((Some (Handle KFile i lock), None), w') /\
  frame (eq lock) (tr w) (tr w') /\ dents (tr w') !! lock = Some (NFile i).
Proof.
  intros (Hd & Hl & _). pose proof (sib_parent (tr w) (f +:+ ".lock") Hd) as Hp.
  assert (lock <> []) as Hne by (by destruct dir).
  assert (exists i t', t_open_create_nofollow (tr w) lock = Ok (Handle KFile i lock, t') /\ frame (eq lock) (tr w) t' /\ dents t' !! lock = Some (NFile i))
    as (i & t' & Ho & Hf & Hi).
  { unfold t_open_create_nofollow, t_open_nofollow. destruct Hl as [Hl|[i Hl]].
    - rewrite t_node_absent by done. unfold t_open_excl. destruct lock as [|c q] eqn:El; [done|]. rewrite Hp, Hl.
      eexists _, _. split; [done|]. split; [by apply frame_add_file|]. cbn. by rewrite lookup_insert_eq.
    - rewrite (t_node_lookup _ _ _ Hne Hp Hl). cbn. eexists _, _. split; [done|]. split; [apply frame_refl|done]. }
  unfold openPinnedLock. rewrite run_bind, run_sys. cbn [exec]. unfold upd. rewrite Hnf, Ho. cbn [fst snd].
  rewrite run_bind, run_call. cbn [exec]. unfold obs. rewrite Hnf. cbn [fst snd]. by eexists _, _.
Qed.

Lemma live_recheck i w : dirs_upto (tr w) dir -> dents (tr w) !! lock = Some (NFile i) ->
  run e (recheckLockIdentity (Handle KFile i lock) lock) w = (None, bump (bump w)).
Proof.
  intros Hd Hi. unfold recheckLockIdentity. rewrite run_bind, run_sys. cbn [exec]. unfold obs. rewrite Hnf. cbn [fst snd h_kind h_ino].
  rewrite run_bind, run_sys. cbn [exec]. unfold obs. rewrite Hnf. cbn [fst snd tr bump set_tree tick]. unfold t_lstat.
  rewrite (t_node_lookup (tr w) lock (NFile i)); [|by destruct dir|by apply sib_parent|done].
  cbn [ior_map node_info node_kind node_ino]. unfold SameFile. cbn.
  by rewrite !bool_decide_eq_true_2.
Qed.

Lemma live_load m w : registry_at (tr w) m -> exists file w', run e (loadUnlocked reg_path) w = (inl file, w') /\ tr w' = tr w /\
  readable (entries file) /\ by_id (entries file) = m.
Proof.
  intros Hm. pose proof (wpi_run _ _ _ _ _ (wpi_loadUnlocked e dir f dir_plain (fun _ => True) m w Hm Logic.I)) as [Ht Hx].
  destruct (run e (loadUnlocked reg_path) w) as [x w'] eqn:Er. cbn in *. destruct x as [file|err]; [by eexists _, _|]. exfalso. clear Hx.
  destruct Hm as [[Hpar _] [[Hn ->]|(d & file & Hc & Hp & ->)]]; unfold loadUnlocked in Er; rewrite run_mbind in Er.
  - unfold Ambient.os_ReadFile in Er. rewrite run_bind, run_sys in Er. cbn [exec] in Er. unfold obs, t_open in Er. rewrite Hnf in Er.
    cbn [t_follow] in Er. rewrite (t_node_absent (tr w) reg_path) in Er by (first [by apply reg_path_ne|done]).
    cbn in Er. discriminate Er.
  - destruct (SwarmTasks.live_os_ReadFile e Hnf reg_path d w) as (w1 & Hr & _); [by apply reg_path_ne|done|done|]. rewrite Hr in Er. cbn in Er. congruence.
Qed.

(** Without failures a transaction does what its body does. *)
Lemma live_with_file {A} (fail : gerr -> A) body m w : registry_at (tr w) m -> ready_to_save (tr w) ->
  exists file w', readable (entries file) /\ by_id (entries file) = m /\ registry_at (tr w') m /\ ready_to_save (tr w') /\
    (run e (with_file reg_path fail body) w).1 = (run e (body file) w').1.
Proof.
  intros Hm Hr. unfold with_file, withLock. rewrite bool_decide_eq_false_2 by (by apply reg_path_ne).
  assert (Dir reg_path = dir) as -> by apply removelast_last. rewrite lock_path.
  assert (run e (ensureRegistryDir dir) w = (None, bump w)) as Hens.
  { unfold ensureRegistryDir. rewrite run_mbind, run_sys. cbn [exec]. unfold obs, t_lstat. rewrite Hnf. destruct Hm as [[_ [i Hi]] _]. rewrite Hi. done. }
  rewrite run_bind, Hens. cbn [fst snd]. destruct (live_openPinnedLock (bump w) Hr) as (i & w1 & Ho & Hf & Hi). cbn [tr bump set_tree] in Hf.
  rewrite run_mbind, Ho. cbn [fst snd]. rewrite run_bind, run_call. cbn [exec]. rewrite Hnf. cbn [fst snd].
  set (w2 := World _ _ _ _ _). assert (tr w2 = tr w1) as Ht2 by done. clearbody w2.
  assert (ready_to_save (tr w2)) as Hr2 by (rewrite Ht2; eapply ready_kept; [exact Hf|by eexists|done]).
  assert (registry_at (tr w2) m) as Hm2.
  { rewrite Ht2. eapply kept_registry; [done| |exact Hm]. eapply frame_mono; [|exact Hf]. intros ? <-. by apply longer_sib. }
  rewrite run_mbind. rewrite run_bind, live_recheck; [|apply Hr2|by rewrite Ht2]. cbn [fst snd].
  destruct (live_load m (bump (bump w2)) Hm2) as (file & w3 & Hl & Ht3 & Hread & Hb). cbn [tr bump set_tree] in Ht3.
  exists file, w3. rewrite Ht3. split_and!; try done. set (r := run e (loadUnlocked _ ≫= _) _).
  assert (r = run e (body file) w3) as <- by (unfold r; by rewrite run_mbind, Hl).
  by rewrite run_mbind, run_sys, run_mbind, run_sys.
Qed.

(** ** Registering *)

Lemma live_prepare now now' x y y' : prepare_at now x = inl y -> prepare_at now' x = inl y' ->
  ID y' = ID y /\ (forall z, sameRootAgent z y' = sameRootAgent z y) /\ (forall z, sameTarget z y' = sameTarget z y).
Proof.
  unfold prepare_at. destruct (CanonicalRoot (Root x)) as [root|]; [|done]. do 3 (case_bool_decide; [done|]).
  destruct (negb _ && negb _); [done|]. by intros [= <-] [= <-].
Qed.

Lemma put_first_some id x l : id ∈ ID <$> l -> is_Some (put_first id x l).
Proof. intros Hin. destruct (put_first id x l) eqn:E; [by eexists|]. by apply put_first_None in E. Qed.

Lemma put_first_elems id x l l' : put_first id x l = Some l' -> forall y, y ∈ l' -> y = x \/ y ∈ l.
Proof. intros (l1 & z & l2 & -> & _ & ->)%put_first_split y. set_solver. Qed.

Lemma put_first_nodup id x l l' : put_first id x l = Some l' -> NoDup (ID <$> l) -> (ID x = id \/ ID x ∉ ID <$> l) -> NoDup (ID <$> l').
Proof.
  intros (l1 & z & l2 & -> & <- & ->)%put_first_split. rewrite <-!Permutation_middle, !fmap_cons, !NoDup_cons.
  intros [Hz Hnd] Hx. split; [|done]. destruct Hx as [->|Hx]; [done|]. by apply not_elem_of_cons in Hx as [_ Hx].
Qed.

(** The step that is possible is the one that is made. *)
Lemma upsert_possible l x y now m' : NoDup (ID <$> l) -> exclusive (by_id l) -> rstep (by_id l) (Register x) m' -> prepare_at now x = inl y ->
  exists l', upsert l y = inl l' /\ NoDup (ID <$> l') /\ forall z, z ∈ l' -> z = y \/ z ∈ l.
Proof.
  intros Hnd Hex Hs Hy.
  assert (forall z, z ∈ l -> by_id l !! ID z = Some z) as Hl by (intros z Hz; by apply by_id_lookup).
  assert (forall z, z ∈ l -> ID z ∈ ID <$> l) as Hids by (intros z Hz; by apply list_elem_of_fmap_2).
  inversion Hs as [? now0 x0 Hp Hap|? now0 x0 old Hp Hold Hnew Hsame| | | | | | ]; subst; destruct (live_prepare _ _ _ _ _ Hp Hy) as (Ei & Er & Et).
  - assert (conflictingRegistrationOwner l y = None /\ conflictingTargetOwner l y false = None) as [E1 E2].
    { split; (apply eq_None_not_Some; intros [z Hz]; apply List.find_some in Hz as [Hin%list_elem_of_In Hz];
        rewrite Ei, ?Er, ?Et in Hz; repeat apply andb_true_iff in Hz as [Hz ?]; apply negb_true_iff, bool_decide_eq_false in Hz;
        destruct (Hap _ _ (Hl z Hin) Hz); congruence). }
    unfold upsert. rewrite E1, E2. destruct (put_first (ID y) y l) as [l0|] eqn:Ef.
    + eexists. split; [done|]. split; [eapply put_first_nodup; [done|done|by left]|by eapply put_first_elems].
    + apply put_first_None in Ef. eexists. split; [done|]. rewrite fmap_app. split; [|set_solver]. apply NoDup_app. split_and!; [done|set_solver|by apply NoDup_singleton].
  - apply by_id_elem in Hold as [Hold _]. rewrite by_id_None in Hnew.
    assert (sameRootAgent old y = true /\ sameTarget old y = true) as [Hra Hta] by (rewrite Er, Et; unfold sameRegistration in Hsame; by apply andb_true_iff in Hsame).
    unfold upsert. destruct (conflictingRegistrationOwner l y) as [z|] eqn:Ez.
    2: { pose proof (find_none _ _ Ez old (proj1 (list_elem_of_In _ _) Hold)) as E. cbn in E. rewrite Hra, bool_decide_eq_false_2 in E; [done|].
         rewrite Ei. intros E'. apply Hnew. rewrite <-E'. by apply Hids. }
    apply List.find_some in Ez as [Hz%list_elem_of_In Ez]. apply andb_true_iff in Ez as [_ Ez].
    assert (z = old) as ->.
    { destruct (decide (ID z = ID old)) as [E|E]; [by eapply ids_nodup_elem|]. destruct (Hex _ _ _ _ (Hl z Hz) (Hl old Hold) E) as [Ha _].
      rewrite (sameRootAgent_trans z y old), sameRootAgent_sym in Ha by done. congruence. }
    unfold sameRegistration. rewrite Hra, Hta. cbn. destruct (put_first_some (ID old) y l) as [l0 Ef]; [by apply Hids|]. rewrite Ef.
    eexists. split; [done|]. split; [eapply put_first_nodup; [done|done|right; by rewrite Ei]|by eapply put_first_elems].
Qed.

Lemma registry_not_dir t m : registry_at t m -> forall j k, dents t !! reg_path <> Some (NDir j k).
Proof.
  intros [_ [[Hn _]|(d & file & Hc & _)]] j k E; [congruence|]. unfold content in Hc. by rewrite E in Hc.
Qed.

Lemma live_register `{!MachineLaws} m x w m' : registry_at (tr w) m -> ready_to_save (tr w) -> exclusive m ->
  (forall i y, m !! i = Some y -> times_ok y = true) -> (forall n y, prepare_at (e_clock e n) x = inl y -> times_ok y = true) ->
  rstep m (Register x) m' -> (run e (run_op reg_path (Register x)) w).1 = Taken None.
Proof.
  intros Hm Hready Hex Htm Htx Hs. cbn [run_op]. unfold Upsert, prepareEntry. rewrite !run_mbind, run_sys. cbn [exec fst snd].
  assert (exists y, prepare_at (e_clock e (tick w)) x = inl y) as [y Hy].
  { assert (exists now y, prepare_at now x = inl y) as (now & y0 & Hy0) by (inversion Hs; subst; by eexists _, _).
    revert Hy0. unfold prepare_at. destruct (CanonicalRoot _); [|done]. repeat (case_match; try done); intros _; by eexists. }
  cbn [run fst snd]. rewrite Hy, run_mbind. cbn [run fst snd].
  destruct (live_with_file Some (fun f0 => match upsert (entries f0) y with inr err => Ret (Some err) | inl l => saveUnlocked reg_path (MkFile (SchemaVersion f0) (Some l)) end) m (bump w) Hm Hready)
    as (file & w' & Hread & Hb & Hm' & Hr' & ->).
  rewrite <-Hb in *. destruct (upsert_possible _ _ _ _ _ (rd_nodup _ Hread) Hex Hs Hy) as (l' & -> & Hnd & Hel).
  rewrite live_saveUnlocked; [done|done|by eapply registry_not_dir| |done|].
  - apply Forall_forall. intros z [->|Hz]%Hel; [by eapply prepared_valid|]. exact (proj1 (Forall_forall _ _) (rd_valid _ Hread) z Hz).
  - apply forallb_forall. intros z Hz%list_elem_of_In. destruct (Hel z Hz) as [->|Hz']; [by eapply Htx|]. apply (Htm (ID z)).
    apply by_id_lookup; [apply Hread|done].
Qed.
End live.

(** What the registry of the keepalive guarantees. *)

(** C12: The operations of the registry implement the abstract machine.  Over a file that holds a
    registry, or none yet: stopped after any call, under any I/O failures, the file holds the
    registry before or after the one step of the operation; an operation that reports success
    has taken the step, one that reports a change by somebody else has not, and an error has
    left the registry as it was, unless it is the one that says the change is committed. *)
Theorem registry_refines `{Machine} `{Bridge.Crypto} `{SortSlice} e dir f m o w :
  Forall (fun c => plain c = true) dir -> HasPrefix f ".registry-" = false -> registry_at dir f (tr w) m -> op_text o ->
  Forall (fun w' => at_op dir f m o (tr w')) (trace e (run_op (reg_path dir f) o) w) /\
  ended dir f m o (run e (run_op (reg_path dir f) o) w).1 (tr (run e (run_op (reg_path dir f) o) w).2).
Proof.
  intros Hd Hf Hm Ht. pose proof (wpi_run_op e dir f Hd Hf m o w Hm Ht) as Hw. split; [by eapply wpi_trace|by apply wpi_run in Hw].
Qed.

(** ** Histories *)

Section history.
Context `{Machine} `{Bridge.Crypto} `{SortSlice} (dir : path) (f : string).

(** What may be rolled back after an operation: only a reattachment that came to its end leaves
    something; registering and rolling back end the transaction; the other operations are not
    part of it. *)
Definition next_pending (t : pending) (o : op) (out : option outcome) : pending :=
  match o, out with
  | Reattach _, Some (Taken t') => t'
  | (Register _ | Reattach _ | Rollback _ _), _ => None
  | _, _ => t
  end.

(** An operation is run to its end, or stopped after one of its calls; a rollback is one of the
    reattachment under way. *)
Definition happens (s s' : world * pending) : Prop :=
  exists e o, op_text o /\ (forall r previous, o = Rollback r previous -> s.2 = Some (r, previous)) /\
    let p := run_op (reg_path dir f) o in
    (tr s'.1 = tr (run e p s.1).2 /\ s'.2 = next_pending s.2 o (Some (run e p s.1).1)) \/
    (exists v, v ∈ trace e p s.1 /\ tr s'.1 = tr v /\ s'.2 = next_pending s.2 o None).

Definition holds (s : world * pending) (m : registry) : Prop := registry_at dir f (tr s.1) m /\ sound (m, s.2).

Lemma step_history m t o m' : rstep m o m' -> (forall r previous, o = Rollback r previous -> t = Some (r, previous)) ->
  hstep (m, t) (m', next_pending t o None) \/ exists t1, hstep (m, t) (m', t1) /\ hstep (m', t1) (m', next_pending t o None).
Proof.
  intros Hs Hr. destruct o as [x|x|r previous|x|us|ids|x]; cbn.
  - left. by eapply h_register.
  - right. inv Hs as [| |? now y Hp Ht Hx| | | | |]. exists (Some (y, [])). split; [|apply h_over].
    eapply h_reattach; [by eapply r_reattach|done|by rewrite lookup_insert_eq|by intros z ?%elem_of_nil|constructor].
  - left. rewrite (Hr r previous eq_refl). by apply h_rollback.
  - left. by eapply h_other.
  - left. by eapply h_other.
  - left. by eapply h_other.
  - left. by eapply h_other.
Qed.

Lemma step_sound m t o m' : rstep m o m' -> (forall r previous, o = Rollback r previous -> t = Some (r, previous)) ->
  sound (m, t) -> sound (m', next_pending t o None).
Proof.
  intros Hs Hr Hsound. destruct (step_history m t o m' Hs Hr) as [Hh|(t1 & H1' & H2')]; eauto using hstep_sound.
Qed.

Lemma over_sound m t o : sound (m, t) -> sound (m, next_pending t o None).
Proof. intros Hs. destruct o; cbn; try done; by apply (hstep_sound _ _ Hs), h_over. Qed.

Lemma next_pending_failed t o err : next_pending t o (Some (Failed err)) = next_pending t o None.
Proof. by destruct o. Qed.

Lemma happens_holds s s' m : Forall (fun c => plain c = true) dir -> HasPrefix f ".registry-" = false ->
  happens s s' -> holds s m -> exists m', holds s' m'.
Proof.
  intros Hd Hf (e & o & Ht & Hr & Hend) [Hm Hs]. destruct s as [w t], s' as [w' t']. cbn in *.
  pose proof (wpi_run_op e dir f Hd Hf m o w Hm Ht) as Hw.
  assert (forall v, at_op dir f m o v -> tr w' = v -> t' = next_pending t o None -> exists m', holds (w', t') m') as Hat.
  { intros v Hv Ev ->. destruct Hv as [Hk|(m' & Hst & Hk)].
    - exists m. split; cbn; [by rewrite Ev|by apply over_sound].
    - exists m'. split; cbn; [by rewrite Ev|by eapply step_sound]. }
  destruct Hend as [[Etr ->]|(v & Hv & Etr & Et)].
  2: { apply wpi_trace in Hw. rewrite Forall_forall in Hw. eapply (Hat (tr v)); [by apply Hw|done|done]. }
  apply wpi_run in Hw. destruct (run e (run_op (reg_path dir f) o) w) as [out w1]. cbn in *. destruct out as [p| |err].
  - destruct Hw as (m' & Hst & Hk & Hdis). exists m'. split; cbn; [by rewrite Etr|].
    destruct p as [[x removed]|].
    + destruct Hdis as (y & now & -> & Hp & Hx & Hrem & Hnd & _). cbn. eapply hstep_sound; [exact Hs|]. by eapply h_reattach.
    + assert (next_pending t o (Some (Taken None)) = next_pending t o None) as -> by (by destruct o). by eapply step_sound.
  - exists m. split; cbn; [by rewrite Etr|].
    assert (next_pending t o (Some Kept) = next_pending t o None) as -> by (by destruct o). by apply over_sound.
  - rewrite next_pending_failed in *. eapply (Hat (tr w1)); [by eapply (stepped_at dir f m o (Some err))|done|done].
Qed.

End history.

(** However many operations run on the registry, each to its end or stopped anywhere, under
    any I/O failures: it stays readable, every entry is under its own id, and no two entries are
    of the same agent at the same root or at the same terminal.  What a reattachment displaced
    is put back only by that transaction, and then does not get into anyone's way either. *)
Theorem registry_exclusive `{Machine} `{Bridge.Crypto} `{SortSlice} dir f w w' t :
  Forall (fun c => plain c = true) dir -> HasPrefix f ".registry-" = false ->
  registry_at dir f (tr w) ∅ -> rtc (happens dir f) (w, None) (w', t) ->
  exists m, registry_at dir f (tr w') m /\ exclusive m /\ keyed m.
Proof.
  intros Hd Hf Hm Hr. assert (exists m, holds dir f (w, None) m) as H0' by (exists ∅; split; [done|apply sound_empty]).
  assert (forall s s', rtc (happens dir f) s s' -> (exists m, holds dir f s m) -> exists m, holds dir f s' m) as Hind.
  { intros s s' Hss. induction Hss as [|s1 s2 s3 Hs _ IH]; [done|]. intros [m Hh]. apply IH. by eapply happens_holds. }
  destruct (Hind _ _ Hr H0') as (m & Hk & He & Hkey & _). by exists m.
Qed.

(** C17: Without I/O failures a registration succeeds exactly when it fits.  In a directory that is
    in place and for times that can be written, an entry is registered when and only when the
    abstract machine has a step for it: it is well formed, and nobody else has its agent at its
    root, or its terminal. *)
Theorem registry_available `{MachineLaws} `{Bridge.Crypto} `{SortSlice} e dir f m x w :
  healthy e -> dir <> [] -> Forall (fun c => plain c = true) dir -> HasPrefix f ".registry-" = false ->
  registry_at dir f (tr w) m -> ready_to_save e dir f (tr w) -> exclusive m -> op_text (Register x) ->
  (forall i y, m !! i = Some y -> times_ok y = true) -> (forall n y, prepare_at (e_clock e n) x = inl y -> times_ok y = true) ->
  (run e (run_op (reg_path dir f) (Register x)) w).1 = Taken None <-> exists m', rstep m (Register x) m'.
Proof.
  intros He Hne Hd Hf Hm Hr Hex Htext Htm Htx. split.
  - intros Ht. pose proof (wpi_run _ _ _ _ _ (wpi_run_op e dir f Hd Hf m (Register x) w Hm Htext)) as Hw. cbv beta in Hw. rewrite Ht in Hw.
    destruct Hw as (m' & Hs & _). by exists m'.
  - intros [m' Hs]. by eapply live_register.
Qed.

(** ** Examples *)

(** A machine without symbolic links, on which everything exists; a hash that is its input. *)
#[local] Instance plain_machine : Machine := {| Getwd := inl "/"; EvalSymlinks := fun s => inl s |}.
#[local] Instance plain_hash : Bridge.Crypto := {|
  Bridge.PrivateKey := unit; Bridge.Sum256 := fun s => s; Bridge.NewKeyFromSeed := fun _ => tt; Bridge.Seed := fun _ => "";
  Bridge.Public := fun _ => ""; Bridge.Sign := fun _ s => s; Bridge.VerifySig := fun _ _ _ => false |}.

Definition keepalive_dir : path := ["home"; ".amq-keepalive"].
Definition keepalive_world : world := World (foldl (fun t p => add_dir t p 448) (Tree ∅ ∅ 1) [["home"]; keepalive_dir]) 0 ∅ 0 ∅.

Definition wake_entry (root agent target : string) : Entry :=
  MkEntry "" root "" "" agent "cmux" target "" "" zero_time zero_time 0 zero_time zero_time zero_time "" "".
Definition first_wake : Entry := wake_entry "/q/s1" "codex" "A".
Definition other_wake : Entry := wake_entry "/q/s2" "claude" "B".
Definition moved_wake : Entry := wake_entry "/q/s1" "codex" "C".

Local Abbreviation reg := (reg_path keepalive_dir "registry.json").
Local Abbreviation after_first := (run quiet_env (run_op reg (Register first_wake)) keepalive_world).
Local Abbreviation after_other := (run quiet_env (run_op reg (Register other_wake)) after_first.2).
Local Abbreviation after_moved := (run quiet_env (run_op reg (Reattach moved_wake)) after_other.2).

Lemma keepalive_dir_plain : Forall (fun c => plain c = true) keepalive_dir.
Proof. repeat constructor. Qed.

Lemma keepalive_empty {M : Machine} : registry_at keepalive_dir "registry.json" (tr keepalive_world) ∅.
Proof. split; [split; [reflexivity|]|left; split; reflexivity]. exists 2%N. reflexivity. Qed.

Lemma wake_text {M : Machine} root agent target : utf8_valid root = true -> utf8_valid agent = true -> utf8_valid target = true ->
  CanonicalRoot root = inl root -> op_text (Register (wake_entry root agent target)) /\ op_text (Reattach (wake_entry root agent target)).
Proof.
  intros Hr Ha Ht Hc. assert (forall now y, prepare_at now (wake_entry root agent target) = inl y -> entry_text y) as Hw; [|by split].
  intros now y. unfold prepare_at. cbn [Root wake_entry]. rewrite Hc. do 3 (case_bool_decide; [done|]). cbn. intros [= <-].
  split; cbn; try done. apply stamp_utf8, numeral_stamp, EncodeToString_numeral.
Qed.

Lemma ended_taken dir f m o out t p : out = Taken p -> ended dir f m o out t ->
  exists m', rstep m o m' /\ registry_at dir f t m'.
Proof. intros -> (m' & Hs & Hm & _). by exists m'. Qed.

Lemma registry_refines_witness :
  after_first.1 = Taken None /\
  exists m', rstep ∅ (Register first_wake) m' /\ registry_at keepalive_dir "registry.json" (tr after_first.2) m'.
Proof.
  split; [vm_compute; reflexivity|].
  apply (ended_taken keepalive_dir "registry.json" ∅ (Register first_wake) after_first.1 _ None); [vm_compute; reflexivity|].
  apply (registry_refines quiet_env keepalive_dir "registry.json" ∅ (Register first_wake) keepalive_world);
    [exact keepalive_dir_plain|reflexivity|exact keepalive_empty|apply wake_text; reflexivity].
Defined.

(** An agent that moves to another terminal is registered there only. *)
Lemma registry_exclusive_witness :
  (exists x, after_moved.1 = Taken (Some x) /\ Target <$> x.2 = ["A"]) /\
  exists m, registry_at keepalive_dir "registry.json" (tr after_moved.2) m /\ exclusive m /\ keyed m.
Proof.
  split; [eexists (_, _); split; vm_compute; reflexivity|].
  eapply (registry_exclusive keepalive_dir "registry.json" keepalive_world after_moved.2);
    [exact keepalive_dir_plain|reflexivity|exact keepalive_empty|].
  apply (rtc_l _ _ (after_first.2, None)); [|apply (rtc_l _ _ (after_other.2, None)); [|apply rtc_once]].
  - exists quiet_env, (Register first_wake). split; [apply wake_text; reflexivity|]. split; [done|]. left. split; reflexivity.
  - exists quiet_env, (Register other_wake). split; [apply wake_text; reflexivity|]. split; [done|]. left. split; reflexivity.
  - exists quiet_env, (Reattach moved_wake). split; [apply wake_text; reflexivity|]. split; [done|]. left. split; reflexivity.
Defined.

(** A machine without links whose names are made clean. *)
Definition clean_machine : Machine := {| Getwd := inl "/"; EvalSymlinks := fun s => if IsAbs s then inl (CleanName s) else inr (inl ENOENT) |}.

Lemma clean_laws : @MachineLaws clean_machine.
Proof.
  split; cbn [Getwd EvalSymlinks clean_machine].
  - by intros ? [= <-].
  - intros a b. destruct (IsAbs a) eqn:Ha; [|done]. intros [= <-]. destruct (CleanName_abs a Ha) as [H1 H2]. by rewrite H1, H2.
  - intros a b Ha. rewrite Ha. intros [= <-]. by apply CleanName_abs.
Qed.

Lemma keepalive_ready e : ready_to_save e keepalive_dir "registry.json" (tr keepalive_world).
Proof.
  split; [|split; [by left|]].
  - intros q Hq Hp. destruct q as [|a q]; [done|]. apply prefix_cons_inv_2 in Hp as Hp'. apply prefix_cons_inv_1 in Hp as ->.
    destruct q as [|b q]; [by eexists _, _|]. apply prefix_cons_inv_2 in Hp' as Hp''. apply prefix_cons_inv_1 in Hp' as ->.
    apply prefix_nil_inv in Hp'' as ->. by eexists _, _.
  - intros n. cbn. rewrite !lookup_insert_ne by discriminate. apply lookup_empty.
Qed.

Lemma clean_text : @op_text clean_machine plain_hash (Register first_wake).
Proof. apply (@wake_text clean_machine); reflexivity. Qed.

(** A clock that stands still. *)
Definition still_env : env :=
  Env (fun _ => None) (e_base quiet_env) (fun _ => 1700000000%Z) (e_random quiet_env) (e_pid quiet_env) (e_rand quiet_env) (fun _ l => l)
    (fun _ _ => Permutation_refl _).

Lemma clean_times n y : @prepare_at clean_machine plain_hash (e_clock still_env n) first_wake = inl y -> times_ok y = true.
Proof.
  unfold prepare_at. change (CanonicalRoot (Root first_wake)) with (@inl string gerr "/q/s1"). intros [= <-]. reflexivity.
Qed.

Lemma empty_times : forall i y, (∅ : registry) !! i = Some y -> times_ok y = true.
Proof. intros i y Hy. by apply lookup_empty_Some in Hy. Qed.

(** The first agent is registered. *)
Lemma registry_available_witness :
  (run still_env (@run_op clean_machine plain_hash _ reg (Register first_wake)) keepalive_world).1 = Taken None /\
  exists m', @rstep clean_machine plain_hash ∅ (Register first_wake) m'.
Proof.
  assert ((run still_env (@run_op clean_machine plain_hash _ reg (Register first_wake)) keepalive_world).1 = Taken None) as Ht by (vm_compute; reflexivity).
  split; [exact Ht|].
  refine (proj1 (@registry_available clean_machine clean_laws plain_hash _ still_env keepalive_dir "registry.json" ∅ first_wake keepalive_world
    _ _ keepalive_dir_plain _ keepalive_empty (keepalive_ready still_env) (proj1 sound_empty) clean_text empty_times clean_times) Ht);
    [intros n; reflexivity|clear Ht; discriminate|reflexivity].
Defined.

(** A root that does not exist yet is registered by its spelling; once it exists below a directory
    that is a link, the file that was saved is refused as corrupt. *)
Definition before_creation : Machine := {| Getwd := inl "/"; EvalSymlinks := fun _ => inr (inl ENOENT) |}.
Definition after_creation : Machine := {| Getwd := inl "/"; EvalSymlinks := fun s => inl ("/private" +:+ s) |}.

Lemma late_root_corrupts :
  let w := (run quiet_env (@run_op before_creation plain_hash _ reg (Register first_wake)) keepalive_world) in
  w.1 = Taken None /\
  exists err, (run quiet_env (@Load after_creation plain_hash _ reg) w.2).1 = (zero_file, Some err) /\ errors_Is ErrCorrupt err = true.
Proof. split; [vm_compute; reflexivity|]. eexists. split; vm_compute; reflexivity. Qed.

(** A target that is not valid UTF-8 is written with replacement characters, and then refused. *)
Lemma bad_text_corrupts :
  let w := run quiet_env (run_op reg (Register (wake_entry "/q/s1" "codex" (String (chr 255) "")))) keepalive_world in
  w.1 = Taken None /\ exists err, (run quiet_env (Load reg) w.2).1 = (zero_file, Some err) /\ errors_Is ErrCorrupt err = true.
Proof. split; [vm_compute; reflexivity|]. eexists. split; vm_compute; reflexivity. Qed.
