(* ===== verification/Keepalive.v ===== *)
(** The commands of the keepalive: internal/keepalive/app/app.go, on top of the registry and the
    supervisor.

    The terminals (adapter.Adapter and the interfaces an adapter may offer besides) and the amq
    program are interfaces: class [Outside] has one program per method, which may do anything its
    specification allows.  A method that an adapter does not have is [None].  What a command prints
    is not modelled; the text of an error is kept where it is stored in the registry. *)
From S2P Require Import Prelude GoStr GoSort GoTrim GoTime GoPath GoErr GoFile Fs Registry.
From S2P Require Bridge.

(** ** The terminals: internal/keepalive/adapter/adapter.go *)

Record TargetInventory := MkInventory {
  inv_Probe : string -> prog (option error);
  inv_OwnershipKey : string -> prog (string + error);
  inv_DegradedKey : error -> option string;  (* CmuxDegradedOwnershipKey *)
}.

Record Terminal := MkTerminal {
  Name : string;
  t_Probe : string -> prog (option error);
  t_Normalize : option (string -> prog (string + error));
  t_Inventory : option (string -> prog (option TargetInventory + error));  (* given the trusted target; [None] is nil *)
  t_OwnershipKey : option (string -> prog (string + error));
  t_Discover : option (prog (string + error));
  t_Remember : option (string -> string -> prog unit);
}.

Abbreviation adapter_registry := (gmap string Terminal).

Definition NewRegistry (l : list Terminal) : adapter_registry := foldl (fun m a => <[Name a := a]> m) ∅ l.

(** ** The amq program: internal/keepalive/amq/runner.go *)

Record RetireWakeRequest := MkRetire {
  rt_Root : string; rt_Me : string; rt_InjectVia : string; rt_Adapter : string; rt_Target : string; rt_Generation : string }.

Record WakeCheckResult := MkCheck { LiveWake : bool; Generation : string }.

Record amq_env := MkAmqEnv { env_Root : string; env_BaseRoot : string; env_SessionName : string; env_Me : string }.

Class Outside := {
  Adapters : list Terminal;
  StartWake : StartWakeRequest -> prog (option error);
  CheckWake : string -> string -> prog (WakeCheckResult + error);  (* root and agent *)
  RetireWake : RetireWakeRequest -> prog (option error);
  AmqEnv : prog (amq_env + error);
  ctx_Err : prog (option error);  (* ctx.Err() *)
  Quote : string -> string;  (* the verb q of fmt *)
}.

(** An error of a command: what errors.Join and the wrappers keep of the errors they were given. *)
Definition failure := list (gerr + error).
Definition refusal (text : string) : failure := [inr (plain_error text)].
Definition uncertain (l : failure) : bool := existsb (fun x => match x with inr e => is_uncertain e | inl _ => false end) l.

Section keepalive.
Context `{Machine} `{Bridge.Crypto} `{SortSlice} `{Outside}.

Definition Get (adapters : adapter_registry) (name : string) : Terminal + error :=
  match adapters !! name with
  | Some a => inl a
  | None => inr (plain_error ("unknown adapter " +:+ Quote name))
  end.

Definition adapterRegistry : adapter_registry := NewRegistry Adapters.

(** ** Reconciling an entry *)

(** The reconciler of the commands, with what the probe answered; [n] is what the random source
    gives to the jitter. *)
Definition settings (self : string) (timeout : Z) (probed : option error) (n : Z) : Reconciler :=
  MkReconciler (Some (fun _ => None)) (Some (fun _ => probed)) 0 0 None self timeout 0 0 0
    (fun span => if Z.ltb n 0 then None else Some (Z.modulo n span)).

Definition wake_request (self : string) (timeout : Z) (entry : Entry) : StartWakeRequest :=
  MkRequest (Root entry) (Agent entry) self (Adapter entry) (Target entry) timeout.

(** Reconcile and StartFresh: the calls in their order; their answers decide as in [Supervisor].
    A probe may change what is kept of the terminals in a pass. *)
Definition Reconcile_in {C} (self : string) (timeout : Z) (c : C) (probe : C -> string -> prog (C * option error)) (entry : Entry)
    : prog (C * (Entry * Result)) :=
  now ← sys SNow;
  cancelled ← ctx_Err;
  n ← sys SRand;
  if bool_decide (is_Some cancelled) || before now (NextHealthCheck entry) || before now (BackoffUntil entry)
  then Ret (c, Reconcile (settings self timeout None n) (MkContext cancelled None None) entry now)
  else
    '(c', probed) ← probe c (Target entry);
    over ← match probed with Some _ => ctx_Err | None => Ret None end;
    let r := settings self timeout probed n in
    match checkLocalReadiness r (MkContext None over None) entry now with
    | (blocked, inl result) => Ret (c', (blocked, result))
    | (_, inr _) =>
      started ← StartWake (wake_request self timeout entry);
      over ← match started with Some _ => ctx_Err | None => Ret None end;
      Ret (c', ensureWake r (fun _ => started) (MkContext None None over) entry now)
    end.

(** ** The probes of a pass *)

(** The inventories that were loaded in the pass, by the name of the adapter. *)
#[local] Abbreviation inventories := (gmap string (TargetInventory + error)).

Inductive probe :=
| fixedProbeError (err : error)
| plainProbe (a : Terminal)
| passProbe (provider : string -> prog (option TargetInventory + error)).

Definition newPassProbe (selected : Terminal) : probe :=
  match t_Inventory selected with None => plainProbe selected | Some provider => passProbe provider end.

Definition add_probe (adapters : adapter_registry) (probes : gmap string probe) (entry : Entry) : gmap string probe :=
  match probes !! Adapter entry, Get adapters (Adapter entry) with
  | Some _, _ => probes
  | None, inr err => <[Adapter entry := fixedProbeError err]> probes
  | None, inl selected => <[Adapter entry := newPassProbe selected]> probes
  end.

Definition passProbes (l : list Entry) (adapters : adapter_registry) : gmap string probe := foldl (add_probe adapters) ∅ l.

Definition loadInventory (name : string) (provider : string -> prog (option TargetInventory + error)) (c : inventories)
    : prog (inventories * (TargetInventory + error)) :=
  match c !! name with
  | Some x => Ret (c, x)
  | None =>
    x ← provider "";
    let x := match x with
             | inl (Some inventory) => inl inventory
             | inl None => inr (plain_error "adapter returned a nil target inventory")
             | inr err => inr err
             end in
    Ret (<[name := x]> c, x)
  end.

Definition probe_Probe (name : string) (q : probe) (c : inventories) (target : string) : prog (inventories * option error) :=
  match q with
  | fixedProbeError err => Ret (c, Some err)
  | plainProbe a => x ← t_Probe a target; Ret (c, x)
  | passProbe provider =>
    '(c', x) ← loadInventory name provider c;
    match x with
    | inr err => Ret (c', Some err)
    | inl inventory => y ← inv_Probe inventory target; Ret (c', y)
    end
  end.

(** [None] when the probe is no ownershipProbe. *)
Definition probe_OwnershipKey (name : string) (q : probe) (c : inventories) (target : string)
    : option (prog (inventories * (string + error))) :=
  match q with
  | fixedProbeError _ => None
  | plainProbe a => (fun key => x ← key target; Ret (c, x)) <$> t_OwnershipKey a
  | passProbe provider =>
    Some ('(c', x) ← loadInventory name provider c;
          match x with
          | inr err => Ret (c', inr err)
          | inl inventory => y ← inv_OwnershipKey inventory target; Ret (c', y)
          end)
  end.

(** ** Entries at the same terminal *)

#[local] Abbreviation groups := (gmap (string * string) (list Entry)).

Definition add_to_group (key : string * string) (entry : Entry) (g : groups) : groups :=
  <[key := default [] (g !! key) ++ [entry]]> g.

(** The entries of a group with two members or more are in conflict. *)
Definition collisions (text : string * string -> list Entry -> string) (g : groups) (conflicts : gmap string error)
    : gmap string error :=
  map_fold (fun key owners acc =>
    if Nat.ltb (length owners) 2 then acc else
    foldl (fun acc owner => <[ID owner := plain_error (text key owners)]> acc) acc owners) conflicts g.

Definition target_text (key : string * string) (owners : list Entry) : string :=
  "adapter target ownership collision: adapter=" +:+ Quote key.1 +:+ " target=" +:+ Quote key.2 +:+ " owners=" +:+
  Join_with ", " ((fun o => Agent o +:+ "@" +:+ Root o +:+ " (" +:+ ID o +:+ ")") <$> owners).

Fixpoint target_groups (l : list Entry) (adapters : adapter_registry) (g : groups) : prog groups :=
  match l with
  | [] => Ret g
  | entry :: l' =>
    match Get adapters (Adapter entry) with
    | inr _ => target_groups l' adapters g
    | inl selected =>
      let target := TrimSpace (Target entry) in
      x ← match t_Normalize selected with Some normalize => normalize target | None => Ret (inl target) end;
      match x with
      | inr _ => target_groups l' adapters g
      | inl target => target_groups l' adapters (add_to_group (Name selected, target) entry g)
      end
    end
  end.

Definition targetOwnershipConflicts (l : list Entry) (adapters : adapter_registry) : prog (gmap string error) :=
  g ← target_groups l adapters ∅;
  Ret (collisions target_text g ∅).

Definition physical_text (key : string * string) (owners : list Entry) : string :=
  "physical target ownership collision: adapter=" +:+ Quote key.1 +:+ " identity=" +:+ Quote key.2 +:+ " owners=" +:+
  Join_with ", " ((fun o => Agent o +:+ "@" +:+ Root o +:+ " (" +:+ ID o +:+ ", target=" +:+ Target o +:+ ")") <$> owners) +:+
  "; existing wakes are not retired automatically".

(** fmt.Errorf with the verb w: the text is put before, and errors.Is finds the same. *)
Definition wrapped (text : string) (err : error) : error :=
  MkError (text +:+ ": " +:+ e_text err) (is_not_found err) (is_degraded err) (is_uncertain err).

Fixpoint physical_groups (l : list Entry) (probes : gmap string probe) (c : inventories) (g : groups) (conflicts : gmap string error)
    : prog (inventories * groups * gmap string error) :=
  match l with
  | [] => Ret (c, g, conflicts)
  | entry :: l' =>
    match (q ← probes !! Adapter entry; probe_OwnershipKey (Adapter entry) q c (Target entry)) with
    | None => physical_groups l' probes c g conflicts
    | Some lookup =>
      '(c', x) ← lookup;
      match x with
      | inr err =>
        if is_not_found err then physical_groups l' probes c' g conflicts else
        physical_groups l' probes c' g
          (<[ID entry := wrapped ("resolve physical target ownership for adapter=" +:+ Quote (Adapter entry) +:+ " target=" +:+ Quote (Target entry)) err]> conflicts)
      | inl key => physical_groups l' probes c' (add_to_group (Adapter entry, key) entry g) conflicts
      end
    end
  end.

Definition physicalOwnershipConflicts (l : list Entry) (probes : gmap string probe) (c : inventories)
    : prog (inventories * gmap string error) :=
  '(c', g, conflicts) ← physical_groups l probes c ∅ ∅;
  Ret (c', collisions physical_text g conflicts).

Definition mergeOwnershipConflicts (destination source : gmap string error) : gmap string error := destination ∪ source.

Definition anyEntryDue (l : list Entry) (now : Z) : bool :=
  existsb (fun entry => negb (before now (NextHealthCheck entry)) && negb (before now (BackoffUntil entry))) l.

(** ** A pass of the supervisor *)

Fixpoint seedAdapterOwnership (adapters : adapter_registry) (l : list Entry) : prog unit :=
  match l with
  | [] => Ret tt
  | entry :: l' =>
    _ ← (if bool_decide (TrimSpace (OwnershipKey entry) = "") then Ret tt else
         match Get adapters (Adapter entry) with
         | inr _ => Ret tt
         | inl selected =>
           match t_Remember selected with
           | None => Ret tt
           | Some remember => remember (Target entry) (OwnershipKey entry)
           end
         end);
    seedAdapterOwnership adapters l'
  end.

Definition lookupOwnershipKey (name : string) (q : probe) (c : inventories) (target : string) : prog (inventories * string) :=
  match probe_OwnershipKey name q c target with
  | None => Ret (c, "")
  | Some lookup =>
    '(c', x) ← lookup;
    Ret (c', match x with inl key => TrimSpace key | inr _ => "" end)
  end.

Definition set_key (key : string) (x : Entry) : Entry :=
  MkEntry (ID x) (Root x) (BaseRoot x) (SessionName x) (Agent x) (Adapter x) (Target x) key (State x) (LastAttach x)
    (LastSeenBySupervisor x) (FailureCount x) (BackoffUntil x) (NextHealthCheck x) (DetachedSince x) (LastError x)
    (LastSupervisorDecision x).

(** The probe of an entry: its adapter's, or the conflict it is in. *)
Definition probe_for (probes : gmap string probe) (conflicts : gmap string error) (entry : Entry) : probe :=
  match conflicts !! ID entry with
  | Some err => fixedProbeError err
  | None => default (fixedProbeError (plain_error "adapter is not configured")) (probes !! Adapter entry)
  end.

Definition supervise_entry (self : string) (timeout : Z) (probes : gmap string probe) (conflicts : gmap string error)
    (c : inventories) (entry : Entry) : prog (inventories * (Entry * Result)) :=
  let q := probe_for probes conflicts entry in
  '(c', (updated, result)) ← Reconcile_in self timeout c (probe_Probe (Adapter entry) q) entry;
  if bool_decide (Action result = ActionEnsured) || bool_decide (Action result = ActionStartFailed) then
    '(c'', key) ← lookupOwnershipKey (Adapter entry) q c' (Target updated);
    Ret (c'', (if bool_decide (key = "") then updated else set_key key updated, result))
  else Ret (c', (updated, result)).

Fixpoint supervise_entries (self : string) (timeout : Z) (probes : gmap string probe) (conflicts : gmap string error)
    (c : inventories) (l : list Entry) : prog (list Result * list EntryUpdate) :=
  match l with
  | [] => Ret ([], [])
  | entry :: l' =>
    cancelled ← ctx_Err;
    match cancelled with
    | Some err =>
      '(results, updates) ← supervise_entries self timeout probes conflicts c l';
      Ret (MkResult ActionDeferred false [err] :: results, updates)
    | None =>
      '(c', (updated, result)) ← supervise_entry self timeout probes conflicts c entry;
      '(results, updates) ← supervise_entries self timeout probes conflicts c' l';
      Ret (result :: results, if bool_decide (entry = updated) then updates else MkUpdate entry updated :: updates)
    end
  end.

Definition store_error (o : option gerr) : option failure := (fun err : gerr => [inl err] : failure) <$> o.

(** The work of a pass, under the registration lock. *)
Definition supervise_locked (p : path) (self : string) (timeout : Z) : prog (list Result * option failure) :=
  x ← Load p;
  match x with
  | (_, Some err) => Ret ([], store_error (Some err))
  | (file, None) =>
    let adapters := adapterRegistry in
    _ ← seedAdapterOwnership adapters (entries file);
    let probes := passProbes (entries file) adapters in
    conflicts ← targetOwnershipConflicts (entries file) adapters;
    now ← sys SNow;
    '(c, conflicts) ← (if anyEntryDue (entries file) now then
      '(c, physical) ← physicalOwnershipConflicts (entries file) probes ∅;
      Ret (c, mergeOwnershipConflicts conflicts physical) else Ret (∅, conflicts));
    '(results, updates) ← supervise_entries self timeout probes conflicts c (entries file);
    r ← UpdateEntries p updates;
    Ret (results, store_error r.2)
  end.

Definition superviseOnce (rounds : nat) (chosen : nat -> option gerr) (p : path) (self : string) (timeout : Z)
    : prog (option (list Result * option failure)) :=
  WithRegistrationLockContext rounds p chosen (fun err => ([], store_error (Some err))) (supervise_locked p self timeout).

(** ** Registering *)

Definition resolveRegistrationReadinessFailure (p : path) (reservation candidate : Entry) (removed : list Entry) (readinessErr : failure)
    : prog failure :=
  if uncertain readinessErr then
    if bool_decide (candidate = reservation) then Ret readinessErr else
    o ← UpdateEntry p candidate;
    Ret (readinessErr ++ default [] (store_error o))
  else
    x ← RestoreSessionAdapterIfUnchanged p reservation removed;
    match x with
    | (_, Some err) => Ret (readinessErr ++ [inl err])
    | (true, None) => Ret readinessErr
    | (false, None) =>
      Ret (readinessErr ++ refusal "registry reservation changed before previous entries could be restored; the attached reservation was preserved for supervisor recovery")
    end.

Definition normalize_with (a : Terminal) (target : string) : prog (string + error) :=
  match t_Normalize a with Some normalize => normalize target | None => Ret (inl target) end.

(** The trusted target: [""] for none. *)
Definition registrationOwnershipContext (selected : Terminal) (target : string) : prog string :=
  if negb (bool_decide (Name selected = "cmux")) then Ret "" else
  match t_Discover selected with
  | None => Ret ""
  | Some discover =>
    x ← discover;
    match x with
    | inr _ => Ret ""
    | inl discovered =>
      y ← normalize_with selected discovered;
      Ret (match y with inl d => if bool_decide (d = target) then target else "" | inr _ => "" end)
    end
  end.

Definition registrationTargetInventory (selected : Terminal) (target trusted : string) : prog (option TargetInventory + failure) :=
  match t_Inventory selected with
  | None =>
    o ← t_Probe selected target;
    Ret (match o with None => inl None | Some err => inr [inr err] end)
  | Some provider =>
    x ← provider trusted;
    match x with
    | inr err => Ret (inr [inr err])
    | inl None => Ret (inr (refusal "adapter returned a nil target inventory"))
    | inl (Some inventory) =>
      o ← inv_Probe inventory target;
      Ret (match o with None => inl (Some inventory) | Some err => inr [inr err] end)
    end
  end.

Definition sameCanonicalRootAgent (left right : Entry) : bool + gerr :=
  if negb (bool_decide (Agent left = Agent right)) then inl false else
  match CanonicalRoot (Root left) with
  | inr err => inr err
  | inl leftRoot =>
    match CanonicalRoot (Root right) with
    | inr err => inr err
    | inl rightRoot => inl (bool_decide (leftRoot = rightRoot))
    end
  end.

Definition normalizedTarget (selected : Terminal) (target : string) : prog (string + error) :=
  let target := TrimSpace target in
  match t_Normalize selected with
  | Some normalize => normalize target
  | None => Ret (if bool_decide (target = "") then inr (plain_error "adapter target is empty") else inl target)
  end.

(** The physical owner of an entry that is there: [inl None] when its terminal is gone or proven to be
    another one. *)
Definition existing_key (selected : Terminal) (inventory : TargetInventory) (candidateKey : string) (existing : Entry)
    : prog (option string + failure) :=
  x ← normalizedTarget selected (Target existing);
  match x with
  | inr err => Ret (inr [inr err])
  | inl target =>
    y ← inv_OwnershipKey inventory target;
    Ret (match y with
         | inl key => inl (Some key)
         | inr err =>
           if is_not_found err then inl None
           else if is_degraded err then
             match inv_DegradedKey inventory err with
             | None => inr [inr err]
             | Some key => inl (if bool_decide (key = candidateKey) then Some key else None)
             end
           else inr [inr err]
         end)
  end.

Fixpoint check_existing (selected : Terminal) (inventory : TargetInventory) (candidate : Entry) (candidateKey : string)
    (ignoreSameRootAgent : bool) (l : list Entry) : prog (option failure) :=
  match l with
  | [] => Ret None
  | existing :: l' =>
    if negb (bool_decide (Adapter existing = Adapter candidate)) || bool_decide (ID existing = ID candidate)
    then check_existing selected inventory candidate candidateKey ignoreSameRootAgent l' else
    match (if ignoreSameRootAgent then sameCanonicalRootAgent existing candidate else inl false) with
    | inr err => Ret (Some [inl err])
    | inl true => check_existing selected inventory candidate candidateKey ignoreSameRootAgent l'
    | inl false =>
      x ← existing_key selected inventory candidateKey existing;
      match x with
      | inr err => Ret (Some err)
      | inl key =>
        if bool_decide (key = Some candidateKey) then Ret (Some [inl (targetOwnedError candidate existing)])
        else check_existing selected inventory candidate candidateKey ignoreSameRootAgent l'
      end
    end
  end.

Definition checkPhysicalTargetAvailable (l : list Entry) (selected : Terminal) (inventory : TargetInventory) (candidate : Entry)
    (ignoreSameRootAgent : bool) : prog (option failure) :=
  x ← inv_OwnershipKey inventory (Target candidate);
  match x with
  | inr err => Ret (Some [inr err])
  | inl candidateKey => check_existing selected inventory candidate candidateKey ignoreSameRootAgent l
  end.

Definition StartFresh_in (self : string) (timeout : Z) (probe : string -> prog (option error)) (entry : Entry) : prog (Entry * Result) :=
  '(_, x) ← Reconcile_in self timeout tt (fun _ target => o ← probe target; Ret (tt, o)) entry;
  Ret x.

Definition observeWakeGeneration (root me : string) : prog (string + error) :=
  x ← CheckWake root me;
  Ret (match x with
       | inr err => inr err
       | inl check =>
         let generation := TrimSpace (Generation check) in
         if LiveWake check && bool_decide (generation = "") then inr (plain_error "live wake omitted generation") else inl generation
       end).

(** The entries of the agent at the root, in their order. *)
Fixpoint same_owner_entries (next : Entry) (l : list Entry) : list Entry + gerr :=
  match l with
  | [] => inl []
  | entry :: l' =>
    match sameCanonicalRootAgent entry next with
    | inr err => inr err
    | inl same =>
      match same_owner_entries next l' with
      | inr err => inr err
      | inl matches => inl (if same then entry :: matches else matches)
      end
    end
  end.

Definition result_failure (result : Result) : option failure := match Error result with [] => None | l => Some (inr <$> l) end.

(** The previous terminal is proven absent: the wake is started at the new one, if need be after the
    one of the previous terminal was retired. *)
Definition restart_detached (self : string) (timeout : Z) (probe : string -> prog (option error)) (previous next : Entry) (target : string)
    : prog (Entry * bool * option failure) :=
  g ← observeWakeGeneration (Root next) (Agent next);
  match g with
  | inr err => Ret (next, false, Some [inr err])
  | inl generation =>
    '(updated, initialStart) ← StartFresh_in self timeout probe next;
    match result_failure initialStart with
    | None => Ret (updated, true, None)
    | Some err =>
      if uncertain err then Ret (updated, false, Some err) else
      o ← RetireWake (MkRetire (Root next) (Agent next) self (Adapter previous) target generation);
      match o with
      | Some retireErr => Ret (next, false, Some [inr retireErr])
      | None =>
        '(retried, retryStart) ← StartFresh_in self timeout probe next;
        match result_failure retryStart with
        | None => Ret (retried, true, None)
        | Some err => if uncertain err then Ret (retried, false, Some err) else Ret (next, false, Some err)
        end
      end
    end
  end.

Definition recoverDetachedRegistration (previousEntries : list Entry) (adapters : adapter_registry) (self : string) (timeout : Z)
    (probe : string -> prog (option error)) (next : Entry) : prog (Entry * bool * option failure) :=
  match same_owner_entries next previousEntries with
  | inr err => Ret (next, false, Some [inl err])
  | inl [] => Ret (next, false, None)
  | inl [previous] =>
    if bool_decide (Adapter previous = Adapter next) && bool_decide (Target previous = Target next) then Ret (next, false, None) else
    match Get adapters (Adapter previous) with
    | inr err => Ret (next, false, Some [inr err])
    | inl previousAdapter =>
      x ← normalize_with previousAdapter (Target previous);
      match x with
      | inr err => Ret (next, false, Some [inr err])
      | inl target =>
        o ← t_Probe previousAdapter target;
        match o with
        | None => Ret (next, false, None)
        | Some probeErr =>
          if negb (is_not_found probeErr) then Ret (next, false, Some [inr probeErr]) else
          restart_detached self timeout probe previous next target
        end
      end
    end
  | inl _ => Ret (next, false, Some (refusal "refusing detached wake recovery: expected one registry entry"))
  end.

Record registerOptions := MkOptions {
  o_RegistryPath : path; o_AdapterName : string; o_Target : string; o_Root : string; o_BaseRoot : string; o_SessionName : string;
  o_Me : string; o_Self : string; o_WakeTimeout : Z; o_NoStart : bool; o_Replace : bool; o_RetireDetached : bool }.

Definition set_target (target : string) (o : registerOptions) : registerOptions :=
  MkOptions (o_RegistryPath o) (o_AdapterName o) target (o_Root o) (o_BaseRoot o) (o_SessionName o) (o_Me o) (o_Self o)
    (o_WakeTimeout o) (o_NoStart o) (o_Replace o) (o_RetireDetached o).

Definition set_place (root baseRoot session me : string) (o : registerOptions) : registerOptions :=
  MkOptions (o_RegistryPath o) (o_AdapterName o) (o_Target o) root baseRoot session me (o_Self o)
    (o_WakeTimeout o) (o_NoStart o) (o_Replace o) (o_RetireDetached o).

(** Reattaching: the reservation is written first, then the wake is started. *)
Definition reattach_locked (opts : registerOptions) (adapters : adapter_registry) (probe : string -> prog (option error)) (next : Entry)
    : prog (Entry * list Entry * option failure) :=
  let p := o_RegistryPath opts in
  if_err err := CheckTargetAvailable p next true then Ret (zero_entry, [], Some [inl err]) else
  x ← ReplaceSessionAdapter p next;
  match x with
  | (entry, removed, Some err) => Ret (entry, removed, Some [inl err])
  | (entry, removed, None) =>
    if o_NoStart opts then Ret (entry, removed, None) else
    y ← (if o_RetireDetached opts
         then recoverDetachedRegistration removed adapters (o_Self opts) (o_WakeTimeout opts) probe entry
         else Ret (entry, false, None));
    match y with
    | (next, _, Some recoverErr) =>
      err ← resolveRegistrationReadinessFailure p entry next removed recoverErr;
      Ret (entry, removed, Some err)
    | (next, wakeReady, None) =>
      z ← (if wakeReady : bool then Ret (next, None) else
           '(updated, result) ← StartFresh_in (o_Self opts) (o_WakeTimeout opts) probe next;
           match result_failure result with
           | Some err =>
             err ← resolveRegistrationReadinessFailure p entry updated removed err;
             Ret (updated, Some err)
           | None => Ret (updated, None)
           end);
      match z with
      | (_, Some err) => Ret (entry, removed, Some err)
      | (next, None) =>
        if_err err := UpdateEntry p next then Ret (entry, removed, Some [inl err]) else
        Ret (next, removed, None)
      end
    end
  end.

Definition attach_locked (opts : registerOptions) (probe : string -> prog (option error)) (next : Entry)
    : prog (Entry * list Entry * option failure) :=
  let p := o_RegistryPath opts in
  x ← Upsert p next;
  match x with
  | (entry, Some err) => Ret (entry, [], Some [inl err])
  | (entry, None) =>
    if o_NoStart opts then Ret (entry, [], None) else
    '(updated, result) ← StartFresh_in (o_Self opts) (o_WakeTimeout opts) probe entry;
    if_err err := UpdateEntry p updated then Ret (entry, [], Some [inl err]) else
    Ret (updated, [], if bool_decide (Action result = ActionDetached) then None else result_failure result)
  end.

(** The transaction of a registration, under the registration lock. *)
Definition register_locked (opts : registerOptions) (adapters : adapter_registry) (selected : Terminal) (trusted : string) (next : Entry)
    : prog (Entry * list Entry * option failure) :=
  x ← registrationTargetInventory selected (Target next) trusted;
  match x with
  | inr err => Ret (zero_entry, [], Some err)
  | inl inventory =>
    y ← Load (o_RegistryPath opts);
    match y with
    | (_, Some err) => Ret (zero_entry, [], Some [inl err])
    | (file, None) =>
      match inventory with
      | None =>
        if o_Replace opts then reattach_locked opts adapters (t_Probe selected) next else attach_locked opts (t_Probe selected) next
      | Some inventory =>
        o ← checkPhysicalTargetAvailable (entries file) selected inventory next (o_Replace opts);
        match o with
        | Some err => Ret (zero_entry, [], Some err)
        | None =>
          key ← inv_OwnershipKey inventory (Target next);
          let next := match key with inl key => set_key key next | inr _ => next end in
          if o_Replace opts then reattach_locked opts adapters (inv_Probe inventory) next else attach_locked opts (inv_Probe inventory) next
        end
      end
    end
  end.

Definition register_transaction (rounds : nat) (chosen : nat -> option gerr) (opts : registerOptions) (selected : Terminal) (trusted : string)
    (next : Entry) : prog (option (Entry * list Entry * option failure)) :=
  WithRegistrationLockContext rounds (o_RegistryPath opts) chosen (fun err => (zero_entry, [], Some [inl err]))
    (register_locked opts adapterRegistry selected trusted next).

(** filepath.Base. *)
Definition base_of (s : string) : string :=
  if bool_decide (s = "") then "." else default "/" (last (filter (fun c => c <> "") (Split_on slash s))).

Definition normalizeAMQPaths (root baseRoot sessionName : string) : string * string :=
  let root := TrimSpace root in
  let baseRoot := TrimSpace baseRoot in
  let sessionName := TrimSpace sessionName in
  let baseRoot :=
    if negb (bool_decide (baseRoot = "")) && negb (IsAbs baseRoot)
    then match AbsName baseRoot with inl abs => abs | inr _ => baseRoot end else baseRoot in
  let own := match AbsName root with inl abs => abs | inr _ => root end in
  if bool_decide (root = "") || IsAbs root then (root, baseRoot) else
  if negb (bool_decide (baseRoot = "")) && IsAbs baseRoot then
    if negb (bool_decide (sessionName = "")) && bool_decide (base_of root = sessionName) then (JoinName baseRoot sessionName, baseRoot)
    else if bool_decide (base_of root = base_of baseRoot) then (baseRoot, baseRoot)
    else (own, baseRoot)
  else (own, baseRoot).

(** The options with what the environment of the agent gives. *)
Definition fill_options (opts : registerOptions) : prog (registerOptions + failure) :=
  if bool_decide (o_Root opts = "") || bool_decide (o_Me opts = "") || bool_decide (o_BaseRoot opts = "") || bool_decide (o_SessionName opts = "") then
    x ← AmqEnv;
    let fill := fun given found => if bool_decide (given = "") then found else given in
    let filled := fun env => set_place (fill (o_Root opts) (env_Root env)) (fill (o_BaseRoot opts) (env_BaseRoot env))
      (fill (o_SessionName opts) (env_SessionName env)) (fill (o_Me opts) (env_Me env)) opts in
    Ret (match x with
         | inl env => inl (filled env)
         | inr err =>
           if bool_decide (o_Root opts = "") || bool_decide (o_Me opts = "") then inr [inr err] else inl (filled (MkAmqEnv "" "" "" ""))
         end)
  else Ret (inl opts).

(** The target: given, or discovered; normalized when the adapter can. *)
Definition registration_target (opts : registerOptions) (selected : Terminal) : prog (string + failure) :=
  x ← (if bool_decide (o_Target opts = "") then
         match t_Discover selected with
         | None => Ret (inr (refusal "--target is required"))
         | Some discover => x ← discover; Ret (match x with inl t => inl t | inr err => inr [inr err] end)
         end
       else Ret (inl (o_Target opts)));
  match x with
  | inr err => Ret (inr err)
  | inl target => y ← normalize_with selected target; Ret (match y with inl t => inl t | inr err => inr [inr err] end)
  end.

Definition registration_entry (opts : registerOptions) : Entry :=
  MkEntry (EntryID (o_Root opts) (o_Me opts) (o_AdapterName opts) (o_Target opts)) (o_Root opts) (o_BaseRoot opts) (o_SessionName opts) (o_Me opts)
    (o_AdapterName opts) (o_Target opts) "" StateAttached zero_time zero_time 0 zero_time zero_time zero_time "" "".

Definition registerWithOptions (rounds : nat) (chosen : nat -> option gerr) (opts : registerOptions)
    : prog (option (Entry * list Entry * option failure)) :=
  let fail := fun err : failure => (zero_entry, @nil Entry, Some err) in
  x ← fill_options opts;
  match x with
  | inr err => Ret (Some (fail err))
  | inl opts =>
    let '(root, baseRoot) := normalizeAMQPaths (o_Root opts) (o_BaseRoot opts) (o_SessionName opts) in
    match CanonicalRoot root with
    | inr err => Ret (Some (fail [inl err]))
    | inl root =>
      let opts := set_place root baseRoot (o_SessionName opts) (o_Me opts) opts in
      match Get adapterRegistry (o_AdapterName opts) with
      | inr err => Ret (Some (fail [inr err]))
      | inl selected =>
        y ← registration_target opts selected;
        match y with
        | inr err => Ret (Some (fail err))
        | inl target =>
          let opts := set_target target opts in
          trusted ← registrationOwnershipContext selected target;
          register_transaction rounds chosen opts selected trusted (registration_entry opts)
        end
      end
    end
  end.

(** ** Cleaning up *)

Inductive gc_status := gc_skipped | gc_candidate | gc_error | gc_retired.

(** An entry that was detached for long enough, of a terminal it does not share. *)
Definition gc_old (minAge now : Z) (conflicts : gmap string error) (entry : Entry) : bool :=
  bool_decide (State entry = StateDetached) && negb (IsZero (DetachedSince entry)) &&
  negb (Z.ltb (now - DetachedSince entry) minAge) && bool_decide (conflicts !! ID entry = None).

(** Retiring the wake of an entry, and then forgetting the entry. *)
Definition retire_entry (p : path) (self target generation : string) (entry : Entry) : prog (gc_status * failure) :=
  o ← RetireWake (MkRetire (Root entry) (Agent entry) self (Adapter entry) target generation);
  match o with
  | Some retireErr => Ret (gc_error, [inr retireErr])
  | None =>
    x ← ForgetIfUnchanged p entry;
    Ret (match x.2 with Some forgetErr => (gc_error, [inl forgetErr]) | None => (gc_retired, []) end)
  end.

Definition gc_entry (p : path) (self : string) (apply : bool) (minAge now : Z) (adapters : adapter_registry) (probes : gmap string probe)
    (conflicts : gmap string error) (c : inventories) (entry : Entry) : prog (inventories * (gc_status * failure)) :=
  if negb (gc_old minAge now conflicts entry) then Ret (c, (gc_skipped, [])) else
  match Get adapters (Adapter entry), probes !! Adapter entry with
  | inl selected, Some q =>
    x ← normalizedTarget selected (Target entry);
    match x with
    | inr _ => Ret (c, (gc_skipped, []))
    | inl target =>
      g ← (if apply then observeWakeGeneration (Root entry) (Agent entry) else Ret (inl ""));
      match g with
      | inr _ => Ret (c, (gc_skipped, []))
      | inl generation =>
        '(c', o) ← probe_Probe (Adapter entry) q c target;
        match o with
        | None => Ret (c', (gc_skipped, []))
        | Some probeErr =>
          if negb (is_not_found probeErr) then Ret (c', (gc_skipped, []))
          else if negb apply then Ret (c', (gc_candidate, []))
          else r ← retire_entry p self target generation entry; Ret (c', r)
        end
      end
    end
  | _, _ => Ret (c, (gc_skipped, []))
  end.

Fixpoint gc_entries (p : path) (self : string) (apply : bool) (minAge now : Z) (adapters : adapter_registry) (probes : gmap string probe)
    (conflicts : gmap string error) (c : inventories) (l : list Entry) : prog (list gc_status * failure) :=
  match l with
  | [] => Ret ([], [])
  | entry :: l' =>
    '(c', (status, err)) ← gc_entry p self apply minAge now adapters probes conflicts c entry;
    '(statuses, errs) ← gc_entries p self apply minAge now adapters probes conflicts c' l';
    Ret (status :: statuses, err ++ errs)
  end.

Definition gc_locked (p : path) (self : string) (apply : bool) (minAge : Z) : prog (list gc_status * option failure) :=
  x ← Load p;
  match x with
  | (_, Some err) => Ret ([], store_error (Some err))
  | (file, None) =>
    let adapters := adapterRegistry in
    let probes := passProbes (entries file) adapters in
    conflicts ← targetOwnershipConflicts (entries file) adapters;
    '(c, physical) ← physicalOwnershipConflicts (entries file) probes ∅;
    now ← sys SNow;
    '(statuses, errs) ← gc_entries p self apply minAge now adapters probes (mergeOwnershipConflicts conflicts physical) c (entries file);
    Ret (statuses, match errs with [] => None | _ => Some errs end)
  end.

Definition gc (rounds : nat) (chosen : nat -> option gerr) (p : path) (self : string) (apply : bool) (minAge : Z)
    : prog (option (list gc_status * option failure)) :=
  if Z.ltb minAge 0 then Ret (Some ([], Some (refusal "--min-detached-age must not be negative"))) else
  WithRegistrationLockContext rounds p chosen (fun err => ([], store_error (Some err))) (gc_locked p self apply minAge).

Definition forget (rounds : nat) (chosen : nat -> option gerr) (p : path) (id : string) : prog (option (bool * option failure)) :=
  if bool_decide (id = "") then Ret (Some (false, Some (refusal "--id is required"))) else
  WithRegistrationLockContext rounds p chosen (fun err => (false, store_error (Some err)))
    ('(removed, err) ← Forget p id; Ret (removed, store_error err)).

(** ** Retiring a session *)

Fixpoint required_agents (seen : list string) (parts : list string) : list string + failure :=
  match parts with
  | [] => inl []
  | part :: parts' =>
    let agent := TrimSpace part in
    if bool_decide (agent = "") then inr (refusal "--agents must contain non-empty handles")
    else if bool_decide (agent ∈ seen) then inr (refusal "--agents contains duplicate handle")
    else match required_agents (agent :: seen) parts' with inl l => inl (agent :: l) | inr err => inr err end
  end.

Definition parseRequiredAgents (raw : string) : list string + failure :=
  match required_agents [] (Split_on (chr 44) raw) with
  | inl [] => inr (refusal "--agents is required")
  | x => x
  end.

Definition canonicalExistingPath (s : string) : string + gerr := CanonicalRoot s.

(** The entry of an agent: there has to be exactly one. *)
Definition session_entry (l : list Entry) (root adapterName agent : string) : option Entry :=
  match List.filter (fun entry =>
    match canonicalExistingPath (Root entry) with
    | inl entryRoot => bool_decide (entryRoot = root) && bool_decide (Adapter entry = adapterName) && bool_decide (Agent entry = agent)
    | inr _ => false
    end) l with
  | [entry] => Some entry
  | _ => None
  end.

(** Every terminal is proven absent before anything is retired: the targets and the generations. *)
Fixpoint absent_targets (selected : Terminal) (l : list Entry) : prog (list (Entry * string * string) + failure) :=
  match l with
  | [] => Ret (inl [])
  | entry :: l' =>
    g ← observeWakeGeneration (Root entry) (Agent entry);
    match g with
    | inr err => Ret (inr [inr err])
    | inl generation =>
      x ← normalize_with selected (Target entry);
      match x with
      | inr err => Ret (inr [inr err])
      | inl target =>
        o ← t_Probe selected target;
        match o with
        | None => Ret (inr (refusal "refusing to retire wake: adapter target still exists"))
        | Some probeErr =>
          if negb (is_not_found probeErr) then Ret (inr [inr probeErr]) else
          r ← absent_targets selected l';
          Ret (match r with inl rest => inl ((entry, target, generation) :: rest) | inr err => inr err end)
        end
      end
    end
  end.

Fixpoint retire_all (p : path) (self : string) (l : list (Entry * string * string)) : prog failure :=
  match l with
  | [] => Ret []
  | (entry, target, generation) :: l' =>
    '(_, err) ← retire_entry p self target generation entry;
    errs ← retire_all p self l';
    Ret (err ++ errs)
  end.

Definition retire_locked (p : path) (self root adapterName : string) (agents : list string) : prog (option failure) :=
  x ← Load p;
  match x with
  | (_, Some err) => Ret (store_error (Some err))
  | (file, None) =>
    match mapM (session_entry (entries file) root adapterName) agents with
    | None => Ret (Some (refusal "expected exactly one registry entry"))
    | Some found =>
      match Get adapterRegistry adapterName with
      | inr err => Ret (Some [inr err])
      | inl selected =>
        y ← absent_targets selected found;
        match y with
        | inr err => Ret (Some err)
        | inl l => errs ← retire_all p self l; Ret (match errs with [] => None | _ => Some errs end)
        end
      end
    end
  end.

Definition retireSession (rounds : nat) (chosen : nat -> option gerr) (p : path) (self rootFlag adapterName agentsFlag : string)
    : prog (option (option failure)) :=
  if bool_decide (TrimSpace rootFlag = "") then Ret (Some (Some (refusal "--root is required"))) else
  match canonicalExistingPath rootFlag with
  | inr err => Ret (Some (store_error (Some err)))
  | inl root =>
    match parseRequiredAgents agentsFlag with
    | inr err => Ret (Some (Some err))
    | inl agents =>
      WithRegistrationLockContext rounds p chosen (fun err => store_error (Some err)) (retire_locked p self root adapterName agents)
    end
  end.

End keepalive.
