(* ===== verification/KeepaliveFacts.v ===== *)
(** What the commands of the keepalive ask of the terminals and of the amq program, and how their
    parts behave. *)
From S2P Require Import Prelude GoStr GoSort GoTrim GoTime GoPath GoErr GoFile Fs Wp FsFacts DeliveryRootFacts Encode Json JsonFacts JsonUtf8 JsonStruct Registry RegistryJson RegistryMachine RegistryFacts RegistryStore Supervisor Keepalive.
From S2P Require Bridge Retry.

Lemma wpi_unret {A B} e I (p : prog A) (g : A -> B) Q w : wpi e I (prog_bind p (fun a => Ret (g a))) Q w -> wpi e I p (fun a w' => Q (g a) w') w.
Proof.
  unfold wpi. revert w. induction p as [a|X c k IH]; intros w Hw; [exact Hw|]. intros w0 E. destruct (Hw w0 E) as [HG Hk].
  split; [exact HG|]. by apply IH.
Qed.

(** Error texts are put into a JSON file. *)
Definition err_text (err : error) : Prop := utf8_valid (e_text err) = true.

Section laws.
Context (e : env) `{Machine} `{Bridge.Crypto} `{SortSlice} `{Outside} (dir : path) (f : string).

#[local] Abbreviation registry_at := (registry_at dir f).
#[local] Abbreviation inventories := (gmap string (TargetInventory + error)).
#[local] Abbreviation groups := (gmap (string * string) (list Entry)).

(** ** Programs that leave the registry alone *)

(** Whatever it does elsewhere: the registry [m] stays, and the result satisfies [Q]. *)
Definition leaves {A} (m : registry) (p : prog A) (Q : A -> Prop) : Prop :=
  forall I w, registry_at (tr w) m -> (forall t, registry_at t m -> I t) ->
    wpi e I p (fun a w' => registry_at (tr w') m /\ Q a) w.

Lemma leaves_ret {A} m (a : A) (Q : A -> Prop) : Q a -> leaves m (Ret a) Q.
Proof. intros Ha I w Hm _. by wret. Qed.

Lemma leaves_mono {A} m (p : prog A) (Q Q' : A -> Prop) : leaves m p Q -> (forall a, Q a -> Q' a) -> leaves m p Q'.
Proof. intros Hp HQ I w Hm HI. eapply wpi_mono; [by apply Hp|]. intros a w' [Hm' Ha]. auto. Qed.

Lemma leaves_bind {A B} m (p : prog A) (k : A -> prog B) (Q : A -> Prop) (R : B -> Prop) :
  leaves m p Q -> (forall a, Q a -> leaves m (k a) R) -> leaves m (prog_bind p k) R.
Proof.
  intros Hp Hk I w Hm HI. wbind. eapply wpi_mono; [by apply Hp|]. intros a w' [Hm' Ha]. by apply Hk.
Qed.

Lemma leaves_ro {A} m (p : prog A) : ro p -> leaves m p (fun _ => True).
Proof. intros Hp I w Hm HI. eapply wpi_mono; [by apply wpi_ro; [|apply HI]|]. intros a w' [Ht _]. by rewrite Ht. Qed.

Lemma wpi_leaves {A B} I m (p : prog A) (k : A -> prog B) Q R w : leaves m p Q -> registry_at (tr w) m -> (forall t, registry_at t m -> I t) ->
  (forall a w', registry_at (tr w') m -> Q a -> wpi e I (k a) R w') -> wpi e I (prog_bind p k) R w.
Proof. intros Hp Hm HI Hk. wbind. eapply wpi_mono; [by apply Hp|]. intros a w' [Hm' Ha]. by apply Hk. Qed.

(** ** The terminals and the amq program *)

(** An ownership key is a text without space around it. *)
Definition good_key (r : string + error) : Prop :=
  match r with inl key => utf8_valid key = true /\ TrimSpace key = key | inr err => err_text err end.

Definition key_ok (owner : string -> string -> string + error) (name target : string) (r : string + error) : Prop :=
  r = owner name target /\ good_key r.

(** A probe finds a target absent only when it is. *)
Definition probe_ok (absent : string -> string -> Prop) (name target : string) (o : option error) : Prop :=
  forall err, o = Some err -> err_text err /\ (is_not_found err = true -> absent name target).

Record inventory_ok (absent : string -> string -> Prop) (owner : string -> string -> string + error) (name : string) (inv : TargetInventory) : Prop := {
  inv_probe_ok target m : leaves m (inv_Probe inv target) (probe_ok absent name target);
  inv_key_ok target m : leaves m (inv_OwnershipKey inv target) (key_ok owner name target);
}.

(** The methods leave the registry alone and give texts that JSON can hold.  The documented
    contract: ErrTargetNotFound means that the absence is proven.  In the course of one command the
    names and the owners of terminals do not change: [norm] and [owner]. *)
Record outside_ok (absent : string -> string -> Prop) (norm : Terminal -> string -> string + error)
    (owner : string -> string -> string + error) : Prop := {
  ok_probe a target m : a ∈ Adapters -> leaves m (t_Probe a target) (probe_ok absent (Name a) target);
  ok_normalize a n target m : a ∈ Adapters -> t_Normalize a = Some n -> leaves m (n target) (fun r => r = norm a target);
  ok_inventory a provider trusted m : a ∈ Adapters -> t_Inventory a = Some provider ->
    leaves m (provider trusted) (fun r =>
      match r with
      | inl (Some inv) => inventory_ok absent owner (Name a) inv
      | inl None => True
      | inr err => err_text err /\ is_not_found err = false
      end);
  ok_key a key target m : a ∈ Adapters -> t_OwnershipKey a = Some key -> leaves m (key target) (key_ok owner (Name a) target);
  ok_remember a remember target key m : a ∈ Adapters -> t_Remember a = Some remember -> leaves m (remember target key) (fun _ => True);
  ok_check root me m : leaves m (CheckWake root me) (fun _ => True);
  ok_ctx m : leaves m ctx_Err (fun _ => True);
  ok_quote s : utf8_valid (Quote s) = true;
}.

(** A wake may be asked for where [P] holds of the registry and the request. *)
Definition starts_ok (P : registry -> StartWakeRequest -> Prop) : Prop :=
  forall m rq, P m rq -> leaves m (StartWake rq) (fun o => forall err, o = Some err -> err_text err).

(** A wake may be retired whose terminal is absent; without an error it is [retired] then. *)
Definition retires_ok (absent : string -> string -> Prop) (retired : RetireWakeRequest -> Prop) : Prop :=
  forall m rq, absent (rt_Adapter rq) (rt_Target rq) -> leaves m (RetireWake rq) (fun o => o = None -> retired rq).

(** ** Adapters by name *)

Lemma Get_spec name a : Get adapterRegistry name = inl a -> a ∈ Adapters /\ Name a = name.
Proof.
  unfold Get, adapterRegistry, NewRegistry. destruct (foldl _ ∅ Adapters !! name) as [b|] eqn:E; [|done]. intros [= <-].
  assert (forall m l, (forall n x, m !! n = Some x -> x ∈ Adapters /\ Name x = n) -> (forall x, x ∈ l -> x ∈ Adapters) ->
    forall n x, foldl (fun (m : adapter_registry) a => <[Name a := a]> m) m l !! n = Some x -> x ∈ Adapters /\ Name x = n) as Hf.
  { intros m l. revert m. induction l as [|y l IH]; intros m Hm Hl n x; cbn; [apply Hm|]. apply IH; [|intros z Hz; apply Hl; by right].
    intros n' x' [[<- <-]|[_ Hx]]%lookup_insert_Some; [split; [apply Hl; by left|done]|by apply Hm]. }
  refine (Hf ∅ Adapters _ _ name b E); [|done]. intros n x Hx. by apply lookup_empty_Some in Hx.
Qed.

Context (absent : string -> string -> Prop) (norm : Terminal -> string -> string + error) (owner : string -> string -> string + error).
Context (Hout : outside_ok absent norm owner).

(** The terminal that an adapter has under a spelling. *)
Definition terminal_of (a : Terminal) (given : string) : string + error :=
  match t_Normalize a with Some _ => norm a given | None => inl given end.

Lemma leaves_normalize_with a target m : a ∈ Adapters ->
  leaves m (normalize_with a target) (fun r => terminal_of a target = r).
Proof.
  intros Ha. unfold normalize_with, terminal_of. destruct (t_Normalize a) as [n|] eqn:En; [|by apply leaves_ret].
  eapply leaves_mono; [by eapply ok_normalize|]. by intros r ->.
Qed.

(** ** The probes of a pass *)

Definition q_ok (name : string) (q : probe) : Prop :=
  match q with
  | fixedProbeError err => err_text err /\ is_not_found err = false
  | plainProbe a => a ∈ Adapters /\ Name a = name
  | passProbe provider => exists a, a ∈ Adapters /\ Name a = name /\ t_Inventory a = Some provider
  end.

Definition loaded_ok (name : string) (x : TargetInventory + error) : Prop :=
  match x with inl inv => inventory_ok absent owner name inv | inr err => err_text err /\ is_not_found err = false end.

Definition cache_ok (c : inventories) : Prop := forall n x, c !! n = Some x -> loaded_ok n x.

Lemma leaves_load name a provider c m : a ∈ Adapters -> Name a = name -> t_Inventory a = Some provider -> cache_ok c ->
  leaves m (loadInventory name provider c) (fun r => cache_ok r.1 /\ c ⊆ r.1 /\ r.1 !! name = Some r.2).
Proof.
  intros Ha <- Hp Hc. unfold loadInventory. destruct (c !! Name a) as [x|] eqn:Ex; [by apply leaves_ret|].
  eapply leaves_bind; [by eapply ok_inventory|]. intros x Hx. apply leaves_ret. cbn [fst snd]. split_and!.
  - intros n y [[<- <-]|[_ Hy]]%lookup_insert_Some; [|by apply Hc]. destruct x as [[inv|]|err]; done.
  - by apply insert_subseteq.
  - by rewrite lookup_insert_eq.
Qed.

Lemma leaves_probe name q c target m : q_ok name q -> cache_ok c ->
  leaves m (probe_Probe name q c target) (fun r => cache_ok r.1 /\ probe_ok absent name target r.2).
Proof.
  intros Hq Hc. destruct q as [err|a|provider]; cbn [probe_Probe q_ok] in *.
  - apply leaves_ret. split; [done|]. intros err' [= <-]. destruct Hq as [? Hn]. split; [done|congruence].
  - destruct Hq as [Ha <-]. eapply leaves_bind; [by eapply ok_probe|]. intros o Ho. by apply leaves_ret.
  - destruct Hq as (a & Ha & Hn & Hp). eapply leaves_bind; [by eapply leaves_load|]. intros [c' x] (Hc' & _ & Hx). cbn in *.
    pose proof (Hc' _ _ Hx) as Hl. destruct x as [inv|err]; cbn in Hl.
    + eapply leaves_bind; [by apply Hl|]. intros o Ho. by apply leaves_ret.
    + apply leaves_ret. split; [done|]. intros err' [= <-]. destruct Hl as [? Hl]. split; [done|congruence].
Qed.

(** What the pass sees as the owner of a terminal, given the inventories it has loaded in the end. *)
Definition seen_key (c : inventories) (q : probe) (name target : string) : option (string + error) :=
  match q with
  | fixedProbeError _ => None
  | plainProbe a => match t_OwnershipKey a with Some _ => Some (owner name target) | None => None end
  | passProbe _ => match c !! name with Some (inl _) => Some (owner name target) | Some (inr err) => Some (inr err) | None => None end
  end.

Lemma leaves_key name q c target m : q_ok name q -> cache_ok c ->
  match probe_OwnershipKey name q c target with
  | None => forall c', seen_key c' q name target = None
  | Some p => leaves m p (fun r => cache_ok r.1 /\ c ⊆ r.1 /\ good_key r.2 /\ forall c', r.1 ⊆ c' -> seen_key c' q name target = Some r.2)
  end.
Proof.
  intros Hq Hc. destruct q as [err|a|provider]; cbn [probe_OwnershipKey q_ok seen_key] in *; [done| |].
  - destruct Hq as [Ha <-]. destruct (t_OwnershipKey a) as [key|] eqn:Ek; cbn; [|done].
    eapply leaves_bind; [by eapply ok_key|]. intros r [-> Hr]. by apply leaves_ret.
  - destruct Hq as (a & Ha & Hn & Hp). eapply leaves_bind; [by eapply leaves_load|]. intros [c' x] (Hc' & Hsub & Hx). cbn in *.
    pose proof (Hc' _ _ Hx) as Hl. destruct x as [inv|err]; cbn in Hl.
    + eapply leaves_bind; [by apply Hl|]. intros r [-> Hr]. apply leaves_ret. split_and!; [done|done|done|]. intros c2 Hc2. cbn in Hc2.
      by rewrite (lookup_weaken _ _ _ _ Hx Hc2).
    + apply leaves_ret. split_and!; [done|done|apply Hl|]. intros c2 Hc2. cbn in Hc2. by rewrite (lookup_weaken _ _ _ _ Hx Hc2).
Qed.

Definition probe_named (name : string) : probe :=
  match Get adapterRegistry name with inl a => newPassProbe a | inr err => fixedProbeError err end.

Lemma add_probe_lookup probes x : add_probe adapterRegistry probes x = match probes !! Adapter x with Some _ => probes | None => <[Adapter x := probe_named (Adapter x)]> probes end.
Proof. unfold add_probe, probe_named. by destruct (probes !! Adapter x), (Get adapterRegistry (Adapter x)). Qed.

Lemma add_probes_lookup l probes n : (forall n q, probes !! n = Some q -> q = probe_named n) -> is_Some (probes !! n) \/ n ∈ Adapter <$> l ->
  foldl (add_probe adapterRegistry) probes l !! n = Some (probe_named n).
Proof.
  revert probes. induction l as [|x l IH]; intros probes Hp Hn; cbn [foldl].
  { destruct Hn as [[q Hq]|Hn]; [|by apply elem_of_nil in Hn]. by rewrite (Hp _ _ Hq) in Hq. }
  apply IH; rewrite add_probe_lookup; destruct (probes !! Adapter x) as [q|] eqn:E; [done| | |].
  - intros n' q [[<- <-]|[_ Hq]]%lookup_insert_Some; [done|by apply Hp].
  - destruct Hn as [Hn|[->|Hn]%elem_of_cons]; [by left|left; by rewrite E|by right].
  - destruct Hn as [Hn|[->|Hn]%elem_of_cons]; [left; apply lookup_insert_is_Some'; by right|left; by rewrite lookup_insert_eq|by right].
Qed.

Lemma passProbes_lookup l x : x ∈ l -> passProbes l adapterRegistry !! Adapter x = Some (probe_named (Adapter x)).
Proof.
  intros Hx. apply add_probes_lookup; [|right; by apply list_elem_of_fmap_2]. intros n q Hq. by apply lookup_empty_Some in Hq.
Qed.

Lemma passProbes_elem l n q : passProbes l adapterRegistry !! n = Some q -> q = probe_named n.
Proof.
  assert (forall probes, (forall n q, probes !! n = Some q -> q = probe_named n) -> foldl (add_probe adapterRegistry) probes l !! n = Some q -> q = probe_named n) as Hgo.
  { induction l as [|x l IH]; intros probes Hp; cbn [foldl]; [apply Hp|]. apply IH. intros n' q'. rewrite add_probe_lookup.
    destruct (probes !! Adapter x); [apply Hp|]. intros [[<- <-]|[_ Hq]]%lookup_insert_Some; [done|by apply Hp]. }
  apply (Hgo ∅). intros n' q' Hq. by apply lookup_empty_Some in Hq.
Qed.

Lemma probe_named_ok n : q_ok n (probe_named n).
Proof.
  unfold probe_named. destruct (Get adapterRegistry n) as [a|err] eqn:Eg.
  - apply Get_spec in Eg as [Ha Hn]. unfold newPassProbe. destruct (t_Inventory a) eqn:Ei; [by exists a|done].
  - unfold Get in Eg. destruct (adapterRegistry !! n); [done|]. injection Eg as <-. split; [|done]. apply utf8_app; [done|by eapply ok_quote].
Qed.

Lemma passProbes_ok l n q : passProbes l adapterRegistry !! n = Some q -> q_ok n q.
Proof. intros ->%passProbes_elem. apply probe_named_ok. Qed.

(** ** Entries at the same terminal *)

Definition members (g : groups) (key : string * string) : list Entry := default [] (g !! key).

Lemma members_add key x g key' z : z ∈ members (add_to_group key x g) key' <-> z ∈ members g key' \/ (key' = key /\ z = x).
Proof.
  unfold members, add_to_group. destruct (decide (key' = key)) as [->|Hne].
  - rewrite lookup_insert_eq. cbn. rewrite elem_of_app, list_elem_of_singleton. naive_solver.
  - rewrite lookup_insert_ne by done. naive_solver.
Qed.

Definition errors_ok (c : gmap string error) : Prop := forall i err, c !! i = Some err -> err_text err /\ is_not_found err = false.

Lemma errors_ok_insert c i err : errors_ok c -> err_text err -> is_not_found err = false -> errors_ok (<[i := err]> c).
Proof. intros Hc H1' H2' j x [[<- <-]|[_ Hx]]%lookup_insert_Some; [done|by apply (Hc j)]. Qed.

Lemma mark_all err owners c : err_text err -> is_not_found err = false -> errors_ok c ->
  let c' := foldl (fun acc owner => <[ID owner := err]> acc) c owners in
  errors_ok c' /\ (forall i, is_Some (c !! i) -> is_Some (c' !! i)) /\ (forall x, x ∈ owners -> is_Some (c' !! ID x)).
Proof.
  intros H1' H2'. revert c. induction owners as [|o owners IH]; intros c Hc; cbn [foldl].
  { split_and!; [done|done|]. intros x Hx. by apply elem_of_nil in Hx. }
  destruct (IH (<[ID o := err]> c)) as (Ha & Hb & Hd); [by apply errors_ok_insert|].
  assert (forall i, is_Some (c !! i) -> is_Some (<[ID o := err]> c !! i)) as Hi by (intros i Hi; apply lookup_insert_is_Some'; by right).
  split_and!; [done|auto|]. intros x [->|Hx]%elem_of_cons; [apply Hb; by rewrite lookup_insert_eq|auto].
Qed.

(** Whoever shares a group with another entry is in conflict. *)
Lemma collisions_spec text g conf : (forall key owners, g !! key = Some owners -> utf8_valid (text key owners) = true) -> errors_ok conf ->
  let c := collisions text g conf in
  errors_ok c /\ (forall i, is_Some (conf !! i) -> is_Some (c !! i)) /\
  (forall key x y, x ∈ members g key -> y ∈ members g key -> x <> y -> is_Some (c !! ID x)).
Proof.
  unfold collisions. intros Htext Hconf. revert Htext. refine (map_fold_weak_ind (fun c g => (forall key owners, g !! key = Some owners -> utf8_valid (text key owners) = true) ->
    errors_ok c /\ (forall i, is_Some (conf !! i) -> is_Some (c !! i)) /\
    (forall key x y, x ∈ members g key -> y ∈ members g key -> x <> y -> is_Some (c !! ID x))) _ conf _ _ g).
  { intros _. split_and!; [done|done|]. intros key x y Hx. unfold members in Hx. rewrite lookup_empty in Hx. by apply elem_of_nil in Hx. }
  clear g. intros key owners g c Hnone IH Htext.
  destruct IH as (Ha & Hb & Hc).
  { intros k o Hk. apply Htext. rewrite lookup_insert_ne; [done|]. intros ->. congruence. }
  assert (forall c', errors_ok c' -> (forall i, is_Some (c !! i) -> is_Some (c' !! i)) ->
    (forall x y, x ∈ owners -> y ∈ owners -> x <> y -> is_Some (c' !! ID x)) ->
    errors_ok c' /\ (forall i, is_Some (conf !! i) -> is_Some (c' !! i)) /\
    (forall key' x y, x ∈ members (<[key := owners]> g) key' -> y ∈ members (<[key := owners]> g) key' -> x <> y -> is_Some (c' !! ID x))) as Hgo.
  { intros c' Hok Hk Ho. split_and!; [done|auto|]. intros key' x y Hx Hy Hne. unfold members in Hx, Hy.
    destruct (decide (key' = key)) as [->|Hkey]; [rewrite lookup_insert_eq in Hx, Hy; exact (Ho x y Hx Hy Hne)|].
    rewrite lookup_insert_ne in Hx, Hy by done. apply Hk. exact (Hc key' x y Hx Hy Hne). }
  destruct (Nat.ltb_spec (length owners) 2) as [Hl|Hl].
  - apply Hgo; [done|done|]. intros x y Hx Hy Hne. exfalso. destruct owners as [|a [|b o]]; cbn in Hl; [by apply elem_of_nil in Hx| |lia].
    apply list_elem_of_singleton in Hx, Hy. congruence.
  - destruct (mark_all (plain_error (text key owners)) owners c) as (H1' & H2' & H3'); [|done|done|].
    { apply Htext. by rewrite lookup_insert_eq. }
    apply Hgo; [done|done|]. intros x y Hx _ _. by apply H3'.
Qed.

(** The adapter and the normal form of a target; [None] when it has none. *)
Definition target_key (x : Entry) : option (string * string) :=
  match Get adapterRegistry (Adapter x) with
  | inr _ => None
  | inl a =>
    match terminal_of a (TrimSpace (Target x)) with
    | inr _ => None
    | inl target => Some (Name a, target)
    end
  end.

Lemma leaves_target_groups l g m : leaves m (target_groups l adapterRegistry g)
  (fun g' => forall key z, z ∈ members g' key <-> z ∈ members g key \/ (z ∈ l /\ target_key z = Some key)).
Proof.
  revert g. induction l as [|x l IH]; intros g; cbn [target_groups].
  { apply leaves_ret. intros key z. rewrite elem_of_nil. tauto. }
  assert (forall g', (forall key z, z ∈ members g' key <-> z ∈ members g key \/ (z = x /\ target_key x = Some key)) ->
    leaves m (target_groups l adapterRegistry g') (fun g' => forall key z, z ∈ members g' key <-> z ∈ members g key \/ (z ∈ x :: l /\ target_key z = Some key))) as Hgo.
  { intros g' Hg'. eapply leaves_mono; [apply IH|]. cbn. intros g2 Hg2 key z. rewrite Hg2, Hg', elem_of_cons.
    split; [intros [[?|[-> ?]]|[? ?]]|intros [?|[[->|?] ?]]]; auto. }
  destruct (Get adapterRegistry (Adapter x)) as [a|err] eqn:Eg.
  2: { apply Hgo. intros key z. unfold target_key. rewrite Eg. split; [auto|by intros [?|[_ ?]]]. }
  apply Get_spec in Eg as Ha. destruct Ha as [Ha _]. cbv zeta.
  eapply leaves_bind; [exact (leaves_normalize_with a (TrimSpace (Target x)) m Ha)|]. cbn. intros r Hr.
  assert (target_key x = match r with inl target => Some (Name a, target) | inr _ => None end) as Ek.
  { unfold target_key. by rewrite Eg, Hr. }
  destruct r as [target|err]; apply Hgo; intros key z; rewrite Ek; [|split; [auto|by intros [?|[_ ?]]]].
  rewrite members_add. split; [intros [?|[-> ->]]; auto|intros [?|[-> [= <-]]]; auto].
Qed.

Lemma Join_text sep l : utf8_valid sep = true -> Forall (fun s => utf8_valid s = true) l -> utf8_valid (Join_with sep l) = true.
Proof.
  intros Hsep Hl. induction Hl as [|x l Hx Hl IH]; [done|]. destruct l as [|y l]; [done|].
  change (Join_with sep (x :: y :: l)) with (x +:+ sep +:+ Join_with sep (y :: l)). auto using utf8_app.
Qed.

Lemma owners_text label (owners : list Entry) : (forall x, entry_text x -> utf8_valid (label x) = true) -> Forall entry_text owners ->
  utf8_valid (Join_with ", " (label <$> owners)) = true.
Proof.
  intros Hlab Ho. apply Join_text; [done|]. apply Forall_fmap. eapply Forall_impl; [exact Ho|]. intros x Hx. by apply Hlab.
Qed.

Lemma target_text_ok key owners : Forall entry_text owners -> utf8_valid (target_text key owners) = true.
Proof.
  intros Ho. pose proof (ok_quote _ _ _ Hout) as Hq. unfold target_text. repeat apply utf8_app; try done.
  apply owners_text; [|done]. intros x []. by repeat apply utf8_app.
Qed.

Lemma physical_text_ok key owners : Forall entry_text owners -> utf8_valid (physical_text key owners) = true.
Proof.
  intros Ho. pose proof (ok_quote _ _ _ Hout) as Hq. unfold physical_text. repeat apply utf8_app; try done.
  apply owners_text; [|done]. intros x []. by repeat apply utf8_app.
Qed.

Lemma leaves_target_conflicts l m : Forall entry_text l -> leaves m (targetOwnershipConflicts l adapterRegistry)
  (fun c => errors_ok c /\ forall x y key, x ∈ l -> y ∈ l -> x <> y -> target_key x = Some key -> target_key y = Some key -> is_Some (c !! ID x)).
Proof.
  intros Hl. unfold targetOwnershipConflicts. eapply leaves_bind; [apply leaves_target_groups|]. cbn. intros g Hg. apply leaves_ret.
  assert (forall key z, z ∈ members g key <-> z ∈ l /\ target_key z = Some key) as Hg'.
  { intros key z. rewrite Hg. unfold members. rewrite lookup_empty. cbn. rewrite elem_of_nil. tauto. }
  destruct (collisions_spec target_text g ∅) as (Ha & _ & Hc).
  - intros key owners Hk. apply target_text_ok, Forall_forall. intros z Hz. eapply Forall_forall; [exact Hl|].
    apply (Hg' key z). unfold members. by rewrite Hk.
  - intros i err Hi. by apply lookup_empty_Some in Hi.
  - split; [done|]. intros x y key Hx Hy Hne Ex Ey. eapply (Hc key x y); [by apply Hg'|by apply Hg'|done].
Qed.

(** ** Physical owners *)

Section physical.
Context (probes : gmap string probe) (Hprobes : forall n q, probes !! n = Some q -> q_ok n q).

Definition entry_seen (c : inventories) (x : Entry) : option (string + error) :=
  q ← probes !! Adapter x; seen_key c q (Adapter x) (Target x).

Definition physical_key (c : inventories) (x : Entry) : option (string * string) :=
  match entry_seen c x with Some (inl key) => Some (Adapter x, key) | _ => None end.

Record physical_post (l : list Entry) (c : inventories) (g : groups) (conf : gmap string error) (r : inventories * groups * gmap string error) : Prop := {
  pp_cache : cache_ok r.1.1;
  pp_more : c ⊆ r.1.1;
  pp_errors : errors_ok r.2;
  pp_kept : forall i, is_Some (conf !! i) -> is_Some (r.2 !! i);
  pp_groups key z : z ∈ members r.1.2 key <-> z ∈ members g key \/ (z ∈ l /\ physical_key r.1.1 z = Some key);
  pp_failed z err : z ∈ l -> entry_seen r.1.1 z = Some (inr err) -> is_not_found err = false -> is_Some (r.2 !! ID z);
  pp_loaded z provider : z ∈ l -> probes !! Adapter z = Some (passProbe provider) -> is_Some (r.1.1 !! Adapter z);
}.

(** One entry was looked at, and then the others. *)
Lemma physical_post_cons x l c c1 g g1 conf conf1 r : physical_post l c1 g1 conf1 r -> c ⊆ c1 -> (forall i, is_Some (conf !! i) -> is_Some (conf1 !! i)) ->
  (forall key z, z ∈ members g1 key <-> z ∈ members g key \/ (z = x /\ physical_key r.1.1 x = Some key)) ->
  (forall err, entry_seen r.1.1 x = Some (inr err) -> is_not_found err = false -> is_Some (conf1 !! ID x)) ->
  (forall provider, probes !! Adapter x = Some (passProbe provider) -> is_Some (r.1.1 !! Adapter x)) ->
  physical_post (x :: l) c g conf r.
Proof.
  intros [Ha Hb Hc Hd He Hf Hh] Hsub Hconf Hg Hx Hxl. split; [done|by etrans|done|auto| | |].
  - intros key z. rewrite He, Hg, elem_of_cons. split; [intros [[?|[-> ?]]|[? ?]]|intros [?|[[->|?] ?]]]; auto.
  - intros z err [->|Hz]%elem_of_cons Ez Hn; [apply Hd; by eapply Hx|by eapply Hf].
  - intros z provider [->|Hz]%elem_of_cons Ez; eauto.
Qed.

Lemma leaves_physical_groups l c g conf m : Forall entry_text l -> cache_ok c -> errors_ok conf ->
  leaves m (physical_groups l probes c g conf) (physical_post l c g conf).
Proof.
  revert c g conf. induction l as [|x l IH]; intros c g conf Hl Hc Hconf; cbn [physical_groups].
  { apply leaves_ret. split; cbn; [done|done|done|done| | |]; intros key z; rewrite elem_of_nil; tauto. }
  inv Hl as [|? ? Hx Hl']. destruct (probes !! Adapter x) as [q|] eqn:Eq; cbn [mbind option_bind].
  2: { eapply leaves_mono; [by apply IH|]. intros r Hr. eapply physical_post_cons; [exact Hr|done|done| | |].
       - intros key z. unfold physical_key, entry_seen. rewrite Eq. cbn. split; [auto|by intros [?|[_ ?]]].
       - unfold entry_seen. by rewrite Eq.
       - by rewrite Eq. }
  assert (forall c', entry_seen c' x = seen_key c' q (Adapter x) (Target x)) as Es by (intros c'; unfold entry_seen; by rewrite Eq).
  pose proof (leaves_key (Adapter x) q c (Target x) m (Hprobes _ _ Eq) Hc) as Hk.
  destruct (probe_OwnershipKey (Adapter x) q c (Target x)) as [lookup|].
  2: { eapply leaves_mono; [by apply IH|]. intros r Hr. eapply physical_post_cons; [exact Hr|done|done| | |].
       - intros key z. unfold physical_key. rewrite Es, Hk. split; [auto|by intros [?|[_ ?]]].
       - intros err. by rewrite Es, Hk.
       - intros provider. rewrite Eq. intros [= ->]. specialize (Hk {[Adapter x := inr (plain_error "")]}). cbn in Hk.
         by rewrite lookup_singleton_eq in Hk. }
  assert (forall c' r, entry_seen c' x = Some r -> forall provider, probes !! Adapter x = Some (passProbe provider) -> is_Some (c' !! Adapter x)) as Hload.
  { intros c' r. rewrite Es, Eq. intros Hr provider [= ->]. cbn in Hr. by destruct (c' !! Adapter x). }
  eapply leaves_bind; [exact Hk|]. intros [c1 y] (Hc1 & Hsub & Hy & Hseen). cbn [fst snd] in *. destruct y as [key|err].
  - eapply leaves_mono; [by apply IH|]. intros r Hr. assert (entry_seen r.1.1 x = Some (inl key)) as Ex by (rewrite Es; apply Hseen, Hr).
    eapply physical_post_cons; [exact Hr|done|done| |by rewrite Ex|by eapply Hload].
    intros key' z. unfold physical_key. rewrite Ex, members_add. split; [intros [?|[-> ->]]; auto|intros [?|[-> [= <-]]]; auto].
  - assert (forall r : inventories * groups * gmap string error, c1 ⊆ r.1.1 -> forall g : groups, forall key z, z ∈ members g key <-> z ∈ members g key \/ (z = x /\ physical_key r.1.1 x = Some key)) as Hg.
    { intros r Hr g0 key z. unfold physical_key. rewrite Es, (Hseen _ Hr). split; [auto|by intros [?|[_ ?]]]. }
    destruct (is_not_found err) eqn:En.
    + eapply leaves_mono; [by apply IH|]. intros r Hr. eapply physical_post_cons; [exact Hr|done|done|apply (Hg r), Hr| |eapply (Hload _ (inr err)); rewrite Es; apply Hseen, Hr].
      intros err'. rewrite Es, (Hseen _ (pp_more _ _ _ _ _ Hr)). intros [= <-]. congruence.
    + eapply leaves_mono; [apply IH; [done|done|]|].
      { apply errors_ok_insert; [done| |done]. pose proof (ok_quote _ _ _ Hout) as Hq. unfold err_text, wrapped. cbn. repeat apply utf8_app; try done. }
      intros r Hr. eapply physical_post_cons; [exact Hr|done| |apply (Hg r), Hr| |eapply (Hload _ (inr err)); rewrite Es; apply Hseen, Hr].
      * intros i Hi. apply lookup_insert_is_Some'. by right.
      * intros err' _ _. by rewrite lookup_insert_eq.
Qed.

Lemma leaves_physical_conflicts l m : Forall entry_text l -> leaves m (physicalOwnershipConflicts l probes ∅)
  (fun r => cache_ok r.1 /\ errors_ok r.2 /\
    (forall x y key, x ∈ l -> y ∈ l -> x <> y -> physical_key r.1 x = Some key -> physical_key r.1 y = Some key -> is_Some (r.2 !! ID x)) /\
    (forall x err, x ∈ l -> entry_seen r.1 x = Some (inr err) -> is_not_found err = false -> is_Some (r.2 !! ID x)) /\
    forall x provider, x ∈ l -> probes !! Adapter x = Some (passProbe provider) -> is_Some (r.1 !! Adapter x)).
Proof.
  intros Hl. unfold physicalOwnershipConflicts. eapply leaves_bind; [apply leaves_physical_groups; [done| |]|].
  - intros n x Hx. by apply lookup_empty_Some in Hx.
  - intros n x Hx. by apply lookup_empty_Some in Hx.
  - intros [[c g] conf] [Hc _ He _ Hg Hf Hh]. cbn [fst snd] in *. apply leaves_ret. cbn.
    assert (forall key z, z ∈ members g key <-> z ∈ l /\ physical_key c z = Some key) as Hg'.
    { intros key z. rewrite Hg. unfold members. rewrite lookup_empty. cbn. rewrite elem_of_nil. tauto. }
    destruct (collisions_spec physical_text g conf) as (Ha & Hb & Hd); [|done|].
    { intros key owners Hk. apply physical_text_ok, Forall_forall. intros z Hz. eapply Forall_forall; [exact Hl|].
      apply (Hg' key z). unfold members. by rewrite Hk. }
    split_and!; [done|done| | |done].
    + intros x y key Hx Hy Hne Ex Ey. eapply (Hd key x y); [by apply Hg'|by apply Hg'|done].
    + intros x err Hx Ex Hn. apply Hb. by eapply Hf.
Qed.
End physical.

End laws.
