(* ===== verification/KeepalivePass.v ===== *)
(** A pass of the supervisor over the registry. *)
From S2P Require Import Prelude GoStr GoSort GoTrim GoTime GoPath GoErr GoFile Fs Wp FsFacts DeliveryRootFacts Encode Json JsonFacts JsonUtf8 JsonStruct Registry RegistryJson RegistryMachine RegistryFacts RegistryStore Supervisor Keepalive KeepaliveFacts.
From S2P Require Bridge Retry.

(** ** Reconciling *)

(** What the supervisor may make of an entry: what [Reconcile] may, and the owner of its terminal. *)
Definition supervised (self : string) (timeout : Z) (x x' : Entry) : Prop :=
  exists probed n now y res, outcome (settings self timeout probed n) now x (y, res) /\ (x' = y \/ exists key, x' = set_key key y).

Lemma outcome_identity r now x y res : outcome r now x (y, res) -> sameEntryIdentity x y = true /\ ID y = ID x.
Proof. inversion 1; subst; (split; [|done]); match goal with |- sameEntryIdentity ?a _ = true => exact (identity_refl a) end. Qed.

Lemma supervised_identity self timeout x x' : supervised self timeout x x' -> sameEntryIdentity x x' = true.
Proof. intros (probed & n & now & y & res & Ho & [->|[key ->]]); apply outcome_identity in Ho as [Ho _]; exact Ho. Qed.

Lemma wrap_range z : int64_range (int64_wrap z) = true.
Proof.
  unfold int64_range, int64_wrap. apply andb_true_iff. split; [apply Z.leb_le|apply Z.ltb_lt];
    pose proof (Z.mod_pos_bound (z + 2 ^ 63) (2 ^ 64)); lia.
Qed.

Lemma assign_text v x : entry_text x -> utf8_valid (v_State v) = true -> utf8_valid (v_Error v) = true -> utf8_valid (v_Decision v) = true ->
  int64_range (v_Failures v) = true -> entry_text (assign v x).
Proof. intros [] ? ? ? ?. by split. Qed.

Lemma seen_text now x : entry_text x -> entry_text (set_seen now x).
Proof. intros Hx. pose proof Hx as []. by apply assign_text. Qed.

Lemma backoff_text r x now err action touched : entry_text x -> err_text err -> utf8_valid action = true ->
  entry_text (markBackoff r x now err action touched).1.
Proof. intros Hx He Ha. apply assign_text; [done|done|exact He|exact Ha|apply wrap_range]. Qed.

Lemma detached_text r x now err : entry_text x -> err_text err -> entry_text (markDetached r x now err).1.
Proof. intros Hx He. apply assign_text; [done|done|exact He|done|apply wrap_range]. Qed.

Definition due (now : Z) (x : Entry) : bool := negb (before now (NextHealthCheck x)) && negb (before now (BackoffUntil x)).

Lemma readiness_cases self timeout probed n over x now :
  let r := settings self timeout probed n in
  due now x = true -> entry_text x -> (forall err, probed = Some err -> err_text err) ->
  match checkLocalReadiness r (MkContext None over None) x now with
  | (y, inl res) => outcome r now x (y, res) /\ entry_text y
  | (_, inr _) => probed = None
  end.
Proof.
  intros r Hd Hx Hp. unfold due in Hd. apply andb_true_iff in Hd as [H1%negb_true_iff H2%negb_true_iff].
  unfold checkLocalReadiness. cbn [ctx_start]. rewrite H1, H2. cbn [Probe r settings ctx_probed Wake].
  destruct probed as [err|]; [|done]. specialize (Hp err eq_refl). destruct over as [ctxErr|].
  { split; [apply outcome_deferred_seen|by apply seen_text]. }
  destruct (is_not_found err) eqn:En.
  { destruct (markDetached _ _ _ _) as [y res] eqn:E. split; [rewrite <-E; apply outcome_detached|]. change y with (y, res).1. rewrite <-E.
    by apply detached_text; [apply seen_text|]. }
  destruct (is_degraded err); [split; [apply outcome_deferred|done]|].
  destruct (markBackoff _ _ _ _ _ _) as [y res] eqn:E. split; [rewrite <-E; by apply outcome_backoff|]. change y with (y, res).1. rewrite <-E.
  by apply backoff_text; [apply seen_text| |].
Qed.

Lemma ensure_cases r started over x now : entry_text x -> (forall err, started = Some err -> err_text err) ->
  outcome r now x (ensureWake r (fun _ => started) (MkContext None None over) x now) /\
  entry_text (ensureWake r (fun _ => started) (MkContext None None over) x now).1.
Proof.
  intros Hx Hs. unfold ensureWake. cbn [ctx_started]. destruct started as [err|].
  - specialize (Hs err eq_refl). destruct over as [c|].
    + by split; [apply outcome_deferred|].
    + split; [apply outcome_start_failed|]. by apply backoff_text.
  - split; [apply outcome_active|]. by apply assign_text.
Qed.

Section reconcile.
Context (e : env) `{Machine} `{Bridge.Crypto} `{SortSlice} `{Outside} (dir : path) (f : string).
Context (absent : string -> string -> Prop) (norm : Terminal -> string -> string + error) (owner : string -> string -> string + error).
Context (Hout : outside_ok e dir f absent norm owner).

#[local] Abbreviation leaves := (leaves e dir f).
#[local] Abbreviation inventories := (gmap string (TargetInventory + error)).

Lemma leaves_clock m : leaves m (sys SNow) (fun now => exists n, now = e_clock e n).
Proof. intros I w Hm HI. apply wpi_sys; [by apply HI|]. wret. split; [done|]. by exists (tick w). Qed.

(** Reconciling an entry: [go] is what a successful probe says, and the wake is asked for only then
    and when the entry is due. *)
Lemma leaves_reconcile {C} (OK : C -> Prop) (go : Prop) self timeout (c : C) probe x m :
  OK c -> entry_text x ->
  (forall c target, OK c -> leaves m (probe c target) (fun r => OK r.1 /\ (forall err, r.2 = Some err -> err_text err) /\ (r.2 = None -> go))) ->
  (forall n, go -> due (e_clock e n) x = true -> leaves m (StartWake (wake_request self timeout x)) (fun o => forall err, o = Some err -> err_text err)) ->
  leaves m (Reconcile_in self timeout c probe x)
    (fun r => OK r.1 /\ (exists probed n now, outcome (settings self timeout probed n) now x r.2) /\ entry_text r.2.1).
Proof.
  intros Hc Hx Hprobe Hstart. unfold Reconcile_in. eapply leaves_bind; [apply leaves_clock|]. intros now [k ->]. set (now := e_clock e k).
  eapply leaves_bind; [by eapply ok_ctx|]. intros cancelled _. eapply leaves_bind; [apply leaves_ro; ro_tac|]. intros n _.
  destruct (bool_decide (is_Some cancelled) || before now (NextHealthCheck x) || before now (BackoffUntil x)) eqn:Ed.
  { apply leaves_ret. split; [done|]. cbn [fst snd]. split; [eexists _, _, _; apply Reconcile_outcome|].
    unfold Reconcile, checkLocalReadiness. cbn [ctx_start]. destruct cancelled; [done|]. rewrite bool_decide_eq_false_2 in Ed by (by intros []).
    cbn in Ed. destruct (before now (NextHealthCheck x)); [done|]. cbn in Ed. by rewrite Ed. }
  apply orb_false_iff in Ed as [[_ E1]%orb_false_iff E2].
  assert (due now x = true) as Hdue by (unfold due; by rewrite E1, E2).
  eapply leaves_bind; [by apply Hprobe|]. intros [c' probed] (Hc' & Hp & Hgo). cbn [fst snd] in *.
  eapply (leaves_bind _ _ _ _ _ _ (fun _ => True)); [destruct probed; [by eapply leaves_mono; [eapply ok_ctx|]|by apply leaves_ret]|]. intros over _.
  pose proof (readiness_cases self timeout probed n over x now Hdue Hx Hp) as Hr.
  destruct (checkLocalReadiness _ _ _ _) as [y [res|[]]].
  { apply leaves_ret. destruct Hr as [Hr Hy]. split; [done|]. split; [by eexists _, _, _|done]. }
  subst probed. eapply leaves_bind; [apply (Hstart k); [auto|done]|]. intros started Hs.
  eapply (leaves_bind _ _ _ _ _ _ (fun _ => True)); [destruct started; [by eapply leaves_mono; [eapply ok_ctx|]|by apply leaves_ret]|]. intros over' _.
  apply leaves_ret. destruct (ensure_cases (settings self timeout None n) started over' x now Hx Hs) as [Ho Ht].
  split; [done|]. split; [by eexists _, _, _|done].
Qed.

(** ** Terminals of one's own *)

(** The adapter knows the physical owners of its terminals. *)
Definition knows_owners (name : string) : Prop :=
  exists a, Get adapterRegistry name = inl a /\ (is_Some (t_Inventory a) \/ is_Some (t_OwnershipKey a)).

(** No other entry has the same target, by its normal form or by the physical owner. *)
Definition sole (m : registry) (x : Entry) : Prop :=
  forall i y, m !! i = Some y -> i <> ID x ->
    (forall key, target_key norm x = Some key -> target_key norm y <> Some key) /\
    (knows_owners (Adapter x) -> Adapter y = Adapter x ->
      forall key, owner (Adapter x) (Target x) = inl key -> owner (Adapter y) (Target y) <> inl key).

(** A wake for an entry of the registry that has its terminal for itself. *)
Definition own_terminal (self : string) (timeout : Z) (m : registry) (rq : StartWakeRequest) : Prop :=
  exists x, m !! ID x = Some x /\ rq = wake_request self timeout x /\ sole m x.

(** The physical conflicts of a pass. *)
Lemma own_owner (l : list Entry) (c : inventories) (physical : gmap string error) x y :
  let probes := passProbes l adapterRegistry in
  cache_ok e dir f absent owner c ->
  (forall x y key, x ∈ l -> y ∈ l -> x <> y -> physical_key owner probes c x = Some key -> physical_key owner probes c y = Some key -> is_Some (physical !! ID x)) ->
  (forall x err, x ∈ l -> entry_seen owner probes c x = Some (inr err) -> is_not_found err = false -> is_Some (physical !! ID x)) ->
  (forall x provider, x ∈ l -> probes !! Adapter x = Some (passProbe provider) -> is_Some (c !! Adapter x)) ->
  x ∈ l -> y ∈ l -> x <> y -> physical !! ID x = None -> knows_owners (Adapter x) -> Adapter y = Adapter x ->
  forall key, owner (Adapter x) (Target x) = inl key -> owner (Adapter y) (Target y) <> inl key.
Proof.
  intros probes Hc Hshared Hfailed Hload Hx Hy Hne Hnone (a & Ha & Hown) Ead key Ex Ey.
  assert (probes !! Adapter x = Some (newPassProbe a)) as Hq.
  { unfold probes. rewrite passProbes_lookup by done. unfold probe_named. by rewrite Ha. }
  assert (entry_seen owner probes c x = Some (inl key) /\ entry_seen owner probes c y = Some (inl key)) as [Sx Sy].
  { rewrite Ead in Ey. unfold entry_seen. rewrite !Ead, Hq. cbn [mbind option_bind]. unfold newPassProbe. destruct (t_Inventory a) as [provider|] eqn:Ei; cbn.
    - destruct (Hload x provider Hx) as [r Hr]; [rewrite Hq; unfold newPassProbe; by rewrite Ei|]. destruct r as [inv|err].
      + by rewrite Hr, Ex, Ey.
      + exfalso. destruct (Hfailed x err Hx) as [z Hz]; [|apply (Hc _ _ Hr)|congruence].
        unfold entry_seen. rewrite Hq. unfold newPassProbe. rewrite Ei. cbn. by rewrite Hr.
    - destruct (t_OwnershipKey a) eqn:Ek; [|by destruct Hown as [[? ?]|[? ?]]]. cbn. by rewrite Ex, Ey. }
  destruct (Hshared x y (Adapter x, key) Hx Hy Hne) as [z Hz]; unfold physical_key; [by rewrite Sx|by rewrite Sy, Ead|congruence].
Qed.

(** ** The entries of a pass *)

Lemma set_key_text key x : entry_text x -> utf8_valid key = true -> entry_text (set_key key x).
Proof. intros [] ?. by split. Qed.

Lemma leaves_lookup_key name q c target m : q_ok name q -> cache_ok e dir f absent owner c ->
  leaves m (lookupOwnershipKey name q c target) (fun r => cache_ok e dir f absent owner r.1 /\ utf8_valid r.2 = true).
Proof.
  intros Hq Hc. unfold lookupOwnershipKey. pose proof (leaves_key e dir f absent norm owner Hout name q c target m Hq Hc) as Hk.
  destruct (probe_OwnershipKey name q c target) as [lookup|]; [|by apply leaves_ret].
  eapply leaves_bind; [exact Hk|]. intros [c' r] (Hc' & _ & Hr & _). cbn in *. apply leaves_ret. split; [done|]. cbn.
  destruct r as [key|err]; [|done]. destruct Hr as [Hr ->]. done.
Qed.

Section entries.
Context (self : string) (timeout : Z) (l : list Entry) (conflicts : gmap string error) (m : registry).
Hypothesis l_text : Forall entry_text l.
Hypothesis conflicts_ok : errors_ok conflicts.
Hypothesis may_start : forall x n, x ∈ l -> conflicts !! ID x = None -> due (e_clock e n) x = true ->
  leaves m (StartWake (wake_request self timeout x)) (fun o => forall err, o = Some err -> err_text err).

#[local] Abbreviation probes := (passProbes l adapterRegistry).
#[local] Abbreviation cache_ok := (cache_ok e dir f absent owner).

Lemma probe_for_ok x : x ∈ l -> q_ok (Adapter x) (probe_for probes conflicts x).
Proof.
  intros Hx. unfold probe_for. destruct (conflicts !! ID x) as [err|] eqn:E; [by apply (conflicts_ok (ID x))|].
  rewrite passProbes_lookup by done. by eapply probe_named_ok.
Qed.

Lemma leaves_supervise_entry c x : x ∈ l -> cache_ok c ->
  leaves m (supervise_entry self timeout probes conflicts c x)
    (fun r => cache_ok r.1 /\ supervised self timeout x r.2.1 /\ entry_text r.2.1).
Proof.
  intros Hx Hc. pose proof (probe_for_ok x Hx) as Hq. assert (entry_text x) as Ht by (by eapply Forall_forall in l_text).
  unfold supervise_entry. cbv zeta. set (q := probe_for probes conflicts x) in *.
  eapply leaves_bind.
  - apply (leaves_reconcile cache_ok (conflicts !! ID x = None)); [done|done| |].
    + intros c1 target Hc1. pose proof (leaves_probe e dir f absent norm owner Hout (Adapter x) q c1 target m Hq Hc1) as Hp.
      destruct (conflicts !! ID x) as [err|] eqn:Ec.
      * unfold q, probe_for. rewrite Ec. cbn [probe_Probe]. apply leaves_ret. split; [done|]. split; [|done].
        intros err' [= <-]. by apply (conflicts_ok (ID x)).
      * eapply leaves_mono; [exact Hp|]. intros r [Hr Hpo]. split; [done|]. split; [|done]. intros err Herr. by apply (Hpo err).
    + intros n Hgo Hdue. by apply (may_start x n).
  - intros [c' [updated result]] (Hc' & (probed & n & now & Ho) & Hu). cbn [fst snd] in *.
    destruct (bool_decide (Action result = ActionEnsured) || bool_decide (Action result = ActionStartFailed)).
    + eapply leaves_bind; [by apply leaves_lookup_key|]. intros [c2 key] [Hc2 Hkey]. cbn [fst snd] in *. apply leaves_ret. cbn [fst snd].
      split; [done|]. case_bool_decide; [split; [by exists probed, n, now, updated, result; auto|done]|].
      split; [exists probed, n, now, updated, result; split; [done|right; by exists key]|by apply set_key_text].
    + apply leaves_ret. split; [done|]. split; [|done]. exists probed, n, now, updated, result. auto.
Qed.

Definition update_ok (u : EntryUpdate) : Prop := supervised self timeout (Before u) (After u) /\ entry_text (After u).

Lemma leaves_supervise_entries c l' : (forall x, x ∈ l' -> x ∈ l) -> cache_ok c ->
  leaves m (supervise_entries self timeout probes conflicts c l') (fun r => Forall update_ok r.2).
Proof.
  revert c. induction l' as [|x l' IH]; intros c Hl Hc; cbn [supervise_entries]; [by apply leaves_ret|].
  assert (forall x, x ∈ l' -> x ∈ l) as Hl' by (intros z Hz; apply Hl; by right).
  eapply leaves_bind; [by eapply ok_ctx|]. intros [err|] _.
  - eapply leaves_bind; [by apply IH|]. intros [results updates] Hu. by apply leaves_ret.
  - eapply leaves_bind; [apply leaves_supervise_entry; [apply Hl; by left|done]|]. intros [c' [updated result]] (Hc' & Hs & Ht). cbn [fst snd] in *.
    eapply leaves_bind; [by apply IH|]. intros [results updates] Hu. apply leaves_ret. cbn. case_bool_decide; [done|]. by constructor.
Qed.
End entries.

(** ** The pass *)

Definition passed (self : string) (timeout : Z) (m m' : registry) : Prop :=
  forall i, option_Forall2 (fun x x' => x' = x \/ supervised self timeout x x') (m !! i) (m' !! i).

Lemma passed_refl self timeout m : passed self timeout m m.
Proof. intros i. destruct (m !! i); constructor. by left. Qed.

Lemma revised_passed self timeout us m m' : Forall (update_ok self timeout) us -> rstep m (ReviseAll us) m' -> passed self timeout m m'.
Proof.
  intros Hus Hs i. inversion Hs as [| | | | |? ? Hid Hrev| |]; subst. destruct (Hrev i) as [x x' Hx|]; constructor.
  destruct Hx as [(u & Hu & <- & <-)|[_ ->]]; [right|by left]. by eapply Forall_forall in Hus as [? _].
Qed.

(** The pass keeps who is registered where. *)
Lemma passed_exclusive self timeout m m' : passed self timeout m m' -> exclusive m -> keyed m -> exclusive m' /\ keyed m'.
Proof.
  intros Hp He Hk. assert (forall i, option_Forall2 (fun x y => sameEntryIdentity x y = true) (m !! i) (m' !! i)) as Hi.
  { intros i. destruct (Hp i) as [x x' Hx|]; constructor. destruct Hx as [->|Hx]; [apply identity_refl|by eapply supervised_identity]. }
  split; [by eapply exclusive_identity|by eapply keyed_identity].
Qed.

Lemma leaves_seed m l : leaves m (seedAdapterOwnership adapterRegistry l) (fun _ => True).
Proof.
  induction l as [|x l IH]; cbn [seedAdapterOwnership]; [by apply leaves_ret|]. eapply (leaves_bind _ _ _ _ _ _ (fun _ => True)); [|done].
  case_bool_decide; [by apply leaves_ret|]. destruct (Get adapterRegistry (Adapter x)) as [a|] eqn:Ea; [|by apply leaves_ret].
  apply Get_spec in Ea as [Ha _]. destruct (t_Remember a) eqn:Er; [by eapply ok_remember|by apply leaves_ret].
Qed.

Context (dir_plain : Forall (fun c => plain c = true) dir) (not_temp : HasPrefix f ".registry-" = false).

Lemma leaves_Load m : leaves m (Load (reg_path dir f))
  (fun r => match r with (file, None) => readable (entries file) /\ by_id (entries file) = m | (_, Some _) => True end).
Proof. intros I w Hm HI. by apply wpi_Load. Qed.

(** The conflicts of a pass, when the physical ones were looked for. *)
Definition pass_ok (l : list Entry) (m : registry) (physical : bool) (r : inventories * gmap string error) : Prop :=
  cache_ok e dir f absent owner r.1 /\ errors_ok r.2 /\
  forall x, x ∈ l -> r.2 !! ID x = None -> physical = true -> sole m x.

(** What the two kinds of conflicts say. *)
Definition target_ok (l : list Entry) (target : gmap string error) : Prop :=
  errors_ok target /\
  forall x y key, x ∈ l -> y ∈ l -> x <> y -> target_key norm x = Some key -> target_key norm y = Some key -> is_Some (target !! ID x).

Lemma leaves_merged l m target : readable l -> by_id l = m -> target_ok l target ->
  leaves m (physicalOwnershipConflicts l (passProbes l adapterRegistry) ∅)
    (fun r => cache_ok e dir f absent owner r.1 /\ errors_ok (mergeOwnershipConflicts target r.2) /\
      forall x, x ∈ l -> mergeOwnershipConflicts target r.2 !! ID x = None -> sole m x).
Proof.
  intros Hl Hb [Ht Htarget]. eapply leaves_mono; [eapply leaves_physical_conflicts; [done| |apply Hl]|].
  { intros n q Hq. by eapply passProbes_ok. }
  intros [c ph] (Hc & He & Hshared & Hfailed & Hload). cbn [fst snd] in *. unfold mergeOwnershipConflicts. split_and!; [done| |].
  { intros i err. rewrite lookup_union_Some_raw. intros [Hi|[_ Hi]]; [by apply (Ht i)|by apply (He i)]. }
  intros x Hx Hnone i y Hy Hne. rewrite lookup_union_None in Hnone. destruct Hnone as [Hn1 Hn2].
  rewrite <-Hb in Hy. apply by_id_elem in Hy as [Hy <-].
  assert (x <> y) as Hxy by (intros ->; done). split.
  - intros key Ex Ey. destruct (Htarget x y key Hx Hy Hxy Ex Ey). congruence.
  - intros Hown Ead. by eapply (own_owner l c ph x y).
Qed.

Lemma leaves_conflicts l m (physical : bool) target : readable l -> by_id l = m -> target_ok l target ->
  leaves m (if physical then '(c, physical) ← physicalOwnershipConflicts l (passProbes l adapterRegistry) ∅;
      Ret (c, mergeOwnershipConflicts target physical) else Ret (∅, target)) (pass_ok l m physical).
Proof.
  intros Hl Hb Ht. destruct physical.
  - eapply leaves_bind; [by apply leaves_merged|]. intros [c ph] (Hc & He & Hs). apply leaves_ret. split_and!; [done|done|]. intros x Hx Hn _. by apply Hs.
  - apply leaves_ret. split_and!; [|apply Ht|done]. cbn. intros n x Hx. by apply lookup_empty_Some in Hx.
Qed.

(** [k] is when the pass reads the clock first, [n] when it comes to the entry. *)
Lemma wpi_supervise_locked self timeout m w :
  (forall x k n, m !! ID x = Some x -> (due (e_clock e k) x = true -> sole m x) -> due (e_clock e n) x = true ->
    leaves m (StartWake (wake_request self timeout x)) (fun o => forall err, o = Some err -> err_text err)) ->
  registry_at dir f (tr w) m ->
  let I := fun t => exists m', passed self timeout m m' /\ registry_at dir f t m' in
  wpi e I (supervise_locked (reg_path dir f) self timeout) (fun _ w' => I (tr w')) w.
Proof.
  intros Hstart Hm I. assert (forall t, registry_at dir f t m -> I t) as HI by (intros t Ht; exists m; split; [apply passed_refl|done]).
  unfold supervise_locked. eapply wpi_leaves; [apply leaves_Load|done|done|]. intros [file [err|]] w1 Hm1 Hfile; [wret; auto|]. destruct Hfile as [Hr Hb].
  cbv zeta. eapply wpi_leaves; [apply leaves_seed|done|done|]. intros _ w2 Hm2 _.
  eapply wpi_leaves; [eapply leaves_target_conflicts; [done|apply Hr]|done|done|]. intros target w3 Hm3 Ht.
  eapply wpi_leaves; [apply leaves_clock|done|done|]. intros now w4 Hm4 [k Hnow]. set (physical := anyEntryDue (entries file) now).
  eapply wpi_leaves; [by apply (leaves_conflicts (entries file) m physical target)|done|done|]. intros [c conflicts] w5 Hm5 (Hc & He & Hsole). cbn [fst snd] in *.
  eapply wpi_leaves; [eapply (leaves_supervise_entries self timeout (entries file) conflicts m); [apply Hr|done| |done|done]|done|done|].
  - intros x n Hx Hnone Hdue. assert (m !! ID x = Some x) as Hmx by (rewrite <-Hb; apply by_id_lookup; [apply Hr|done]).
    apply (Hstart x k n); [done| |done]. intros Hd. apply Hsole; [done|done|]. apply existsb_exists. exists x.
    split; [by apply list_elem_of_In|]. by rewrite Hnow.
  - intros [results updates] w6 Hm6 Hu. cbn [fst snd] in *.
    assert (op_text (ReviseAll updates)) as Htext by (eapply Forall_impl; [exact Hu|]; intros u [_ Hx]; exact Hx).
    assert (forall t, at_op dir f m (ReviseAll updates) t -> I t) as Hat.
    { intros t [Hk|(m' & Hs & Hk)]; [auto|]. exists m'. split; [by eapply revised_passed|done]. }
    wbind. eapply wpi_inv_mono; [exact Hat|]. pose proof (wpi_run_op e dir f dir_plain not_temp m (ReviseAll updates) w6 Hm6 Htext) as Hw.
    cbn [run_op] in Hw. apply wpi_unret in Hw. eapply wpi_mono; [exact Hw|]. intros r w7 Hr7. wret. apply Hat. eapply ended_at; exact Hr7.
Qed.
End reconcile.
