(* ===== verification/KeepaliveRegister.v ===== *)
(** The transaction of a registration: the states the registry goes through. *)
From S2P Require Import Prelude GoStr GoSort GoTrim GoTime GoPath GoErr GoFile Fs Wp FsFacts DeliveryRootFacts Encode Json JsonFacts JsonUtf8 JsonStruct Registry RegistryJson RegistryMachine RegistryFacts RegistryStore Supervisor Keepalive KeepaliveFacts KeepalivePass.
From S2P Require Bridge Retry.

Section register.
Context `{Machine} `{Bridge.Crypto} `{SortSlice}.

(** The entry that is to be registered, with the owner of its terminal if that is known. *)
Definition candidate (next n : Entry) : Prop := n = next \/ exists key, n = set_key key next.

(** The registration took place: [m] became [m1], which has the entry [x]. *)
Definition entered (replace : bool) (next : Entry) (m m1 : registry) (x : Entry) : Prop :=
  exists n now, candidate next n /\ prepare_at now n = inl x /\ m1 !! ID x = Some x /\
    rstep m (if replace then Reattach n else Register n) m1.

(** The registry as it was; with the entry; with what the supervisor made of the entry. *)
Inductive registering (self : string) (timeout : Z) (replace : bool) (next : Entry) (m : registry) : registry -> Prop :=
| g_before : registering self timeout replace next m m
| g_entered m1 x : entered replace next m m1 x -> registering self timeout replace next m m1
| g_revised m1 x x' : entered replace next m m1 x -> supervised self timeout x x' -> registering self timeout replace next m (<[ID x := x']> m1).

Lemma entered_exclusive replace next m m1 x : entered replace next m m1 x -> exclusive m -> keyed m -> exclusive m1 /\ keyed m1.
Proof.
  intros (n & now & _ & _ & _ & Hs) He Hk. destruct replace; [by eapply exclusive_reattach|by eapply exclusive_register].
Qed.

Lemma revise_exclusive m1 x x' : m1 !! ID x = Some x -> sameEntryIdentity x x' = true -> exclusive m1 -> keyed m1 ->
  exclusive (<[ID x := x']> m1) /\ keyed (<[ID x := x']> m1).
Proof.
  intros Hx Hi He Hk. assert (forall i, option_Forall2 (fun x y => sameEntryIdentity x y = true) (m1 !! i) (<[ID x := x']> m1 !! i)) as Hall.
  { intros i. destruct (decide (i = ID x)) as [->|Hne]; [rewrite Hx, lookup_insert_eq; by constructor|rewrite lookup_insert_ne by done].
    destruct (m1 !! i); constructor. apply identity_refl. }
  split; [by eapply exclusive_identity|by eapply keyed_identity].
Qed.

(** No two entries get into each other's way at any of its states. *)
Lemma registering_exclusive self timeout replace next m m' : registering self timeout replace next m m' -> exclusive m -> keyed m ->
  exclusive m' /\ keyed m'.
Proof.
  intros Hr He Hk. destruct Hr as [|m1 x Hen|m1 x x' Hen Hs]; [done|by eapply entered_exclusive|].
  destruct (entered_exclusive _ _ _ _ _ Hen He Hk). apply revise_exclusive; [by destruct Hen as (? & ? & _ & _ & ? & _)|by eapply supervised_identity|done|done].
Qed.

(** Every entry is there, or one in its place: under its id, or of the same agent at the same root. *)
Definition place_kept (m m' : registry) : Prop :=
  forall i y, m !! i = Some y -> m' !! i = Some y \/ exists z, m' !! ID z = Some z /\ (ID z = i \/ sameRootAgent y z = true).

Lemma entered_place replace next m m1 x : entered replace next m m1 x -> place_kept m m1.
Proof.
  intros (n & now & _ & Hp & Hx & Hs) i y Hy. assert (forall now' x', prepare_at now' n = inl x' -> sameEntryIdentity x' x = true) as Hid.
  { intros now' x' Hp'. by eapply prepare_same. }
  assert (forall now' x', prepare_at now' n = inl x' -> ID x' = ID x /\ sameRootAgent y x' = sameRootAgent y x) as Hsame.
  { intros now' x' Hp'. pose proof (Hid _ _ Hp') as Hi. split; [by apply identity_fields in Hi as [-> _]|by apply same_identity_root]. }
  destruct replace; inversion Hs as [? now0 x0 Hp0 Hap|? now0 x0 old Hp0 Hold Hnew Hreg|? now0 x0 Hp0 Hap Hown| | | | | ]; subst;
    destruct (Hsame _ _ Hp0) as [Ei Er].
  - destruct (sameRootAgent y x0) eqn:Ey; [right; exists x; split; [done|right; congruence]|].
    destruct (decide (i = ID x)) as [->|Hne]; [right; exists x; auto|]. left. rewrite lookup_insert_ne by congruence.
    by apply map_lookup_filter_Some.
  - destruct (decide (i = ID x)) as [->|Hne]; [right; exists x; auto|]. left. by rewrite lookup_insert_ne by congruence.
  - destruct (decide (i = ID old)) as [->|Hne].
    + right. exists x. split; [done|]. right. assert (y = old) as -> by congruence. rewrite <-Er. unfold sameRegistration in Hreg. by apply andb_true_iff in Hreg as [? _].
    + left. rewrite lookup_insert_ne by (intros E; rewrite E in Hnew; congruence). by rewrite lookup_delete_ne.
Qed.

Lemma registering_place self timeout replace next m m' : registering self timeout replace next m m' -> place_kept m m'.
Proof.
  intros Hr. destruct Hr as [|m1 x Hen|m1 x x' Hen Hs]; [by left|by eapply entered_place|]. apply supervised_identity in Hs as Hi.
  assert (m1 !! ID x = Some x) as Hx by (by destruct Hen as (? & ? & _ & _ & ? & _)).
  pose proof (identity_fields _ _ Hi) as [Ei _]. intros i y Hy.
  destruct (entered_place _ _ _ _ _ Hen i y Hy) as [Hk|(z & Hz & Hzi)].
  - destruct (decide (i = ID x)) as [->|Hne]; [right; exists x'; split; [rewrite <-Ei; apply lookup_insert_eq|by left]|left; by rewrite lookup_insert_ne].
  - right. destruct (decide (ID z = ID x)) as [E|Hne]; [|exists z; by rewrite lookup_insert_ne].
    assert (z = x) as -> by congruence. exists x'. rewrite <-Ei, lookup_insert_eq. split; [done|]. destruct Hzi as [?|Hzi]; [left; congruence|right].
    by rewrite <-(same_identity_root x x' y Hi).
Qed.

(** Rolling a reattachment back gives the registry as it was. *)
Lemma rollback_before m n x removed m3 : keyed m ->
  displaced m (Reattach n) (<[ID x := x]> (filter (fun iy => sameRootAgent iy.2 x = false) m)) (Some (x, removed)) ->
  (forall y, m !! ID x = Some y -> sameRootAgent y x = true) ->
  rstep (<[ID x := x]> (filter (fun iy => sameRootAgent iy.2 x = false) m)) (Rollback x removed) m3 -> m3 = m.
Proof.
  intros Hkey (y0 & now & _ & _ & _ & Hrem & Hnd & _ & Hall & _) Hown Hs. inversion Hs as [| | |? ? Hr Hothers Hnd' Hfresh| | | |]; subst.
  apply map_eq. intros i. destruct (m !! i) as [y|] eqn:Ey.
  - apply lookup_union_Some_raw. destruct (sameRootAgent y x) eqn:Es.
    + left. apply by_id_lookup; [done|]. split; [by eapply Hall|by eapply Hkey].
    + right. assert (i <> ID x) as Hne by (intros ->; apply Hown in Ey; congruence). split.
      * apply by_id_None. intros (z & -> & Hz)%list_elem_of_fmap. destruct (Hrem z Hz). congruence.
      * rewrite lookup_delete_ne by done. rewrite lookup_insert_ne by done. by apply map_lookup_filter_Some.
  - apply lookup_union_None. split.
    + apply by_id_None. intros (z & -> & Hz)%list_elem_of_fmap. destruct (Hrem z Hz). congruence.
    + destruct (decide (i = ID x)) as [->|Hne]; [apply lookup_delete_eq|]. rewrite lookup_delete_ne, lookup_insert_ne by done.
      apply map_lookup_filter_None. by left.
Qed.

Lemma prepare_set_key now key next : prepare_at now (set_key key next) = match prepare_at now next with inl y => inl (set_key key y) | inr err => inr err end.
Proof.
  unfold prepare_at, set_key. cbn. destruct (CanonicalRoot (Root next)); [|done]. do 3 (case_bool_decide; [done|]).
  by destruct (negb _ && negb _).
Qed.

End register.

(** ** The transaction *)

Section transaction.
Context (e : env) `{Machine} `{Bridge.Crypto} `{SortSlice} `{Outside} (dir : path) (f : string).
Context (dir_plain : Forall (fun c => plain c = true) dir) (not_temp : HasPrefix f ".registry-" = false).
Context (absent : string -> string -> Prop) (norm : Terminal -> string -> string + error) (owner : string -> string -> string + error).
Context (Hout : outside_ok e dir f absent norm owner).

#[local] Abbreviation leaves := (leaves e dir f).
#[local] Abbreviation registry_at := (registry_at dir f).
#[local] Abbreviation reg_path := (reg_path dir f).

(** A wake for an entry of the registry. *)
Definition registered (self : string) (timeout : Z) (m : registry) (rq : StartWakeRequest) : Prop :=
  exists x, m !! ID x = Some x /\ rq = wake_request self timeout x.

Context (self : string) (timeout : Z).
Context (Hstart : starts_ok e dir f (registered self timeout)) (retired : RetireWakeRequest -> Prop) (Hretire : retires_ok e dir f absent retired).

(** What became of the entry [x]. *)
Definition version (x x' : Entry) : Prop := (x' = x \/ supervised self timeout x x') /\ entry_text x'.

(** A probe whose errors are texts. *)
Definition plain_probe (m : registry) (probe : string -> prog (option error)) : Prop :=
  forall target, leaves m (probe target) (fun o => forall err, o = Some err -> err_text err).

Lemma leaves_start_fresh m probe x : plain_probe m probe -> entry_text x -> m !! ID x = Some x ->
  leaves m (StartFresh_in self timeout probe x) (fun r => supervised self timeout x r.1 /\ entry_text r.1).
Proof.
  intros Hp Hx Hm. unfold StartFresh_in. eapply leaves_bind; [apply (leaves_reconcile e dir f absent norm owner Hout (fun _ : unit => True) True); [done|done| |]|].
  - intros [] target _. eapply leaves_bind; [apply Hp|]. intros o Ho. by apply leaves_ret.
  - intros n _ _. apply Hstart. by exists x.
  - intros [[] [y res]] (_ & (probed & n & now & Ho) & Hy). cbn in *. apply leaves_ret. split; [|done]. exists probed, n, now, y, res. auto.
Qed.

Lemma leaves_observe m root me : leaves m (observeWakeGeneration root me) (fun _ => True).
Proof. unfold observeWakeGeneration. eapply leaves_bind; [by eapply ok_check|]. intros x _. by apply leaves_ret. Qed.

(** A recovery that neither failed nor made the wake ready has left the entry alone. *)
Definition recovered (x : Entry) (r : Entry * bool * option failure) : Prop :=
  version x r.1.1 /\ (r.1.2 = false -> r.2 = None -> r.1.1 = x).

Lemma leaves_restart m probe previous x target : plain_probe m probe -> entry_text x -> m !! ID x = Some x -> absent (Adapter previous) target ->
  leaves m (restart_detached self timeout probe previous x target) (recovered x).
Proof.
  intros Hp Hx Hm Habs. assert (version x x) as Hxx by (split; [by left|done]).
  assert (forall y, supervised self timeout x y /\ entry_text y -> version x y) as Hver by (intros y [? ?]; split; [by right|done]).
  assert (forall y ready err, version x y -> recovered x (y, ready, Some err)) as Herr by (intros y ready err Hy; by split).
  assert (forall y, version x y -> recovered x (y, true, None)) as Hready by (intros y Hy; by split).
  unfold restart_detached. eapply leaves_bind; [apply leaves_observe|]. intros [generation|err] _; [|apply leaves_ret; auto].
  eapply leaves_bind; [by apply leaves_start_fresh|]. intros [updated initial] Hu. cbn [fst snd] in *.
  destruct (result_failure initial) as [err|]; [|apply leaves_ret; auto]. destruct (uncertain err); [apply leaves_ret; auto|].
  eapply leaves_bind; [by apply Hretire|]. intros [retireErr|] _; [apply leaves_ret; auto|].
  eapply leaves_bind; [by apply leaves_start_fresh|]. intros [retried retry] Hr. cbn [fst snd] in *.
  destruct (result_failure retry) as [err2|]; [|apply leaves_ret; auto]. destruct (uncertain err2); apply leaves_ret; auto.
Qed.

Lemma leaves_recover m probe x removed : plain_probe m probe -> entry_text x -> m !! ID x = Some x ->
  leaves m (recoverDetachedRegistration removed adapterRegistry self timeout probe x) (recovered x).
Proof.
  intros Hp Hx Hm. assert (forall o, recovered x (x, false, o)) as Hxx by (intros o; split; [split; [by left|done]|done]). unfold recoverDetachedRegistration.
  destruct (same_owner_entries x removed) as [[|previous [|? ?]]|err]; try by apply leaves_ret.
  destruct (_ && _); [by apply leaves_ret|]. destruct (Get adapterRegistry (Adapter previous)) as [a|err] eqn:Ea; [|by apply leaves_ret].
  apply Get_spec in Ea as [Ha Hn]. eapply leaves_bind; [by eapply leaves_normalize_with|]. intros [target|err] _; [|by apply leaves_ret].
  eapply leaves_bind; [by eapply ok_probe|]. intros [probeErr|] Hpr; [|by apply leaves_ret].
  destruct (is_not_found probeErr) eqn:En; cbn [negb]; [|by apply leaves_ret].
  apply leaves_restart; [done|done|done|]. rewrite <-Hn. by apply (Hpr probeErr).
Qed.

(** Recording what became of the entry. *)
Lemma wpi_update_entry m1 x x' w : registry_at (tr w) m1 -> m1 !! ID x = Some x -> version x x' ->
  wpi e (fun t => registry_at t m1 \/ registry_at t (<[ID x := x']> m1)) (UpdateEntry reg_path x')
    (fun o w' => match o with None => registry_at (tr w') (<[ID x := x']> m1) | Some _ => registry_at (tr w') m1 \/ registry_at (tr w') (<[ID x := x']> m1) end) w.
Proof.
  intros Hm Hx [Hver Ht]. assert (ID x' = ID x) as Ei.
  { destruct Hver as [->|Hs]; [done|]. apply supervised_identity, identity_fields in Hs as [-> _]. done. }
  assert (forall m2, rstep m1 (Revise x') m2 -> m2 = <[ID x := x']> m1) as Hstep by (inversion 1; subst; by rewrite Ei).
  assert (forall t, at_op dir f m1 (Revise x') t -> registry_at t m1 \/ registry_at t (<[ID x := x']> m1)) as Hat.
  { intros t [Hk|(m2 & Hs & Hk)]; [by left|right]. by rewrite <-(Hstep _ Hs). }
  eapply wpi_inv_mono; [exact Hat|]. pose proof (wpi_run_op e dir f dir_plain not_temp m1 (Revise x') w Hm Ht) as Hw.
  cbn [run_op] in Hw. apply wpi_unret in Hw. eapply wpi_mono; [exact Hw|]. intros o w' Hr. destruct o as [err|].
  - apply Hat. eapply ended_at. exact Hr.
  - destruct Hr as (m2 & Hs & Hk & _). by rewrite <-(Hstep _ Hs).
Qed.

Section states.
Context (next : Entry) (m : registry) (m_keyed : keyed m).

#[local] Abbreviation during := (fun replace t => exists m', registering self timeout replace next m m' /\ registry_at t m').

(** The result of the transaction: on success the registry has the entry that is returned. *)
Definition finished (replace : bool) (r : Entry * list Entry * option failure) (t : tree) : Prop :=
  match r with
  | (entry, _, None) => exists m', registering self timeout replace next m m' /\ registry_at t m' /\ m' !! ID entry = Some entry
  | (_, _, Some _) => during replace t
  end.

Lemma finished_during replace r t : finished replace r t -> during replace t.
Proof. destruct r as [[entry removed] [err|]]; [done|]. intros (m' & Hr & Ht & _). by exists m'. Qed.

Lemma version_finished replace m1 x x' t removed : entered replace next m m1 x -> version x x' -> registry_at t (<[ID x := x']> m1) ->
  finished replace (x', removed, None) t.
Proof.
  intros Hen [Hver _] Ht. assert (m1 !! ID x = Some x) as Hx by (by destruct Hen as (? & ? & _ & _ & ? & _)). destruct Hver as [->|Hs].
  - rewrite insert_id in Ht by done. exists m1. split_and!; [by eapply g_entered|done|done].
  - eexists. split_and!; [by eapply g_revised|done|]. apply supervised_identity, identity_fields in Hs as [-> _]. apply lookup_insert_eq.
Qed.

Lemma during_version replace m1 x x' t : entered replace next m m1 x -> version x x' -> registry_at t (<[ID x := x']> m1) -> during replace t.
Proof. intros Hen Hver Ht. eapply finished_during, (version_finished replace m1 x x' t []); done. Qed.

Lemma wpi_record replace m1 x x' w : entered replace next m m1 x -> version x x' -> registry_at (tr w) m1 ->
  wpi e (during replace) (UpdateEntry reg_path x')
    (fun o w' => match o with None => forall removed, finished replace (x', removed, None) (tr w') | Some _ => during replace (tr w') end) w.
Proof.
  intros Hen Hver Hm1. assert (m1 !! ID x = Some x) as Hx by (by destruct Hen as (? & ? & _ & _ & ? & _)).
  assert (forall t, registry_at t m1 \/ registry_at t (<[ID x := x']> m1) -> during replace t) as Hd.
  { intros t [Ht|Ht]; [exists m1; split; [by eapply g_entered|done]|by eapply during_version]. }
  eapply wpi_inv_mono; [exact Hd|]. eapply wpi_mono; [by apply wpi_update_entry|]. intros o w' Ho. destruct o as [err|]; [by apply Hd|].
  intros removed. by eapply version_finished.
Qed.

(** The reservation of a reattachment. *)
Definition reserved (n : Entry) (m1 : registry) (x : Entry) (removed : list Entry) : Prop :=
  candidate next n /\ rstep m (Reattach n) m1 /\ displaced m (Reattach n) m1 (Some (x, removed)).

Lemma reserved_entered n m1 x removed : reserved n m1 x removed -> entered true next m m1 x.
Proof. intros (Hn & Hs & (y & now & [= <-] & Hp & Hx & _)). by exists n, now. Qed.

Lemma reserved_back n m1 x removed m3 : reserved n m1 x removed -> rstep m1 (Rollback x removed) m3 -> m3 = m.
Proof.
  intros (Hn & Hs & Hd) Hr. pose proof Hd as (y & now & [= <-] & Hp & _ & _ & _ & _ & _ & Em). rewrite Em in Hd, Hr.
  eapply rollback_before; [done|exact Hd| |exact Hr]. intros z Hz. inversion Hs as [| |? now0 x0 Hp0 _ Hown| | | | |]; subst.
  pose proof (prepare_same _ _ _ _ _ Hp0 Hp) as Hi. rewrite <-(same_identity_root x0 x z Hi). apply Hown.
  by apply identity_fields in Hi as [-> _].
Qed.

Lemma wpi_resolve n m1 x removed candidate err w : reserved n m1 x removed -> version x candidate -> registry_at (tr w) m1 ->
  wpi e (during true) (resolveRegistrationReadinessFailure reg_path x candidate removed err) (fun _ w' => during true (tr w')) w.
Proof.
  intros Hres Hver Hm1. pose proof (reserved_entered _ _ _ _ Hres) as Hen. assert (m1 !! ID x = Some x) as Hx by (by destruct Hen as (? & ? & _ & _ & ? & _)).
  assert (forall t, registry_at t m1 -> during true t) as Hd1 by (intros t Ht; exists m1; split; [by eapply g_entered|done]).
  unfold resolveRegistrationReadinessFailure. destruct (uncertain err).
  - case_bool_decide; [wret; by apply Hd1|]. wbind. eapply wpi_mono; [by eapply wpi_record|].
    intros [er|] w1 Ho; wret; [done|]. eapply finished_during, (Ho []).
  - assert (forall t, at_op dir f m1 (Rollback x removed) t -> during true t) as Hat.
    { intros t [Ht|(m3 & Hs & Ht)]; [by apply Hd1|]. rewrite (reserved_back _ _ _ _ _ Hres Hs) in Ht. exists m. split; [apply g_before|done]. }
    assert (op_text (Rollback x removed)) as Htext by (by destruct Hres as (_ & _ & (? & ? & _ & _ & _ & _ & _ & ? & _))).
    wbind. eapply wpi_inv_mono; [exact Hat|]. pose proof (wpi_run_op e dir f dir_plain not_temp m1 (Rollback x removed) w Hm1 Htext) as Hw.
    cbn [run_op] in Hw. apply wpi_unret in Hw. eapply wpi_mono; [exact Hw|]. intros r w1 Hr. apply ended_at in Hr. apply Hat in Hr.
    destruct r as [[] [er|]]; by wret.
Qed.

Lemma leaves_check_target x ignore m0 : leaves m0 (CheckTargetAvailable reg_path x ignore) (fun _ => True).
Proof.
  intros I w Hm HI. unfold CheckTargetAvailable, prepareEntry. wbind. apply wpi_ro_bind; [ro_tac|by apply HI|]. intros now w1 Ht1 _. wret.
  rewrite <-Ht1 in Hm. destruct (prepare_at now x); [|by wret].
  eapply wpi_mono; [eapply (wpi_with_file e dir f dir_plain not_temp I m0 _ _ (fun _ t => registry_at t m0)); [done|done|done|]|done].
  intros file w2 Hm2 _ _. destruct (conflictingTargetOwner _ _ _); wret; auto.
Qed.

Section locked.
Context (opts : registerOptions) (Hpath : o_RegistryPath opts = reg_path) (Hself : o_Self opts = self) (Htimeout : o_WakeTimeout opts = timeout).

Lemma wpi_attach_locked probe n w : candidate next n -> op_text (Register n) -> (forall m1, plain_probe m1 probe) -> registry_at (tr w) m ->
  wpi e (during false) (attach_locked opts probe n) (fun r w' => finished false r (tr w')) w.
Proof.
  intros Hn Htext Hprobe Hm. unfold attach_locked. rewrite Hpath, Hself, Htimeout.
  assert (forall t, registry_at t m -> during false t) as Hd0 by (intros t Ht; exists m; split; [apply g_before|done]).
  assert (forall m1, rstep m (Register n) m1 -> exists x, entered false next m m1 x) as Hstep.
  { intros m1 Hs. inversion Hs as [? now0 x0 Hp|? now0 x0 old Hp| | | | | | ]; subst; exists x0, n, now0;
      (split_and!; [done|done|apply lookup_insert_eq|done]). }
  assert (forall t, at_op dir f m (Register n) t -> during false t) as Hat.
  { intros t [Ht|(m1 & Hs & Ht)]; [by apply Hd0|]. destruct (Hstep m1 Hs) as [x Hen]. exists m1. split; [by eapply g_entered|done]. }
  wbind. eapply wpi_mono; [eapply wpi_inv_mono; [exact Hat|]; by apply wpi_Upsert|]. intros [x [err|]] w1 Hup.
  { wret. apply Hat. by eapply (stepped_at dir f m _ (Some err)). }
  destruct Hup as (now & m1 & Hp & Hs & Hx & Hm1). assert (entered false next m m1 x) as Hen by (by exists n, now).
  assert (forall t, registry_at t m1 -> during false t) as Hd1 by (intros t Ht; exists m1; split; [by eapply g_entered|done]).
  assert (entry_text x) as Hxt by (by eapply Htext).
  destruct (o_NoStart opts); [wret; exists m1; split_and!; [by eapply g_entered|done|done]|].
  eapply wpi_leaves; [by apply leaves_start_fresh|done|done|]. intros [x' result] w2 Hm2 [Hsup Hxt']. cbn [fst snd] in *.
  wbind. eapply wpi_mono; [eapply (wpi_record false m1 x x'); [done|split; [by right|done]|done]|]. intros [err|] w3 Hw3; wret; [done|].
  case_bool_decide; [apply Hw3|]. destruct (result_failure result); [by eapply finished_during, (Hw3 [])|apply Hw3].
Qed.

Lemma wpi_reattach_locked probe n w : candidate next n -> op_text (Reattach n) -> (forall m1, plain_probe m1 probe) -> registry_at (tr w) m ->
  wpi e (during true) (reattach_locked opts adapterRegistry probe n) (fun r w' => finished true r (tr w')) w.
Proof.
  intros Hn Htext Hprobe Hm. unfold reattach_locked. rewrite Hpath, Hself, Htimeout.
  assert (forall t, registry_at t m -> during true t) as Hd0 by (intros t Ht; exists m; split; [apply g_before|done]).
  assert (forall t, at_op dir f m (Reattach n) t -> during true t) as Hat.
  { intros t [Ht|(m1 & Hs & Ht)]; [by apply Hd0|]. inversion Hs as [| |? now0 x0 Hp| | | | |]; subst.
    eexists. split; [|done]. eapply (g_entered _ _ _ _ _ _ x0). exists n, now0. split_and!; [done|done|apply lookup_insert_eq|done]. }
  eapply wpi_leaves; [apply leaves_check_target|done|done|]. intros [err|] w1 Hm1 _; [wret; by apply Hd0|].
  wbind. pose proof (wpi_run_op e dir f dir_plain not_temp m (Reattach n) w1 Hm1 Htext) as Hw. cbn [run_op] in Hw. apply wpi_unret in Hw.
  eapply wpi_mono; [eapply wpi_inv_mono; [exact Hat|exact Hw]|]. clear Hw. intros [[x removed] [err|]] w2 Hr.
  { wret. apply Hat. eapply ended_at. exact Hr. }
  destruct Hr as (m1 & Hs & Hk & Hdis). assert (reserved n m1 x removed) as Hres by done.
  pose proof (reserved_entered _ _ _ _ Hres) as Hen. assert (m1 !! ID x = Some x) as Hx by (by destruct Hen as (? & ? & _ & _ & ? & _)).
  assert (forall t, registry_at t m1 -> during true t) as Hd1 by (intros t Ht; exists m1; split; [by eapply g_entered|done]).
  assert (entry_text x) as Hxt by (destruct Hdis as (y & now & [= <-] & Hp & _); by eapply Htext).
  assert (version x x) as Hxx by (split; [by left|done]).
  destruct (o_NoStart opts); [wret; exists m1; split_and!; [by eapply g_entered|done|done]|].
  eapply (wpi_leaves _ _ _ _ m1 _ _ (recovered x)); [|done|done|].
  { destruct (o_RetireDetached opts); [by apply leaves_recover|apply leaves_ret; by split]. }
  intros [[x1 ready] [err|]] w3 Hm3 [Hver Hsame]; cbn [fst snd] in *.
  { wbind. eapply wpi_mono; [by eapply wpi_resolve|]. intros er w4 Hw4. by wret. }
  wbind. eapply (wpi_mono _ _ _ (fun z w' => match z with (_, Some _) => during true (tr w') | (x2, None) => version x x2 /\ registry_at (tr w') m1 end)).
  - destruct ready; [by wret|]. rewrite (Hsame eq_refl eq_refl).
    eapply wpi_leaves; [by apply leaves_start_fresh|done|done|]. intros [x2 result] w4 Hm4 [Hsup Hxt2]. cbn [fst snd] in *.
    assert (version x x2) as Hv2 by (split; [by right|done]). destruct (result_failure result) as [err|]; [|by wret].
    wbind. eapply wpi_mono; [by eapply wpi_resolve|]. intros er w5 Hw5. by wret.
  - intros [x2 [err|]] w4 Hz; [by wret|]. destruct Hz as [Hv2 Hm4]. wbind. eapply wpi_mono; [by eapply wpi_record|].
    intros [err|] w5 Hw5; wret; [done|apply Hw5].
Qed.

Lemma leaves_inventory a target trusted m0 : a ∈ Adapters -> leaves m0 (registrationTargetInventory a target trusted)
  (fun r => match r with inl (Some inv) => inventory_ok e dir f absent owner (Name a) inv | _ => True end).
Proof.
  intros Ha. unfold registrationTargetInventory. destruct (t_Inventory a) as [provider|] eqn:Ei.
  - eapply leaves_bind; [by eapply ok_inventory|]. intros [[inv|]|err] Hinv; [|by apply leaves_ret|by apply leaves_ret].
    eapply leaves_bind; [by apply Hinv|]. intros [err|] _; by apply leaves_ret.
  - eapply leaves_bind; [by eapply ok_probe|]. intros [err|] _; by apply leaves_ret.
Qed.

Lemma leaves_normalized a given m0 : a ∈ Adapters ->
  leaves m0 (normalizedTarget a given) (fun r => forall target, r = inl target -> terminal_of norm a (TrimSpace given) = inl target).
Proof.
  intros Ha. unfold normalizedTarget, terminal_of. cbv zeta. destruct (t_Normalize a) eqn:En.
  - eapply leaves_mono; [by eapply ok_normalize|]. by intros r -> target ->.
  - apply leaves_ret. case_bool_decide; [done|]. by intros target [= ->].
Qed.

Lemma leaves_physical_available l a inv x ignore m0 : a ∈ Adapters -> inventory_ok e dir f absent owner (Name a) inv ->
  leaves m0 (checkPhysicalTargetAvailable l a inv x ignore) (fun _ => True).
Proof.
  intros Ha Hinv. unfold checkPhysicalTargetAvailable. eapply leaves_bind; [by apply Hinv|]. intros [key|err] _; [|by apply leaves_ret].
  induction l as [|y l IH]; cbn [check_existing]; [by apply leaves_ret|]. destruct (_ || _); [done|].
  destruct (if ignore then _ else _) as [[]|err]; [done| |by apply leaves_ret].
  eapply (leaves_bind _ _ _ _ _ _ (fun _ => True)).
  - unfold existing_key. eapply leaves_bind; [by apply leaves_normalized|]. intros [target|err] _; [|by apply leaves_ret].
    eapply leaves_bind; [by apply Hinv|]. intros r _. by apply leaves_ret.
  - intros [k|err] _; [|by apply leaves_ret]. case_bool_decide; [by apply leaves_ret|done].
Qed.

Lemma wpi_register_locked a trusted w : a ∈ Adapters -> op_text (Register next) -> registry_at (tr w) m ->
  wpi e (during (o_Replace opts)) (register_locked opts adapterRegistry a trusted next) (fun r w' => finished (o_Replace opts) r (tr w')) w.
Proof.
  intros Ha Htext Hm. assert (forall t, registry_at t m -> during (o_Replace opts) t) as Hd0 by (intros t Ht; exists m; split; [apply g_before|done]).
  assert (forall probe n w', candidate next n -> op_text (Register n) /\ op_text (Reattach n) -> (forall m1, plain_probe m1 probe) -> registry_at (tr w') m ->
    wpi e (during (o_Replace opts)) (if o_Replace opts then reattach_locked opts adapterRegistry probe n else attach_locked opts probe n)
      (fun r w' => finished (o_Replace opts) r (tr w')) w') as Hgo.
  { intros probe n w' Hn [Ht1 Ht2] Hp Hw'. destruct (o_Replace opts); [by apply wpi_reattach_locked|by apply wpi_attach_locked]. }
  unfold register_locked. eapply wpi_leaves; [by apply leaves_inventory|done|done|]. intros [inv|err] w1 Hm1 Hinv; [|wret; by apply Hd0].
  rewrite Hpath. eapply wpi_leaves; [by apply leaves_Load|done|done|]. intros [file [err|]] w2 Hm2 _; [wret; by apply Hd0|]. destruct inv as [inv|].
  - eapply wpi_leaves; [by apply leaves_physical_available|done|done|]. intros [err|] w3 Hm3 _; [wret; by apply Hd0|].
    eapply wpi_leaves; [by apply Hinv|done|done|]. intros key w4 Hm4 [_ Hkey]. cbv zeta. apply Hgo; [| | |done].
    + destruct key as [key|err]; [right; by exists key|by left].
    + destruct key as [k|err]; [|done]. destruct Hkey as [Hkey _].
      split; intros now y; rewrite prepare_set_key; (destruct (prepare_at now next) eqn:Ep; [|done]); intros [= <-]; (apply set_key_text; [by eapply Htext|done]).
    + intros m1 target. eapply leaves_mono; [by apply Hinv|]. intros o Ho err E. by apply (Ho err).
  - apply Hgo; [by left|done| |done]. intros m1 target. eapply leaves_mono; [by eapply ok_probe|]. intros o Ho err E. by apply (Ho err).
Qed.

Lemma wpi_register_transaction rounds chosen a trusted w : a ∈ Adapters -> op_text (Register next) -> registry_at (tr w) m ->
  wpi e (during (o_Replace opts)) (register_transaction rounds chosen opts a trusted next)
    (fun r w' => during (o_Replace opts) (tr w') /\ forall x, r = Some x -> finished (o_Replace opts) x (tr w')) w.
Proof.
  intros Ha Htext Hm. assert (forall t, registry_at t m -> during (o_Replace opts) t) as Hd0 by (intros t Ht; exists m; split; [apply g_before|done]).
  unfold register_transaction. rewrite Hpath. eapply wpi_mono; [eapply (wpi_registration e dir f dir_plain not_temp _ m _ _ _ _ (finished (o_Replace opts))); [done|done| |]|].
  - intros err t Ht. by apply Hd0.
  - intros w' Hw'. eapply wpi_mono; [by apply wpi_register_locked|]. intros r w2 Hr. split; [eapply finished_during; exact Hr|exact Hr].
  - intros [r|] w' [Hd Hr]; (split; [done|]); [by intros x [= <-]|done].
Qed.
End locked.
End states.
End transaction.
