(* ===== verification/KeepaliveSafe.v ===== *)
(** Cleaning up: what garbage collection and the retirement of a session take out of the registry. *)
From S2P Require Import Prelude GoStr GoSort GoTime GoPath Json JsonFacts JsonStruct Encode GoTrim GoErr GoFile Fs Wp FsFacts DeliveryRootFacts Sample Supervisor JsonUtf8 Registry RegistryJson RegistryMachine RegistryFacts RegistryStore RegistrySafe Keepalive KeepaliveFacts KeepalivePass KeepaliveRegister.
From S2P Require Retry Bridge.

Section clean.
Context (e : env) `{Machine} `{Bridge.Crypto} `{SortSlice} `{Outside} (dir : path) (f : string).
Context (dir_plain : Forall (fun c => plain c = true) dir) (not_temp : HasPrefix f ".registry-" = false).
Context (absent : string -> string -> Prop) (norm : Terminal -> string -> string + error) (owner : string -> string -> string + error).
Context (retired : RetireWakeRequest -> Prop).
Context (Hout : outside_ok e dir f absent norm owner) (Hretire : retires_ok e dir f absent retired).

#[local] Abbreviation leaves := (leaves e dir f).
#[local] Abbreviation registry_at := (registry_at dir f).
#[local] Abbreviation reg_path := (reg_path dir f).
#[local] Abbreviation inventories := (gmap string (TargetInventory + error)).

(** Part of the registry is left, and what is missing is gone. *)
Definition cleaned (gone : Entry -> Prop) (m m' : registry) : Prop :=
  m' ⊆ m /\ forall i x, m !! i = Some x -> m' !! i = None -> gone x.

Lemma cleaned_refl gone m : cleaned gone m m.
Proof. split; [done|]. intros i x Hx Hn. congruence. Qed.

Lemma cleaned_delete gone m m' x : keyed m -> cleaned gone m m' -> m !! ID x = Some x -> gone x -> cleaned gone m (delete (ID x) m').
Proof.
  intros Hk [Hsub Hgone] Hx Hg. split; [etrans; [apply delete_subseteq|done]|]. intros i y Hy Hn.
  apply lookup_delete_None in Hn as [<-|Hn]; [|by eapply Hgone]. by replace y with x by congruence.
Qed.

(** The terminal that the adapter of the entry has under the spelling [given] is absent, and the wake
    of the entry at this very terminal was retired. *)
Definition wake_gone (self given : string) (x : Entry) : Prop :=
  exists a target generation, Get adapterRegistry (Adapter x) = inl a /\ terminal_of norm a given = inl target /\
    absent (Adapter x) target /\ retired (MkRetire (Root x) (Agent x) self (Adapter x) target generation).

Section steps.
Context (self : string) (gone : Entry -> Prop) (m : registry) (m_keyed : keyed m).

#[local] Abbreviation clean := (fun t => exists m', cleaned gone m m' /\ registry_at t m').

Lemma wpi_retire_entry x target generation w : m !! ID x = Some x -> absent (Adapter x) target ->
  (retired (MkRetire (Root x) (Agent x) self (Adapter x) target generation) -> gone x) -> clean (tr w) ->
  wpi e clean (retire_entry reg_path self target generation x) (fun _ w' => clean (tr w')) w.
Proof.
  intros Hx Habs Hgone (m1 & Hc & Hm1). assert (forall t, registry_at t m1 -> clean t) as Hk by (intros t Ht; by exists m1).
  unfold retire_entry. eapply wpi_leaves; [by apply Hretire|done|done|]. intros [err|] w1 Hw1 Hr; [wret; by apply Hk|].
  assert (forall t, at_op dir f m1 (DropIf x) t -> clean t) as Hat.
  { intros t [Ht|(m2 & Hs & Ht)]; [by apply Hk|]. inversion Hs; subst. eexists. split; [|done]. apply cleaned_delete; [done|done|done|].
    by apply Hgone, Hr. }
  wbind. eapply wpi_inv_mono; [exact Hat|]. pose proof (wpi_run_op e dir f dir_plain not_temp m1 (DropIf x) w1 Hw1 Logic.I) as Hw.
  cbn [run_op] in Hw. apply wpi_unret in Hw. eapply wpi_mono; [exact Hw|]. intros r w2 Hr2. apply ended_at, Hat in Hr2. destruct (r.2); by wret.
Qed.

(** ** Garbage collection *)

Lemma wpi_gc_entry apply minAge now (adapters := adapterRegistry) probes conflicts c x w :
  (forall n q, probes !! n = Some q -> q_ok n q) -> cache_ok e dir f absent owner c -> m !! ID x = Some x ->
  (apply = true -> gc_old minAge now conflicts x = true -> wake_gone self (TrimSpace (Target x)) x -> gone x) -> clean (tr w) ->
  wpi e clean (gc_entry reg_path self apply minAge now adapters probes conflicts c x)
    (fun r w' => clean (tr w') /\ cache_ok e dir f absent owner r.1) w.
Proof.
  intros Hprobes Hc Hx Hgone Hw. pose proof Hw as (m1 & Hcl & Hm1). assert (forall t, registry_at t m1 -> clean t) as Hk by (intros t Ht; by exists m1).
  unfold gc_entry. destruct (gc_old minAge now conflicts x) eqn:Eo; cbn [negb]; [|by wret].
  destruct (Get adapters (Adapter x)) as [a|err] eqn:Ea; [|by wret]. destruct (probes !! Adapter x) as [q|] eqn:Eq; [|by wret].
  pose proof (Get_spec _ _ Ea) as [Ha Hn]. eapply wpi_leaves; [by eapply leaves_normalized|done|done|]. intros [target|err] w1 Hw1 Etarget; [|wret; eauto].
  eapply (wpi_leaves _ _ _ _ m1 _ _ (fun _ => True)); [destruct apply; [by eapply leaves_observe|by apply leaves_ret]|done|done|].
  intros [generation|err] w2 Hw2 _; [|wret; eauto].
  eapply wpi_leaves; [eapply leaves_probe; [done|by apply Hprobes|done]|done|done|]. intros [c' [probeErr|]] w3 Hw3 [Hc' Hp]; cbn [fst snd] in *; [|wret; eauto].
  destruct (is_not_found probeErr) eqn:En; cbn [negb]; [|wret; eauto]. destruct apply; cbn [negb]; [|wret; eauto].
  wbind. eapply wpi_mono; [apply (wpi_retire_entry x target generation); [done|by apply (Hp probeErr)| |eauto]|].
  { intros Hr. apply Hgone; [done|done|]. exists a, target, generation. split_and!; [done|by apply Etarget|by apply (Hp probeErr)|done]. }
  intros r w4 Hw4. wret. eauto.
Qed.

Lemma wpi_gc_entries apply minAge now (adapters := adapterRegistry) probes conflicts l c w :
  (forall n q, probes !! n = Some q -> q_ok n q) -> cache_ok e dir f absent owner c -> (forall x, x ∈ l -> m !! ID x = Some x) ->
  (forall x, x ∈ l -> apply = true -> gc_old minAge now conflicts x = true -> wake_gone self (TrimSpace (Target x)) x -> gone x) -> clean (tr w) ->
  wpi e clean (gc_entries reg_path self apply minAge now adapters probes conflicts c l) (fun _ w' => clean (tr w')) w.
Proof.
  intros Hprobes. revert c w. induction l as [|x l IH]; intros c w Hc Hl Hgone Hw; cbn [gc_entries]; [by wret|].
  wbind. eapply wpi_mono; [apply wpi_gc_entry; [done|done|apply Hl; by left|intros; apply Hgone; [by left|done|done|done]|done]|].
  intros [c' [status err]] w1 [Hw1 Hc']. cbn [fst snd] in *. wbind. eapply wpi_mono; [apply IH; [done| | |done]|].
  - intros z Hz. apply Hl. by right.
  - intros z Hz. apply Hgone. by right.
  - intros [statuses errs] w2 Hw2. by wret.
Qed.


(** ** Retiring a session *)

Lemma leaves_absent_targets a l m0 : a ∈ Adapters -> Forall (fun x => Adapter x = Name a) l ->
  leaves m0 (absent_targets a l) (fun r => match r with
    | inl found => Forall (fun '(x, target, _) => x ∈ l /\ terminal_of norm a (Target x) = inl target /\ absent (Adapter x) target) found
    | inr _ => True end).
Proof.
  intros Ha Hl. induction Hl as [|x l Hx Hl IH]; cbn [absent_targets]; [apply leaves_ret; constructor|].
  eapply leaves_bind; [by eapply leaves_observe|]. intros [generation|err] _; [|by apply leaves_ret].
  eapply leaves_bind; [by eapply leaves_normalize_with|]. intros [target|err] Et; [|by apply leaves_ret].
  eapply leaves_bind; [by eapply ok_probe|]. intros [probeErr|] Hp; [|by apply leaves_ret].
  destruct (is_not_found probeErr) eqn:En; cbn [negb]; [|by apply leaves_ret].
  eapply leaves_bind; [exact IH|]. intros [rest|err] Hr; apply leaves_ret; [|done]. constructor.
  - split; [by left|]. split; [done|]. rewrite Hx. by apply (Hp probeErr).
  - eapply Forall_impl; [exact Hr|]. intros [[z t] g] [Hz Ht]. split; [by right|done].
Qed.

Lemma wpi_retire_all l w : Forall (fun '(x, target, _) => m !! ID x = Some x /\ absent (Adapter x) target) l ->
  (forall x target g, (x, target, g) ∈ l -> retired (MkRetire (Root x) (Agent x) self (Adapter x) target g) -> gone x) -> clean (tr w) ->
  wpi e clean (retire_all reg_path self l) (fun _ w' => clean (tr w')) w.
Proof.
  revert w. induction l as [|[[x target] g] l IH]; intros w Hl Hgone Hw; cbn [retire_all]; [by wret|]. apply Forall_cons in Hl as [[Hx Habs] Hl'].
  wbind. eapply wpi_mono; [apply wpi_retire_entry; [done|done| |done]|].
  { apply (Hgone x target g). by left. }
  intros [status err] w1 Hw1. wbind. eapply wpi_mono; [apply IH; [done| |done]|].
  { intros z t g' Hz. apply (Hgone z t g'). by right. }
  intros errs w2 Hw2. by wret.
Qed.

End steps.

(** ** The commands *)

(** What garbage collection takes out: detached for long enough, with a terminal of its own that is
    absent now, and a wake that was retired. *)
Definition gc_gone (self : string) (apply : bool) (minAge : Z) (m : registry) (x : Entry) : Prop :=
  apply = true /\ State x = StateDetached /\ IsZero (DetachedSince x) = false /\ (exists n, minAge <= e_clock e n - DetachedSince x)%Z /\
  sole norm owner m x /\ wake_gone self (TrimSpace (Target x)) x.

Lemma wpi_gc_locked self apply minAge m w : keyed m -> registry_at (tr w) m ->
  let I := fun t => exists m', cleaned (gc_gone self apply minAge m) m m' /\ registry_at t m' in
  wpi e I (gc_locked reg_path self apply minAge) (fun _ w' => I (tr w')) w.
Proof.
  intros Hkey Hm I. assert (forall t, registry_at t m -> I t) as HI by (intros t Ht; exists m; split; [apply cleaned_refl|done]).
  unfold gc_locked. eapply wpi_leaves; [by apply leaves_Load|done|done|]. intros [file [err|]] w1 Hm1 Hfile; [wret; auto|]. destruct Hfile as [Hr Hb].
  cbv zeta. eapply wpi_leaves; [eapply leaves_target_conflicts; [done|apply Hr]|done|done|]. intros target w2 Hm2 Ht.
  eapply wpi_leaves; [by apply (leaves_merged e dir f absent norm owner Hout (entries file) m target)|done|done|].
  intros [c physical] w3 Hm3 (Hc & _ & Hsole). cbn [fst snd] in *.
  eapply wpi_leaves; [apply leaves_clock|done|done|]. intros now w4 Hm4 [n Hnow].
  wbind. eapply wpi_mono; [apply (wpi_gc_entries self (gc_gone self apply minAge m) m Hkey); [|done| | |by apply HI]|].
  - intros k q Hq. by eapply passProbes_ok.
  - intros x Hx. rewrite <-Hb. apply by_id_lookup; [apply Hr|done].
  - intros x Hx Happly Hold Hwake. unfold gc_old in Hold. rewrite !andb_true_iff in Hold. destruct Hold as [[[H1'%bool_decide_eq_true H2'%negb_true_iff] H3'%negb_true_iff] H4'%bool_decide_eq_true].
    split_and!; [done|done|done| | |done]; [exists n; rewrite <-Hnow; by apply Z.ltb_ge|by apply Hsole].
  - intros [statuses errs] w5 Hw5. by wret.
Qed.

Lemma session_entry_spec l root name agent x : session_entry l root name agent = Some x ->
  x ∈ l /\ canonicalExistingPath (Root x) = inl root /\ Adapter x = name /\ Agent x = agent.
Proof.
  unfold session_entry. set (P := fun entry => _). destruct (List.filter P l) as [|y [|? ?]] eqn:E; try done. intros [= <-].
  assert (In y (List.filter P l)) as Hy by (rewrite E; by left). apply filter_In in Hy as [Hy Hp]. split; [by apply list_elem_of_In|].
  unfold P in Hp. destruct (canonicalExistingPath (Root y)); [|done]. rewrite !andb_true_iff, !bool_decide_eq_true in Hp.
  destruct Hp as [[-> ->] ->]. done.
Qed.

(** What the retirement of a session takes out: entries of its agents at its root. *)
Definition session_gone (self root name : string) (agents : list string) (x : Entry) : Prop :=
  canonicalExistingPath (Root x) = inl root /\ Adapter x = name /\ Agent x ∈ agents /\ wake_gone self (Target x) x.

Lemma wpi_retire_locked self root name agents m w : keyed m -> registry_at (tr w) m ->
  let I := fun t => exists m', cleaned (session_gone self root name agents) m m' /\ registry_at t m' in
  wpi e I (retire_locked reg_path self root name agents) (fun _ w' => I (tr w')) w.
Proof.
  intros Hkey Hm I. assert (forall t, registry_at t m -> I t) as HI by (intros t Ht; exists m; split; [apply cleaned_refl|done]).
  unfold retire_locked. eapply wpi_leaves; [by apply leaves_Load|done|done|]. intros [file [err|]] w1 Hm1 Hfile; [wret; auto|]. destruct Hfile as [Hr Hb].
  destruct (mapM (session_entry (entries file) root name) agents) as [found|] eqn:Ef; [|wret; auto].
  assert (forall x, x ∈ found -> x ∈ entries file /\ canonicalExistingPath (Root x) = inl root /\ Adapter x = name /\ Agent x ∈ agents) as Hfound.
  { apply mapM_Some in Ef. intros x Hx. apply list_elem_of_lookup in Hx as [i Hi]. destruct (Forall2_lookup_r _ _ _ _ _ Ef Hi) as (agent & Ha & Hse).
    apply session_entry_spec in Hse as (H1' & H2' & H3' & <-). split_and!; [done|done|done|]. by eapply list_elem_of_lookup_2. }
  destruct (Get adapterRegistry name) as [a|err] eqn:Ea; [|wret; auto]. pose proof (Get_spec _ _ Ea) as [Ha Hn].
  eapply wpi_leaves; [apply (leaves_absent_targets a found m Ha)|done|done|].
  { apply Forall_forall. intros x Hx. destruct (Hfound x Hx) as (_ & _ & -> & _). done. }
  intros [l|err] w2 Hm2 Hl; [|wret; auto]. wbind. eapply wpi_mono; [apply (wpi_retire_all self (session_gone self root name agents) m Hkey); [| |by apply HI]|].
  - eapply Forall_impl; [exact Hl|]. intros [[x target] g] (Hx & _ & Habs). split; [|done]. rewrite <-Hb. apply by_id_lookup; [apply Hr|]. split; [by apply Hfound|done].
  - intros x target g Hx Hw. pose proof (proj1 (Forall_forall _ _) Hl _ Hx) as (Hxf & Et & Habs). destruct (Hfound x Hxf) as (_ & Er & En & Hag).
    split_and!; [done|done|done|]. exists a, target, g. split_and!; [by rewrite En|done|done|done].
  - intros errs w3 Hw3. by wret.
Qed.
End clean.

(** What the commands of the keepalive guarantee. *)

Lemma wpi_both {A} e I (p : prog A) (Q : A -> world -> Prop) w : wpi e I p Q w ->
  Forall (fun w' => I (tr w')) (trace e p w) /\ Q (run e p w).1 (run e p w).2.
Proof. intros Hw. split; [by eapply wpi_trace|by apply wpi_run in Hw]. Qed.

Lemma wpi_weaken {A} e (I J : tree -> Prop) (p : prog A) (Q Q' : A -> world -> Prop) w :
  wpi e I p Q w -> (forall t, I t -> J t) -> (forall a w', Q a w' -> Q' a w') -> wpi e J p Q' w.
Proof. intros Hw HI HQ. eapply wpi_inv_mono; [exact HI|]. by eapply wpi_mono. Qed.

(** C14: A pass of the supervisor touches only terminals that one entry has for itself, when no entry
    becomes due in the course of the pass (see late_due_unchecked) and the terminals and the amq
    program keep their contracts.  Under any I/O failures a wake is asked for only for an entry of the
    registry whose target no other entry has, by its normal form or by its physical owner; and stopped
    after any call, the registry can be read and has the same entries, each of them either as it was
    or as the supervisor made it. *)
Theorem pass_own_terminals `{Machine} `{Bridge.Crypto} `{SortSlice} `{Outside} e dir f absent norm owner self timeout rounds chosen m w :
  Forall (fun c => plain c = true) dir -> HasPrefix f ".registry-" = false ->
  outside_ok e dir f absent norm owner -> starts_ok e dir f (own_terminal norm owner self timeout) -> registry_at dir f (tr w) m ->
  (forall n k i x, m !! i = Some x -> due (e_clock e n) x = due (e_clock e k) x) ->
  let p := superviseOnce rounds chosen (reg_path dir f) self timeout in
  let as_left := fun w' => exists m', passed self timeout m m' /\ registry_at dir f (tr w') m' in
  Forall as_left (trace e p w) /\ as_left (run e p w).2.
Proof.
  intros Hd Hf Hout Hstart Hm Hstill p as_left.
  set (I := fun t => exists m', passed self timeout m m' /\ registry_at dir f t m').
  assert (forall t, registry_at dir f t m -> I t) as HI by (intros t Ht; exists m; split; [apply passed_refl|done]).
  eapply (wpi_both e I p (fun _ w' => I (tr w'))). unfold p, superviseOnce.
  eapply wpi_mono; [eapply (wpi_registration e dir f Hd Hf I m _ _ _ _ (fun _ _ => True)); [done|done|done|]|by intros r w' [Hr _]].
  intros w' Hw'. eapply wpi_mono; [eapply wpi_supervise_locked; [done|done|done| |done]|done].
  intros x k n Hx Hsole Hdue. apply Hstart. exists x. split_and!; [done|done|]. apply Hsole. by rewrite (Hstill k n (ID x) x Hx).
Qed.

(** C15: A registration reserves its place before it starts a wake.  At every point, under any I/O
    failures and for terminals and an amq program that keep their contracts, the registry is as it
    was, or has the new entry (in a reattachment, in the place of what the agent had), or what the
    supervisor made of that entry; nobody else's place is lost, and a wake is asked for only when its
    entry is in the registry.  So the entry is there before the wake is known to be ready: a
    registration that succeeds returns an entry of the registry, and a reattachment whose wake failed
    has put back exactly what it displaced, or has left its own entry, which is what it does when it
    is uncertain whether the wake is ready (see slow_reattach_replaces).  *)
Theorem registration_transaction `{Machine} `{Bridge.Crypto} `{SortSlice} `{Outside} e dir f absent norm owner retired opts a trusted next rounds chosen m w :
  Forall (fun c => plain c = true) dir -> HasPrefix f ".registry-" = false ->
  outside_ok e dir f absent norm owner -> starts_ok e dir f (registered (o_Self opts) (o_WakeTimeout opts)) -> retires_ok e dir f absent retired ->
  registry_at dir f (tr w) m -> keyed m -> o_RegistryPath opts = reg_path dir f -> a ∈ Adapters -> op_text (Register next) ->
  let p := register_transaction rounds chosen opts a trusted next in
  let states := registering (o_Self opts) (o_WakeTimeout opts) (o_Replace opts) next m in
  let as_left := fun w' => exists m', states m' /\ place_kept m m' /\ registry_at dir f (tr w') m' in
  Forall as_left (trace e p w) /\ as_left (run e p w).2 /\
  forall entry removed, (run e p w).1 = Some (entry, removed, None) ->
    exists m', states m' /\ registry_at dir f (tr (run e p w).2) m' /\ m' !! ID entry = Some entry.
Proof.
  intros Hd Hf Hout Hstart Hretire Hm Hkey Hpath Ha Htext p states as_left.
  pose proof (wpi_register_transaction e dir f Hd Hf absent norm owner Hout (o_Self opts) (o_WakeTimeout opts) Hstart retired Hretire next m Hkey
    opts Hpath eq_refl eq_refl rounds chosen a trusted w Ha Htext Hm) as Hw.
  apply wpi_both in Hw as (Htr & Hend & Hfin).
  assert (forall w', (exists m', states m' /\ registry_at dir f (tr w') m') -> as_left w') as Hpl.
  { intros w' (m' & Hs & Hm'). exists m'. split_and!; [done|by eapply registering_place|done]. }
  split_and!; [eapply Forall_impl; [exact Htr|exact Hpl]|by apply Hpl|]. intros entry removed Hr. exact (Hfin _ Hr).
Qed.

(** C16: Cleaning up takes out only what is gone.  At every point of a garbage collection or of the
    retirement of a session, under any I/O failures, the registry has lost only entries whose own
    terminal (what their adapter has under their target) is proven absent and whose wake at this very
    terminal was retired; garbage collection only with apply set, and then entries that were detached
    for the minimal age and shared their terminal with nobody; the retirement only entries at the
    given root of the adapter and the agents that were named.  The terminals and the amq program keep
    their contracts. *)
Theorem cleanup_only_gone `{Machine} `{Bridge.Crypto} `{SortSlice} `{Outside} e dir f absent norm owner retired self rounds chosen m w :
  Forall (fun c => plain c = true) dir -> HasPrefix f ".registry-" = false ->
  outside_ok e dir f absent norm owner -> retires_ok e dir f absent retired -> registry_at dir f (tr w) m -> keyed m ->
  (forall apply minAge, let p := gc rounds chosen (reg_path dir f) self apply minAge in
    let as_left := fun w' => exists m', cleaned (gc_gone e absent norm owner retired self apply minAge m) m m' /\ registry_at dir f (tr w') m' in
    Forall as_left (trace e p w) /\ as_left (run e p w).2) /\
  (forall root own name agents list, canonicalExistingPath root = inl own -> parseRequiredAgents agents = inl list ->
    let p := retireSession rounds chosen (reg_path dir f) self root name agents in
    let as_left := fun w' => exists m', cleaned (session_gone absent norm retired self own name list) m m' /\ registry_at dir f (tr w') m' in
    Forall as_left (trace e p w) /\ as_left (run e p w).2).
Proof.
  intros Hd Hf Hout Hretire Hm Hkey. assert (forall gone t, registry_at dir f t m -> exists m', cleaned gone m m' /\ registry_at dir f t m') as HI
    by (intros gone t Ht; exists m; split; [apply cleaned_refl|done]).
  split.
  - intros apply minAge p as_left. set (I := fun t => exists m', cleaned (gc_gone e absent norm owner retired self apply minAge m) m m' /\ registry_at dir f t m').
    eapply (wpi_both e I p (fun _ w' => I (tr w'))). unfold p, gc. destruct (Z.ltb minAge 0); [wret; by apply HI|].
    eapply wpi_mono; [eapply (wpi_registration e dir f Hd Hf I m _ _ _ _ (fun _ _ => True)); [done|by intros; apply HI|done|]|by intros r w' [Hr _]].
    intros w' Hw'. eapply wpi_mono; [by eapply wpi_gc_locked|done].
  - intros root own name agents list Hown Hlist p as_left. set (I := fun t => exists m', cleaned (session_gone absent norm retired self own name list) m m' /\ registry_at dir f t m').
    eapply (wpi_both e I p (fun _ w' => I (tr w'))). unfold p, retireSession. case_bool_decide; [wret; by apply HI|].
    rewrite Hown, Hlist.
    eapply wpi_mono; [eapply (wpi_registration e dir f Hd Hf I m _ _ _ _ (fun _ _ => True)); [done|by intros; apply HI|done|]|by intros r w' [Hr _]].
    intros w' Hw'. eapply wpi_mono; [by eapply wpi_retire_locked|done].
Qed.

(** ** Histories of commands *)

Inductive command :=
| Supervise (rounds : nat) (chosen : nat -> option gerr) (self : string) (timeout : Z)
| Attach (rounds : nat) (chosen : nat -> option gerr) (opts : registerOptions) (a : Terminal) (trusted : string) (next : Entry)
| Collect (rounds : nat) (chosen : nat -> option gerr) (self : string) (apply : bool) (minAge : Z)
| Retire (rounds : nat) (chosen : nat -> option gerr) (self root name agents : string)
| Delete (rounds : nat) (chosen : nat -> option gerr) (id : string).

Section history.
Context `{Machine} `{Bridge.Crypto} `{SortSlice} (dir : path) (f : string).

Definition run_command `{Outside} (c : command) : prog unit :=
  match c with
  | Supervise rounds chosen self timeout => _ ← superviseOnce rounds chosen (reg_path dir f) self timeout; Ret tt
  | Attach rounds chosen opts a trusted next => _ ← register_transaction rounds chosen opts a trusted next; Ret tt
  | Collect rounds chosen self apply minAge => _ ← gc rounds chosen (reg_path dir f) self apply minAge; Ret tt
  | Retire rounds chosen self root name agents => _ ← retireSession rounds chosen (reg_path dir f) self root name agents; Ret tt
  | Delete rounds chosen id => _ ← forget rounds chosen (reg_path dir f) id; Ret tt
  end.

(** A registration is of an adapter and an entry that JSON can hold, in this registry. *)
Definition command_ok `{Outside} (c : command) : Prop :=
  match c with
  | Attach _ _ opts a _ next => o_RegistryPath opts = reg_path dir f /\ a ∈ Adapters /\ op_text (Register next)
  | _ => True
  end.

(** A command is run to its end, or stopped after one of its calls, among terminals and with an amq
    program that keep their contract; a wake is asked for only when its entry is in the registry. *)
Definition commanded (w w' : world) : Prop :=
  exists (e : env) (O : Outside) c absent norm owner retired,
    outside_ok e dir f absent norm owner /\ (forall self timeout, starts_ok e dir f (registered self timeout)) /\ retires_ok e dir f absent retired /\
    command_ok c /\ (tr w' = tr (run e (run_command c) w).2 \/ exists v, v ∈ trace e (run_command c) w /\ tr w' = tr v).

Definition exclusively (t : tree) : Prop := exists m, registry_at dir f t m /\ exclusive m /\ keyed m.

Lemma cleaned_exclusive gone m m' : cleaned gone m m' -> exclusive m -> keyed m -> exclusive m' /\ keyed m'.
Proof. intros [Hsub _] He Hk. split; [by eapply exclusive_sub|by eapply keyed_sub]. Qed.

Lemma wpi_command (e : env) `{Outside} c absent norm owner retired w : Forall (fun c => plain c = true) dir -> HasPrefix f ".registry-" = false ->
  outside_ok e dir f absent norm owner -> (forall self timeout, starts_ok e dir f (registered self timeout)) -> retires_ok e dir f absent retired ->
  command_ok c -> exclusively (tr w) -> wpi e exclusively (run_command c) (fun _ w' => exclusively (tr w')) w.
Proof.
  intros Hd Hf Hout Hstart Hretire Hc (m & Hm & He & Hk).
  assert (forall t, registry_at dir f t m -> exclusively t) as HI by (intros t Ht; by exists m).
  assert (forall {A} (fail : gerr -> A) fn rounds chosen, (forall w', registry_at dir f (tr w') m -> wpi e exclusively fn (fun _ w'' => exclusively (tr w'')) w') ->
    wpi e exclusively (WithRegistrationLockContext rounds (reg_path dir f) chosen fail fn) (fun _ w' => exclusively (tr w')) w) as Hlock.
  { intros A fail fn rounds chosen Hfn. eapply wpi_mono; [eapply (wpi_registration e dir f Hd Hf exclusively m _ _ _ _ (fun _ _ => True)); [done|done|done|]|by intros r w' [Hr _]].
    intros w' Hw'. eapply wpi_mono; [by apply Hfn|done]. }
  destruct c as [rounds chosen self timeout|rounds chosen opts a trusted next|rounds chosen self apply minAge|rounds chosen self root name agents|rounds chosen id];
    cbn [run_command command_ok] in *; wbind; (eapply wpi_mono; [|intros r w' Hr; wret; exact Hr]).
  - unfold superviseOnce. apply Hlock. intros w' Hw'. eapply wpi_weaken; [eapply (wpi_supervise_locked e dir f absent norm owner Hout Hd Hf self timeout m); [|done]| |].
    + intros x k n Hx _ _. apply (Hstart self timeout). by exists x.
    + intros t (m' & Hp & Ht). exists m'. split; [done|by eapply passed_exclusive].
    + intros r w2 (m' & Hp & Ht). exists m'. split; [done|by eapply passed_exclusive].
  - destruct Hc as (Hpath & Ha & Ht).
    pose proof (wpi_register_transaction e dir f Hd Hf absent norm owner Hout (o_Self opts) (o_WakeTimeout opts) (Hstart _ _) retired Hretire next m Hk
      opts Hpath eq_refl eq_refl rounds chosen a trusted w Ha Ht Hm) as Hw.
    eapply wpi_weaken; [exact Hw| |]; [intros t (m' & Hr & Hm')|intros r w' ((m' & Hr & Hm') & _)]; exists m'; (split; [done|by eapply registering_exclusive]).
  - unfold gc. destruct (Z.ltb minAge 0); [wret; by apply HI|]. apply Hlock. intros w' Hw'.
    eapply wpi_weaken; [by eapply wpi_gc_locked| |]; [intros t (m' & Hp & Ht)|intros r w2 (m' & Hp & Ht)]; exists m'; (split; [done|by eapply cleaned_exclusive]).
  - unfold retireSession. case_bool_decide; [wret; by apply HI|]. destruct (canonicalExistingPath root); [|wret; by apply HI].
    destruct (parseRequiredAgents agents); [|wret; by apply HI]. apply Hlock. intros w' Hw'.
    eapply wpi_weaken; [by eapply wpi_retire_locked| |]; [intros t (m' & Hp & Ht)|intros r w2 (m' & Hp & Ht)]; exists m'; (split; [done|by eapply cleaned_exclusive]).
  - unfold forget. case_bool_decide; [wret; by apply HI|]. apply Hlock. intros w' Hw'. unfold Forget. wbind. wbind.
    assert (forall t, at_op dir f m (Drop [id]) t -> exclusively t) as Hat.
    { intros t [Ht|(m' & Hs & Ht)]; [by apply HI|]. exists m'. apply drop_sub in Hs; [|done]. split_and!; [done|by eapply exclusive_sub|by eapply keyed_sub]. }
    pose proof (wpi_run_op e dir f Hd Hf m (Drop [id]) w' Hw' Logic.I) as Hw. cbn [run_op] in Hw. apply wpi_unret in Hw.
    eapply wpi_weaken; [exact Hw|exact Hat|]. intros [removed err] w2 Hr. wret. wret. apply Hat. eapply ended_at. exact Hr.
Qed.

End history.

(** C13: However many commands of the keepalive run, each to its end or stopped anywhere and under
    any I/O failures: the registry stays readable, and no two of its entries are of the same agent
    at the same root, or at the same terminal.  This is from an empty registry, for terminals and an
    amq program that keep their contracts (they leave the registry alone, and a terminal has one
    normal form per target), for entries whose texts are valid UTF-8 (see bad_text_corrupts), and for
    a machine on which the resolution of links does not change (see late_root_corrupts). *)
Theorem keepalive_exclusive `{Machine} `{Bridge.Crypto} `{SortSlice} dir f w w' :
  Forall (fun c => plain c = true) dir -> HasPrefix f ".registry-" = false -> registry_at dir f (tr w) ∅ -> rtc (commanded dir f) w w' ->
  exists m, registry_at dir f (tr w') m /\ exclusive m /\ keyed m.
Proof.
  intros Hd Hf Hm Hr. assert (exclusively dir f (tr w)) as Hw.
  { exists ∅. split; [done|]. destruct sound_empty as (He & Hk & _). done. }
  clear Hm. induction Hr as [|w1 w2 w3 Hs _ IH]; [done|]. apply IH.
  destruct Hs as (e & O & c & absent & norm & owner & retired & Hout & Hstart & Hretire & Hc & Hend).
  destruct (wpi_both _ _ _ _ _ (wpi_command dir f e c absent norm owner retired w1 Hd Hf Hout Hstart Hretire Hc Hw)) as [Htr Hfin].
  destruct Hend as [->|(v & Hv & ->)]; [done|]. by eapply (proj1 (Forall_forall _ _)) in Htr.
Qed.

(** ** Examples *)

#[local] Existing Instance plain_machine.
#[local] Existing Instance plain_hash.

(** One adapter whose probe gives one answer, and an amq program that does as it is told. *)
Definition calm (o : option error) : Outside := {|
  Adapters := [MkTerminal "cmux" (fun _ => Ret o) None None None None None];
  StartWake := fun _ => Ret None; CheckWake := fun _ _ => Ret (inl (MkCheck false "")); RetireWake := fun _ => Ret None;
  AmqEnv := Ret (inr (plain_error "no environment")); ctx_Err := Ret None; Quote := fun _ => "quoted" |}.

Definition nowhere : error := MkError "gone" true false false.
Definition no_owner (name target : string) : string + error := inr (plain_error "unknown").
Definition same_name (a : Terminal) (target : string) : string + error := inl target.

Lemma calm_ok e dir f (o : option error) (absent : string -> string -> Prop) :
  (forall err name target, o = Some err -> err_text err /\ (is_not_found err = true -> absent name target)) ->
  @outside_ok e plain_machine plain_hash _ (calm o) dir f absent same_name no_owner.
Proof.
  intros Ho. split; cbn; intros.
  - apply list_elem_of_singleton in H as ->. apply leaves_ret. intros err E. by apply Ho.
  - apply list_elem_of_singleton in H as ->. done.
  - apply list_elem_of_singleton in H as ->. done.
  - apply list_elem_of_singleton in H as ->. done.
  - apply list_elem_of_singleton in H as ->. done.
  - by apply leaves_ret.
  - by apply leaves_ret.
  - done.
Qed.

Lemma calm_starts e dir f o P : @starts_ok e plain_machine plain_hash _ (calm o) dir f P.
Proof. intros m rq _. by apply leaves_ret. Qed.

Lemma calm_retires e dir f o absent : @retires_ok e plain_machine plain_hash _ (calm o) dir f absent (fun _ => True).
Proof. intros m rq _. by apply leaves_ret. Qed.

(** A registry with one entry. *)
Definition wake_of (state : string) (since : Z) : Entry :=
  MkEntry (EntryID "/q/s1" "codex" "cmux" "A") "/q/s1" "" "" "codex" "cmux" "A" "" state 1 zero_time 0 zero_time zero_time since "" "".

Definition wake_text_of (x : Entry) : string := file_text (MkFile 1 (Some [x])).
Definition wake_world (x : Entry) : world :=
  let t := tr keepalive_world in
  World (t_write (add_file t (keepalive_dir ++ ["registry.json"])) (fresh_ino t) (wake_text_of x)) 0 ∅ 0 ∅.

#[local] Abbreviation attached := (wake_of StateAttached zero_time).
#[local] Abbreviation detached := (wake_of StateDetached 1).
#[local] Abbreviation reg := (reg_path keepalive_dir "registry.json").
#[local] Abbreviation never := (fun _ : nat => @None gerr).

Lemma wake_world_at x : (exists f0, parse_file (wake_text_of x) = inl f0 /\ by_id (entries f0) = {[ID x := x]}) ->
  registry_at keepalive_dir "registry.json" (tr (wake_world x)) {[ID x := x]}.
Proof.
  intros (f0 & Hp & Hb). split; [split; [reflexivity|exists 2%N; reflexivity]|]. right. exists (wake_text_of x), f0. split; [reflexivity|]. by rewrite Hb.
Qed.

Lemma attached_at : registry_at keepalive_dir "registry.json" (tr (wake_world attached)) {[ID attached := attached]}.
Proof. apply wake_world_at. eexists. split; vm_compute; reflexivity. Qed.

Lemma detached_at : registry_at keepalive_dir "registry.json" (tr (wake_world detached)) {[ID detached := detached]}.
Proof. apply wake_world_at. eexists. split; vm_compute; reflexivity. Qed.

#[local] Abbreviation calm_pass := (run quiet_env (@superviseOnce plain_machine plain_hash _ (calm None) 1 never reg "keep" 5) (wake_world attached)).

Lemma attached_still n k i x : ({[ID attached := attached]} : registry) !! i = Some x -> due (e_clock quiet_env n) x = due (e_clock quiet_env k) x.
Proof. intros [<- <-]%lookup_singleton_Some. reflexivity. Qed.

(** The agent is there, and its wake is started. *)
Lemma pass_own_terminals_witness :
  calm_pass.1 = Some ([MkResult ActionEnsured true []], None) /\
  exists m', passed "keep" 5 {[ID attached := attached]} m' /\ registry_at keepalive_dir "registry.json" (tr calm_pass.2) m'.
Proof.
  split; [vm_compute; reflexivity|].
  apply (@pass_own_terminals plain_machine plain_hash _ (calm None) quiet_env keepalive_dir "registry.json" (fun _ _ => False) same_name no_owner "keep" 5 1 never
    {[ID attached := attached]} (wake_world attached));
    [exact keepalive_dir_plain|reflexivity|apply calm_ok; discriminate|apply calm_starts|exact attached_at|exact attached_still].
Defined.

#[local] Abbreviation cmux := (MkTerminal "cmux" (fun _ => Ret None) None None None None None).
#[local] Abbreviation attach_opts := (MkOptions reg "cmux" "A" "/q/s1" "" "" "codex" "keep" 5 false false false).
#[local] Abbreviation calm_register := (@register_transaction plain_machine plain_hash _ (calm None) 1 never attach_opts cmux "" first_wake).

Lemma first_wake_text : op_text (Register first_wake).
Proof. apply wake_text; reflexivity. Qed.

Lemma cmux_there : cmux ∈ @Adapters (calm None).
Proof. apply list_elem_of_singleton. reflexivity. Qed.

(** A first registration: the entry is there, and its wake was started. *)
Lemma registration_transaction_witness : let r := run quiet_env calm_register keepalive_world in
  exists entry m', r.1 = Some (entry, [], None) /\ registering "keep" 5 false first_wake ∅ m' /\
    registry_at keepalive_dir "registry.json" (tr r.2) m' /\ m' !! ID entry = Some entry.
Proof.
  eexists _. cut (exists m', registering "keep" 5 false first_wake ∅ m' /\ registry_at keepalive_dir "registry.json" (tr (run quiet_env calm_register keepalive_world).2) m' /\
    m' !! ID (from_option (fun r => r.1.1) zero_entry (run quiet_env calm_register keepalive_world).1) =
    Some (from_option (fun r => r.1.1) zero_entry (run quiet_env calm_register keepalive_world).1)).
  { intros (m' & Hm'). exists m'. split; [|exact Hm']. vm_compute. reflexivity. }
  eapply (@registration_transaction plain_machine plain_hash _ (calm None) quiet_env keepalive_dir "registry.json" (fun _ _ => False) same_name no_owner
    (fun _ => True) attach_opts cmux "" first_wake 1 never ∅ keepalive_world);
    [exact keepalive_dir_plain|reflexivity|apply calm_ok; discriminate|apply calm_starts|apply calm_retires|exact keepalive_empty|apply sound_empty|reflexivity|
     exact cmux_there|exact first_wake_text|vm_compute; reflexivity].
Defined.

#[local] Abbreviation gone_gc := (run quiet_env (@gc plain_machine plain_hash _ (calm (Some nowhere)) 1 never reg "keep" true 5) (wake_world detached)).

Lemma singleton_keyed x : keyed {[ID x := x]}.
Proof. intros i y [<- <-]%lookup_singleton_Some. reflexivity. Qed.

(** The terminal of the detached entry is gone: its wake is retired, and its entry is taken out. *)
Lemma cleanup_only_gone_witness :
  gone_gc.1 = Some ([gc_retired], None) /\
  exists m', cleaned (@gc_gone quiet_env (calm (Some nowhere)) (fun _ _ => True) same_name no_owner (fun _ => True) "keep" true 5
    {[ID detached := detached]}) {[ID detached := detached]} m' /\ registry_at keepalive_dir "registry.json" (tr gone_gc.2) m'.
Proof.
  split; [vm_compute; reflexivity|].
  apply (@cleanup_only_gone plain_machine plain_hash _ (calm (Some nowhere)) quiet_env keepalive_dir "registry.json" (fun _ _ => True) same_name no_owner (fun _ => True)
    "keep" 1 never {[ID detached := detached]} (wake_world detached));
    [exact keepalive_dir_plain|reflexivity|apply calm_ok; intros err ? ? [= <-]; split; reflexivity|apply calm_retires|exact detached_at|apply singleton_keyed].
Defined.

#[local] Abbreviation calm_command := (fun c => @run_command plain_machine plain_hash _ keepalive_dir "registry.json" (calm None) c).
#[local] Abbreviation attach_first := (Attach 1 never attach_opts cmux "" first_wake).
#[local] Abbreviation one_pass := (Supervise 1 never "keep" 5).

Lemma calm_commanded c w : @command_ok plain_machine plain_hash keepalive_dir "registry.json" (calm None) c ->
  @commanded plain_machine plain_hash _ keepalive_dir "registry.json" w (run quiet_env (calm_command c) w).2.
Proof.
  intros Hc. exists quiet_env, (calm None), c, (fun _ _ => False), same_name, no_owner, (fun _ => True).
  split_and!; [apply calm_ok; discriminate|intros; apply calm_starts|apply calm_retires|exact Hc|left; reflexivity].
Qed.

Lemma keepalive_exclusive_witness :
  let w1 := (run quiet_env (calm_command attach_first) keepalive_world).2 in
  let w2 := (run quiet_env (calm_command one_pass) w1).2 in
  exists m, registry_at keepalive_dir "registry.json" (tr w2) m /\ exclusive m /\ keyed m.
Proof.
  eapply (@keepalive_exclusive plain_machine plain_hash _ keepalive_dir "registry.json" keepalive_world); [exact keepalive_dir_plain|reflexivity|exact keepalive_empty|].
  eapply rtc_l; [apply (calm_commanded attach_first); exact (conj eq_refl (conj cmux_there first_wake_text))|].
  eapply rtc_l; [apply (calm_commanded one_pass); exact Logic.I|]. apply rtc_refl.
Defined.

(** A clock that moves on with every call. *)
Definition ticking : env := Env (e_fault quiet_env) (e_base quiet_env) (fun n => Z.of_nat (S n)) (e_random quiet_env) (e_pid quiet_env) (e_rand quiet_env)
  (e_order quiet_env) (e_order_perm quiet_env).

(** Two spellings of one pane. *)
Definition one_pane : Outside := {|
  Adapters := [MkTerminal "cmux" (fun _ => Ret None) None None (Some (fun _ => Ret (inl "pane"))) None None];
  StartWake := fun _ => Ret None; CheckWake := fun _ _ => Ret (inl (MkCheck false "")); RetireWake := fun _ => Ret None;
  AmqEnv := Ret (inr (plain_error "no environment")); ctx_Err := Ret None; Quote := fun _ => "quoted" |}.

Definition pane_entry (root agent target : string) (until : Z) : Entry :=
  MkEntry (EntryID root agent "cmux" target) root "" "" agent "cmux" target "" StateAttached 1 zero_time 0 zero_time until zero_time "" "".

Definition two_wakes (until : Z) : world :=
  let t := tr keepalive_world in
  World (t_write (add_file t (keepalive_dir ++ ["registry.json"])) (fresh_ino t)
    (file_text (MkFile 1 (Some [pane_entry "/q/s1" "codex" "A" until; pane_entry "/q/s2" "claude" "B" until])))) 0 ∅ 0 ∅.

#[local] Abbreviation pane_pass := (fun until : Z => (run ticking (@superviseOnce plain_machine plain_hash _ one_pane 1 never reg "keep" 5) (two_wakes until)).1).

(** Whether the physical owners are looked up is decided by one reading of the clock, and whether an
    entry is due by a later one: an entry that becomes due in between is started unchecked, so that
    two wakes are started for one pane.  A nanosecond earlier the same entries are in conflict. *)
Lemma late_due_unchecked :
  (fun r => List.map Action r.1) <$> pane_pass 17%Z = Some [ActionBackoff; ActionBackoff] /\
  (fun r => List.map Action r.1) <$> pane_pass 18%Z = Some [ActionEnsured; ActionEnsured].
Proof. split; vm_compute; reflexivity. Qed.

(** An amq program that does not say in time whether the wake is ready. *)
Definition slow : Outside := {|
  Adapters := [MkTerminal "cmux" (fun _ => Ret None) None None None None None];
  StartWake := fun _ => Ret (Some (MkError "timeout" false false true)); CheckWake := fun _ _ => Ret (inl (MkCheck false ""));
  RetireWake := fun _ => Ret None; AmqEnv := Ret (inr (plain_error "no environment")); ctx_Err := Ret None; Quote := fun _ => "quoted" |}.

#[local] Abbreviation reattach_opts := (MkOptions reg "cmux" "C" "/q/s1" "" "" "codex" "keep" 5 false true false).
#[local] Abbreviation slow_reattach :=
  (run quiet_env (@register_transaction plain_machine plain_hash _ slow 1 never reattach_opts cmux "" moved_wake) (wake_world attached)).

(** A reattachment whose wake is not ready in time fails, and its own entry has replaced the one
    that was there. *)
Lemma slow_reattach_replaces :
  (exists r x, slow_reattach.1 = Some (r, Some x)) /\
  (fun d => match parse_file d with inl file => Target <$> entries file | inr _ => [] end) <$> content (tr (wake_world attached)) reg = Some ["A"] /\
  (fun d => match parse_file d with inl file => Target <$> entries file | inr _ => [] end) <$> content (tr slow_reattach.2) reg = Some ["C"].
Proof. vm_compute. split_and!; [eexists _, _|..]; reflexivity. Qed.
